(* ===== verification/_CoqProject ===== *)
-Q . S2P
Prelude.v
PyText.v
Json.v
Scopes.v
Budget.v
ExecModels.v
Registry.v
Authority.v
Approvals.v
Prog.v
Tasks.v
RunnerPolicy.v
RunnerIntent.v
Mediation.v
RunnerLoop.v
RunInvariants.v
RunnerBatch.v
Supervisor.v
ActiveRuns.v
Stream.v
SessionModels.v
Sessions.v
SessionProps.v
PluginModels.v
Effects.v
EffectMachine.v
EffectProps.v
PluginGraph.v
PluginRegistry.v
PluginManager.v
PluginManagerProps.v
PluginTransitions.v
Bundle.v
CustomerBundle.v
Activation.v
ActivationProps.v
Kernel.v
Hosting.v
Memory.v
Customer360.v
Customer360Props.v
AgentTasks.v
Delegation.v
DelegationProps.v
ModelTypes.v
ModelContext.v
ModelGateway.v
ModelGatewayProps.v
ReAct.v
AgentStrategies.v
WorkspacePaths.v
SecureFs.v
SecureFsProps.v
FileTools.v
ScopeContexts.v
ChannelGateway.v
ChannelApprovals.v
ChannelTasks.v
