(* ===== verification/Prelude.v ===== *)
(** * SuiteHarness: a verification of the trusted execution core

    SuiteHarness ([src/src/suiteharness]) runs product agents: an untrusted
    workflow proposes tool calls, and a trusted runner decides which of them
    happen; a kernel decides which products, bundles and plugins are there at all.
    This development models the trusted core, file by file, as executable
    definitions, and proves what makes it correct.

    ** Parts and how they interact

    The runner ([execution/runner.py]) owns the run loop.  For every proposed
    call it resolves the tool in the scoped registry, resolves the run's grant
    in the capability authority ([execution/in_memory.py]), asks the channel
    policy, consumes an approval from the approval store when one is needed,
    charges the shared quota ([multiagent/budget.py]), and records every step in
    the audit journal.  Scopes ([runtime/scopes.py]) say who asks; the value
    classes of [execution/models.py] say what crosses the boundary; the session
    store ([sessions/memory.py]) keeps transcripts, run claims, checkpoints and
    resume points.

    Below the runner, the kernel ([runtime/kernel.py]) activates a customer bundle
    ([runtime/customer_bundle.py]): it checks the plan, prepares every product,
    resolves the bundles each needs ([runtime/bundle.py]), opens a tenant scope and
    a product scope each ([runtime/effects.py]), installs everything and publishes
    the activation in the tenant's slot, or undoes all of it.  Plugins
    ([plugins]) follow the same pattern: a planner orders them, fibers own their
    effects, a registry publishes their contributions.  The products of a tenant
    keep private profiles and share through Customer360 ([memory/in_memory.py]), under
    the sharing policies that the kernel configures when it activates a bundle.
    A run may delegate a task to a child agent ([multiagent]): the service narrows the
    grant of the parent, charges the quota both share, records the task and runs the
    child through the same runner.

    The default strategies sit on the other side of the boundary: the ReAct workflow
    ([agents/react.py]) turns prompts ([PromptStrategy]) and observations into requests
    to the model gateway ([models/gateway.py]), which prepares their context
    ([models/context.py]) and tries the profiles of a route in order, and turns the
    answer into decisions, which a reviewing model may revise ([agents/reflection.py]).

    Requests come in through the channel gateway ([channels/gateway.py]), which authenticates
    them, asks who may use which product and builds the only request scopes the
    application sees; a Web connection does its work in a bounded group of tasks
    ([channels/websocket/tasks.py]), and its users approve tool calls through the
    coordinator of [channels/approvals.py], the runner's interactive broker.

    Two more collaborators behind the boundary are modelled: the policy of the
    company channels ([channels/policy.py]), and the file tools that write
    ([tools/workspace.py]) on the access policies of the workspace ([workspace/access.py])
    and the descriptor-anchored backend ([workspace/secure_fs.py]).

    ** Files

    - [Prelude]: exceptions and fallible results ([res], [let!], [require]),
      insertion-ordered dictionaries, the tactics [py_simpl], [py_case],
      [decide_by_vm], [solve_finite].
    - [PyText]: Python strings as UTF-8 bytes, the regular expressions of the
      sources as recognisers, timestamps, dynamically typed number arguments.
    - [Json]: JSON values, [canonical_json], a parser.
    - [Scopes]: [ScopePath], [RequestScope], [ServiceKey], [ServiceBindings] of
      [runtime/scopes.py].
    - [ExecModels]: every class of [execution/models.py] as a record with its
      validators in one fallible constructor.
    - [Budget]: [AggregateRunBudget] of [multiagent/budget.py].
    - [Registry], [Authority], [Approvals]: the three in-memory stores of
      [execution/in_memory.py]; one definition per method, one atomic step per
      critical section.
    - [Prog]: effectful programs as trees of questions with continuations;
      traces, cancelled traces, a weakest-precondition calculus over all
      environments ([wp], [wp_sound]).
    - [Tasks]: programs whose exceptions carry data and whose handlers read locals,
      with the same calculus ([mwp]).
    - [RunnerPolicy], [RunnerIntent]: the pure policy parts of the runner, and
      [_execute_intent] with its helpers as one program.
    - [Mediation]: what every trace of one tool call satisfies.
    - [RunnerLoop]: [_run_loop] with checkpoints, resume, prompts, the workflow
      stream, review, batches and overflow.
    - [RunInvariants]: what every trace of a run satisfies; the class [Quota] is
      the contract between the loop and the quota it charges, discharged by
      [Budget].
    - [RunnerBatch]: [_execute_batch] as interleavings of tasks under a
      semaphore, and whole runs with their batches expanded.
    - [Supervisor]: [_run] and [_terminate], from whatever state the loop was
      stopped in; the supervisor is a program of its own awaits, where it may be
      cancelled, with the handler and the [finally] block of the source.
    - [ActiveRuns]: the table of active runs and [cancel], under interleaved
      calls.
    - [Stream]: [stream], [publish] and [run] of the runner.
    - [SessionModels], [Sessions], [SessionProps]: [sessions/models.py], the
      operations of [sessions/memory.py], and what every history satisfies.
    - [Effects]: [EffectScope] ([runtime/effects.py], Module [Scope]) and
      [PluginFiber] ([plugins/lifecycle.py], Module [Fiber]), an abstract contract of
      owned effects (Module [Contract]) and the class [Refines] that both implement.
    - [EffectMachine], [EffectProps]: interleaved tasks that register, enter and
      close over any owner; what every history satisfies, proved on the contract and
      carried to both implementations.
    - [PluginModels], [PluginGraph], [PluginRegistry]: [plugins/models.py], the
      planner of [plugins/graph.py], the registry of [plugins/registry.py] with the
      activation context of [plugins/manager.py].
    - [PluginManager], [PluginManagerProps], [PluginTransitions]: [PluginManager] of
      [plugins/manager.py] with its contexts and fibers; building, unwinding and
      rolling back against arbitrary plugin code; what callers of [activate],
      [reload] and [deactivate] see in every reachable state.
    - [Bundle]: [runtime/descriptor.py] and [resolve_bundle_plan].
    - [CustomerBundle]: [runtime/customer_bundle.py].
    - [Activation], [ActivationProps]: [activate_customer_bundle] with its helpers
      and [install_bundle_plan] as one program over the answers of activators,
      installers and scopes; what every trace of it satisfies.
    - [Kernel]: the activation slots of [HarnessKernel] under interleaved calls.
    - [Hosting]: tools registered by products, run leases, the scope guards of an
      activation.
    - [Memory], [Customer360], [Customer360Props]: private profiles and the curated
      sharing of [memory/in_memory.py], and what every history of interleaved calls
      satisfies.
    - [AgentTasks]: the table of delegated tasks of [multiagent/sqlite.py] with the life
      cycle of [multiagent/tasks.py], and what every history of calls satisfies.
    - [Delegation], [DelegationProps]: [delegate] of [multiagent/service.py] with the
      roles and their configuration; what every trace of it satisfies.
    - [ModelTypes]: [models/types.py] and [models/errors.py].
    - [ModelContext]: [ContextManager] of [models/context.py]: the estimate, the
      pairing of calls and results, truncation and the dropping of rounds.
    - [ModelGateway], [ModelGatewayProps]: [ModelGateway] with the registry
      ([models/registry.py]) and the usage ledger ([models/usage.py]); what every trace of
      [complete] and [stream] satisfies against arbitrary providers.
    - [ReAct]: [agents/react.py] with [collect_decision] of [execution/events.py]; one turn, and
      sequences of turns linked by their saved states.
    - [AgentStrategies]: [PromptStrategy.render] (Module [Prompts]) and the single-pass
      review (Module [Reflection]).
    - [WorkspacePaths]: the recognisers of workspace paths, [workspace/layout.py],
      [workspace/access.py], [channels/policy.py].
    - [SecureFs], [SecureFsProps]: traversal, reading and atomic replacement of
      [workspace/secure_fs.py] as programs over system calls; what every trace satisfies.
    - [FileTools]: [_write] and [_edit] of [tools/workspace.py] on that backend.
    - [ScopeContexts]: [RootContext] to [AgentContext] of [runtime/scopes.py] over service
      bindings with identities and the list of all effect scopes.
    - [ChannelGateway]: messages and principals ([channels/models.py]), routing, admission and the
      public methods of [channels/gateway.py] (Module [Channels]), the authenticator on the
      company directory of [channels/auth.py] (Module [Directory]).
    - [ChannelApprovals]: [InteractiveApprovalCoordinator] of [channels/approvals.py].
    - [ChannelTasks]: [ConnectionTaskGroup] of [channels/websocket/tasks.py].

    ** How the code is modelled

    Pure code is a function, a raising function returns [res], a store is a
    record of finite maps passed through.  A method body that runs under an
    [asyncio.Lock] is one atomic transition; histories of such transitions are
    inductive relations.  Code that awaits other components is a [prog]: it asks
    questions (clock, journal, registry, grants, policy, handler, strategies,
    quota), and nothing is assumed about the answers, so the theorems about it
    hold against arbitrary product code.  Mutable objects that others can see are
    explicit: assignments to the shared [_RunState] are [QStore] events, and the
    argument dict a collaborator may mutate comes back with its answer.  A task
    can be cancelled at every await, so a trace may stop anywhere ([Cut]).
    Three simplifications: resolving a name in the registry and reading the clock of a session
    store do not raise, and a disposer of an effect that is not the closing of a child is
    opaque, even if it closes another owner.

    ** What the theorems show

    - Mediation: a handler is entered only after the tool resolved, the grant
      was live and covers the tool's exact identity and capabilities, the
      arguments were validated, policy allowed the call, an approval of this very
      call was consumed if one is needed, and TOOL_STARTED was recorded;
      destructive tools always need approval; the audit trail is complete.
    - Runs: budgets hold on every trace, frames offer granted tools only, the
      journal frames the run, call ids execute once, batches respect their
      parallelism, return in order and terminate, results of stopped runs are
      structured and within the budget, a single cancellation never escapes the supervisor, cancellation reaches its own run only,
      the event stream is numbered, bounded and ends with the result.
    - Stores: revocation kills exactly a subtree, child grants attenuate all
      ancestors, approvals are used once and for their target, registrations
      cannot shadow protected tools or cross tenants, the shared quota is never
      exceeded.
    - Sessions: a run is claimed once, appends are idempotent, transcripts are
      contiguous append-only logs, stale invalidations are absorbed, checkpoints
      and resume points stay within their limits, resuming loses nothing.
    - Values: canonical JSON round trips, the arguments digest identifies
      arguments, service bindings keep protected services and contracts, scoped
      identities are injective for ids without colons and collide with them.

    - Effects: both owners refine one contract; effects are undone once and newest
      first, all closers observe one outcome, entered resources are never leaked,
      closing completes, and a clean close has cleaned the whole subtree.
    - Plugins and bundles: plans order providers before consumers and reject exactly
      the cyclic graphs, independently of the listing order; publication is atomic
      and stale handles never remove a replacement; plugins are prepared with what
      was planned for them, failed activations leave nothing, a reload publishes
      before it retires, deactivation disposes of everything; bundle plans are sound closures
      and planning always ends in a verdict; customer plans match their manifests and
      their snapshots resist mutation.
    - Activation: everything is validated before anything is visible, a failure is
      rolled back, a returned activation is complete; a tenant has one activation,
      quarantine is permanent, closing the kernel waits for staging only; product
      tools are declared and owned, leases drain when idle.

    - Memory: nothing is shared that the producer's policy, the proposer, a curator
      and the consumer's policy did not consent to; withdrawal is complete; tenants are
      isolated; retries are idempotent; curations are serialized; operations raise
      documented errors only.
    - Delegation: tasks follow their life cycle, belong to their owner and are created
      once per call; cancelled runs get no new children; a child is narrower than its
      parent in every respect; what a delegation acquires it gives back; repetitions
      have no effects and report what was recorded.
    - Models: compaction keeps calls paired with their results and prepared contexts fit
      their window; providers are asked in the order of the route, only for what they can
      answer; a stream comes from one attempt of one provider; every call is accounted
      once; constructed gateways resolve everything their routes name.
    - Agents: a turn makes at most one decision, whose calls are available and fresh and
      whose text is what was streamed; call ids are never reused in a run; saved
      states are restored exactly by their holder and refused to others; prompts tell
      the speakers apart without saying who they are; reviews revise outputs only.
    - Workspace: each recogniser of paths is one reference with its own treatment of drives and
      NUL characters, and without these all agree; what a path denotes is, in normal form, in
      its own space and in no other; Feishu writes lie beneath configured roots; the writing tools act beside the
      target their arguments name, replace it whole, close what they open, and an edit
      replaces exactly the expected occurrences.
    - Channels: the application is entered with admitted scopes only; sessions of different
      principals, conversations or products never meet, whatever characters the ids hold; a
      directory never chooses the tenant; an interactive approval is the one decision of its
      own principal, and every request settles; connections run a bounded number of tasks and
      raise every failure once.  Contexts descend from their parents in every respect.

    ** Bounds and fuel

    The loops of the runner are structural: iterations count down from the
    budget, names and intents are lists.  [Authority.revoke_subtree_locked] is
    given fuel for every grant and is proved to finish within it; the JSON parser
    gets the length of its text.  The planner's loop gets one round per plugin
    ([kahn_runs]), the visit of bundles one level per catalogue entry and one more
    ([visit_total]).  Fibers of plugins sit in activation fibers, so closing descends two
    levels ([close_wp]).  Batches are relations without fuel, and every
    schedule is proved finite.  Reading and writing a file get one round per byte, and are
    proved not to need more.  Integers are unbounded, as in Python; times are
    integral microseconds.

    ** Parameters

    SHA-256 ([Hashing]), pydantic's JSON dumps ([Dumping], [SessionCodec]), ISO
    timestamp parsing, jsonschema validation, PEP 440 versions and specifiers
    ([Packaging]), Python's [repr] of strings ([StrRepr]), product configuration classes ([ConfigModels]),
    the file system of a snapshot ([FileSystem]), [json.loads] ([JsonLoads]), the lower case of a string ([CaseMapping]), the dump and validation of model messages ([MessageCodec]), token estimators, drawn tokens and
    every collaborator of the runner and the kernel are parameters or answers to questions; no property is assumed of them except
    where a theorem states a hypothesis.

    ** Not modelled

    SQL stores other than that of delegated tasks (their SQL text is executed by SQLite);
    listing, globbing and searching of files; network, process and sandbox adapters, model providers and the transports of channels
    (their behaviour is that of the other end); configuration files, the server and its
    HTTP interface; conversation memory and archives; discovery and loading of plugins;
    the fingerprint of [resume_key], a hash over reflective lookups; the pydantic
    machinery itself (strictness, extra fields); the asyncio scheduler beyond arbitrary
    interleaving; error message texts. *)
From stdpp Require Export base gmap strings list finite countable sorting fin_maps.
From Stdlib Require Export ZArith Lia.

#[global] Set Default Goal Selector "!".

(** ** Python exceptions and fallible results

    A Python call either returns or raises.  Exceptions are represented by
    their class; the formatted message texts are not part of the model. *)
Inductive exn : Type :=
| ValueError
| TypeError
| LookupError
| KeyError
| RuntimeError
| StopIteration
| ServiceBindingError
| EffectScopeClosedError
| SessionNotFoundError
| SessionCapacityError
| SessionPayloadTooLargeError
| SessionRevisionConflictError
| SessionIdempotencyConflictError
| CancelledError  (** a [BaseException]: not caught by [except Exception] *)
| OtherException
| OutOfFuel.  (** a bound of the model was too small; proved unreachable *)

#[global] Instance exn_eq_dec : EqDecision exn.
Proof. solve_decision. Defined.

Inductive res (A : Type) : Type :=
| Ok (a : A)
| Raise (e : exn).

Arguments Ok {A} a.
Arguments Raise {A} e.

#[global] Instance res_eq_dec `{EqDecision A} : EqDecision (res A).
Proof. solve_decision. Defined.

Definition res_bind {A B : Type} (m : res A) (k : A -> res B) : res B :=
  match m with
  | Ok a => k a
  | Raise e => Raise e
  end.

(** [guard c e] raises [e] unless the condition holds. *)
Definition guard (c : bool) (e : exn) : res unit :=
  if c then Ok tt else Raise e.

Definition is_Ok {A : Type} (m : res A) : bool :=
  match m with Ok _ => true | Raise _ => false end.

Declare Scope py_scope.
Delimit Scope py_scope with py.
Notation "'let!' x := m 'in' k" := (res_bind m (fun x => k))
  (at level 10, x pattern, m at level 100, k at level 200) : py_scope.
Notation "'require' c 'else' e ;; k" := (res_bind (guard c e) (fun _ => k))
  (at level 10, c at level 100, e at level 99, k at level 200) : py_scope.
Open Scope py_scope.

(** The [for]-loop of a validator: visit every element, stop at the first raise. *)
Fixpoint for_each {A : Type} (f : A -> res unit) (l : list A) : res unit :=
  match l with
  | [] => Ok tt
  | x :: l => let! _ := f x in for_each f l
  end.

Lemma res_bind_Ok {A B : Type} (m : res A) (k : A -> res B) b :
  res_bind m k = Ok b <-> exists a, m = Ok a /\ k a = Ok b.
Proof. destruct m; simpl; split; [eauto | intros (?&[=->]&?); done | done | by intros (?&[=]&?)]. Qed.

Lemma res_bind_Raise {A B : Type} (m : res A) (k : A -> res B) e :
  res_bind m k = Raise e <-> m = Raise e \/ exists a, m = Ok a /\ k a = Raise e.
Proof.
  destruct m as [a|e']; simpl; split.
  - eauto.
  - intros [[=]|(?&[=->]&?)]; done.
  - intros [=->]; auto.
  - intros [[=->]|(?&[=]&?)]; done.
Qed.

Lemma guard_Ok c e u : guard c e = Ok u <-> c = true.
Proof. destruct c, u; simpl; split; congruence. Qed.

Lemma guard_Raise c e e' : guard c e = Raise e' <-> c = false /\ e = e'.
Proof. destruct c; simpl; split; [done | by intros [[=] _] | by intros [=->] | by intros [_ ->]]. Qed.

Lemma for_each_Ok {A : Type} (f : A -> res unit) l :
  for_each f l = Ok tt <-> Forall (fun x => f x = Ok tt) l.
Proof.
  induction l as [|x l IH]; simpl.
  - split; [constructor | done].
  - rewrite res_bind_Ok, Forall_cons, <- IH. split.
    + intros ([] & ? & ?); done.
    + intros [??]; eauto.
Qed.

(** A list comprehension whose element may raise *)
Fixpoint map_res {A B : Type} (f : A -> res B) (l : list A) : res (list B) :=
  match l with
  | [] => Ok []
  | x :: l => let! y := f x in let! r := map_res f l in Ok (y :: r)
  end.

Lemma map_res_Ok {A B : Type} (f : A -> res B) l r : map_res f l = Ok r <-> Forall2 (fun x y => f x = Ok y) l r.
Proof.
  revert r. induction l as [|x l IH]; intros r; simpl.
  - split; [intros [= <-]; constructor|by inversion 1].
  - rewrite res_bind_Ok. setoid_rewrite res_bind_Ok. setoid_rewrite IH. split.
    + intros (y & Hy & r' & Hr & [= <-]). by constructor.
    + inversion 1; subst. eauto.
Qed.

(** ** Proof automation

    [py_simpl] opens the binds and guards of a call that is known to return,
    [py_case] splits on the conditions of a definition under study. *)
Ltac py_simpl_step :=
  match goal with
  | H : res_bind _ _ = Ok _ |- _ => apply res_bind_Ok in H as (? & ? & ?)
  | H : guard _ _ = Ok _ |- _ => apply guard_Ok in H
  | H : Ok _ = Ok _ |- _ => injection H as H
  | H : Raise _ = Raise _ |- _ => injection H as H
  | H : Ok _ = Raise _ |- _ => discriminate H
  | H : Raise _ = Ok _ |- _ => discriminate H
  | H : Some _ = Some _ |- _ => injection H as H
  | H : (_, _) = (_, _) |- _ => injection H as H
  | H : _ && _ = true |- _ => apply andb_true_iff in H as [? ?]
  | H : _ || _ = false |- _ => apply orb_false_iff in H as [? ?]
  | H : negb _ = true |- _ => apply negb_true_iff in H
  | H : negb _ = false |- _ => apply negb_false_iff in H
  | H : bool_decide _ = true |- _ => apply bool_decide_eq_true_1 in H
  | H : bool_decide _ = false |- _ => apply bool_decide_eq_false_1 in H
  | H : _ /\ _ |- _ => destruct H
  | H : exists _, _ |- _ => destruct H
  | x : unit |- _ => destruct x
  end.
Ltac py_simpl := repeat (py_simpl_step; simplify_eq/=).
Ltac py_case := repeat (case_match; simplify_eq/=; try done).

(** A closed decidable fact, evaluated by the kernel's virtual machine. *)
Ltac decide_by_vm := apply (bool_decide_unpack _); vm_cast_no_check I.

Create HintDb py discriminated.
#[export] Hint Resolve res_bind_Ok guard_Ok : py.

(** ** Results with an error type of their own

    Components whose exceptions carry data return a sum. *)
Section Sums.
Context {E : Type}.

Definition ebind {A B : Type} (m : E + A) (k : A -> E + B) : E + B :=
  match m with inl e => inl e | inr a => k a end.

(** A [for] loop that updates an accumulator and may raise *)
Fixpoint efold {A B : Type} (f : A -> B -> E + A) (a : A) (l : list B) : E + A :=
  match l with
  | [] => inr a
  | b :: l => ebind (f a b) (fun a => efold f a l)
  end.

Lemma ebind_inr {A B : Type} (m : E + A) (k : A -> E + B) b :
  ebind m k = inr b <-> exists a, m = inr a /\ k a = inr b.
Proof. destruct m; simpl; naive_solver. Qed.

Lemma ebind_inl {A B : Type} (m : E + A) (k : A -> E + B) e :
  ebind m k = inl e <-> m = inl e \/ exists a, m = inr a /\ k a = inl e.
Proof. destruct m; simpl; naive_solver. Qed.

(** Induction over a loop that did not raise: [I done a] holds of what was done. *)
Lemma efold_ind {A B : Type} (I : list B -> A -> Prop) (f : A -> B -> E + A) a l a' :
  I [] a ->
  (forall done b rest a1 a2, l = (done ++ b :: rest)%list -> I done a1 -> f a1 b = inr a2 -> I (done ++ [b])%list a2) ->
  efold f a l = inr a' -> I l a'.
Proof.
  intros H0 Hs. cut (forall done rest a, l = (done ++ rest)%list -> I done a -> efold f a rest = inr a' -> I l a').
  { intros Hc. by apply (Hc [] l a). }
  intros done rest. revert done. induction rest as [|b rest IH]; intros done a1 -> H1 Hf; simpl in Hf.
  - simplify_eq. by rewrite app_nil_r.
  - apply ebind_inr in Hf as (a2 & Ha2 & Hf). apply (IH (done ++ [b])%list a2); [by rewrite <- app_assoc| |done].
    by eapply Hs.
Qed.

(** A loop that raised did so in some round, and the rounds before did not. *)
Lemma efold_inl {A B : Type} (f : A -> B -> E + A) a l e : efold f a l = inl e ->
  exists done b rest a1, l = (done ++ b :: rest)%list /\ efold f a done = inr a1 /\ f a1 b = inl e.
Proof.
  revert a. induction l as [|b l IH]; intros a; simpl; [done|].
  rewrite ebind_inl. intros [He|(a1 & Ha1 & He)]; [by exists [], b, l, a|].
  destruct (IH a1 He) as (done & b' & rest & a2 & -> & Hd & Hf). exists (b :: done), b', rest, a2. simpl. by rewrite Ha1.
Qed.
End Sums.

Notation "'try!' x := m 'in' k" := (ebind m (fun x => k))
  (at level 10, x pattern, m at level 100, k at level 200) : py_scope.

(** ** Enumerations *)

(** Every [str, Enum] class of the source is a finite type with decidable
    equality; [solve_finite] discharges the two obligations of its [Finite]
    instance. *)
Ltac solve_finite :=
  match goal with
  | |- NoDup _ => by apply (bool_decide_unpack _); vm_compute
  | |- forall x, _ ∈ _ => intros []; apply (bool_decide_unpack _); by vm_compute
  | |- _ ∈ _ => apply (bool_decide_unpack _); by vm_compute
  end.

(** ** Insertion-ordered dictionaries

    A Python [dict] whose iteration order is observed: an association list with
    distinct keys, where assigning to a present key keeps its position. *)
Section Dict.
Context {K V : Type} `{EqDecision K}.

Definition dict : Type := list (K * V).

Fixpoint dget (k : K) (d : dict) : option V :=
  match d with
  | [] => None
  | (k', v) :: d => if decide (k = k') then Some v else dget k d
  end.

Fixpoint dset (k : K) (v : V) (d : dict) : dict :=
  match d with
  | [] => [(k, v)]
  | (k', v') :: d => if decide (k = k') then (k', v) :: d else (k', v') :: dset k v d
  end.

Fixpoint dpop (k : K) (d : dict) : dict :=
  match d with
  | [] => []
  | (k', v') :: d => if decide (k = k') then d else (k', v') :: dpop k d
  end.

Lemma dget_dset k v d k' : dget k' (dset k v d) = if decide (k' = k) then Some v else dget k' d.
Proof.
  induction d as [|[k1 v1] d IH]; simpl; [by repeat case_decide|].
  destruct (decide (k = k1)) as [->|Hne]; simpl; [by repeat case_decide|].
  rewrite IH. destruct (decide (k' = k1)) as [->|]; [|done]. by rewrite decide_False.
Qed.

Lemma dget_elem k v d : dget k d = Some v -> (k, v) ∈ d.
Proof.
  induction d as [|[k1 v1] d IH]; simpl; [done|]. case_decide; [intros [= ->]; subst; by left|]. intros Hd. right. auto.
Qed.

Lemma dget_None k d : dget k d = None <-> k ∉ d.*1.
Proof.
  induction d as [|[k1 v1] d IH]; simpl; [split; [intros _ Hx; by apply not_elem_of_nil in Hx|done]|].
  rewrite elem_of_cons. case_decide as Hk; [|rewrite IH]; naive_solver.
Qed.

Lemma dget_Some k v d : NoDup d.*1 -> dget k d = Some v <-> (k, v) ∈ d.
Proof.
  intros Hnd. split; [apply dget_elem|]. induction d as [|[k1 v1] d IH]; simpl in *; [by intros ?%not_elem_of_nil|].
  apply NoDup_cons in Hnd as [Hk Hnd]. rewrite elem_of_cons. intros [[= -> ->]|Hin]; [by rewrite decide_True|].
  rewrite decide_False; [by apply IH|]. intros ->. apply Hk, list_elem_of_fmap. by exists (k1, v).
Qed.

Lemma dset_keys k v d : (dset k v d).*1 = if decide (k ∈ d.*1) then d.*1 else (d.*1 ++ [k])%list.
Proof.
  induction d as [|[k1 v1] d IH]; csimpl; [done|]. destruct (decide (k = k1)) as [->|Hne]; csimpl.
  - rewrite decide_True; [done|by left].
  - rewrite IH. do 2 case_decide; try done; exfalso.
    + eauto using list_elem_of_further.
    + match goal with Hx : _ ∈ _ :: _ |- _ => apply elem_of_cons in Hx as [?|?] end; auto.
Qed.

Lemma dset_NoDup k v d : NoDup d.*1 -> NoDup (dset k v d).*1.
Proof.
  intros Hnd. rewrite dset_keys. case_decide as Hk; [done|]. apply NoDup_app. split_and!; [done| |apply NoDup_singleton].
  intros x Hx ->%list_elem_of_singleton. done.
Qed.

Lemma dset_fresh k v d : k ∉ d.*1 -> dset k v d = (d ++ [(k, v)])%list.
Proof.
  induction d as [|[k' v'] d IH]; csimpl; [done|]. rewrite not_elem_of_cons. intros [Hk Hd]. rewrite decide_False by done. by rewrite IH.
Qed.

(** [{key(x): val(x) for x in l}] with distinct keys *)
Lemma foldl_dset {A : Type} (key : A -> K) (val : A -> V) l d : NoDup (d.*1 ++ (key <$> l)) ->
  foldl (fun d x => dset (key x) (val x) d) d l = (d ++ ((fun x => (key x, val x)) <$> l))%list.
Proof.
  revert d. induction l as [|x l IH]; intros d Hnd; csimpl in *; [by rewrite app_nil_r|].
  assert (Hx : key x ∉ d.*1). { intros Hin. apply NoDup_app in Hnd as (_ & Hx & _). apply (Hx _ Hin). by left. }
  rewrite dset_fresh by done. rewrite IH; [by rewrite <- app_assoc|]. rewrite fmap_app, <- app_assoc. done.
Qed.

Lemma dget_foldl_dset {A : Type} (key : A -> K) (val : A -> V) l x : NoDup (key <$> l) -> x ∈ l ->
  dget (key x) (foldl (fun d x => dset (key x) (val x) d) [] l) = Some (val x).
Proof.
  intros Hnd Hin. rewrite foldl_dset by done. apply dget_Some; simpl; [by rewrite <- list_fmap_compose|].
  apply list_elem_of_fmap. by exists x.
Qed.

Lemma dpop_sublist k d : dpop k d `sublist_of` d.
Proof.
  induction d as [|[k1 v1] d IH]; simpl; [constructor|]. case_decide; [by apply sublist_cons|by apply sublist_skip].
Qed.

Lemma dpop_NoDup k d : NoDup d.*1 -> NoDup (dpop k d).*1.
Proof. intros Hnd. eapply sublist_NoDup; [exact Hnd|]. apply fmap_sublist, dpop_sublist. Qed.

Lemma dget_dpop k d k' : NoDup d.*1 -> dget k' (dpop k d) = if decide (k' = k) then None else dget k' d.
Proof.
  intros Hnd. induction d as [|[k1 v1] d IH]; simpl in *; [by case_decide|].
  apply NoDup_cons in Hnd as [Hk Hnd]. destruct (decide (k = k1)) as [->|Hne]; simpl.
  - destruct (decide (k' = k1)) as [->|]; [by apply dget_None|done].
  - rewrite IH by done. destruct (decide (k' = k1)) as [->|]; [|done]. by rewrite decide_False.
Qed.
End Dict.
Arguments dict : clear implicits.

(** ** Sorting by a string key: [sorted(values, key=...)] *)
Section KeySort.
Context {A : Type} (key : A -> string).

Definition by_key (a b : A) : Prop := String.le (key a) (key b).
#[global] Instance by_key_dec : RelDecision by_key.
Proof. intros a b. unfold by_key. apply _. Defined.
#[global] Instance by_key_total : Total by_key.
Proof. intros a b. apply (total String.le). Qed.
#[global] Instance by_key_trans : Transitive by_key.
Proof. intros a b c. unfold by_key. by etransitivity. Qed.

Definition sort_by (l : list A) : list A := merge_sort by_key l.

Lemma sort_by_perm l : sort_by l ≡ₚ l.
Proof. apply merge_sort_Permutation. Qed.

Lemma sort_by_sorted l : StronglySorted by_key (sort_by l).
Proof. apply StronglySorted_merge_sort; apply _. Qed.

Lemma sorted_unique l l' : l ≡ₚ l' -> NoDup (key <$> l) -> StronglySorted by_key l -> StronglySorted by_key l' -> l = l'.
Proof.
  intros Hp Hnd Hl Hl'. apply (StronglySorted_unique_strong by_key); [|done..].
  intros x y [i Hi]%list_elem_of_lookup Hy Hxy Hyx. rewrite <- Hp in Hy. apply list_elem_of_lookup in Hy as [j Hj].
  assert (i = j) as ->; [|congruence]. eapply NoDup_lookup; [exact Hnd|by rewrite list_lookup_fmap, Hi|].
  rewrite list_lookup_fmap, Hj. simpl. f_equal. by apply (anti_symm String.le).
Qed.

Lemma sort_by_fixed l : NoDup (key <$> l) -> StronglySorted by_key l -> sort_by l = l.
Proof. intros Hnd Hs. symmetry. apply sorted_unique; [by rewrite sort_by_perm|done..|apply sort_by_sorted]. Qed.
End KeySort.
