(* ===== verification/PyText.v ===== *)
(** * Python text, identifiers and timestamps

    A Python [str] is its UTF-8 encoding ([String.string], one [ascii] per
    byte); code-point order and UTF-8 byte order agree, so [sorted] on strings
    is [String.le].  The recognisers below transcribe the regular expressions
    of [execution/models.py], [runtime/scopes.py] and [sessions/models.py]
    (all used through [fullmatch]). *)
From S2P Require Import Prelude.
From Stdlib Require Import Ascii.
Open Scope Z_scope.

(** ** Character classes *)
Definition code (c : ascii) : Z := Z.of_N (N_of_ascii c).
Definition in_range (lo hi : Z) (c : ascii) : bool := (lo <=? code c) && (code c <=? hi).
Definition is_lower (c : ascii) : bool := in_range 97 122 c.
Definition is_upper (c : ascii) : bool := in_range 65 90 c.
Definition is_digit (c : ascii) : bool := in_range 48 57 c.
Definition is_alnum (c : ascii) : bool := is_lower c || is_upper c || is_digit c.
Definition is_lower_digit (c : ascii) : bool := is_lower c || is_digit c.
Definition is_hex (c : ascii) : bool := is_digit c || in_range 97 102 c.
Definition one_of (set : string) (c : ascii) : bool :=
  existsb (Ascii.eqb c) (String.list_ascii_of_string set).

Definition chars (s : string) : list ascii := String.list_ascii_of_string s.

(** [[A-Za-z0-9]] followed by at most [n] characters of the class [p]. *)
Definition head_then (p : ascii -> bool) (n : nat) (s : string) : bool :=
  match chars s with
  | [] => false
  | c :: rest => is_alnum c && forallb p rest && (length rest <=? n)%nat
  end.

(** [_IDENTIFIER = ^[A-Za-z0-9][A-Za-z0-9._:-]{0,127}$] *)
Definition IDENTIFIER (s : string) : bool :=
  head_then (fun c => is_alnum c || one_of "._:-" c) 127 s.

(** [_ORIGIN = ^[A-Za-z0-9][A-Za-z0-9._:/-]{0,511}$] *)
Definition ORIGIN (s : string) : bool :=
  head_then (fun c => is_alnum c || one_of "._:/-" c) 511 s.

(** [_VERSION = ^[0-9A-Za-z][0-9A-Za-z._+-]{0,63}$] *)
Definition VERSION (s : string) : bool :=
  head_then (fun c => is_alnum c || one_of "._+-" c) 63 s.

(** [_SHA256 = ^[0-9a-f]{64}$] *)
Definition SHA256 (s : string) : bool :=
  forallb is_hex (chars s) && (String.length s =? 64)%nat.

(** [_OWNER_TOKEN = ^[A-Za-z0-9_-]{32,256}$] *)
Definition OWNER_TOKEN (s : string) : bool :=
  forallb (fun c => is_alnum c || one_of "_-" c) (chars s)
  && (32 <=? String.length s)%nat && (String.length s <=? 256)%nat.

(** [_NAME = ^[a-z][a-z0-9]*(?:[._:/-][a-z0-9]+)*$]; [fresh] is true right
    after a separator, where one more [[a-z0-9]] is owed. *)
Fixpoint name_tail (seps : string) (fresh : bool) (l : list ascii) : bool :=
  match l with
  | [] => negb fresh
  | c :: l =>
      if is_lower_digit c then name_tail seps false l
      else one_of seps c && negb fresh && name_tail seps true l
  end.

Definition dotted_name (seps : string) (s : string) : bool :=
  match chars s with
  | [] => false
  | c :: rest => is_lower c && name_tail seps false rest
  end.

Definition NAME (s : string) : bool := dotted_name "._:/-" s.
Definition COMPONENT_ID (s : string) : bool := dotted_name "._-" s.

(** ** Blank strings: [not s.strip()]

    [ws_prefix] removes one leading Unicode white-space character, ASCII or
    one of the multi-byte ones [str.strip] removes. *)
Definition ws_prefix (l : list ascii) : option (list ascii) :=
  match l with
  | a :: r =>
      if in_range 9 13 a || in_range 28 32 a then Some r
      else match r with
      | b :: r =>
          if (code a =? 194) && ((code b =? 133) || (code b =? 160)) then Some r
          else match r with
          | c :: r =>
              if ((code a =? 225) && (code b =? 154) && (code c =? 128))
                 || ((code a =? 226) && (code b =? 128)
                     && (in_range 128 138 c || in_range 168 169 c || (code c =? 175)))
                 || ((code a =? 226) && (code b =? 129) && (code c =? 159))
                 || ((code a =? 227) && (code b =? 128) && (code c =? 128))
              then Some r else None
          | [] => None
          end
      | [] => None
      end
  | [] => None
  end.

Fixpoint all_blank (fuel : nat) (l : list ascii) : bool :=
  match l, fuel with
  | [], _ => true
  | _, O => false
  | _, S fuel => match ws_prefix l with Some r => all_blank fuel r | None => false end
  end.

(** [not value.strip()] *)
Definition is_blank (s : string) : bool := all_blank (String.length s) (chars s).

(** [value.strip()]: a multi-byte white-space character never starts inside
    another character, so a suffix is cut where all of it is blank. *)
Fixpoint lstrip (fuel : nat) (l : list ascii) : list ascii :=
  match fuel with
  | O => l
  | S fuel => match ws_prefix l with Some r => lstrip fuel r | None => l end
  end.

Fixpoint rstrip (l : list ascii) : list ascii :=
  match l with
  | [] => []
  | c :: r => if all_blank (length l) l then [] else c :: rstrip r
  end.

Definition strip (s : string) : string :=
  String.string_of_list_ascii (rstrip (lstrip (String.length s) (chars s))).

(** [len(value)]: UTF-8 continuation bytes [10xxxxxx] start no code point. *)
Definition py_len (s : string) : Z :=
  Z.of_nat (length (List.filter (fun c => negb (in_range 128 191 c)) (chars s))).

(** [len(value.encode("utf-8"))] *)
Definition byte_len (s : string) : Z := Z.of_nat (String.length s).

(** ** Validators that return their argument *)
Definition identifier (value : string) : res string :=
  if IDENTIFIER value then Ok value else Raise ValueError.

Definition name_ (value : string) : res string :=
  if NAME value then Ok value else Raise ValueError.

(** ** Timestamps

    A [datetime] is a number of microseconds since the epoch, in UTC when it is
    time-zone aware. *)
Inductive datetime : Type :=
| Aware (us : Z)
| Naive (us : Z).

#[global] Instance datetime_eq_dec : EqDecision datetime.
Proof. solve_decision. Defined.

(** [_utc(value, label)] *)
Definition utc (value : datetime) : res Z :=
  match value with
  | Aware us => Ok us
  | Naive _ => Raise ValueError
  end.

(** [timedelta(seconds=n)] in microseconds *)
Definition seconds (n : Z) : Z := n * 1000000.

(** ** Dynamically typed number arguments

    What a validator distinguishes with [isinstance(value, bool)] and
    [isinstance(value, int)] before it reads the number; [AFloat] carries a
    finite number of seconds in microseconds. *)
Inductive pyarg : Type :=
| AInt (z : Z)
| ABool (b : bool)
| AFloat (us : Z)
| ANonFinite
| AOther.

#[global] Instance pyarg_eq_dec : EqDecision pyarg.
Proof. solve_decision. Defined.

(** [isinstance(v, bool) or not isinstance(v, int) or v < 0] raises. *)
Definition nonneg_int (v : pyarg) : res Z :=
  match v with
  | AInt z => if (z <? 0)%Z then Raise ValueError else Ok z
  | _ => Raise ValueError
  end.

Lemma nonneg_int_Ok v z : nonneg_int v = Ok z <-> v = AInt z /\ 0 <= z.
Proof.
  destruct v as [n| | | |]; simpl; try (split; [done | by intros [[=] _]]).
  destruct (Z.ltb_spec n 0); split; try done.
  - intros [[= ->] ?]. lia.
  - intros [= ->]. done.
  - by intros [[= ->] ?].
Qed.

(** ** Lemmas *)
Lemma identifier_Ok v r : identifier v = Ok r <-> IDENTIFIER v = true /\ r = v.
Proof. unfold identifier. case_match; split; [by intros [=->] | by intros [_ ->] | done | by intros [[=] _]]. Qed.

Lemma name_Ok v r : name_ v = Ok r <-> NAME v = true /\ r = v.
Proof. unfold name_. case_match; split; [by intros [=->] | by intros [_ ->] | done | by intros [[=] _]]. Qed.

Lemma IDENTIFIER_nonempty s : IDENTIFIER s = true -> s <> ""%string.
Proof. by intros H ->. Qed.

Lemma list_ascii_of_string_app s1 s2 :
  String.list_ascii_of_string (String.append s1 s2) = String.list_ascii_of_string s1 ++ String.list_ascii_of_string s2.
Proof. induction s1 as [|c s1 IH]; simpl; [done|]. by rewrite IH. Qed.

Lemma list_ascii_of_string_inj s1 s2 :
  String.list_ascii_of_string s1 = String.list_ascii_of_string s2 -> s1 = s2.
Proof.
  intros H. by rewrite <- (String.string_of_list_ascii_of_string s1), H, String.string_of_list_ascii_of_string.
Qed.

Lemma string_length_chars s : String.length s = length (chars s).
Proof. induction s; simpl; [done | by f_equal]. Qed.
