(* ===== verification/Json.v ===== *)
(** * JSON values and their canonical text

    [execution/models.py] and [sessions/models.py] serialise every durable or
    digest-bound value with [canonical_json]: object keys sorted, compact
    separators, non-ASCII text kept, NaN and infinities refused.  A finite
    float is identified with its [repr] (the text [json.dumps] writes). *)
From S2P Require Import Prelude PyText.
From Stdlib Require Import Ascii Decimal DecimalString DecimalZ.
Open Scope Z_scope.

Inductive pyfloat : Type :=
| FFinite (repr : string)
| FNaN
| FPosInf
| FNegInf.

#[global] Instance pyfloat_eq_dec : EqDecision pyfloat.
Proof. solve_decision. Defined.

(** The [JsonValue] type of pydantic; an object is an insertion-ordered dict. *)
#[warnings="-register-all"]
Inductive json : Type :=
| JNull
| JBool (b : bool)
| JInt (z : Z)
| JFloat (f : pyfloat)
| JStr (s : string)
| JList (l : list json)
| JObj (kvs : list (string * json)).

(** Induction over a JSON tree, with a hypothesis for every child. *)
Lemma json_ind' (P : json -> Prop)
    (Hnull : P JNull) (Hbool : forall b, P (JBool b)) (Hint : forall z, P (JInt z))
    (Hfloat : forall f, P (JFloat f)) (Hstr : forall s, P (JStr s))
    (Hlist : forall l, Forall P l -> P (JList l))
    (Hobj : forall kvs, Forall (fun kv => P kv.2) kvs -> P (JObj kvs)) :
  forall v, P v.
Proof.
  fix IH 1. intros [| | | | |l|kvs]; [auto..| |].
  - apply Hlist. induction l as [|x l IHl]; constructor; [apply IH | exact IHl].
  - apply Hobj. induction kvs as [|[k x] l IHl]; constructor; [apply IH | exact IHl].
Qed.

#[global] Instance json_eq_dec : EqDecision json.
Proof.
  refine (fix go x y {struct x} : Decision (x = y) :=
    match x, y with
    | JNull, JNull => left eq_refl
    | JBool b, JBool c => cast_if (decide (b = c))
    | JInt b, JInt c => cast_if (decide (b = c))
    | JFloat b, JFloat c => cast_if (decide (b = c))
    | JStr b, JStr c => cast_if (decide (b = c))
    | JList l, JList k => cast_if (@list_eq_dec json go l k)
    | JObj l, JObj k =>
        cast_if (@list_eq_dec (string * json) (@prod_eq_dec string _ json go) l k)
    | _, _ => right _
    end); clear go; abstract congruence.
Defined.

(** [dict.get(key)] on a JSON object *)
Definition obj_get (k : string) (kvs : list (string * json)) : option json :=
  snd <$> List.find (fun kv => String.eqb k kv.1) kvs.

(** ** [canonical_json] *)

(** The nested [reject_non_finite] walks dict values and lists. *)
Fixpoint all_finite (v : json) : bool :=
  match v with
  | JFloat (FFinite _) => true
  | JFloat _ => false
  | JList l => forallb all_finite l
  | JObj kvs => forallb (fun kv => all_finite kv.2) kvs
  | _ => true
  end.

Definition key_le (a b : string * json) : Prop := String.le a.1 b.1.
#[global] Instance key_le_dec : RelDecision key_le.
Proof. intros a b. unfold key_le. apply _. Defined.

(** [sort_keys=True], recursively *)
Fixpoint sort_keys (v : json) : json :=
  match v with
  | JList l => JList (List.map sort_keys l)
  | JObj kvs => JObj (merge_sort key_le (List.map (fun kv => (kv.1, sort_keys kv.2)) kvs))
  | v => v
  end.

Definition quote : ascii := ascii_of_N 34.
Definition backslash : ascii := ascii_of_N 92.
Definition hex_digit (n : N) : ascii :=
  ascii_of_N (if (n <? 10)%N then 48 + n else 87 + n)%N.

(** One character of a JSON string literal under [ensure_ascii=False] *)
Definition escape (c : ascii) : list ascii :=
  let n := N_of_ascii c in
  if (n =? 34)%N then [backslash; quote]
  else if (n =? 92)%N then [backslash; backslash]
  else if (n =? 8)%N then [backslash; "b"%char]
  else if (n =? 12)%N then [backslash; "f"%char]
  else if (n =? 10)%N then [backslash; "n"%char]
  else if (n =? 13)%N then [backslash; "r"%char]
  else if (n =? 9)%N then [backslash; "t"%char]
  else if (n <? 32)%N then
    [backslash; "u"%char; "0"%char; "0"%char; hex_digit (n / 16); hex_digit (n mod 16)]
  else [c].

Definition print_str (s : string) : list ascii :=
  quote :: List.concat (List.map escape (chars s)) ++ [quote].

Definition print_int (z : Z) : list ascii := chars (NilEmpty.string_of_int (Z.to_int z)).

Definition join {A : Type} (sep : A) (l : list (list A)) : list A :=
  match l with
  | [] => []
  | x :: l => x ++ List.concat (List.map (cons sep) l)
  end.

(** [json.dumps] with [separators=(",", ":")], keys in the given order *)
Fixpoint print (v : json) : list ascii :=
  match v with
  | JNull => chars "null"
  | JBool true => chars "true"
  | JBool false => chars "false"
  | JInt z => print_int z
  | JFloat (FFinite r) => chars r
  | JFloat FNaN => chars "NaN"
  | JFloat FPosInf => chars "Infinity"
  | JFloat FNegInf => chars "-Infinity"
  | JStr s => print_str s
  | JList l => "["%char :: join ","%char (List.map print l) ++ ["]"%char]
  | JObj kvs =>
      "{"%char :: join ","%char (List.map (fun kv => print_str kv.1 ++ ":"%char :: print kv.2) kvs)
        ++ ["}"%char]
  end.

Definition canonical_text (v : json) : string := String.string_of_list_ascii (print (sort_keys v)).

Definition canonical_json (v : json) : res string :=
  require all_finite v else ValueError ;;
  Ok (canonical_text v).

(** [len(canonical_json(value))] once the value is known to be finite *)
Definition canonical_len (v : json) : Z := byte_len (canonical_text v).

(** ** [json.loads] on text without insignificant white space *)
Definition hex_value (c : ascii) : option N :=
  let n := N_of_ascii c in
  if is_digit c then Some (n - 48)%N
  else if in_range 97 102 c then Some (n - 87)%N else None.

Definition unescape (c : ascii) : option ascii :=
  let n := N_of_ascii c in
  if (n =? 34)%N then Some quote
  else if (n =? 92)%N then Some backslash
  else if (n =? 47)%N then Some c
  else if (n =? 98)%N then Some (ascii_of_N 8)
  else if (n =? 102)%N then Some (ascii_of_N 12)
  else if (n =? 110)%N then Some (ascii_of_N 10)
  else if (n =? 114)%N then Some (ascii_of_N 13)
  else if (n =? 116)%N then Some (ascii_of_N 9)
  else None.

(** The rest of a string literal after its opening quote *)
Fixpoint parse_chars (l : list ascii) : option (list ascii * list ascii) :=
  match l with
  | [] => None
  | c :: l =>
      if Ascii.eqb c quote then Some ([], l)
      else if Ascii.eqb c backslash then
        match l with
        | e :: r =>
            if Ascii.eqb e "u"%char then
              match r with
              | a :: b :: x :: y :: r' =>
                  match hex_value x, hex_value y, parse_chars r' with
                  | Some h, Some k, Some (cs, rest) =>
                      if Ascii.eqb a "0"%char && Ascii.eqb b "0"%char && (h <? 8)%N
                      then Some (ascii_of_N (16 * h + k) :: cs, rest) else None
                  | _, _, _ => None
                  end
              | _ => None
              end
            else
              match unescape e, parse_chars r with
              | Some d, Some (cs, rest) => Some (d :: cs, rest)
              | _, _ => None
              end
        | [] => None
        end
      else if (code c <? 32)%Z then None
      else match parse_chars l with
           | Some (cs, rest) => Some (c :: cs, rest)
           | None => None
           end
  end.

Definition num_char (c : ascii) : bool := is_digit c || one_of "-+.eE" c.
Definition int_char (c : ascii) : bool := is_digit c || one_of "-" c.

Fixpoint span (p : ascii -> bool) (l : list ascii) : list ascii * list ascii :=
  match l with
  | c :: r => if p c then let '(a, b) := span p r in (c :: a, b) else ([], l)
  | [] => ([], [])
  end.

Definition parse_number (l : list ascii) : option (json * list ascii) :=
  let '(tok, rest) := span num_char l in
  match tok with
  | [] => None
  | _ =>
      if forallb int_char tok then
        match NilEmpty.int_of_string (String.string_of_list_ascii tok) with
        | Some d => Some (JInt (Z.of_int d), rest)
        | None => None
        end
      else Some (JFloat (FFinite (String.string_of_list_ascii tok)), rest)
  end.

Fixpoint strip (pre l : list ascii) : option (list ascii) :=
  match pre, l with
  | [], _ => Some l
  | c :: pre, d :: l => if Ascii.eqb c d then strip pre l else None
  | _ :: _, [] => None
  end.

Fixpoint parse (fuel : nat) (l : list ascii) : option (json * list ascii) :=
  match fuel with
  | O => None
  | S n =>
      match l with
      | [] => None
      | c :: r =>
          if Ascii.eqb c quote then
            '(s, r') ← parse_chars r; Some (JStr (String.string_of_list_ascii s), r')
          else if Ascii.eqb c "["%char then
            match strip ["]"%char] r with
            | Some r' => Some (JList [], r')
            | None => '(vs, r') ← parse_items n r; Some (JList vs, r')
            end
          else if Ascii.eqb c "{"%char then
            match strip ["}"%char] r with
            | Some r' => Some (JObj [], r')
            | None => '(vs, r') ← parse_members n r; Some (JObj vs, r')
            end
          else if Ascii.eqb c "n"%char then r' ← strip (chars "null") l; Some (JNull, r')
          else if Ascii.eqb c "t"%char then r' ← strip (chars "true") l; Some (JBool true, r')
          else if Ascii.eqb c "f"%char then r' ← strip (chars "false") l; Some (JBool false, r')
          else parse_number l
      end
  end
with parse_items (fuel : nat) (l : list ascii) : option (list json * list ascii) :=
  match fuel with
  | O => None
  | S n =>
      '(v, r) ← parse n l;
      match strip [","%char] r with
      | Some r' => '(vs, r'') ← parse_items n r'; Some (v :: vs, r'')
      | None => r' ← strip ["]"%char] r; Some ([v], r')
      end
  end
with parse_members (fuel : nat) (l : list ascii) : option (list (string * json) * list ascii) :=
  match fuel with
  | O => None
  | S n =>
      r ← strip [quote] l;
      '(k, r) ← parse_chars r;
      r ← strip [":"%char] r;
      '(v, r) ← parse n r;
      let kv := (String.string_of_list_ascii k, v) in
      match strip [","%char] r with
      | Some r' => '(vs, r'') ← parse_members n r'; Some (kv :: vs, r'')
      | None => r' ← strip ["}"%char] r; Some ([kv], r')
      end
  end.

(** [json.loads(text)]; every call consumes a character, so the text length bounds the depth. *)
Definition loads (text : string) : option json :=
  match parse (S (2 * String.length text)) (chars text) with
  | Some (v, []) => Some v
  | _ => None
  end.

(** ** Round trip of the canonical text *)

(** What Python guarantees of a value: the keys of a dict are distinct, and a
    float's [repr] has number characters only, not all of an integer. *)
Definition float_repr (r : string) : bool :=
  forallb num_char (chars r) && negb (forallb int_char (chars r)).

Fixpoint wf_json (v : json) : bool :=
  match v with
  | JFloat (FFinite r) => float_repr r
  | JFloat _ => true
  | JList l => forallb wf_json l
  | JObj kvs => bool_decide (NoDup (List.map fst kvs)) && forallb (fun kv => wf_json kv.2) kvs
  | _ => true
  end.

Definition delimited (rest : list ascii) : Prop :=
  match rest with [] => True | c :: _ => num_char c = false end.

Lemma parse_chars_escape c cs :
  parse_chars (escape c ++ cs) =
  match parse_chars cs with Some (ds, rest) => Some (c :: ds, rest) | None => None end.
Proof.
  destruct c as [b0 b1 b2 b3 b4 b5 b6 b7].
  destruct b0, b1, b2, b3, b4, b5, b6, b7; reflexivity.
Qed.

Lemma parse_chars_print cs rest :
  parse_chars (List.concat (List.map escape cs) ++ quote :: rest) = Some (cs, rest).
Proof.
  induction cs as [|c cs IH]; [done|].
  simpl List.map. simpl List.concat. rewrite <- (assoc_L (++)), parse_chars_escape, IH. done.
Qed.

Lemma span_app p tok rest :
  forallb p tok = true -> match rest with [] => True | c :: _ => p c = false end ->
  span p (tok ++ rest) = (tok, rest).
Proof.
  induction tok as [|c tok IH]; simpl; intros Ht Hr.
  - destruct rest as [|d rest]; simpl; [done|]. by rewrite Hr.
  - apply andb_true_iff in Ht as [-> Ht]. by rewrite IH.
Qed.

Lemma int_char_num c : int_char c = true -> num_char c = true.
Proof.
  unfold int_char, num_char, one_of. simpl. destruct (is_digit c); simpl; [done|].
  destruct (Ascii.eqb c "-"); simpl; done.
Qed.

Lemma forallb_impl {A : Type} (p q : A -> bool) l :
  (forall x, p x = true -> q x = true) -> forallb p l = true -> forallb q l = true.
Proof. rewrite !forallb_forall. eauto. Qed.

Lemma string_of_uint_digits d :
  forallb is_digit (chars (NilEmpty.string_of_uint d)) = true.
Proof. induction d; simpl; done. Qed.

Lemma print_int_chars z : forallb int_char (print_int z) = true /\ print_int z <> [].
Proof.
  assert (Hd : forall d, forallb int_char (chars (NilEmpty.string_of_uint d)) = true).
  { intros d. eapply forallb_impl; [|apply string_of_uint_digits].
    intros c H. unfold int_char. by rewrite H. }
  unfold print_int. destruct z as [|p|p]; simpl.
  - done.
  - split; [apply Hd|]. intros H. pose proof (DecimalPos.Unsigned.to_uint_nonnil p) as Hn.
    destruct (Pos.to_uint p); simpl in H; done.
  - split; [apply Hd | done].
Qed.

Lemma parse_number_int z rest :
  delimited rest -> parse_number (print_int z ++ rest) = Some (JInt z, rest).
Proof.
  intros Hr. destruct (print_int_chars z) as [Hi Hn]. unfold parse_number.
  rewrite span_app; [|by eapply forallb_impl; [apply int_char_num|] | done].
  rewrite Hi. destruct (print_int z) eqn:E; [done|]. rewrite <- E. unfold print_int, chars.
  rewrite String.string_of_list_ascii_of_string, NilEmpty.isi, of_to. done.
Qed.

Lemma parse_number_float r rest :
  float_repr r = true -> delimited rest ->
  parse_number (chars r ++ rest) = Some (JFloat (FFinite r), rest).
Proof.
  intros [Hn Hi]%andb_true_iff Hr. apply negb_true_iff in Hi. unfold parse_number.
  rewrite span_app by done. rewrite Hi. unfold chars in *.
  destruct (String.list_ascii_of_string r) eqn:E; [done|].
  rewrite <- E, String.string_of_list_ascii_of_string. done.
Qed.

(** A number token starts with none of the characters that open another value. *)
Lemma parse_num_char n c l :
  num_char c = true -> parse (S n) (c :: l) = parse_number (c :: l).
Proof.
  intros H. destruct c as [b0 b1 b2 b3 b4 b5 b6 b7].
  destruct b0, b1, b2, b3, b4, b5, b6, b7; (discriminate H || reflexivity).
Qed.

Lemma print_head v :
  wf_json v = true -> all_finite v = true -> exists c l, print v = c :: l /\ c <> "]"%char.
Proof.
  intros Hw Hf. destruct v as [|[]|z|[r| | |]|s|l|kvs]; simpl in *; try discriminate; eauto.
  - destruct (print_int_chars z) as [Hi Hn]. destruct (print_int z) as [|c l]; [done|].
    exists c, l. split; [done|]. intros ->. discriminate Hi.
  - unfold float_repr in Hw. destruct (chars r) as [|c l]; [done|].
    exists c, l. split; [done|]. intros ->. discriminate Hw.
Qed.

Lemma join_cons {A : Type} (sep : A) x y l :
  join sep (x :: y :: l) = x ++ sep :: join sep (y :: l).
Proof. done. Qed.

Lemma join_one {A : Type} (sep : A) x : join sep [x] = x.
Proof. apply app_nil_r. Qed.

Lemma strip_hd c r : strip [c] (c :: r) = Some r.
Proof. simpl. by rewrite Ascii.eqb_refl. Qed.

#[local] Arguments join : simpl never.
#[local] Arguments strip : simpl never.
#[local] Arguments print_str : simpl never.

Definition parses (v : json) : Prop :=
  forall fuel rest, (2 * length (print v) < fuel)%nat -> delimited rest ->
  parse fuel (print v ++ rest) = Some (v, rest).

Lemma parse_items_print v l fuel rest :
  Forall parses (v :: l) ->
  (2 * length (join ","%char (List.map print (v :: l))) + 1 < fuel)%nat ->
  parse_items fuel (join ","%char (List.map print (v :: l)) ++ "]"%char :: rest)
  = Some (v :: l, rest).
Proof.
  revert v fuel. induction l as [|w l IH]; intros v fuel [Hv Hl]%Forall_cons Hf.
  - destruct fuel as [|n]; [lia|]. simpl List.map in Hf |- *. rewrite join_one in Hf |- *.
    cbn [parse_items]. rewrite Hv by (done || lia). done.
  - destruct fuel as [|n]; [lia|]. simpl List.map in Hf |- *. rewrite join_cons in Hf |- *.
    rewrite length_app in Hf. simpl length in Hf.
    rewrite <- (assoc_L (++)), <- app_comm_cons. cbn [parse_items].
    rewrite Hv by (done || lia). cbn [mbind option_bind]. rewrite strip_hd.
    specialize (IH w n Hl). simpl List.map in IH. rewrite IH by lia. done.
Qed.

Lemma parse_members_print kv l fuel rest :
  Forall (fun kv => parses kv.2) (kv :: l) ->
  let txt := join ","%char (List.map (fun kv => print_str kv.1 ++ ":"%char :: print kv.2) (kv :: l)) in
  (2 * length txt + 1 < fuel)%nat ->
  parse_members fuel (txt ++ "}"%char :: rest) = Some (kv :: l, rest).
Proof.
  revert kv fuel. induction l as [|w l IH]; intros [k v] fuel [Hv Hl]%Forall_cons txt Hf;
    (destruct fuel as [|n]; [lia|]); subst txt;
    cbn [List.map fst snd] in Hf, Hv |- *.
  - rewrite join_one in Hf |- *. rewrite length_app in Hf. simpl length in Hf. unfold print_str. cbn [parse_members].
    repeat (rewrite <- (assoc_L (++)) || rewrite <- app_comm_cons). rewrite strip_hd.
    cbn [mbind option_bind]. rewrite parse_chars_print. rewrite app_nil_l. cbn [mbind option_bind].
    rewrite strip_hd. cbn [mbind option_bind].
    unfold chars. rewrite String.string_of_list_ascii_of_string.
    rewrite Hv by (done || simpl in *; lia). done.
  - rewrite join_cons in Hf |- *. rewrite !length_app in Hf. simpl length in Hf.
    unfold print_str at 1. cbn [parse_members].
    repeat (rewrite <- (assoc_L (++)) || rewrite <- app_comm_cons). rewrite strip_hd.
    cbn [mbind option_bind]. rewrite parse_chars_print. rewrite app_nil_l. cbn [mbind option_bind].
    rewrite strip_hd. cbn [mbind option_bind].
    unfold chars at 1. rewrite String.string_of_list_ascii_of_string.
    rewrite Hv by (done || simpl in *; lia). cbn [mbind option_bind]. rewrite strip_hd.
    specialize (IH w n Hl). cbv zeta in IH. cbn [List.map] in IH. rewrite IH by (simpl in *; lia). done.
Qed.

Lemma children_parse {A : Type} (f : A -> json) (l : list A) :
  Forall (fun x => wf_json (f x) = true -> all_finite (f x) = true -> parses (f x)) l ->
  forallb (fun x => wf_json (f x)) l = true -> forallb (fun x => all_finite (f x)) l = true ->
  Forall (fun x => parses (f x)) l.
Proof.
  induction 1 as [|x l Hx _ IH]; simpl; [constructor|].
  intros [??]%andb_true_iff [??]%andb_true_iff. constructor; auto.
Qed.

Lemma parse_list_open n l :
  head l <> Some "]"%char ->
  parse (S n) ("["%char :: l) = '(vs, r) ← parse_items n l; Some (JList vs, r).
Proof.
  intros H. cbn [parse]. simpl. destruct l as [|c l]; [done|]. unfold strip.
  destruct (Ascii.eqb_spec "]" c) as [<-|]; [done|]. done.
Qed.

Lemma parse_object_open n l :
  head l <> Some "}"%char ->
  parse (S n) ("{"%char :: l) = '(vs, r) ← parse_members n l; Some (JObj vs, r).
Proof.
  intros H. cbn [parse]. simpl. destruct l as [|c l]; [done|]. unfold strip.
  destruct (Ascii.eqb_spec "}" c) as [<-|]; [done|]. done.
Qed.

Lemma parse_print v : wf_json v = true -> all_finite v = true -> parses v.
Proof.
  induction v as [|b|z|f|s|l IH|kvs IH] using json_ind'; intros Hw Hf fuel rest Hn Hr;
    (destruct fuel as [|n]; [lia|]).
  - done.
  - by destruct b.
  - destruct (print_int_chars z) as [Hi Hne]. simpl print in *.
    pose proof (parse_number_int z rest Hr) as Hp. destruct (print_int z) as [|c l]; [done|].
    rewrite <- app_comm_cons in *. simpl in Hi. apply andb_true_iff in Hi as [Hc _].
    by rewrite parse_num_char by by apply int_char_num.
  - destruct f as [r| | |]; try discriminate. simpl in Hw. simpl print in *.
    pose proof (parse_number_float r rest Hw Hr) as Hp.
    unfold float_repr in Hw. destruct (chars r) as [|c l]; [done|].
    rewrite <- app_comm_cons in *. simpl in Hw. apply andb_true_iff in Hw as [[Hc _]%andb_true_iff _].
    by rewrite parse_num_char.
  - simpl print. unfold print_str. rewrite <- app_comm_cons, <- (assoc_L (++)). cbn [parse].
    rewrite Ascii.eqb_refl. simpl. rewrite parse_chars_print. simpl.
    unfold chars. by rewrite String.string_of_list_ascii_of_string.
  - destruct l as [|v l]; [done|].
    assert (Hps : Forall parses (v :: l)) by (eapply children_parse; eauto).
    simpl in Hw, Hf. apply andb_true_iff in Hw as [Hw _], Hf as [Hf _].
    destruct (print_head v Hw Hf) as (c & t & Ec & Hc).
    cbn [print] in Hn |- *. rewrite <- app_comm_cons, <- (assoc_L (++)).
    change (["]"%char] ++ rest) with ("]"%char :: rest). rewrite parse_list_open.
    + rewrite (parse_items_print v l n rest Hps); [done|].
      cbn [length] in Hn. rewrite length_app in Hn. simpl in Hn |- *. lia.
    + destruct l; cbn [List.map]; rewrite ?join_one, ?join_cons, Ec; simpl; congruence.
  - destruct kvs as [|[k v] l]; [done|].
    assert (Hps : Forall (fun kv => parses kv.2) ((k, v) :: l)).
    { simpl wf_json in Hw. apply andb_true_iff in Hw as [_ Hw]. by apply (children_parse snd). }
    pose proof (parse_members_print (k, v) l n rest Hps) as Hi. cbv zeta in Hi.
    cbn [print] in Hn |- *. rewrite <- app_comm_cons, <- (assoc_L (++)).
    change (["}"%char] ++ rest) with ("}"%char :: rest). rewrite parse_object_open.
    + rewrite Hi; [done|]. cbn [length] in Hn. rewrite length_app in Hn. simpl in Hn |- *. lia.
    + destruct l; cbn [List.map]; rewrite ?join_one, ?join_cons; by unfold print_str.
Qed.

(** ** Sorting the keys *)
#[global] Instance key_le_trans : Transitive key_le.
Proof. intros a b c. unfold key_le. apply transitivity. Qed.

#[global] Instance key_le_total : Total key_le.
Proof. intros a b. unfold key_le. apply total, _. Qed.

Lemma key_le_antisym l a b :
  NoDup (List.map fst l) -> a ∈ l -> b ∈ l -> key_le a b -> key_le b a -> a = b.
Proof.
  intros Hnd Ha Hb Hab Hba. assert (a.1 = b.1) as E by by apply (anti_symm String.le).
  destruct a as [k x], b as [k' y]; simpl in E; subst k'. f_equal.
  induction l as [|[k' z] l IH]; [by apply not_elem_of_nil in Ha|].
  simpl in Hnd. apply NoDup_cons in Hnd as [Hk Hnd].
  assert (Hin : forall w, (k, w) ∈ l -> k ∈ List.map fst l).
  { intros w Hw. apply (list_elem_of_fmap_2 fst) in Hw. done. }
  apply elem_of_cons in Ha as [Ha|Ha], Hb as [Hb|Hb]; simplify_eq; try done.
  - destruct (Hk (Hin _ Hb)).
  - destruct (Hk (Hin _ Ha)).
  - auto.
Qed.

(** Objects with the same members sort to the same list, whatever their order. *)
Lemma merge_sort_perm l1 l2 :
  NoDup (List.map fst l1) -> l1 ≡ₚ l2 -> merge_sort key_le l1 = merge_sort key_le l2.
Proof.
  intros Hnd Hp. eapply (StronglySorted_unique_strong key_le).
  - intros a b Ha Hb. rewrite !merge_sort_Permutation in Ha, Hb. apply key_le_antisym with l1; try done.
    by rewrite Hp.
  - apply StronglySorted_merge_sort; apply _.
  - apply StronglySorted_merge_sort; apply _.
  - by rewrite !merge_sort_Permutation.
Qed.

Lemma map_fst_pair {A B C : Type} (g : A * B -> C) (l : list (A * B)) :
  List.map fst (List.map (fun kv => (kv.1, g kv)) l) = List.map fst l.
Proof. rewrite List.map_map. by apply List.map_ext. Qed.

Lemma sort_keys_names kvs :
  List.map fst (merge_sort key_le (List.map (fun kv => (kv.1, sort_keys kv.2)) kvs))
  ≡ₚ List.map fst kvs.
Proof.
  etrans; [|rewrite <- (map_fst_pair (fun kv => sort_keys kv.2) kvs); reflexivity].
  apply Permutation.Permutation_map, merge_sort_Permutation.
Qed.

Lemma forallb_perm {A : Type} (f : A -> bool) l1 l2 : l1 ≡ₚ l2 -> forallb f l1 = forallb f l2.
Proof.
  induction 1; simpl; [done| by f_equal | | by etrans].
  by rewrite !andb_assoc, (andb_comm (f y)).
Qed.

Lemma forallb_ext_Forall {A : Type} (f g : A -> bool) l :
  Forall (fun x => f x = g x) l -> forallb f l = forallb g l.
Proof. induction 1; simpl; by f_equal. Qed.

Lemma forallb_map {A B : Type} (f : B -> bool) (g : A -> B) l :
  forallb f (List.map g l) = forallb (fun x => f (g x)) l.
Proof. induction l; simpl; by f_equal. Qed.

Lemma sort_keys_finite v : all_finite (sort_keys v) = all_finite v.
Proof.
  induction v as [| | | | |l IH|kvs IH] using json_ind'; simpl; try done.
  - rewrite forallb_map. by apply forallb_ext_Forall.
  - rewrite (forallb_perm _ _ _ (merge_sort_Permutation key_le _)), forallb_map.
    by apply forallb_ext_Forall.
Qed.

Lemma sort_keys_wf v : wf_json (sort_keys v) = wf_json v.
Proof.
  induction v as [| | | | |l IH|kvs IH] using json_ind'; simpl; try done.
  - rewrite forallb_map. by apply forallb_ext_Forall.
  - rewrite (forallb_perm _ _ _ (merge_sort_Permutation key_le _)), forallb_map. f_equal.
    + apply bool_decide_ext. by rewrite sort_keys_names.
    + by apply forallb_ext_Forall.
Qed.

Lemma map_id_Forall {A : Type} (f : A -> A) l : Forall (fun x => f x = x) l -> List.map f l = l.
Proof. induction 1; simpl; by f_equal. Qed.

(** Canonicalising twice changes nothing: the payload a handler receives has
    the bytes the approval was bound to. *)
Lemma sort_keys_idem v : wf_json v = true -> sort_keys (sort_keys v) = sort_keys v.
Proof.
  induction v as [| | | | |l IH|kvs IH] using json_ind'; simpl; intros Hw; try done.
  - f_equal. rewrite List.map_map. rewrite forallb_forall in Hw. apply List.map_ext_in.
    intros x Hx. rewrite Forall_forall in IH. apply IH; [by apply list_elem_of_In | by apply Hw].
  - apply andb_true_iff in Hw as [Hnd%bool_decide_eq_true_1 Hw]. f_equal.
    rewrite (map_id_Forall (A := string * json)).
    + apply merge_sort_perm; [|apply merge_sort_Permutation].
      by rewrite sort_keys_names.
    + rewrite (merge_sort_Permutation key_le). apply List.Forall_map.
      rewrite forallb_forall in Hw. rewrite Forall_forall in *.
      intros [k x] Hx. simpl. f_equal. apply (IH (k, x) Hx), (Hw (k, x)), list_elem_of_In, Hx.
Qed.

Lemma loads_print v :
  wf_json v = true -> all_finite v = true ->
  loads (String.string_of_list_ascii (print v)) = Some v.
Proof.
  intros Hw Hf. unfold loads, chars.
  rewrite String.list_ascii_of_string_of_list_ascii, string_length_chars.
  unfold chars. rewrite String.list_ascii_of_string_of_list_ascii.
  pose proof (parse_print v Hw Hf (S (2 * length (print v))) [] ltac:(lia) I) as H.
  rewrite app_nil_r in H. by rewrite H.
Qed.

Lemma loads_canonical_text v :
  wf_json v = true -> all_finite v = true -> loads (canonical_text v) = Some (sort_keys v).
Proof. intros. apply loads_print; by rewrite ?sort_keys_wf, ?sort_keys_finite. Qed.

Lemma canonical_json_Ok v t : canonical_json v = Ok t <-> all_finite v = true /\ t = canonical_text v.
Proof.
  unfold canonical_json. destruct (all_finite v); simpl; split;
    [by intros [= <-] | by intros [_ ->] | done | by intros [[=] _]].
Qed.

Lemma canonical_text_sort v : wf_json v = true -> canonical_text (sort_keys v) = canonical_text v.
Proof. intros. unfold canonical_text. by rewrite sort_keys_idem. Qed.

Lemma canonical_text_inj v w :
  wf_json v = true -> all_finite v = true -> wf_json w = true -> all_finite w = true ->
  canonical_text v = canonical_text w -> sort_keys v = sort_keys w.
Proof.
  intros Hv Fv Hw Fw E. pose proof (loads_canonical_text v Hv Fv) as H.
  rewrite E, loads_canonical_text in H by done. congruence.
Qed.

(** ** Properties *)

(** C40. The canonical encoding loses nothing but the order of keys: whatever a
    well-formed value is serialised to parses back to the value with its object
    keys sorted, and serialising that again gives the same bytes. *)
Theorem canonical_roundtrip v t :
  wf_json v = true -> canonical_json v = Ok t ->
  loads t = Some (sort_keys v) /\ canonical_json (sort_keys v) = Ok t.
Proof.
  intros Hw [Hf ->]%canonical_json_Ok. split; [by apply loads_canonical_text|].
  apply canonical_json_Ok. by rewrite sort_keys_finite, canonical_text_sort.
Qed.

Definition demo_value : json :=
  JObj [("b"%string, JList [JInt (-12); JStr "x"; JNull]); ("a"%string, JObj [("z"%string, JBool true)])].

Lemma canonical_roundtrip_witness :
  exists t, canonical_json demo_value = Ok t /\ loads t = Some (sort_keys demo_value).
Proof.
  destruct (canonical_roundtrip demo_value (canonical_text demo_value)) as [Hl _]; [by vm_compute..|].
  exists (canonical_text demo_value). split; [by vm_compute|exact Hl].
Defined.
