(* ===== verification/Scopes.v ===== *)
(** * Runtime scopes and hierarchical service bindings ([runtime/scopes.py])

    [ScopePath] and [RequestScope] are the identity values every authorization
    decision is keyed by; [ServiceBindings] is the immutable chain of service
    layers (root, tenant, product, agent).  Construction runs the
    [__post_init__] checks, so a constructor is a fallible function. *)
From S2P Require Import Prelude PyText.

(** ** Scope paths *)
Inductive ScopeKind : Type := ROOT | TENANT | PRODUCT | AGENT.

#[global] Instance ScopeKind_eq_dec : EqDecision ScopeKind.
Proof. solve_decision. Defined.
#[global] Program Instance ScopeKind_finite : Finite ScopeKind := {| enum := [ROOT; TENANT; PRODUCT; AGENT] |}.
Solve All Obligations with solve_finite.

Definition kind_value (k : ScopeKind) : string :=
  match k with ROOT => "root" | TENANT => "tenant" | PRODUCT => "product" | AGENT => "agent" end.

(** [_CHILD_KIND.get(kind)] *)
Definition CHILD_KIND (k : ScopeKind) : option ScopeKind :=
  match k with ROOT => Some TENANT | TENANT => Some PRODUCT | PRODUCT => Some AGENT | AGENT => None end.

Record ScopePath : Type := MkScopePath {
  path_kind : ScopeKind;
  path_tenant_id : option string;
  path_product_id : option string;
  path_agent_id : option string;
  path_session_id : option string;
}.

#[global] Instance ScopePath_eq_dec : EqDecision ScopePath.
Proof. solve_decision. Defined.
#[global] Instance ScopePath_countable : Countable ScopePath.
Proof.
  refine (inj_countable'
    (fun p => (path_kind p, path_tenant_id p, path_product_id p, path_agent_id p, path_session_id p))
    (fun '(k, t, p, a, s) => MkScopePath k t p a s) _). by intros [].
Defined.

(** [_identifier(cast(str, value), label)]: [None] is not a string. *)
Definition opt_identifier (value : option string) : res unit :=
  match value with
  | Some s => let! _ := identifier s in Ok tt
  | None => Raise ValueError
  end.

Definition is_none {A : Type} (o : option A) : bool :=
  match o with None => true | Some _ => false end.

(** [ScopePath.__post_init__] *)
Definition path_post_init (p : ScopePath) : res unit :=
  match path_kind p with
  | ROOT =>
      guard (is_none (path_tenant_id p) && is_none (path_product_id p)
             && is_none (path_agent_id p) && is_none (path_session_id p)) ValueError
  | TENANT =>
      let! _ := opt_identifier (path_tenant_id p) in
      guard (is_none (path_product_id p) && is_none (path_agent_id p)
             && is_none (path_session_id p)) ValueError
  | PRODUCT =>
      let! _ := opt_identifier (path_tenant_id p) in
      let! _ := opt_identifier (path_product_id p) in
      guard (is_none (path_agent_id p) && is_none (path_session_id p)) ValueError
  | AGENT =>
      let! _ := opt_identifier (path_tenant_id p) in
      let! _ := opt_identifier (path_product_id p) in
      let! _ := opt_identifier (path_agent_id p) in
      opt_identifier (path_session_id p)
  end.

(** The dataclass constructor *)
Definition scope_path (k : ScopeKind) (t p a s : option string) : res ScopePath :=
  let path := MkScopePath k t p a s in
  let! _ := path_post_init path in Ok path.

Definition root_path : res ScopePath := scope_path ROOT None None None None.
Definition tenant_path (t : string) : res ScopePath := scope_path TENANT (Some t) None None None.
Definition product_path (t p : string) : res ScopePath :=
  scope_path PRODUCT (Some t) (Some p) None None.
Definition agent_path (t p a s : string) : res ScopePath :=
  scope_path AGENT (Some t) (Some p) (Some a) (Some s).

(** [ScopePath.parent()]; [None] is the root's answer. *)
Definition path_parent (self : ScopePath) : res (option ScopePath) :=
  match path_kind self with
  | ROOT => Ok None
  | TENANT => let! r := root_path in Ok (Some r)
  | PRODUCT => let! r := scope_path TENANT (path_tenant_id self) None None None in Ok (Some r)
  | AGENT =>
      let! r := scope_path PRODUCT (path_tenant_id self) (path_product_id self) None None in
      Ok (Some r)
  end.

(** The invariant a constructed path carries *)
Definition valid_path (p : ScopePath) : Prop := path_post_init p = Ok tt.

(** ** Request scopes *)
Record RequestScope : Type := MkRequestScope {
  rs_path : ScopePath;
  rs_principal_id : string;
  rs_channel_id : string;
  rs_roles : gset string;
  rs_purpose : string;
  rs_request_id : string;
  rs_correlation_id : string;
  rs_session_owner_id : option string;
}.

#[global] Instance RequestScope_eq_dec : EqDecision RequestScope.
Proof. solve_decision. Defined.

Definition product_or_agent (k : ScopeKind) : bool :=
  match k with PRODUCT | AGENT => true | _ => false end.

(** [if value: _identifier(value, label)] *)
Definition identifier_if_set (value : string) : res unit :=
  if decide (value = ""%string) then Ok tt else let! _ := identifier value in Ok tt.

(** [RequestScope.__post_init__] *)
Definition request_post_init (r : RequestScope) : res unit :=
  require product_or_agent (path_kind (rs_path r)) else ValueError ;;
  let! _ := identifier (rs_principal_id r) in
  let! _ := identifier (rs_channel_id r) in
  require negb (is_blank (rs_purpose r)) else ValueError ;;
  let! _ := for_each (fun role => let! _ := identifier role in Ok tt) (elements (rs_roles r)) in
  let! _ := identifier_if_set (rs_request_id r) in
  let! _ := identifier_if_set (rs_correlation_id r) in
  match rs_session_owner_id r with
  | None => Ok tt
  | Some owner => let! _ := identifier owner in Ok tt
  end.

Definition request_scope (r : RequestScope) : res RequestScope :=
  let! _ := request_post_init r in Ok r.

Definition valid_request (r : RequestScope) : Prop :=
  valid_path (rs_path r) /\ request_post_init r = Ok tt.

(** [cast(str, self.path.tenant_id)]; the default is never read on a valid scope. *)
Definition rs_tenant_id (r : RequestScope) : string := default ""%string (path_tenant_id (rs_path r)).
Definition rs_product_id (r : RequestScope) : string := default ""%string (path_product_id (rs_path r)).

(** [session_owner_id or principal_id]: an empty owner falls back, too. *)
Definition effective_session_owner_id (r : RequestScope) : string :=
  match rs_session_owner_id r with
  | Some owner => if decide (owner = ""%string) then rs_principal_id r else owner
  | None => rs_principal_id r
  end.

(** ** Lemmas on paths *)
Lemma opt_identifier_Ok o u : opt_identifier o = Ok u <-> exists s, o = Some s /\ IDENTIFIER s = true.
Proof.
  destruct o as [s|], u; simpl; split.
  - intros H. py_simpl. apply identifier_Ok in H as [? _]. eauto.
  - intros (? & [= <-] & H). by unfold identifier; rewrite H.
  - done.
  - by intros (? & [=] & _).
Qed.

Lemma is_none_true {A : Type} (o : option A) : is_none o = true <-> o = None.
Proof. by destruct o. Qed.

Lemma scope_path_Ok k t p a s r :
  scope_path k t p a s = Ok r <-> r = MkScopePath k t p a s /\ valid_path r.
Proof.
  unfold scope_path, valid_path. rewrite res_bind_Ok. split.
  - intros ([] & H & [= <-]). done.
  - intros [-> H]. eauto.
Qed.

(** What validity says of each kind *)
Lemma valid_path_inv p :
  valid_path p <->
  match path_kind p with
  | ROOT => p = MkScopePath ROOT None None None None
  | TENANT => exists t, p = MkScopePath TENANT (Some t) None None None /\ IDENTIFIER t = true
  | PRODUCT => exists t q, p = MkScopePath PRODUCT (Some t) (Some q) None None
                 /\ IDENTIFIER t = true /\ IDENTIFIER q = true
  | AGENT => exists t q a s, p = MkScopePath AGENT (Some t) (Some q) (Some a) (Some s)
               /\ IDENTIFIER t = true /\ IDENTIFIER q = true
               /\ IDENTIFIER a = true /\ IDENTIFIER s = true
  end.
Proof.
  destruct p as [k t q a s]. unfold valid_path, path_post_init; simpl.
  destruct k; simpl; rewrite ?res_bind_Ok; split.
  - intros H. py_simpl. by rewrite !is_none_true in *; subst.
  - by intros [= -> -> -> ->].
  - intros ([] & (t' & -> & Ht)%opt_identifier_Ok & H). py_simpl.
    rewrite !is_none_true in *; subst. eauto.
  - intros (t' & [= -> -> -> ->] & ?). exists tt. rewrite opt_identifier_Ok. split; [eauto | done].
  - intros ([] & (t' & -> & Ht)%opt_identifier_Ok & H).
    apply res_bind_Ok in H; destruct H as ([] & (q' & -> & Hq)%opt_identifier_Ok & H). py_simpl.
    rewrite !is_none_true in *; subst. eauto 6.
  - intros (t' & q' & [= -> -> -> ->] & ? & ?). exists tt. rewrite opt_identifier_Ok. split; [eauto|].
    rewrite res_bind_Ok. exists tt. rewrite opt_identifier_Ok. split; [eauto | done].
  - intros ([] & (t' & -> & Ht)%opt_identifier_Ok & H).
    apply res_bind_Ok in H; destruct H as ([] & (q' & -> & Hq)%opt_identifier_Ok & H).
    apply res_bind_Ok in H; destruct H as ([] & (a' & -> & Ha)%opt_identifier_Ok & H).
    apply opt_identifier_Ok in H as (s' & -> & ?). eauto 10.
  - intros (t' & q' & a' & s' & [= -> -> -> ->] & ? & ? & ? & ?).
    exists tt. rewrite opt_identifier_Ok. split; [eauto|].
    rewrite res_bind_Ok. exists tt. rewrite opt_identifier_Ok. split; [eauto|].
    rewrite res_bind_Ok. exists tt. rewrite opt_identifier_Ok. split; [eauto|].
    rewrite opt_identifier_Ok. eauto.
Qed.

Lemma product_path_valid t p r :
  product_path t p = Ok r <->
  r = MkScopePath PRODUCT (Some t) (Some p) None None /\ IDENTIFIER t = true /\ IDENTIFIER p = true.
Proof.
  unfold product_path. rewrite scope_path_Ok. split.
  - intros [-> H]. split; [done|]. apply valid_path_inv in H. simpl in H.
    destruct H as (? & ? & [= <- <-] & ? & ?). done.
  - intros (-> & ? & ?). split; [done|]. apply valid_path_inv. simpl. eauto.
Qed.

Lemma tenant_path_valid t r :
  tenant_path t = Ok r <-> r = MkScopePath TENANT (Some t) None None None /\ IDENTIFIER t = true.
Proof.
  unfold tenant_path. rewrite scope_path_Ok. split.
  - intros [-> H]. split; [done|]. apply valid_path_inv in H. simpl in H.
    by destruct H as (? & [= <-] & ?).
  - intros (-> & ?). split; [done|]. apply valid_path_inv. simpl. eauto.
Qed.

(** The path of a valid request scope names a tenant and a product. *)
Lemma valid_request_ids r :
  valid_request r ->
  path_tenant_id (rs_path r) = Some (rs_tenant_id r) /\
  path_product_id (rs_path r) = Some (rs_product_id r) /\
  IDENTIFIER (rs_tenant_id r) = true /\ IDENTIFIER (rs_product_id r) = true /\
  product_or_agent (path_kind (rs_path r)) = true.
Proof.
  intros [Hp Hr]. unfold request_post_init in Hr. py_simpl. apply valid_path_inv in Hp.
  unfold rs_tenant_id, rs_product_id.
  destruct (path_kind (rs_path r)) eqn:K; try done.
  - destruct Hp as (t & q & E & ? & ?). by rewrite E.
  - destruct Hp as (t & q & a & s & E & ? & ? & ? & ?). by rewrite E.
Qed.

(** ** Service bindings

    [C] stands for the contract classes and [V] for service objects; both are
    product code, seen here only through Python's [isinstance]. *)
Section Bindings.
Context {C V : Type} `{EqDecision C} (isinstance : V -> C -> res bool).

Record ServiceKey : Type := MkServiceKey {
  sk_name : string;
  sk_contract : C;
  sk_declared_at : ScopeKind;
  sk_overridable_at : gset ScopeKind;
}.

#[global] Instance ServiceKey_eq_dec : EqDecision ServiceKey.
Proof. solve_decision. Defined.

(** [ServiceKey.__post_init__] ([_SERVICE_PATTERN] is the pattern of [NAME]) *)
Definition service_key (k : ServiceKey) : res ServiceKey :=
  require NAME (sk_name k) else ValueError ;;
  require bool_decide (sk_declared_at k ∉ sk_overridable_at k) else ValueError ;;
  Ok k.

Definition binding_scopes (k : ServiceKey) : gset ScopeKind :=
  {[ sk_declared_at k ]} ∪ sk_overridable_at k.

(** [ServiceKey.validate]: any failure of the contract test is a [TypeError]. *)
Definition key_validate (k : ServiceKey) (value : V) : res unit :=
  match isinstance value (sk_contract k) with
  | Ok true => Ok tt
  | Ok false => Raise TypeError
  | Raise TypeError => Raise TypeError
  | Raise e => Raise e
  end.

Record Binding : Type := MkBinding { b_key : ServiceKey; b_value : V }.

(** One immutable layer and its parents, nearest first *)
#[warnings="-register-all"]
Inductive ServiceBindings : Type :=
| Layer (kind : ScopeKind) (local : gmap string Binding) (parent : option ServiceBindings).

Definition sb_kind (s : ServiceBindings) : ScopeKind := let '(Layer k _ _) := s in k.
Definition sb_local (s : ServiceBindings) : gmap string Binding := let '(Layer _ l _) := s in l.
Definition sb_parent (s : ServiceBindings) : option ServiceBindings := let '(Layer _ _ p) := s in p.

(** [ServiceBindings._find] *)
Fixpoint sb_find (s : ServiceBindings) (name : string) : option Binding :=
  let '(Layer _ local parent) := s in
  match local !! name with
  | Some b => Some b
  | None => match parent with None => None | Some p => sb_find p name end
  end.

Definition parent_find (parent : option ServiceBindings) (name : string) : option Binding :=
  match parent with None => None | Some p => sb_find p name end.

(** The body of the constructor's loop for one [(key, value)] *)
Definition bind_one (kind : ScopeKind) (parent : option ServiceBindings)
    (local : gmap string Binding) (key : ServiceKey) (value : V) : res (gmap string Binding) :=
  require is_none (local !! sk_name key) else ServiceBindingError ;;
  require bool_decide (kind ∈ binding_scopes key) else ServiceBindingError ;;
  let! _ := key_validate key value in
  let! _ :=
    match parent_find parent (sk_name key) with
    | None => Ok tt
    | Some inherited =>
        require bool_decide (b_key inherited = key) else ServiceBindingError ;;
        guard (bool_decide (kind ∈ sk_overridable_at key)) ServiceBindingError
    end in
  Ok (<[ sk_name key := MkBinding key value ]> local).

Fixpoint bind_all (kind : ScopeKind) (parent : option ServiceBindings)
    (local : gmap string Binding) (values : list (ServiceKey * V)) : res (gmap string Binding) :=
  match values with
  | [] => Ok local
  | (key, value) :: values =>
      let! local := bind_one kind parent local key value in
      bind_all kind parent local values
  end.

(** [ServiceBindings.__init__] *)
Definition service_bindings (kind : ScopeKind) (values : list (ServiceKey * V))
    (parent : option ServiceBindings) : res ServiceBindings :=
  let! _ :=
    match parent with
    | None => guard (bool_decide (kind = ROOT)) ServiceBindingError
    | Some p => guard (bool_decide (CHILD_KIND (sb_kind p) = Some kind)) ServiceBindingError
    end in
  let! local := bind_all kind parent ∅ values in
  Ok (Layer kind local parent).

Definition derive (self : ServiceBindings) (kind : ScopeKind) (values : list (ServiceKey * V)) :
    res ServiceBindings :=
  service_bindings kind values (Some self).

Definition sb_resolve (self : ServiceBindings) (key : ServiceKey) : res V :=
  match sb_find self (sk_name key) with
  | None => Raise LookupError
  | Some b =>
      require bool_decide (b_key b = key) else ServiceBindingError ;;
      Ok (b_value b)
  end.

Definition sb_contains (self : ServiceBindings) (key : ServiceKey) : bool :=
  match sb_find self (sk_name key) with
  | None => false
  | Some b => bool_decide (b_key b = key)
  end.

(** [snapshot]: layers root first, a nearer layer overwrites. *)
Fixpoint lineage (s : ServiceBindings) : list (gmap string Binding) :=
  let '(Layer _ local parent) := s in
  local :: match parent with None => [] | Some p => lineage p end.

Definition snapshot (self : ServiceBindings) : gmap string V :=
  fold_left (fun values layer => (b_value <$> layer) ∪ values) (reverse (lineage self)) ∅.

(** *** Invariant of a constructed chain *)

(** Every name is stored under its own key, at an allowed kind, and a name a
    parent already binds is bound to the same key, overridable here. *)
Definition layer_ok (kind : ScopeKind) (local : gmap string Binding)
    (parent : option ServiceBindings) : Prop :=
  map_Forall (fun name b =>
    sk_name (b_key b) = name /\ kind ∈ binding_scopes (b_key b) /\
    isinstance (b_value b) (sk_contract (b_key b)) = Ok true /\
    match parent_find parent name with
    | None => True
    | Some inherited => b_key inherited = b_key b /\ kind ∈ sk_overridable_at (b_key b)
    end) local.

Fixpoint chain_ok (s : ServiceBindings) : Prop :=
  let '(Layer kind local parent) := s in
  layer_ok kind local parent /\
  match parent with
  | None => kind = ROOT
  | Some p => CHILD_KIND (sb_kind p) = Some kind /\ chain_ok p
  end.

Lemma bind_one_ok kind parent local key value local' :
  layer_ok kind local parent -> bind_one kind parent local key value = Ok local' ->
  layer_ok kind local' parent /\ local' = <[ sk_name key := MkBinding key value ]> local
  /\ local !! sk_name key = None /\ isinstance value (sk_contract key) = Ok true.
Proof.
  intros Hl H. unfold bind_one in H. py_simpl. rewrite is_none_true in *.
  assert (isinstance value (sk_contract key) = Ok true).
  { unfold key_validate in *. repeat (case_match; simplify_eq; try done). }
  split_and!; try done. apply map_Forall_insert_2; [|done]. simpl. split_and!; try done.
  destruct (parent_find parent (sk_name key)); py_simpl; done.
Qed.

Lemma bind_all_ok kind parent local values local' :
  layer_ok kind local parent -> bind_all kind parent local values = Ok local' ->
  layer_ok kind local' parent.
Proof.
  revert local. induction values as [|[k v] vs IH]; simpl; intros local Hl H; [by py_simpl|].
  apply res_bind_Ok in H as (l1 & H1 & H2). eapply IH; [|done]. by eapply bind_one_ok.
Qed.

Lemma service_bindings_ok kind values parent s :
  match parent with Some p => chain_ok p | None => True end ->
  service_bindings kind values parent = Ok s -> chain_ok s /\ sb_kind s = kind /\ sb_parent s = parent.
Proof.
  intros Hp H. unfold service_bindings in H. apply res_bind_Ok in H as ([] & Hk & H).
  apply res_bind_Ok in H as (local & Hl & [= <-]).
  split_and!; try done. split.
  - apply (bind_all_ok kind parent ∅ values); [apply map_Forall_empty | done].
  - destruct parent; py_simpl; auto.
Qed.

(** Induction over the chain of layers *)
Lemma bindings_ind (P : ServiceBindings -> Prop)
    (H : forall kind local parent,
      match parent with Some p => P p | None => True end -> P (Layer kind local parent)) :
  forall s, P s.
Proof. fix IH 1. intros [kind local [p|]]; apply H; [apply IH | exact I]. Qed.

Lemma sb_find_sound s name b :
  chain_ok s -> sb_find s name = Some b ->
  sk_name (b_key b) = name /\ isinstance (b_value b) (sk_contract (b_key b)) = Ok true.
Proof.
  induction s as [kind local parent IH] using bindings_ind. simpl. intros [Hl Hp] Hf.
  destruct (local !! name) as [b'|] eqn:E; simplify_eq.
  - apply Hl in E as (? & _ & ? & _). done.
  - destruct parent as [p|]; [|done]. apply IH; [apply Hp | done].
Qed.

(** A layer changes the binding of an inherited name only where the key allows it. *)
Lemma sb_find_inherit kind local p name b :
  chain_ok (Layer kind local (Some p)) -> sb_find p name = Some b ->
  exists b', sb_find (Layer kind local (Some p)) name = Some b' /\ b_key b' = b_key b /\
    (b' = b \/ kind ∈ sk_overridable_at (b_key b)).
Proof.
  intros [Hl _] Hf. simpl. destruct (local !! name) as [b'|] eqn:E.
  - apply Hl in E as (_ & _ & _ & Hp). simpl in Hp. rewrite Hf in Hp. destruct Hp as [Hk Ho].
    exists b'. rewrite <- Hk in Ho. auto.
  - eauto.
Qed.

Lemma snapshot_cons kind local p :
  snapshot (Layer kind local (Some p)) = (b_value <$> local) ∪ snapshot p.
Proof. unfold snapshot. simpl. rewrite reverse_cons, fold_left_app. done. Qed.

(** *** Properties *)

(** Flattening the chain for diagnostics agrees with the recursive lookup
    on every name: [snapshot] maps a name to exactly the value [_find] reaches. *)
Theorem snapshot_lookup s name : snapshot s !! name = b_value <$> sb_find s name.
Proof.
  induction s as [kind local parent IH] using bindings_ind. destruct parent as [p|].
  - rewrite snapshot_cons, lookup_union, IH, lookup_fmap. simpl.
    by destruct (local !! name), (sb_find p name).
  - unfold snapshot. simpl. rewrite (right_id_L ∅ (∪)), lookup_fmap. by destruct (local !! name).
Qed.

(** Deriving a child layer never lets it replace an inherited service whose
    key does not list the child's kind in [overridable_at]: the child resolves
    such a key to the parent's value, whatever bindings the child supplies. *)
Theorem derive_keeps_protected p kind values s key v :
  chain_ok p -> derive p kind values = Ok s ->
  sb_resolve p key = Ok v -> kind ∉ sk_overridable_at key ->
  chain_ok s /\ sb_resolve s key = Ok v.
Proof.
  intros Hp Hd Hr Hk. apply (service_bindings_ok kind values (Some p)) in Hd as (Hs & Hkind & Hpar); [|done].
  split; [done|]. destruct s as [k l par]; simpl in Hkind, Hpar; subst.
  unfold sb_resolve in Hr |- *. destruct (sb_find p (sk_name key)) as [b|] eqn:E; [|done].
  apply res_bind_Ok in Hr as ([] & Hb%guard_Ok%bool_decide_eq_true_1 & [= <-]).
  destruct (sb_find_inherit _ _ _ _ _ Hs E) as (b' & -> & Eb & Ho).
  destruct Ho as [->|Ho]; [|by rewrite Hb in Ho]. by rewrite bool_decide_eq_true_2.
Qed.

(** A service resolved through a key is an instance of the key's contract,
    at whatever layer of a constructed chain it was bound. *)
Theorem resolve_typed s key v :
  chain_ok s -> sb_resolve s key = Ok v -> isinstance v (sk_contract key) = Ok true.
Proof.
  intros Hs Hr. unfold sb_resolve in Hr. destruct (sb_find s (sk_name key)) as [b|] eqn:E; [|done].
  py_simpl. by apply sb_find_sound in E as [_ ?].
Qed.
End Bindings.

Arguments ServiceKey C : clear implicits.
Arguments Binding C V : clear implicits.
Arguments ServiceBindings C V : clear implicits.

(** ** A concrete chain: a protected clock service at the root. *)
Definition demo_isinstance (v : nat) (c : bool) : res bool := Ok (bool_decide (v = 1%nat) && c).
Definition demo_key : ServiceKey bool := MkServiceKey "clock" true ROOT ∅.
Definition demo_layer : ServiceBindings bool nat := Layer ROOT {[ "clock"%string := MkBinding demo_key 1%nat ]} None.

Lemma demo_layer_ok : chain_ok demo_isinstance demo_layer.
Proof.
  destruct (service_bindings_ok demo_isinstance ROOT [(demo_key, 1%nat)] None demo_layer) as [H _]; done.
Qed.

Lemma derive_keeps_protected_witness :
  chain_ok demo_isinstance (Layer TENANT ∅ (Some demo_layer)) /\
  sb_resolve (Layer TENANT ∅ (Some demo_layer)) demo_key = Ok 1%nat.
Proof.
  apply (derive_keeps_protected demo_isinstance demo_layer TENANT [] _ demo_key 1%nat).
  - apply demo_layer_ok.
  - reflexivity.
  - reflexivity.
  - decide_by_vm.
Defined.

Lemma resolve_typed_witness : demo_isinstance 1 true = Ok true.
Proof. apply (resolve_typed demo_isinstance demo_layer demo_key 1%nat); [apply demo_layer_ok|reflexivity]. Defined.
