(* ===== verification/Budget.v ===== *)
(** * The shared run quota ([multiagent/budget.py])

    One [AggregateRunBudget] is charged by a parent run and by every child run
    it delegates to, possibly concurrently.  Each method body holds the
    object's lock, so a method call is one atomic step; an interleaving of
    callers is a sequence of such steps. *)
From S2P Require Import Prelude PyText.
Open Scope Z_scope.

Module Budget.

Record AggregateRunBudget : Type := Mk {
  max_iterations : Z;
  max_tool_calls : Z;
  max_children : Z;
  deadline_monotonic : Z;
  iterations_used : Z;
  tool_calls_used : Z;
  child_calls : gset string;
  active_children : Z;
}.

(** [__init__] *)
Definition create (iterations tool_calls children : pyarg) (deadline : Z) : res AggregateRunBudget :=
  let! i := nonneg_int iterations in
  let! t := nonneg_int tool_calls in
  let! c := nonneg_int children in
  Ok (Mk i t c deadline 0 0 ∅ 0).

(** [remaining_seconds], read at monotonic time [now] *)
Definition remaining_seconds (b : AggregateRunBudget) (now : Z) : Z :=
  Z.max 0 (deadline_monotonic b - now).

Definition with_iterations (b : AggregateRunBudget) (n : Z) : AggregateRunBudget :=
  Mk (max_iterations b) (max_tool_calls b) (max_children b) (deadline_monotonic b)
     n (tool_calls_used b) (child_calls b) (active_children b).
Definition with_tool_calls (b : AggregateRunBudget) (n : Z) : AggregateRunBudget :=
  Mk (max_iterations b) (max_tool_calls b) (max_children b) (deadline_monotonic b)
     (iterations_used b) n (child_calls b) (active_children b).
Definition with_child_calls (b : AggregateRunBudget) (s : gset string) : AggregateRunBudget :=
  Mk (max_iterations b) (max_tool_calls b) (max_children b) (deadline_monotonic b)
     (iterations_used b) (tool_calls_used b) s (active_children b).
Definition with_active (b : AggregateRunBudget) (n : Z) : AggregateRunBudget :=
  Mk (max_iterations b) (max_tool_calls b) (max_children b) (deadline_monotonic b)
     (iterations_used b) (tool_calls_used b) (child_calls b) n.

Definition take_iteration (b : AggregateRunBudget) (now : Z) : bool * AggregateRunBudget :=
  if (remaining_seconds b now <=? 0) || (max_iterations b <=? iterations_used b)
  then (false, b)
  else (true, with_iterations b (iterations_used b + 1)).

Definition take_tool_slots (b : AggregateRunBudget) (now : Z) (requested : pyarg) :
    res Z * AggregateRunBudget :=
  match nonneg_int requested with
  | Raise e => (Raise e, b)
  | Ok requested =>
      if remaining_seconds b now <=? 0 then (Ok 0, b)
      else
        let available := Z.max 0 (max_tool_calls b - tool_calls_used b) in
        let permitted := Z.min requested available in
        (Ok permitted, with_tool_calls b (tool_calls_used b + permitted))
  end.

Definition reserve_child (b : AggregateRunBudget) (now : Z) (call_id : string) (ceiling : option pyarg) :
    res bool * AggregateRunBudget :=
  if decide (call_id = ""%string) then (Raise ValueError, b)
  else
    let limit :=
      match ceiling with
      | None => Ok (max_children b)
      | Some c => let! c := nonneg_int c in Ok (Z.min (max_children b) c)
      end in
    match limit with
    | Raise e => (Raise e, b)
    | Ok limit =>
        if (remaining_seconds b now <=? 0) || bool_decide (call_id ∈ child_calls b)
           || (limit <=? Z.of_nat (size (child_calls b)))
        then (Ok false, b)
        else (Ok true, with_child_calls b ({[ call_id ]} ∪ child_calls b))
    end.

(** [take_child_slot] is a wait loop on a condition variable.  [Woken] is a
    notification after which the loop test runs again on whatever state the
    other callers left; [TimedOut] is [asyncio.wait_for]'s [TimeoutError]. *)
Inductive wait : Type := Woken (b : AggregateRunBudget) (now : Z) | TimedOut (b : AggregateRunBudget).

(** One evaluation of the loop test: [Some] when the call ends here. *)
Definition child_slot_test (b : AggregateRunBudget) (now effective : Z) :
    option (bool * AggregateRunBudget) :=
  if (0 <? remaining_seconds b now) && (0 <? effective) then
    if active_children b <? effective
    then Some (true, with_active b (active_children b + 1))
    else None
  else Some (false, b).

Fixpoint child_slot_loop (b : AggregateRunBudget) (now effective : Z) (waits : list wait) :
    option (bool * AggregateRunBudget) :=
  match child_slot_test b now effective with
  | Some r => Some r
  | None =>
      match waits with
      | [] => None
      | TimedOut b' :: _ => Some (false, b')
      | Woken b' now' :: waits => child_slot_loop b' now' effective waits
      end
  end.

(** The whole call; [None] is "still waiting" after the given wake-ups. *)
Definition take_child_slot (b : AggregateRunBudget) (now : Z) (ceiling : pyarg) (waits : list wait) :
    res (option (bool * AggregateRunBudget)) :=
  let! c := nonneg_int ceiling in
  Ok (child_slot_loop b now (Z.min c (max_children b)) waits).

Definition release_child_slot (b : AggregateRunBudget) : res unit * AggregateRunBudget :=
  if active_children b <=? 0 then (Raise RuntimeError, b)
  else (Ok tt, with_active b (active_children b - 1)).

(** ** Invariant *)
Record wf (b : AggregateRunBudget) : Prop := {
  wf_iterations : 0 <= iterations_used b <= max_iterations b;
  wf_tools : 0 <= tool_calls_used b <= max_tool_calls b;
  wf_children : Z.of_nat (size (child_calls b)) <= max_children b;
  wf_active : 0 <= active_children b <= max_children b;
}.

Lemma wf_create i t c d b : create i t c d = Ok b -> wf b.
Proof.
  unfold create. intros H. apply res_bind_Ok in H as (i' & [_ Hi]%nonneg_int_Ok & H).
  apply res_bind_Ok in H as (t' & [_ Ht]%nonneg_int_Ok & H).
  apply res_bind_Ok in H as (c' & [_ Hc]%nonneg_int_Ok & [= <-]).
  constructor; simpl; try lia. exact Hc.
Qed.

Lemma wf_take_iteration b now r b' : wf b -> take_iteration b now = (r, b') -> wf b'.
Proof.
  unfold take_iteration. intros [] H. case_match eqn:E; simplify_eq; [by constructor|].
  apply orb_false_iff in E as [_ ?%Z.leb_gt]. constructor; simpl; lia.
Qed.

Lemma take_tool_slots_Ok b now q n b' :
  take_tool_slots b now (AInt q) = (Ok n, b') -> wf b ->
  0 <= n <= q /\ b' = with_tool_calls b (tool_calls_used b + n) /\ tool_calls_used b + n <= max_tool_calls b.
Proof.
  unfold take_tool_slots. intros H [? Ht ? ?]. simpl in H.
  destruct (Z.ltb_spec q 0); simplify_eq.
  destruct (remaining_seconds b now <=? 0); injection H as <- <-.
  - rewrite Z.add_0_r. destruct b; simpl in *. split_and!; try done; lia.
  - split_and!; try done; lia.
Qed.

Lemma wf_take_tool_slots b now q r b' : wf b -> take_tool_slots b now q = (r, b') -> wf b'.
Proof.
  intros Hb H. destruct r as [n|e].
  - destruct q as [q| | | |]; try discriminate.
    destruct (take_tool_slots_Ok _ _ _ _ _ H Hb) as (? & -> & ?). destruct Hb. constructor; simpl; lia.
  - unfold take_tool_slots in H. py_case.
Qed.

Lemma wf_reserve_child b now id c r b' : wf b -> reserve_child b now id c = (r, b') -> wf b'.
Proof.
  intros Hb H. unfold reserve_child in H. destruct (decide _); simplify_eq; [done|].
  destruct (match c with None => _ | Some _ => _ end) as [limit|e] eqn:L; simplify_eq; [|done].
  case_match eqn:E; simplify_eq; [done|].
  apply orb_false_iff in E as [[_ Hin%bool_decide_eq_false_1]%orb_false_iff Hlim%Z.leb_gt].
  assert (limit <= max_children b).
  { destruct c; simplify_eq; [|lia]. apply res_bind_Ok in L as (? & _ & [= <-]). lia. }
  destruct Hb. constructor; simpl; try done. rewrite size_union by set_solver. rewrite size_singleton. lia.
Qed.

Lemma wf_child_slot_test b now eff r b' :
  wf b -> eff <= max_children b -> child_slot_test b now eff = Some (r, b') -> wf b'.
Proof.
  intros [] He H. unfold child_slot_test in H. py_case.
  match goal with H : (_ <? _) = true |- _ => apply Z.ltb_lt in H end. constructor; simpl; lia.
Qed.

Lemma wf_release_child_slot b r b' : wf b -> release_child_slot b = (r, b') -> wf b'.
Proof.
  intros [] H. unfold release_child_slot in H. destruct (Z.leb_spec (active_children b) 0); simplify_eq.
  - by constructor.
  - constructor; simpl; lia.
Qed.

(** ** Interleavings of callers

    [step] is one atomic method body, [charges] the tool slots it grants. *)
Inductive step : AggregateRunBudget -> Z -> Z -> AggregateRunBudget -> Prop :=
| step_iteration b now r b' : take_iteration b now = (r, b') -> step b (if r then 1 else 0) 0 b'
| step_tools b now q r b' : take_tool_slots b now q = (r, b') ->
    step b 0 (match r with Ok n => n | Raise _ => 0 end) b'
| step_reserve b now id c r b' : reserve_child b now id c = (r, b') -> step b 0 0 b'
| step_slot b now c r b' :
    child_slot_test b now (Z.min c (max_children b)) = Some (r, b') -> step b 0 0 b'
| step_release b r b' : release_child_slot b = (r, b') -> step b 0 0 b'.

(** [steps b i t b']: from [b] to [b'], [i] iterations and [t] tool slots granted in all. *)
Inductive steps : AggregateRunBudget -> Z -> Z -> AggregateRunBudget -> Prop :=
| steps_refl b : steps b 0 0 b
| steps_cons b i t b1 i' t' b2 : step b i t b1 -> steps b1 i' t' b2 -> steps b (i + i') (t + t') b2.

Definition limits (b : AggregateRunBudget) : Z * Z * Z * Z :=
  (max_iterations b, max_tool_calls b, max_children b, deadline_monotonic b).

Lemma step_inv b i t b' :
  wf b -> step b i t b' ->
  wf b' /\ limits b' = limits b /\ 0 <= i /\ 0 <= t /\
  iterations_used b' = iterations_used b + i /\ tool_calls_used b' = tool_calls_used b + t.
Proof.
  intros Hb H. inversion H; subst.
  - split; [by eapply wf_take_iteration|]. unfold take_iteration in H0. case_match; simplify_eq; split_and!; simpl; lia || done.
  - split; [by eapply wf_take_tool_slots|]. destruct r as [n|e].
    + destruct q as [q| | | |]; try discriminate.
      destruct (take_tool_slots_Ok _ _ _ _ _ H0 Hb) as (? & -> & ?). split_and!; simpl; lia || done.
    + unfold take_tool_slots in H0. py_case. split_and!; lia || done.
  - split; [by eapply wf_reserve_child|]. unfold reserve_child in H0. py_case; split_and!; simpl; lia || done.
  - split; [by eapply wf_child_slot_test; [| |done]; [|lia]|].
    unfold child_slot_test in H0. py_case; split_and!; simpl; lia || done.
  - split; [by eapply wf_release_child_slot|]. unfold release_child_slot in H0.
    py_case; split_and!; simpl; lia || done.
Qed.

Lemma steps_inv b i t b' :
  steps b i t b' -> wf b ->
  wf b' /\ limits b' = limits b /\
  iterations_used b' = iterations_used b + i /\ tool_calls_used b' = tool_calls_used b + t.
Proof.
  induction 1 as [b|b i t b1 i' t' b2 H1 _ IH]; intros Hb; [by rewrite !Z.add_0_r|].
  apply step_inv in H1 as (Hw & Hl & _ & _ & Hi & Ht); [|done].
  destruct (IH Hw) as (? & Hl' & Hi' & Ht'). rewrite Hl', Hi', Ht', Hl, Hi, Ht. split_and!; done || lia.
Qed.

(** C39. Whatever parent and child runs charge the shared quota in whatever
    order, the iterations and tool slots they are granted in total never exceed
    the ceilings the quota was created with, the number of reserved children
    and of active child slots stays below [max_children], and the counters are
    exactly the sums of what was granted. *)
Theorem aggregate_quota_is_never_exceeded i t c deadline b granted_i granted_t b' :
  create (AInt i) (AInt t) (AInt c) deadline = Ok b ->
  steps b granted_i granted_t b' ->
  granted_i = iterations_used b' /\ granted_t = tool_calls_used b' /\
  granted_i <= i /\ granted_t <= t /\
  Z.of_nat (size (child_calls b')) <= c /\ 0 <= active_children b' <= c.
Proof.
  intros Hc Hs. pose proof (wf_create _ _ _ _ _ Hc) as Hw.
  destruct (steps_inv _ _ _ _ Hs Hw) as ([] & Hl & Hi & Ht).
  unfold create in Hc. repeat (apply res_bind_Ok in Hc as (? & [? _]%nonneg_int_Ok & Hc)). simplify_eq.
  unfold limits in Hl. simpl in *. simplify_eq. split_and!; lia.
Qed.

Definition example_budget (i t : Z) : AggregateRunBudget := Mk 3 2 1 100 i t ∅ 0.

Lemma example_budget_steps : steps (example_budget 0 0) 1 2 (example_budget 1 2).
Proof.
  apply (steps_cons _ 1 0 (example_budget 1 0) 0 2); [by apply (step_iteration _ 10 true)|].
  apply (steps_cons _ 0 2 (example_budget 1 2) 0 0); [by apply (step_tools _ 20 (AInt 5) (Ok 2))|].
  apply steps_refl.
Qed.

Lemma aggregate_quota_witness :
  create (AInt 3) (AInt 2) (AInt 1) 100 = Ok (example_budget 0 0) /\
  steps (example_budget 0 0) 1 2 (example_budget 1 2) /\ 2 <= 2.
Proof.
  split; [reflexivity|]. split; [exact example_budget_steps|].
  apply (aggregate_quota_is_never_exceeded 3 2 1 100 (example_budget 0 0) 1 2 (example_budget 1 2)
           eq_refl example_budget_steps).
Defined.
End Budget.
