(* ===== verification/ExecModels.v ===== *)
(** * Values of the execution boundary ([execution/models.py])

    Every class is a frozen, strict pydantic model: its fields are a [Record]
    and its validators run in one fallible constructor function.  Timestamps
    are stored as UTC microseconds once [_utc] has accepted them. *)
From S2P Require Import Prelude PyText Json Scopes.
From Stdlib Require Import Ascii.
Open Scope string_scope.
Open Scope Z_scope.

(** [hashlib.sha256(data).hexdigest()] is used as an opaque digest function. *)
Class Hashing : Type := sha256_hex : string -> string.

(** ** Enumerations *)
Inductive ToolEffect : Type := READ | WRITE | DESTRUCTIVE | EXTERNAL.
#[global] Instance ToolEffect_eq_dec : EqDecision ToolEffect.
Proof. solve_decision. Defined.
#[global] Program Instance ToolEffect_finite : Finite ToolEffect :=
  {| enum := [READ; WRITE; DESTRUCTIVE; EXTERNAL] |}.
Solve All Obligations with solve_finite.

Definition effect_value (e : ToolEffect) : string :=
  match e with READ => "read" | WRITE => "write" | DESTRUCTIVE => "destructive" | EXTERNAL => "external" end.

Inductive RunStatus : Type :=
| RUN_SUCCEEDED | RUN_FAILED | RUN_BUDGET_EXCEEDED | RUN_TIMED_OUT | RUN_CANCELLED.
#[global] Instance RunStatus_eq_dec : EqDecision RunStatus.
Proof. solve_decision. Defined.

Definition run_status_value (s : RunStatus) : string :=
  match s with
  | RUN_SUCCEEDED => "succeeded" | RUN_FAILED => "failed" | RUN_BUDGET_EXCEEDED => "budget_exceeded"
  | RUN_TIMED_OUT => "timed_out" | RUN_CANCELLED => "cancelled"
  end.

Inductive ToolCallStatus : Type := CALL_SUCCEEDED | CALL_DENIED | CALL_FAILED | CALL_BUDGET_EXCEEDED.
#[global] Instance ToolCallStatus_eq_dec : EqDecision ToolCallStatus.
Proof. solve_decision. Defined.

Definition call_status_value (s : ToolCallStatus) : string :=
  match s with
  | CALL_SUCCEEDED => "succeeded" | CALL_DENIED => "denied" | CALL_FAILED => "failed"
  | CALL_BUDGET_EXCEEDED => "budget_exceeded"
  end.

Inductive ToolAuthorization : Type := AUTH_DEFAULT | AUTH_ALLOW | AUTH_REQUIRE_APPROVAL | AUTH_DENY.
#[global] Instance ToolAuthorization_eq_dec : EqDecision ToolAuthorization.
Proof. solve_decision. Defined.

Inductive FailureCode : Type :=
| INVALID_SCOPE | RUN_CONFLICT | GRANT_NOT_FOUND | GRANT_SCOPE_MISMATCH | GRANT_EXPIRED
| TOOL_NOT_FOUND | TOOL_NOT_GRANTED | CAPABILITY_DENIED | POLICY_DENIED | READ_ONLY_DENIED
| APPROVAL_REQUIRED | APPROVAL_INVALID | TOOL_INPUT_INVALID | RUN_INPUT_TOO_LARGE
| TOOL_ARGUMENTS_TOO_LARGE | TOOL_RESULT_TOO_LARGE | FINAL_OUTPUT_TOO_LARGE
| WORKFLOW_STATE_TOO_LARGE | DUPLICATE_CALL_ID | INVALID_TOOL_RESULT | TOOL_ERROR
| WORKFLOW_ERROR | PROMPT_ERROR | REFLECTION_ERROR | BUDGET_POLICY_EXCEEDED
| ITERATION_BUDGET_EXCEEDED | TOOL_BUDGET_EXCEEDED | CODE_TIMED_OUT | CODE_CANCELLED | INTERNAL_ERROR.
#[global] Instance FailureCode_eq_dec : EqDecision FailureCode.
Proof. solve_decision. Defined.

Definition failure_code_value (c : FailureCode) : string :=
  match c with
  | INVALID_SCOPE => "invalid_scope" | RUN_CONFLICT => "run_conflict"
  | GRANT_NOT_FOUND => "grant_not_found" | GRANT_SCOPE_MISMATCH => "grant_scope_mismatch"
  | GRANT_EXPIRED => "grant_expired" | TOOL_NOT_FOUND => "tool_not_found"
  | TOOL_NOT_GRANTED => "tool_not_granted" | CAPABILITY_DENIED => "capability_denied"
  | POLICY_DENIED => "policy_denied" | READ_ONLY_DENIED => "read_only_denied"
  | APPROVAL_REQUIRED => "approval_required" | APPROVAL_INVALID => "approval_invalid"
  | TOOL_INPUT_INVALID => "tool_input_invalid" | RUN_INPUT_TOO_LARGE => "run_input_too_large"
  | TOOL_ARGUMENTS_TOO_LARGE => "tool_arguments_too_large"
  | TOOL_RESULT_TOO_LARGE => "tool_result_too_large"
  | FINAL_OUTPUT_TOO_LARGE => "final_output_too_large"
  | WORKFLOW_STATE_TOO_LARGE => "workflow_state_too_large"
  | DUPLICATE_CALL_ID => "duplicate_call_id" | INVALID_TOOL_RESULT => "invalid_tool_result"
  | TOOL_ERROR => "tool_error" | WORKFLOW_ERROR => "workflow_error" | PROMPT_ERROR => "prompt_error"
  | REFLECTION_ERROR => "reflection_error" | BUDGET_POLICY_EXCEEDED => "budget_policy_exceeded"
  | ITERATION_BUDGET_EXCEEDED => "iteration_budget_exceeded"
  | TOOL_BUDGET_EXCEEDED => "tool_budget_exceeded" | CODE_TIMED_OUT => "timed_out"
  | CODE_CANCELLED => "cancelled" | INTERNAL_ERROR => "internal_error"
  end.

Inductive WorkflowDecisionKind : Type := FINAL | TOOLS.
#[global] Instance WorkflowDecisionKind_eq_dec : EqDecision WorkflowDecisionKind.
Proof. solve_decision. Defined.

Definition decision_kind_value (k : WorkflowDecisionKind) : string :=
  match k with FINAL => "final" | TOOLS => "tools" end.

Inductive AuditEventType : Type :=
| RUN_STARTED | AGENT_DELEGATED | STRATEGY_DECISION | TOOL_INTENT | TOOL_DENIED
| TOOL_STARTED | TOOL_FINISHED | RUN_FINISHED.
#[global] Instance AuditEventType_eq_dec : EqDecision AuditEventType.
Proof. solve_decision. Defined.

(** ** Tool identities *)
Record ToolIdentity : Type := MkToolIdentity {
  ti_namespace : string;
  ti_name : string;
  ti_origin : string;
  ti_version : string;
}.
#[global] Instance ToolIdentity_eq_dec : EqDecision ToolIdentity.
Proof. solve_decision. Defined.
#[global] Instance ToolIdentity_countable : Countable ToolIdentity.
Proof.
  refine (inj_countable' (fun i => (ti_namespace i, ti_name i, ti_origin i, ti_version i))
    (fun '(a, b, c, d) => MkToolIdentity a b c d) _). by intros [].
Defined.

(** The pydantic constructor with its field validators *)
Definition tool_identity (namespace name origin version : string) : res ToolIdentity :=
  let! _ := name_ namespace in
  let! _ := name_ name in
  require ORIGIN origin else ValueError ;;
  require VERSION version else ValueError ;;
  Ok (MkToolIdentity namespace name origin version).

(** [ToolIdentity.canonical_id] *)
Definition canonical_id `{Hashing} (i : ToolIdentity) : string :=
  "tool:sha256:" +:+ sha256_hex (canonical_text (JObj
    [("name", JStr (ti_name i)); ("namespace", JStr (ti_namespace i));
     ("origin", JStr (ti_origin i)); ("version", JStr (ti_version i))])).

(** [arguments_digest]: the arguments are finite by validation. *)
Definition arguments_digest `{Hashing} (arguments : list (string * json)) : res string :=
  let! payload := canonical_json (JObj arguments) in Ok (sha256_hex payload).

Definition scoped_origin (scope : ScopePath) : option string :=
  match path_kind scope with
  | ROOT => Some "scope:root"
  | TENANT => Some ("scope:tenant:" +:+ default "" (path_tenant_id scope))
  | PRODUCT => Some ("scope:product:" +:+ default "" (path_tenant_id scope) +:+ ":"
                     +:+ default "" (path_product_id scope))
  | AGENT => None
  end.

(** [ToolIdentity.scoped(scope, name)] with the default version *)
Definition scoped (scope : ScopePath) (name : string) : res ToolIdentity :=
  match scoped_origin scope with
  | None => Raise ValueError
  | Some origin => tool_identity (kind_value (path_kind scope)) name origin "1"
  end.

(** ** Tool specifications *)
Record ToolSpec : Type := MkToolSpec {
  ts_name : string;
  ts_description : string;
  ts_effects : gset ToolEffect;
  ts_required_capabilities : gset string;
  ts_input_schema : list (string * json);
}.
#[global] Instance ToolSpec_eq_dec : EqDecision ToolSpec.
Proof. solve_decision. Defined.

Definition validate_names (names : gset string) : res unit :=
  for_each (fun item => let! _ := name_ item in Ok tt) (elements names).

(** [ToolSpec.validate_effects] *)
Definition validate_effects (effects : gset ToolEffect) : res unit :=
  require bool_decide (effects <> ∅) else ValueError ;;
  require bool_decide (READ ∈ effects \/ WRITE ∈ effects) else ValueError ;;
  require negb (bool_decide (DESTRUCTIVE ∈ effects) && bool_decide (WRITE ∉ effects)) else ValueError ;;
  guard (negb (bool_decide (READ ∈ effects) && bool_decide (WRITE ∈ effects))) ValueError.

Definition tool_spec (s : ToolSpec) : res ToolSpec :=
  let! _ := name_ (ts_name s) in
  let! _ := validate_names (ts_required_capabilities s) in
  let! _ := canonical_json (JObj (ts_input_schema s)) in
  let! _ := validate_effects (ts_effects s) in
  Ok s.

Definition is_read (s : ToolSpec) : bool :=
  bool_decide (READ ∈ ts_effects s) && bool_decide (WRITE ∉ ts_effects s).

(** ** Budgets and grants *)
Record ExecutionBudget : Type := MkExecutionBudget {
  eb_max_iterations : Z;
  eb_max_tool_calls : Z;
  eb_max_parallel_calls : Z;
  eb_timeout : Z;  (** microseconds *)
}.

Definition between (lo hi v : Z) : bool := (lo <=? v) && (v <=? hi).

(** The [Field] bounds of [ExecutionBudget] *)
Definition execution_budget (b : ExecutionBudget) : res ExecutionBudget :=
  require between 1 10000 (eb_max_iterations b) else ValueError ;;
  require between 0 100000 (eb_max_tool_calls b) else ValueError ;;
  require between 1 1024 (eb_max_parallel_calls b) else ValueError ;;
  require (0 <? eb_timeout b) && (eb_timeout b <=? seconds 86400) else ValueError ;;
  Ok b.

Record CapabilityGrant : Type := MkCapabilityGrant {
  cg_grant_id : string;
  cg_tenant_id : string;
  cg_product_id : string;
  cg_tool_identities : gset ToolIdentity;
  cg_capabilities : gset string;
  cg_principal_id : option string;
  cg_issued_at : Z;
  cg_expires_at : Z;
}.
#[global] Instance CapabilityGrant_eq_dec : EqDecision CapabilityGrant.
Proof. solve_decision. Defined.

Definition optional_identifier (value : option string) : res unit :=
  match value with None => Ok tt | Some v => let! _ := identifier v in Ok tt end.

Definition capability_grant (grant_id tenant_id product_id : string)
    (tool_identities : gset ToolIdentity) (capabilities : gset string)
    (principal_id : option string) (issued_at expires_at : datetime) : res CapabilityGrant :=
  let! _ := identifier grant_id in
  let! _ := identifier tenant_id in
  let! _ := identifier product_id in
  let! _ := validate_names capabilities in
  let! _ := optional_identifier principal_id in
  let! issued := utc issued_at in
  let! expires := utc expires_at in
  require issued <? expires else ValueError ;;
  Ok (MkCapabilityGrant grant_id tenant_id product_id tool_identities capabilities
        principal_id issued expires).

Definition tool_names (g : CapabilityGrant) : gset string := set_map ti_name (cg_tool_identities g).

(** ** Approvals *)
Record ApprovalTarget : Type := MkApprovalTarget {
  at_scope : ScopePath;
  at_principal_id : string;
  at_run_id : string;
  at_call_id : string;
  at_tool_identity : ToolIdentity;
  at_arguments_digest : string;
}.
#[global] Instance ApprovalTarget_eq_dec : EqDecision ApprovalTarget.
Proof. solve_decision. Defined.

Definition approval_target (t : ApprovalTarget) : res ApprovalTarget :=
  require product_or_agent (path_kind (at_scope t)) else ValueError ;;
  let! _ := identifier (at_principal_id t) in
  let! _ := identifier (at_run_id t) in
  let! _ := identifier (at_call_id t) in
  require SHA256 (at_arguments_digest t) else ValueError ;;
  Ok t.

(** [single_use] has the literal type [True], so it carries no information. *)
Record ApprovalBinding : Type := MkApprovalBinding {
  ab_target : ApprovalTarget;
  ab_approved_by : string;
  ab_issued_at : Z;
  ab_expires_at : Z;
}.
#[global] Instance ApprovalBinding_eq_dec : EqDecision ApprovalBinding.
Proof. solve_decision. Defined.

Definition approval_binding (target : ApprovalTarget) (approved_by : string)
    (issued_at expires_at : datetime) : res ApprovalBinding :=
  let! _ := identifier approved_by in
  let! issued := utc issued_at in
  let! expires := utc expires_at in
  require issued <? expires else ValueError ;;
  Ok (MkApprovalBinding target approved_by issued expires).

Record ApprovalCredential : Type := MkApprovalCredential { ac_token : string; ac_binding : ApprovalBinding }.

Definition approval_credential (token : string) (binding : ApprovalBinding) : res ApprovalCredential :=
  require 32 <=? py_len token else ValueError ;;
  Ok (MkApprovalCredential token binding).

(** ** Tool calls and their observations *)
Record ToolIntent : Type := MkToolIntent {
  in_call_id : string;
  in_tool_name : string;
  in_arguments : list (string * json);
  in_approval_token : option string;
}.
#[global] Instance ToolIntent_eq_dec : EqDecision ToolIntent.
Proof. solve_decision. Defined.

Definition tool_intent (i : ToolIntent) : res ToolIntent :=
  let! _ := identifier (in_call_id i) in
  let! _ := name_ (in_tool_name i) in
  let! _ := canonical_json (JObj (in_arguments i)) in
  Ok i.

Record RunFailure : Type := MkRunFailure {
  rf_code : FailureCode;
  rf_message : string;
  rf_retryable : bool;
  rf_iteration : option Z;
  rf_call_id : option string;
  rf_tool_name : option string;
}.
#[global] Instance RunFailure_eq_dec : EqDecision RunFailure.
Proof. solve_decision. Defined.

Definition run_failure (f : RunFailure) : res RunFailure :=
  require match rf_iteration f with None => true | Some n => 1 <=? n end else ValueError ;;
  Ok f.

Record ToolObservation : Type := MkToolObservation {
  ob_call_id : string;
  ob_tool_name : string;
  ob_tool_identity : option ToolIdentity;
  ob_arguments : option (list (string * json));
  ob_status : ToolCallStatus;
  ob_result : json;
  ob_failure : option RunFailure;
  ob_started_at : Z;
  ob_finished_at : Z;
}.
#[global] Instance ToolObservation_eq_dec : EqDecision ToolObservation.
Proof. solve_decision. Defined.

(** [json.loads(canonical_json(value))] of a finite value *)
Definition detach_arguments (arguments : list (string * json)) : list (string * json) :=
  match sort_keys (JObj arguments) with JObj kvs => kvs | _ => [] end.

(** [ToolObservation.validate_outcome] *)
Definition observation_outcome (o : ToolObservation) : res unit :=
  require ob_started_at o <=? ob_finished_at o else ValueError ;;
  require negb (bool_decide (ob_status o = CALL_SUCCEEDED) && negb (is_none (ob_failure o))) else ValueError ;;
  guard (negb (bool_decide (ob_status o <> CALL_SUCCEEDED) && is_none (ob_failure o))) ValueError.

(** The constructor; the [arguments] validator stores a detached copy. *)
Definition tool_observation (o : ToolObservation) : res ToolObservation :=
  let! args :=
    match ob_arguments o with
    | None => Ok None
    | Some a => let! _ := canonical_json (JObj a) in Ok (Some (detach_arguments a))
    end in
  let! _ := canonical_json (ob_result o) in
  let! _ := observation_outcome o in
  Ok (MkToolObservation (ob_call_id o) (ob_tool_name o) (ob_tool_identity o) args (ob_status o)
        (ob_result o) (ob_failure o) (ob_started_at o) (ob_finished_at o)).

(** ** Prompts and conversations *)
Inductive PromptRole : Type := ROLE_SYSTEM | ROLE_USER | ROLE_ASSISTANT | ROLE_TOOL.
#[global] Instance PromptRole_eq_dec : EqDecision PromptRole.
Proof. solve_decision. Defined.

Definition role_value (r : PromptRole) : string :=
  match r with ROLE_SYSTEM => "system" | ROLE_USER => "user" | ROLE_ASSISTANT => "assistant" | ROLE_TOOL => "tool" end.

Record PromptMessage : Type := MkPromptMessage { pm_role : PromptRole; pm_content : string }.
#[global] Instance PromptMessage_eq_dec : EqDecision PromptMessage.
Proof. solve_decision. Defined.

Record PromptEnvelope : Type := MkPromptEnvelope {
  pe_messages : list PromptMessage;
  pe_metadata : list (string * json);
}.
#[global] Instance PromptEnvelope_eq_dec : EqDecision PromptEnvelope.
Proof. solve_decision. Defined.

Definition prompt_envelope (e : PromptEnvelope) : res PromptEnvelope :=
  let! _ := canonical_json (JObj (pe_metadata e)) in Ok e.

(** The [role] of a conversation message has the literal type user/assistant. *)
Record ConversationMessage : Type := MkConversationMessage {
  cm_from_user : bool;
  cm_content : json;
  cm_principal_id : option string;
  cm_occurred_at : Z;
}.
#[global] Instance ConversationMessage_eq_dec : EqDecision ConversationMessage.
Proof. solve_decision. Defined.

Definition conversation_message (from_user : bool) (content : json) (principal_id : option string)
    (occurred_at : datetime) : res ConversationMessage :=
  let! _ := canonical_json content in
  let! _ := optional_identifier principal_id in
  let! at_ := utc occurred_at in
  require negb (from_user && is_none principal_id) else ValueError ;;
  require negb (negb from_user && negb (is_none principal_id)) else ValueError ;;
  Ok (MkConversationMessage from_user content principal_id at_).

Record ConversationContext : Type := MkConversationContext {
  cc_messages : list ConversationMessage;
  cc_truncated : bool;
  cc_working_summary : string;
  cc_long_term_context : string;
  cc_memory_degraded : bool;
}.
#[global] Instance ConversationContext_eq_dec : EqDecision ConversationContext.
Proof. solve_decision. Defined.

Definition conversation_context (c : ConversationContext) : res ConversationContext :=
  require py_len (cc_working_summary c) <=? 12000 else ValueError ;;
  require py_len (cc_long_term_context c) <=? 12000 else ValueError ;;
  Ok c.

(** ** Workflow frames and decisions *)
Record WorkflowFrame : Type := MkWorkflowFrame {
  wf_iteration : Z;
  wf_observations : list ToolObservation;
  wf_available_tools : list ToolSpec;
  wf_workflow_state : json;
  wf_tool_calls_used : Z;
  wf_elapsed : Z;  (** microseconds *)
}.

Definition workflow_frame (f : WorkflowFrame) : res WorkflowFrame :=
  require 1 <=? wf_iteration f else ValueError ;;
  let! _ := canonical_json (wf_workflow_state f) in
  require 0 <=? wf_tool_calls_used f else ValueError ;;
  require 0 <=? wf_elapsed f else ValueError ;;
  Ok f.

Record WorkflowDecision : Type := MkWorkflowDecision {
  wd_kind : WorkflowDecisionKind;
  wd_intents : list ToolIntent;
  wd_output : json;
  wd_workflow_state : json;
}.
#[global] Instance WorkflowDecision_eq_dec : EqDecision WorkflowDecision.
Proof. solve_decision. Defined.

Definition is_nil {A : Type} (l : list A) : bool := match l with [] => true | _ => false end.

(** The validators of [WorkflowDecision], [validate_kind] last *)
Definition workflow_decision (d : WorkflowDecision) : res WorkflowDecision :=
  let! _ := canonical_json (wd_output d) in
  let! _ := canonical_json (wd_workflow_state d) in
  require negb (bool_decide (wd_kind d = TOOLS) && is_nil (wd_intents d)) else ValueError ;;
  require negb (bool_decide (wd_kind d = FINAL) && negb (is_nil (wd_intents d))) else ValueError ;;
  Ok d.

Definition decision_final (output state : json) : res WorkflowDecision :=
  workflow_decision (MkWorkflowDecision FINAL [] output state).

Definition decision_tools (intents : list ToolIntent) (state : json) : res WorkflowDecision :=
  workflow_decision (MkWorkflowDecision TOOLS intents JNull state).

(** ** Resume states, requests and results *)
Record RunResumeState : Type := MkRunResumeState {
  re_source_run_id : string;
  re_workflow_state : json;
  re_observations : list ToolObservation;
  re_iterations_used : Z;
  re_tool_calls_used : Z;
  re_call_ids : list string;
  re_prompt_digest : string;
  re_route_key : string;
}.
#[global] Instance RunResumeState_eq_dec : EqDecision RunResumeState.
Proof. solve_decision. Defined.

Definition run_resume_state (r : RunResumeState) : res RunResumeState :=
  let! _ := identifier (re_source_run_id r) in
  let! _ := canonical_json (re_workflow_state r) in
  require (length (re_observations r) <=? 1024)%nat else ValueError ;;
  require between 0 10000 (re_iterations_used r) else ValueError ;;
  require between 0 100000 (re_tool_calls_used r) else ValueError ;;
  require (length (re_call_ids r) <=? 1024)%nat else ValueError ;;
  require SHA256 (re_prompt_digest r) else ValueError ;;
  require between 1 4096 (py_len (re_route_key r)) else ValueError ;;
  Ok r.

Record RunRequest : Type := MkRunRequest {
  rq_run_id : string;
  rq_scope : RequestScope;
  rq_grant_id : string;
  rq_input : json;
  rq_conversation : ConversationContext;
  rq_read_only : bool;
  rq_budget : ExecutionBudget;
  rq_resume : option RunResumeState;
}.

Definition run_request (r : RunRequest) : res RunRequest :=
  let! _ := identifier (rq_run_id r) in
  let! _ := identifier (rq_grant_id r) in
  let! _ := canonical_json (rq_input r) in
  require product_or_agent (path_kind (rs_path (rq_scope r))) else ValueError ;;
  Ok r.

Record RunResult : Type := MkRunResult {
  rr_run_id : string;
  rr_status : RunStatus;
  rr_output : json;
  rr_failure : option RunFailure;
  rr_observations : list ToolObservation;
  rr_iterations_used : Z;
  rr_tool_calls_used : Z;
  rr_started_at : Z;
  rr_finished_at : Z;
}.
#[global] Instance RunResult_eq_dec : EqDecision RunResult.
Proof. solve_decision. Defined.

Definition run_result (r : RunResult) : res RunResult :=
  require 0 <=? rr_iterations_used r else ValueError ;;
  require 0 <=? rr_tool_calls_used r else ValueError ;;
  let! _ := canonical_json (rr_output r) in
  require rr_started_at r <=? rr_finished_at r else ValueError ;;
  require negb (bool_decide (rr_status r = RUN_SUCCEEDED) && negb (is_none (rr_failure r))) else ValueError ;;
  require negb (bool_decide (rr_status r <> RUN_SUCCEEDED) && is_none (rr_failure r)) else ValueError ;;
  Ok r.

(** ** Audit events *)
Record AuditEvent : Type := MkAuditEvent {
  ae_event_id : string;
  ae_event_type : AuditEventType;
  ae_occurred_at : Z;
  ae_tenant_id : string;
  ae_product_id : string;
  ae_principal_id : string;
  ae_request_id : string;
  ae_correlation_id : string;
  ae_purpose : string;
  ae_run_id : string;
  ae_channel_id : string;
  ae_call_id : option string;
  ae_tool_name : option string;
  ae_tool_identity : option ToolIdentity;
  ae_data : list (string * json);
}.
#[global] Instance AuditEvent_eq_dec : EqDecision AuditEvent.
Proof. solve_decision. Defined.

(** [AuditEvent.validate_tool_binding] *)
Definition validate_tool_binding (e : AuditEvent) : res unit :=
  match ae_tool_identity e with
  | None => Ok tt
  | Some identity =>
      match ae_tool_name e with
      | None => Raise ValueError
      | Some name => guard (bool_decide (ti_name identity = name)) ValueError
      end
  end.

Definition audit_event (e : AuditEvent) : res AuditEvent :=
  let! _ := for_each (fun v => let! _ := identifier v in Ok tt)
    [ae_event_id e; ae_tenant_id e; ae_product_id e; ae_principal_id e; ae_run_id e; ae_channel_id e] in
  let! _ := identifier_if_set (ae_request_id e) in
  let! _ := identifier_if_set (ae_correlation_id e) in
  require negb (is_blank (ae_purpose e)) else ValueError ;;
  let! _ := optional_identifier (ae_call_id e) in
  let! _ := match ae_tool_name e with None => Ok tt | Some n => let! _ := name_ n in Ok tt end in
  let! _ := canonical_json (JObj (ae_data e)) in
  let! _ := validate_tool_binding e in
  Ok e.

(** ** Lemmas *)
Lemma tool_identity_Ok ns nm o v i :
  tool_identity ns nm o v = Ok i <->
  i = MkToolIdentity ns nm o v /\ NAME ns = true /\ NAME nm = true /\ ORIGIN o = true /\ VERSION v = true.
Proof.
  unfold tool_identity, name_. destruct (NAME ns), (NAME nm), (ORIGIN o), (VERSION v); simpl;
    (split; [by intros [= <-] | by intros (-> & ? & ? & ? & ?)]).
Qed.

Lemma validate_effects_Ok e :
  validate_effects e = Ok tt <->
  ((READ ∈ e /\ WRITE ∉ e) \/ (READ ∉ e /\ WRITE ∈ e)) /\ (DESTRUCTIVE ∈ e -> WRITE ∈ e).
Proof.
  unfold validate_effects. destruct (decide (e = ∅)) as [->|Hne].
  { rewrite bool_decide_eq_false_2 by naive_solver. simpl. split; [done | set_solver]. }
  rewrite bool_decide_eq_true_2 by done. simpl.
  repeat (case_bool_decide; simpl); split; try done; naive_solver.
Qed.

Lemma tool_spec_Ok s s' :
  tool_spec s = Ok s' -> s' = s /\ NAME (ts_name s) = true /\ validate_effects (ts_effects s) = Ok tt.
Proof.
  unfold tool_spec. intros H. apply res_bind_Ok in H as (n & [Hn _]%name_Ok & H).
  apply res_bind_Ok in H as ([] & _ & H). apply res_bind_Ok in H as (? & _ & H).
  apply res_bind_Ok in H as ([] & He & [= <-]). done.
Qed.

Lemma capability_grant_Ok id t p ids caps pr i e g :
  capability_grant id t p ids caps pr i e = Ok g ->
  exists i' e', i = Aware i' /\ e = Aware e' /\ i' < e' /\
    g = MkCapabilityGrant id t p ids caps pr i' e'.
Proof.
  unfold capability_grant. intros H. do 5 (apply res_bind_Ok in H as (? & _ & H)).
  apply res_bind_Ok in H as (i' & Hi & H). apply res_bind_Ok in H as (e' & He & H).
  apply res_bind_Ok in H as (? & Hlt%guard_Ok & [= <-]).
  destruct i, e; simpl in *; simplify_eq. exists i', e'. apply Z.ltb_lt in Hlt. done.
Qed.

Lemma approval_target_Ok t t' : approval_target t = Ok t' -> t' = t.
Proof. unfold approval_target. intros H. py_simpl. done. Qed.

(** ** Scoped identities *)
Definition colon_free (s : string) : Prop := ":"%char ∉ chars s.

Lemma chars_app s1 s2 : chars (s1 +:+ s2) = (chars s1 ++ chars s2)%list.
Proof. apply list_ascii_of_string_app. Qed.

Lemma chars_inj s1 s2 : chars s1 = chars s2 -> s1 = s2.
Proof. apply list_ascii_of_string_inj. Qed.

Lemma split_at_unique {A : Type} (c : A) (l1 l2 r1 r2 : list A) :
  c ∉ l1 -> c ∉ l2 -> (l1 ++ c :: r1)%list = (l2 ++ c :: r2)%list -> l1 = l2 /\ r1 = r2.
Proof.
  revert l2. induction l1 as [|x l1 IH]; intros [|y l2] H1 H2 E; simplify_eq/=; try done.
  - set_solver.
  - set_solver.
  - destruct (IH l2) as [-> ->]; [set_solver | set_solver | done | done].
Qed.

Lemma identifier_chars s :
  IDENTIFIER s = true ->
  Forall (fun c => is_alnum c || one_of "._:-" c = true) (chars s) /\ (length (chars s) <= 128)%nat.
Proof.
  unfold IDENTIFIER, head_then. destruct (chars s) as [|c l]; [done|].
  intros [[Hc Hl]%andb_true_iff Hn%Nat.leb_le]%andb_true_iff. rewrite forallb_forall in Hl.
  split; [|simpl; lia]. constructor; [by rewrite Hc|]. apply Forall_forall.
  intros x Hx. apply Hl, list_elem_of_In, Hx.
Qed.

Lemma identifier_char_origin c :
  is_alnum c || one_of "._:-" c = true -> is_alnum c || one_of "._:/-" c = true.
Proof.
  destruct c as [b0 b1 b2 b3 b4 b5 b6 b7].
  by destruct b0, b1, b2, b3, b4, b5, b6, b7.
Qed.

(** A string that starts with an alphanumeric and has identifier characters
    only is an origin, as long as it fits. *)
Lemma origin_intro c l s :
  chars s = c :: l -> is_alnum c = true ->
  Forall (fun c => is_alnum c || one_of "._:-" c = true) l -> (length l <= 511)%nat -> ORIGIN s = true.
Proof.
  intros Hs Hc Hl Hn. unfold ORIGIN, head_then. rewrite Hs, Hc. simpl.
  rewrite andb_true_iff, Nat.leb_le. split; [|done]. rewrite forallb_forall. intros x Hx.
  rewrite Forall_forall in Hl. apply identifier_char_origin, Hl, list_elem_of_In, Hx.
Qed.

Lemma scoped_origin_valid s :
  valid_path s -> path_kind s <> AGENT ->
  exists o, scoped_origin s = Some o /\ ORIGIN o = true.
Proof.
  intros Hv Hk. apply valid_path_inv in Hv. unfold scoped_origin.
  destruct (path_kind s) eqn:K; try done; [eauto| |].
  - destruct Hv as (t & -> & [Ht Hn]%identifier_chars). eexists. split; [done|].
    eapply (origin_intro "s"%char); [by simpl; rewrite chars_app | done | | simpl in *; lia].
    simpl. repeat (constructor; [done|]). done.
  - destruct Hv as (t & q & -> & [Ht Hn]%identifier_chars & [Hq Hm]%identifier_chars).
    eexists. split; [done|]. simpl default.
    eapply (origin_intro "s"%char); [by simpl; rewrite !chars_app | done | |].
    + simpl. repeat (constructor; [done|]). apply Forall_app; split; [done|].
      simpl. constructor; done.
    + simpl. rewrite length_app. simpl. lia.
Qed.

Lemma scoped_Ok s n i :
  scoped s n = Ok i ->
  exists o, scoped_origin s = Some o /\ i = MkToolIdentity (kind_value (path_kind s)) n o "1" /\ NAME n = true.
Proof.
  unfold scoped. destruct (scoped_origin s) as [o|]; [|done].
  intros (-> & _ & ? & _)%tool_identity_Ok. eauto.
Qed.

Lemma kind_value_inj k k' : kind_value k = kind_value k' -> k = k'.
Proof. by destruct k, k'. Qed.

Lemma kind_value_name k : NAME (kind_value k) = true.
Proof. by destruct k. Qed.

(** Registering a tool at any root, tenant or product scope gets an
    identity: the derived namespace and origin always pass the identity's own
    validators, for every valid scope and valid tool name. *)
Theorem scoped_total s n :
  valid_path s -> path_kind s <> AGENT -> NAME n = true -> exists i, scoped s n = Ok i.
Proof.
  intros Hv Hk Hn. destruct (scoped_origin_valid s Hv Hk) as (o & Ho & Hov).
  unfold scoped. rewrite Ho. eexists. rewrite tool_identity_Ok.
  split_and!; [done | apply kind_value_name | done..].
Qed.

Lemma scoped_total_witness :
  exists i, scoped (MkScopePath PRODUCT (Some "acme") (Some "product-a") None None) "fs.read" = Ok i.
Proof. apply scoped_total; [by vm_compute | done | by vm_compute]. Defined.

(** Two scopes whose tenant ids contain no colon never share a scoped
    identity: equal identities mean the same scope and the same tool name, so a
    grant for one product's tool is not a grant for another product's. *)
Theorem scoped_injective s s' n n' i :
  valid_path s -> valid_path s' ->
  colon_free (default "" (path_tenant_id s)) -> colon_free (default "" (path_tenant_id s')) ->
  scoped s n = Ok i -> scoped s' n' = Ok i -> s = s' /\ n = n'.
Proof.
  intros Hv Hv' Hc Hc' (o & Ho & -> & _)%scoped_Ok (o' & Ho' & E & _)%scoped_Ok.
  injection E as Ek En Eo. apply kind_value_inj in Ek. split; [|done].
  apply valid_path_inv in Hv, Hv'. rewrite <- Ek in Hv'.
  destruct (path_kind s) eqn:K; simpl in *.
  - by rewrite Hv, Hv'.
  - destruct Hv as (t & -> & _), Hv' as (t' & -> & _). unfold scoped_origin in *. simplify_eq/=. done.
  - destruct Hv as (t & q & -> & _), Hv' as (t' & q' & -> & _). unfold scoped_origin in *. simplify_eq/=.
    match goal with H : _ = _ |- _ => apply (f_equal chars) in H; rewrite !chars_app in H end.
    destruct (split_at_unique ":"%char (chars t) (chars t') (chars q) (chars q'))
      as [->%chars_inj ->%chars_inj]; done.
  - unfold scoped_origin in Ho. by rewrite K in Ho.
Qed.

Lemma scoped_injective_witness :
  let s := MkScopePath PRODUCT (Some "acme") (Some "product-a") None None in
  s = s /\ "fs.read" = "fs.read".
Proof.
  assert (Hc : colon_free "acme") by (apply (bool_decide_unpack _); by vm_compute).
  apply (scoped_injective _ _ "fs.read" "fs.read"
    (MkToolIdentity "product" "fs.read" "scope:product:acme:product-a" "1"));
    [by vm_compute | by vm_compute | exact Hc | exact Hc | by vm_compute | by vm_compute].
Defined.

(** Without that restriction the derivation is ambiguous: an identifier may
    contain a colon, and the product [c] of tenant [a:b] has the same identity
    as the product [b:c] of tenant [a], for every tool name. *)
Theorem scoped_identity_collision n :
  NAME n = true ->
  let s := MkScopePath PRODUCT (Some "a:b") (Some "c") None None in
  let s' := MkScopePath PRODUCT (Some "a") (Some "b:c") None None in
  valid_path s /\ valid_path s' /\ s <> s' /\ exists i, scoped s n = Ok i /\ scoped s' n = Ok i.
Proof.
  intros Hn s s'. split_and!; [done | done | done |].
  exists (MkToolIdentity "product" n "scope:product:a:b:c" "1"). unfold scoped. simpl.
  rewrite !tool_identity_Ok. done.
Qed.

Lemma scoped_identity_collision_witness :
  exists i, scoped (MkScopePath PRODUCT (Some "a:b") (Some "c") None None) "fs.read" = Ok i
         /\ scoped (MkScopePath PRODUCT (Some "a") (Some "b:c") None None) "fs.read" = Ok i.
Proof. apply (scoped_identity_collision "fs.read"). by vm_compute. Defined.

(** A tool specification that validates declares exactly one of the read
    and write effects, a destructive tool is never a read tool, and [is_read]
    holds exactly for the specifications without the write effect. *)
Theorem valid_spec_effects s s' :
  tool_spec s = Ok s' ->
  ((READ ∈ ts_effects s') <-> (WRITE ∉ ts_effects s')) /\
  (DESTRUCTIVE ∈ ts_effects s' -> is_read s' = false) /\
  (is_read s' = true <-> WRITE ∉ ts_effects s').
Proof.
  intros (-> & _ & He)%tool_spec_Ok. apply validate_effects_Ok in He. unfold is_read.
  repeat case_bool_decide; simpl; naive_solver.
Qed.

Definition example_read_spec (name : string) : ToolSpec := MkToolSpec name "" {[ READ ]} ∅ [].

Lemma valid_spec_effects_witness : is_read (example_read_spec "fs.read") = true <-> WRITE ∉ ts_effects (example_read_spec "fs.read").
Proof. apply (valid_spec_effects (example_read_spec "fs.read")). by vm_compute. Defined.

(** The digest an approval is bound to identifies the arguments: two
    argument objects that differ only in key order have one digest, and equal
    digests mean equal arguments up to key order, unless the hash function
    itself collides on the two canonical texts. *)
Theorem arguments_digest_identifies `{Hashing} a b da db :
  wf_json (JObj a) = true -> wf_json (JObj b) = true ->
  arguments_digest a = Ok da -> arguments_digest b = Ok db ->
  (sort_keys (JObj a) = sort_keys (JObj b) -> da = db) /\
  (da = db -> sort_keys (JObj a) = sort_keys (JObj b) \/
     exists t u, canonical_json (JObj a) = Ok t /\ canonical_json (JObj b) = Ok u /\
       t <> u /\ sha256_hex t = sha256_hex u).
Proof.
  unfold arguments_digest. intros Wa Wb Ha Hb.
  apply res_bind_Ok in Ha as (t & Ht & [= <-]). apply res_bind_Ok in Hb as (u & Hu & [= <-]).
  apply canonical_json_Ok in Ht as Ht', Hu as Hu'. destruct Ht' as [Fa ->], Hu' as [Fb ->]. split.
  - intros E. by rewrite <- (canonical_text_sort (JObj a)), E, canonical_text_sort.
  - intros E. destruct (decide (canonical_text (JObj a) = canonical_text (JObj b))) as [Et|Et].
    + left. by apply canonical_text_inj.
    + right. eauto 10.
Qed.

Lemma arguments_digest_identifies_witness :
  let H : Hashing := fun t => t in
  exists d, arguments_digest [("b", JInt 1); ("a", JInt 2)] = Ok d /\
            arguments_digest [("a", JInt 2); ("b", JInt 1)] = Ok d.
Proof.
  intros H.
  destruct (arguments_digest [("b", JInt 1); ("a", JInt 2)]) as [d|] eqn:E1; [|by vm_compute in E1].
  destruct (arguments_digest [("a", JInt 2); ("b", JInt 1)]) as [d'|] eqn:E2; [|by vm_compute in E2].
  exists d. split; [reflexivity|]. f_equal. symmetry.
  apply (arguments_digest_identifies [("b", JInt 1); ("a", JInt 2)] [("a", JInt 2); ("b", JInt 1)] d d');
    [by vm_compute|by vm_compute|exact E1|exact E2|by vm_compute].
Defined.
