(* ===== verification/Registry.v ===== *)
(** * The scoped tool registry ([execution/in_memory.py], [InMemoryToolRegistry])

    A registration is keyed by its scope path and model-facing name.  Framework
    tools are registered at the root as protected and can never be shadowed by
    a tenant or product registration.  Each method body runs under the
    registry's lock: one call is one atomic state transition.

    [Handler] is product or framework code; [check_schema] is the third-party
    [Draft202012Validator.check_schema].  Random registration ids are arguments
    of the operations that draw them. *)
From S2P Require Import Prelude PyText Json Scopes ExecModels.
Open Scope string_scope.

Module Registry.
Section Registry.
Context {Handler : Type} (callable : Handler -> bool)
        (check_schema : list (string * json) -> bool).

Record RegisteredTool : Type := MkRegisteredTool {
  rt_registration_scope : ScopePath;
  rt_identity : ToolIdentity;
  rt_spec : ToolSpec;
  rt_handler : Handler;
}.

Record RegisteredEntry : Type := MkRegisteredEntry {
  re_item : RegisteredTool;
  re_registration_id : string;
  re_protected : bool;
}.

(** [reg_ref] is the object's own identity, which handles carry. *)
Record InMemoryToolRegistry : Type := MkRegistry {
  reg_ref : nat;
  reg_items : gmap (ScopePath * string) RegisteredEntry;
  reg_protected_names : gmap string string;
}.

Definition empty_registry (ref : nat) : InMemoryToolRegistry := MkRegistry ref ∅ ∅.

Record ToolRegistrationHandle : Type := MkHandle {
  h_registry : nat;
  h_scope : ScopePath;
  h_tool_name : string;
  h_identity : ToolIdentity;
  h_registration_id : string;
  h_closed : bool;
}.

Definition PROTECTED_NAMESPACES : list string := ["suiteharness"; "framework"].

(** [_reject_remote_references]: [true] when some [$ref] leaves the document. *)
Fixpoint remote_reference (schema : json) : bool :=
  match schema with
  | JObj kvs =>
      existsb (fun kv =>
        (bool_decide (kv.1 ∈ ["$ref"; "$dynamicRef"])
         && match kv.2 with JStr v => negb (String.prefix "#" v) | _ => false end)
        || remote_reference kv.2) kvs
  | JList l => existsb remote_reference l
  | _ => false
  end.

Definition registrable_kind (k : ScopeKind) : bool :=
  match k with ROOT | TENANT | PRODUCT => true | AGENT => false end.

(** [any(name == spec.name and scope.kind is not ROOT for scope, name in items)] *)
Definition shadow_exists (items : gmap (ScopePath * string) RegisteredEntry) (name : string) : bool :=
  bool_decide (map_Exists (fun k _ => k.2 = name /\ path_kind k.1 <> ROOT) items).

(** [any(entry.item.identity == identity for entry in items.values())] *)
Definition identity_taken (items : gmap (ScopePath * string) RegisteredEntry) (i : ToolIdentity) : bool :=
  bool_decide (map_Exists (fun _ e => rt_identity (re_item e) = i) items).

(** [_register] *)
Definition register_ (st : InMemoryToolRegistry) (scope : ScopePath) (spec : ToolSpec)
    (handler : Handler) (identity : ToolIdentity) (protected : bool) (registration_id : string) :
    res ToolRegistrationHandle * InMemoryToolRegistry :=
  let checked :=
    require registrable_kind (path_kind scope) else ValueError ;;
    require bool_decide (ti_name identity = ts_name spec) else ValueError ;;
    require protected || negb (bool_decide (ti_namespace identity ∈ PROTECTED_NAMESPACES))
      else ValueError ;;
    require callable handler else TypeError ;;
    require negb (remote_reference (JObj (ts_input_schema spec))) else OtherException ;;
    require check_schema (ts_input_schema spec) else OtherException ;;
    require negb (negb (bool_decide (path_kind scope = ROOT))
                  && negb (is_none (reg_protected_names st !! ts_name spec))) else ValueError ;;
    require negb (protected && shadow_exists (reg_items st) (ts_name spec)) else ValueError ;;
    require is_none (reg_items st !! (scope, ts_name spec)) else ValueError ;;
    guard (negb (identity_taken (reg_items st) identity)) ValueError in
  match checked with
  | Raise e => (Raise e, st)
  | Ok _ =>
      let item := MkRegisteredTool scope identity spec handler in
      (Ok (MkHandle (reg_ref st) scope (ts_name spec) identity registration_id false),
       MkRegistry (reg_ref st)
         (<[ (scope, ts_name spec) := MkRegisteredEntry item registration_id protected ]> (reg_items st))
         (if protected then <[ ts_name spec := registration_id ]> (reg_protected_names st)
          else reg_protected_names st))
  end.

(** [register] *)
Definition register (st : InMemoryToolRegistry) (scope : ScopePath) (spec : ToolSpec)
    (handler : Handler) (registration_id : string) : res ToolRegistrationHandle * InMemoryToolRegistry :=
  match scoped scope (ts_name spec) with
  | Raise e => (Raise e, st)
  | Ok identity => register_ st scope spec handler identity false registration_id
  end.

(** The single valid root path *)
Definition the_root : ScopePath := MkScopePath ROOT None None None None.

(** [register_protected] *)
Definition register_protected (st : InMemoryToolRegistry) (spec : ToolSpec) (handler : Handler)
    (identity : option ToolIdentity) (registration_id : string) :
    res ToolRegistrationHandle * InMemoryToolRegistry :=
  let chosen :=
    match identity with
    | Some i => Ok i
    | None => tool_identity "suiteharness" (ts_name spec) "suiteharness.framework" "1"
    end in
  match chosen with
  | Raise e => (Raise e, st)
  | Ok i =>
      if bool_decide (ti_namespace i ∈ PROTECTED_NAMESPACES)
      then register_ st the_root spec handler i true registration_id
      else (Raise ValueError, st)
  end.

(** [unregister(scope, tool_name, owner=...)] also closes the owning handle. *)
Definition unregister (st : InMemoryToolRegistry) (scope : ScopePath) (tool_name : string)
    (owner : ToolRegistrationHandle) : bool * InMemoryToolRegistry * ToolRegistrationHandle :=
  if negb (h_registry owner =? reg_ref st)%nat then (false, st, owner)
  else if negb (bool_decide (h_scope owner = scope) && bool_decide (h_tool_name owner = tool_name))
  then (false, st, owner)
  else
    match reg_items st !! (scope, tool_name) with
    | None => (false, st, owner)
    | Some current =>
        if bool_decide (re_registration_id current <> h_registration_id owner)
        then (false, st, owner)
        else
          let names :=
            if re_protected current
               && bool_decide (reg_protected_names st !! tool_name = Some (re_registration_id current))
            then delete tool_name (reg_protected_names st)
            else reg_protected_names st in
          (true, MkRegistry (reg_ref st) (delete (scope, tool_name) (reg_items st)) names,
           MkHandle (h_registry owner) (h_scope owner) (h_tool_name owner) (h_identity owner)
             (h_registration_id owner) true)
    end.

(** [ToolRegistrationHandle.close] *)
Definition close (st : InMemoryToolRegistry) (h : ToolRegistrationHandle) :
    InMemoryToolRegistry * ToolRegistrationHandle :=
  if h_closed h then (st, h)
  else let '(_, st', h') := unregister st (h_scope h) (h_tool_name h) h in (st', h').

(** [registration_candidates(scope)]: most specific first ([execution/protocols.py]) *)
Definition registration_candidates (scope : RequestScope) : res (list ScopePath) :=
  let! product :=
    if decide (path_kind (rs_path scope) = PRODUCT) then Ok (rs_path scope)
    else product_path (rs_tenant_id scope) (rs_product_id scope) in
  let! tenant := tenant_path (rs_tenant_id scope) in
  let! root := root_path in
  Ok [product; tenant; root].

Fixpoint first_registered (st : InMemoryToolRegistry) (name : string) (candidates : list ScopePath) :
    option RegisteredTool :=
  match candidates with
  | [] => None
  | c :: candidates =>
      match reg_items st !! (c, name) with
      | Some entry => Some (re_item entry)
      | None => first_registered st name candidates
      end
  end.

(** [resolve] *)
Definition resolve (st : InMemoryToolRegistry) (scope : RequestScope) (name : string) :
    res (option RegisteredTool) :=
  let! candidates := registration_candidates scope in
  Ok (first_registered st name candidates).

(** ** Invariant *)
Record reg_inv (st : InMemoryToolRegistry) : Prop := {
  inv_coherent : forall sc nm e, reg_items st !! (sc, nm) = Some e ->
    valid_path sc /\ rt_registration_scope (re_item e) = sc /\ ts_name (rt_spec (re_item e)) = nm /\
    ti_name (rt_identity (re_item e)) = nm /\ registrable_kind (path_kind sc) = true;
  inv_unique : forall k1 k2 e1 e2, reg_items st !! k1 = Some e1 -> reg_items st !! k2 = Some e2 ->
    rt_identity (re_item e1) = rt_identity (re_item e2) -> k1 = k2;
  inv_protected : forall nm rid, reg_protected_names st !! nm = Some rid <->
    exists e, reg_items st !! (the_root, nm) = Some e /\ re_protected e = true /\ re_registration_id e = rid;
  inv_root_only : forall sc nm e, reg_items st !! (sc, nm) = Some e -> re_protected e = true -> sc = the_root;
  inv_no_shadow : forall sc nm e rid, reg_items st !! (sc, nm) = Some e ->
    reg_protected_names st !! nm = Some rid -> sc = the_root;
}.

Lemma valid_root p : valid_path p -> path_kind p = ROOT -> p = the_root.
Proof. intros H K. apply valid_path_inv in H. by rewrite K in H. Qed.

Lemma shadow_exists_false items nm sc e :
  shadow_exists items nm = false -> items !! (sc, nm) = Some e -> path_kind sc = ROOT.
Proof.
  intros H%bool_decide_eq_false_1 He. destruct (decide (path_kind sc = ROOT)) as [|Hk]; [done|].
  destruct H. exists (sc, nm), e. done.
Qed.

Lemma identity_taken_false items i k e :
  identity_taken items i = false -> items !! k = Some e -> rt_identity (re_item e) <> i.
Proof. intros H%bool_decide_eq_false_1 He <-. destruct H. by exists k, e. Qed.

(** What a successful [_register] checked and did *)
Lemma register_Ok st scope spec handler i prot rid h st' :
  register_ st scope spec handler i prot rid = (Ok h, st') ->
  registrable_kind (path_kind scope) = true /\ ti_name i = ts_name spec /\
  (prot = false -> ti_namespace i ∉ PROTECTED_NAMESPACES) /\
  (path_kind scope <> ROOT -> reg_protected_names st !! ts_name spec = None) /\
  (prot = true -> shadow_exists (reg_items st) (ts_name spec) = false) /\
  reg_items st !! (scope, ts_name spec) = None /\ identity_taken (reg_items st) i = false /\
  h = MkHandle (reg_ref st) scope (ts_name spec) i rid false /\
  st' = MkRegistry (reg_ref st)
    (<[ (scope, ts_name spec) := MkRegisteredEntry (MkRegisteredTool scope i spec handler) rid prot ]> (reg_items st))
    (if prot then <[ ts_name spec := rid ]> (reg_protected_names st) else reg_protected_names st).
Proof.
  unfold register_. case_match eqn:E; [|done]. intros [= <- <-].
  repeat (apply res_bind_Ok in E as (? & ?%guard_Ok & E)). apply guard_Ok in E. py_simpl.
  rewrite is_none_true in *. split_and!; try done.
  - intros ->. simpl in *. by py_simpl.
  - intros Hk. rewrite bool_decide_eq_false_2 in * by done. simpl in *. by py_simpl; apply is_none_true.
  - intros ->. by simpl in *; py_simpl.
Qed.

Lemma register_Raise st scope spec handler i prot rid e st' :
  register_ st scope spec handler i prot rid = (Raise e, st') -> st' = st.
Proof. unfold register_. case_match; by intros [= _ <-]. Qed.

Lemma inv_empty ref : reg_inv (empty_registry ref).
Proof.
  constructor; unfold empty_registry; simpl.
  - intros ???. by rewrite lookup_empty.
  - intros ????. by rewrite lookup_empty.
  - intros nm rid. rewrite lookup_empty. split; [done|]. intros (e & H & _). by rewrite lookup_empty in H.
  - intros ???. by rewrite lookup_empty.
  - intros ????. by rewrite lookup_empty.
Qed.

(** The protected-name table of a state after a registration *)
Lemma protected_after st scope spec handler i prot rid h st' nm r :
  register_ st scope spec handler i prot rid = (Ok h, st') ->
  reg_protected_names st' !! nm = Some r ->
  (prot = true /\ nm = ts_name spec /\ r = rid) \/
  (reg_protected_names st !! nm = Some r /\ (prot = true -> nm <> ts_name spec)).
Proof.
  intros (_ & _ & _ & _ & _ & _ & _ & _ & ->)%register_Ok. simpl. destruct prot; [|by auto].
  rewrite lookup_insert_Some. intros [[<- <-]|[? ?]]; auto.
Qed.

Lemma inv_register st scope spec handler i prot rid h st' :
  reg_inv st -> valid_path scope -> (prot = true -> scope = the_root) ->
  register_ st scope spec handler i prot rid = (Ok h, st') -> reg_inv st'.
Proof.
  intros [Hco Hun Hpr Hro Hns] Hv Hroot Hreg. pose proof Hreg as Hreg'.
  apply register_Ok in Hreg as (Hk & Hn & _ & Hsh & Hshadow & Hfree & Hid & _ & Hst).
  assert (Hitems : forall k e, reg_items st' !! k = Some e ->
    (k = (scope, ts_name spec) /\ e = MkRegisteredEntry (MkRegisteredTool scope i spec handler) rid prot)
    \/ (k <> (scope, ts_name spec) /\ reg_items st !! k = Some e)).
  { intros k e. rewrite Hst. simpl. rewrite lookup_insert_Some. naive_solver. }
  constructor.
  - intros sc nm e [[[= -> ->] ->]|[_ He]]%Hitems; [done | by eapply Hco].
  - intros k1 k2 e1 e2 [[-> ->]|[? H1]]%Hitems [[-> ->]|[? H2]]%Hitems; simpl; [done| | |by eapply Hun].
    + intros Heq. by destruct (identity_taken_false _ _ _ _ Hid H2).
    + intros Heq. by destruct (identity_taken_false _ _ _ _ Hid H1).
  - intros nm r. split.
    + intros [(-> & -> & ->)|[H Hne]]%(protected_after _ _ _ _ _ _ _ _ _ _ _ Hreg').
      * rewrite Hst. simpl. rewrite <- (Hroot eq_refl), lookup_insert_eq. eauto.
      * apply Hpr in H as (e & He & ? & ?). exists e. split; [|done]. rewrite Hst. simpl.
        rewrite lookup_insert_ne; [done|]. intros [= Es En]. rewrite Es, En in Hfree. congruence.
    + intros (e & He & Hp & Hr). apply Hitems in He as [[[= Es En] ->]|[Hne He]]; simpl in *.
      * subst. simpl. rewrite lookup_insert_eq. done.
      * assert (H : reg_protected_names st !! nm = Some r) by (apply Hpr; eauto).
        rewrite Hst. simpl. destruct prot; [|done]. rewrite lookup_insert_ne; [done|].
        intros <-. apply Hne. by rewrite Hroot.
  - intros sc nm e [[[= -> ->] ->]|[_ He]]%Hitems; simpl; [done | by eapply Hro].
  - intros sc nm e r He Hr. apply (protected_after _ _ _ _ _ _ _ _ _ _ _ Hreg') in Hr.
    apply Hitems in He as [[[= -> ->] ->]|[Hne He]]; destruct Hr as [(Hp & En & Er)|[Hr Hx]]; simpl in *.
    + by apply Hroot.
    + destruct (decide (path_kind scope = ROOT)) as [|Hnr]; [by apply valid_root|].
      rewrite Hsh in Hr by done. done.
    + subst nm. apply valid_root; [by eapply Hco|]. by eapply shadow_exists_false; [apply Hshadow|].
    + by eapply Hns.
Qed.

Lemma unregister_true st scope nm owner st' owner' :
  unregister st scope nm owner = (true, st', owner') ->
  h_registry owner = reg_ref st /\ h_scope owner = scope /\ h_tool_name owner = nm /\
  exists e, reg_items st !! (scope, nm) = Some e /\ re_registration_id e = h_registration_id owner /\
    reg_ref st' = reg_ref st /\ reg_items st' = delete (scope, nm) (reg_items st) /\
    reg_protected_names st' =
      (if re_protected e && bool_decide (reg_protected_names st !! nm = Some (re_registration_id e))
       then delete nm (reg_protected_names st) else reg_protected_names st) /\
    h_closed owner' = true.
Proof.
  unfold unregister. intros H.
  destruct (h_registry owner =? reg_ref st)%nat eqn:Er; simplify_eq/=. apply Nat.eqb_eq in Er.
  destruct (bool_decide (h_scope owner = scope)) eqn:Es, (bool_decide (h_tool_name owner = nm)) eqn:En;
    simplify_eq/=. apply bool_decide_eq_true_1 in Es, En.
  destruct (reg_items st !! (scope, nm)) as [e|] eqn:Ee; [|done].
  destruct (bool_decide (_ <> _)) eqn:Ei; [done|]. apply bool_decide_eq_false_1, dec_stable in Ei.
  injection H as <- <-. split_and!; try done. exists e. split_and!; done.
Qed.

Lemma unregister_false st scope nm owner st' owner' :
  unregister st scope nm owner = (false, st', owner') -> st' = st /\ owner' = owner.
Proof. unfold unregister. intros H. repeat (case_match; simplify_eq; try done). Qed.

Lemma inv_unregister st scope nm owner b st' owner' :
  reg_inv st -> unregister st scope nm owner = (b, st', owner') -> reg_inv st'.
Proof.
  intros [Hco Hun Hpr Hro Hns] H. destruct b; [|by apply unregister_false in H as [-> _]].
  apply unregister_true in H as (_ & _ & _ & e & He & _ & _ & Hit & Hpn & _).
  assert (Hitems : forall k e', reg_items st' !! k = Some e' -> k <> (scope, nm) /\ reg_items st !! k = Some e').
  { intros k e'. rewrite Hit, lookup_delete_Some. naive_solver. }
  assert (Hnames : forall n r, reg_protected_names st' !! n = Some r -> reg_protected_names st !! n = Some r).
  { intros n r. rewrite Hpn. case_match; [|done]. rewrite lookup_delete_Some. tauto. }
  constructor.
  - intros sc n e' [_ ?]%Hitems. by eapply Hco.
  - intros k1 k2 e1 e2 [_ ?]%Hitems [_ ?]%Hitems. by eapply Hun.
  - intros n r. split.
    + intros Hr. pose proof (Hnames _ _ Hr) as Hr0. apply Hpr in Hr0 as (e' & He' & Hp' & Hi').
      exists e'. split; [|done]. rewrite Hit. apply lookup_delete_Some. split; [|done].
      intros [= -> ->]. rewrite He in He'. simplify_eq. rewrite Hpn, Hp' in Hr.
      rewrite bool_decide_eq_true_2 in Hr by (apply Hpr; eauto). simpl in Hr.
      by rewrite lookup_delete_eq in Hr.
    + intros (e' & [Hne He']%Hitems & Hp' & Hi'). assert (Hr : reg_protected_names st !! n = Some r).
      { apply Hpr. eauto. }
      rewrite Hpn. case_match eqn:E; [|done]. py_simpl. rewrite lookup_delete_ne; [done|].
      intros ->. apply Hne. f_equal. symmetry. by eapply Hro.
  - intros sc n e' [_ ?]%Hitems. by eapply Hro.
  - intros sc n e' r [_ ?]%Hitems ?%Hnames. by eapply Hns.
Qed.

(** ** Histories of the registry

    Registry objects start empty; [unregister] covers [close] and the disposal
    of effect-owned registrations. *)
Inductive reachable (ref : nat) : InMemoryToolRegistry -> Prop :=
| reach_empty : reachable ref (empty_registry ref)
| reach_register st scope spec handler rid r st' :
    reachable ref st -> valid_path scope -> register st scope spec handler rid = (r, st') -> reachable ref st'
| reach_protected st spec handler i rid r st' :
    reachable ref st -> register_protected st spec handler i rid = (r, st') -> reachable ref st'
| reach_unregister st scope nm owner b st' owner' :
    reachable ref st -> unregister st scope nm owner = (b, st', owner') -> reachable ref st'.

Lemma reachable_inv ref st : reachable ref st -> reg_inv st.
Proof.
  induction 1 as [|st scope spec handler rid r st' _ IH Hv H|st spec handler i rid r st' _ IH H|].
  - apply inv_empty.
  - unfold register in H. destruct (scoped scope (ts_name spec)); [|by simplify_eq].
    destruct r as [h|]; [|by apply register_Raise in H as ->].
    by apply (inv_register st scope spec handler _ false rid h) in H.
  - unfold register_protected in H. case_match; [|by simplify_eq]. case_match; [|by simplify_eq].
    destruct r as [h|]; [|by apply register_Raise in H as ->].
    by apply (inv_register st the_root spec handler _ true rid h) in H.
  - by eapply inv_unregister.
Qed.

Lemma candidates_valid scope :
  valid_request scope ->
  registration_candidates scope = Ok
    [MkScopePath PRODUCT (Some (rs_tenant_id scope)) (Some (rs_product_id scope)) None None;
     MkScopePath TENANT (Some (rs_tenant_id scope)) None None None; the_root].
Proof.
  intros Hv. destruct (valid_request_ids scope Hv) as (Ht & Hp & It & Ip & Hk).
  unfold registration_candidates.
  assert (Hprod : (if decide (path_kind (rs_path scope) = PRODUCT) then Ok (rs_path scope)
      else product_path (rs_tenant_id scope) (rs_product_id scope))
    = Ok (MkScopePath PRODUCT (Some (rs_tenant_id scope)) (Some (rs_product_id scope)) None None)).
  { case_decide as K; [|by apply product_path_valid]. destruct Hv as [Hv _].
    apply valid_path_inv in Hv. rewrite K in Hv. destruct Hv as (t & q & E & _).
    rewrite E in Ht, Hp |- *. simpl in *. congruence. }
  rewrite Hprod. simpl.
  rewrite (proj2 (tenant_path_valid (rs_tenant_id scope) _) (conj eq_refl It)). done.
Qed.

Lemma resolve_Some st scope nm tool :
  valid_request scope -> resolve st scope nm = Ok (Some tool) ->
  exists e c, reg_items st !! (c, nm) = Some e /\ re_item e = tool /\
    c ∈ [MkScopePath PRODUCT (Some (rs_tenant_id scope)) (Some (rs_product_id scope)) None None;
         MkScopePath TENANT (Some (rs_tenant_id scope)) None None None; the_root].
Proof.
  intros Hv H. unfold resolve in H. rewrite candidates_valid in H by done. simpl in H.
  injection H as H. repeat (case_match; simplify_eq); eexists _, _; (split; [done|]); split; set_solver.
Qed.

(** ** Properties *)

(** A protected framework tool cannot be shadowed.  In every reachable
    registry, resolving a protected name from any authenticated scope (any
    tenant, product or agent) yields the one tool registered at the root under
    protection, whatever tenants and products have registered. *)
Theorem protected_tool_never_shadowed ref st nm rid scope :
  reachable ref st -> reg_protected_names st !! nm = Some rid -> valid_request scope ->
  exists e, reg_items st !! (the_root, nm) = Some e /\ re_protected e = true /\
    re_registration_id e = rid /\ resolve st scope nm = Ok (Some (re_item e)).
Proof.
  intros [Hco Hun Hpr Hro Hns]%reachable_inv Hp Hv.
  pose proof (proj1 (Hpr _ _) Hp) as (e & He & Hprot & Hid). exists e. split_and!; try done.
  unfold resolve. rewrite candidates_valid by done. simpl.
  destruct (reg_items st !! (MkScopePath PRODUCT _ _ _ _, nm)) eqn:E1; [discriminate (Hns _ _ _ _ E1 Hp)|].
  destruct (reg_items st !! (MkScopePath TENANT _ _ _ _, nm)) eqn:E2; [discriminate (Hns _ _ _ _ E2 Hp)|].
  by rewrite He.
Qed.

(** Resolution never crosses a tenant or product boundary: the tool a
    request resolves was registered for exactly the request's product, for its
    tenant, or at the root, under the requested name. *)
Theorem resolve_stays_in_scope ref st scope nm tool :
  reachable ref st -> valid_request scope -> resolve st scope nm = Ok (Some tool) ->
  ti_name (rt_identity tool) = nm /\
  match path_kind (rt_registration_scope tool) with
  | ROOT => True
  | TENANT => path_tenant_id (rt_registration_scope tool) = Some (rs_tenant_id scope)
  | PRODUCT => path_tenant_id (rt_registration_scope tool) = Some (rs_tenant_id scope) /\
               path_product_id (rt_registration_scope tool) = Some (rs_product_id scope)
  | AGENT => False
  end.
Proof.
  intros [Hco _ _ _ _]%reachable_inv Hv Hr.
  destruct (resolve_Some _ _ _ _ Hv Hr) as (e & c & He & <- & Hc).
  destruct (Hco _ _ _ He) as (_ & -> & _ & Hn & _). split; [done|].
  rewrite !elem_of_cons in Hc. destruct Hc as [-> | [-> | [-> | []%not_elem_of_nil]]]; done.
Qed.

(** A registration handle removes exactly the registration it was issued
    for: closing it deletes its own key when the stored registration id is the
    handle's, leaves every other registration alone, and changes nothing at
    all otherwise (a stale, foreign or already closed handle). *)
Theorem close_removes_only_its_registration st h st' h' :
  close st h = (st', h') ->
  (forall k, k <> (h_scope h, h_tool_name h) -> reg_items st' !! k = reg_items st !! k) /\
  (st' = st \/
   (h_closed h = false /\ h_closed h' = true /\ reg_items st' !! (h_scope h, h_tool_name h) = None /\
    exists e, reg_items st !! (h_scope h, h_tool_name h) = Some e /\
      re_registration_id e = h_registration_id h)).
Proof.
  unfold close. intros H. destruct (h_closed h) eqn:Ec; [simplify_eq; auto|].
  destruct (unregister st (h_scope h) (h_tool_name h) h) as [[b st1] h1] eqn:E. simplify_eq.
  destruct b; [|apply unregister_false in E as [-> _]; auto].
  apply unregister_true in E as (_ & _ & _ & e & He & Hid & _ & Hit & _ & Hcl). rewrite Hit. split.
  - intros k Hk. by rewrite lookup_delete_ne.
  - right. rewrite lookup_delete_eq. eauto 10.
Qed.
End Registry.

(** ** A concrete registry with one protected and one product tool *)
Definition demo_spec (name : string) : ToolSpec := MkToolSpec name "" {[READ]} ∅ [].
Definition demo_product : ScopePath := MkScopePath PRODUCT (Some "acme") (Some "shop") None None.
Definition demo_request : RequestScope :=
  MkRequestScope demo_product "ann" "web" ∅ "chat" "req-1" "corr-1" None.
Definition demo_protected : res ToolRegistrationHandle * InMemoryToolRegistry :=
  register_protected (fun _ : unit => true) (fun _ => true) (empty_registry 0) (demo_spec "shell") tt None "r1".
Definition demo_registry : res ToolRegistrationHandle * InMemoryToolRegistry :=
  register (fun _ : unit => true) (fun _ => true) demo_protected.2 demo_product (demo_spec "search") tt "r2".

Lemma demo_registry_reachable : reachable (fun _ : unit => true) (fun _ => true) 0 demo_registry.2.
Proof.
  apply (reach_register _ _ 0 demo_protected.2 demo_product (demo_spec "search") tt "r2" demo_registry.1);
    [|decide_by_vm|apply surjective_pairing].
  apply (reach_protected _ _ 0 (empty_registry 0) (demo_spec "shell") tt None "r1" demo_protected.1);
    [|apply surjective_pairing]. apply reach_empty.
Qed.

Lemma demo_request_valid : valid_request demo_request.
Proof. split; decide_by_vm. Qed.

Definition demo_tool (name : string) (i : ToolIdentity) (scope : ScopePath) : RegisteredTool :=
  MkRegisteredTool scope i (demo_spec name) tt.

Lemma protected_tool_never_shadowed_witness :
  exists e, re_protected e = true /\ resolve demo_registry.2 demo_request "shell" = Ok (Some (re_item e)).
Proof.
  destruct (protected_tool_never_shadowed (fun _ : unit => true) (fun _ => true) 0
    demo_registry.2 "shell" "r1" demo_request) as (e & _ & Hp & _ & Hr).
  - apply demo_registry_reachable.
  - decide_by_vm.
  - apply demo_request_valid.
  - exact (ex_intro _ e (conj Hp Hr)).
Defined.

Lemma resolve_stays_in_scope_witness :
  exists tool, resolve demo_registry.2 demo_request "search" = Ok (Some tool) /\
    ti_name (rt_identity tool) = "search".
Proof.
  set (tool := demo_tool "search" (MkToolIdentity "product" "search" "scope:product:acme:shop" "1") demo_product).
  assert (Hr : resolve demo_registry.2 demo_request "search" = Ok (Some tool)) by by vm_compute.
  destruct (resolve_stays_in_scope (fun _ : unit => true) (fun _ => true) 0
    demo_registry.2 demo_request "search" tool) as [Hn _].
  - apply demo_registry_reachable.
  - apply demo_request_valid.
  - exact Hr.
  - exact (ex_intro _ tool (conj Hr Hn)).
Defined.

Lemma close_removes_only_its_registration_witness :
  exists h st' h', demo_registry.1 = Ok h /\ close demo_registry.2 h = (st', h') /\
    reg_items st' !! (the_root, "shell") = reg_items demo_registry.2 !! (the_root, "shell").
Proof.
  set (h := MkHandle 0 demo_product "search"
    (MkToolIdentity "product" "search" "scope:product:acme:shop" "1") "r2" false).
  exists h, (close demo_registry.2 h).1, (close demo_registry.2 h).2.
  split; [by vm_compute|]. split; [apply surjective_pairing|].
  destruct (close_removes_only_its_registration demo_registry.2 h (close demo_registry.2 h).1
    (close demo_registry.2 h).2 (surjective_pairing _)) as [Hk _].
  apply Hk. discriminate.
Defined.
End Registry.
