(* ===== verification/Authority.v ===== *)
(** * Capability grants ([execution/in_memory.py], [InMemoryCapabilityAuthority])

    The trusted grant store: grants are issued for a product scope, may be
    attenuated into child grants, belong to the kernel activation that owned
    the product when they were issued, and die with their ancestors or their
    activation.  Every method body runs under the store's lock, so one call is
    one atomic transition.  Random grant ids and the clock are arguments. *)
From S2P Require Import Prelude PyText Json Scopes ExecModels.
Open Scope Z_scope.

Module Authority.

Record InMemoryCapabilityAuthority : Type := MkAuthority {
  au_grants : gmap string CapabilityGrant;
  au_grant_owners : gmap string (option string);
  au_active_owners : gmap (string * string) string;
  au_owner_grants : gmap string (gset string);
  au_grant_parents : gmap string string;
  au_grant_children : gmap string (gset string);
}.

#[global] Instance authority_eq_dec : EqDecision InMemoryCapabilityAuthority.
Proof. solve_decision. Defined.

Definition empty_authority : InMemoryCapabilityAuthority := MkAuthority ∅ ∅ ∅ ∅ ∅ ∅.

(** [d.setdefault(key, set()).add(x)] *)
Definition add_to (key x : string) (d : gmap string (gset string)) : gmap string (gset string) :=
  <[ key := {[ x ]} ∪ default ∅ (d !! key) ]> d.

(** [s = d.get(key); if s is not None: s.discard(x); if not s: d.pop(key)] *)
Definition discard_from (key x : string) (d : gmap string (gset string)) : gmap string (gset string) :=
  match d !! key with
  | None => d
  | Some s => if decide (s ∖ {[ x ]} = ∅) then delete key d else <[ key := s ∖ {[ x ]} ]> d
  end.

Definition scope_key (g : CapabilityGrant) : string * string := (cg_tenant_id g, cg_product_id g).

(** The bookkeeping both issuing paths share: store the grant under its owner. *)
Definition store_grant (st : InMemoryCapabilityAuthority) (g : CapabilityGrant) (owner : option string)
    (parents : gmap string string) (children : gmap string (gset string)) : InMemoryCapabilityAuthority :=
  MkAuthority (<[ cg_grant_id g := g ]> (au_grants st))
    (<[ cg_grant_id g := owner ]> (au_grant_owners st))
    (au_active_owners st)
    (match owner with
     | None => au_owner_grants st
     | Some o => add_to o (cg_grant_id g) (au_owner_grants st)
     end)
    parents children.

(** [register(grant)] *)
Definition register_grant (st : InMemoryCapabilityAuthority) (g : CapabilityGrant) :
    res unit * InMemoryCapabilityAuthority :=
  if is_none (au_grants st !! cg_grant_id g)
  then (Ok tt, store_grant st g (au_active_owners st !! scope_key g)
                 (au_grant_parents st) (au_grant_children st))
  else (Raise ValueError, st).

(** [issue(scope, ...)]; [token] is the drawn [token_urlsafe] and [now] the
    given or current time. *)
Definition issue (st : InMemoryCapabilityAuthority) (scope : ScopePath)
    (tool_identities : gset ToolIdentity) (capabilities : gset string)
    (principal_id : option string) (lifetime : Z) (now : datetime) (token : string) :
    res CapabilityGrant * InMemoryCapabilityAuthority :=
  let grant :=
    require product_or_agent (path_kind scope) else ValueError ;;
    require 0 <? lifetime else ValueError ;;
    let! issued_at := utc now in
    capability_grant ("grant-" +:+ token)
      (default ""%string (path_tenant_id scope)) (default ""%string (path_product_id scope))
      tool_identities capabilities principal_id (Aware issued_at) (Aware (issued_at + lifetime)) in
  match grant with
  | Raise e => (Raise e, st)
  | Ok g =>
      match register_grant st g with
      | (Ok _, st') => (Ok g, st')
      | (Raise e, st') => (Raise e, st')
      end
  end.

(** ** Liveness of a grant and its ancestors *)

(** [self._grant_owners.get(grant_id)] *)
Definition grant_owner (st : InMemoryCapabilityAuthority) (id : string) : option string :=
  mjoin (au_grant_owners st !! id).

(** One round of the [while] body: the grant exists, has not expired and was
    issued under the activation that owns its product now. *)
Definition node_live (st : InMemoryCapabilityAuthority) (now : Z) (id : string) : bool :=
  match au_grants st !! id with
  | None => false
  | Some g =>
      negb (cg_expires_at g <=? now)
      && bool_decide (grant_owner st id = au_active_owners st !! scope_key g)
  end.

Fixpoint grant_live_loop (fuel : nat) (st : InMemoryCapabilityAuthority) (now : Z) (id : string) :
    option bool :=
  match fuel with
  | O => None
  | S fuel =>
      if node_live st now id then
        match au_grant_parents st !! id with
        | None => Some true
        | Some parent => grant_live_loop fuel st now parent
        end
      else Some false
  end.

(** [_grant_live_locked]; an ancestor chain visits each parent link once. *)
Definition grant_live_locked (st : InMemoryCapabilityAuthority) (id : string) (now : Z) : option bool :=
  grant_live_loop (S (size (au_grant_parents st))) st now id.

(** [issue_child] *)
Definition issue_child (st : InMemoryCapabilityAuthority) (parent_id : string) (scope : ScopePath)
    (identities : gset ToolIdentity) (capabilities : gset string) (principal_id : string)
    (lifetime now : Z) (token : string) : res CapabilityGrant * InMemoryCapabilityAuthority :=
  let checked :=
    require bool_decide (path_kind scope = AGENT) else ValueError ;;
    require 0 <? lifetime else ValueError ;;
    match au_grants st !! parent_id, grant_live_locked st parent_id now with
    | Some parent, Some true =>
        require bool_decide (Some (cg_tenant_id parent) = path_tenant_id scope
                             /\ Some (cg_product_id parent) = path_product_id scope) else ValueError ;;
        require match cg_principal_id parent with
                | None => true
                | Some p => bool_decide (principal_id = p)
                end else ValueError ;;
        require bool_decide (identities ⊆ cg_tool_identities parent) else ValueError ;;
        require bool_decide (capabilities ⊆ cg_capabilities parent) else ValueError ;;
        let! g := capability_grant ("grant-" +:+ token) (cg_tenant_id parent) (cg_product_id parent)
          identities capabilities (Some principal_id)
          (Aware now) (Aware (Z.min (cg_expires_at parent) (now + lifetime))) in
        require is_none (au_grants st !! cg_grant_id g) else ValueError ;;
        Ok g
    | Some _, None => Raise OutOfFuel
    | _, _ => Raise ValueError
    end in
  match checked with
  | Raise e => (Raise e, st)
  | Ok g =>
      (Ok g, store_grant st g (grant_owner st parent_id)
               (<[ cg_grant_id g := parent_id ]> (au_grant_parents st))
               (add_to parent_id (cg_grant_id g) (au_grant_children st)))
  end.

(** [resolve(grant_id)] *)
Definition resolve (st : InMemoryCapabilityAuthority) (id : string) (now : Z) : res (option CapabilityGrant) :=
  match au_grants st !! id with
  | None => Ok None
  | Some g =>
      match au_grant_parents st !! id with
      | Some _ =>
          match grant_live_locked st id now with
          | None => Raise OutOfFuel
          | Some live => Ok (if live then Some g else None)
          end
      | None =>
          match au_active_owners st !! scope_key g with
          | None => Ok (if is_none (grant_owner st id) then Some g else None)
          | Some current => Ok (if bool_decide (grant_owner st id = Some current) then Some g else None)
          end
      end
  end.

(** ** Revocation *)

(** One round of the [while pending] body for [id]: the new state and the
    children it pushes (a set, iterated in an unspecified order). *)
Definition revoke_one (st : InMemoryCapabilityAuthority) (id : string) :
    InMemoryCapabilityAuthority * list string :=
  let pushed := elements (default ∅ (au_grant_children st !! id)) in
  let children := delete id (au_grant_children st) in
  let children :=
    match au_grant_parents st !! id with
    | None => children
    | Some parent => discard_from parent id children
    end in
  (MkAuthority (delete id (au_grants st)) (delete id (au_grant_owners st)) (au_active_owners st)
     (match grant_owner st id with
      | None => au_owner_grants st
      | Some owner => discard_from owner id (au_owner_grants st)
      end)
     (delete id (au_grant_parents st)) children,
   pushed).

Fixpoint revoke_loop (fuel : nat) (st : InMemoryCapabilityAuthority) (pending : list string) :
    option InMemoryCapabilityAuthority :=
  match pending, fuel with
  | [], _ => Some st
  | _, O => None
  | id :: pending, S fuel =>
      let '(st', pushed) := revoke_one st id in
      revoke_loop fuel st' (pushed ++ pending)
  end.

(** [_revoke_subtree_locked]: every parent link is pushed at most once. *)
Definition revoke_subtree_locked (st : InMemoryCapabilityAuthority) (id : string) :
    option InMemoryCapabilityAuthority :=
  revoke_loop (S (size (au_grant_parents st))) st [id].

(** [revoke(grant_id)] *)
Definition revoke (st : InMemoryCapabilityAuthority) (id : string) : res bool * InMemoryCapabilityAuthority :=
  match au_grants st !! id with
  | None => (Ok false, st)
  | Some _ =>
      match revoke_subtree_locked st id with
      | None => (Raise OutOfFuel, st)
      | Some st' => (Ok true, st')
      end
  end.

(** ** Activations *)

(** [bind_activation] *)
Definition bind_activation (st : InMemoryCapabilityAuthority) (tenant_id : string)
    (product_ids : list string) (owner_token : string) : res unit * InMemoryCapabilityAuthority :=
  let keys := (fun p => (tenant_id, p)) <$> product_ids in
  let checked :=
    require bool_decide (owner_token <> ""%string) else ValueError ;;
    require bool_decide (product_ids <> [] /\ NoDup product_ids) else ValueError ;;
    guard (forallb (fun k => is_none (au_active_owners st !! k)) keys) ValueError in
  match checked with
  | Raise e => (Raise e, st)
  | Ok _ =>
      (Ok tt,
       MkAuthority (au_grants st) (au_grant_owners st)
         (foldl (fun m k => <[ k := owner_token ]> m) (au_active_owners st) keys)
         (<[ owner_token := default ∅ (au_owner_grants st !! owner_token) ]> (au_owner_grants st))
         (au_grant_parents st) (au_grant_children st))
  end.

(** The [for grant_id in grant_ids] loop of [release_activation] *)
Fixpoint revoke_each (st : InMemoryCapabilityAuthority) (ids : list string) :
    option InMemoryCapabilityAuthority :=
  match ids with
  | [] => Some st
  | id :: ids =>
      if is_none (au_grants st !! id) then revoke_each st ids
      else st' ← revoke_subtree_locked st id; revoke_each st' ids
  end.

(** [release_activation] *)
Definition release_activation (st : InMemoryCapabilityAuthority) (owner_token : string) :
    res unit * InMemoryCapabilityAuthority :=
  let st1 :=
    MkAuthority (au_grants st) (au_grant_owners st)
      (filter (fun kv => kv.2 <> owner_token) (au_active_owners st))
      (au_owner_grants st) (au_grant_parents st) (au_grant_children st) in
  match revoke_each st1 (elements (default ∅ (au_owner_grants st !! owner_token))) with
  | None => (Raise OutOfFuel, st)
  | Some st2 =>
      (Ok tt, MkAuthority (au_grants st2) (au_grant_owners st2) (au_active_owners st2)
                (delete owner_token (au_owner_grants st2)) (au_grant_parents st2) (au_grant_children st2))
  end.

(** ** Invariant of the six tables *)

(** [link st c p]: [p] is the parent of the child grant [c]. *)
Definition link (st : InMemoryCapabilityAuthority) (c p : string) : Prop := au_grant_parents st !! c = Some p.

(** The child's authority is contained in the parent's. *)
Record attenuates (c p : CapabilityGrant) : Prop := {
  att_tenant : cg_tenant_id c = cg_tenant_id p;
  att_product : cg_product_id c = cg_product_id p;
  att_tools : cg_tool_identities c ⊆ cg_tool_identities p;
  att_caps : cg_capabilities c ⊆ cg_capabilities p;
  att_expiry : cg_expires_at c <= cg_expires_at p;
  att_principal : forall x, cg_principal_id p = Some x -> cg_principal_id c = Some x;
}.

(** The six tables agree with each other: owners and owned sets, parents and
    children mirror each other, and parent links form a forest of attenuations. *)
Record tables (st : InMemoryCapabilityAuthority) : Prop := {
  inv_ids : forall id g, au_grants st !! id = Some g -> cg_grant_id g = id;
  inv_owners : forall id, is_Some (au_grant_owners st !! id) <-> is_Some (au_grants st !! id);
  inv_owned : forall o id,
    id ∈ default ∅ (au_owner_grants st !! o) <-> au_grant_owners st !! id = Some (Some o);
  inv_links : forall c p, link st c p -> exists gc gp,
    au_grants st !! c = Some gc /\ au_grants st !! p = Some gp /\ attenuates gc gp /\
    au_grant_owners st !! c = au_grant_owners st !! p;
  inv_children : forall c p, link st c p <-> c ∈ default ∅ (au_grant_children st !! p);
  inv_acyclic : exists rank : string -> nat, forall c p, link st c p -> (rank p < rank c)%nat;
}.

(** An owned grant belongs to the activation that owns its product now. *)
Definition owners_current (st : InMemoryCapabilityAuthority) : Prop :=
  forall id g o, au_grants st !! id = Some g -> au_grant_owners st !! id = Some (Some o) ->
    au_active_owners st !! scope_key g = Some o.

Record inv (st : InMemoryCapabilityAuthority) : Prop := {
  inv_tables :> tables st;
  inv_active : owners_current st;
}.

Lemma grants_inv_empty : inv empty_authority.
Proof.
  unfold empty_authority. constructor; [constructor|]; unfold owners_current, link; simpl.
  - intros id g. by rewrite lookup_empty.
  - intros id. by rewrite !lookup_empty.
  - intros o id. rewrite !lookup_empty. simpl. set_solver.
  - intros c p. by rewrite lookup_empty.
  - intros c p. rewrite !lookup_empty. simpl. set_solver.
  - exists (fun _ => 0%nat). intros c p. by rewrite lookup_empty.
  - intros id g o. by rewrite lookup_empty.
Qed.

Lemma elem_add_to k x d key id :
  id ∈ default ∅ (add_to k x d !! key) <-> (key = k /\ id = x) \/ id ∈ default ∅ (d !! key).
Proof.
  unfold add_to. destruct (decide (key = k)) as [->|Hne].
  - rewrite lookup_insert_eq. simpl. set_solver.
  - rewrite lookup_insert_ne by done. naive_solver.
Qed.

Lemma elem_discard_from k x d key id :
  id ∈ default ∅ (discard_from k x d !! key) <-> ~ (key = k /\ id = x) /\ id ∈ default ∅ (d !! key).
Proof.
  unfold discard_from. destruct (d !! k) as [s|] eqn:Hk.
  - destruct (decide (s ∖ {[x]} = ∅)) as [He|He], (decide (key = k)) as [->|Hne].
    + rewrite lookup_delete_eq, Hk. simpl. set_solver.
    + rewrite lookup_delete_ne by done. naive_solver.
    + rewrite lookup_insert_eq, Hk. simpl. set_solver.
    + rewrite lookup_insert_ne by done. naive_solver.
  - split; [|by intros [_ ?]]. intros Hid. split; [|done]. intros [-> ->].
    rewrite Hk in Hid. simpl in Hid. set_solver.
Qed.

(** ** Issuing *)

Lemma grant_owner_Some st id o : grant_owner st id = Some o <-> au_grant_owners st !! id = Some (Some o).
Proof. unfold grant_owner. destruct (au_grant_owners st !! id) as [[]|]; simpl; naive_solver. Qed.

Lemma link_grants st c p : tables st -> link st c p ->
  is_Some (au_grants st !! c) /\ is_Some (au_grants st !! p).
Proof. intros HI HL. destruct (inv_links _ HI _ _ HL) as (gc & gp & Hc & Hp & _). rewrite Hc, Hp. eauto. Qed.

(** A fresh root grant keeps the tables consistent. *)
Lemma register_grant_inv st g st' u :
  inv st -> register_grant st g = (Ok u, st') -> inv st'.
Proof.
  unfold register_grant. intros HI H.
  destruct (au_grants st !! cg_grant_id g) as [|] eqn:Hfresh; simpl in H; [done|]. injection H as _ <-.
  assert (Hno : au_grant_owners st !! cg_grant_id g = None).
  { apply eq_None_not_Some. rewrite (inv_owners _ HI), Hfresh. by intros [? ?]. }
  constructor; [constructor|]; unfold owners_current, link; simpl.
  - intros id g'. rewrite lookup_insert_Some. intros [[<- <-]|[_ ?]]; [done|]. by apply (inv_ids _ HI).
  - intros id. destruct (decide (id = cg_grant_id g)) as [->|Hne].
    + rewrite !lookup_insert_eq. split; eauto.
    + rewrite !lookup_insert_ne by done. by apply (inv_owners _ HI).
  - intros o id. rewrite lookup_insert_Some.
    destruct (au_active_owners st !! scope_key g) as [o'|].
    + rewrite elem_add_to, (inv_owned _ HI). split; [|naive_solver].
      intros [[-> ->]|Hid]; [naive_solver|]. right. split; [|done]. intros <-. congruence.
    + rewrite (inv_owned _ HI). split; [|naive_solver].
      intros Hid. right. split; [|done]. intros <-. congruence.
  - intros c p HL. destruct (inv_links _ HI _ _ HL) as (gc & gp & Hc & Hp & Ha & Ho).
    exists gc, gp. rewrite !lookup_insert_ne by congruence. done.
  - apply HI.
  - apply HI.
  - intros id g' o. rewrite !lookup_insert_Some.
    intros [[<- <-]|[? ?]] [[? ?]|[? ?]]; try done. by eapply inv_active.
Qed.

(** What a successful [issue_child] has checked. *)
Lemma issue_child_ok st parent_id scope ids caps pr lifetime now token g st' :
  issue_child st parent_id scope ids caps pr lifetime now token = (Ok g, st') ->
  exists parent, au_grants st !! parent_id = Some parent /\
    grant_live_locked st parent_id now = Some true /\ attenuates g parent /\
    cg_issued_at g < cg_expires_at g /\
    au_grants st !! cg_grant_id g = None /\
    st' = store_grant st g (grant_owner st parent_id)
               (<[ cg_grant_id g := parent_id ]> (au_grant_parents st))
               (add_to parent_id (cg_grant_id g) (au_grant_children st)).
Proof.
  unfold issue_child. intros H. case_match eqn:Hc; [|done]. py_simpl.
  destruct (au_grants st !! parent_id) as [parent|] eqn:Hp; [|done].
  destruct (grant_live_locked st parent_id now) as [[]|] eqn:Hl; [|done..].
  unfold capability_grant in *. py_simpl. exists parent.
  match goal with Hx : is_none _ = true |- _ => rename Hx into Hnone end.
  match goal with Hx : (_ <? _) = true, Hy : (_ <? _) = true |- _ => apply Z.ltb_lt in Hx, Hy end.
  split_and!; try done.
  - constructor; simpl; try done; [lia|]. intros q Hq. by rewrite Hq in *; py_simpl.
  - by destruct (au_grants st !! ("grant-" +:+ token)) eqn:E; simpl in *; rewrite ?E in Hnone.
Qed.

Lemma issue_child_inv st parent_id scope ids caps pr lifetime now token g st' :
  inv st -> issue_child st parent_id scope ids caps pr lifetime now token = (Ok g, st') -> inv st'.
Proof.
  intros HI (parent & Hp & _ & Hatt & _ & Hfresh & ->)%issue_child_ok.
  assert (Hno : au_grant_owners st !! cg_grant_id g = None).
  { apply eq_None_not_Some. rewrite (inv_owners _ HI), Hfresh. by intros [? ?]. }
  assert (Hnl : forall c, ~ link st c (cg_grant_id g)).
  { intros c [_ [? ?]]%(link_grants _ _ _ HI). congruence. }
  assert (Hnp : parent_id <> cg_grant_id g) by congruence.
  destruct (proj2 (inv_owners _ HI parent_id)) as [ow How]; [by rewrite Hp|].
  assert (Hgo : grant_owner st parent_id = ow) by (unfold grant_owner; by rewrite How).
  rewrite Hgo. constructor; [constructor|]; unfold owners_current, link in *; simpl.
  - intros id g'. rewrite lookup_insert_Some. intros [[<- <-]|[_ ?]]; [done|]. by apply (inv_ids _ HI).
  - intros id. destruct (decide (id = cg_grant_id g)) as [->|Hne].
    + rewrite !lookup_insert_eq. split; eauto.
    + rewrite !lookup_insert_ne by done. by apply (inv_owners _ HI).
  - intros o id. rewrite lookup_insert_Some. destruct ow as [o'|].
    + rewrite elem_add_to, (inv_owned _ HI). split; [|naive_solver].
      intros [[-> ->]|Hid]; [naive_solver|]. right. split; [|done]. intros <-. congruence.
    + rewrite (inv_owned _ HI). split; [|naive_solver].
      intros Hid. right. split; [|done]. intros <-. congruence.
  - intros c p. rewrite lookup_insert_Some. intros [[<- <-]|[Hne HL]].
    + exists g, parent. rewrite !lookup_insert_eq, !lookup_insert_ne by done. by rewrite How.
    + destruct (inv_links _ HI _ _ HL) as (gc & gp & Hc & Hgp & Ha & Ho).
      exists gc, gp. rewrite !lookup_insert_ne by congruence. done.
  - intros c p. rewrite lookup_insert_Some, elem_add_to, <- (inv_children _ HI).
    split; [naive_solver|]. intros [[-> ->]|HL]; [naive_solver|]. right. split; [|done].
    intros <-. destruct (link_grants _ _ _ HI HL) as [[? ?] _]. congruence.
  - destruct (inv_acyclic _ HI) as [rank Hrank].
    exists (fun x => if decide (x = cg_grant_id g) then S (rank parent_id) else rank x).
    intros c p. rewrite lookup_insert_Some. intros [[<- <-]|[Hne HL]].
    + rewrite decide_False, decide_True by done. lia.
    + destruct (decide (p = cg_grant_id g)) as [->|_]; [by destruct (Hnl c)|].
      destruct (decide (c = cg_grant_id g)); [done|]. by apply Hrank.
  - intros id g' o. rewrite !lookup_insert_Some.
    intros [[<- <-]|[? ?]] [[? Hq]|[? ?]]; try done; [|by eapply inv_active].
    rewrite Hq in How. unfold scope_key. rewrite (att_tenant _ _ Hatt), (att_product _ _ Hatt).
    by apply (inv_active _ HI _ _ _ Hp How).
Qed.

(** ** The ancestor walk terminates and checks every ancestor *)

Lemma grant_live_loop_spec st now (rank : string -> nat) n X id :
  (forall c p, link st c p -> (rank p < rank c)%nat) ->
  X ⊆ dom (au_grant_parents st) -> (forall x, x ∈ X -> (rank id < rank x)%nat) ->
  (size (au_grant_parents st) < n + size X)%nat ->
  exists b, grant_live_loop n st now id = Some b /\
    (b = true <-> forall a, rtc (link st) id a -> node_live st now a = true).
Proof.
  intros Hrank. revert X id. induction n as [|n IH]; intros X id HX Hlt Hsz.
  { apply subseteq_size in HX. rewrite size_dom in HX. lia. }
  simpl. destruct (node_live st now id) eqn:Hn.
  2: { exists false. split; [done|]. split; [done|]. intros Ha. rewrite <- Hn. apply Ha. apply rtc_refl. }
  destruct (au_grant_parents st !! id) as [p|] eqn:Hp.
  - destruct (IH ({[id]} ∪ X) p) as (b & Hb & Hspec).
    + apply union_subseteq. split; [|done]. apply singleton_subseteq_l. apply elem_of_dom. eauto.
    + intros x [->%elem_of_singleton|Hx]%elem_of_union; [by apply Hrank|].
      specialize (Hlt x Hx). specialize (Hrank id p Hp). lia.
    + rewrite size_union, size_singleton; [lia|]. apply disjoint_singleton_l. intros Hx.
      specialize (Hlt id Hx). lia.
    + exists b. split; [done|]. rewrite Hspec. split.
      * intros Ha a [<-|(q & Hq & Hqa)]%rtc_inv; [done|]. unfold link in Hq. rewrite Hp in Hq.
        injection Hq as <-. by apply Ha.
      * intros Ha a Hpa. apply Ha. by eapply rtc_l.
  - exists true. split; [done|]. split; [|done]. intros _ a [<-|(q & Hq & _)]%rtc_inv; [done|].
    unfold link in Hq. congruence.
Qed.

Lemma grant_live_locked_spec st now id :
  tables st -> exists b, grant_live_locked st id now = Some b /\
    (b = true <-> forall a, rtc (link st) id a -> node_live st now a = true).
Proof.
  intros HI. destruct (inv_acyclic _ HI) as [rank Hrank].
  apply (grant_live_loop_spec st now rank _ ∅); [done|set_solver..|rewrite size_empty; lia].
Qed.

Lemma attenuates_refl g : attenuates g g.
Proof. by constructor. Qed.

Lemma attenuates_trans a b c : attenuates a b -> attenuates b c -> attenuates a c.
Proof.
  intros [] []. constructor; try congruence; try lia; [set_solver..|]. auto.
Qed.

Lemma ancestor_attenuates st c a gc :
  tables st -> rtc (link st) c a -> au_grants st !! c = Some gc ->
  exists ga, au_grants st !! a = Some ga /\ attenuates gc ga /\
    au_grant_owners st !! c = au_grant_owners st !! a.
Proof.
  intros HI Hr. revert gc. induction Hr as [x|x y z Hxy _ IH]; intros gc Hc.
  - exists gc. eauto using attenuates_refl.
  - destruct (inv_links _ HI _ _ Hxy) as (gx & gy & Hx & Hy & Ha & Ho).
    destruct (IH _ Hy) as (gz & Hz & Ha' & Ho'). exists gz. split; [done|]. split; [|congruence].
    assert (gc = gx) as -> by congruence. by eapply attenuates_trans.
Qed.

(** ** The revocation loop removes exactly the subtree *)

(** [st] is [st0] with every trace of the grants in [D] erased. *)
Record removed (D : gset string) (st0 st : InMemoryCapabilityAuthority) : Prop := {
  rm_grants : forall id, au_grants st !! id = if decide (id ∈ D) then None else au_grants st0 !! id;
  rm_owners : forall id, au_grant_owners st !! id = if decide (id ∈ D) then None else au_grant_owners st0 !! id;
  rm_active : au_active_owners st = au_active_owners st0;
  rm_owned : forall o id, id ∈ default ∅ (au_owner_grants st !! o) <->
    id ∈ default ∅ (au_owner_grants st0 !! o) /\ id ∉ D;
  rm_parents : forall id, au_grant_parents st !! id = if decide (id ∈ D) then None else au_grant_parents st0 !! id;
  rm_children : forall p c, c ∈ default ∅ (au_grant_children st !! p) <->
    c ∈ default ∅ (au_grant_children st0 !! p) /\ c ∉ D /\ p ∉ D;
}.

Lemma removed_empty st : removed ∅ st st.
Proof.
  constructor; intros; rewrite ?decide_False by set_solver; try done; set_solver.
Qed.

Lemma delete_removed {V} (m m0 : gmap string V) (D : gset string) x :
  (forall id, m !! id = if decide (id ∈ D) then None else m0 !! id) ->
  forall id, delete x m !! id = if decide (id ∈ {[x]} ∪ D) then None else m0 !! id.
Proof.
  intros Hm id. destruct (decide (id = x)) as [->|Hne].
  - by rewrite lookup_delete_eq, decide_True by set_solver.
  - rewrite lookup_delete_ne, Hm by done.
    destruct (decide (id ∈ D)); [by rewrite decide_True by set_solver | by rewrite decide_False by set_solver].
Qed.

Lemma revoke_one_owned st0 D st x : tables st0 -> removed D st0 st ->
  forall o id, id ∈ default ∅ (match grant_owner st x with
      | None => au_owner_grants st
      | Some owner => discard_from owner x (au_owner_grants st)
      end !! o) <-> id ∈ default ∅ (au_owner_grants st0 !! o) /\ id ∉ {[x]} ∪ D.
Proof.
  intros HI HR o id. unfold grant_owner. rewrite (rm_owners _ _ _ HR).
  assert (Hin : x ∈ default ∅ (au_owner_grants st0 !! o) <-> au_grant_owners st0 !! x = Some (Some o))
    by apply (inv_owned _ HI).
  destruct (decide (x ∈ D)).
  - simpl. rewrite (rm_owned _ _ _ HR). set_solver.
  - destruct (au_grant_owners st0 !! x) as [[o'|]|] eqn:E; simpl;
      rewrite ?elem_discard_from, (rm_owned _ _ _ HR), not_elem_of_union, not_elem_of_singleton.
    + split; [|naive_solver]. intros (Hne & Hid & HD). split_and!; [done| |done]. intros ->.
      apply Hne. split; [|done]. apply Hin in Hid. congruence.
    + naive_solver.
    + naive_solver.
Qed.

Lemma revoke_one_children st0 D st x : tables st0 -> removed D st0 st ->
  forall p c, c ∈ default ∅ (match au_grant_parents st !! x with
      | None => delete x (au_grant_children st)
      | Some parent => discard_from parent x (delete x (au_grant_children st))
      end !! p) <->
    c ∈ default ∅ (au_grant_children st0 !! p) /\ c ∉ {[x]} ∪ D /\ p ∉ {[x]} ∪ D.
Proof.
  intros HI HR p c. rewrite (rm_parents _ _ _ HR).
  assert (Hdel : c ∈ default ∅ (delete x (au_grant_children st) !! p) <->
    p <> x /\ c ∈ default ∅ (au_grant_children st0 !! p) /\ c ∉ D /\ p ∉ D).
  { destruct (decide (p = x)) as [->|Hne].
    - rewrite lookup_delete_eq. simpl. set_solver.
    - rewrite lookup_delete_ne, (rm_children _ _ _ HR) by done. naive_solver. }
  assert (Hin : x ∈ default ∅ (au_grant_children st0 !! p) <-> au_grant_parents st0 !! x = Some p)
    by (symmetry; apply (inv_children _ HI)).
  destruct (decide (x ∈ D)).
  - rewrite Hdel. set_solver.
  - destruct (au_grant_parents st0 !! x) as [q|] eqn:E; rewrite ?elem_discard_from, Hdel.
    + destruct (decide (c = x)) as [->|Hcx]; [|set_solver].
      split; [|set_solver]. intros (Hne & _ & Hid & _). apply Hin in Hid. naive_solver.
    + destruct (decide (c = x)) as [->|Hcx]; [|set_solver].
      split; [|set_solver]. intros (_ & Hid & _). apply Hin in Hid. done.
Qed.

Lemma revoke_one_removed st0 D st x :
  tables st0 -> removed D st0 st -> removed ({[x]} ∪ D) st0 (revoke_one st x).1.
Proof.
  intros HI HR. constructor; simpl.
  - apply delete_removed, HR.
  - apply delete_removed, HR.
  - apply HR.
  - by apply revoke_one_owned.
  - apply delete_removed, HR.
  - by apply revoke_one_children.
Qed.

(** The worklist invariant of [_revoke_subtree_locked] started at [root]. *)
Record revoking (st0 : InMemoryCapabilityAuthority) (root : string) (D : gset string)
    (pending : list string) : Prop := {
  rv_nodup : NoDup pending;
  rv_disj : forall x, x ∈ pending -> x ∉ D;
  rv_sound : forall x, x ∈ pending \/ x ∈ D -> rtc (link st0) x root;
  rv_root : root ∈ pending \/ root ∈ D;
  rv_closed : forall c p, link st0 c p -> p ∈ D -> c ∈ pending \/ c ∈ D;
  rv_parent : forall x, x ∈ pending \/ x ∈ D -> x = root \/ exists p, link st0 x p /\ p ∈ D;
}.

Lemma no_self_ancestor st c p : tables st -> link st c p -> rtc (link st) p c -> False.
Proof.
  intros HI HL Hr. destruct (inv_acyclic _ HI) as [rank Hrank].
  assert (Hle : forall a b, rtc (link st) a b -> (rank b <= rank a)%nat).
  { induction 1 as [|x y z Hxy _ IH]; [lia|]. specialize (Hrank _ _ Hxy). lia. }
  specialize (Hle _ _ Hr). specialize (Hrank _ _ HL). lia.
Qed.

Lemma pushed_spec st0 D st x c : tables st0 -> removed D st0 st -> x ∉ D ->
  c ∈ (revoke_one st x).2 <-> link st0 c x /\ c ∉ D.
Proof.
  intros HI HR Hx. simpl. rewrite elem_of_elements, (rm_children _ _ _ HR), <- (inv_children _ HI).
  naive_solver.
Qed.

(** A child of the popped grant has not been seen before. *)
Lemma pushed_fresh st0 root D x pending c : tables st0 -> revoking st0 root D (x :: pending) ->
  link st0 c x -> c ∉ x :: pending /\ c ∉ D.
Proof.
  intros HI HV HL. assert (Hx : x ∉ D) by (apply (rv_disj _ _ _ _ HV); left).
  assert (Hno : ~ (c ∈ x :: pending \/ c ∈ D)); [|tauto].
  intros Hc. destruct (rv_parent _ _ _ _ HV c Hc) as [->|(p & Hp & HpD)].
  - apply (no_self_ancestor st0 root x HI HL). apply (rv_sound _ _ _ _ HV). left. left.
  - unfold link in *. congruence.
Qed.

Lemma revoking_step st0 root D st x pending : tables st0 -> removed D st0 st ->
  revoking st0 root D (x :: pending) ->
  revoking st0 root ({[x]} ∪ D) ((revoke_one st x).2 ++ pending).
Proof.
  intros HI HR HV. assert (Hx : x ∉ D) by (apply (rv_disj _ _ _ _ HV); left).
  pose proof (pushed_spec st0 D st x) as Hpush.
  pose proof (rv_nodup _ _ _ _ HV) as [Hxp Hnd]%NoDup_cons.
  assert (Hold : forall c, c ∈ ((revoke_one st x).2 ++ pending)%list \/ c ∈ {[x]} ∪ D <->
    link st0 c x \/ c ∈ x :: pending \/ c ∈ D).
  { intros c. rewrite elem_of_app, Hpush, elem_of_cons, elem_of_union, elem_of_singleton by done.
    destruct (decide (c ∈ D)); tauto. }
  constructor.
  - apply NoDup_app. split; [apply NoDup_elements|]. split; [|done].
    intros c Hc Hcp. apply Hpush in Hc as [Hc _]; [|done..].
    destruct (pushed_fresh _ _ _ _ _ _ HI HV Hc). set_solver.
  - intros c. rewrite elem_of_app, Hpush by done. intros [[Hc _]|Hc].
    + destruct (pushed_fresh _ _ _ _ _ _ HI HV Hc). set_solver.
    + assert (c ∉ D) by (apply (rv_disj _ _ _ _ HV); by right). set_solver.
  - intros c [Hc|Hc]%Hold; [|by apply (rv_sound _ _ _ _ HV)].
    eapply rtc_l; [exact Hc|]. apply (rv_sound _ _ _ _ HV). left. left.
  - apply Hold. right. apply (rv_root _ _ _ _ HV).
  - intros c p HL. rewrite elem_of_union, elem_of_singleton. intros [->|Hp]; apply Hold; [by left|].
    right. by apply (rv_closed _ _ _ _ HV _ _ HL).
  - intros c [Hc|Hc]%Hold; [right; exists x; set_solver|].
    destruct (rv_parent _ _ _ _ HV c Hc) as [->|(p & ? & ?)]; [by left|]. right. exists p. set_solver.
Qed.

(** Unseen child grants plus the worklist bound the remaining rounds. *)
Definition unseen (st0 : InMemoryCapabilityAuthority) (D : gset string) (pending : list string) : gset string :=
  dom (au_grant_parents st0) ∖ (D ∪ list_to_set pending).

Lemma unseen_step st0 root D st x pending : tables st0 -> removed D st0 st ->
  revoking st0 root D (x :: pending) ->
  (size (unseen st0 ({[x]} ∪ D) ((revoke_one st x).2 ++ pending)) + length (revoke_one st x).2
   <= size (unseen st0 D (x :: pending)))%nat.
Proof.
  intros HI HR HV. assert (Hx : x ∉ D) by (apply (rv_disj _ _ _ _ HV); left).
  pose proof (pushed_spec st0 D st x) as Hpush.
  assert (Hnd : NoDup (revoke_one st x).2) by apply NoDup_elements.
  assert (Hlen : length (revoke_one st x).2 = size (list_to_set (C:=gset string) (revoke_one st x).2))
    by (by rewrite size_list_to_set).
  rewrite Hlen, <- size_union; unfold unseen.
  - apply subseteq_size. intros c. rewrite !elem_of_union, !elem_of_difference, !elem_of_list_to_set.
    rewrite list_to_set_app, list_to_set_cons. intros [Hc|Hc].
    + set_solver.
    + apply Hpush in Hc as [HL _]; [|done..]. split.
      * apply elem_of_dom. eauto.
      * destruct (pushed_fresh _ _ _ _ _ _ HI HV HL). set_solver.
  - rewrite list_to_set_app. set_solver.
Qed.

Lemma revoke_loop_spec st0 root : tables st0 -> forall fuel D st pending,
  removed D st0 st -> revoking st0 root D pending ->
  (size (unseen st0 D pending) + length pending <= fuel)%nat ->
  exists D' st', revoke_loop fuel st pending = Some st' /\ removed D' st0 st' /\ revoking st0 root D' [].
Proof.
  intros HI fuel. induction fuel as [|fuel IH]; intros D st pending HR HV Hsz.
  - destruct pending; [|simpl in Hsz; lia]. exists D, st. done.
  - destruct pending as [|x pending]; [exists D, st; done|].
    change (revoke_loop (S fuel) st (x :: pending))
      with (revoke_loop fuel (revoke_one st x).1 ((revoke_one st x).2 ++ pending)).
    apply (IH ({[x]} ∪ D)).
    + by apply revoke_one_removed.
    + by apply revoking_step.
    + pose proof (unseen_step _ _ _ _ _ _ HI HR HV). rewrite length_app. simpl in Hsz. lia.
Qed.

Lemma revoking_start st root : revoking st root ∅ [root].
Proof.
  constructor.
  - apply NoDup_singleton.
  - set_solver.
  - intros x [->%list_elem_of_singleton|?]; [apply rtc_refl|set_solver].
  - left. left.
  - set_solver.
  - intros x [->%list_elem_of_singleton|?]; [by left|set_solver].
Qed.

Lemma revoke_subtree_spec st root : tables st -> exists D st',
  revoke_subtree_locked st root = Some st' /\ removed D st st' /\
  (forall x, x ∈ D <-> rtc (link st) x root).
Proof.
  intros HI. destruct (revoke_loop_spec st root HI (S (size (au_grant_parents st))) ∅ st [root])
    as (D & st' & Hl & HR & HV); [apply removed_empty|apply revoking_start| |].
  - assert (size (unseen st ∅ [root]) <= size (au_grant_parents st))%nat; [|simpl; lia].
    rewrite <- size_dom. apply subseteq_size. unfold unseen. set_solver.
  - exists D, st'. split; [done|]. split; [done|]. intros x. split.
    + intros Hx. apply (rv_sound _ _ _ _ HV). by right.
    + intros Hr. induction Hr as [root|x p root Hxp _ IH].
      * destruct (rv_root _ _ _ _ HV) as [?%not_elem_of_nil|?]; done.
      * destruct (rv_closed _ _ _ _ HV _ _ Hxp (IH Hl HV)) as [?%not_elem_of_nil|?]; done.
Qed.

(** ** Preservation by the removals and by the activations *)

Definition down_closed (st : InMemoryCapabilityAuthority) (D : gset string) : Prop :=
  forall c p, link st c p -> p ∈ D -> c ∈ D.

Lemma removed_link D st0 st c p : removed D st0 st -> link st c p <-> link st0 c p /\ c ∉ D.
Proof. intros HR. unfold link. rewrite (rm_parents _ _ _ HR). destruct (decide (c ∈ D)); naive_solver. Qed.

Lemma removed_tables D st0 st : tables st0 -> removed D st0 st -> down_closed st0 D -> tables st.
Proof.
  intros HI HR HD. constructor.
  - intros id g. rewrite (rm_grants _ _ _ HR). case_decide; [done|]. apply (inv_ids _ HI).
  - intros id. rewrite (rm_grants _ _ _ HR), (rm_owners _ _ _ HR). case_decide; [done|]. apply (inv_owners _ HI).
  - intros o id. rewrite (rm_owned _ _ _ HR), (rm_owners _ _ _ HR), (inv_owned _ HI). case_decide; naive_solver.
  - intros c p [HL Hc]%(removed_link _ _ _ _ _ HR).
    assert (Hp : p ∉ D) by (intros Hp; by apply Hc, (HD _ _ HL)).
    rewrite !(rm_grants _ _ _ HR), !(rm_owners _ _ _ HR), !decide_False by done. by apply (inv_links _ HI).
  - intros c p. rewrite (removed_link _ _ _ _ _ HR), (rm_children _ _ _ HR), <- (inv_children _ HI).
    split; [|naive_solver]. intros [HL Hc]. split_and!; [done..|]. intros Hp. by apply Hc, (HD _ _ HL).
  - destruct (inv_acyclic _ HI) as [rank Hrank]. exists rank. intros c p [HL _]%(removed_link _ _ _ _ _ HR).
    by apply Hrank.
Qed.

Lemma removed_owners_current D st0 st : owners_current st0 -> removed D st0 st -> owners_current st.
Proof.
  intros HO HR id g o. rewrite (rm_grants _ _ _ HR), (rm_owners _ _ _ HR), (rm_active _ _ _ HR).
  case_decide; [done|]. apply HO.
Qed.

Lemma removed_trans D1 D2 st0 st1 st2 :
  removed D1 st0 st1 -> removed D2 st1 st2 -> removed (D1 ∪ D2) st0 st2.
Proof.
  intros H1 H2. constructor; intros.
  - rewrite (rm_grants _ _ _ H2), (rm_grants _ _ _ H1). repeat case_decide; set_solver.
  - rewrite (rm_owners _ _ _ H2), (rm_owners _ _ _ H1). repeat case_decide; set_solver.
  - by rewrite (rm_active _ _ _ H2), (rm_active _ _ _ H1).
  - rewrite (rm_owned _ _ _ H2), (rm_owned _ _ _ H1). set_solver.
  - rewrite (rm_parents _ _ _ H2), (rm_parents _ _ _ H1). repeat case_decide; set_solver.
  - rewrite (rm_children _ _ _ H2), (rm_children _ _ _ H1). set_solver.
Qed.

Lemma removed_rtc D st0 st x a : removed D st0 st -> down_closed st0 D -> x ∉ D ->
  rtc (link st) x a <-> rtc (link st0) x a.
Proof.
  intros HR HD Hx. split; intros Hr.
  - clear Hx. induction Hr as [|x y z Hxy _ IH]; [apply rtc_refl|].
    apply (removed_link _ _ _ _ _ HR) in Hxy as [Hxy _]. by eapply rtc_l.
  - induction Hr as [|x y z Hxy _ IH]; [apply rtc_refl|]. eapply rtc_l.
    + apply (removed_link _ _ _ _ _ HR). done.
    + apply IH. intros Hy. by apply Hx, (HD _ _ Hxy).
Qed.

Lemma down_closed_rtc st D x a : down_closed st D -> rtc (link st) x a -> x ∉ D -> a ∉ D.
Proof. intros HD Hr. induction Hr as [|x y z Hxy _ IH]; [done|]. intros Hx. apply IH. intros Hy. by apply Hx, (HD _ _ Hxy). Qed.

Lemma subtree_down_closed st D root :
  (forall x, x ∈ D <-> rtc (link st) x root) -> down_closed st D.
Proof. intros HD c p HL. rewrite !HD. intros Hr. by eapply rtc_l. Qed.

Lemma revoke_each_spec ids st : tables st -> exists D st',
  revoke_each st ids = Some st' /\ removed D st st' /\ down_closed st D /\
  (forall x, x ∈ D -> exists id, id ∈ ids /\ rtc (link st) x id) /\
  (forall id, id ∈ ids -> au_grants st' !! id = None).
Proof.
  revert st. induction ids as [|id ids IH]; intros st HI; simpl.
  { exists ∅, st. split_and!; [done|apply removed_empty|by intros ??? ?%not_elem_of_empty|set_solver..]. }
  destruct (au_grants st !! id) as [g|] eqn:Hg; simpl.
  - destruct (revoke_subtree_spec st id HI) as (D1 & st1 & Hrev & HR1 & HD1).
    pose proof (subtree_down_closed _ _ _ HD1) as Hdc1.
    rewrite Hrev. simpl. destruct (IH st1) as (D2 & st2 & Heach & HR2 & Hdc2 & Hsub & Hgone);
      [by eapply removed_tables|]. exists (D1 ∪ D2), st2. split_and!.
    + done.
    + by eapply removed_trans.
    + intros c p HL. rewrite !elem_of_union. intros [Hp|Hp]; [left; by eapply Hdc1|].
      destruct (decide (c ∈ D1)); [by left|]. right. apply (Hdc2 c p); [|done].
      apply (removed_link _ _ _ _ _ HR1). done.
    + intros x. rewrite elem_of_union. intros [Hx%HD1|Hx].
      * exists id. split; [left|done].
      * destruct (Hsub x Hx) as (i & Hi & Hr). exists i. split; [by right|].
        destruct (decide (x ∈ D1)) as [Hx1|Hx1].
        -- apply rtc_inv in Hr as [->|(y & Hl & _)].
           ++ apply rtc_refl.
           ++ apply (removed_link _ _ _ _ _ HR1) in Hl as [_ ?]. done.
        -- by apply (removed_rtc _ _ _ _ _ HR1).
    + intros i [->|Hi]%elem_of_cons; [|by apply Hgone].
      rewrite (rm_grants _ _ _ HR2), (rm_grants _ _ _ HR1), (decide_True (P := id ∈ D1));
        [by case_decide|]. apply HD1, rtc_refl.
  - destruct (IH st HI) as (D & st' & Heach & HR & Hdc & Hsub & Hgone).
    exists D, st'. split_and!; [done..| |].
    + intros x Hx. destruct (Hsub x Hx) as (i & Hi & Hr). exists i. split; [by right|done].
    + intros i [->|Hi]%elem_of_cons; [|by apply Hgone]. rewrite (rm_grants _ _ _ HR). by case_decide.
Qed.

Lemma revoke_ok st id b st' : tables st -> revoke st id = (Ok b, st') ->
  (b = false /\ au_grants st !! id = None /\ st' = st) \/
  (b = true /\ exists D, removed D st st' /\ (forall x, x ∈ D <-> rtc (link st) x id)).
Proof.
  intros HI. unfold revoke. destruct (au_grants st !! id) eqn:Hg; [|intros [= <- <-]; auto].
  destruct (revoke_subtree_spec st id HI) as (D & st1 & -> & HR & HD). intros [= <- <-]. right. eauto.
Qed.

Lemma revoke_inv st id b st' : inv st -> revoke st id = (Ok b, st') -> inv st'.
Proof.
  intros HI [(_ & _ & ->)|(_ & D & HR & HD)]%revoke_ok; [done| |apply HI]. constructor.
  - eapply removed_tables; [apply HI|done|]. by eapply subtree_down_closed.
  - eapply removed_owners_current; [apply HI|done].
Qed.

Lemma foldl_insert_lookup (o : string) (keys : list (string * string)) (m : gmap (string * string) string) k :
  foldl (fun m k => <[k := o]> m) m keys !! k = if decide (k ∈ keys) then Some o else m !! k.
Proof.
  revert m. induction keys as [|q keys IH]; intros m; simpl; [done|]. rewrite IH.
  destruct (decide (k ∈ keys)); [by rewrite decide_True by set_solver|].
  destruct (decide (k = q)) as [->|Hne].
  - by rewrite lookup_insert_eq, decide_True by set_solver.
  - by rewrite lookup_insert_ne, decide_False by set_solver.
Qed.

Lemma bind_ok st tenant products o u st' : bind_activation st tenant products o = (Ok u, st') ->
  let keys := (fun p => (tenant, p)) <$> products in
  Forall (fun k => au_active_owners st !! k = None) keys /\
  au_grants st' = au_grants st /\ au_grant_owners st' = au_grant_owners st /\
  au_grant_parents st' = au_grant_parents st /\ au_grant_children st' = au_grant_children st /\
  (forall k, au_active_owners st' !! k = if decide (k ∈ keys) then Some o else au_active_owners st !! k) /\
  (forall o', default ∅ (au_owner_grants st' !! o') = default ∅ (au_owner_grants st !! o')).
Proof.
  unfold bind_activation. intros H. case_match eqn:Hc; [|done]. injection H as _ <-. py_simpl.
  split_and!; try done.
  - match goal with Hf : forallb _ _ = true |- _ => rename Hf into Hall end.
    apply Forall_forall. intros k Hk. rewrite forallb_forall in Hall.
    specialize (Hall k (proj1 (list_elem_of_In _ _) Hk)). by destruct (au_active_owners st !! k).
  - apply foldl_insert_lookup.
  - intros o'. destruct (decide (o' = o)) as [->|]; [by rewrite lookup_insert_eq|by rewrite lookup_insert_ne].
Qed.

Lemma bind_inv st tenant products o u st' :
  inv st -> bind_activation st tenant products o = (Ok u, st') -> inv st'.
Proof.
  intros [HI HO] (Hfree & Hg & Ho & Hp & Hc & Ha & How)%bind_ok. constructor.
  - destruct HI. constructor; unfold link in *; rewrite ?Hg, ?Ho, ?Hp, ?Hc; try done.
    intros o' id. by rewrite How.
  - intros id g o'. rewrite Hg, Ho, Ha. intros Hid Hid'. specialize (HO _ _ _ Hid Hid').
    case_decide as Hin; [|done]. rewrite Forall_forall in Hfree. rewrite (Hfree _ Hin) in HO. done.
Qed.

(** Releasing erases exactly the grants issued under the released owner. *)
Lemma release_ok st o : inv st -> exists st', release_activation st o = (Ok tt, st') /\ inv st' /\
  (forall id, au_grants st' !! id =
     if decide (au_grant_owners st !! id = Some (Some o)) then None else au_grants st !! id) /\
  (forall id, au_grant_owners st !! id <> Some (Some o) ->
     au_grant_owners st' !! id = au_grant_owners st !! id /\ au_grant_parents st' !! id = au_grant_parents st !! id) /\
  (forall k, au_active_owners st' !! k = Some o -> False) /\
  (forall k o', o' <> o -> au_active_owners st' !! k = Some o' <-> au_active_owners st !! k = Some o').
Proof.
  intros [HI HO]. unfold release_activation.
  set (st1 := MkAuthority _ _ (filter _ _) _ _ _).
  assert (HI1 : tables st1) by (destruct HI; by constructor).
  destruct (revoke_each_spec (elements (default ∅ (au_owner_grants st !! o))) st1 HI1)
    as (D & st2 & -> & HR & Hdc & Hsub & Hgone).
  assert (Howned : forall x, x ∈ D -> au_grants st !! x <> None -> au_grant_owners st !! x = Some (Some o)).
  { intros x Hx Hg. destruct (Hsub x Hx) as (i & Hi & Hr). rewrite elem_of_elements, (inv_owned _ HI) in Hi.
    destruct (au_grants st !! x) as [g|] eqn:Hgx; [|done].
    destruct (ancestor_attenuates st1 x i g HI1 Hr Hgx) as (_ & _ & _ & Heq). simpl in Heq. congruence. }
  assert (Hgrants : forall id, au_grants st2 !! id =
     if decide (au_grant_owners st !! id = Some (Some o)) then None else au_grants st !! id).
  { intros id. case_decide as Hid.
    - apply Hgone. by rewrite elem_of_elements, (inv_owned _ HI).
    - rewrite (rm_grants _ _ _ HR). case_decide as HD; [|done].
      destruct (au_grants st !! id) eqn:E; [|done]. destruct Hid. apply Howned; [done|congruence]. }
  pose proof (removed_tables _ _ _ HI1 HR Hdc) as HI2.
  assert (Hnone : forall id, au_grant_owners st2 !! id <> Some (Some o)).
  { intros id Hid. assert (Hs : is_Some (au_grants st2 !! id)) by (apply (inv_owners _ HI2); eauto).
    rewrite Hgrants in Hs. case_decide as Hn; [by destruct Hs|]. apply Hn.
    rewrite (rm_owners _ _ _ HR) in Hid. by case_decide. }
  assert (Hact : forall k o', au_active_owners st2 !! k = Some o' <-> au_active_owners st !! k = Some o' /\ o' <> o).
  { intros k o'. rewrite (rm_active _ _ _ HR). simpl. rewrite map_lookup_filter_Some. done. }
  eexists. split; [done|]. split_and!; simpl; [|done| | |].
  - constructor.
    + destruct HI2. constructor; simpl; try done. intros o' id.
      destruct (decide (o' = o)) as [->|Hne]; [|rewrite lookup_delete_ne by done; auto].
      rewrite lookup_delete_eq. simpl. split; [set_solver|]. by intros ?%Hnone.
    + intros id g o' Hg Ho'. simpl in *. apply Hact. split; [|intros ->; by eapply Hnone].
      rewrite (rm_grants _ _ _ HR) in Hg. rewrite (rm_owners _ _ _ HR) in Ho'. case_decide; [done|]. by eapply HO.
  - intros id Hid. rewrite (rm_owners _ _ _ HR), (rm_parents _ _ _ HR). case_decide as HD; [|done].
    assert (Hng : au_grants st !! id = None).
    { destruct (au_grants st !! id) eqn:E; [|done]. destruct Hid. apply Howned; [done|congruence]. }
    split; symmetry; apply eq_None_not_Some.
    + rewrite (inv_owners _ HI), Hng. by intros [].
    + intros [p Hp]. destruct (link_grants _ _ _ HI Hp) as [[? ?] _]. congruence.
  - intros k Hk. by apply Hact in Hk as [_ ?].
  - intros k o' Hne. rewrite Hact. naive_solver.
Qed.

(** ** Reachable stores *)

Inductive step (st st' : InMemoryCapabilityAuthority) : Prop :=
| step_register g r : register_grant st g = (r, st') -> step st st'
| step_issue scope ids caps pr lifetime now token r :
    issue st scope ids caps pr lifetime now token = (r, st') -> step st st'
| step_issue_child parent scope ids caps pr lifetime now token r :
    issue_child st parent scope ids caps pr lifetime now token = (r, st') -> step st st'
| step_revoke id r : revoke st id = (r, st') -> step st st'
| step_bind tenant products o r : bind_activation st tenant products o = (r, st') -> step st st'
| step_release o r : release_activation st o = (r, st') -> step st st'.

Definition reachable (st : InMemoryCapabilityAuthority) : Prop := rtc step empty_authority st.

Lemma register_raise st g e st' : register_grant st g = (Raise e, st') -> st' = st.
Proof. unfold register_grant. case_match; congruence. Qed.

Lemma grants_step_inv st st' : inv st -> step st st' -> inv st'.
Proof.
  intros HI [g [[]|e] H|scope ids caps pr lifetime now token r H
    |parent scope ids caps pr lifetime now token [g|e] H|id [b|e] H|tenant products o [[]|e] H|o r H].
  - by eapply register_grant_inv.
  - by apply register_raise in H as ->.
  - unfold issue in H. case_match; [|by simplify_eq].
    destruct (register_grant st _) as [[[]|] st1] eqn:Hr; simplify_eq; [by eapply register_grant_inv|].
    by apply register_raise in Hr as ->.
  - by eapply issue_child_inv.
  - unfold issue_child in H. case_match; by simplify_eq.
  - by eapply revoke_inv.
  - unfold revoke in H. repeat case_match; by simplify_eq.
  - by eapply bind_inv.
  - unfold bind_activation in H. case_match; by simplify_eq.
  - destruct (release_ok st o HI) as (st1 & Hr & HI1 & _). congruence.
Qed.

Lemma grants_reachable_inv st : reachable st -> inv st.
Proof.
  unfold reachable. assert (forall s, rtc step s st -> inv s -> inv st) as Hgen.
  { induction 1 as [|x y z Hxy _ IH]; [done|]. intros Hx. apply IH. by eapply grants_step_inv. }
  intros Hr. apply (Hgen _ Hr), grants_inv_empty.
Qed.

(** ** Resolution *)

Lemma resolve_child st id now g : tables st -> is_Some (au_grant_parents st !! id) ->
  resolve st id now = Ok (Some g) <->
  au_grants st !! id = Some g /\ forall a, rtc (link st) id a -> node_live st now a = true.
Proof.
  intros HI [p Hp]. unfold resolve. destruct (au_grants st !! id) as [g'|]; [|naive_solver].
  rewrite Hp. destruct (grant_live_locked_spec st now id HI) as (b & -> & Hb).
  rewrite <- Hb. destruct b; naive_solver.
Qed.

Lemma resolve_root st id now : au_grant_parents st !! id = None ->
  resolve st id now = Ok (match au_grants st !! id with
    | None => None
    | Some g => if decide (grant_owner st id = au_active_owners st !! scope_key g) then Some g else None
    end).
Proof.
  intros Hp. unfold resolve. rewrite Hp. destruct (au_grants st !! id) as [g|]; [|done].
  destruct (au_active_owners st !! scope_key g) as [o|].
  - destruct (decide (grant_owner st id = Some o)) as [->|Hne].
    + by rewrite bool_decide_true.
    + by rewrite bool_decide_false.
  - by destruct (grant_owner st id).
Qed.

Lemma resolve_total st id now : tables st -> exists r, resolve st id now = Ok r /\
  (forall g, r = Some g -> au_grants st !! id = Some g).
Proof.
  intros HI. destruct (au_grant_parents st !! id) as [p|] eqn:Hp.
  - unfold resolve. destruct (au_grants st !! id) as [g|]; [|naive_solver]. rewrite Hp.
    destruct (grant_live_locked_spec st now id HI) as (b & -> & _). destruct b; naive_solver.
  - rewrite resolve_root by done. eexists. split; [done|].
    intros g. repeat case_match; naive_solver.
Qed.

Lemma node_live_resolves st now a ga : tables st -> au_grants st !! a = Some ga ->
  (forall b, rtc (link st) a b -> node_live st now b = true) -> resolve st a now = Ok (Some ga).
Proof.
  intros HI Hga Hall. destruct (au_grant_parents st !! a) as [p|] eqn:Hp.
  - apply resolve_child; eauto.
  - rewrite resolve_root, Hga by done. specialize (Hall a (rtc_refl _ _)).
    unfold node_live in Hall. rewrite Hga in Hall. py_simpl. by rewrite decide_True.
Qed.

(** Resolution only depends on the ancestors' grants, owners and activations. *)
Lemma resolve_ext st st' id now : tables st -> tables st' ->
  (forall a, rtc (link st) id a -> au_grants st' !! a = au_grants st !! a /\
     au_grant_parents st' !! a = au_grant_parents st !! a /\
     au_grant_owners st' !! a = au_grant_owners st !! a /\
     (forall g, au_grants st !! a = Some g -> au_active_owners st' !! scope_key g = au_active_owners st !! scope_key g)) ->
  resolve st' id now = resolve st id now.
Proof.
  intros HI HI' Heq. destruct (Heq id (rtc_refl _ _)) as (Hg & Hp & Ho & Ha).
  assert (Hrtc : forall a, rtc (link st') id a <-> rtc (link st) id a).
  { intros a. split; intros Hr.
    - apply rtc_ind_r with (P := rtc (link st) id) in Hr; [done|apply rtc_refl|].
      intros y z _ Hyz Hy. eapply rtc_r; [done|]. unfold link in *. by rewrite <- (proj1 (proj2 (Heq y Hy))).
    - apply (rtc_ind_r (fun a => rtc (link st) id a /\ rtc (link st') id a)) in Hr as [_ ?];
        [done|split; apply rtc_refl|].
      intros y z _ Hyz [Hy Hy']. split; (eapply rtc_r; [done|]); [done|]. unfold link in *.
      by rewrite (proj1 (proj2 (Heq y Hy))). }
  assert (Hlive : forall a, rtc (link st) id a -> node_live st' now a = node_live st now a).
  { intros a Hr. destruct (Heq a Hr) as (Hga & _ & Hoa & Haa). unfold node_live, grant_owner.
    rewrite Hga, Hoa. destruct (au_grants st !! a) as [g|]; [|done]. by rewrite (Haa g). }
  unfold resolve, grant_owner. rewrite Hg, Hp, Ho. destruct (au_grants st !! id) as [g|]; [|done].
  rewrite (Ha g) by done. destruct (au_grant_parents st !! id); [|done].
  destruct (grant_live_locked_spec st now id HI) as (b0 & -> & Hb0).
  destruct (grant_live_locked_spec st' now id HI') as (b & -> & Hb).
  assert (b = true <-> b0 = true) as Hbb; [|destruct b, b0; naive_solver].
  rewrite Hb, Hb0. split; intros Hall a Hr.
  - rewrite <- Hlive by done. by apply Hall, Hrtc.
  - apply Hrtc in Hr. rewrite Hlive by done. by apply Hall.
Qed.

(** Erasing a down-closed set leaves the other grants' resolution alone. *)
Lemma removed_resolve D st0 st x now : tables st0 -> removed D st0 st -> down_closed st0 D -> x ∉ D ->
  resolve st x now = resolve st0 x now.
Proof.
  intros HI HR HD Hx. apply resolve_ext; [done|by eapply removed_tables|].
  intros a Hr. assert (Ha : a ∉ D) by (by eapply down_closed_rtc).
  by rewrite (rm_grants _ _ _ HR), (rm_parents _ _ _ HR), (rm_owners _ _ _ HR), (rm_active _ _ _ HR),
    !decide_False by done.
Qed.

(** ** Properties *)

(** C6. In every store the operations can reach, a grant that resolves is no
    stronger than any of its ancestors: same tenant and product, tool
    identities and capabilities contained in the ancestor's, no later expiry,
    and the principal an ancestor names.  If the grant is a child grant, every
    ancestor is itself unexpired and still resolves. *)
Theorem resolved_grant_attenuates_ancestors st id now g a :
  reachable st -> resolve st id now = Ok (Some g) -> rtc (link st) id a ->
  exists ga, au_grants st !! a = Some ga /\ attenuates g ga /\
    (is_Some (au_grant_parents st !! id) ->
     now < cg_expires_at ga /\ resolve st a now = Ok (Some ga)).
Proof.
  intros [HI _]%grants_reachable_inv Hres Hr.
  assert (Hg : au_grants st !! id = Some g).
  { destruct (resolve_total st id now HI) as (r & Hr' & Hget). rewrite Hres in Hr'. injection Hr' as <-. auto. }
  destruct (ancestor_attenuates st id a g HI Hr Hg) as (ga & Hga & Hatt & _).
  exists ga. split_and!; [done..|]. intros Hp. apply (resolve_child _ _ _ _ HI Hp) in Hres as [_ Hall].
  split.
  - specialize (Hall a Hr). unfold node_live in Hall. rewrite Hga in Hall. py_simpl. lia.
  - apply node_live_resolves; [done..|]. intros b Hb. apply Hall. by etrans.
Qed.

(** C4. [revoke] answers [True] exactly for a stored grant, always finishes,
    and then the grant and all grants issued below it no longer resolve, while
    every other grant resolves as before. *)
Theorem revoke_kills_exactly_the_subtree st id :
  reachable st ->
  exists st', revoke st id = (Ok (bool_decide (is_Some (au_grants st !! id))), st') /\
    forall x now,
      (rtc (link st) x id -> resolve st' x now = Ok None) /\
      (~ rtc (link st) x id -> resolve st' x now = resolve st x now).
Proof.
  intros [HI _]%grants_reachable_inv. unfold revoke. destruct (au_grants st !! id) as [g|] eqn:Hg.
  - destruct (revoke_subtree_spec st id HI) as (D & st' & -> & HR & HD).
    rewrite bool_decide_true by eauto. exists st'. split; [done|]. intros x now. rewrite <- HD. split; intros Hx.
    + unfold resolve. by rewrite (rm_grants _ _ _ HR), decide_True.
    + eapply removed_resolve; [done..| |done]. by eapply subtree_down_closed.
  - exists st. split.
    + rewrite bool_decide_false; [done|]. by intros [].
    + intros x now. split; [|done]. intros [->|(y & Hl & Hy)]%rtc_inv.
      * unfold resolve. by rewrite Hg.
      * destruct (inv_links _ HI _ _ Hl) as (gc & _ & Hc & _).
        destruct (ancestor_attenuates st x id gc HI) as (? & ? & _); [by eapply rtc_l|done|congruence].
Qed.

(** Releasing an activation always completes; afterwards no product belongs to
    the owner, none of the grants issued under it resolves, and every grant
    issued under another activation resolves exactly as before. *)
Theorem release_revokes_the_owners_grants st o id now :
  reachable st ->
  exists st', release_activation st o = (Ok tt, st') /\
    (forall k, au_active_owners st' !! k <> Some o) /\
    (grant_owner st id = Some o -> resolve st' id now = Ok None) /\
    (forall o', o' <> o -> grant_owner st id = Some o' -> resolve st' id now = resolve st id now).
Proof.
  intros HI%grants_reachable_inv. destruct (release_ok st o HI) as (st' & Hrel & HI' & Hg & Ho & Hno & Hact).
  exists st'. split_and!; [done| | |].
  - intros k Hk. by eapply Hno.
  - intros Hown%grant_owner_Some. unfold resolve. by rewrite Hg, decide_True.
  - intros o' Hne Hown%grant_owner_Some. apply resolve_ext; [apply HI|apply HI'|]. intros a Hr.
    assert (is_Some (au_grants st !! id)) as [g Hid] by (apply (inv_owners _ HI); eauto).
    destruct (ancestor_attenuates st id a g HI Hr Hid) as (ga & Hga & _ & Hoa).
    assert (Hoa' : au_grant_owners st !! a = Some (Some o')) by congruence.
    destruct (Ho a) as [Ho1 Ho2]; [congruence|]. rewrite Hg, decide_False by congruence.
    split_and!; [done..|]. intros g' Hg'. assert (g' = ga) as -> by congruence.
    rewrite (inv_active _ HI _ _ _ Hga Hoa'). apply Hact; [done|]. by apply (inv_active _ HI _ _ _ Hga).
Qed.

(** Binding an activation makes every grant issued before the binding for
    one of its products unresolvable, root or child, without removing it. *)
Theorem bind_suspends_earlier_grants st tenant products o u st' id g now :
  reachable st -> bind_activation st tenant products o = (Ok u, st') ->
  au_grants st !! id = Some g -> scope_key g ∈ (fun p => (tenant, p)) <$> products ->
  au_grants st' !! id = Some g /\ resolve st' id now = Ok None.
Proof.
  intros HI%grants_reachable_inv Hbind Hg Hin. pose proof (bind_inv _ _ _ _ _ _ HI Hbind) as HI'.
  destruct (bind_ok _ _ _ _ _ _ Hbind) as (Hfree & Hgs & Ho & Hp & _ & Ha & _).
  assert (Hown : grant_owner st' id <> au_active_owners st' !! scope_key g).
  { rewrite Ha, decide_True by done. unfold grant_owner. rewrite Ho. intros Hown%grant_owner_Some.
    rewrite Forall_forall in Hfree. pose proof (inv_active _ HI _ _ _ Hg Hown) as HA.
    by rewrite (Hfree _ Hin) in HA. }
  split; [by rewrite Hgs|]. destruct (au_grant_parents st' !! id) as [p|] eqn:Hpar.
  - destruct (resolve_total st' id now HI') as ([g'|] & Hr & Hget); [|done]. exfalso. apply Hown.
    apply resolve_child in Hr as [Hg' Hall]; [|apply HI'|eauto].
    rewrite Hgs, Hg in Hg'. injection Hg' as <-. specialize (Hall id (rtc_refl _ _)).
    unfold node_live in Hall. rewrite Hgs, Hg in Hall. by py_simpl.
  - rewrite resolve_root, Hgs, Hg by done. by rewrite decide_False.
Qed.

(** ** A concrete store: an early unbound grant, an activation, a root grant
    issued under it and a child grant below that one. *)
Definition demo_scope : ScopePath := MkScopePath PRODUCT (Some "acme"%string) (Some "shop"%string) None None.
Definition demo_agent : ScopePath := MkScopePath AGENT (Some "acme"%string) (Some "shop"%string) (Some "clerk"%string) (Some "s1"%string).
Definition demo_tool : ToolIdentity := MkToolIdentity "product" "search" "scope:product:acme:shop" "1".

Definition demo_early : InMemoryCapabilityAuthority :=
  (issue empty_authority demo_scope {[demo_tool]} ∅ None 3600 (Aware 0) "early").2.
Definition demo_bound : InMemoryCapabilityAuthority :=
  (bind_activation demo_early "acme" ["shop"%string] "owner-1").2.
Definition demo_root : InMemoryCapabilityAuthority :=
  (issue demo_bound demo_scope {[demo_tool]} {["read"%string]} (Some "ann"%string) 3600 (Aware 0) "root").2.
Definition demo_store : InMemoryCapabilityAuthority :=
  (issue_child demo_root "grant-root" demo_agent {[demo_tool]} ∅ "ann" 60 10 "child").2.

Lemma demo_early_reachable : reachable demo_early.
Proof. eapply rtc_once, step_issue, surjective_pairing. Qed.

Lemma demo_store_reachable : reachable demo_store.
Proof.
  eapply rtc_r; [|eapply step_issue_child, surjective_pairing].
  eapply rtc_r; [|eapply step_issue, surjective_pairing].
  eapply rtc_r; [|eapply step_bind, surjective_pairing]. apply demo_early_reachable.
Qed.

Definition demo_early_grant : CapabilityGrant :=
  MkCapabilityGrant "grant-early" "acme" "shop" {[demo_tool]} ∅ None 0 3600.
Definition demo_child_grant : CapabilityGrant :=
  MkCapabilityGrant "grant-child" "acme" "shop" {[demo_tool]} ∅ (Some "ann"%string) 10 70.

Lemma resolved_grant_attenuates_ancestors_witness :
  exists ga, au_grants demo_store !! "grant-root"%string = Some ga /\ attenuates demo_child_grant ga.
Proof.
  destruct (resolved_grant_attenuates_ancestors demo_store "grant-child" 20 demo_child_grant "grant-root")
    as (ga & Hga & Hatt & _).
  - apply demo_store_reachable.
  - decide_by_vm.
  - apply rtc_once. unfold link. decide_by_vm.
  - exact (ex_intro _ ga (conj Hga Hatt)).
Defined.

Lemma revoke_kills_exactly_the_subtree_witness :
  exists st', revoke demo_store "grant-root" = (Ok true, st') /\ resolve st' "grant-child" 20 = Ok None.
Proof.
  destruct (revoke_kills_exactly_the_subtree demo_store "grant-root" demo_store_reachable) as (st' & Hrev & Hall).
  rewrite bool_decide_true in Hrev by decide_by_vm.
  exists st'. split; [exact Hrev|]. apply Hall. apply rtc_once. unfold link. decide_by_vm.
Defined.

Lemma release_revokes_the_owners_grants_witness :
  exists st', release_activation demo_store "owner-1" = (Ok tt, st') /\ resolve st' "grant-child" 20 = Ok None.
Proof.
  destruct (release_revokes_the_owners_grants demo_store "owner-1" "grant-child" 20 demo_store_reachable)
    as (st' & Hrel & _ & Hdead & _).
  exists st'. split; [exact Hrel|]. apply Hdead. decide_by_vm.
Defined.

Lemma bind_suspends_earlier_grants_witness :
  resolve demo_early "grant-early" 5 = Ok (Some demo_early_grant) /\
  au_grants demo_bound !! "grant-early"%string = Some demo_early_grant /\
  resolve demo_bound "grant-early" 5 = Ok None.
Proof.
  split; [decide_by_vm|].
  apply (bind_suspends_earlier_grants demo_early "acme" ["shop"%string] "owner-1" tt demo_bound
    "grant-early" demo_early_grant 5).
  - apply demo_early_reachable.
  - decide_by_vm.
  - decide_by_vm.
  - decide_by_vm.
Defined.
End Authority.
