(* ===== verification/Approvals.v ===== *)
(** * Approval credentials and the audit journal ([execution/in_memory.py])

    [InMemoryApprovalStore] keeps approvals under the SHA-256 digest of their
    bearer token and consumes them under its lock; [InMemoryAuditJournal] keeps
    serialised events.  The clock and the drawn tokens are arguments. *)
From S2P Require Import Prelude PyText Json Scopes ExecModels.
Open Scope Z_scope.

Module Approvals.
(** The store's state is its [_pending] table. *)
#[warnings="-notation-for-abbreviation"]
Notation InMemoryApprovalStore := (gmap string ApprovalBinding).

Section Store.
Context `{Hashing}.

(** The [while True] loop of [issue]: the first drawn token whose digest is free. *)
Fixpoint draw_token (st : InMemoryApprovalStore) (draws : list string) : option string :=
  match draws with
  | [] => None
  | token :: draws => if is_none (st !! sha256_hex token) then Some token else draw_token st draws
  end.

Definition issue (st : InMemoryApprovalStore) (binding : ApprovalBinding) (now : datetime)
    (draws : list string) : res ApprovalCredential * InMemoryApprovalStore :=
  let checked :=
    let! current := utc now in
    require ab_issued_at binding <=? current else ValueError ;;
    guard (current <? ab_expires_at binding) ValueError in
  match checked with
  | Raise e => (Raise e, st)
  | Ok _ =>
      match draw_token st draws with
      | None => (Raise OutOfFuel, st)
      | Some token => (approval_credential token binding, <[ sha256_hex token := binding ]> st)
      end
  end.

Definition consume_if_matches (st : InMemoryApprovalStore) (token : string) (expected : ApprovalTarget)
    (now : Z) : option ApprovalBinding * InMemoryApprovalStore :=
  let token_digest := sha256_hex token in
  match st !! token_digest with
  | None => (None, st)
  | Some binding =>
      if ab_expires_at binding <=? now then (None, delete token_digest st)
      else if bool_decide (ab_target binding = expected) then (Some binding, delete token_digest st)
      else (None, st)
  end.

Definition revoke (st : InMemoryApprovalStore) (token : string) : bool * InMemoryApprovalStore :=
  (negb (is_none (st !! sha256_hex token)), delete (sha256_hex token) st).

(** ** Histories of calls *)
Inductive call : Type :=
| CIssue (binding : ApprovalBinding) (now : datetime) (draws : list string)
| CConsume (token : string) (expected : ApprovalTarget) (now : Z)
| CRevoke (token : string).

(** What a call did to the store, in terms of token digests *)
Inductive event : Type :=
| Issued (digest : string) (binding : ApprovalBinding)
| Consumed (digest : string) (binding : ApprovalBinding) (expected : ApprovalTarget) (now : Z)
| Dropped (digest : string)   (** revoked, or presented after expiry *)
| NoEffect.

Definition perform (st : InMemoryApprovalStore) (c : call) : event * InMemoryApprovalStore :=
  match c with
  | CIssue binding now draws =>
      let '(r, st') := issue st binding now draws in
      (match draw_token st draws with
       | Some token => if decide (st' = st) then NoEffect else Issued (sha256_hex token) binding
       | None => NoEffect
       end, st')
  | CConsume token expected now =>
      match consume_if_matches st token expected now with
      | (Some binding, st') => (Consumed (sha256_hex token) binding expected now, st')
      | (None, st') => (if decide (st' = st) then NoEffect else Dropped (sha256_hex token), st')
      end
  | CRevoke token =>
      let '(_, st') := revoke st token in (Dropped (sha256_hex token), st')
  end.

(** The history of a sequence of calls on a store, oldest first *)
Fixpoint history (st : InMemoryApprovalStore) (calls : list call) : list event * InMemoryApprovalStore :=
  match calls with
  | [] => ([], st)
  | c :: calls =>
      let '(e, st') := perform st c in
      let '(h, st'') := history st' calls in (e :: h, st'')
  end.

(** The event takes the approval stored under [digest] out of the store. *)
Definition removes (digest : string) (e : event) : Prop :=
  match e with
  | Consumed d _ _ _ | Dropped d => d = digest
  | _ => False
  end.

Lemma draw_token_fresh st draws token : draw_token st draws = Some token -> st !! sha256_hex token = None.
Proof.
  induction draws as [|t draws IH]; simpl; [done|]. destruct (st !! sha256_hex t) eqn:E; simpl; [done|].
  intros [= <-]. done.
Qed.

(** The three ways [issue] can end. *)
Lemma issue_cases st binding now draws r st' : issue st binding now draws = (r, st') ->
  st' = st \/
  exists token, draw_token st draws = Some token /\ st' = <[ sha256_hex token := binding ]> st /\
    exists t, utc now = Ok t /\ ab_issued_at binding <= t < ab_expires_at binding.
Proof.
  unfold issue. intros E. case_match eqn:Hc; [|left; congruence].
  destruct (draw_token st draws) as [token|]; [|left; congruence]. right. exists token.
  injection E as _ <-. py_simpl. split_and!; [done..|]. eexists. split; [done|]. lia.
Qed.

(** Every pending approval was issued and not removed since. *)
Definition backed (h : list event) (st : InMemoryApprovalStore) : Prop :=
  forall d b, st !! d = Some b ->
    exists h1 h2, h = (h1 ++ Issued d b :: h2)%list /\ Forall (fun e => ~ removes d e) h2.

Lemma backed_extend h st e st' :
  backed h st ->
  (forall d b, st' !! d = Some b -> (e = Issued d b) \/ (st !! d = Some b /\ ~ removes d e)) ->
  backed (h ++ [e]) st'.
Proof.
  intros HB Hstep d b Hd. destruct (Hstep d b Hd) as [->|[Hold Hrm]].
  - exists h, []. split; [done|constructor].
  - destruct (HB d b Hold) as (h1 & h2 & -> & Hall). exists h1, (h2 ++ [e])%list.
    split; [by rewrite <- app_assoc|]. apply Forall_app. by repeat constructor.
Qed.

Lemma consume_cases st token expected now r st' : consume_if_matches st token expected now = (r, st') ->
  (r = None /\ st' = st) \/
  (r = None /\ st' = delete (sha256_hex token) st) \/
  (exists b, r = Some b /\ st' = delete (sha256_hex token) st /\ st !! sha256_hex token = Some b /\
     ab_target b = expected /\ now < ab_expires_at b).
Proof.
  unfold consume_if_matches. destruct (st !! sha256_hex token) as [b|] eqn:E; [|intros [= <- <-]; auto].
  destruct (Z.leb_spec (ab_expires_at b) now); [intros [= <- <-]; auto|].
  case_bool_decide; intros [= <- <-]; [|auto]. right. right. exists b. split_and!; done.
Qed.

Lemma perform_backed h st c e st' : backed h st -> perform st c = (e, st') -> backed (h ++ [e]) st'.
Proof.
  intros HB E. apply (backed_extend h st); [done|]. intros d b Hd. destruct c as [binding now draws|token expected now|token]; simpl in E.
  - destruct (issue st binding now draws) as [r st1] eqn:Hi.
    destruct (issue_cases _ _ _ _ _ _ Hi) as [->|(token & Hdraw & -> & _)].
    + destruct (draw_token st draws); [rewrite decide_True in E by done|]; injection E as <- <-;
      right; (split; [done|by intros []]).
    + rewrite Hdraw in E. pose proof (draw_token_fresh _ _ _ Hdraw) as Hf.
      case_decide as Heq.
      { pose proof (lookup_insert_eq st (sha256_hex token) binding) as Hi'. rewrite Heq in Hi'. congruence. }
      injection E as <- <-. apply lookup_insert_Some in Hd as [[<- <-]|[_ ?]]; [by left|].
      right. split; [done|by intros []].
  - destruct (consume_if_matches st token expected now) as [r st1] eqn:Hc.
    destruct (consume_cases _ _ _ _ _ _ Hc) as [[-> ->]|[[-> ->]|(b' & -> & -> & _)]].
    + rewrite decide_True in E by done. injection E as <- <-. right. split; [done|by intros []].
    + case_decide as Hsame; injection E as <- <-; right.
      * rewrite Hsame in Hd. split; [done|by intros []].
      * apply lookup_delete_Some in Hd as [Hne ?]. by split.
    + injection E as <- <-. right. apply lookup_delete_Some in Hd as [Hne ?]. by split.
  - injection E as <- <-. right. apply lookup_delete_Some in Hd as [Hne ?]. by split.
Qed.

Lemma history_snoc st calls c : history st (calls ++ [c]) =
  let '(h, st1) := history st calls in let '(e, st2) := perform st1 c in (h ++ [e], st2)%list.
Proof.
  revert st. induction calls as [|c' calls IH]; intros st; simpl; [by destruct (perform st c)|].
  destruct (perform st c') as [e st1]. rewrite IH.
  destruct (history st1 calls) as [h st2]. by destruct (perform st2 c).
Qed.

Lemma history_backed calls h st : history ∅ calls = (h, st) -> backed h st.
Proof.
  revert h st. induction calls as [|c calls IH] using rev_ind; intros h st.
  - intros [= <- <-] d b. by rewrite lookup_empty.
  - rewrite history_snoc. destruct (history ∅ calls) as [h1 st1] eqn:E.
    destruct (perform st1 c) as [e st2] eqn:Hp. intros [= <- <-].
    apply (perform_backed h1 st1 c); [by apply IH|done].
Qed.
End Store.

(** ** Properties *)

(** C7. An approval authorises at most one effect, and only the one it was
    issued for.  In any history of issue, consume and revoke calls, every
    successful consumption returns a binding issued earlier under that token's
    digest, for exactly the expected target and unexpired at that moment, and
    since that issue no other call consumed, revoked or expired it. *)
Theorem approval_consumed_once_for_its_target `{Hashing} calls token expected now b h st st' :
  history ∅ calls = (h, st) -> consume_if_matches st token expected now = (Some b, st') ->
  ab_target b = expected /\ now < ab_expires_at b /\ st' !! sha256_hex token = None /\
  exists h1 h2, h = (h1 ++ Issued (sha256_hex token) b :: h2)%list /\
    Forall (fun e => ~ removes (sha256_hex token) e) h2.
Proof.
  intros Hh Hc. destruct (consume_cases _ _ _ _ _ _ Hc) as [[[=] _]|[[[=] _]|(b' & [= <-] & -> & Hst & Ht & Hn)]].
  split_and!; [done..|by rewrite lookup_delete_eq|]. by apply (history_backed _ _ _ Hh).
Qed.

(** A wrong presentation does not burn the legitimate approval: after any
    number of consumption attempts before its expiry, for other targets or with
    tokens of other digests, the right presentation still succeeds. *)
Theorem misuse_does_not_burn `{Hashing} st token b attempts now :
  st !! sha256_hex token = Some b -> now < ab_expires_at b ->
  Forall (fun '(t, expected, n) => n < ab_expires_at b /\
    (expected <> ab_target b \/ sha256_hex t <> sha256_hex token)) attempts ->
  let st' := foldl (fun s '(t, expected, n) => (consume_if_matches s t expected n).2) st attempts in
  consume_if_matches st' token (ab_target b) now = (Some b, delete (sha256_hex token) st').
Proof.
  intros Hst Hn Hall st'. assert (Hkeep : st' !! sha256_hex token = Some b).
  { subst st'. revert st Hst. induction Hall as [|[[t expected] n] attempts [Hlt Hne] _ IH]; intros st Hst; simpl; [done|].
    apply IH. destruct (consume_if_matches st t expected n) as [r st1] eqn:Hc. simpl.
    unfold consume_if_matches in Hc. destruct (decide (sha256_hex t = sha256_hex token)) as [Heq|Hd].
    - rewrite Heq, Hst in Hc. destruct (Z.leb_spec (ab_expires_at b) n); [lia|].
      rewrite bool_decide_false in Hc by naive_solver. congruence.
    - repeat case_match; simplify_eq; rewrite ?lookup_delete_ne by done; done. }
  unfold consume_if_matches. rewrite Hkeep. destruct (Z.leb_spec (ab_expires_at b) now); [lia|].
  by rewrite bool_decide_true.
Qed.

(** ** Concrete histories *)
#[local] Instance demo_hash : Hashing := fun t => t.
Definition demo_target : ApprovalTarget :=
  MkApprovalTarget (MkScopePath PRODUCT (Some "acme"%string) (Some "shop"%string) None None) "ann" "run-1" "call-1"
    (MkToolIdentity "product" "refund" "scope:product:acme:shop" "1") "digest".
Definition demo_other : ApprovalTarget :=
  MkApprovalTarget (at_scope demo_target) "bob" "run-1" "call-1" (at_tool_identity demo_target) "digest".
Definition demo_binding : ApprovalBinding := MkApprovalBinding demo_target "chief" 0 100.
Definition demo_calls : list call :=
  [CIssue demo_binding (Aware 5) ["token-0123456789-0123456789-01234"%string];
   CConsume "token-0123456789-0123456789-01234" demo_other 6].
Definition demo_history : list event * InMemoryApprovalStore := history ∅ demo_calls.

Lemma approval_consumed_once_for_its_target_witness :
  exists h1 h2, demo_history.1 = (h1 ++ Issued "token-0123456789-0123456789-01234" demo_binding :: h2)%list.
Proof.
  destruct (approval_consumed_once_for_its_target demo_calls "token-0123456789-0123456789-01234" demo_target 7
    demo_binding demo_history.1 demo_history.2
    (consume_if_matches demo_history.2 "token-0123456789-0123456789-01234" demo_target 7).2)
    as (_ & _ & _ & h1 & h2 & Hh & _).
  - apply surjective_pairing.
  - decide_by_vm.
  - exact (ex_intro _ h1 (ex_intro _ h2 Hh)).
Defined.

Lemma misuse_does_not_burn_witness :
  exists st', consume_if_matches st' "token-0123456789-0123456789-01234" (ab_target demo_binding) 8
    = (Some demo_binding, delete (sha256_hex "token-0123456789-0123456789-01234") st').
Proof.
  eexists. apply (misuse_does_not_burn demo_history.2 "token-0123456789-0123456789-01234" demo_binding
    [("token-0123456789-0123456789-01234"%string, demo_other, 7)] 8).
  - decide_by_vm.
  - reflexivity.
  - constructor; [|constructor]. split; [reflexivity|left; discriminate].
Defined.
End Approvals.
