(* ===== verification/Prog.v ===== *)
(** * Effectful programs and their traces

    Trusted code that awaits other components is a program tree: it returns,
    raises, or asks a question of its environment and continues with the
    answer.  The environment is arbitrary; a trace lists the questions together
    with the answers they got.  A task can be cancelled at any [await], so a
    trace may also stop before the program ends ([Cut]). *)
From S2P Require Import Prelude.

Section Prog.
Context {Q : Type} {ans : Q -> Type}.

#[warnings="-register-all"]
Inductive prog (A : Type) : Type :=
| Ret (a : A)
| Throw (e : exn)
| Call (q : Q) (k : ans q -> prog A).
Arguments Ret {A} a.
Arguments Throw {A} e.
Arguments Call {A} q k.

Definition ask (q : Q) : prog (ans q) := Call q Ret.

Fixpoint bind {A B : Type} (p : prog A) (f : A -> prog B) : prog B :=
  match p with
  | Ret a => f a
  | Throw e => Throw e
  | Call q k => Call q (fun a => bind (k a) f)
  end.

(** [except Exception]: everything but a cancellation *)
Definition catchable (e : exn) : bool := negb (bool_decide (e = CancelledError)).

Fixpoint catch {A : Type} (p : prog A) (h : exn -> prog A) : prog A :=
  match p with
  | Ret a => Ret a
  | Throw e => if catchable e then h e else Throw e
  | Call q k => Call q (fun a => catch (k a) h)
  end.

(** [except asyncio.CancelledError] *)
Fixpoint on_cancel {A : Type} (p : prog A) (h : prog A) : prog A :=
  match p with
  | Ret a => Ret a
  | Throw e => if decide (e = CancelledError) then h else Throw e
  | Call q k => Call q (fun a => on_cancel (k a) h)
  end.

(** [try: p finally: f] *)
Fixpoint finally {A : Type} (p : prog A) (f : prog unit) : prog A :=
  match p with
  | Ret a => bind f (fun _ => Ret a)
  | Throw e => bind f (fun _ => Throw e)
  | Call q k => Call q (fun a => finally (k a) f)
  end.

Definition lift {A : Type} (r : res A) : prog A :=
  match r with Ok a => Ret a | Raise e => Throw e end.

(** ** Traces *)
Definition event : Type := { q : Q & ans q }.

Inductive outcome (A : Type) : Type :=
| Done (a : A)
| Thrown (e : exn)
| Cut.
Arguments Done {A} a.
Arguments Thrown {A} e.
Arguments Cut {A}.

Fixpoint run_to {A : Type} (p : prog A) (t : list event) (o : outcome A) : Prop :=
  match p with
  | Ret a => t = [] /\ (o = Done a \/ o = Cut)
  | Throw e => t = [] /\ (o = Thrown e \/ o = Cut)
  | Call q k =>
      (t = [] /\ o = Cut) \/
      exists (a : ans q) t', t = existT q a :: t' /\ run_to (k a) t' o
  end.

(** Running a program against a stateful environment *)
Fixpoint interp {A S : Type} (env : forall q : Q, S -> ans q * S) (p : prog A) (s : S) :
    list event * outcome A * S :=
  match p with
  | Ret a => ([], Done a, s)
  | Throw e => ([], Thrown e, s)
  | Call q k =>
      let '(a, s1) := env q s in
      let '(t, o, s2) := interp env (k a) s1 in
      (existT q a :: t, o, s2)
  end.

Lemma interp_run_to {A S : Type} (env : forall q : Q, S -> ans q * S) (p : prog A) s :
  run_to p (interp env p s).1.1 (interp env p s).1.2.
Proof.
  revert s. induction p as [a|e|q k IH]; intros s; simpl; auto.
  destruct (env q s) as [a s1]. specialize (IH a s1).
  destruct (interp env (k a) s1) as [[t o] s2]. simpl in *. right. eauto.
Qed.

(** A program can be stopped after any prefix of its trace. *)
Lemma run_to_take {A : Type} (p : prog A) t o n : run_to p t o -> run_to p (take n t) Cut.
Proof.
  revert t n. induction p as [a|e|q k IH]; intros t n; simpl.
  - intros [-> _]. rewrite take_nil. auto.
  - intros [-> _]. rewrite take_nil. auto.
  - intros [[-> ->]|(a & t' & -> & Hrun)]; [rewrite take_nil; auto|].
    destruct n as [|n]; simpl; [auto|]. right. exists a, (take n t'). split; [done|]. by eapply IH.
Qed.

(** ** Reasoning about all traces

    [wp I p h R E]: started after the history [h] (newest event first), every
    event of [p] satisfies [I] with respect to the history before it; if [p]
    returns [a] then [R a], and if it raises [e] then [E e], holds of the
    history at that point. *)
Fixpoint wp {A : Type} (I : list event -> event -> Prop) (p : prog A) (h : list event)
    (R : A -> list event -> Prop) (E : exn -> list event -> Prop) : Prop :=
  match p with
  | Ret a => R a h
  | Throw e => E e h
  | Call q k => forall a, I h (existT q a) /\ wp I (k a) (existT q a :: h) R E
  end.

Lemma wp_bind {A B : Type} I (p : prog A) (f : A -> prog B) h R E :
  wp I p h (fun a h' => wp I (f a) h' R E) E -> wp I (bind p f) h R E.
Proof.
  revert h. induction p as [a|e|q k IH]; intros h Hwp; simpl in *; [done..|].
  intros a. destruct (Hwp a). eauto.
Qed.

Lemma wp_mono {A : Type} (I I' : list event -> event -> Prop) (p : prog A) h R R' E E' :
  (forall h e, I h e -> I' h e) -> (forall a h, R a h -> R' a h) -> (forall e h, E e h -> E' e h) ->
  wp I p h R E -> wp I' p h R' E'.
Proof.
  intros HI HR HE. revert h. induction p as [a|e|q k IH]; intros h Hwp; simpl in *; [auto..|].
  intros a. destruct (Hwp a). eauto.
Qed.

Lemma wp_catch {A : Type} I (p : prog A) f h R E :
  wp I p h R (fun e h' => if catchable e then wp I (f e) h' R E else E e h') ->
  wp I (catch p f) h R E.
Proof.
  revert h. induction p as [a|e|q k IH]; intros h Hwp; simpl in *; [done|by destruct (catchable e)|].
  intros a. destruct (Hwp a). eauto.
Qed.

Lemma wp_on_cancel {A : Type} I (p : prog A) k h R E :
  wp I p h R (fun e h' => if decide (e = CancelledError) then wp I k h' R E else E e h') -> wp I (on_cancel p k) h R E.
Proof.
  revert h. induction p as [a|e|q k' IH]; intros h Hwp; simpl in *; [done|by destruct (decide (e = CancelledError))|].
  intros a. destruct (Hwp a). eauto.
Qed.

Lemma wp_finally {A : Type} I (p : prog A) f h R E :
  wp I p h (fun a h' => wp I f h' (fun _ h'' => R a h'') E) (fun e h' => wp I f h' (fun _ h'' => E e h'') E) -> wp I (finally p f) h R E.
Proof.
  revert h. induction p as [a|e|q k IH]; intros h Hwp; simpl in *; [by apply wp_bind..|]. intros a. destruct (Hwp a). eauto.
Qed.

(** Two postconditions are one. *)
Lemma wp_and {A : Type} I (p : prog A) h (R R' : A -> list event -> Prop) (E E' : exn -> list event -> Prop) :
  wp I p h R E -> wp I p h R' E' -> wp I p h (fun a h' => R a h' /\ R' a h') (fun e h' => E e h' /\ E' e h').
Proof.
  revert h. induction p as [a|e|q k IH]; intros h H1 H2; simpl in *; [done..|]. intros a. destruct (H1 a), (H2 a). eauto.
Qed.

Lemma wp_lift {A : Type} I (r : res A) h R E :
  (forall a, r = Ok a -> R a h) -> (forall e, r = Raise e -> E e h) -> wp I (lift r) h R E.
Proof. destruct r; simpl; eauto. Qed.

Lemma wp_ask I (q : Q) h R E :
  (forall a, I h (existT q a) /\ R a (existT q a :: h)) -> wp I (ask q) h R E.
Proof. done. Qed.

(** What [wp] promises about the traces *)
Theorem wp_sound {A : Type} I (p : prog A) h R E t o :
  wp I p h R E -> run_to p t o ->
  (forall t1 e t2, t = t1 ++ e :: t2 -> I (reverse t1 ++ h) e) /\
  match o with
  | Done a => R a (reverse t ++ h)
  | Thrown e => E e (reverse t ++ h)
  | Cut => True
  end.
Proof.
  revert h t. induction p as [a|e|q k IH]; intros h t Hwp Hrun; simpl in *.
  - destruct Hrun as [-> Ho]. split; [by intros [] ? ?|]. by destruct Ho as [->| ->].
  - destruct Hrun as [-> Ho]. split; [by intros [] ? ?|]. by destruct Ho as [->| ->].
  - destruct Hrun as [[-> ->]|(a & t' & -> & Hrun)]; [split; [by intros [] ? ?|done]|].
    destruct (Hwp a) as [HI Hwp']. destruct (IH a _ _ Hwp' Hrun) as [Hall Hend].
    rewrite reverse_cons, <- app_assoc. simpl. split; [|done].
    intros [|e1 t1] e t2 Heq; simpl in Heq; simplify_eq; [done|].
    rewrite reverse_cons, <- app_assoc. simpl. by apply (Hall t1 e t2).
Qed.
(** ** Programs all of whose events satisfy a predicate *)
Fixpoint all {A : Type} (P : event -> Prop) (p : prog A) : Prop :=
  match p with
  | Ret _ | Throw _ => True
  | Call q k => forall a, P (existT q a) /\ all P (k a)
  end.

Lemma all_bind {A B : Type} P (p : prog A) (f : A -> prog B) :
  all P p -> (forall a, all P (f a)) -> all P (bind p f).
Proof.
  intros Hp Hf. induction p as [a|e|q k IH]; simpl in *; [done..|]. intros a. destruct (Hp a). auto.
Qed.

Lemma all_catch {A : Type} P (p : prog A) f :
  all P p -> (forall e, all P (f e)) -> all P (catch p f).
Proof.
  intros Hp Hf. induction p as [a|e|q k IH]; simpl in *; [done|by destruct (catchable e)|].
  intros a. destruct (Hp a). auto.
Qed.

Lemma all_lift {A : Type} P (r : res A) : all P (lift r).
Proof. by destruct r. Qed.

Lemma all_bind_lift {A B : Type} P (r : res A) (f : A -> prog B) :
  (forall a, r = Ok a -> all P (f a)) -> all P (bind (lift r) f).
Proof. destruct r; simpl; auto. Qed.

Lemma all_ask P (q : Q) : (forall a, P (existT q a)) -> all P (ask q).
Proof. intros HP a. split; [apply HP|done]. Qed.

Lemma all_mono {A : Type} (P P' : event -> Prop) (p : prog A) :
  (forall e, P e -> P' e) -> all P p -> all P' p.
Proof.
  intros HP Hp. induction p as [a|e|q k IH]; simpl in *; [done..|]. intros a. destruct (Hp a). auto.
Qed.

Lemma wp_all {A : Type} I P (p : prog A) h (R : A -> list event -> Prop) E :
  all P p -> (forall h e, P e -> I h e) ->
  (forall a l, Forall P l -> R a (l ++ h)) -> (forall e l, Forall P l -> E e (l ++ h)) ->
  wp I p h R E.
Proof.
  intros Hp HI. revert h. induction p as [a|e|q k IH]; intros h HR HE; simpl in *.
  - by apply (HR a []).
  - by apply (HE e []).
  - intros a. destruct (Hp a) as [HPa Hk]. split; [by apply HI|]. apply IH; [done|..].
    + intros b l Hl. specialize (HR b (l ++ [existT q a])). rewrite <- app_assoc in HR. apply HR.
      apply Forall_app. by repeat constructor.
    + intros e l Hl. specialize (HE e (l ++ [existT q a])). rewrite <- app_assoc in HE. apply HE.
      apply Forall_app. by repeat constructor.
Qed.

(** The condition on events can be exchanged for one that the questions satisfy. *)
Lemma wp_change {A : Type} I I' P (p : prog A) h (R : A -> list event -> Prop) E :
  wp I p h R E -> all P p -> (forall h e, P e -> I' h e) -> wp I' p h R E.
Proof.
  intros Hwp Hp HI'. revert h Hwp. induction p as [a|e|q k IH]; intros h Hwp; simpl in *; [done..|].
  intros a. destruct (Hwp a), (Hp a). auto.
Qed.

(** The two ways of reasoning combined: [wp] plus what the added events are *)
Lemma wp_and_all {A : Type} I P (p : prog A) h (R : A -> list event -> Prop) E :
  all P p -> wp I p h R E ->
  wp I p h (fun a h' => R a h' /\ exists l, h' = l ++ h /\ Forall P l)
    (fun e h' => E e h' /\ exists l, h' = l ++ h /\ Forall P l).
Proof.
  intros Hp Hwp. assert (Hgen : forall h0 l0, h0 = l0 ++ h -> Forall P l0 -> wp I p h0 R E ->
    wp I p h0 (fun a h' => R a h' /\ exists l, h' = l ++ h /\ Forall P l)
      (fun e h' => E e h' /\ exists l, h' = l ++ h /\ Forall P l)); [|by apply (Hgen h [])].
  clear Hwp. induction p as [a|e|q k IH]; intros h0 l0 Hh0 Hl0 Hwp; simpl in *; [by eauto..|].
  intros a. destruct (Hwp a) as [HI Hwp']. destruct (Hp a) as [HPa Hk]. split; [done|].
  apply (IH a Hk _ (existT q a :: l0)); [by rewrite Hh0|by constructor|done].
Qed.
End Prog.

Arguments prog {Q} ans A.
Arguments Ret {Q ans A} a.
Arguments Throw {Q ans A} e.
Arguments Call {Q ans A} q k.
Arguments event {Q} ans.
Arguments Done {A} a.
Arguments Thrown {A} e.
Arguments Cut {A}.

#[global] Arguments wp : simpl never.
#[global] Arguments bind : simpl never.
#[global] Arguments all : simpl never.
#[global] Arguments catch : simpl never.
#[global] Arguments on_cancel : simpl never.
#[global] Arguments finally : simpl never.

Declare Scope prog_scope.
Delimit Scope prog_scope with prog.
Notation "x <-- p ;; k" := (bind p (fun x => k))
  (at level 100, p at next level, right associativity) : prog_scope.
Notation "p ;;; k" := (bind p (fun _ => k)) (at level 100, right associativity) : prog_scope.
Notation "q ~> a" := (existT q a) (at level 60) : prog_scope.
Open Scope prog_scope.
