(* ===== verification/Tasks.v ===== *)
(** * Raising programs with local variables

    The handler of a [try] block reads the locals the block had when it was left,
    and exceptions carry data: a task passes its locals through a [prog] and
    returns or raises.  With a weakest-precondition calculus over [wp]. *)
From S2P Require Import Prelude Prog.
Open Scope list_scope.

Module Tasks.
Section Task.
Context {Q : Type} {ans : Q -> Type} {L X : Type}.

Definition task (A : Type) : Type := L -> prog ans (L * (X + A)).

Definition ret {A : Type} (a : A) : task A := fun l => Ret (l, inr a).
Definition raise {A : Type} (x : X) : task A := fun l => Ret (l, inl x).
Definition mbind {A B : Type} (m : task A) (k : A -> task B) : task B := fun l =>
  bind (m l) (fun r => match r.2 with inl x => Ret (r.1, inl x) | inr a => k a r.1 end).
(** [try: m except BaseException as exc: h(exc)] *)
Definition mcatch {A : Type} (m : task A) (h : X -> task A) : task A := fun l =>
  bind (m l) (fun r => match r.2 with inl x => h x r.1 | inr a => Ret (r.1, inr a) end).
Definition rethrow {A : Type} (m : task A) (f : X -> X) : task A := mcatch m (fun x => raise (f x)).
Definition update (f : L -> L) : task unit := fun l => Ret (f l, inr tt).
Definition gets {A : Type} (f : L -> A) : task A := fun l => Ret (l, inr (f l)).
Definition of_sum {A : Type} (r : X + A) : task A := match r with inl x => raise x | inr a => ret a end.
(** [try: m finally: f()] *)
Definition mfinally {A : Type} (m : task A) (f : task unit) : task A := fun l =>
  bind (m l) (fun r => bind (f r.1) (fun r' => match r'.2 with inl x => Ret (r'.1, inl x) | inr _ => Ret (r'.1, r.2) end)).
Definition raised (a : option X) : X + unit := match a with None => inr tt | Some x => inl x end.

Fixpoint foreach {A B : Type} (f : B -> A -> task B) (b : B) (l : list A) : task B :=
  match l with
  | [] => ret b
  | a :: l => mbind (f b a) (fun b => foreach f b l)
  end.

(** ** Weakest preconditions *)
Abbreviation ev := (event ans).

Definition mwp {A : Type} (I : list ev -> ev -> Prop) (m : task A) (l : L) (h : list ev)
    (R : A -> L -> list ev -> Prop) (E : X -> L -> list ev -> Prop) : Prop :=
  wp I (m l) h (fun r h' => match r.2 with inr a => R a r.1 h' | inl x => E x r.1 h' end) (fun _ _ => False).

Lemma mwp_bind {A B : Type} I (m : task A) (k : A -> task B) l h R E :
  mwp I m l h (fun a l' h' => mwp I (k a) l' h' R E) E -> mwp I (mbind m k) l h R E.
Proof.
  intros Hm. unfold mwp. apply wp_bind. refine (wp_mono _ _ _ _ _ _ _ _ _ _ _ Hm); [auto| |auto]. intros [l' [x|a]] h' Hr; exact Hr.
Qed.

Lemma mwp_catch {A : Type} I (m : task A) k l h R E :
  mwp I m l h R (fun x l' h' => mwp I (k x) l' h' R E) -> mwp I (mcatch m k) l h R E.
Proof.
  intros Hm. unfold mwp. apply wp_bind. refine (wp_mono _ _ _ _ _ _ _ _ _ _ _ Hm); [auto| |auto]. intros [l' [x|a]] h' Hr; exact Hr.
Qed.

Lemma mwp_finally {A : Type} I (m : task A) (f : task unit) l h (R : A -> L -> list ev -> Prop) (E : X -> L -> list ev -> Prop) :
  mwp I m l h (fun a l' h' => mwp I f l' h' (fun _ l2 h2 => R a l2 h2) E) (fun x l' h' => mwp I f l' h' (fun _ l2 h2 => E x l2 h2) E) ->
  mwp I (mfinally m f) l h R E.
Proof.
  intros Hm. unfold mwp. apply wp_bind. refine (wp_mono _ _ _ _ _ _ _ _ _ _ _ Hm); [auto| |auto]. intros [l' [x|a]] h' Hf; simpl in Hf |- *;
    apply wp_bind; (refine (wp_mono _ _ _ _ _ _ _ _ _ _ _ Hf); [auto| |auto]); intros [l2 [y|b]] h2 Hr; exact Hr.
Qed.

Lemma mwp_rethrow {A : Type} I (m : task A) f l h R E :
  mwp I m l h R (fun x => E (f x)) -> mwp I (rethrow m f) l h R E.
Proof. intros Hm. by apply mwp_catch. Qed.

Lemma mwp_mono {A : Type} I (m : task A) l h R R' E E' :
  (forall a l h, R a l h -> R' a l h) -> (forall x l h, E x l h -> E' x l h) -> mwp I m l h R E -> mwp I m l h R' E'.
Proof. intros HR HE. apply wp_mono; [done| |done]. intros [l' [x|a]] h'; simpl; eauto. Qed.

Lemma mwp_ret {A : Type} I (a : A) l h (R : A -> L -> list ev -> Prop) (E : X -> L -> list ev -> Prop) : R a l h -> mwp I (ret a) l h R E.
Proof. done. Qed.

Lemma mwp_raise {A : Type} I x l h (R : A -> L -> list ev -> Prop) (E : X -> L -> list ev -> Prop) : E x l h -> mwp I (raise x) l h R E.
Proof. done. Qed.

Lemma mwp_update I f l h (R : unit -> L -> list ev -> Prop) (E : X -> L -> list ev -> Prop) : R tt (f l) h -> mwp I (update f) l h R E.
Proof. done. Qed.

Lemma mwp_gets {A : Type} I (f : L -> A) l h (R : A -> L -> list ev -> Prop) (E : X -> L -> list ev -> Prop) : R (f l) l h -> mwp I (gets f) l h R E.
Proof. done. Qed.

Lemma mwp_of_sum {A : Type} I (r : X + A) l h R E :
  (forall a, r = inr a -> R a l h) -> (forall x, r = inl x -> E x l h) -> mwp I (of_sum r) l h R E.
Proof. destruct r; intros HR HE; [by apply HE|by apply HR]. Qed.

Lemma mwp_foreach {A B : Type} I (Inv : list A -> B -> L -> list ev -> Prop) (f : B -> A -> task B) b xs l h R E :
  Inv [] b l h ->
  (forall done x rest b l h, xs = done ++ x :: rest -> Inv done b l h -> mwp I (f b x) l h (Inv (done ++ [x])) E) ->
  (forall b l h, Inv xs b l h -> R b l h) -> mwp I (foreach f b xs) l h R E.
Proof.
  intros Hz Hs HR. cut (forall done rest b l h, xs = done ++ rest -> Inv done b l h -> mwp I (foreach f b rest) l h R E).
  { intros Hc. by apply (Hc [] xs). }
  clear Hz b l h. intros done rest. revert done. induction rest as [|x rest IH]; intros done b l h Heq Hi; simpl.
  - apply HR. by rewrite Heq, app_nil_r.
  - apply mwp_bind. eapply mwp_mono; [| |by eapply Hs]; [|done]. intros b' l' h' Hi'. apply (IH (done ++ [x])); [by rewrite <- app_assoc|done].
Qed.

(** ** Programs that leave the locals alone and ask harmless questions *)
Definition quietly {A : Type} (P : ev -> Prop) (m : task A) : Prop :=
  forall l h, mwp (fun _ e => P e) m l h (fun _ l' h' => l' = l /\ exists new, h' = new ++ h /\ Forall P new)
    (fun _ l' h' => l' = l /\ exists new, h' = new ++ h /\ Forall P new).

Lemma quietly_ret {A : Type} P (a : A) : quietly P (ret a).
Proof. intros l h. split; [done|]. by exists []. Qed.

Lemma quietly_raise {A : Type} P x : quietly P (raise (A := A) x).
Proof. intros l h. split; [done|]. by exists []. Qed.

Lemma quietly_of_sum {A : Type} P (r : X + A) : quietly P (of_sum r).
Proof. destruct r; [apply quietly_raise|apply quietly_ret]. Qed.

Lemma quietly_then {A B : Type} P (m : task A) (R : A -> L -> list ev -> Prop) (E : X -> L -> list ev -> Prop) l h :
  quietly P m ->
  (forall a new, Forall P new -> R a l (new ++ h)) -> (forall x new, Forall P new -> E x l (new ++ h)) ->
  mwp (fun _ e => P e) m l h R E.
Proof. intros Hq HR HE. eapply mwp_mono; [| |apply Hq]; intros ? ? ? [-> (new & -> & Hn)]; auto. Qed.

Lemma quietly_bind {A B : Type} P (m : task A) (k : A -> task B) : quietly P m -> (forall a, quietly P (k a)) -> quietly P (mbind m k).
Proof.
  intros Hm Hk l h. apply mwp_bind. eapply mwp_mono; [| |apply Hm].
  - intros a l' h' [-> (new & -> & Hn)]. eapply mwp_mono; [| |apply Hk]; intros ? ? ? [-> (new' & -> & Hn')]; (split; [done|]);
      exists (new' ++ new); rewrite <- app_assoc; (split; [done|]); by apply Forall_app.
  - done.
Qed.

Lemma quietly_catch {A : Type} P (m : task A) k : quietly P m -> (forall x, quietly P (k x)) -> quietly P (mcatch m k).
Proof.
  intros Hm Hk l h. apply mwp_catch. refine (mwp_mono _ _ _ _ _ _ _ _ _ _ (Hm l h)); [auto|].
  intros a l' h' [-> (new & -> & Hn)]. eapply mwp_mono; [| |apply Hk]; intros ? ? ? [-> (new' & -> & Hn')]; (split; [done|]);
    exists (new' ++ new); rewrite <- app_assoc; (split; [done|]); by apply Forall_app.
Qed.

Lemma quietly_rethrow {A : Type} P (m : task A) f : quietly P m -> quietly P (rethrow m f).
Proof. intros Hm. apply quietly_catch; [done|]. intros x. apply quietly_raise. Qed.

Lemma quietly_foreach {A B : Type} P (f : B -> A -> task B) b xs : (forall b x, quietly P (f b x)) -> quietly P (foreach f b xs).
Proof. intros Hf. revert b. induction xs as [|x xs IH]; intros b; [apply quietly_ret|]. apply quietly_bind; auto. Qed.

(** One question whose answer is returned or raised *)
Lemma quietly_ask {A : Type} P q (f : ans q -> X + A) : (forall a, P (q ~> a)) -> quietly P (fun l => Call q (fun a => Ret (l, f a))).
Proof.
  intros HP l h a. split; [apply HP|]. unfold wp. simpl. destruct (f a); (split; [done|]); exists [q ~> a]; (split; [done|by repeat constructor]).
Qed.

(** From harmless questions to any condition they satisfy *)
Lemma mwp_quietly {A : Type} I P (m : task A) l h R E :
  quietly P m -> (forall h e, P e -> I h e) ->
  (forall a new, Forall P new -> R a l (new ++ h)) -> (forall x new, Forall P new -> E x l (new ++ h)) -> mwp I m l h R E.
Proof.
  intros Hq HI HR HE. pose proof (Hq l h) as Hm. unfold mwp. refine (wp_mono _ _ _ _ _ _ _ _ _ _ _ Hm); [exact HI| |auto].
  intros [l' [x|a]] h'; simpl; intros [-> (new & -> & Hn)]; auto.
Qed.

Lemma mwp_ask {A : Type} (I : list ev -> ev -> Prop) q (f : ans q -> X + A) l h (R : A -> L -> list ev -> Prop) E :
  (forall a, I h (q ~> a) /\ match f a with inr v => R v l ((q ~> a) :: h) | inl x => E x l ((q ~> a) :: h) end) ->
  mwp I (fun l => Call q (fun a => Ret (l, f a))) l h R E.
Proof. intros Hq a. destruct (Hq a) as [Hi Hr]. split; [done|]. unfold wp. simpl. done. Qed.

(** ... whose answer also changes the locals *)
Lemma mwp_call {A : Type} (I : list ev -> ev -> Prop) q (g : ans q -> L -> L) (f : ans q -> X + A) l h (R : A -> L -> list ev -> Prop) E :
  (forall a, I h (q ~> a) /\ match f a with inr v => R v (g a l) ((q ~> a) :: h) | inl x => E x (g a l) ((q ~> a) :: h) end) ->
  mwp I (fun l => Call q (fun a => Ret (g a l, f a))) l h R E.
Proof. intros Hq a. destruct (Hq a) as [Hi Hr]. split; [done|]. unfold wp. simpl. by destruct (f a). Qed.

Lemma mwp_sound {A : Type} I (m : task A) l R E t l' r :
  mwp I m l [] R E -> run_to (m l) t (Done (l', r)) ->
  (forall t1 e t2, t = t1 ++ e :: t2 -> I (reverse t1) e) /\ match r with inr a => R a l' (reverse t) | inl x => E x l' (reverse t) end.
Proof.
  intros Hm Ht. destruct (wp_sound _ _ _ _ _ _ _ Hm Ht) as [Hi Hr]. split.
  - intros t1 e t2 Heq. specialize (Hi t1 e t2 Heq). by rewrite app_nil_r in Hi.
  - rewrite app_nil_r in Hr. done.
Qed.

(** ... for runs that may be cut short *)
Lemma mwp_guards {A : Type} I (m : task A) l R E t o : mwp I m l [] R E -> run_to (m l) t o ->
  forall t1 e t2, t = t1 ++ e :: t2 -> I (reverse t1) e.
Proof. intros Hm Ht t1 e t2 Heq. destruct (wp_sound _ _ _ _ _ _ _ Hm Ht) as [Hi _]. specialize (Hi t1 e t2 Heq). by rewrite app_nil_r in Hi. Qed.

(** Histories only grow. *)
Lemma mwp_extends {A : Type} I (m : task A) l h R E : mwp I m l h R E ->
  mwp I m l h (fun a l' h' => R a l' h' /\ exists new, h' = new ++ h) (fun x l' h' => E x l' h' /\ exists new, h' = new ++ h).
Proof.
  intros Hm. assert (Hall : all (fun _ => True) (m l)) by (induction (m l) as [|e|q k IH]; [done..|]; intros a; split; [done|apply IH]).
  pose proof (wp_and_all _ _ _ _ _ _ Hall Hm) as Hw. unfold mwp. refine (wp_mono _ _ _ _ _ _ _ _ _ _ _ Hw); [auto| |by intros e h' [[] _]].
  intros [l' [x|a]] h' (Hr & new & -> & _); (split; [exact Hr|by exists new]).
Qed.

Lemma mwp_grows {A : Type} I (m : task A) l h R E : mwp I m l h R E ->
  mwp I m l h (fun a l' h' => R a l' h' /\ h ⊆ h') (fun x l' h' => E x l' h' /\ h ⊆ h').
Proof. intros Hm. eapply mwp_mono; [..|by apply mwp_extends]; intros ? ? ? [? [new ->]]; (split; [done|set_solver]). Qed.

(** Every new event satisfies its condition. *)
Lemma mwp_events {A : Type} I (m : task A) l h R E : mwp I m l h R E ->
  mwp I m l h (fun a l' h' => R a l' h' /\ forall e, e ∈ h' -> e ∈ h \/ exists h1, I h1 e)
    (fun x l' h' => E x l' h' /\ forall e, e ∈ h' -> e ∈ h \/ exists h1, I h1 e).
Proof.
  unfold mwp. cut (forall (p : prog ans (L * (X + A))) h1, (forall e, e ∈ h1 -> e ∈ h \/ exists h2, I h2 e) ->
    wp I p h1 (fun r h' => match r.2 with inr a => R a r.1 h' | inl x => E x r.1 h' end) (fun _ _ => False) ->
    wp I p h1 (fun r h' => match r.2 with
       | inr a => R a r.1 h' /\ forall e, e ∈ h' -> e ∈ h \/ exists h2, I h2 e
       | inl x => E x r.1 h' /\ forall e, e ∈ h' -> e ∈ h \/ exists h2, I h2 e end) (fun _ _ => False)).
  { intros Hc Hm. apply Hc; [by left|done]. }
  clear. intros p. induction p as [[l' [x|a]]|e|q k IH]; intros h1 Hh; unfold wp; simpl; [auto..|done|].
  intros Hk a. destruct (Hk a) as [Hi Hw]. split; [done|]. apply IH; [|exact Hw]. intros e [->|He]%elem_of_cons; [right; by exists h1|by apply Hh].
Qed.

Lemma mwp_weaken {A : Type} (I I' : list ev -> ev -> Prop) (m : task A) l h R E :
  (forall h e, I h e -> I' h e) -> mwp I m l h R E -> mwp I' m l h R E.
Proof. intros HI Hm. unfold mwp. refine (wp_mono _ _ _ _ _ _ _ _ _ _ _ Hm); auto. Qed.

Lemma mwp_and {A : Type} I I' (m : task A) l h R E R' E' : mwp I m l h R E -> mwp I' m l h R' E' ->
  mwp I m l h (fun a l' h' => R a l' h' /\ R' a l' h') (fun x l' h' => E x l' h' /\ E' x l' h').
Proof.
  unfold mwp. generalize (m l) as p. intros p. revert h. induction p as [[l' [x|a]]|e|q k IH]; intros h; unfold wp; simpl; [done..|by intros []|].
  intros H1 H2 a. destruct (H1 a), (H2 a). split; [done|]. by apply IH.
Qed.
End Task.
Arguments task {Q} ans L X A.

Notation "'do' x <- m 'in' k" := (mbind m (fun x => k))
  (at level 10, x pattern, m at level 100, k at level 200).
End Tasks.
