(* ===== verification/RunnerPolicy.v ===== *)
(** * Root execution policy ([execution/runner.py])

    The pure parts of the runner: the policy ceilings, the credential scan that
    guards the resume boundary, the budget check and the approval match. *)
From S2P Require Import Prelude PyText Json Scopes ExecModels Registry.
Open Scope string_scope.
Open Scope Z_scope.

Definition credential_keys : list string :=
  ["result_id"; "result_reference"; "approval_token"; "approval_binding"; "approval_credential"].

(** [_contains_run_credentials] *)
Fixpoint contains_run_credentials (value : json) : bool :=
  match value with
  | JObj kvs =>
      existsb (fun kv => bool_decide (kv.1 ∈ credential_keys)) kvs
      || existsb (fun kv => contains_run_credentials kv.2) kvs
  | JList l => existsb contains_run_credentials l
  | _ => false
  end.

Record ExecutionPolicy : Type := MkExecutionPolicy {
  ep_approval_effects : gset ToolEffect;
  ep_max_run_input_bytes : Z;
  ep_max_tool_argument_bytes : Z;
  ep_max_tool_result_bytes : Z;
  ep_max_final_output_bytes : Z;
  ep_max_workflow_state_bytes : Z;
  ep_max_iterations : Z;
  ep_max_tool_calls : Z;
  ep_max_parallel_calls : Z;
  ep_max_timeout : Z;  (** microseconds *)
}.

(** One round of the two [for name, maximum in ...] loops *)
Definition bounded_int (value : pyarg) (maximum : Z) : res Z :=
  match value with
  | AInt z => if (z <? 1) || (maximum <? z) then Raise ValueError else Ok z
  | _ => Raise TypeError
  end.

(** The checks of [max_timeout_seconds]; an integer is a number of seconds. *)
Definition bounded_timeout (value : pyarg) : res Z :=
  let! us :=
    match value with
    | AInt z => Ok (seconds z)
    | AFloat us => Ok us
    | _ => Raise TypeError
    end in
  if (us <=? 0) || (seconds 86400 <? us) then Raise ValueError else Ok us.

(** [ExecutionPolicy.__post_init__] *)
Definition execution_policy (approval_effects : gset ToolEffect)
    (run_input tool_argument tool_result final_output workflow_state : pyarg)
    (iterations tool_calls parallel_calls timeout : pyarg) : res ExecutionPolicy :=
  let effects := approval_effects ∪ {[ DESTRUCTIVE ]} in
  let! ri := bounded_int run_input (8 * 1024 * 1024) in
  let! ta := bounded_int tool_argument (8 * 1024 * 1024) in
  let! tr := bounded_int tool_result (32 * 1024 * 1024) in
  let! fo := bounded_int final_output (32 * 1024 * 1024) in
  let! ws := bounded_int workflow_state (8 * 1024 * 1024) in
  let! it := bounded_int iterations 10000 in
  let! tc := bounded_int tool_calls 100000 in
  let! pc := bounded_int parallel_calls 1024 in
  let! ts := bounded_timeout timeout in
  Ok (MkExecutionPolicy effects ri ta tr fo ws it tc pc ts).

Definition requires_approval (p : ExecutionPolicy) (spec : ToolSpec) : bool :=
  negb (bool_decide (ts_effects spec ∩ ep_approval_effects p = ∅)).

Definition failure (code : FailureCode) (message : string) (iteration : option Z)
    (call_id tool_name : option string) : RunFailure :=
  MkRunFailure code message false iteration call_id tool_name.

(** [_budget_policy_failure] *)
Definition budget_policy_failure (p : ExecutionPolicy) (requested : ExecutionBudget) : option RunFailure :=
  let violations :=
    ((if ep_max_iterations p <? eb_max_iterations requested then ["max_iterations"] else [])
     ++ (if ep_max_tool_calls p <? eb_max_tool_calls requested then ["max_tool_calls"] else [])
     ++ (if ep_max_parallel_calls p <? eb_max_parallel_calls requested then ["max_parallel_calls"] else [])
     ++ (if ep_max_timeout p <? eb_timeout requested then ["timeout_seconds"] else []))%list in
  match violations with
  | [] => None
  | _ => Some (failure BUDGET_POLICY_EXCEEDED
           ("requested execution budget exceeds root policy ceiling: " +:+ String.concat ", " violations)
           None None None)
  end.

(** [_approval_matches]; [single_use] is always true. *)
Definition approval_matches (expected : ApprovalTarget) (binding : ApprovalBinding) (now : Z) : bool :=
  bool_decide (ab_target binding = expected) && (ab_issued_at binding <=? now) && (now <? ab_expires_at binding).

(** [_run_key] *)
Definition run_key (scope : RequestScope) (run_id : string) : ScopePath * string * string :=
  (rs_path scope, rs_principal_id scope, run_id).

(** [_RESUMABLE_TOOLS]: the family and exact effects of the trusted read tools *)
Definition resumable_tool (name : string) : option (string * gset ToolEffect) :=
  if bool_decide (name ∈ ["suiteharness.fs.list"; "suiteharness.fs.read";
                          "suiteharness.fs.glob"; "suiteharness.fs.grep"])
  then Some ("fs", {[ READ ]})
  else if bool_decide (name ∈ ["suiteharness.web.search"; "suiteharness.web.fetch"])
  then Some ("web", {[ READ; EXTERNAL ]})
  else None.

(** The test of [_safe_registration] on what the registry resolved *)
Definition safe_registered {Handler : Type} (name : string) (registered : option (@Registry.RegisteredTool Handler)) : bool :=
  match resumable_tool name, registered with
  | Some (family, effects), Some tool =>
      bool_decide (Registry.rt_registration_scope tool = Registry.the_root)
      && bool_decide (Registry.rt_identity tool
           = MkToolIdentity "suiteharness" name ("suiteharness.builtin." +:+ family) "1")
      && bool_decide (ts_effects (Registry.rt_spec tool) = effects)
  | _, _ => false
  end.

(** ** Lemmas *)
Lemma execution_policy_destructive ae a b c d e f g h i p :
  execution_policy ae a b c d e f g h i = Ok p -> DESTRUCTIVE ∈ ep_approval_effects p.
Proof. unfold execution_policy. intros H. py_simpl. set_solver. Qed.

Lemma budget_policy_failure_None p b :
  budget_policy_failure p b = None <->
  eb_max_iterations b <= ep_max_iterations p /\ eb_max_tool_calls b <= ep_max_tool_calls p /\
  eb_max_parallel_calls b <= ep_max_parallel_calls p /\ eb_timeout b <= ep_max_timeout p.
Proof.
  unfold budget_policy_failure.
  destruct (Z.ltb_spec (ep_max_iterations p) (eb_max_iterations b)),
    (Z.ltb_spec (ep_max_tool_calls p) (eb_max_tool_calls b)),
    (Z.ltb_spec (ep_max_parallel_calls p) (eb_max_parallel_calls b)),
    (Z.ltb_spec (ep_max_timeout p) (eb_timeout b)); simpl; split; intros Hx; try done; lia.
Qed.

Lemma safe_registered_read {Handler : Type} name (tool : @Registry.RegisteredTool Handler) :
  safe_registered name (Some tool) = true ->
  is_read (Registry.rt_spec tool) = true /\ Registry.rt_registration_scope tool = Registry.the_root.
Proof.
  unfold safe_registered, resumable_tool. intros H.
  repeat case_bool_decide; simplify_eq/=; py_simpl; (split; [|done]);
    unfold is_read; match goal with Hx : ts_effects _ = _ |- _ => rewrite Hx end; by vm_compute.
Qed.
