(* ===== verification/RunnerIntent.v ===== *)
(** * One tool call through the trusted executor ([execution/runner.py], [_execute_intent])

    The registry, grant authority, approval store, journal, policy, broker,
    result store, strategies and handlers are asked for answers; nothing is
    assumed about what they answer.  Questions that receive the mutable
    [safe_arguments] dict also answer with its contents afterwards. *)
From S2P Require Import Prelude PyText Json Scopes ExecModels Registry Prog RunnerPolicy.
From Stdlib Require Import Ascii.
Open Scope string_scope.
Open Scope Z_scope.

Module Runner.
Export Registry.

Definition args : Type := list (string * json).

(** The run's own shared quota and cancellation signal are left implicit. *)
Record ToolCallContext : Type := MkToolCallContext {
  tc_scope : RequestScope;
  tc_run_id : string;
  tc_call_id : string;
  tc_tool_identity : ToolIdentity;
  tc_tool : ToolSpec;
  tc_remaining : Z;
  tc_grant_id : string;
  tc_read_only : bool;
}.

(** [_RunState]; the publisher, the shared quota and the cancel event are asked
    through the questions below. *)
Record RunState : Type := MkRunState {
  st_started_at : Z;
  st_started_monotonic : Z;
  st_iterations_used : Z;
  st_tool_calls_used : Z;
  st_observations : list ToolObservation;
  st_call_ids : gset string;
}.

(** How a handler call ends: a value (or one that is no strict JSON value), the
    trusted refusal [ToolHandlerDenied], or another exception. *)
Inductive handler_answer : Type :=
| HReturn (value : option json)
| HDenied
| HRaise (e : exn).

(** What a workflow stream yields *)
Inductive stream_item : Type :=
| SDecision (d : WorkflowDecision)
| SEvent (kind text : string) (data : args)
| SOther.

(** [isinstance(e, (TypeError, ValueError))] *)
Definition is_value_error (e : exn) : bool :=
  match e with TypeError | ValueError | ServiceBindingError => true | _ => false end.

Section Queries.
Context {Handler : Type}.

Inductive query : Type :=
| QNow
| QMonotonic
| QUuid
| QAppend (e : AuditEvent)
| QResolve (tool_name : string)
| QGrant (grant_id : string)
| QValidate (tool : @RegisteredTool Handler) (arguments : args)
| QEvaluate (identity : ToolIdentity) (spec : ToolSpec) (arguments : args)
| QConsume (token : string) (expected : ApprovalTarget)
| QRequestApproval (expected : ApprovalTarget) (spec : ToolSpec) (arguments : args)
| QPublish (kind text : string) (data : args)
| QHandle (tool : @RegisteredTool Handler) (context : ToolCallContext) (arguments : args)
| QPut (text : string)
| QTakeIteration
| QTakeSlots (requested : Z)
| QRender (frame : WorkflowFrame)
| QResumeKey (frame : WorkflowFrame) (prompt : option PromptEnvelope)
| QWorkflow (frame : WorkflowFrame) (prompt : option PromptEnvelope)
| QReview (frame : WorkflowFrame) (decision : WorkflowDecision)
| QStore (state : RunState)
| QBatch (intents : list ToolIntent) (duplicate_flags : list bool) (iteration : Z).

Definition answer (q : query) : Type :=
  match q with
  | QNow | QMonotonic => Z
  | QUuid => string
  | QAppend _ | QPublish _ _ _ => res unit
  | QResolve _ => option (@RegisteredTool Handler)
  | QGrant _ => res (option CapabilityGrant)
  | QValidate _ _ => res bool * args
  | QEvaluate _ _ _ => res (option ToolAuthorization) * args
  | QConsume _ _ => res (option ApprovalBinding)
  | QRequestApproval _ _ _ => res (option ApprovalBinding) * args
  | QHandle _ _ _ => handler_answer
  | QPut _ => res json
  | QTakeIteration => bool
  | QStore _ => unit
  | QTakeSlots _ => res Z
  | QRender _ => res (option PromptEnvelope)
  | QResumeKey _ _ => res (option string)
  | QWorkflow _ _ => list stream_item * res unit
  | QReview _ _ => res (option WorkflowDecision)
  | QBatch _ _ _ => res (list ToolObservation)
  end.

Definition exec (A : Type) : Type := prog answer A.
Definition call (q : query) : exec (answer q) := ask q.
(** A question whose answer can be an exception, which is re-raised *)
Definition await {A : Type} (r : exec (res A)) : exec A := r' <-- r ;; lift r'.
End Queries.
Arguments query : clear implicits.

(** The constructor arguments of [ExecutionRunner]; the optional collaborators
    are present or absent for the runner's whole life. *)
Record ExecutionRunner : Type := MkExecutionRunner {
  er_policy : ExecutionPolicy;
  er_authorization_policy : bool;
  er_interactive_approvals : bool;
  er_tool_results : bool;
}.

(** [payload[:n].decode("utf-8", errors="ignore")] of valid UTF-8: complete
    code points only. *)
Fixpoint utf8_complete (l : list ascii) : list ascii :=
  match l with
  | [] => []
  | c :: l1 =>
      if in_range 0 127 c then c :: utf8_complete l1
      else match l1 with
      | [] => []
      | c1 :: l2 =>
          if in_range 192 223 c then c :: c1 :: utf8_complete l2
          else match l2 with
          | [] => []
          | c2 :: l3 =>
              if in_range 224 239 c then c :: c1 :: c2 :: utf8_complete l3
              else match l3 with
              | [] => []
              | c3 :: l4 => c :: c1 :: c2 :: c3 :: utf8_complete l4
              end
          end
      end
  end.

Definition preview (n : nat) (payload : string) : string :=
  String.string_of_list_ascii (utf8_complete (take n (chars payload))).

Section Intent.
Context {Handler : Type} `{Hashing} (self : ExecutionRunner) (request : RunRequest).

Abbreviation exec := (@exec Handler).
Abbreviation RegisteredTool := (@RegisteredTool Handler).

(** [_emit] *)
Definition emit (event_type : AuditEventType) (call_id tool_name : option string)
    (tool_identity : option ToolIdentity) (data : args) : exec unit :=
  event_id <-- call QUuid ;;
  occurred_at <-- call QNow ;;
  event <-- lift (audit_event
    (MkAuditEvent event_id event_type occurred_at
       (rs_tenant_id (rq_scope request)) (rs_product_id (rq_scope request))
       (rs_principal_id (rq_scope request)) (rs_request_id (rq_scope request))
       (rs_correlation_id (rq_scope request)) (rs_purpose (rq_scope request))
       (rq_run_id request) (rs_channel_id (rq_scope request))
       call_id tool_name tool_identity data)) ;;
  await (call (QAppend event)).

(** The observation both refusals build; [tool_identity] is only journaled. *)
Definition failed_observation (intent : ToolIntent) (status : ToolCallStatus) (f : RunFailure)
    (started_at : Z) : exec ToolObservation :=
  finished_at <-- call QNow ;;
  lift (tool_observation
    (MkToolObservation (in_call_id intent) (in_tool_name intent) None None status JNull (Some f)
       started_at finished_at)).

(** [_deny] *)
Definition deny (intent : ToolIntent) (iteration started_at : Z) (code : FailureCode)
    (message : string) (tool_identity : option ToolIdentity) : exec ToolObservation :=
  f <-- lift (run_failure (failure code message (Some iteration)
                (Some (in_call_id intent)) (Some (in_tool_name intent)))) ;;
  emit TOOL_DENIED (Some (in_call_id intent)) (Some (in_tool_name intent)) tool_identity
    [("code", JStr (failure_code_value code))] ;;;
  failed_observation intent CALL_DENIED f started_at.

(** [_tool_failure] *)
Definition tool_failure (intent : ToolIntent) (iteration started_at : Z) (code : FailureCode)
    (message : string) (tool_identity : ToolIdentity) : exec ToolObservation :=
  f <-- lift (run_failure (failure code message (Some iteration)
                (Some (in_call_id intent)) (Some (in_tool_name intent)))) ;;
  emit TOOL_FINISHED (Some (in_call_id intent)) (Some (in_tool_name intent)) (Some tool_identity)
    [("status", JStr (call_status_value CALL_FAILED)); ("code", JStr (failure_code_value code))] ;;;
  failed_observation intent CALL_FAILED f started_at.

(** The scope test of [_grant] *)
Definition grant_in_scope (g : CapabilityGrant) : bool :=
  bool_decide (cg_tenant_id g = rs_tenant_id (rq_scope request))
  && bool_decide (cg_product_id g = rs_product_id (rq_scope request))
  && match cg_principal_id g with
     | None => true
     | Some p => bool_decide (p = rs_principal_id (rq_scope request))
     end.

(** [_grant]: the live grant of this request, or the failure to report *)
Definition grant : exec (CapabilityGrant + RunFailure) :=
  r <-- call (QGrant (rq_grant_id request)) ;;
  match r with
  | Raise e =>
      if catchable e
      then Ret (inr (failure INTERNAL_ERROR "capability authority failed" None None None))
      else Throw e
  | Ok None =>
      Ret (inr (failure GRANT_NOT_FOUND "capability grant was not found or was revoked" None None None))
  | Ok (Some g) =>
      if negb (grant_in_scope g) then
        Ret (inr (failure GRANT_SCOPE_MISMATCH
          "capability grant does not match the authenticated request scope" None None None))
      else
        now <-- call QNow ;;
        if cg_expires_at g <=? now
        then Ret (inr (failure GRANT_EXPIRED "capability grant has expired" None None None))
        else Ret (inl g)
  end.

(** [_safe_registration] *)
Definition safe_registration (name : string) : exec bool :=
  registered <-- call (QResolve name) ;;
  Ret (safe_registered name registered).

(** The authorization the policy gives; a failing policy denies. *)
Definition authorize (tool : RegisteredTool) (arguments : args) : exec (ToolAuthorization * args) :=
  if negb (er_authorization_policy self) then Ret (AUTH_DEFAULT, arguments)
  else
    r <-- call (QEvaluate (rt_identity tool) (rt_spec tool) arguments) ;;
    match r.1 with
    | Ok (Some a) => Ret (a, r.2)
    | Ok None => Ret (AUTH_DENY, r.2)
    | Raise e => if catchable e then Ret (AUTH_DENY, r.2) else Throw e
    end.

Definition needs_approval (authorization : ToolAuthorization) (spec : ToolSpec) : bool :=
  bool_decide (DESTRUCTIVE ∈ ts_effects spec)
  || (bool_decide (authorization = AUTH_REQUIRE_APPROVAL)
      || (bool_decide (authorization = AUTH_DEFAULT) && requires_approval (er_policy self) spec)).

(** What the approval step of a call ends with: the call may go on (with the
    approver, if one was needed), or the denial has been reported already. *)
Inductive approval_step : Type :=
| Proceed (approved_by : option string) (arguments : args)
| Refused (o : ToolObservation).

(** The [if requires_approval] block of [_execute_intent] *)
Definition obtain_approval (intent : ToolIntent) (iteration started_at : Z) (tool : RegisteredTool)
    (digest : string) (arguments : args) : exec approval_step :=
  let deny code message :=
    o <-- deny intent iteration started_at code message (Some (rt_identity tool)) ;; Ret (Refused o) in
  expected <-- lift (approval_target
    (MkApprovalTarget (rs_path (rq_scope request)) (rs_principal_id (rq_scope request))
       (rq_run_id request) (in_call_id intent) (rt_identity tool) digest)) ;;
  (** the [try] block: a binding, or a denial returned from inside it *)
  tried <-- catch
    (match in_approval_token intent with
     | Some token => b <-- await (call (QConsume token expected)) ;; Ret (inl (b, arguments))
     | None =>
         if er_interactive_approvals self then
           r <-- call (QRequestApproval expected (rt_spec tool) arguments) ;;
           match r.1 with
           | Ok b => Ret (inl (b, r.2))
           | Raise e => if catchable e then Ret (inl (None, r.2)) else Throw e
           end
         else
           r <-- deny APPROVAL_REQUIRED "this tool call requires a call-scoped approval" ;; Ret (inr r)
     end)
    (fun _ => Ret (inl (None, arguments))) ;;
  match tried with
  | inr refused => Ret refused
  | inl (None, _) =>
      deny APPROVAL_INVALID "approval is expired, reused, or bound to a different call"
  | inl (Some binding, arguments) =>
      now <-- call QNow ;;
      if approval_matches expected binding now
      then Ret (Proceed (Some (ab_approved_by binding)) arguments)
      else deny APPROVAL_INVALID "approval is expired, reused, or bound to a different call"
  end.

(** The block that stores a large result and replaces it by a reference;
    [inr] is the observation reported when the store fails. *)
Definition bound_result (intent : ToolIntent) (iteration started_at : Z) (g : CapabilityGrant)
    (tool : RegisteredTool) (value : json) : exec (json + ToolObservation) :=
  let payload := canonical_text value in
  reader <-- call (QResolve "suiteharness.result.read") ;;
  let can_read_result :=
    match reader with
    | None => false
    | Some r =>
        bool_decide (rt_identity r ∈ cg_tool_identities g)
        && bool_decide (ti_namespace (rt_identity r) = "suiteharness")
        && bool_decide (ti_origin (rt_identity r) = "suiteharness.builtin.result")
    end in
  if er_tool_results self && can_read_result
     && negb (bool_decide (in_tool_name intent = "suiteharness.result.read"))
     && (16 * 1024 <? byte_len payload)
  then
    stored <-- call (QPut payload) ;;
    match stored with
    | Ok reference =>
        Ret (inl (JObj [("result_reference", reference); ("preview", JStr (preview 1024 payload));
                        ("truncated", JBool true)]))
    | Raise e =>
        if catchable e then
          o <-- tool_failure intent iteration started_at TOOL_ERROR "tool result storage unavailable"
                  (rt_identity tool) ;;
          Ret (inr o)
        else Throw e
    end
  else Ret (inl (sort_keys value)).

(** From the audited start to the observation of the handler's outcome *)
Definition invoke (intent : ToolIntent) (iteration started_at started_monotonic : Z) (g : CapabilityGrant)
    (tool : RegisteredTool) (approved_by : option string) (original arguments : args) : exec ToolObservation :=
  let fail code message := tool_failure intent iteration started_at code message (rt_identity tool) in
  emit TOOL_STARTED (Some (in_call_id intent)) (Some (in_tool_name intent)) (Some (rt_identity tool))
    (("effects", JList (JStr <$> merge_sort String.le (effect_value <$> elements (ts_effects (rt_spec tool)))))
     :: match approved_by with None => [] | Some who => [("approved_by", JStr who)] end) ;;;
  await (call (QPublish "tool_started" ""
    [("call_id", JStr (in_call_id intent)); ("tool_name", JStr (in_tool_name intent))])) ;;;
  now <-- call QMonotonic ;;
  outcome <-- call (QHandle tool
    (MkToolCallContext (rq_scope request) (rq_run_id request) (in_call_id intent) (rt_identity tool)
       (rt_spec tool) (Z.max 0 (eb_timeout (rq_budget request) - (now - started_monotonic)))
       (rq_grant_id request) (rq_read_only request)) arguments) ;;
  match outcome with
  | HDenied =>
      deny intent iteration started_at POLICY_DENIED "trusted tool handler denied this call"
        (Some (rt_identity tool))
  | HRaise e =>
      if negb (catchable e) then Throw e
      else if is_value_error e then fail INVALID_TOOL_RESULT "tool returned a non-JSON value"
      else fail TOOL_ERROR "tool handler failed"
  | HReturn None => fail INVALID_TOOL_RESULT "tool returned a non-JSON value"
  | HReturn (Some value) =>
      if negb (all_finite value) then fail INVALID_TOOL_RESULT "tool returned a non-JSON value"
      else if ep_max_tool_result_bytes (er_policy self) <? canonical_len value
      then fail TOOL_RESULT_TOO_LARGE "tool result exceeds the configured byte limit"
      else
        bounded <-- bound_result intent iteration started_at g tool value ;;
        match bounded with
        | inr o => Ret o
        | inl result =>
            finished_at <-- call QNow ;;
            emit TOOL_FINISHED (Some (in_call_id intent)) (Some (in_tool_name intent))
              (Some (rt_identity tool)) [("status", JStr (call_status_value CALL_SUCCEEDED))] ;;;
            safe <-- safe_registration (in_tool_name intent) ;;
            let resume_arguments :=
              if safe && negb (contains_run_credentials (JObj original)) then Some original else None in
            lift (tool_observation
              (MkToolObservation (in_call_id intent) (in_tool_name intent) (Some (rt_identity tool))
                 resume_arguments CALL_SUCCEEDED result None started_at finished_at))
        end
  end.

(** From the resolved, granted tool to the approval *)
Definition authorized_call (intent : ToolIntent) (iteration started_at started_monotonic : Z)
    (g : CapabilityGrant) (tool : RegisteredTool) (safe_arguments : args) (digest : string) :
    exec ToolObservation :=
  let refuse code message := deny intent iteration started_at code message (Some (rt_identity tool)) in
  valid <-- call (QValidate tool safe_arguments) ;;
  match valid.1 with
  | Raise e => Throw e
  | Ok false => refuse TOOL_INPUT_INVALID "tool arguments do not match the declared input schema"
  | Ok true =>
      authorized <-- authorize tool valid.2 ;;
      let '(authorization, arguments) := authorized in
      if bool_decide (authorization = AUTH_DENY)
      then refuse POLICY_DENIED "the trusted channel policy denied this tool call"
      else
        step <-- (if needs_approval authorization (rt_spec tool)
                  then obtain_approval intent iteration started_at tool digest arguments
                  else Ret (Proceed None arguments)) ;;
        match step with
        | Refused o => Ret o
        | Proceed approved_by arguments =>
            invoke intent iteration started_at started_monotonic g tool approved_by
              (detach_arguments safe_arguments) arguments
        end
  end.

(** [_execute_intent] *)
Definition execute_intent (intent : ToolIntent) (iteration started_monotonic : Z) (duplicate : bool) :
    exec ToolObservation :=
  started_at <-- call QNow ;;
  _ <-- lift (canonical_json (JObj (in_arguments intent))) ;;
  let safe_arguments := detach_arguments (in_arguments intent) in
  argument_payload <-- lift (canonical_json (JObj safe_arguments)) ;;
  digest <-- lift (arguments_digest safe_arguments) ;;
  registered <-- call (QResolve (in_tool_name intent)) ;;
  let tool_identity := rt_identity <$> registered in
  let refuse code message := deny intent iteration started_at code message tool_identity in
  emit TOOL_INTENT (Some (in_call_id intent)) (Some (in_tool_name intent)) tool_identity
    [("arguments_digest", JStr digest)] ;;;
  if ep_max_tool_argument_bytes (er_policy self) <? byte_len argument_payload
  then refuse TOOL_ARGUMENTS_TOO_LARGE "tool arguments exceed the configured byte limit"
  else if duplicate then refuse DUPLICATE_CALL_ID "call_id was already used in this run"
  else
    granted <-- grant ;;
    match granted with
    | inr f => refuse (rf_code f) (rf_message f)
    | inl g =>
        match registered with
        | None => refuse TOOL_NOT_GRANTED "tool is unavailable for this grant"
        | Some tool =>
            if negb (bool_decide (rt_identity tool ∈ cg_tool_identities g))
            then refuse TOOL_NOT_GRANTED "tool is unavailable for this grant"
            else if negb (bool_decide (ts_required_capabilities (rt_spec tool) ∖ cg_capabilities g = ∅))
            then refuse CAPABILITY_DENIED "tool requires capabilities not present in the product grant"
            else if rq_read_only request && negb (is_read (rt_spec tool))
            then refuse READ_ONLY_DENIED "non-read tool is blocked for a read-only run"
            else
              resumable <-- (if is_none (rq_resume request) then Ret true
                             else safe_registration (in_tool_name intent)) ;;
              if negb resumable
              then refuse POLICY_DENIED "only trusted read tools are available during resume"
              else authorized_call intent iteration started_at started_monotonic g tool safe_arguments digest
        end
    end.
End Intent.
End Runner.
