(* ===== verification/Mediation.v ===== *)
(** * Complete mediation of tool calls

    What every trace of [execute_intent] satisfies, whatever the registry,
    authority, policy, approval store, journal and handler answer. *)
From S2P Require Import Prelude PyText Json Scopes ExecModels Registry Prog RunnerPolicy RunnerIntent.
Open Scope string_scope.
Open Scope Z_scope.

Module Mediation.
Export Runner.

Section Mediation.
Context {Handler : Type} `{Hashing} (self : ExecutionRunner) (request : RunRequest).

Abbreviation event := (event (@answer Handler)).
Abbreviation hist := (list event).

Definition is_handle (e : event) : bool :=
  match projT1 e with QHandle _ _ _ => true | _ => false end.

Definition handles (h : hist) : nat := length (List.filter is_handle h).

(** The type of a journaled audit event *)
Definition journaled (e : event) : option AuditEventType :=
  match e with
  | existT (QAppend ev) (Ok _) => Some (ae_event_type ev)
  | _ => None
  end.

(** What the journal accepted, newest first *)
Definition journal (h : hist) : list AuditEventType := omap journaled h.

(** A condition on events that only constrains handler invocations *)
Definition on_handle (I : hist -> event -> Prop) : Prop :=
  forall h e, is_handle e = false -> I h e.

Lemma handles_app h1 h2 : handles (h1 ++ h2) = (handles h1 + handles h2)%nat.
Proof. unfold handles. by rewrite List.filter_app, length_app. Qed.

Lemma journal_app h1 h2 : journal (h1 ++ h2) = (journal h1 ++ journal h2)%list.
Proof. apply omap_app. Qed.

Lemma handles_reverse h : handles (reverse h) = handles h.
Proof.
  induction h as [|e h IH]; [done|]. rewrite reverse_cons, handles_app, IH. unfold handles. simpl.
  destruct (is_handle e); simpl; lia.
Qed.

Lemma journal_reverse h : journal (reverse h) = reverse (journal h).
Proof.
  induction h as [|e h IH]; [done|]. rewrite reverse_cons, journal_app, IH. unfold journal. simpl.
  destruct (journaled e); simpl; [by rewrite reverse_cons|by rewrite app_nil_r].
Qed.

Lemma reverse_eq_iff {A : Type} (l k : list A) : reverse l = k <-> l = reverse k.
Proof. split; intros Heq; [rewrite <- Heq|rewrite Heq]; by rewrite reverse_involutive. Qed.

(** The audit record [_emit] builds *)
Definition audited (ty : AuditEventType) (cid tn : option string) (ti : option ToolIdentity) (data : args)
    (ev : AuditEvent) : Prop :=
  ae_event_type ev = ty /\ ae_call_id ev = cid /\ ae_tool_name ev = tn /\ ae_tool_identity ev = ti /\
  ae_data ev = data /\ ae_run_id ev = rq_run_id request /\
  ae_principal_id ev = rs_principal_id (rq_scope request).

(** [extends h h' js]: [h'] adds events to [h], no handler call among them,
    and the journal accepted exactly [js] (newest first). *)
Definition extends (h h' : hist) (js : list AuditEventType) : Prop :=
  exists l, h' = (l ++ h)%list /\ handles l = 0%nat /\ journal l = js.

Lemma extends_refl h : extends h h [].
Proof. by exists []. Qed.

Lemma extends_trans h1 h2 h3 j1 j2 : extends h1 h2 j1 -> extends h2 h3 j2 -> extends h1 h3 (j2 ++ j1).
Proof.
  intros (l1 & -> & N1 & <-) (l2 & -> & N2 & <-). exists (l2 ++ l1)%list.
  rewrite app_assoc, handles_app, journal_app. split_and!; [done|lia|done].
Qed.

Lemma extends_journaled h h' js e ty :
  extends h h' js -> is_handle e = false -> journaled e = Some ty -> extends h (e :: h') (ty :: js).
Proof.
  intros (l & -> & N & <-) He Hj. exists (e :: l). unfold handles, journal in *. simpl.
  by rewrite He, Hj.
Qed.

Lemma extends_step h h' js e :
  extends h h' js -> is_handle e = false -> journaled e = None -> extends h (e :: h') js.
Proof.
  intros (l & -> & N & <-) He Hj. exists (e :: l). unfold handles, journal in *. simpl.
  by rewrite He, Hj.
Qed.

Lemma extends_elem h h' js e : extends h h' js -> e ∈ h -> e ∈ h'.
Proof. intros (l & -> & _ & _) He. apply elem_of_app. by right. Qed.

Lemma extends_handles h h' js : extends h h' js -> handles h' = handles h.
Proof. intros (l & -> & N & _). rewrite handles_app. lia. Qed.

Lemma extends_journal h h' js : extends h h' js -> journal h' = (js ++ journal h)%list.
Proof. intros (l & -> & _ & <-). apply journal_app. Qed.

Section Quiet.
Context (I : hist -> event -> Prop) (Hquiet : on_handle I).

(** A question other than a handler call needs no justification. *)
Lemma wp_call (q : query Handler) h R E :
  (forall a : answer q, is_handle (existT q a) = false) ->
  (forall a : answer q, R a (existT q a :: h)) -> wp I (call q) h R E.
Proof. intros Hq HR. apply wp_ask. intros a. split; [by apply Hquiet, Hq|apply HR]. Qed.

Lemma wp_emit ty cid tn ti data h R (E : exn -> hist -> Prop) :
  (forall h' ev, extends h h' [ty] -> audited ty cid tn ti data ev -> (QAppend ev ~> Ok tt) ∈ h' -> R tt h') ->
  (forall e h', extends h h' [] -> E e h') ->
  wp I (emit request ty cid tn ti data) h R E.
Proof.
  intros HR HE. unfold emit, await. apply wp_bind, wp_call; [done|]. intros id.
  apply wp_bind, wp_call; [done|]. intros at_.
  set (h2 := (QNow ~> at_) :: (QUuid ~> id) :: h).
  assert (Hext : extends h h2 []).
  { unfold h2. do 2 (apply extends_step; [|done..]). apply extends_refl. }
  apply wp_bind, wp_lift; [|intros e _; by apply HE].
  intros ev Hev. assert (ev = MkAuditEvent id ty at_
       (rs_tenant_id (rq_scope request)) (rs_product_id (rq_scope request))
       (rs_principal_id (rq_scope request)) (rs_request_id (rq_scope request))
       (rs_correlation_id (rq_scope request)) (rs_purpose (rq_scope request))
       (rq_run_id request) (rs_channel_id (rq_scope request)) cid tn ti data) as Heq.
  { unfold audit_event in Hev. py_simpl. done. }
  apply wp_bind, wp_call; [done|]. intros [[]|e].
  - apply (HR _ ev); [| |left].
    + apply extends_journaled; [done..|]. by rewrite Heq.
    + by rewrite Heq.
  - apply HE. by apply extends_step.
Qed.

Lemma wp_failed_observation intent status f started h R (E : exn -> hist -> Prop) :
  (forall h' o, extends h h' [] -> ob_status o = status -> ob_call_id o = in_call_id intent ->
     ob_failure o = Some f -> R o h') ->
  (forall e h', extends h h' [] -> E e h') ->
  wp I (failed_observation intent status f started) h R E.
Proof.
  intros HR HE. unfold failed_observation. apply wp_bind, wp_call; [done|]. intros now.
  assert (extends h ((QNow ~> now) :: h) []) by (apply extends_step; [apply extends_refl|done..]).
  apply wp_lift; [|auto]. intros o Ho. unfold tool_observation in Ho. py_simpl. by apply HR.
Qed.

(** A denial journals [TOOL_DENIED]; if it fails on the way it may have. *)
Lemma wp_deny intent iteration started code message ti h R (E : exn -> hist -> Prop) :
  (forall h' o, extends h h' [TOOL_DENIED] -> ob_status o = CALL_DENIED -> ob_call_id o = in_call_id intent ->
     (rf_code <$> ob_failure o) = Some code -> R o h') ->
  (forall e h' js, extends h h' js -> js = [] \/ js = [TOOL_DENIED] -> E e h') ->
  wp I (deny request intent iteration started code message ti) h R E.
Proof.
  intros HR HE. unfold deny. apply wp_bind, wp_lift; [|intros e _; apply (HE _ _ []); auto using extends_refl].
  intros f Hf. unfold run_failure in Hf. py_simpl. apply wp_bind, wp_emit; [|intros e h'; eauto].
  intros h1 ev Hx _ _. apply wp_failed_observation.
  - intros h2 o Hx2 Hst Hid Hfo. apply HR; [|done..|by rewrite Hfo]. by apply (extends_trans h h1 h2 [TOOL_DENIED] []).
  - intros e h2 Hx2. apply (HE _ _ [TOOL_DENIED]); [|auto]. by apply (extends_trans h h1 h2 [TOOL_DENIED] []).
Qed.

Lemma wp_tool_failure intent iteration started code message ti h R (E : exn -> hist -> Prop) :
  (forall h' o, extends h h' [TOOL_FINISHED] -> ob_status o = CALL_FAILED -> ob_call_id o = in_call_id intent -> R o h') ->
  (forall e h', E e h') ->
  wp I (tool_failure request intent iteration started code message ti) h R E.
Proof.
  intros HR HE. unfold tool_failure. apply wp_bind, wp_lift; [|auto]. intros f _.
  apply wp_bind, wp_emit; [|auto]. intros h1 ev Hx _ _. apply wp_failed_observation; [|auto].
  intros h2 o Hx2 Hst Hid _. apply HR; [|done..]. by apply (extends_trans h h1 h2 [TOOL_FINISHED] []).
Qed.

(** ** The guards before a handler call *)

(** The component that got the arguments dict to look at left it unchanged. *)
Definition left_unchanged (e : event) : Prop :=
  match e with
  | existT (QValidate _ a) r => r.2 = a
  | existT (QEvaluate _ _ a) r => r.2 = a
  | existT (QRequestApproval _ _ a) r => r.2 = a
  | _ => True
  end.

Definition call_target (intent : ToolIntent) (tool : @RegisteredTool Handler) (digest : string) : ApprovalTarget :=
  MkApprovalTarget (rs_path (rq_scope request)) (rs_principal_id (rq_scope request))
    (rq_run_id request) (in_call_id intent) (rt_identity tool) digest.

(** A binding for exactly this call was consumed, or granted interactively,
    and was valid at a time the runner read. *)
Definition approved (h : hist) (intent : ToolIntent) (tool : @RegisteredTool Handler) (digest : string) : Prop :=
  exists binding now,
    ((exists token, in_approval_token intent = Some token /\
        (QConsume token (call_target intent tool digest) ~> Ok (Some binding)) ∈ h) \/
     (exists a r, in_approval_token intent = None /\ er_interactive_approvals self = true /\
        (QRequestApproval (call_target intent tool digest) (rt_spec tool) a ~> (Ok (Some binding), r)) ∈ h)) /\
    (QNow ~> now) ∈ h /\ approval_matches (call_target intent tool digest) binding now = true.

Definition authorization_given (h : hist) (tool : @RegisteredTool Handler) (auth : ToolAuthorization) : Prop :=
  if er_authorization_policy self
  then exists a r, (QEvaluate (rt_identity tool) (rt_spec tool) a ~> (Ok (Some auth), r)) ∈ h
  else auth = AUTH_DEFAULT.

Lemma wp_authorize tool arguments h (R : ToolAuthorization * args -> hist -> Prop) (E : exn -> hist -> Prop) :
  (forall auth a h', extends h h' [] -> (auth <> AUTH_DENY -> authorization_given h' tool auth) ->
     (Forall left_unchanged h' -> a = arguments) -> R (auth, a) h') ->
  (forall e h', E e h') ->
  wp I (authorize self tool arguments) h R E.
Proof.
  intros HR HE. unfold authorize, authorization_given in *. destruct (er_authorization_policy self); simpl.
  - apply wp_bind, wp_call; [done|]. intros [r a].
    assert (Hx : extends h ((QEvaluate (rt_identity tool) (rt_spec tool) arguments ~> (r, a)) :: h) [])
      by (apply extends_step; [apply extends_refl|done..]).
    assert (Hmut : Forall left_unchanged
        ((QEvaluate (rt_identity tool) (rt_spec tool) arguments ~> (r, a)) :: h) -> a = arguments)
      by (by intros [Hm _]%Forall_cons).
    destruct r as [[auth|]|e]; simpl; [| |destruct (catchable e)]; try done.
    + apply HR; [done| |done]. intros _. exists arguments, a. left.
    + apply HR; done.
    + apply HR; done.
    + apply HE.
  - apply HR; [apply extends_refl|done..].
Qed.

Lemma wp_obtain_approval intent iteration started tool digest arguments h
    (R : approval_step -> hist -> Prop) (E : exn -> hist -> Prop) :
  (forall who a h', extends h h' [] -> approved h' intent tool digest ->
     (Forall left_unchanged h' -> a = arguments) -> R (Proceed (Some who) a) h') ->
  (forall o h' js, extends h h' js -> js = [TOOL_DENIED] \/ js = [TOOL_DENIED; TOOL_DENIED] ->
     ob_status o = CALL_DENIED -> ob_call_id o = in_call_id intent -> R (Refused o) h') ->
  (forall e h', E e h') ->
  wp I (obtain_approval self request intent iteration started tool digest arguments) h R E.
Proof.
  intros HP HR HE. unfold obtain_approval. apply wp_bind, wp_lift; [|auto].
  intros expected ->%approval_target_Ok. fold (call_target intent tool digest).
  set (post := fun (tried : option ApprovalBinding * args + approval_step) (h' : hist) =>
    match tried with
    | inr (Refused o) => extends h h' [TOOL_DENIED] /\ ob_status o = CALL_DENIED /\ ob_call_id o = in_call_id intent
    | inr (Proceed _ _) => False
    | inl (None, _) => extends h h' [] \/ extends h h' [TOOL_DENIED]
    | inl (Some b, a) => extends h h' [] /\ (Forall left_unchanged h' -> a = arguments) /\
        ((exists token, in_approval_token intent = Some token /\
            (QConsume token (call_target intent tool digest) ~> Ok (Some b)) ∈ h') \/
         (exists a' r, in_approval_token intent = None /\ er_interactive_approvals self = true /\
            (QRequestApproval (call_target intent tool digest) (rt_spec tool) a' ~> (Ok (Some b), r)) ∈ h'))
    end).
  apply wp_bind. apply (wp_mono I I _ _ post _ E); [done| |done|].
  - intros [[[b|] a]|[who a|o]] h' Hpost; simpl in Hpost; [| |done|].
    + destruct Hpost as (Hx & Ha & Hsrc). apply wp_bind, wp_call; [done|]. intros now.
      assert (Hx' : extends h ((QNow ~> now) :: h') []) by (by apply extends_step).
      destruct (approval_matches (call_target intent tool digest) b now) eqn:Hm.
      * apply HP; [done| |intros [_ Hall]%Forall_cons; auto]. exists b, now. split_and!; [|left|done].
        destruct Hsrc as [(token & Ht & Hin)|(a' & r & Ht & Hi & Hin)]; [left|right];
          repeat eexists; eauto; by right.
      * apply wp_bind, wp_deny; [|auto]. intros h2 o Hx2 Hst Hid _.
        apply (HR _ _ [TOOL_DENIED]); [|auto..]. by apply (extends_trans h ((QNow ~> now) :: h') h2 [] [TOOL_DENIED]).
    + apply wp_bind, wp_deny; [|auto]. intros h2 o Hx2 Hst Hid _. destruct Hpost as [Hx|Hx].
      * apply (HR _ _ [TOOL_DENIED]); [|auto..]. by apply (extends_trans h h' h2 [] [TOOL_DENIED]).
      * apply (HR _ _ [TOOL_DENIED; TOOL_DENIED]); [|auto..].
        by apply (extends_trans h h' h2 [TOOL_DENIED] [TOOL_DENIED]).
    + destruct Hpost as (Hx & Hst & Hid). apply (HR _ _ [TOOL_DENIED]); auto.
  - apply wp_catch. destruct (in_approval_token intent) as [token|] eqn:Htok; [|destruct (er_interactive_approvals self) eqn:Hint].
    + apply wp_bind. unfold await. apply wp_bind, wp_call; [done|]. intros r.
      assert (Hx : extends h ((QConsume token (call_target intent tool digest) ~> r) :: h) [])
        by (apply extends_step; [apply extends_refl|done..]).
      apply wp_lift.
      * intros [b|] ->; [|by left]. split; [done|]. split; [done|]. left. exists token. split; [done|left].
      * intros e ->. destruct (catchable e); [by left|auto].
    + apply wp_bind, wp_call; [done|]. intros [r a].
      set (ev := existT (P := answer) _ _).
      assert (Hx : extends h (ev :: h) []) by (apply extends_step; [apply extends_refl|done..]).
      destruct r as [[b|]|e]; simpl.
      * split; [done|]. split; [by intros [Hm _]%Forall_cons|]. right. exists arguments, a. split_and!; [done..|left].
      * by left.
      * destruct (catchable e) eqn:Hc; [by left|]. unfold wp. rewrite Hc. auto.
    + apply wp_bind, wp_bind, wp_deny.
      * intros h' o Hx Hst Hid _. simpl. done.
      * intros e h' js Hx [-> | ->]; (destruct (catchable e); [|auto]); [by left|by right].
Qed.

Lemma wp_safe_registration name h (R : bool -> hist -> Prop) (E : exn -> hist -> Prop) :
  (forall r, R (safe_registered name r) ((QResolve name ~> r) :: h)) ->
  wp I (safe_registration name) h R E.
Proof. intros HR. unfold safe_registration. apply wp_bind, wp_call; [done|]. intros r. apply HR. Qed.

Lemma wp_bound_result intent iteration started g tool value h
    (R : json + ToolObservation -> hist -> Prop) (E : exn -> hist -> Prop) :
  (forall v h', extends h h' [] -> R (inl v) h') ->
  (forall o h', extends h h' [TOOL_FINISHED] -> ob_status o = CALL_FAILED -> ob_call_id o = in_call_id intent ->
     R (inr o) h') ->
  (forall e h', E e h') ->
  wp I (bound_result self request intent iteration started g tool value) h R E.
Proof.
  intros HR HF HE. unfold bound_result. apply wp_bind, wp_call; [done|]. intros reader.
  assert (Hx : extends h ((QResolve "suiteharness.result.read" ~> reader) :: h) [])
    by (apply extends_step; [apply extends_refl|done..]).
  case_match; [|by apply HR]. apply wp_bind, wp_call; [done|]. intros stored.
  set (ev := existT (P := answer) (QPut _) _). set (h1 := existT _ _ :: h) in *.
  assert (Hx' : extends h (ev :: h1) []) by (by apply extends_step).
  destruct stored as [reference|e]; [by apply HR|]. destruct (catchable e); [|apply HE].
  apply wp_bind, wp_tool_failure; [|auto]. intros h2 o Hx2 Hst Hid. apply HF; [|done..].
  by apply (extends_trans h (ev :: h1) h2 [] [TOOL_FINISHED]).
Qed.

(** How the journal and the handler count end for a call whose handler ran. *)
Definition ran (h h' : hist) (o : ToolObservation) : Prop :=
  handles h' = S (handles h) /\
  ((ob_status o = CALL_DENIED /\ journal h' = TOOL_DENIED :: TOOL_STARTED :: journal h) \/
   ((ob_status o = CALL_SUCCEEDED \/ ob_status o = CALL_FAILED) /\
    journal h' = TOOL_FINISHED :: TOOL_STARTED :: journal h)).

Lemma ran_after h h1 h2 e o last :
  extends h h1 [TOOL_STARTED] -> is_handle e = true -> extends (e :: h1) h2 [last] ->
  (ob_status o = CALL_DENIED /\ last = TOOL_DENIED) \/
  ((ob_status o = CALL_SUCCEEDED \/ ob_status o = CALL_FAILED) /\ last = TOOL_FINISHED) -> ran h h2 o.
Proof.
  intros Hx He Hx2 Ho. assert (Hj : journaled e = None).
  { destruct e as [[] ?]; done. }
  split.
  - rewrite (extends_handles _ _ _ Hx2). unfold handles at 1. simpl. rewrite He. simpl.
    by rewrite <- (extends_handles _ _ _ Hx).
  - assert (journal (e :: h1) = journal h1) as Heq by (unfold journal; simpl; by rewrite Hj).
    rewrite (extends_journal _ _ _ Hx2), Heq, (extends_journal _ _ _ Hx). simpl. naive_solver.
Qed.

Lemma wp_invoke intent iteration started mono g tool who original arguments h
    (R : ToolObservation -> hist -> Prop) (E : exn -> hist -> Prop) :
  (forall h1 ev data ctx a, extends h h1 [TOOL_STARTED] ->
     audited TOOL_STARTED (Some (in_call_id intent)) (Some (in_tool_name intent)) (Some (rt_identity tool)) data ev ->
     (QAppend ev ~> Ok tt) ∈ h1 ->
     tc_scope ctx = rq_scope request -> tc_run_id ctx = rq_run_id request -> tc_call_id ctx = in_call_id intent ->
     tc_tool_identity ctx = rt_identity tool -> tc_read_only ctx = rq_read_only request ->
     I h1 (QHandle tool ctx arguments ~> a)) ->
  (forall o h', ran h h' o -> ob_call_id o = in_call_id intent -> R o h') ->
  (forall e h', E e h') ->
  wp I (invoke self request intent iteration started mono g tool who original arguments) h R E.
Proof.
  intros HI HR HE. unfold invoke. apply wp_bind, wp_emit; [|auto]. intros h1 ev Hx Hev Hin.
  unfold await. apply wp_bind, wp_bind, wp_call; [done|]. intros published.
  set (h2 := existT _ published :: h1).
  assert (Hx2 : extends h h2 [TOOL_STARTED]) by (by apply extends_step).
  apply wp_lift; [|auto]. intros [] _. apply wp_bind, wp_call; [done|]. intros now.
  set (h3 := existT _ now :: h2).
  assert (Hx3 : extends h h3 [TOOL_STARTED]) by (by apply extends_step).
  apply wp_bind, wp_ask. intros outcome. split.
  { eapply HI; try done. do 2 right. exact Hin. }
  set (e := existT _ outcome). assert (He : is_handle e = true) by done. clearbody e h3.
  assert (Hfail : forall h' o, extends (e :: h3) h' [TOOL_FINISHED] -> ob_status o = CALL_FAILED ->
      ob_call_id o = in_call_id intent -> R o h').
  { intros h' o Hx4 Hst Hid. apply HR; [|done]. eapply (ran_after h h3 h' e); eauto. }
  destruct outcome as [[value|]| |ex].
  - destruct (all_finite value); simpl; [|by apply wp_tool_failure].
    destruct (_ <? canonical_len value); [by apply wp_tool_failure|]. apply wp_bind, wp_bound_result;
      [|intros o h' Hx' Hst Hid; by apply (Hfail h' o)|done].
    intros v h4 Hx4. apply wp_bind, wp_call; [done|]. intros fin.
    apply wp_bind, wp_emit; [|auto]. intros h5 ev5 Hx5 _ _.
    apply wp_bind, wp_safe_registration. intros reg. apply wp_lift; [|auto]. intros o Ho.
    assert (ob_status o = CALL_SUCCEEDED /\ ob_call_id o = in_call_id intent) as [Hst Hid].
    { unfold tool_observation in Ho. py_simpl. done. }
    apply HR; [|done]. eapply (ran_after h h3 _ e _ TOOL_FINISHED); [done..| |eauto].
    apply extends_step; [|done..].
    apply (extends_trans _ h4 _ [] [TOOL_FINISHED]); [done|].
    apply (extends_trans _ ((QNow ~> fin) :: h4) _ [] [TOOL_FINISHED]); [|done].
    apply extends_step; [apply extends_refl|done..].
  - by apply wp_tool_failure.
  - apply wp_deny; [|auto]. intros h' o Hx4 Hst Hid _. apply HR; [|done].
    eapply (ran_after h h3 h' e); eauto.
  - destruct (catchable ex); simpl; [|apply HE].
    destruct (is_value_error ex); by apply wp_tool_failure.
Qed.

Lemma wp_grant h (R : CapabilityGrant + RunFailure -> hist -> Prop) (E : exn -> hist -> Prop) :
  (forall g now h', extends h h' [] -> (QGrant (rq_grant_id request) ~> Ok (Some g)) ∈ h' ->
     (QNow ~> now) ∈ h' -> now < cg_expires_at g -> grant_in_scope request g = true -> R (inl g) h') ->
  (forall f h', extends h h' [] -> R (inr f) h') ->
  (forall e h', E e h') ->
  wp I (grant request) h R E.
Proof.
  intros HR HF HE. unfold grant. apply wp_bind, wp_call; [done|]. intros r.
  set (e := existT _ r). assert (Hx : extends h (e :: h) []) by (apply extends_step; [apply extends_refl|done..]).
  destruct r as [[g|]|ex]; [| by apply HF | destruct (catchable ex); [by apply HF|apply HE]].
  destruct (grant_in_scope request g) eqn:Hs; simpl; [|by apply HF].
  apply wp_bind, wp_call; [done|]. intros now.
  assert (Hx' : extends h ((QNow ~> now) :: e :: h) []) by (by apply extends_step).
  destruct (Z.leb_spec (cg_expires_at g) now); [by apply HF|].
  apply (HR g now); [done| |left|done..]. right. left.
Qed.
End Quiet.

(** ** Mediation *)

(** What has happened before a handler is entered for [intent] with [arguments]. *)
Record mediated (intent : ToolIntent) (duplicate : bool) (h : hist) (tool : @RegisteredTool Handler)
    (ctx : ToolCallContext) (arguments : args) : Prop := {
  md_fresh : duplicate = false;
  md_size : canonical_len (JObj (detach_arguments (in_arguments intent))) <= ep_max_tool_argument_bytes (er_policy self);
  md_resolved : (QResolve (in_tool_name intent) ~> Some tool) ∈ h;
  md_granted : exists g now,
    (QGrant (rq_grant_id request) ~> Ok (Some g)) ∈ h /\ (QNow ~> now) ∈ h /\ now < cg_expires_at g /\
    grant_in_scope request g = true /\ rt_identity tool ∈ cg_tool_identities g /\
    ts_required_capabilities (rt_spec tool) ⊆ cg_capabilities g;
  md_read_only : rq_read_only request = true -> is_read (rt_spec tool) = true;
  md_resume : rq_resume request <> None ->
    exists r, (QResolve (in_tool_name intent) ~> r) ∈ h /\ safe_registered (in_tool_name intent) r = true;
  md_valid : exists r, (QValidate tool (detach_arguments (in_arguments intent)) ~> (Ok true, r)) ∈ h;
  md_authorized : exists auth digest,
    authorization_given h tool auth /\ auth <> AUTH_DENY /\
    arguments_digest (detach_arguments (in_arguments intent)) = Ok digest /\
    (needs_approval self auth (rt_spec tool) = true -> approved h intent tool digest) /\
    exists ev, (QAppend ev ~> Ok tt) ∈ h /\
      audited TOOL_INTENT (Some (in_call_id intent)) (Some (in_tool_name intent)) (Some (rt_identity tool))
        [("arguments_digest", JStr digest)] ev;
  md_started : exists ev data, (QAppend ev ~> Ok tt) ∈ h /\
      audited TOOL_STARTED (Some (in_call_id intent)) (Some (in_tool_name intent)) (Some (rt_identity tool)) data ev;
  md_context : tc_scope ctx = rq_scope request /\ tc_run_id ctx = rq_run_id request /\
    tc_call_id ctx = in_call_id intent /\ tc_tool_identity ctx = rt_identity tool /\
    tc_read_only ctx = rq_read_only request;
  md_arguments : Forall left_unchanged h -> arguments = detach_arguments (in_arguments intent);
}.

Lemma approved_sub h h' intent tool digest :
  (forall e, e ∈ h -> e ∈ h') -> approved h intent tool digest -> approved h' intent tool digest.
Proof.
  intros Hsub (b & now & Hsrc & Hnow & Hm). exists b, now. split_and!; [|auto..].
  destruct Hsrc as [(token & Ht & Hin)|(a & r & Ht & Hi & Hin)]; [left|right]; eauto 10.
Qed.

Lemma authorization_given_sub h h' tool auth :
  (forall e, e ∈ h -> e ∈ h') -> authorization_given h tool auth -> authorization_given h' tool auth.
Proof. unfold authorization_given. destruct (er_authorization_policy self); naive_solver. Qed.

Lemma mediated_reverse intent duplicate h tool ctx a :
  mediated intent duplicate h tool ctx a -> mediated intent duplicate (reverse h) tool ctx a.
Proof.
  assert (Hsub : forall e, e ∈ h -> e ∈ reverse h) by (intros; by apply elem_of_reverse).
  intros [M1 M2 M3 (g & now & Mg & Mn & M4) M5 M6 (r & M7) (auth & d & M8 & M9 & M10 & M11 & ev & M12 & M13)
    (ev' & data & M14 & M15) M16 M17].
  constructor; eauto 8.
  - intros Hr. destruct (M6 Hr) as (r' & Hr' & Hs). eauto.
  - exists auth, d. split_and!; [by eapply authorization_given_sub|done..| |eauto].
    intros Hn. eapply approved_sub; eauto.
  - intros Hall. apply M17. by apply Forall_reverse.
Qed.

(** The condition on the events of a call: handlers are entered mediated, once. *)
Definition guarded (intent : ToolIntent) (duplicate : bool) (h : hist) (e : event) : Prop :=
  match e with
  | existT (QHandle tool ctx a) _ => mediated intent duplicate (reverse h) tool ctx a /\ handles h = 0%nat
  | _ => True
  end.

Lemma guarded_quiet intent duplicate : on_handle (guarded intent duplicate).
Proof. intros h [[] a]; done. Qed.

(** How a call can end: refused before the handler, or after running it. *)
Definition settled (intent : ToolIntent) (o : ToolObservation) (h : hist) : Prop :=
  ob_call_id o = in_call_id intent /\
  ((handles h = 0%nat /\ ob_status o = CALL_DENIED /\
    (journal h = [TOOL_DENIED; TOOL_INTENT] \/ journal h = [TOOL_DENIED; TOOL_DENIED; TOOL_INTENT])) \/
   (handles h = 1%nat /\
    ((ob_status o = CALL_DENIED /\ journal h = [TOOL_DENIED; TOOL_STARTED; TOOL_INTENT]) \/
     ((ob_status o = CALL_SUCCEEDED \/ ob_status o = CALL_FAILED) /\
      journal h = [TOOL_FINISHED; TOOL_STARTED; TOOL_INTENT])))).

Lemma settled_denied intent o h js :
  extends [] h (js ++ [TOOL_INTENT]) -> js = [TOOL_DENIED] \/ js = [TOOL_DENIED; TOOL_DENIED] ->
  ob_status o = CALL_DENIED -> ob_call_id o = in_call_id intent -> settled intent o h.
Proof.
  intros Hx Hjs Hst Hid. split; [done|]. left. rewrite (extends_handles _ _ _ Hx), (extends_journal _ _ _ Hx).
  split_and!; [done..|]. destruct Hjs as [-> | ->]; auto.
Qed.

Lemma settled_ran intent o h h' :
  extends [] h [TOOL_INTENT] -> ran h h' o -> ob_call_id o = in_call_id intent -> settled intent o h'.
Proof.
  intros Hx [Hn Hj] Hid. split; [done|]. right. rewrite Hn, (extends_handles _ _ _ Hx).
  rewrite (extends_journal _ _ _ Hx) in Hj. done.
Qed.

(** What holds when the schema check is reached *)
Record ready (intent : ToolIntent) (duplicate : bool) (h : hist) (tool : @RegisteredTool Handler)
    (digest : string) : Prop := {
  rd_ext : extends [] h [TOOL_INTENT];
  rd_fresh : duplicate = false;
  rd_size : canonical_len (JObj (detach_arguments (in_arguments intent))) <= ep_max_tool_argument_bytes (er_policy self);
  rd_digest : arguments_digest (detach_arguments (in_arguments intent)) = Ok digest;
  rd_resolved : (QResolve (in_tool_name intent) ~> Some tool) ∈ h;
  rd_granted : exists g now,
    (QGrant (rq_grant_id request) ~> Ok (Some g)) ∈ h /\ (QNow ~> now) ∈ h /\ now < cg_expires_at g /\
    grant_in_scope request g = true /\ rt_identity tool ∈ cg_tool_identities g /\
    ts_required_capabilities (rt_spec tool) ⊆ cg_capabilities g;
  rd_read_only : rq_read_only request = true -> is_read (rt_spec tool) = true;
  rd_resume : rq_resume request <> None ->
    exists r, (QResolve (in_tool_name intent) ~> r) ∈ h /\ safe_registered (in_tool_name intent) r = true;
  rd_intent : exists ev, (QAppend ev ~> Ok tt) ∈ h /\
      audited TOOL_INTENT (Some (in_call_id intent)) (Some (in_tool_name intent)) (Some (rt_identity tool))
        [("arguments_digest", JStr digest)] ev;
}.

(** The approval step, whether or not an approval is needed *)
Lemma wp_approval_step I intent iteration started tool digest auth arguments h
    (R : approval_step -> hist -> Prop) (E : exn -> hist -> Prop) :
  on_handle I ->
  (forall who a h', extends h h' [] ->
     (needs_approval self auth (rt_spec tool) = true -> approved h' intent tool digest) ->
     (Forall left_unchanged h' -> a = arguments) -> R (Proceed who a) h') ->
  (forall o h' js, extends h h' js -> js = [TOOL_DENIED] \/ js = [TOOL_DENIED; TOOL_DENIED] ->
     ob_status o = CALL_DENIED -> ob_call_id o = in_call_id intent -> R (Refused o) h') ->
  (forall e h', E e h') ->
  wp I (if needs_approval self auth (rt_spec tool)
        then obtain_approval self request intent iteration started tool digest arguments
        else Ret (Proceed None arguments)) h R E.
Proof.
  intros HI HP HR HE. destruct (needs_approval self auth (rt_spec tool)).
  - apply wp_obtain_approval; auto.
  - apply HP; [apply extends_refl|done..].
Qed.

Lemma wp_authorized_call intent duplicate iteration started mono g tool digest h :
  ready intent duplicate h tool digest ->
  wp (guarded intent duplicate)
    (authorized_call self request intent iteration started mono g tool
       (detach_arguments (in_arguments intent)) digest) h
    (settled intent) (fun _ _ => True).
Proof.
  intros Hrd. pose proof (guarded_quiet intent duplicate) as HI.
  pose proof (rd_ext _ _ _ _ _ Hrd) as Hx0.
  assert (Hdeny : forall h1 h2 o js, extends h h1 [] -> extends h1 h2 js ->
    js = [TOOL_DENIED] \/ js = [TOOL_DENIED; TOOL_DENIED] -> ob_status o = CALL_DENIED ->
    ob_call_id o = in_call_id intent -> settled intent o h2).
  { intros h1 h2 o js Hx1 Hx2 Hjs Hst Hid. eapply (settled_denied _ _ _ js); [|done..].
    apply (extends_trans [] h1 h2 [TOOL_INTENT] js); [|done]. by apply (extends_trans [] h h1 [TOOL_INTENT] []). }
  unfold authorized_call. apply wp_bind, wp_call; [done..|]. intros [valid a1].
  set (ev1 := existT (P := answer) (QValidate tool (detach_arguments (in_arguments intent))) (valid, a1)).
  assert (Hx1 : extends h (ev1 :: h) []) by (apply extends_step; [apply extends_refl|done..]).
  destruct valid as [[]|e]; simpl; [| |done].
  2: { apply wp_deny; [done| |done]. intros h2 o Hx2 Hst Hid _. eapply (Hdeny _ _ _ [TOOL_DENIED]); eauto. }
  apply wp_bind, wp_authorize; [done| |done]. intros auth a2 h2 Hx2 Hauth Hmut2.
  assert (Hx12 : extends h h2 []) by (by apply (extends_trans h (ev1 :: h) h2 [] [])).
  case_bool_decide as Hden.
  { apply wp_deny; [done| |done]. intros h3 o Hx3 Hst Hid _. eapply (Hdeny _ _ _ [TOOL_DENIED]); eauto. }
  specialize (Hauth Hden). apply wp_bind, wp_approval_step; [done| | |done].
  2: { intros o h3 js Hx3 Hjs Hst Hid. by eapply (Hdeny h2). }
  intros who a3 h3 Hx3 Happ Hmut3.
  assert (Hx13 : extends h h3 []) by (by apply (extends_trans h h2 h3 [] [])).
  apply wp_invoke; [done| | |done].
  2: { intros o h4 Hran Hid. apply (settled_ran intent o h3); [|done..].
       by apply (extends_trans [] h h3 [TOOL_INTENT] []). }
  intros h4 ev data ctx ans Hx4 Hev Hin Hc1 Hc2 Hc3 Hc4 Hc5.
  assert (Hx34 : extends h h4 [TOOL_STARTED]) by (by apply (extends_trans h h3 h4 [] [TOOL_STARTED])).
  pose proof (fun e => extends_elem h h4 _ e Hx34) as Hsub.
  pose proof (fun e => extends_elem h3 h4 _ e Hx4) as Hsub3.
  pose proof (fun e => extends_elem h2 h3 _ e Hx3) as Hsub2.
  pose proof (fun e => extends_elem (ev1 :: h) h2 _ e Hx2) as Hsub1.
  destruct Hrd as [_ R1 R2 R3 R4 (g' & now & Rg & Rn & R5) R6 R7 (ev0 & R8 & R9)].
  split; [|by rewrite (extends_handles _ _ _ Hx34), (extends_handles _ _ _ Hx0)].
  apply mediated_reverse. constructor; eauto 8.
  - intros Hres. destruct (R7 Hres) as (r & Hr & Hs). eauto.
  - exists a1. apply Hsub3, Hsub2, Hsub1. left.
  - exists auth, digest. split_and!; [|done|done| |eauto].
    + eapply authorization_given_sub; [|exact Hauth]. auto.
    + intros Hn. eapply approved_sub; [|by apply Happ]. auto.
  - intros Hall. assert (Hall3 : Forall left_unchanged h3).
    { apply Forall_forall. intros e He. rewrite Forall_forall in Hall. auto. }
    assert (Hall2 : Forall left_unchanged h2).
    { apply Forall_forall. intros e He. rewrite Forall_forall in Hall3. auto. }
    rewrite (Hmut3 Hall3), (Hmut2 Hall2). rewrite Forall_forall in Hall2.
    apply (Hall2 ev1). apply Hsub1. left.
Qed.

Lemma wp_resume_check I name h (R : bool -> hist -> Prop) (E : exn -> hist -> Prop) :
  on_handle I ->
  (forall b h', extends h h' [] ->
     (b = true -> rq_resume request <> None ->
      exists r, (QResolve name ~> r) ∈ h' /\ safe_registered name r = true) -> R b h') ->
  wp I (if is_none (rq_resume request) then Ret true else safe_registration name) h R E.
Proof.
  intros HI HR. destruct (rq_resume request) as [r|] eqn:Hr; simpl.
  - apply wp_safe_registration; [done|]. intros reg. apply HR.
    + apply extends_step; [apply extends_refl|done..].
    + intros Hb _. exists reg. split; [left|done].
  - apply HR; [apply extends_refl|done].
Qed.

Lemma wp_execute_intent intent iteration mono duplicate :
  wp (guarded intent duplicate) (execute_intent self request intent iteration mono duplicate) []
    (settled intent) (fun _ _ => True).
Proof.
  pose proof (guarded_quiet intent duplicate) as HI. unfold execute_intent.
  apply wp_bind, wp_call; [done..|]. intros started.
  apply wp_bind, wp_lift; [intros _ _|done]. apply wp_bind, wp_lift; [|done].
  intros payload [_ ->]%canonical_json_Ok. fold (canonical_len (JObj (detach_arguments (in_arguments intent)))).
  apply wp_bind, wp_lift; [|done]. intros digest Hdigest.
  apply wp_bind, wp_call; [done..|]. intros registered.
  set (h1 := (QResolve _ ~> registered) :: _).
  assert (Hx1 : extends [] h1 []) by (unfold h1; do 2 (apply extends_step; [|done..]); apply extends_refl).
  assert (Hin1 : (QResolve (in_tool_name intent) ~> registered) ∈ h1) by left. clearbody h1.
  apply wp_bind, wp_emit; [done| |done]. intros h2 ev Hx2 Hev Hin2.
  assert (Hx02 : extends [] h2 [TOOL_INTENT]) by (by apply (extends_trans [] h1 h2 [] [TOOL_INTENT])).
  assert (Hrefuse : forall h3 code message, extends h2 h3 [] ->
    wp (guarded intent duplicate)
      (deny request intent iteration started code message (rt_identity <$> registered)) h3
      (settled intent) (fun _ _ => True)).
  { intros h3 code message Hx3. apply wp_deny; [done| |done]. intros h4 o Hx4 Hst Hid _.
    apply (settled_denied intent o h4 [TOOL_DENIED]); [|auto..].
    apply (extends_trans [] h3 h4 [TOOL_INTENT] [TOOL_DENIED]); [|done].
    by apply (extends_trans [] h2 h3 [TOOL_INTENT] []). }
  destruct (Z.ltb_spec (ep_max_tool_argument_bytes (er_policy self))
    (canonical_len (JObj (detach_arguments (in_arguments intent))))); [apply Hrefuse, extends_refl|].
  destruct duplicate; [apply Hrefuse, extends_refl|].
  apply wp_bind, wp_grant; [done| |intros f h3 Hx3; by apply Hrefuse|done].
  intros g now h3 Hx3 Hg Hnow Hlive Hscope.
  destruct registered as [tool|]; [|by apply Hrefuse].
  case_bool_decide as Hid; simpl; [|by apply (Hrefuse h3)].
  case_bool_decide as Hcaps; simpl; [|by apply (Hrefuse h3)].
  destruct (rq_read_only request && negb (is_read (rt_spec tool))) eqn:Hro; [by apply (Hrefuse h3)|].
  apply wp_bind, wp_resume_check; [done|]. intros resumable h4 Hx4 Hres.
  assert (Hx24 : extends h2 h4 []) by (by apply (extends_trans h2 h3 h4 [] [])).
  destruct resumable; simpl; [|by apply (Hrefuse h4)].
  apply wp_authorized_call.
  assert (Hsub2 : forall e, e ∈ h2 -> e ∈ h4) by (intros e; by apply (extends_elem h2 h4 [])).
  assert (Hsub3 : forall e, e ∈ h3 -> e ∈ h4) by (intros e; by apply (extends_elem h3 h4 [])).
  assert (Hsub1 : forall e, e ∈ h1 -> e ∈ h2) by (intros e; by apply (extends_elem h1 h2 [TOOL_INTENT])).
  constructor; auto.
  - by apply (extends_trans [] h2 h4 [TOOL_INTENT] []).
  - exists g, now. split_and!; auto. set_solver.
  - intros Hr. rewrite Hr in Hro. by destruct (is_read (rt_spec tool)).
  - exists ev. split; [auto|done].
Qed.
End Mediation.

(** ** Properties *)

(** C1. Complete mediation.  In every trace of [_execute_intent], finished,
    failed or cancelled, and whatever every collaborator answers: before a tool
    handler is entered the call was not a duplicate and its arguments within
    the limit; the intent was journaled with the arguments' digest; the tool is
    the one the registry resolved; a grant that belongs to the request's
    tenant, product and principal and had not expired lists the tool's exact
    identity and all capabilities it requires; the schema accepted the
    arguments; the policy (if any) did not deny; a call that needs approval had
    one for this very scope, principal, run, call, tool and digest; and the
    start was journaled.  The handler gets the validated arguments unless a
    trusted collaborator changed them in place. *)
Theorem complete_mediation {Handler : Type} `{Hashing} self request intent iteration mono duplicate
    t o t1 (tool : @RegisteredTool Handler) ctx a r t2 :
  run_to (execute_intent self request intent iteration mono duplicate) t o ->
  t = (t1 ++ (QHandle tool ctx a ~> r) :: t2)%list ->
  mediated self request intent duplicate t1 tool ctx a.
Proof.
  intros Hrun Ht. destruct (wp_sound _ _ _ _ _ _ _ (wp_execute_intent self request intent iteration mono duplicate) Hrun)
    as [Hall _]. destruct (Hall _ _ _ Ht) as [Hm _].
  by rewrite reverse_app, reverse_nil, reverse_involutive in Hm.
Qed.

(** C5. A destructive tool never runs without an approval of that very call:
    no authorization answer and no configured policy can waive it. *)
Theorem destructive_needs_approval {Handler : Type} `{Hashing} self request intent iteration mono duplicate
    t o t1 (tool : @RegisteredTool Handler) ctx a r t2 :
  run_to (execute_intent self request intent iteration mono duplicate) t o ->
  t = (t1 ++ (QHandle tool ctx a ~> r) :: t2)%list ->
  DESTRUCTIVE ∈ ts_effects (rt_spec tool) ->
  exists digest, arguments_digest (detach_arguments (in_arguments intent)) = Ok digest /\
    approved self request t1 intent tool digest.
Proof.
  intros Hrun Ht Hd. destruct (wp_sound _ _ _ _ _ _ _ (wp_execute_intent self request intent iteration mono duplicate) Hrun)
    as [Hall _]. destruct (Hall _ _ _ Ht) as [Hm _].
  rewrite reverse_app, reverse_nil, reverse_involutive in Hm.
  destruct (md_authorized _ _ _ _ _ _ _ _ Hm) as (auth & digest & _ & _ & Hdig & Happ & _).
  exists digest. split; [done|]. apply Happ. unfold needs_approval. by rewrite bool_decide_true.
Qed.

(** The audit trail of a call that produces an observation is complete and
    tells the outcome: it opens with the intent; if the handler ran, exactly
    once, its start is recorded before and the finish (or the handler's own
    refusal) after it; otherwise no handler ran and the call was denied. *)
Theorem intent_audit_trail {Handler : Type} `{Hashing} self request intent iteration mono duplicate
    (t : list (event (@answer Handler))) ob :
  run_to (execute_intent self request intent iteration mono duplicate) t (Done ob) ->
  ob_call_id ob = in_call_id intent /\
  ((handles t = 0%nat /\ ob_status ob = CALL_DENIED /\
    (journal t = [TOOL_INTENT; TOOL_DENIED] \/ journal t = [TOOL_INTENT; TOOL_DENIED; TOOL_DENIED])) \/
   (handles t = 1%nat /\
    ((ob_status ob = CALL_DENIED /\ journal t = [TOOL_INTENT; TOOL_STARTED; TOOL_DENIED]) \/
     ((ob_status ob = CALL_SUCCEEDED \/ ob_status ob = CALL_FAILED) /\
      journal t = [TOOL_INTENT; TOOL_STARTED; TOOL_FINISHED])))).
Proof.
  intros Hrun. destruct (wp_sound _ _ _ _ _ _ _ (wp_execute_intent self request intent iteration mono duplicate) Hrun)
    as [_ Hend]. rewrite app_nil_r in Hend. unfold settled in Hend.
  rewrite handles_reverse, journal_reverse in Hend. rewrite !reverse_eq_iff in Hend. exact Hend.
Qed.

(** ** A concrete call: a destructive tool with a consumed approval *)
Definition zeros : string := "0000000000000000000000000000000000000000000000000000000000000000".
#[local] Instance demo_hash : Hashing := fun _ => zeros.

Definition demo_runner : ExecutionRunner :=
  MkExecutionRunner (MkExecutionPolicy {[WRITE; DESTRUCTIVE; EXTERNAL]} 262144 262144 1048576 1048576 262144
    16 32 4 (seconds 120)) true false false.
Definition demo_run : RunRequest :=
  MkRunRequest "run-1" Registry.demo_request "grant-1" JNull (MkConversationContext [] false "" "" false)
    false (MkExecutionBudget 8 8 2 (seconds 60)) None.
Definition demo_identity : ToolIdentity := MkToolIdentity "product" "wipe" "scope:product:acme:shop" "1".
Definition demo_wipe : @RegisteredTool unit :=
  MkRegisteredTool Registry.demo_product demo_identity
    (MkToolSpec "wipe" "" {[WRITE; DESTRUCTIVE]} {["disk"]} []) tt.
Definition demo_grant : CapabilityGrant :=
  MkCapabilityGrant "grant-1" "acme" "shop" {[demo_identity]} {["disk"]} None 0 1000.
Definition demo_intent : ToolIntent := MkToolIntent "call-1" "wipe" [("b", JInt 1); ("a", JNull)] (Some "secret").
Definition demo_binding : ApprovalBinding :=
  MkApprovalBinding (call_target demo_run demo_intent demo_wipe zeros) "chief" 0 1000.

(** Every collaborator allows the call; the state is a clock. *)
Definition demo_env (q : query unit) (s : Z) : answer q * Z :=
  match q with
  | QNow | QMonotonic => (s, s + 1)
  | QUuid => ("e", s)
  | QAppend _ | QPublish _ _ _ => (Ok tt, s)
  | QResolve name => (if decide (name = "wipe") then Some demo_wipe else None, s)
  | QGrant _ => (Ok (Some demo_grant), s)
  | QValidate _ a => ((Ok true, a), s)
  | QEvaluate _ _ a => ((Ok (Some AUTH_ALLOW), a), s)
  | QConsume _ _ => (Ok (Some demo_binding), s)
  | QRequestApproval _ _ a => ((Ok None, a), s)
  | QHandle _ _ _ => (HReturn (Some (JStr "done")), s)
  | QPut _ => (Ok JNull, s)
  | QTakeIteration => (true, s)
  | QStore _ => (tt, s)
  | QTakeSlots n => (Ok n, s)
  | QRender _ => (Ok None, s)
  | QResumeKey _ _ => (Ok None, s)
  | QWorkflow _ _ => (([SDecision (MkWorkflowDecision FINAL [] (JStr "ok") JNull)], Ok tt), s)
  | QReview _ d => (Ok (Some d), s)
  | QBatch _ _ _ => (Ok [], s)
  end.

Definition demo_call : prog (@answer unit) ToolObservation :=
  execute_intent demo_runner demo_run demo_intent 1 0 false.
Definition demo_trace : list (event (@answer unit)) := (interp demo_env demo_call 10).1.1.
Definition demo_observation : ToolObservation :=
  MkToolObservation "call-1" "wipe" (Some demo_identity) None CALL_SUCCEEDED (JStr "done") None 10 16.
Definition demo_context : ToolCallContext :=
  MkToolCallContext Registry.demo_request "run-1" "call-1" demo_identity (rt_spec demo_wipe)
    (seconds 60 - 15) "grant-1" false.

Definition demo_before : list (event (@answer unit)) := take 16 demo_trace.

Lemma demo_handled : demo_trace =
  (demo_before ++ (QHandle demo_wipe demo_context [("a", JNull); ("b", JInt 1)] ~> HReturn (Some (JStr "done")))
    :: drop 17 demo_trace)%list.
Proof. vm_cast_no_check (eq_refl demo_trace). Qed.

Lemma complete_mediation_witness :
  mediated demo_runner demo_run demo_intent false demo_before demo_wipe demo_context [("a", JNull); ("b", JInt 1)].
Proof.
  apply (complete_mediation demo_runner demo_run demo_intent 1 0 false demo_trace
    (interp demo_env demo_call 10).1.2 demo_before demo_wipe demo_context [("a", JNull); ("b", JInt 1)]
    (HReturn (Some (JStr "done"))) (drop 17 demo_trace)).
  - apply interp_run_to.
  - apply demo_handled.
Defined.

Lemma destructive_needs_approval_witness :
  exists digest, approved demo_runner demo_run demo_before demo_intent demo_wipe digest.
Proof.
  destruct (destructive_needs_approval demo_runner demo_run demo_intent 1 0 false demo_trace
    (interp demo_env demo_call 10).1.2 demo_before demo_wipe demo_context [("a", JNull); ("b", JInt 1)]
    (HReturn (Some (JStr "done"))) (drop 17 demo_trace)) as (digest & _ & Happ).
  - apply interp_run_to.
  - apply demo_handled.
  - decide_by_vm.
  - exact (ex_intro _ digest Happ).
Defined.

Lemma demo_call_done : run_to demo_call demo_trace (Done demo_observation).
Proof.
  assert (Ho : (interp demo_env demo_call 10).1.2 = Done demo_observation)
    by vm_cast_no_check (eq_refl (Done demo_observation)).
  rewrite <- Ho. apply interp_run_to.
Qed.

Lemma intent_audit_trail_witness : ob_call_id demo_observation = in_call_id demo_intent.
Proof.
  apply (intent_audit_trail demo_runner demo_run demo_intent 1 0 false demo_trace demo_observation).
  apply demo_call_done.
Defined.
End Mediation.
