(* ===== verification/RunnerLoop.v ===== *)
(** * The run loop of the trusted executor ([execution/runner.py], [_run_loop])

    The [_RunState] object is shared with the code that cancels or times out a
    run, so every assignment to it is a [QStore] event.  Pydantic's JSON dumps
    of timestamps-bearing models and the rendered clock text are parameters. *)
From S2P Require Import Prelude PyText Json Scopes ExecModels Registry Prog RunnerPolicy RunnerIntent.
From Stdlib Require Import Ascii.
Open Scope string_scope.
Open Scope Z_scope.

Module Loop.
Export Runner.

(** Serialisations done by pydantic and by the calendar of the host *)
Class Dumping : Type := {
  dump_resume : RunResumeState -> json;
  dump_conversation : ConversationContext -> json;
  runtime_environment : Z -> string;
}.

(** [messages[:n]] and [messages[n:]] *)
Definition slice_at {A : Type} (n : Z) (l : list A) : nat :=
  Z.to_nat (if n <? 0 then Z.of_nat (length l) + n else n).
Definition py_prefix {A : Type} (n : Z) (l : list A) : list A := take (slice_at n l) l.
Definition py_suffix {A : Type} (n : Z) (l : list A) : list A := drop (slice_at n l) l.

(** [with_runtime_environment]: the clock joins the last system message. *)
Fixpoint append_to_last_system (text : string) (messages : list PromptMessage) : option (list PromptMessage) :=
  match messages with
  | [] => None
  | m :: rest =>
      match append_to_last_system text rest with
      | Some rest' => Some (m :: rest')
      | None =>
          if bool_decide (pm_role m = ROLE_SYSTEM)
          then Some (MkPromptMessage (pm_role m) (pm_content m +:+ String "010" (String "010" text)) :: rest)
          else None
      end
  end.

Definition with_runtime_environment `{Dumping} (prompt : PromptEnvelope) (instant : Z) : PromptEnvelope :=
  let environment := runtime_environment instant in
  MkPromptEnvelope
    (match append_to_last_system environment (pe_messages prompt) with
     | Some messages => messages
     | None => MkPromptMessage ROLE_SYSTEM environment :: pe_messages prompt
     end) (pe_metadata prompt).

Section Loop.
Context {Handler : Type} `{Hashing} `{Dumping} (self : ExecutionRunner) (request : RunRequest).
(** which optional strategies the run has *)
Context (has_prompt has_reflection : bool).

Abbreviation exec := (@exec Handler).

Definition store (st : RunState) : exec RunState := _ <-- call (QStore st) ;; Ret st.

(** ** Results *)

(** [_result] *)
Definition result (st : RunState) (status : RunStatus) (output : json) (f : option RunFailure) : exec RunResult :=
  safe_output <-- lift (match output with
                        | JNull => Ok JNull
                        | _ => let! _ := canonical_json output in Ok (sort_keys output)
                        end) ;;
  finished_at <-- call QNow ;;
  lift (run_result (MkRunResult (rq_run_id request) status safe_output f (st_observations st)
    (st_iterations_used st) (st_tool_calls_used st) (st_started_at st) finished_at)).

(** [_finish] *)
Definition finish (r : RunResult) : exec RunResult :=
  emit request RUN_FINISHED None None None
    (("status", JStr (run_status_value (rr_status r)))
     :: match rr_failure r with
        | None => []
        | Some f => [("code", JStr (failure_code_value (rf_code f)))]
        end) ;;;
  Ret r.

Definition finish_with (st : RunState) (status : RunStatus) (output : json) (f : option RunFailure) : exec RunResult :=
  r <-- result st status output f ;; finish r.

(** [_strategy_failure] *)
Definition strategy_failure (st : RunState) (code : FailureCode) (message : string) (iteration : Z) : exec RunResult :=
  f <-- lift (run_failure (failure code message (Some iteration) None None)) ;;
  finish_with st RUN_FAILED JNull (Some f).

(** [_budget_observation] *)
Definition budget_observation (intent : ToolIntent) (iteration : Z) : exec ToolObservation :=
  started_at <-- call QNow ;;
  registered <-- call (QResolve (in_tool_name intent)) ;;
  f <-- lift (run_failure (failure TOOL_BUDGET_EXCEEDED
        "tool call was not started because the budget was exhausted" (Some iteration)
        (Some (in_call_id intent)) (Some (in_tool_name intent)))) ;;
  emit request TOOL_DENIED (Some (in_call_id intent)) (Some (in_tool_name intent)) (rt_identity <$> registered)
    [("code", JStr (failure_code_value TOOL_BUDGET_EXCEEDED))] ;;;
  failed_observation intent CALL_BUDGET_EXCEEDED f started_at.

(** ** Tools a frame offers *)

Fixpoint visible_tools_loop (g : CapabilityGrant) (names : list string) : exec (list ToolSpec) :=
  match names with
  | [] => Ret []
  | name :: names =>
      item <-- call (QResolve name) ;;
      match item with
      | None => visible_tools_loop g names
      | Some tool =>
          if negb (bool_decide (rt_identity tool ∈ cg_tool_identities g))
             || negb (bool_decide (ts_required_capabilities (rt_spec tool) ∖ cg_capabilities g = ∅))
             || (rq_read_only request && negb (is_read (rt_spec tool)))
          then visible_tools_loop g names
          else
            safe <-- (if is_none (rq_resume request) then Ret true else safe_registration name) ;;
            if negb safe then visible_tools_loop g names
            else rest <-- visible_tools_loop g names ;; Ret (rt_spec tool :: rest)
      end
  end.

(** [_visible_tools] *)
Definition visible_tools (g : CapabilityGrant) : exec (list ToolSpec) :=
  visible_tools_loop g (merge_sort String.le (elements (tool_names g))).

(** ** Checkpoints and resume *)

(** [_safe_observation] *)
Definition safe_observation (o : ToolObservation) : exec bool :=
  if negb (bool_decide (ob_status o = CALL_SUCCEEDED)) then Ret false
  else
    safe <-- safe_registration (ob_tool_name o) ;;
    if negb safe then Ret false
    else
      registered <-- call (QResolve (ob_tool_name o)) ;;
      Ret (match registered with
           | None => false
           | Some tool =>
               bool_decide (ob_tool_identity o = Some (rt_identity tool))
               && negb (contains_run_credentials (ob_result o))
               && negb (match ob_arguments o with None => false | Some a => contains_run_credentials (JObj a) end)
           end).

(** [_checkpoint_limit] *)
Definition checkpoint_limit : Z :=
  Z.min (256 * 1024) (Z.min (ep_max_workflow_state_bytes (er_policy self)) (ep_max_tool_result_bytes (er_policy self))).

(** The static part of [_valid_resume]: [true] when the state is refused *)
Definition resume_refused (resume : RunResumeState) : bool :=
  negb (rq_read_only request)
  || bool_decide (rq_run_id request = re_source_run_id resume)
  || (eb_max_iterations (rq_budget request) <=? re_iterations_used resume)
  || (eb_max_tool_calls (rq_budget request) <? re_tool_calls_used resume)
  || (checkpoint_limit <? canonical_len (dump_resume resume))
  || contains_run_credentials (re_workflow_state resume)
  || negb (re_tool_calls_used resume =? Z.of_nat (length (re_observations resume)))
  || negb (bool_decide (NoDup (re_call_ids resume)))
  || negb (bool_decide (list_to_set (C := gset string) (re_call_ids resume)
                        = list_to_set (ob_call_id <$> re_observations resume)))
  || negb (length (re_call_ids resume) =? length (re_observations resume))%nat
  || (negb (is_nil (re_observations resume))
      && ((re_iterations_used resume =? 0) || bool_decide (re_workflow_state resume = JNull))).

Definition web_resume_ttl : Z := seconds 300.

(** The checks of one stored observation against the tool it used *)
Definition reusable_observation (g : CapabilityGrant) (now : Z) (o : ToolObservation) : exec bool :=
  safe <-- safe_observation o ;;
  if negb safe then Ret false
  else if bool_decide (ob_tool_name o ∈ ["suiteharness.web.search"; "suiteharness.web.fetch"])
          && negb ((0 <=? now - ob_finished_at o) && (now - ob_finished_at o <? web_resume_ttl))
  then Ret false
  else
    registered <-- call (QResolve (ob_tool_name o)) ;;
    match registered with
    | None => Throw OtherException  (** [assert registered is not None] *)
    | Some tool =>
        if negb (bool_decide (rt_identity tool ∈ cg_tool_identities g))
           || negb (bool_decide (ts_required_capabilities (rt_spec tool) ∖ cg_capabilities g = ∅))
        then Ret false
        else
          (** [None]: refused; [Some arguments]: validated, or absent *)
          validated <-- (match ob_arguments o with
            | None => Ret (Some None)
            | Some a =>
                payload <-- lift (canonical_json (JObj a)) ;;
                if ep_max_tool_argument_bytes (er_policy self) <? byte_len payload then Ret None
                else
                  r <-- call (QValidate tool (detach_arguments a)) ;;
                  match r.1 with
                  | Ok true => Ret (Some (Some r.2))
                  | Ok false => Ret None
                  | Raise e => if catchable e then Ret None else Throw e
                  end
            end) ;;
          match validated with
          | None => Ret false
          | Some arguments =>
              authorization <-- (if negb (er_authorization_policy self) then Ret (Some AUTH_DEFAULT)
                else match arguments with
                     | None => Ret None
                     | Some a =>
                         r <-- call (QEvaluate (rt_identity tool) (rt_spec tool) a) ;;
                         match r.1 with
                         | Ok auth => Ret auth
                         | Raise e => if catchable e then Ret None else Throw e
                         end
                     end) ;;
              Ret (match authorization with
                   | None | Some AUTH_DENY | Some AUTH_REQUIRE_APPROVAL => false
                   | Some AUTH_DEFAULT => negb (requires_approval (er_policy self) (rt_spec tool))
                   | Some AUTH_ALLOW => true
                   end)
          end
    end.

Fixpoint all_reusable (g : CapabilityGrant) (now : Z) (os : list ToolObservation) : exec bool :=
  match os with
  | [] => Ret true
  | o :: os =>
      ok <-- reusable_observation g now o ;;
      if negb ok then Ret false else all_reusable g now os
  end.

(** [_valid_resume] *)
Definition valid_resume (g : CapabilityGrant) (resume : RunResumeState) : exec bool :=
  if resume_refused resume then Ret false
  else
    now <-- call QNow ;;
    all_reusable g now (re_observations resume).

(** [_checkpoint] *)
Definition checkpoint (st : RunState) (workflow_state : json) (prompt_digest route_key : string)
    (iterations_used : Z) : exec unit :=
  if (1024 <? Z.of_nat (length (st_observations st))) || (1024 <? Z.of_nat (size (st_call_ids st))) then Ret tt
  else if contains_run_credentials workflow_state then Ret tt
  else
    resume <-- lift (run_resume_state
      (MkRunResumeState (rq_run_id request) workflow_state (st_observations st) iterations_used
         (st_tool_calls_used st) (merge_sort String.le (elements (st_call_ids st))) prompt_digest route_key)) ;;
    let data := [("resume_state", dump_resume resume); ("input", rq_input request);
                 ("conversation", dump_conversation (rq_conversation request))] in
    payload <-- lift (canonical_json (JObj data)) ;;
    if byte_len payload <=? checkpoint_limit
    then await (call (QPublish "checkpoint" "" data))
    else Ret tt.

Definition opt_str (s : option string) : json := match s with None => JNull | Some v => JStr v end.

(** [prompt.model_dump(mode='json')] without the [run_id] of its metadata *)
Definition dump_prompt (prompt : option PromptEnvelope) : json :=
  match prompt with
  | None => JNull
  | Some p =>
      JObj [("messages", JList ((fun m => JObj [("role", JStr (role_value (pm_role m)));
                                                ("content", JStr (pm_content m))]) <$> pe_messages p));
            ("metadata", JObj (List.filter (fun kv => negb (bool_decide (kv.1 = "run_id"))) (pe_metadata p)))]
  end.

(** [_prompt_digest] *)
Definition prompt_digest (prompt : option PromptEnvelope) : res string :=
  let scope := rq_scope request in
  let! payload := canonical_json (JObj
    [("prompt", dump_prompt prompt); ("input", rq_input request);
     ("conversation", dump_conversation (rq_conversation request));
     ("identity", JObj
        [("tenant_id", JStr (rs_tenant_id scope)); ("product_id", JStr (rs_product_id scope));
         ("agent_id", opt_str (path_agent_id (rs_path scope)));
         ("session_id", opt_str (path_session_id (rs_path scope)));
         ("principal_id", JStr (rs_principal_id scope));
         ("session_owner_id", JStr (effective_session_owner_id scope));
         ("channel_id", JStr (rs_channel_id scope));
         ("roles", JList (JStr <$> merge_sort String.le (elements (rs_roles scope))))])]) in
  Ok (sha256_hex payload).

(** ** One iteration *)

(** [inr] carries the result an early [return] has produced. *)
Definition step (A : Type) : Type := exec (A + RunResult).
Definition continue {A : Type} (a : A) : step A := Ret (inl a).
Definition stop {A : Type} (p : exec RunResult) : step A := r <-- p ;; Ret (inr r).
Definition and_then {A B : Type} (p : step A) (k : A -> step B) : step B :=
  r <-- p ;; match r with inl a => k a | inr r => Ret (inr r) end.

(** The rendering of the prompt, when the run has a prompt strategy *)
Definition render_prompt (st : RunState) (frame : WorkflowFrame) (iteration : Z) : step (option PromptEnvelope) :=
  if negb has_prompt then continue None
  else
    r <-- call (QRender frame) ;;
    match r with
    | Ok (Some p) => continue (Some p)
    | Ok None =>
        stop (strategy_failure st PROMPT_ERROR "prompt strategy returned an invalid result" iteration)
    | Raise e =>
        if catchable e then stop (strategy_failure st PROMPT_ERROR "prompt strategy failed" iteration) else Throw e
    end.

Definition workflow_kinds : list string := ["delta"; "status"; "usage"; "compact_started"; "compact_completed"].

(** The [async for event in source] loop; [ending] is how the source ends. *)
Fixpoint read_stream (items : list stream_item) (ending : res unit) (decision : option WorkflowDecision) :
    exec (option WorkflowDecision) :=
  match items with
  | [] => lift (let! _ := ending in Ok decision)
  | item :: items =>
      if negb (is_none decision) then Throw ValueError
      else match item with
      | SDecision d => read_stream items ending (Some d)
      | SEvent kind text data =>
          if negb (bool_decide (kind ∈ workflow_kinds)) then Throw ValueError
          else await (call (QPublish kind text data)) ;;; read_stream items ending decision
      | SOther => Throw TypeError
      end
  end.

(** The workflow's decision *)
Definition take_decision (st : RunState) (frame : WorkflowFrame) (prompt : option PromptEnvelope) (iteration : Z) :
    step WorkflowDecision :=
  decision <-- catch
    (source <-- call (QWorkflow frame prompt) ;;
     d <-- read_stream source.1 source.2 None ;; Ret (inl d))
    (fun _ => stop (strategy_failure st WORKFLOW_ERROR "workflow strategy failed" iteration)) ;;
  match decision with
  | inr r => Ret (inr r)
  | inl None =>
      stop (strategy_failure st WORKFLOW_ERROR "workflow strategy returned an invalid decision" iteration)
  | inl (Some d) => continue d
  end.

(** The review, when the run has a reflection strategy *)
Definition review_decision (st : RunState) (frame : WorkflowFrame) (d : WorkflowDecision) (iteration : Z) :
    step WorkflowDecision :=
  if negb has_reflection then continue d
  else
    r <-- call (QReview frame d) ;;
    match r with
    | Ok (Some d') => continue d'
    | Ok None =>
        stop (strategy_failure st REFLECTION_ERROR "reflection strategy returned an invalid decision" iteration)
    | Raise e =>
        if catchable e then stop (strategy_failure st REFLECTION_ERROR "reflection strategy failed" iteration)
        else Throw e
    end.

(** The [for intent in permitted] loop that flags repeated call ids *)
Fixpoint flag_duplicates (seen : gset string) (intents : list ToolIntent) : list bool * gset string :=
  match intents with
  | [] => ([], seen)
  | i :: intents =>
      let '(flags, seen') := flag_duplicates ({[ in_call_id i ]} ∪ seen) intents in
      (bool_decide (in_call_id i ∈ seen) :: flags, seen')
  end.

Fixpoint all_safe (os : list ToolObservation) : exec bool :=
  match os with
  | [] => Ret true
  | o :: os => ok <-- safe_observation o ;; if negb ok then Ret false else all_safe os
  end.

(** The [for intent in overflow] loop *)
Fixpoint report_overflow (st : RunState) (intents : list ToolIntent) (iteration : Z) : exec RunState :=
  match intents with
  | [] => Ret st
  | i :: intents =>
      o <-- budget_observation i iteration ;;
      st <-- store (MkRunState (st_started_at st) (st_started_monotonic st) (st_iterations_used st)
        (st_tool_calls_used st) (st_observations st ++ [o]) (st_call_ids st)) ;;
      report_overflow st intents iteration
  end.

(** What one iteration hands to the next *)
Record carry : Type := MkCarry {
  ca_state : RunState;
  ca_workflow_state : json;
  ca_checkpoint_safe : bool;
  ca_checkpoint_pending : option Z;
}.

Definition carries_credentials (intents : list ToolIntent) : bool :=
  existsb (fun i => negb (is_none (in_approval_token i)) || contains_run_credentials (JObj (in_arguments i))) intents.

(** The tool half of an iteration, from the shared quota to the overflow *)
Definition run_tools (st : RunState) (workflow_state : json) (safe : bool) (intents : list ToolIntent) (iteration : Z) :
    step carry :=
  let remaining := eb_max_tool_calls (rq_budget request) - st_tool_calls_used st in
  permitted_count <-- await (call (QTakeSlots (Z.min (Z.max remaining 0) (Z.of_nat (length intents))))) ;;
  let permitted := py_prefix permitted_count intents in
  let overflow := py_suffix permitted_count intents in
  let '(flags, seen) := flag_duplicates (st_call_ids st) permitted in
  st <-- store (MkRunState (st_started_at st) (st_started_monotonic st) (st_iterations_used st)
    (st_tool_calls_used st + Z.of_nat (length permitted)) (st_observations st) seen) ;;
  observations <-- (if is_nil permitted then Ret [] else await (call (QBatch permitted flags iteration))) ;;
  st <-- store (MkRunState (st_started_at st) (st_started_monotonic st) (st_iterations_used st)
    (st_tool_calls_used st) (st_observations st ++ observations) (st_call_ids st)) ;;
  safe <-- (if negb (safe && is_nil overflow) then Ret false
            else ok <-- all_safe observations ;; Ret (ok && negb (carries_credentials permitted))) ;;
  if is_nil overflow
  then continue (MkCarry st workflow_state safe (if safe then Some iteration else None))
  else
    st <-- report_overflow st overflow iteration ;;
    f <-- lift (run_failure (failure TOOL_BUDGET_EXCEEDED
          "workflow requested more tool calls than the remaining budget" (Some iteration) None None)) ;;
    stop (finish_with st RUN_BUDGET_EXCEEDED JNull (Some f)).

(** The resume and checkpoint block between prompt and workflow *)
Definition compatibility (st : RunState) (first_iteration : Z) (pending : option Z) (workflow_state : json)
    (frame : WorkflowFrame) (prompt : option PromptEnvelope) (iteration : Z) : step unit :=
  digest <-- lift (prompt_digest prompt) ;;
  key <-- call (QResumeKey frame prompt) ;;
  match key with
  | Raise e =>
      if catchable e
      then stop (strategy_failure st WORKFLOW_ERROR "workflow resume compatibility check failed" iteration)
      else Throw e
  | Ok route_key =>
      let mismatch :=
        match rq_resume request with
        | None => false
        | Some resume =>
            (iteration =? first_iteration)
            && negb (bool_decide (route_key = Some (re_route_key resume))
                     && bool_decide (digest = re_prompt_digest resume))
        end in
      if mismatch
      then stop (strategy_failure st WORKFLOW_ERROR "resume route or prompt no longer matches" iteration)
      else
        match route_key with
        | None => continue tt
        | Some key =>
            if (iteration =? 1) && is_none (rq_resume request)
            then checkpoint st workflow_state digest key 0 ;;; continue tt
            else match pending with
            | None => continue tt
            | Some n => checkpoint st workflow_state digest key n ;;; continue tt
            end
        end
  end.

(** The frame of an iteration, after the grant has been checked again *)
Definition open_frame (st : RunState) (workflow_state : json) (iteration : Z) : step WorkflowFrame :=
  granted <-- grant request ;;
  match granted with
  | inr f => stop (finish_with st RUN_FAILED JNull (Some f))
  | inl g =>
      available <-- visible_tools g ;;
      now <-- call QMonotonic ;;
      frame <-- lift (workflow_frame (MkWorkflowFrame iteration (st_observations st) available
        workflow_state (st_tool_calls_used st) (Z.max 0 (now - st_started_monotonic st)))) ;;
      continue frame
  end.

(** What follows a reviewed decision: the final output or the tools *)
Definition act_on (st : RunState) (safe : bool) (decision : WorkflowDecision) (iteration : Z) : step carry :=
  emit request STRATEGY_DECISION None None None
    [("kind", JStr (decision_kind_value (wd_kind decision)));
     ("intent_count", JInt (Z.of_nat (length (wd_intents decision))))] ;;;
  state_payload <-- lift (canonical_json (wd_workflow_state decision)) ;;
  if ep_max_workflow_state_bytes (er_policy self) <? byte_len state_payload
  then stop (strategy_failure st WORKFLOW_STATE_TOO_LARGE
         "workflow state exceeds the configured byte limit" iteration)
  else
    let workflow_state := sort_keys (wd_workflow_state decision) in
    if bool_decide (wd_kind decision = FINAL) then
      output <-- lift (canonical_json (wd_output decision)) ;;
      if ep_max_final_output_bytes (er_policy self) <? byte_len output
      then stop (strategy_failure st FINAL_OUTPUT_TOO_LARGE
             "final output exceeds the configured byte limit" iteration)
      else stop (finish_with st RUN_SUCCEEDED (wd_output decision) None)
    else run_tools st workflow_state safe (wd_intents decision) iteration.

(** The body of [for iteration in range(first_iteration, max_iterations + 1)] *)
Definition run_iteration (first_iteration : Z) (c : carry) (iteration : Z) : step carry :=
  let st := ca_state c in
  taken <-- call QTakeIteration ;;
  if negb taken then
    f <-- lift (run_failure (failure ITERATION_BUDGET_EXCEEDED
          "parent and delegated runs exhausted their aggregate iteration budget" (Some iteration) None None)) ;;
    stop (finish_with st RUN_BUDGET_EXCEEDED JNull (Some f))
  else
    st <-- store (MkRunState (st_started_at st) (st_started_monotonic st) iteration
      (st_tool_calls_used st) (st_observations st) (st_call_ids st)) ;;
    and_then (open_frame st (ca_workflow_state c) iteration) (fun frame =>
    and_then (render_prompt st frame iteration) (fun prompt =>
    and_then (compatibility st first_iteration (ca_checkpoint_pending c) (ca_workflow_state c)
                frame prompt iteration) (fun _ =>
    let prompt := (fun p => with_runtime_environment p (st_started_at st)) <$> prompt in
    and_then (take_decision st frame prompt iteration) (fun decision =>
    and_then (review_decision st frame decision iteration) (fun decision =>
    act_on st (ca_checkpoint_safe c) decision iteration))))).

Fixpoint iterate (n : nat) (first_iteration : Z) (c : carry) (iteration : Z) : exec RunResult :=
  match n with
  | O =>
      f <-- lift (run_failure (failure ITERATION_BUDGET_EXCEEDED
            "workflow did not finish within the iteration budget"
            (Some (eb_max_iterations (rq_budget request))) None None)) ;;
      finish_with (ca_state c) RUN_BUDGET_EXCEEDED JNull (Some f)
  | S n =>
      r <-- run_iteration first_iteration c iteration ;;
      match r with
      | inr result => Ret result
      | inl c => iterate n first_iteration c (iteration + 1)
      end
  end.

(** Charging inherited iterations to the shared quota *)
Fixpoint charge_iterations (n : nat) : exec bool :=
  match n with
  | O => Ret true
  | S n => taken <-- call QTakeIteration ;; if taken then charge_iterations n else Ret false
  end.

(** The [if resume is not None] block *)
Definition restore (st : RunState) (g : CapabilityGrant) : step (RunState * json) :=
  match rq_resume request with
  | None => continue (st, JNull)
  | Some resume =>
      valid <-- valid_resume g resume ;;
      if negb valid then
        stop (strategy_failure st WORKFLOW_ERROR "resume checkpoint is unsafe or no longer authorized" 1)
      else
        st <-- store (MkRunState (st_started_at st) (st_started_monotonic st) (re_iterations_used resume)
          (re_tool_calls_used resume) (re_observations resume) (list_to_set (re_call_ids resume))) ;;
        charged <-- charge_iterations (Z.to_nat (re_iterations_used resume)) ;;
        if negb charged then
          stop (strategy_failure st ITERATION_BUDGET_EXCEEDED "resume exceeds aggregate iteration budget" 1)
        else
          slots <-- await (call (QTakeSlots (re_tool_calls_used resume))) ;;
          if negb (slots =? re_tool_calls_used resume)
          then stop (strategy_failure st TOOL_BUDGET_EXCEEDED "resume exceeds aggregate tool budget" 1)
          else continue (st, re_workflow_state resume)
  end.

(** [_run_loop] *)
Definition run_loop (st : RunState) : exec RunResult :=
  emit request RUN_STARTED None None None [] ;;;
  match budget_policy_failure (er_policy self) (rq_budget request) with
  | Some f => finish_with st RUN_BUDGET_EXCEEDED JNull (Some f)
  | None =>
      input <-- lift (canonical_json (rq_input request)) ;;
      if ep_max_run_input_bytes (er_policy self) <? byte_len input then
        finish_with st RUN_FAILED JNull
          (Some (failure RUN_INPUT_TOO_LARGE "run input exceeds the configured byte limit" None None None))
      else
        granted <-- grant request ;;
        match granted with
        | inr f => finish_with st RUN_FAILED JNull (Some f)
        | inl g =>
            restored <-- restore st g ;;
            match restored with
            | inr r => Ret r
            | inl (st, workflow_state) =>
                let first_iteration := st_iterations_used st + 1 in
                iterate (Z.to_nat (eb_max_iterations (rq_budget request) + 1 - first_iteration)) first_iteration
                  (MkCarry st workflow_state true None) first_iteration
            end
        end
  end.
End Loop.
End Loop.
