(* ===== verification/RunInvariants.v ===== *)
(** * What every run satisfies

    Budgets, call identifiers, audit framing and least privilege of the frames,
    for all traces of [run_loop]. *)
From S2P Require Import Prelude PyText Json Scopes ExecModels Registry Prog RunnerPolicy RunnerIntent Mediation RunnerLoop Budget.
Open Scope string_scope.
Open Scope Z_scope.

Module RunInvariants.
Export Mediation Loop.

Section Run.
Context {Handler : Type} `{Hashing} `{Dumping} (self : ExecutionRunner) (request : RunRequest)
        (has_prompt has_reflection : bool).
(** the wall clock when the run started *)
Context (started : Z).

Abbreviation event := (event (@answer Handler)).
Abbreviation hist := (list event).

(** Tool calls handed to batches so far *)
Definition batched (e : event) : Z :=
  match projT1 e with QBatch intents _ _ => Z.of_nat (length intents) | _ => 0 end.
Definition calls (h : hist) : Z := foldr (fun e n => batched e + n) 0 h.

(** Call identifiers handed to batches and not flagged as duplicates *)
Definition fresh_in (intents : list ToolIntent) (flags : list bool) : list string :=
  omap (fun p : ToolIntent * bool => if p.2 then None else Some (in_call_id p.1)) (zip intents flags).
Definition fresh_of (e : event) : list string :=
  match projT1 e with QBatch intents flags _ => fresh_in intents flags | _ => [] end.
Definition fresh (h : hist) : list string := mjoin (fresh_of <$> h).

(** Workflow turns taken *)
Definition is_round (e : event) : bool := match projT1 e with QWorkflow _ _ => true | _ => false end.
Definition rounds (h : hist) : Z := Z.of_nat (length (List.filter is_round h)).

(** The shared quota answers within the request it got. *)
Definition honest (e : event) : Prop :=
  match e with
  | existT (QTakeSlots n) (Ok k) => 0 <= k <= n
  | _ => True
  end.

Definition is_run_event (ty : AuditEventType) : bool :=
  match ty with RUN_STARTED | RUN_FINISHED => true | _ => false end.

(** Events that touch none of these counters and enter no handler *)
Definition plain (e : event) : Prop :=
  match projT1 e with QBatch _ _ _ | QWorkflow _ _ | QHandle _ _ _ => False | _ => True end.

(** ... and leave no run record in the journal *)
Definition neutral (e : event) : Prop :=
  plain e /\
  match journaled e with Some ty => is_run_event ty = false | None => True end.

(** ... nor a new state of the run *)
Definition unstored (e : event) : Prop := match projT1 e with QStore _ => False | _ => True end.
Definition quiet (e : event) : Prop := neutral e /\ unstored e.

Lemma calls_app l h : calls (l ++ h) = calls l + calls h.
Proof. induction l as [|e l IH]; simpl; [done|]. rewrite IH. lia. Qed.

Lemma fresh_app l h : fresh (l ++ h) = (fresh l ++ fresh h)%list.
Proof. unfold fresh. by rewrite fmap_app, join_app. Qed.

Lemma rounds_app l h : rounds (l ++ h) = rounds l + rounds h.
Proof. unfold rounds. rewrite List.filter_app, length_app. lia. Qed.

Lemma plain_counters l : Forall plain l -> calls l = 0 /\ fresh l = [] /\ rounds l = 0.
Proof.
  induction 1 as [|e l Hq _ IH]; [done|]. destruct IH as (IH1 & IH2 & IH3).
  unfold fresh, rounds, plain in *. simpl. unfold batched, fresh_of, is_round.
  destruct (projT1 e); try done; simpl; rewrite IH2; split_and!; try done; lia.
Qed.

Lemma neutral_counters l : Forall neutral l -> calls l = 0 /\ fresh l = [] /\ rounds l = 0.
Proof. intros Hl. apply plain_counters. eapply Forall_impl; [exact Hl|]. by intros e []. Qed.

Lemma neutral_journal l : Forall neutral l -> Forall (fun ty => is_run_event ty = false) (journal l).
Proof.
  induction 1 as [|e l [_ Hj] _ IH]; [constructor|]. unfold journal. simpl.
  destruct (journaled e); [|done]. by constructor.
Qed.

(** ** The neutral parts of the loop *)
Lemma all_call (q : query Handler) : (forall a : answer q, quiet (existT q a)) -> all quiet (call q).
Proof. apply all_ask. Qed.

Lemma all_emit ty cid tn ti data :
  is_run_event ty = false -> all quiet (@emit Handler request ty cid tn ti data).
Proof.
  intros Hty. unfold emit, await. apply all_bind; [by apply all_ask|]. intros id.
  apply all_bind; [by apply all_ask|]. intros at_. apply all_bind_lift. intros ev Hev.
  assert (ae_event_type ev = ty) as Heq by (unfold audit_event in Hev; py_simpl; done).
  apply all_bind; [|intros; apply all_lift]. apply (all_call (QAppend ev)). intros [u|e]; repeat split; try done.
  simpl. by rewrite Heq.
Qed.

(** Walks a program that asks neutral questions only. *)
Ltac neutral_tac :=
  repeat match goal with
  | |- all _ (Ret _) => exact Logic.I
  | |- all _ (Throw _) => exact Logic.I
  | |- all _ (lift _) => apply all_lift
  | |- all _ (bind _ _) => apply all_bind; [|intros]
  | |- all _ (catch _ _) => apply all_catch; [|intros]
  | |- all _ (emit _ _ _ _ _ _) => by apply all_emit
  | |- all _ (call ?q) => apply (all_call q); intros; by repeat split
  | |- all _ (await _) => unfold await
  | |- all _ (match ?x with _ => _ end) => destruct x
  | |- all _ (let '(_, _) := ?x in _) => destruct x
  | |- _ => solve [eauto]
  end.

Lemma all_grant : all quiet (@grant Handler request).
Proof. unfold grant. neutral_tac. Qed.

Lemma all_safe_registration name : all quiet (@safe_registration Handler name).
Proof. unfold safe_registration. neutral_tac. Qed.

Lemma all_result st status output f : all quiet (@result Handler request st status output f).
Proof. unfold result. neutral_tac. Qed.

Lemma all_budget_observation intent iteration : all quiet (@budget_observation Handler request intent iteration).
Proof. unfold budget_observation, failed_observation. neutral_tac. Qed.

Lemma all_visible_tools g : all quiet (@visible_tools Handler request g).
Proof.
  unfold visible_tools. generalize (merge_sort String.le (elements (tool_names g))). intros names.
  pose proof all_safe_registration. induction names; simpl; neutral_tac.
Qed.

Lemma all_safe_observation o : all quiet (@safe_observation Handler o).
Proof. unfold safe_observation. pose proof all_safe_registration. neutral_tac. Qed.

Lemma all_valid_resume g r : all quiet (@valid_resume Handler _ self request g r).
Proof.
  unfold valid_resume. pose proof all_safe_observation. destruct (resume_refused _ _ _); [done|].
  apply all_bind; [by apply all_ask|]. intros now.
  induction (re_observations r) as [|o os IH]; simpl; [done|].
  apply all_bind; [unfold reusable_observation; neutral_tac|]. intros b. by destruct b.
Qed.

Lemma all_checkpoint st ws d k n : all quiet (@checkpoint Handler _ self request st ws d k n).
Proof. unfold checkpoint. neutral_tac. Qed.

(** ** The invariant of a run *)
Definition limit : Z := eb_max_tool_calls (rq_budget request).
Definition iters : Z := eb_max_iterations (rq_budget request).
Definition inherited : Z := match rq_resume request with None => 0 | Some r => re_tool_calls_used r end.

(** The run has been opened in the journal and not closed yet. *)
Definition open_journal (h : hist) : Prop :=
  exists mid, journal h = (mid ++ [RUN_STARTED])%list /\ Forall (fun ty => is_run_event ty = false) mid.

Definition not_finished (e : exn) (h : hist) : Prop := RUN_FINISHED ∉ journal h.

(** A state whose counters are within the budget *)
Record counted (st : RunState) (h : hist) : Prop := {
  cn_started : st_started_at st = started;
  cn_iterations : 0 <= st_iterations_used st <= iters;
  cn_nonneg : 0 <= st_tool_calls_used st;
  cn_calls : Forall honest h -> st_tool_calls_used st <= limit;
}.

(** What a state may be reported with *)
Record reportable (st : RunState) (h : hist) : Prop := {
  rp_journal : open_journal h;
  rp_counted : counted st h;
}.

(** The invariant between the steps of the loop *)
Record state_ok (st : RunState) (h : hist) : Prop := {
  so_reportable : reportable st h;
  so_calls : Forall honest h -> st_tool_calls_used st = inherited + calls h;
  so_fresh : NoDup (fresh h);
  so_seen : forall id, id ∈ fresh h -> id ∈ st_call_ids st;
}.

(** A result as the run reports it, with the journal closed behind it *)
Record final_ok (r : RunResult) (h : hist) : Prop := {
  fo_run : rr_run_id r = rq_run_id request;
  fo_outcome : rr_status r = RUN_SUCCEEDED <-> rr_failure r = None;
  fo_iterations : rr_iterations_used r <= iters;
  fo_calls : Forall honest h -> rr_tool_calls_used r <= limit;
  fo_journal : exists mid, journal h = RUN_FINISHED :: (mid ++ [RUN_STARTED])%list /\
    Forall (fun ty => is_run_event ty = false) mid;
}.

(** The grant check behind a frame and the tools it offers *)
Definition privileged (h : hist) (frame : WorkflowFrame) : Prop :=
  exists g now, (QGrant (rq_grant_id request) ~> Ok (Some g)) ∈ h /\ (QNow ~> now) ∈ h /\
    now < cg_expires_at g /\ grant_in_scope request g = true /\
    forall spec, spec ∈ wf_available_tools frame ->
      exists name tool, (QResolve name ~> Some tool) ∈ h /\ rt_spec tool = spec /\
        rt_identity tool ∈ cg_tool_identities g /\ ts_required_capabilities spec ⊆ cg_capabilities g /\
        (rq_read_only request = true -> is_read spec = true).

(** The condition on the events of a run *)
Definition bounded (h : hist) (e : event) : Prop :=
  match projT1 e with
  | QBatch intents flags _ =>
      length flags = length intents /\ NoDup (fresh (e :: h)) /\
      (Forall honest h -> inherited + calls h + Z.of_nat (length intents) <= limit)
  | QWorkflow frame _ =>
      rounds h < iters /\ privileged h frame /\
      budget_policy_failure (er_policy self) (rq_budget request) = None /\
      (rq_resume request <> None -> rq_read_only request = true)
  | QHandle _ _ _ => False
  | QStore st => counted st h
  | _ => True
  end.

Lemma quiet_bounded h e : quiet e -> bounded h e.
Proof. intros [[Hq _] Hs]. unfold bounded, plain, unstored in *. by destruct (projT1 e). Qed.

Lemma quiet_neutral l : Forall quiet l -> Forall neutral l.
Proof. intros Hl. eapply Forall_impl; [exact Hl|]. by intros e []. Qed.

Lemma wp_neutral {A : Type} (p : prog answer A) h (R : A -> hist -> Prop) (E : exn -> hist -> Prop) :
  all quiet p -> (forall a l, Forall neutral l -> R a (l ++ h)%list) ->
  (forall e l, Forall neutral l -> E e (l ++ h)%list) -> wp bounded p h R E.
Proof. intros Hp HR HE. eapply (wp_all bounded quiet); eauto using quiet_bounded, quiet_neutral. Qed.

Lemma open_journal_ext l h : open_journal h -> Forall neutral l -> open_journal (l ++ h).
Proof.
  intros (mid & Hj & Hm) Hl. exists (journal l ++ mid)%list. rewrite journal_app, Hj, app_assoc.
  split; [done|]. apply Forall_app. split; [by apply neutral_journal|done].
Qed.

Lemma open_not_finished e h : open_journal h -> not_finished e h.
Proof.
  intros (mid & Hj & Hm). unfold not_finished. rewrite Hj, elem_of_app. intros [Hin|Hin].
  - rewrite Forall_forall in Hm. by specialize (Hm _ Hin).
  - by apply list_elem_of_singleton in Hin.
Qed.

Lemma counted_ext st l h : counted st h -> counted st (l ++ h).
Proof. intros [C1 C2 C3 C4]. constructor; [done..|]. intros [_ Hh]%Forall_app. auto. Qed.

Lemma reportable_ext st l h : reportable st h -> Forall neutral l -> reportable st (l ++ h).
Proof.
  intros [R1 R2] Hl. constructor; [by apply open_journal_ext|by apply counted_ext].
Qed.

Lemma state_ok_ext st l h : state_ok st h -> Forall neutral l -> state_ok st (l ++ h).
Proof.
  intros [S1 S2 S3 S4] Hl. destruct (neutral_counters l Hl) as (C1 & C2 & _).
  constructor; [by apply reportable_ext|..].
  - intros [_ Hh]%Forall_app. rewrite calls_app, C1. auto.
  - by rewrite fresh_app, C2.
  - by rewrite fresh_app, C2.
Qed.

Lemma all_emit_plain ty cid tn ti data : all (fun e => plain e /\ unstored e) (@emit Handler request ty cid tn ti data).
Proof.
  unfold emit, await. apply all_bind; [by apply (all_ask _ QUuid)|]. intros id.
  apply all_bind; [by apply (all_ask _ QNow)|]. intros at_. apply all_bind_lift. intros ev _.
  apply all_bind; [by apply (all_ask _ (QAppend ev))|]. intros r. apply all_lift.
Qed.

(** [_emit], with the run's own condition on events *)
Lemma wp_emit_run ty cid tn ti data h (R : unit -> hist -> Prop) (E : exn -> hist -> Prop) :
  (forall h', extends h h' [ty] -> (exists l, h' = (l ++ h)%list /\ Forall plain l) -> R tt h') ->
  (forall e h', extends h h' [] -> E e h') ->
  wp bounded (emit request ty cid tn ti data) h R E.
Proof.
  intros HR HE.
  assert (Hwp : wp (fun _ _ => True) (emit request ty cid tn ti data) h
    (fun _ h' => extends h h' [ty]) (fun _ h' => extends h h' [])) by (by apply wp_emit).
  apply (wp_and_all _ (fun e => plain e /\ unstored e)) in Hwp; [|apply all_emit_plain].
  apply (wp_change _ bounded (fun e => plain e /\ unstored e)) in Hwp; [|apply all_emit_plain|].
  - eapply (wp_mono bounded bounded); [done| | |exact Hwp]; [intros [] h' [? (l & -> & Hl)]|intros e h' [? _]]; auto.
    apply HR; [done|]. exists l. split; [done|]. eapply Forall_impl; [exact Hl|]. by intros e [].
  - intros h0 e [He Hs]. unfold bounded, plain, unstored in *. by destruct (projT1 e).
Qed.

Lemma open_journal_extends h h' : open_journal h -> extends h h' [] -> open_journal h'.
Proof. intros (mid & Hj & Hm) Hx. exists mid. by rewrite (extends_journal _ _ _ Hx), Hj. Qed.

(** ** Closing a run *)
Lemma wp_finish r h :
  open_journal h -> rr_run_id r = rq_run_id request -> (rr_status r = RUN_SUCCEEDED <-> rr_failure r = None) ->
  rr_iterations_used r <= iters -> (Forall honest h -> rr_tool_calls_used r <= limit) ->
  wp bounded (finish request r) h final_ok not_finished.
Proof.
  intros (mid & Hj & Hm) Hid Hout Hit Hcalls. unfold finish. apply wp_bind, wp_emit_run.
  - intros h' Hx _. constructor; [done..| |].
    + destruct Hx as (l & -> & _ & _). intros [_ Hh]%Forall_app. auto.
    + exists mid. by rewrite (extends_journal _ _ _ Hx), Hj.
  - intros e h' Hx. eapply open_not_finished, open_journal_extends; [|done]. by exists mid.
Qed.

Lemma run_result_Ok r r' :
  run_result r = Ok r' -> r' = r /\ (rr_status r = RUN_SUCCEEDED <-> rr_failure r = None).
Proof.
  unfold run_result. intros Hr. py_simpl. split; [done|].
  destruct (rr_failure r'), (rr_status r'); simpl in *; try done; split; done.
Qed.

Lemma wp_finish_with st status output f h :
  reportable st h -> wp bounded (finish_with request st status output f) h final_ok not_finished.
Proof.
  intros Hst. unfold finish_with, result.
  assert (Hopen : forall e l, Forall neutral l -> not_finished e (l ++ h)).
  { intros e l Hl. apply open_not_finished, open_journal_ext; [apply Hst|done]. }
  apply wp_bind, wp_bind, wp_lift; [intros safe_output _|intros e _; by apply (Hopen e [])].
  apply wp_bind, wp_neutral; [by apply all_call| |done]. intros now l Hl.
  apply wp_lift; [|intros e _; by apply Hopen]. intros r [-> Hout]%run_result_Ok.
  pose proof (reportable_ext st l h Hst Hl) as [R1 [_ R2 _ R3]]. apply wp_finish; [done..|apply R2|done].
Qed.

Lemma wp_strategy_failure st code message iteration h :
  reportable st h -> wp bounded (strategy_failure request st code message iteration) h final_ok not_finished.
Proof.
  intros Hst. unfold strategy_failure. apply wp_bind, wp_lift; [intros f _; by apply wp_finish_with|].
  intros e _. apply open_not_finished, Hst.
Qed.

(** ** Steps of an iteration *)

(** A step that continues with [R] or stops with a closed run *)
Definition stepping {A : Type} (R : A -> hist -> Prop) (r : A + RunResult) (h : hist) : Prop :=
  match r with inl a => R a h | inr r => final_ok r h end.

Lemma wp_stop {A : Type} (R : A -> hist -> Prop) (p : prog answer RunResult) h :
  wp bounded p h final_ok not_finished -> wp bounded (stop p) h (stepping R) not_finished.
Proof. intros Hp. apply wp_bind. eapply (wp_mono bounded bounded); [done| |done|exact Hp]. done. Qed.

Lemma wp_and_then {A B : Type} (p : prog answer (A + RunResult)) (k : A -> prog answer (B + RunResult)) h R R' :
  wp bounded p h (stepping R) not_finished ->
  (forall a h', R a h' -> wp bounded (k a) h' (stepping R') not_finished) ->
  wp bounded (and_then p k) h (stepping R') not_finished.
Proof.
  intros Hp Hk. apply wp_bind. eapply (wp_mono bounded bounded); [done| |done|exact Hp].
  intros [a|r] h' Hr; [by apply Hk|done].
Qed.

(** Neutral steps, from a reportable state *)
Lemma wp_step {A B : Type} (p : prog answer A) (k : A -> prog answer B) st h R :
  all quiet p -> reportable st h ->
  (forall a l, Forall neutral l -> wp bounded (k a) (l ++ h)%list R not_finished) ->
  wp bounded (bind p k) h R not_finished.
Proof.
  intros Hp Hst Hk. apply wp_bind, wp_neutral; [done|done|].
  intros e l Hl. apply open_not_finished, open_journal_ext; [apply Hst|done].
Qed.

Lemma wp_lift_step {A B : Type} (r : res A) (k : A -> prog answer B) st h R :
  reportable st h -> (forall a, r = Ok a -> wp bounded (k a) h R not_finished) ->
  wp bounded (bind (lift r) k) h R not_finished.
Proof. intros Hst Hk. apply wp_bind, wp_lift; [done|]. intros e _. apply open_not_finished, Hst. Qed.

(** [h'] is [h] plus neutral events. *)
Definition grown (h h' : hist) : Prop := exists l, h' = (l ++ h)%list /\ Forall neutral l.

Lemma grown_trans h1 h2 h3 : grown h1 h2 -> grown h2 h3 -> grown h1 h3.
Proof.
  intros (l1 & -> & N1) (l2 & -> & N2). exists (l2 ++ l1)%list. rewrite app_assoc. split; [done|].
  by apply Forall_app.
Qed.

Lemma grown_elem h h' e : grown h h' -> e ∈ h -> e ∈ h'.
Proof. intros (l & -> & _) He. apply elem_of_app. by right. Qed.

Lemma grown_state st h h' : state_ok st h -> grown h h' -> state_ok st h'.
Proof. intros Hst (l & -> & Hl). by apply state_ok_ext. Qed.

Lemma grown_reportable st h h' : reportable st h -> grown h h' -> reportable st h'.
Proof. intros Hst (l & -> & Hl). by apply reportable_ext. Qed.

Lemma grown_rounds h h' : grown h h' -> rounds h' = rounds h.
Proof. intros (l & -> & Hl). rewrite rounds_app. destruct (neutral_counters l Hl) as (_ & _ & ->). lia. Qed.

(** A neutral program with a postcondition of its own *)
Lemma wp_grown {A B : Type} (p : prog answer A) (k : A -> prog answer B) st h R R' :
  all quiet p -> reportable st h -> wp (fun _ _ => True) p h R (fun _ _ => True) ->
  (forall a h', R a h' -> grown h h' -> wp bounded (k a) h' R' not_finished) ->
  wp bounded (bind p k) h R' not_finished.
Proof.
  intros Hp Hst Hwp Hk. apply wp_bind.
  apply (wp_and_all _ quiet) in Hwp; [|done].
  apply (wp_change _ bounded quiet) in Hwp; [|done|intros; by apply quiet_bounded].
  eapply (wp_mono bounded bounded); [done| | |exact Hwp].
  - intros a h' [HR (l & -> & Hl%quiet_neutral)]. apply Hk; [done|by exists l].
  - intros e h' [_ (l & -> & Hl%quiet_neutral)]. apply open_not_finished, open_journal_ext; [apply Hst|done].
Qed.

(** Assigning to the run's state *)
Lemma wp_store {B : Type} st' (k : RunState -> prog answer B) st h R :
  reportable st h -> counted st' h ->
  (forall h', grown h h' -> wp bounded (k st') h' R not_finished) ->
  wp bounded (bind (store st') k) h R not_finished.
Proof.
  intros Hst Hc Hk. unfold store. apply wp_bind, wp_bind. apply (wp_ask bounded (QStore st')). intros [].
  split; [exact Hc|]. apply Hk. exists [existT (P := @answer Handler) (QStore st') tt]. split; [done|by repeat constructor].
Qed.

Lemma wp_render_prompt st frame iteration h :
  reportable st h ->
  wp bounded (render_prompt request has_prompt st frame iteration) h (stepping (fun _ h' => grown h h')) not_finished.
Proof.
  intros Hst. unfold render_prompt. destruct has_prompt; simpl; [|by exists []].
  eapply (wp_step _ _ st); [by apply all_call|done|]. intros r l Hl.
  pose proof (reportable_ext st l h Hst Hl) as Hst'.
  destruct r as [[p|]|e]; [by exists l|by apply wp_stop, wp_strategy_failure|].
  destruct (catchable e); [by apply wp_stop, wp_strategy_failure|].
  apply open_not_finished, Hst'.
Qed.

Lemma wp_compatibility st first pending ws frame prompt iteration h :
  reportable st h ->
  wp bounded (compatibility self request st first pending ws frame prompt iteration) h
    (stepping (fun _ h' => grown h h')) not_finished.
Proof.
  intros Hst. unfold compatibility. eapply wp_lift_step; [done|]. intros digest _.
  eapply (wp_step _ _ st); [by apply all_call|done|]. intros key l Hl.
  pose proof (reportable_ext st l h Hst Hl) as Hst'.
  destruct key as [route_key|e].
  2: { destruct (catchable e); [by apply wp_stop, wp_strategy_failure|]. apply open_not_finished, Hst'. }
  match goal with |- wp _ (if ?b then _ else _) _ _ _ => destruct b end; [by apply wp_stop, wp_strategy_failure|].
  assert (Hck : forall n key, wp bounded (checkpoint self request st ws digest key n ;;; continue tt)
    (l ++ h)%list (stepping (fun _ h' => grown h h')) not_finished).
  { intros n key. eapply (wp_step _ _ st); [apply all_checkpoint|done|]. intros _ l' Hl'.
    exists (l' ++ l)%list. rewrite app_assoc. split; [done|]. by apply Forall_app. }
  destruct route_key as [key|]; [|by exists l].
  match goal with |- wp _ (if ?b then _ else _) _ _ _ => destruct b end; [done|].
  destruct pending; [done|by exists l].
Qed.

(** [h'] is [h] plus one workflow turn and neutral events. *)
Definition turned (h h' : hist) : Prop :=
  exists l w, h' = (l ++ w :: h)%list /\ Forall neutral l /\ is_round w = true.

Lemma round_counters w h : is_round w = true ->
  calls (w :: h) = calls h /\ fresh (w :: h) = fresh h /\ rounds (w :: h) = rounds h + 1 /\ journal (w :: h) = journal h.
Proof.
  destruct w as [q a]. destruct q; try done. intros _. split_and!; try done.
  unfold rounds. simpl. lia.
Qed.

Lemma round_reportable st w h : is_round w = true -> reportable st h -> reportable st (w :: h).
Proof.
  intros Hw [R1 R2]. destruct (round_counters w h Hw) as (_ & _ & _ & Hj).
  constructor; [|by apply (counted_ext st [w])]. unfold open_journal. by rewrite Hj.
Qed.

Lemma round_state st w h : is_round w = true -> state_ok st h -> state_ok st (w :: h).
Proof.
  intros Hw [S1 S2 S3 S4]. destruct (round_counters w h Hw) as (Hc & Hf & _ & _).
  constructor; rewrite ?Hc, ?Hf; auto using round_reportable. intros [_ Hh]%Forall_cons. auto.
Qed.

Lemma turned_state st h h' : state_ok st h -> turned h h' -> state_ok st h' /\ rounds h' = rounds h + 1.
Proof.
  intros Hst (l & w & -> & Hl & Hw). split; [by apply state_ok_ext, Hl; apply round_state|].
  rewrite rounds_app. destruct (neutral_counters l Hl) as (_ & _ & ->).
  destruct (round_counters w h Hw) as (_ & _ & -> & _). lia.
Qed.

Lemma all_read_stream items ending d : all quiet (@read_stream Handler items ending d).
Proof. revert d. induction items as [|item items IH]; intros d; simpl; neutral_tac. Qed.

Lemma wp_take_decision st frame prompt iteration h :
  reportable st h -> bounded h (existT (P := answer) (QWorkflow frame prompt) ([], Ok tt)) ->
  wp bounded (take_decision request st frame prompt iteration) h (stepping (fun _ h' => turned h h')) not_finished.
Proof.
  intros Hst Hb. unfold take_decision. apply wp_bind, wp_catch, wp_bind, wp_ask. intros source.
  split; [exact Hb|]. set (w := existT _ source). assert (Hw : is_round w = true) by done. clearbody w.
  assert (Hst' : reportable st (w :: h)) by (by apply round_reportable).
  apply wp_bind, wp_neutral; [apply all_read_stream| |].
  - intros [d|] l Hl; [by exists l, w|]. apply wp_stop, wp_strategy_failure. by apply reportable_ext.
  - intros e l Hl. pose proof (reportable_ext st l _ Hst' Hl) as Hst2.
    destruct (catchable e); [|apply open_not_finished, Hst2].
    eapply (wp_mono bounded bounded); [done| |done|by apply (wp_stop (A := option WorkflowDecision) (fun _ _ => False)), wp_strategy_failure].
    by intros [|r] h' Hr.
Qed.

Lemma wp_review_decision st frame d iteration h :
  reportable st h ->
  wp bounded (review_decision request has_reflection st frame d iteration) h
    (stepping (fun _ h' => grown h h')) not_finished.
Proof.
  intros Hst. unfold review_decision. destruct has_reflection; simpl; [|by exists []].
  eapply (wp_step _ _ st); [by apply all_call|done|]. intros r l Hl.
  pose proof (reportable_ext st l h Hst Hl) as Hst'.
  destruct r as [[d'|]|e]; [by exists l|by apply wp_stop, wp_strategy_failure|].
  destruct (catchable e); [by apply wp_stop, wp_strategy_failure|]. apply open_not_finished, Hst'.
Qed.

(** ** Tool batches *)
Lemma flag_duplicates_spec seen intents flags seen' :
  flag_duplicates seen intents = (flags, seen') ->
  length flags = length intents /\ NoDup (fresh_in intents flags) /\
  (forall id, id ∈ fresh_in intents flags -> id ∉ seen /\ id ∈ seen') /\ seen ⊆ seen'.
Proof.
  revert seen flags seen'. induction intents as [|i intents IH]; intros seen flags seen'; simpl.
  { intros [= <- <-]. split_and!; [done|constructor|set_solver|done]. }
  destruct (flag_duplicates _ intents) as [flags1 seen1] eqn:Hf. intros [= <- <-].
  destruct (IH _ _ _ Hf) as (Hlen & Hnd & Hin & Hsub). unfold fresh_in in *. simpl.
  split_and!; [by rewrite Hlen| | |set_solver]; case_bool_decide as Hc; simpl; try done.
  - constructor; [|done]. intros Hx. destruct (Hin _ Hx). set_solver.
  - intros id Hid. destruct (Hin id Hid). set_solver.
  - intros id [->|Hid]%elem_of_cons; [set_solver|]. destruct (Hin id Hid). set_solver.
Qed.

Lemma batch_counters intents flags it r h :
  let b := existT (P := @answer Handler) (QBatch intents flags it) r in
  calls (b :: h) = Z.of_nat (length intents) + calls h /\
  fresh (b :: h) = (fresh_in intents flags ++ fresh h)%list /\
  rounds (b :: h) = rounds h /\ journal (b :: h) = journal h.
Proof. done. Qed.

(** States that agree on what a result reports of the budget *)
Definition same_counts (st st' : RunState) : Prop :=
  st_started_at st' = st_started_at st /\
  st_iterations_used st' = st_iterations_used st /\ st_tool_calls_used st' = st_tool_calls_used st.

Lemma same_counted st st' h : counted st h -> same_counts st st' -> counted st' h.
Proof. intros [C1 C2 C3 C4] (Ha & Hi & Hc). constructor; rewrite ?Ha, ?Hi, ?Hc; auto. Qed.

Lemma wp_report_overflow intents st it h :
  reportable st h ->
  wp bounded (report_overflow request st intents it) h
    (fun st' h' => same_counts st st' /\ grown h h') not_finished.
Proof.
  revert st h. induction intents as [|i intents IH]; intros st h Hst; simpl.
  { split; [done|by exists []]. }
  eapply (wp_step _ _ st); [apply all_budget_observation|done|]. intros o l Hl.
  assert (Hg : grown h (l ++ h)) by (by exists l). pose proof (grown_reportable _ _ _ Hst Hg) as Hst1.
  set (st1 := MkRunState _ _ _ _ _ _).
  assert (Hc1 : forall h, counted st h -> counted st1 h) by (intros h0 Hc; by eapply same_counted).
  eapply (wp_store _ _ st); [done|apply Hc1, Hst1|]. intros h2 Hg2.
  destruct (grown_reportable _ _ _ Hst1 Hg2) as [R1 R2].
  eapply (wp_mono bounded bounded); [done| |done|apply IH; constructor; [done|by apply Hc1]].
  intros st' h' [Hs Hg']. split; [done|]. by eapply grown_trans; [exact Hg|]; eapply grown_trans.
Qed.

Lemma all_all_safe os : all quiet (@all_safe Handler os).
Proof. pose proof all_safe_observation. induction os; simpl; neutral_tac. Qed.

(** The quota's answer bounds the batch by what is left. *)
Lemma permitted_bound st h (intents : list ToolIntent) k :
  state_ok st h ->
  Forall honest (existT (P := @answer Handler) (QTakeSlots (Z.min (Z.max (limit - st_tool_calls_used st) 0)
    (Z.of_nat (length intents)))) (Ok k) :: h) ->
  st_tool_calls_used st + Z.of_nat (length (py_prefix k intents)) <= limit.
Proof.
  intros Hst [Hk Hh]%Forall_cons. simpl in Hk.
  pose proof (cn_calls _ _ (rp_counted _ _ (so_reportable _ _ Hst)) Hh) as Hle.
  unfold py_prefix, slice_at. rewrite length_take. destruct (Z.ltb_spec k 0); lia.
Qed.

(** A batch within the bounds, and the state that records it *)
Lemma batch_bounded st h intents flags seen it k r :
  state_ok st h -> flag_duplicates (st_call_ids st) (py_prefix k intents) = (flags, seen) ->
  let q := existT (P := @answer Handler) (QTakeSlots (Z.min (Z.max (limit - st_tool_calls_used st) 0)
    (Z.of_nat (length intents)))) (Ok k) in
  forall l, Forall neutral l ->
  let h' := (l ++ q :: h)%list in
  let st' := MkRunState (st_started_at st) (st_started_monotonic st) (st_iterations_used st)
    (st_tool_calls_used st + Z.of_nat (length (py_prefix k intents))) (st_observations st) seen in
  let b := existT (P := answer) (QBatch (py_prefix k intents) flags it) r in
  bounded h' b /\ state_ok st' (b :: h').
Proof.
  intros Hst Hf q l Hl h' st' b.
  destruct (flag_duplicates_spec _ _ _ _ Hf) as (Hlen & Hnd & Hin & Hsub).
  assert (Hq : neutral q) by (by split).
  assert (Hst' : state_ok st h') by
    (unfold h'; apply state_ok_ext; [|done]; apply (state_ok_ext st [q]); [done|by repeat constructor]).
  assert (Hhon : Forall honest h' -> st_tool_calls_used st + Z.of_nat (length (py_prefix k intents)) <= limit).
  { intros [_ Hh]%Forall_app. by apply (permitted_bound st h). }
  destruct Hst' as [S1 S2 S3 S4].
  assert (Hnd' : NoDup (fresh (b :: h'))).
  { change (fresh (b :: h')) with (fresh_in (py_prefix k intents) flags ++ fresh h')%list. apply NoDup_app.
    split_and!; [done| |done]. intros id Hid Hold. destruct (Hin id Hid) as [Hno _]. by apply Hno, S4. }
  split.
  - split_and!; [done..|]. intros Hh. specialize (S2 Hh). specialize (Hhon Hh). lia.
  - destruct (batch_counters (py_prefix k intents) flags it r h') as (Hc & Hfr & _ & Hj). fold b in Hc, Hfr, Hj.
    constructor.
    + destruct S1 as [R1 [N1 N2 N3 N4]]. constructor; [unfold open_journal; by rewrite Hj|]. constructor; simpl; [done..|lia|].
      intros [_ Hh]%Forall_cons. auto.
    + intros [_ Hh]%Forall_cons. rewrite Hc. simpl. specialize (S2 Hh). lia.
    + done.
    + rewrite Hfr. intros id [Hid|Hid]%elem_of_app; [by apply Hin|]. apply Hsub, S4, Hid.
Qed.

Lemma state_ok_counts st st' h :
  state_ok st h -> same_counts st st' -> st_call_ids st' = st_call_ids st -> state_ok st' h.
Proof.
  intros [[R1 R2] S2 S3 S4] Hs Hids. constructor; [constructor; [done|by eapply same_counted]|..];
    destruct Hs as (_ & _ & Hc); rewrite ?Hc, ?Hids; auto.
Qed.

Lemma reportable_counts st st' h : reportable st h -> same_counts st st' -> reportable st' h.
Proof. intros [R1 R2] Hs. constructor; [done|by eapply same_counted]. Qed.

(** The state of the next iteration and the turns taken so far *)
Definition carried (n : Z) (c : carry) (h : hist) : Prop := state_ok (ca_state c) h /\ rounds h = n.

(** What follows the batch *)
Lemma wp_after_batch st ws safe permitted overflow observations it h n :
  state_ok st h -> rounds h = n ->
  wp bounded
    (st <-- store (MkRunState (st_started_at st) (st_started_monotonic st) (st_iterations_used st)
       (st_tool_calls_used st) (st_observations st ++ observations) (st_call_ids st)) ;;
     safe <-- (if negb (safe && is_nil overflow) then Ret false
               else ok <-- all_safe observations ;; Ret (ok && negb (carries_credentials permitted))) ;;
     if is_nil (overflow : list ToolIntent)
     then continue (MkCarry st ws safe (if safe then Some it else None))
     else
       st <-- report_overflow request st overflow it ;;
       f <-- lift (run_failure (failure TOOL_BUDGET_EXCEEDED
             "workflow requested more tool calls than the remaining budget" (Some it) None None)) ;;
       stop (finish_with request st RUN_BUDGET_EXCEEDED JNull (Some f))) h
    (stepping (carried n)) not_finished.
Proof.
  intros Hst Hn. set (st1 := MkRunState _ _ _ _ _ _).
  assert (Hok : state_ok st1 h) by (by eapply state_ok_counts).
  eapply (wp_store _ _ st); [apply Hst|apply Hok|]. intros h1 Hg1.
  assert (Hok1 : state_ok st1 h1) by (by eapply grown_state).
  assert (Hn1 : rounds h1 = n) by (by rewrite (grown_rounds _ _ Hg1)). clearbody st1.
  eapply (wp_step _ _ st1); [|apply Hok1|].
  { destruct (negb _); [done|]. apply all_bind; [apply all_all_safe|done]. }
  intros safe1 l Hl. assert (Hok2 : state_ok st1 (l ++ h1)) by (by apply state_ok_ext).
  destruct (is_nil overflow).
  { split; [done|]. rewrite rounds_app. destruct (neutral_counters l Hl) as (_ & _ & ->). lia. }
  apply wp_bind. eapply (wp_mono bounded bounded); [done| |done|apply wp_report_overflow, Hok2]. intros st2 h2 [Hsame Hg2]. assert (Hrep : reportable st2 h2).
  { apply (reportable_counts st1); [|done]. eapply grown_reportable; [apply Hok2|done]. }
  eapply wp_lift_step; [done|]. intros f _. by apply wp_stop, wp_finish_with.
Qed.

Lemma wp_run_tools st ws safe intents it h :
  state_ok st h ->
  wp bounded (run_tools request st ws safe intents it) h (stepping (carried (rounds h))) not_finished.
Proof.
  intros Hst. unfold run_tools, await. fold limit. set (n := Z.min _ _).
  apply wp_bind, wp_bind. apply (wp_ask bounded (QTakeSlots n)). intros r. split; [done|].
  apply wp_lift; [intros k ->|intros e ->].
  2: { apply open_not_finished. apply (open_journal_ext [existT (P := @answer Handler) (QTakeSlots n) (Raise e)]);
       [apply Hst|by repeat constructor]. }
  destruct (flag_duplicates (st_call_ids st) (py_prefix k intents)) as [flags seen] eqn:Hf.
  set (q := existT (P := @answer Handler) (QTakeSlots n) (Ok k)).
  assert (Hq : neutral q) by (by split).
  assert (Hst1 : state_ok st (q :: h)) by (apply (state_ok_ext st [q]); [done|by repeat constructor]).
  set (st' := MkRunState (st_started_at st) (st_started_monotonic st) (st_iterations_used st)
    (st_tool_calls_used st + Z.of_nat (length (py_prefix k intents))) (st_observations st) seen).
  apply wp_bind. unfold store. apply wp_bind. apply (wp_ask bounded (QStore st')). intros []. split.
  { destruct Hst1 as [[_ [N1 N2 N3 N4]] _ _ _]. constructor; simpl; [done..|lia|]. intros Hh.
    by apply (permitted_bound st h). }
  set (s1 := existT (P := @answer Handler) (QStore st') tt).
  assert (Hb : forall r, bounded (s1 :: q :: h) (existT (P := @answer Handler) (QBatch (py_prefix k intents) flags it) r) /\
      state_ok st' (existT (P := @answer Handler) (QBatch (py_prefix k intents) flags it) r :: s1 :: q :: h)).
  { intros r. apply (batch_bounded st h intents flags seen it k r Hst Hf [s1]). by repeat constructor. }
  assert (Hrounds : rounds (s1 :: q :: h) = rounds h) by done.
  apply wp_bind. destruct (is_nil (py_prefix k intents)) eqn:Hnil.
  - apply wp_after_batch; [|done]. apply (state_ok_counts st).
    + apply (state_ok_ext st [s1] (q :: h)); [done|by repeat constructor].
    + destruct (py_prefix k intents); [|done]. split; simpl; [done|lia].
    + destruct (py_prefix k intents); [|done]. simpl in Hf. by simplify_eq.
  - apply wp_bind. apply (wp_ask bounded (QBatch (py_prefix k intents) flags it)). intros br. destruct (Hb br) as [Hbound Hok]. split; [exact Hbound|].
    apply wp_lift; [|intros e _; apply open_not_finished, Hok].
    intros observations _. by apply wp_after_batch.
Qed.

(** ** Frames offer only what the grant covers *)
Definition offered (g : CapabilityGrant) (h : hist) (spec : ToolSpec) : Prop :=
  exists name tool, (QResolve name ~> Some tool) ∈ h /\ rt_spec tool = spec /\
    rt_identity tool ∈ cg_tool_identities g /\ ts_required_capabilities spec ⊆ cg_capabilities g /\
    (rq_read_only request = true -> is_read spec = true).

Lemma offered_grown g h h' spec : offered g h spec -> grown h h' -> offered g h' spec.
Proof. intros (name & tool & Hin & Hrest) Hg. exists name, tool. split; [by eapply grown_elem|done]. Qed.

Lemma wp_visible_tools_loop g names h :
  wp (fun _ _ => True) (visible_tools_loop request g names) h
    (fun specs h' => Forall (offered g h') specs) (fun _ _ => True).
Proof.
  revert h. induction names as [|name names IH]; intros h; simpl; [constructor|].
  apply wp_bind. apply (wp_ask (ans := @answer Handler) (fun _ _ => True) (QResolve name)).
  intros item. split; [done|].
  set (e := existT _ item). destruct item as [tool|]; [|apply IH].
  destruct (_ || _) eqn:Hskip; [apply IH|].
  assert (Hoff : offered g (e :: h) (rt_spec tool)).
  { py_simpl. exists name, tool. split_and!; [left|done|done|set_solver|].
    intros Hr. match goal with Hx : _ && _ = false |- _ => rewrite Hr in Hx end. by destruct (is_read (rt_spec tool)). }
  apply wp_bind. eapply (wp_all _ quiet); [|done| |done].
  { destruct (is_none _); [done|apply all_safe_registration]. }
  intros safe l Hl%quiet_neutral. assert (Hoff' : offered g (l ++ e :: h) (rt_spec tool)) by (eapply offered_grown; [done|by exists l]).
  destruct safe; simpl; [|apply IH]. apply wp_bind.
  assert (Hall : all quiet (visible_tools_loop request g names)).
  { clear. pose proof all_safe_registration. induction names; simpl; neutral_tac. }
  eapply (wp_mono (fun _ _ => True) (fun _ _ => True)); [done| |done|apply (wp_and_all _ quiet _ _ _ _ Hall (IH _))].
  intros specs h' [Hs (l' & -> & Hl'%quiet_neutral)]. constructor; [|done]. eapply offered_grown; [done|by exists l'].
Qed.

Lemma privileged_grown h h' frame : privileged h frame -> grown h h' -> privileged h' frame.
Proof.
  intros (g & now & Hg & Hn & Hl & Hs & Hoff) Hgr. exists g, now.
  split_and!; [by apply (grown_elem h)|by apply (grown_elem h)|done..|].
  intros spec Hspec. apply (offered_grown g h h' spec); [by apply Hoff|done].
Qed.

Lemma wp_open_frame st ws iteration h :
  reportable st h ->
  wp bounded (open_frame request st ws iteration) h
    (stepping (fun frame h' => grown h h' /\ privileged h' frame)) not_finished.
Proof.
  intros Hst. unfold open_frame.
  eapply (wp_grown _ _ st _ (fun r h' => match r with
    | inl g => (QGrant (rq_grant_id request) ~> Ok (Some g)) ∈ h' /\ exists now, (QNow ~> now) ∈ h' /\
        now < cg_expires_at g /\ grant_in_scope request g = true
    | inr _ => True end)); [apply all_grant|done| |].
  { apply wp_grant; [done| |done|done]. intros g now h' _ Hg Hnow Hlive Hs. eauto 8. }
  intros granted h2 Hgrant Hg2. pose proof (grown_reportable _ _ _ Hst Hg2) as Hst2.
  destruct granted as [g|f]; [|by apply wp_stop, wp_finish_with].
  destruct Hgrant as (Hgin & now & Hnow & Hlive & Hscope).
  eapply (wp_grown _ _ st); [apply all_visible_tools|done|apply wp_visible_tools_loop|].
  intros available h3 Hoff Hg3. simpl in Hoff. pose proof (grown_reportable _ _ _ Hst2 Hg3) as Hst3.
  eapply (wp_step _ _ st); [by apply all_call|done|]. intros mono l4 Hl4.
  assert (Hg4 : grown h3 (l4 ++ h3)) by (by exists l4).
  eapply wp_lift_step; [by apply (grown_reportable _ _ _ Hst3 Hg4)|]. intros frame Hframe.
  assert (Hav : wf_available_tools frame = available) by (unfold workflow_frame in Hframe; py_simpl; done).
  split; [eapply grown_trans; [exact Hg2|]; eapply grown_trans; [exact Hg3|exact Hg4]|].
  apply (privileged_grown h3); [|done]. exists g, now.
  split_and!; [by apply (grown_elem h2)|by apply (grown_elem h2)|done..|].
  intros spec Hspec. rewrite Hav in Hspec. rewrite Forall_forall in Hoff. by apply Hoff.
Qed.

Lemma wp_act_on st safe decision iteration h :
  state_ok st h ->
  wp bounded (act_on self request st safe decision iteration) h (stepping (carried (rounds h))) not_finished.
Proof.
  intros Hok. unfold act_on. eapply (wp_step _ _ st); [by apply all_emit|apply Hok|]. intros u l Hl.
  assert (Hg : grown h (l ++ h)) by (by exists l). rewrite <- (grown_rounds _ _ Hg).
  pose proof (grown_state _ _ _ Hok Hg) as Hok'. clear Hg.
  eapply wp_lift_step; [apply Hok'|]. intros payload _.
  destruct (_ <? byte_len payload); [by apply wp_stop, wp_strategy_failure, Hok'|].
  case_bool_decide; [|by apply wp_run_tools].
  eapply wp_lift_step; [apply Hok'|]. intros output _.
  destruct (_ <? byte_len output); [by apply wp_stop, wp_strategy_failure, Hok'|].
  by apply wp_stop, wp_finish_with, Hok'.
Qed.

(** ** One iteration *)

(** What the loop has established before an iteration *)
Record admitted : Prop := {
  ad_budget : budget_policy_failure (er_policy self) (rq_budget request) = None;
  ad_read_only : rq_resume request <> None -> rq_read_only request = true;
}.

Lemma wp_run_iteration first c iteration h :
  admitted -> state_ok (ca_state c) h -> 1 <= first -> rounds h <= iteration - first -> iteration <= iters ->
  wp bounded (run_iteration self request has_prompt has_reflection first c iteration) h
    (stepping (carried (rounds h + 1))) not_finished.
Proof.
  intros [Hbudget Hro] Hok Hfirst Hrounds Hit. unfold run_iteration.
  eapply (wp_step _ _ (ca_state c)); [by apply all_call|apply Hok|]. intros taken l0 Hl0.
  assert (Hg0 : grown h (l0 ++ h)) by (by exists l0). rewrite <- (grown_rounds _ _ Hg0) in Hrounds |- *.
  pose proof (grown_state _ _ _ Hok Hg0) as Hok0. destruct taken; simpl.
  2: { eapply wp_lift_step; [apply Hok0|]. intros f _. apply wp_stop, wp_finish_with, Hok0. }
  set (st := MkRunState _ _ _ _ _ _).
  assert (Hpos : 0 <= iteration) by (unfold rounds in Hrounds; lia).
  assert (Hnext : forall h, state_ok (ca_state c) h -> state_ok st h).
  { intros h0 [[R1 [N1 N2 N3 N4]] S2 S3 S4]. constructor; [|done..]. constructor; [done|]. by constructor. }
  eapply (wp_store _ _ (ca_state c)); [apply Hok0|by apply Hnext|].
  intros h1 Hg1. rewrite <- (grown_rounds _ _ Hg1) in Hrounds |- *.
  assert (Hok1 : state_ok st h1) by (apply Hnext; by eapply grown_state).
  clearbody st. clear Hnext. eapply wp_and_then; [by apply wp_open_frame, Hok1|]. intros frame h4 [Hg4 Hpriv].
  pose proof (grown_state _ _ _ Hok1 Hg4) as Hok4. rewrite <- (grown_rounds _ _ Hg4) in Hrounds |- *.
  eapply wp_and_then; [by apply wp_render_prompt, Hok4|]. intros prompt h5 Hg5. simpl in Hg5.
  pose proof (grown_state _ _ _ Hok4 Hg5) as Hok5. rewrite <- (grown_rounds _ _ Hg5) in Hrounds |- *.
  eapply wp_and_then; [by apply wp_compatibility, Hok5|]. intros u h6 Hg6. simpl in Hg6.
  pose proof (grown_state _ _ _ Hok5 Hg6) as Hok6. rewrite <- (grown_rounds _ _ Hg6) in Hrounds |- *.
  pose proof (privileged_grown _ _ _ (privileged_grown _ _ _ Hpriv Hg5) Hg6) as Hpriv6.
  eapply wp_and_then; [apply wp_take_decision; [apply Hok6|split_and!; [lia|done..]]|].
  intros decision h7 Hturn. simpl in Hturn. destruct (turned_state st h6 h7 Hok6 Hturn) as [Hok7 Hr7].
  eapply wp_and_then; [by apply wp_review_decision, Hok7|]. intros decision' h8 Hg8. simpl in Hg8.
  rewrite <- Hr7, <- (grown_rounds _ _ Hg8). apply wp_act_on. by eapply grown_state.
Qed.

(** ** The whole loop *)
Lemma wp_iterate first c n iteration h :
  admitted -> state_ok (ca_state c) h -> 1 <= first -> rounds h <= iteration - first ->
  iteration + Z.of_nat n <= iters + 1 ->
  wp bounded (iterate self request has_prompt has_reflection n first c iteration) h final_ok not_finished.
Proof.
  intros Had. revert c iteration h. induction n as [|n IH]; intros c iteration h Hok Hfirst Hr Hn; simpl.
  - eapply wp_lift_step; [apply Hok|]. intros f _. apply wp_finish_with, Hok.
  - apply wp_bind. eapply (wp_mono bounded bounded); [done| |done|apply wp_run_iteration; [done..|lia]].
    intros [c'|r] h' Hc; [|done]. destruct Hc as [Hok' Hr']. apply IH; [done..|lia|lia].
Qed.

Lemma all_charge n : all quiet (@charge_iterations Handler n).
Proof. induction n; simpl; neutral_tac. Qed.

(** The validated request models a run is started with *)
Definition valid_run : Prop :=
  execution_budget (rq_budget request) = Ok (rq_budget request) /\
  forall r, rq_resume request = Some r -> run_resume_state r = Ok r.

Definition initial (st : RunState) : Prop :=
  st_iterations_used st = 0 /\ st_tool_calls_used st = 0 /\ st_observations st = [] /\ st_call_ids st = ∅.

(** No tool or workflow has been asked for yet. *)
Definition idle (h : hist) : Prop := calls h = 0 /\ fresh h = [] /\ rounds h = 0.

Lemma idle_grown h h' : idle h -> grown h h' -> idle h'.
Proof.
  intros (C1 & C2 & C3) (l & -> & Hl). destruct (neutral_counters l Hl) as (L1 & L2 & L3).
  unfold idle. rewrite calls_app, fresh_app, rounds_app, C1, C2, C3, L1, L2, L3. done.
Qed.

Lemma valid_run_budget : valid_run -> 1 <= iters /\ 0 <= limit.
Proof.
  intros [Hb _]. unfold execution_budget in Hb. unfold iters, limit. py_simpl. unfold between in *. py_simpl.
  rewrite !Z.leb_le in *. lia.
Qed.

Lemma valid_run_parallel : valid_run -> 1 <= eb_max_parallel_calls (rq_budget request).
Proof.
  intros [Hb _]. unfold execution_budget in Hb. py_simpl. unfold between in *. py_simpl.
  rewrite !Z.leb_le in *. lia.
Qed.

Lemma valid_run_inherited : valid_run -> 0 <= inherited.
Proof.
  intros [_ Hr]. unfold inherited. destruct (rq_resume request) as [r|]; [|done].
  specialize (Hr r eq_refl). unfold run_resume_state in Hr. py_simpl. unfold between in *. py_simpl.
  rewrite ?Z.leb_le in *. lia.
Qed.

(** A state restored from an accepted checkpoint *)
Lemma resumed_state_ok resume st h :
  rq_resume request = Some resume -> resume_refused self request resume = false ->
  run_resume_state resume = Ok resume -> open_journal h -> idle h -> st_started_at st = started ->
  let st' := MkRunState (st_started_at st) (st_started_monotonic st) (re_iterations_used resume)
    (re_tool_calls_used resume) (re_observations resume) (list_to_set (re_call_ids resume)) in
  state_ok st' h /\ 0 <= re_iterations_used resume /\ rq_read_only request = true.
Proof.
  intros Hres Href Hval Hj (C1 & C2 & C3) Hs st'. unfold resume_refused in Href. py_simpl.
  assert (0 <= re_iterations_used resume /\ 0 <= re_tool_calls_used resume) as [H0' H0''].
  { unfold run_resume_state in Hval. py_simpl. unfold between in *. py_simpl. split; by apply Z.leb_le. }
  rewrite Z.leb_gt, Z.ltb_ge in *.
  split_and!; [|done|by destruct (rq_read_only request)]. constructor.
  - constructor; [done|]. constructor; unfold iters, limit, st'; simpl; [done|lia|lia|intros _; lia].
  - intros _. unfold inherited. rewrite Hres, C1. simpl. lia.
  - rewrite C2. constructor.
  - rewrite C2. set_solver.
Qed.

Lemma wp_restore st g h :
  valid_run -> initial st -> st_started_at st = started -> open_journal h -> idle h ->
  wp bounded (restore self request st g) h
    (stepping (fun r h' => state_ok r.1 h' /\ rounds h' = 0 /\ 0 <= st_iterations_used r.1 /\
       (rq_resume request <> None -> rq_read_only request = true))) not_finished.
Proof.
  intros Hv (I1 & I2 & I3 & I4) I0 Hj Hidle. pose proof (valid_run_budget Hv) as [Hit Hlim].
  assert (Hrep : reportable st h) by (constructor; [done|constructor; intros; lia]).
  unfold restore. destruct (rq_resume request) as [resume|] eqn:Hres.
  2: { destruct Hidle as (C1 & C2 & C3). split_and!; [|done|simpl; lia|done].
       constructor; [done|intros _; unfold inherited; rewrite Hres; simpl; lia|rewrite C2; constructor|rewrite C2; set_solver]. }
  destruct (resume_refused self request resume) eqn:Href.
  { unfold valid_resume. rewrite Href. by apply wp_stop, wp_strategy_failure. }
  eapply (wp_step _ _ st); [apply all_valid_resume|done|]. intros valid l Hl.
  assert (Hg : grown h (l ++ h)) by (by exists l). set (h1 := (l ++ h)%list) in *. clearbody h1.
  pose proof (grown_reportable _ _ _ Hrep Hg) as Hrep1. pose proof (idle_grown _ _ Hidle Hg) as Hidle1.
  destruct valid; simpl; [|by apply wp_stop, wp_strategy_failure].
  destruct (resumed_state_ok resume st h1 Hres Href (proj2 Hv resume Hres) (rp_journal _ _ Hrep1) Hidle1 I0)
    as (Hok & Hpos & Hro).
  set (st2 := MkRunState _ _ _ _ _ _) in *. eapply (wp_store _ _ st); [done|apply Hok|]. intros h2 Hg2. pose proof (grown_state _ _ _ Hok Hg2) as Hok2.
  pose proof (idle_grown _ _ Hidle1 Hg2) as Hidle2.
  eapply (wp_step _ _ st2); [apply all_charge|apply Hok2|]. intros charged l3 Hl3.
  assert (Hg3 : grown h2 (l3 ++ h2)) by (by exists l3). set (h3 := (l3 ++ h2)%list) in *. clearbody h3.
  pose proof (grown_state _ _ _ Hok2 Hg3) as Hok3. pose proof (idle_grown _ _ Hidle2 Hg3) as Hidle3.
  destruct charged; simpl; [|by apply wp_stop, wp_strategy_failure, Hok3].
  eapply (wp_step _ _ st2); [unfold await; neutral_tac|apply Hok3|]. intros slots l4 Hl4.
  assert (Hg4 : grown h3 (l4 ++ h3)) by (by exists l4).
  pose proof (grown_state _ _ _ Hok3 Hg4) as Hok4. pose proof (idle_grown _ _ Hidle3 Hg4) as (_ & _ & Hr4).
  destruct (slots =? _); simpl; [|by apply wp_stop, wp_strategy_failure, Hok4].
  split_and!; [done..|by intros _].
Qed.

Lemma wp_run_loop st :
  valid_run -> initial st -> st_started_at st = started ->
  wp bounded (run_loop self request has_prompt has_reflection st) [] final_ok not_finished.
Proof.
  intros Hv Hin I0. pose proof Hin as (I1 & I2 & _). pose proof (valid_run_budget Hv) as [Hit Hlim].
  unfold run_loop. apply wp_bind, wp_emit_run;
    [|intros e h' Hx; unfold not_finished; rewrite (extends_journal _ _ _ Hx); set_solver].
  intros h Hx (l & Hh & Hpl). rewrite app_nil_r in Hh. subst l.
  assert (Hj : open_journal h) by (exists []; by rewrite (extends_journal _ _ _ Hx)).
  assert (Hidle : idle h) by (by apply plain_counters). clear Hx Hpl.
  assert (Hrep : reportable st h) by (constructor; [done|constructor; intros; lia]).
  destruct (budget_policy_failure _ _) as [f|] eqn:Hb; [by apply wp_finish_with|].
  eapply wp_lift_step; [done|]. intros input _. destruct (_ <? byte_len input); [by apply wp_finish_with|].
  eapply (wp_step _ _ st); [apply all_grant|done|]. intros granted l Hl.
  assert (Hg : grown h (l ++ h)) by (by exists l).
  pose proof (grown_reportable _ _ _ Hrep Hg) as Hrep1. pose proof (idle_grown _ _ Hidle Hg) as Hidle1.
  destruct granted as [g|f]; [|by apply wp_finish_with].
  apply wp_bind. eapply (wp_mono bounded bounded); [done| |done|apply wp_restore; [done..|apply Hrep1|done]].
  intros [[st' ws]|r] h' Hr; [|done]. destruct Hr as (Hok & Hr & Hpos & Hro). simpl in *.
  apply wp_iterate; [by constructor|done|lia|lia|].
  pose proof (cn_iterations _ _ (rp_counted _ _ (so_reportable _ _ Hok))) as Hle. unfold iters in *. lia.
Qed.

(** ** From single events to whole traces *)
Lemma calls_reverse t : calls (reverse t) = calls t.
Proof. induction t as [|e t IH]; [done|]. rewrite reverse_cons, calls_app, IH. simpl. lia. Qed.

Lemma rounds_reverse t : rounds (reverse t) = rounds t.
Proof.
  induction t as [|e t IH]; [done|]. rewrite reverse_cons, rounds_app, IH. unfold rounds. simpl.
  destruct (is_round e); simpl; lia.
Qed.

Lemma fresh_reverse t : fresh (reverse t) ≡ₚ fresh t.
Proof.
  induction t as [|e t IH]; [done|]. rewrite reverse_cons, fresh_app, IH. unfold fresh at 2 3. simpl.
  rewrite app_nil_r. apply Permutation_app_comm.
Qed.

(** Every event of the trace is bounded by the events before it. *)
Definition bounded_trace (t : hist) : Prop :=
  forall t1 e t2, t = (t1 ++ e :: t2)%list -> bounded (reverse t1) e.

Lemma bounded_trace_snoc t e : bounded_trace (t ++ [e]) -> bounded_trace t /\ bounded (reverse t) e.
Proof.
  intros Hb. split; [|by apply (Hb t e [])]. intros t1 e' t2 ->.
  apply (Hb t1 e' (t2 ++ [e])%list). by rewrite <- app_assoc.
Qed.

(** The loop itself enters no handler: only batches do. *)
Lemma bounded_trace_handles t e : bounded_trace t -> e ∈ t -> is_handle e = false.
Proof.
  intros Hb (t1 & t2 & ->)%list_elem_of_split. specialize (Hb t1 e t2 eq_refl). unfold bounded, is_handle in *.
  by destruct e as [[] a].
Qed.

Lemma bounded_trace_counters t :
  0 <= iters -> bounded_trace t ->
  rounds t <= iters /\ NoDup (fresh t) /\ (Forall honest t -> calls t = 0 \/ inherited + calls t <= limit).
Proof.
  intros Hit. induction t as [|e t IH] using rev_ind.
  { intros _. split_and!; [done|constructor|by left]. }
  intros [Ht He]%bounded_trace_snoc. destruct (IH Ht) as (IH1 & IH2 & IH3).
  rewrite rounds_app, calls_app, fresh_app. destruct e as [q a]. unfold bounded in He. simpl in He.
  assert (Hplain : plain (existT q a) -> rounds t + rounds [existT q a] <= iters /\
    NoDup (fresh t ++ fresh [existT q a]) /\ (Forall honest (t ++ [existT q a])%list ->
      calls t + calls [existT q a] = 0 \/ inherited + (calls t + calls [existT q a]) <= limit)).
  { intros Hp. destruct (plain_counters [existT q a]) as (-> & -> & ->); [by repeat constructor|].
    rewrite app_nil_r, !Z.add_0_r. split_and!; [done..|]. intros [Hh _]%Forall_app. auto. }
  destruct q as [| | | | | | | | | | | | | | | | |frame p| | |intents flags it]; try (by apply Hplain).
  - destruct He as (Hr & _). rewrite rounds_reverse in Hr. unfold rounds in *. simpl.
    split_and!; [lia|unfold fresh; simpl; by rewrite app_nil_r|]. intros [Hh _]%Forall_app. simpl. rewrite Z.add_0_r. auto.
  - destruct He as (_ & Hnd & Hc). split_and!; [unfold rounds in *; simpl; lia| |].
    + assert (Hnd' : NoDup (fresh_in intents flags ++ fresh (reverse t))) by exact Hnd.
      change (NoDup (fresh t ++ (fresh_in intents flags ++ []))). rewrite app_nil_r.
      by rewrite fresh_reverse, Permutation_app_comm in Hnd'.
    + intros [Hh _]%Forall_app. right. rewrite calls_reverse in Hc. simpl. unfold batched. simpl.
      specialize (Hc ltac:(by apply Forall_reverse)). lia.
Qed.
End Run.

(** Every trace of a run, finished or not, and what its end satisfies *)
Lemma run_loop_sound {Handler : Type} `{Hashing} `{Dumping} self request hp hr st
    (t : list (event (@answer Handler))) o :
  valid_run request -> initial st -> run_to (run_loop self request hp hr st) t o ->
  bounded_trace self request (st_started_at st) t /\
  match o with
  | Done r => final_ok request r (reverse t)
  | Thrown e => not_finished e (reverse t)
  | Cut => True
  end.
Proof.
  intros Hv Hi Hrun.
  destruct (wp_sound _ _ _ _ _ _ _ (wp_run_loop self request hp hr _ st Hv Hi eq_refl) Hrun) as [Hall Hend].
  rewrite app_nil_r in Hend. split; [|done]. intros t1 e t2 Ht. specialize (Hall t1 e t2 Ht). by rewrite app_nil_r in Hall.
Qed.

(** ** The quota a run charges

    What the loop relies on from the object it charges iterations and tool
    slots to: it grants at most what was asked for, whoever else charges it. *)
Class Quota (B : Type) : Type := {
  q_ok : B -> Prop;
  q_take_slots : B -> Z -> Z -> res Z * B;
  q_take_iteration : B -> Z -> bool * B;
  q_others : B -> B -> Prop;
  q_slots_honest b now n k b' : q_ok b -> q_take_slots b now n = (Ok k, b') -> 0 <= k <= n;
  q_slots_ok b now n r b' : q_ok b -> q_take_slots b now n = (r, b') -> q_ok b';
  q_iteration_ok b now r b' : q_ok b -> q_take_iteration b now = (r, b') -> q_ok b';
  q_others_ok b b' : q_ok b -> q_others b b' -> q_ok b';
}.

(** The shared [AggregateRunBudget] is such a quota; the other holders are the
    delegated runs. *)
#[global] Program Instance aggregate_quota : Quota Budget.AggregateRunBudget := {
  q_ok := Budget.wf;
  q_take_slots b now n := Budget.take_tool_slots b now (AInt n);
  q_take_iteration := Budget.take_iteration;
  q_others b b' := exists i t, Budget.steps b i t b';
}.
Next Obligation. intros b now n k b' Hok Ht. by apply (Budget.take_tool_slots_Ok _ _ _ _ _ Ht). Qed.
Next Obligation. intros b now n r b' Hok Ht. by apply (Budget.wf_take_tool_slots _ _ _ _ _ Hok Ht). Qed.
Next Obligation. intros b now r b' Hok Ht. by apply (Budget.wf_take_iteration _ _ _ _ Hok Ht). Qed.
Next Obligation. intros b b' Hok (i & t & Hs). by apply (Budget.steps_inv _ _ _ _ Hs). Qed.

(** The quota questions of the trace were answered by [b], with other holders
    charging it in between. *)
Inductive answered_by {Handler B : Type} `{Quota B} : B -> list (event (@answer Handler)) -> Prop :=
| ab_nil b : answered_by b []
| ab_others b b' t : q_others b b' -> answered_by b' t -> answered_by b t
| ab_slots b now n r b' t : q_take_slots b now n = (r, b') -> answered_by b' t ->
    answered_by b ((QTakeSlots n ~> r) :: t)
| ab_iteration b now r b' t : q_take_iteration b now = (r, b') -> answered_by b' t ->
    answered_by b ((QTakeIteration ~> r) :: t)
| ab_skip b e t : match projT1 e with QTakeSlots _ | QTakeIteration => False | _ => True end ->
    answered_by b t -> answered_by b (e :: t).

Lemma answered_honest {Handler B : Type} `{Quota B} b (t : list (event (@answer Handler))) :
  q_ok b -> answered_by b t -> Forall honest t.
Proof.
  intros Hok Ht. induction Ht as [b|b b' t Ho _ IH|b now n r b' t Hs _ IH|b now r b' t Hs _ IH|b e t He _ IH].
  - constructor.
  - apply IH. by eapply q_others_ok.
  - constructor; [|apply IH; by eapply q_slots_ok]. destruct r as [k|e]; [|done]. by eapply q_slots_honest.
  - constructor; [done|]. apply IH. by eapply q_iteration_ok.
  - constructor; [|by apply IH]. destruct e as [[] ?]; done.
Qed.

(** No quota question *)
Definition uncharged {Handler : Type} (e : event (@answer Handler)) : bool :=
  match projT1 e with QTakeSlots _ | QTakeIteration => false | _ => true end.

Lemma answered_app {Handler B : Type} `{Quota B} b (t t' : list (event (@answer Handler))) :
  answered_by b t -> forallb uncharged t' = true -> answered_by b (t ++ t').
Proof.
  intros Ht Ht'. assert (Hskip : forall b', answered_by b' t').
  { induction t' as [|e t' IH]; intros b'; [constructor|]. simpl in Ht'. apply andb_true_iff in Ht' as [He Ht'].
    apply ab_skip; [|by apply IH]. unfold uncharged in He. by destruct (projT1 e). }
  induction Ht; simpl; [done|eapply ab_others|eapply ab_slots|eapply ab_iteration|eapply ab_skip]; eauto.
Qed.

Lemma answered_take {Handler B : Type} `{Quota B} b n (t : list (event (@answer Handler))) :
  answered_by b t -> answered_by b (take n t).
Proof.
  intros Ht. revert n. induction Ht as [b|b b' t Ho _ IH|b now k r b' t Hs _ IH|b now r b' t Hs _ IH|b e t He _ IH];
    intros n; [rewrite take_nil; constructor|by eapply ab_others|..]; destruct n; simpl; try apply ab_nil.
  - by eapply ab_slots.
  - by eapply ab_iteration.
  - by apply ab_skip.
Qed.

(** ** Properties *)

(** C2. A run never exceeds its budget.  Along every trace of a validated
    request, finished, failed or cancelled: the workflow is consulted at most
    [max_iterations] times, and the tool calls handed out for execution,
    together with those inherited from a resumed run, never exceed
    [max_tool_calls], whatever quota object the run and its delegates charge. *)
Theorem run_stays_in_budget {Handler B : Type} `{Hashing} `{Dumping} `{Quota B}
    self request hp hr st (t : list (event (@answer Handler))) o (b : B) :
  valid_run request -> initial st -> q_ok b -> answered_by b t ->
  run_to (run_loop self request hp hr st) t o ->
  rounds t <= eb_max_iterations (rq_budget request) /\
  (calls t = 0 \/ inherited request + calls t <= eb_max_tool_calls (rq_budget request)).
Proof.
  intros Hv Hi Hq Hb Hrun. destruct (run_loop_sound self request hp hr st t o Hv Hi Hrun) as [Htr _].
  destruct (bounded_trace_counters self request (st_started_at st) t) as (Hr & _ & Hc).
  - pose proof (valid_run_budget request Hv). lia.
  - exact Htr.
  - split; [done|]. apply Hc. by eapply answered_honest.
Qed.

(** A call identifier is executed at most once in a run: over all batches
    of every trace, the identifiers handed out without the duplicate flag are
    pairwise distinct. *)
Theorem call_ids_execute_once {Handler : Type} `{Hashing} `{Dumping}
    self request hp hr st (t : list (event (@answer Handler))) o :
  valid_run request -> initial st -> run_to (run_loop self request hp hr st) t o -> NoDup (fresh t).
Proof.
  intros Hv Hi Hrun. destruct (run_loop_sound self request hp hr st t o Hv Hi Hrun) as [Htr _].
  apply (bounded_trace_counters self request (st_started_at st) t).
  - pose proof (valid_run_budget request Hv). lia.
  - exact Htr.
Qed.

(** Least privilege of strategies.  Whenever the product's workflow is
    consulted, the requested budget is within the root policy's ceilings, a
    grant of the request's tenant, product and principal was found unexpired
    before, and every tool offered in the frame was resolved from the registry,
    is listed in that grant by its exact identity, needs only granted
    capabilities, and is a read tool if the run is read-only, as a resumed run
    always is. *)
Theorem workflow_sees_only_granted_tools {Handler : Type} `{Hashing} `{Dumping}
    self request hp hr st (t : list (event (@answer Handler))) o t1 frame prompt a t2 :
  valid_run request -> initial st -> run_to (run_loop self request hp hr st) t o ->
  t = (t1 ++ (QWorkflow frame prompt ~> a) :: t2)%list ->
  budget_policy_failure (er_policy self) (rq_budget request) = None /\
  (rq_resume request <> None -> rq_read_only request = true) /\
  privileged request t1 frame.
Proof.
  intros Hv Hi Hrun Ht. destruct (run_loop_sound self request hp hr st t o Hv Hi Hrun) as [Htr _].
  destruct (Htr _ _ _ Ht) as (_ & (g & now & Hg & Hn & Hl & Hs & Hoff) & Hb & Hro). split_and!; [done..|].
  rewrite elem_of_reverse in Hg, Hn. exists g, now. split_and!; [done..|].
  intros spec Hspec. destruct (Hoff spec Hspec) as (name & tool & Hin & Hrest).
  rewrite elem_of_reverse in Hin. eauto.
Qed.

(** C8. The journal frames every run: a run that produces a result recorded
    [RUN_STARTED] first and [RUN_FINISHED] last and neither in between, and the
    result reports success exactly when it carries no failure, for this run's
    id and within its iteration budget; a run that ends in an exception has not
    recorded [RUN_FINISHED]. *)
Theorem run_is_framed_by_the_journal {Handler : Type} `{Hashing} `{Dumping}
    self request hp hr st (t : list (event (@answer Handler))) o :
  valid_run request -> initial st -> run_to (run_loop self request hp hr st) t o ->
  match o with
  | Done r =>
      rr_run_id r = rq_run_id request /\ (rr_status r = RUN_SUCCEEDED <-> rr_failure r = None) /\
      rr_iterations_used r <= eb_max_iterations (rq_budget request) /\
      exists mid, journal t = (RUN_STARTED :: mid ++ [RUN_FINISHED])%list /\
        Forall (fun ty => ty <> RUN_STARTED /\ ty <> RUN_FINISHED) mid
  | Thrown _ => RUN_FINISHED ∉ journal t
  | Cut => True
  end.
Proof.
  intros Hv Hi Hrun. destruct (run_loop_sound self request hp hr st t o Hv Hi Hrun) as [_ Hend].
  destruct o as [r|e|]; [| |done].
  - destruct Hend as [F1 F2 F3 _ (mid & Hj & Hm)]. split_and!; [done..|].
    rewrite journal_reverse, reverse_eq_iff, reverse_cons, reverse_app in Hj. exists (reverse mid).
    split; [done|]. apply Forall_reverse. eapply Forall_impl; [exact Hm|]. by intros [].
  - unfold not_finished in Hend. by rewrite journal_reverse, elem_of_reverse in Hend.
Qed.

(** ** A concrete run: one tool call, then the final answer *)
#[local] Instance demo_hash : Hashing := fun _ => zeros.
#[local] Instance demo_dumping : Dumping :=
  {| dump_resume _ := JNull; dump_conversation _ := JNull; runtime_environment _ := "clock" |}.

Definition demo_decision (iteration : Z) : WorkflowDecision :=
  if iteration =? 1 then MkWorkflowDecision TOOLS [demo_intent] JNull JNull
  else MkWorkflowDecision FINAL [] (JStr "ok") JNull.

(** The collaborators of [demo_env], with a real shared budget *)
Definition demo_world (q : query unit) (s : Z * Budget.AggregateRunBudget) :
    answer q * (Z * Budget.AggregateRunBudget) :=
  match q with
  | QTakeSlots n => let '(r, b) := Budget.take_tool_slots s.2 0 (AInt n) in (r, (s.1, b))
  | QTakeIteration => let '(r, b) := Budget.take_iteration s.2 0 in (r, (s.1, b))
  | QWorkflow frame _ => (([SDecision (demo_decision (wf_iteration frame))], Ok tt), s)
  | QBatch _ _ _ => (Ok [demo_observation], s)
  | q => let '(a, z) := demo_env q s.1 in (a, (z, s.2))
  end.

Lemma demo_world_answered {A : Type} (p : prog (@answer unit) A) s :
  answered_by s.2 (interp demo_world p s).1.1.
Proof.
  revert s. induction p as [a|e|q k IH]; intros [z b]; simpl; [constructor..|].
  destruct (demo_world q (z, b)) as [a [z' b']] eqn:Hw. specialize (IH a (z', b')).
  destruct (interp demo_world (k a) (z', b')) as [[t o] s2]. simpl in IH |- *.
  destruct q; simpl in Hw;
    try (match type of Hw with (let '(_, _) := ?x in _) = _ => destruct x eqn:Hx end);
    simplify_eq; first [by apply ab_skip
      | eapply (ab_slots _ 0); [exact Hx|exact IH] | eapply (ab_iteration _ 0); [exact Hx|exact IH]].
Qed.

Definition demo_budget : Budget.AggregateRunBudget :=
  Budget.Mk 8 8 2 (seconds 60) 0 0 ∅ 0.
Definition demo_state : RunState := MkRunState 10 0 0 0 [] ∅.
Definition demo_loop : prog (@answer unit) RunResult := run_loop demo_runner demo_run false false demo_state.
Definition demo_outcome : list (event (@answer unit)) * outcome RunResult * (Z * Budget.AggregateRunBudget) :=
  interp demo_world demo_loop (20, demo_budget).

Lemma demo_valid : valid_run demo_run.
Proof. by split. Qed.

Lemma demo_initial : initial demo_state.
Proof. by repeat split. Qed.

Lemma demo_budget_ok : q_ok demo_budget.
Proof. constructor; try (simpl; lia). decide_by_vm. Qed.

Lemma run_stays_in_budget_witness :
  calls demo_outcome.1.1 = 1 /\ (calls demo_outcome.1.1 = 0 \/ 0 + calls demo_outcome.1.1 <= 8).
Proof.
  split; [vm_cast_no_check (eq_refl 1)|].
  apply (run_stays_in_budget demo_runner demo_run false false demo_state demo_outcome.1.1 demo_outcome.1.2 demo_budget).
  - apply demo_valid.
  - apply demo_initial.
  - apply demo_budget_ok.
  - apply (demo_world_answered demo_loop (20, demo_budget)).
  - apply interp_run_to.
Defined.

Lemma call_ids_execute_once_witness : fresh demo_outcome.1.1 = ["call-1"] /\ NoDup (fresh demo_outcome.1.1).
Proof.
  split; [vm_cast_no_check (eq_refl ["call-1"])|].
  apply (call_ids_execute_once demo_runner demo_run false false demo_state demo_outcome.1.1 demo_outcome.1.2).
  - apply demo_valid.
  - apply demo_initial.
  - apply interp_run_to.
Defined.

Definition demo_frame : WorkflowFrame := MkWorkflowFrame 1 [] [rt_spec demo_wipe] JNull 0 23.

Lemma demo_consulted : demo_outcome.1.1 =
  (take 12 demo_outcome.1.1 ++ (QWorkflow demo_frame None ~> ([SDecision (demo_decision 1)], Ok tt))
    :: drop 13 demo_outcome.1.1)%list.
Proof. vm_cast_no_check (eq_refl demo_outcome.1.1). Qed.

Lemma workflow_sees_only_granted_tools_witness :
  privileged demo_run (take 12 demo_outcome.1.1) demo_frame.
Proof.
  apply (workflow_sees_only_granted_tools demo_runner demo_run false false demo_state demo_outcome.1.1
    demo_outcome.1.2 (take 12 demo_outcome.1.1) demo_frame None ([SDecision (demo_decision 1)], Ok tt)
    (drop 13 demo_outcome.1.1)).
  - apply demo_valid.
  - apply demo_initial.
  - apply interp_run_to.
  - apply demo_consulted.
Defined.

Lemma run_is_framed_by_the_journal_witness :
  exists r mid, demo_outcome.1.2 = Done r /\ journal demo_outcome.1.1 = (RUN_STARTED :: mid ++ [RUN_FINISHED])%list.
Proof.
  pose proof (run_is_framed_by_the_journal demo_runner demo_run false false demo_state demo_outcome.1.1
    demo_outcome.1.2 demo_valid demo_initial (interp_run_to _ _ _)) as Hframe.
  destruct demo_outcome.1.2 as [r|e|] eqn:Ho.
  - destruct Hframe as (_ & _ & _ & mid & Hj & _). exact (ex_intro _ r (ex_intro _ mid (conj eq_refl Hj))).
  - by vm_compute in Ho.
  - by vm_compute in Ho.
Defined.
End RunInvariants.
