(* ===== verification/RunnerBatch.v ===== *)
(** * Concurrent execution of a batch ([execution/runner.py], [_execute_batch])

    Each intent of a batch is a task that first acquires the batch's semaphore.
    A schedule interleaves the tasks at their awaits; its labels are the task
    and the event.  [gather] returns the observations in the order of the
    intents and re-raises the first exception, after which the remaining tasks
    are cancelled, which is a schedule that simply stops. *)
From S2P Require Import Prelude PyText Json Scopes ExecModels Registry Prog RunnerPolicy RunnerIntent Mediation RunnerLoop RunInvariants.
Open Scope string_scope.
Open Scope Z_scope.

Module Batch.
Export RunInvariants.

Section Batch.
Context {Handler : Type} `{Hashing} (self : ExecutionRunner) (request : RunRequest).
Context (iteration started_monotonic : Z).

Abbreviation event := (event (@answer Handler)).
Abbreviation exec := (@exec Handler).

(** The inner [execute] coroutine, inside the semaphore *)
Definition execute (intent : ToolIntent) (duplicate : bool) : exec ToolObservation :=
  observation <-- execute_intent self request intent iteration started_monotonic duplicate ;;
  await (call (QPublish "tool_completed" ""
    [("call_id", JStr (in_call_id intent)); ("tool_name", JStr (in_tool_name intent));
     ("status", JStr (call_status_value (ob_status observation)))])) ;;;
  Ret observation.

Inductive task : Type :=
| Waiting (p : exec ToolObservation)
| Running (p : exec ToolObservation)
| Finished (r : res ToolObservation).

Definition is_running (t : task) : bool := match t with Running _ => true | _ => false end.
Definition running (ts : list task) : nat := length (List.filter is_running ts).

(** One step of one task; [free] says whether the semaphore has a slot. *)
Inductive task_step (free : Prop) : task -> option event -> task -> Prop :=
| ts_acquire p : free -> task_step free (Waiting p) None (Running p)
| ts_ask q k a : task_step free (Running (Call q k)) (Some (existT q a)) (Running (k a))
| ts_return o : task_step free (Running (Ret o)) None (Finished (Ok o))
| ts_raise e : task_step free (Running (Throw e)) None (Finished (Raise e)).

Definition capacity : nat := Z.to_nat (eb_max_parallel_calls (rq_budget request)).

Inductive batch_step : list task -> option (nat * event) -> list task -> Prop :=
| bs i ts t e t' :
    ts !! i = Some t -> task_step (running ts < capacity)%nat t e t' ->
    batch_step ts ((fun e => (i, e)) <$> e) (<[ i := t' ]> ts).

(** A schedule: its labelled events, oldest first *)
Inductive schedule : list task -> list (nat * event) -> list task -> Prop :=
| sc_nil ts : schedule ts [] ts
| sc_step ts l ts1 b ts2 : batch_step ts l ts1 -> schedule ts1 b ts2 ->
    schedule ts (option_list l ++ b) ts2.

Definition start (intents : list ToolIntent) (flags : list bool) : list task :=
  (fun p : ToolIntent * bool => Waiting (execute p.1 p.2)) <$> zip intents flags.

(** [asyncio.gather]: all results in order, or the failure of a task *)
Definition gathered (ts : list task) (r : res (list ToolObservation)) : Prop :=
  match r with
  | Ok os => ts = (fun o => Finished (Ok o)) <$> os
  | Raise e => Finished (Raise e) ∈ ts
  end.

(** The events of one task *)
Definition task_events (i : nat) (b : list (nat * event)) : list event :=
  omap (fun p : nat * event => if decide (p.1 = i) then Some p.2 else None) b.

(** ** Every task follows its program *)

(** What is left of a task's program, and how far it can have come *)
Definition outcome_of (t : task) : outcome ToolObservation :=
  match t with
  | Waiting _ | Running _ => Cut
  | Finished (Ok o) => Done o
  | Finished (Raise e) => Thrown e
  end.

Definition rest_of (t : task) : exec ToolObservation :=
  match t with
  | Waiting p | Running p => p
  | Finished (Ok o) => Ret o
  | Finished (Raise e) => Throw e
  end.

Lemma run_to_cut {A : Type} (p : prog (@answer Handler) A) : run_to p [] Cut.
Proof. destruct p; simpl; auto. Qed.

Lemma rest_outcome t : run_to (rest_of t) [] (outcome_of t).
Proof. destruct t as [p|p|[o|e]]; simpl; auto using run_to_cut. Qed.

Lemma task_step_run free t e t' tr o :
  task_step free t e t' -> run_to (rest_of t') tr o -> run_to (rest_of t) (option_list e ++ tr) o.
Proof. intros Hs Hr. destruct Hs; simpl in *; auto. right. eauto. Qed.

Lemma schedule_task ts b ts' i t :
  schedule ts b ts' -> ts !! i = Some t ->
  exists t', ts' !! i = Some t' /\ run_to (rest_of t) (task_events i b) (outcome_of t').
Proof.
  intros Hs. revert t. induction Hs as [ts|ts l ts1 b ts2 Hstep _ IH]; intros t Ht.
  { exists t. split; [done|]. apply rest_outcome. }
  destruct Hstep as [j ts tj e tj' Hj Htask]. destruct (decide (i = j)) as [->|Hne].
  - rewrite Hj in Ht. injection Ht as <-.
    destruct (IH tj') as (t' & Ht' & Hrun); [by apply list_lookup_insert_eq; apply lookup_lt_Some in Hj|].
    exists t'. split; [done|]. unfold task_events in *. rewrite omap_app.
    replace (omap _ (option_list ((fun e => (j, e)) <$> e))) with (option_list e); [by eapply task_step_run|].
    destruct e as [e|]; simpl; [|done]. by rewrite decide_True.
  - destruct (IH t) as (t' & Ht' & Hrun); [by rewrite list_lookup_insert_ne|].
    exists t'. split; [done|]. unfold task_events in *. rewrite omap_app.
    replace (omap _ (option_list ((fun e => (j, e)) <$> e))) with (@nil event); [done|].
    destruct e as [e|]; simpl; [|done]. by rewrite decide_False.
Qed.

Lemma schedule_length ts b ts' : schedule ts b ts' -> length ts' = length ts.
Proof. induction 1 as [|? ? ? ? ? [] _ IH]; [done|]. by rewrite IH, length_insert. Qed.

(** ** The semaphore bounds the running tasks *)
Lemma running_insert ts i t t' : ts !! i = Some t ->
  (running (<[i := t']> ts) + (if is_running t then 1 else 0) =
   running ts + (if is_running t' then 1 else 0))%nat.
Proof.
  intros Ht. rewrite (insert_take_drop ts i t') by (by eapply lookup_lt_Some).
  rewrite <- (take_drop_middle ts i t Ht) at 3. unfold running.
  rewrite !List.filter_app, !length_app. simpl. destruct (is_running t), (is_running t'); simpl; lia.
Qed.

Lemma schedule_running ts b ts' :
  schedule ts b ts' -> (running ts <= capacity)%nat -> (running ts' <= capacity)%nat.
Proof.
  induction 1 as [|ts l ts1 b ts2 Hstep _ IH]; [done|]. intros Hr. apply IH.
  destruct Hstep as [i ts t e t' Ht Htask]. pose proof (running_insert ts i t t' Ht) as Hrun.
  destruct Htask; simpl in Hrun; lia.
Qed.

Lemma start_running intents flags : running (start intents flags) = 0%nat.
Proof. unfold start, running. induction (zip intents flags); [done|]. done. Qed.

(** ** What one task may do *)
Definition handled (e : event) : option string :=
  match projT1 e with QHandle _ ctx _ => Some (tc_call_id ctx) | _ => None end.

(** The call ids whose handlers were entered *)
Definition handled_ids (h : list event) : list string := omap handled h.

Lemma wp_execute intent duplicate :
  wp (guarded self request intent duplicate) (execute intent duplicate) []
    (fun o _ => ob_call_id o = in_call_id intent) (fun _ _ => True).
Proof.
  unfold execute. apply wp_bind.
  eapply (wp_mono (guarded self request intent duplicate)); [done| |done|apply wp_execute_intent].
  intros o h [Hid _]. unfold await. apply wp_bind, wp_bind, wp_call; [apply guarded_quiet|done|].
  intros r. apply wp_lift; [intros [] _; done|done].
Qed.

Lemma guarded_handles intent duplicate t :
  (forall t1 e t2, t = (t1 ++ e :: t2)%list -> guarded self request intent duplicate (reverse t1 ++ []) e) ->
  handles t = 0%nat /\ handled_ids t = [] \/ duplicate = false /\ handles t = 1%nat /\ handled_ids t = [in_call_id intent].
Proof.
  induction t as [|e t IH] using rev_ind; intros Hall; [by left|].
  assert (He : guarded self request intent duplicate (reverse t ++ []) e) by (by apply (Hall t e [])).
  assert (IH' : handles t = 0%nat /\ handled_ids t = [] \/
    duplicate = false /\ handles t = 1%nat /\ handled_ids t = [in_call_id intent]).
  { apply IH. intros t1 e' t2 ->. apply (Hall t1 e' (t2 ++ [e])%list). by rewrite <- app_assoc. }
  unfold handled_ids in *. rewrite omap_app, handles_app.
  destruct (is_handle e) eqn:Hh.
  - destruct e as [[] a]; try done. destruct He as [Hm Hzero]. rewrite app_nil_r, handles_reverse in Hzero.
    destruct IH' as [[_ ->]|(_ & Hn & _)]; [|congruence]. right.
    destruct (md_context _ _ _ _ _ _ _ _ Hm) as (_ & _ & Hid & _).
    split_and!; [apply (md_fresh _ _ _ _ _ _ _ _ Hm)|by rewrite Hzero|]. simpl. by rewrite Hid.
  - assert (handled e = None) as Hn by (destruct e as [[] a]; done).
    assert (handles [e] = 0%nat) as -> by (unfold handles; simpl; by rewrite Hh).
    simpl. rewrite Hn, app_nil_r, Nat.add_0_r. done.
Qed.

(** ** Merging the tasks *)
Lemma mjoin_update {A : Type} (f f' : nat -> list A) l i e :
  NoDup l -> i ∈ l -> f' i = e :: f i -> (forall j, j <> i -> f' j = f j) ->
  mjoin (f' <$> l) ≡ₚ e :: mjoin (f <$> l).
Proof.
  intros Hnd Hin Hi Hj. induction Hnd as [|j l Hjl Hnd IH]; [by apply not_elem_of_nil in Hin|].
  simpl. destruct (decide (j = i)) as [->|Hne].
  - rewrite Hi. simpl. constructor. assert (Heq : f' <$> l = f <$> l).
    { apply list_fmap_ext. intros k x Hx. apply Hj. intros ->. apply Hjl. by eapply list_elem_of_lookup_2. }
    change (list_fmap nat (list A) f' l) with (f' <$> l). by rewrite Heq.
  - rewrite Hj by done. rewrite IH by (by apply elem_of_cons in Hin as [->|]). by rewrite Permutation_middle.
Qed.

Lemma events_by_task n b : Forall (fun p : nat * event => (p.1 < n)%nat) b ->
  b.*2 ≡ₚ mjoin ((fun i => task_events i b) <$> seq 0 n).
Proof.
  induction 1 as [|[i e] b Hi _ IH]; simpl.
  - induction (seq 0 n); [done|]. done.
  - rewrite IH. symmetry. apply mjoin_update with (i := i).
    + apply NoDup_seq.
    + apply elem_of_seq. simpl in Hi. lia.
    + unfold task_events. simpl. by rewrite decide_True.
    + intros j Hj. unfold task_events. simpl. by rewrite decide_False.
Qed.

Lemma schedule_labels ts b ts' :
  schedule ts b ts' -> Forall (fun p : nat * event => (p.1 < length ts)%nat) b.
Proof.
  induction 1 as [|ts l ts1 b ts2 Hstep _ IH]; [constructor|].
  destruct Hstep as [i ts t e t' Ht _]. rewrite length_insert in IH. apply Forall_app. split; [|done].
  destruct e; simpl; repeat constructor. by eapply lookup_lt_Some.
Qed.

Lemma sublist_by_index (g : nat -> list string) (l : list (ToolIntent * bool)) k :
  (forall (i : nat) (p : ToolIntent * bool), l !! i = Some p -> g (k + i)%nat `sublist_of` (if p.2 then @nil string else [in_call_id p.1])%list) ->
  mjoin (g <$> seq k (length l)) `sublist_of`
    omap (fun p : ToolIntent * bool => if p.2 then None else Some (in_call_id p.1)) l.
Proof.
  revert k. induction l as [|p l IH]; intros k Hg; simpl; [constructor|].
  assert (Hp : g k `sublist_of` (if p.2 then @nil string else [in_call_id p.1])).
  { specialize (Hg 0%nat p eq_refl). by rewrite Nat.add_0_r in Hg. }
  assert (Hl : mjoin (g <$> seq (S k) (length l)) `sublist_of`
    omap (fun p : ToolIntent * bool => if p.2 then None else Some (in_call_id p.1)) l).
  { apply IH. intros i q Hq. specialize (Hg (S i) q Hq). by rewrite <- Nat.add_succ_comm in Hg. }
  destruct p.2; [exact (sublist_app _ [] _ _ Hp Hl)|exact (sublist_app _ [_] _ _ Hp Hl)].
Qed.

(** Handlers entered in a schedule of a batch: at most once per fresh call id *)
Lemma batch_handled intents flags b ts :
  length flags = length intents -> schedule (start intents flags) b ts ->
  exists ids, handled_ids b.*2 ≡ₚ ids /\ ids `sublist_of` fresh_in intents flags.
Proof.
  intros Hlen Hs. pose proof (schedule_labels _ _ _ Hs) as Hlab.
  set (n := length (start intents flags)) in *.
  exists (mjoin ((fun i => handled_ids (task_events i b)) <$> seq 0 n)). split.
  - unfold handled_ids. rewrite (events_by_task n b Hlab). clear.
    induction (seq 0 n) as [|i l IH]; [done|]. simpl. by rewrite omap_app, IH.
  - assert (n = length (zip intents flags)) as -> by (unfold n, start; by rewrite length_fmap).
    unfold fresh_in. apply (sublist_by_index _ _ 0). intros i [intent dup] Hi. simpl.
    destruct (schedule_task _ _ _ i (Waiting (execute intent dup)) Hs) as (t' & _ & Hrun).
    { unfold start. by rewrite list_lookup_fmap, Hi. }
    destruct (wp_sound _ _ _ _ _ _ _ (wp_execute intent dup) Hrun) as [Hall _].
    destruct (guarded_handles _ _ _ Hall) as [[_ ->]|(-> & _ & ->)]; [apply sublist_nil_l|done].
Qed.

(** ** Schedules end *)
Definition task_next (t' t : task) : Prop := exists e, task_step True t e t'.

Lemma finished_acc r : Acc task_next (Finished r).
Proof. constructor. intros t' [e He]. inversion He. Qed.

Lemma running_acc p : Acc task_next (Running p).
Proof.
  induction p as [o|e|q k IH]; constructor; intros t' [ev Hev].
  - remember (Running (Ret o)) as t eqn:Ht. destruct Hev; simplify_eq. apply finished_acc.
  - remember (Running (Throw e)) as t eqn:Ht. destruct Hev; simplify_eq. apply finished_acc.
  - assert (Hgen : forall t, task_step True t ev t' ->
      match t with Running (Call q' k') => exists a, t' = Running (k' a) | _ => True end).
    { intros t []; simpl; eauto. }
    specialize (Hgen _ Hev). simpl in Hgen. destruct Hgen as [a ->]. apply IH.
Qed.

Lemma task_acc t : Acc task_next t.
Proof.
  destruct t as [p|p|r]; [|apply running_acc|apply finished_acc].
  constructor. intros t' [e He]. remember (Waiting p) as t eqn:Ht. destruct He; simplify_eq. apply running_acc.
Qed.

Definition batch_next (ts' ts : list task) : Prop := exists l, batch_step ts l ts'.

Definition list_next (ts' ts : list task) : Prop :=
  exists i t t', ts !! i = Some t /\ task_next t' t /\ ts' = <[ i := t' ]> ts.

Lemma list_acc ts : Acc list_next ts.
Proof.
  induction ts as [|t ts IH].
  { constructor. intros ts' (i & t & t' & Ht & _). by destruct i. }
  pose proof (task_acc t) as Ht. revert ts IH. induction Ht as [t _ IHt]. intros ts Hts.
  induction Hts as [ts Hts IHts]. constructor. intros ts' (i & u & u' & Hu & Hstep & ->).
  destruct i as [|i]; simpl in *.
  - injection Hu as ->. apply IHt; [done|]. by constructor.
  - apply IHts. exists i, u, u'. done.
Qed.

Lemma batch_acc ts : Acc batch_next ts.
Proof.
  induction (list_acc ts) as [ts _ IH]. constructor. intros ts' [l Hs]. apply IH.
  destruct Hs as [i ts t e t' Ht Htask]. exists i, t, t'. split_and!; [done| |done].
  exists e. destruct Htask; by constructor.
Qed.

(** Every question has some answer, so a running task is never stuck. *)
Lemma answer_exists (q : query Handler) : inhabited (answer q).
Proof.
  destruct q; constructor; unfold answer;
    first [exact 0 | exact "" | exact None | exact true | exact tt | exact (Raise ValueError)
      | exact (Raise ValueError, []) | exact ([], Raise ValueError) | exact HDenied].
Qed.

Lemma batch_progress ts : (1 <= capacity)%nat ->
  (Forall (fun t => exists r, t = Finished r) ts) \/ exists l ts', batch_step ts l ts'.
Proof.
  intros Hcap. destruct (decide (Exists (fun t => is_running t = true) ts)) as [He|He].
  - right. apply Exists_exists in He as (t & Hin & Ht). apply list_elem_of_lookup in Hin as [i Hi].
    destruct t as [p|p|r]; try done. destruct p as [o|e|q k].
    + do 2 eexists. eapply (bs i ts _ None); [exact Hi|constructor].
    + do 2 eexists. eapply (bs i ts _ None); [exact Hi|constructor].
    + destruct (answer_exists q) as [a]. do 2 eexists. eapply (bs i ts _ (Some (existT q a))); [exact Hi|constructor].
  - assert (Hnone : running ts = 0%nat).
    { unfold running. apply not_Exists_Forall in He; [|apply _]. clear - He.
      induction He as [|t ts Ht _ IH]; [done|]. simpl in *. by destruct (is_running t). }
    destruct (decide (Forall (fun t => match t with Waiting _ => false | _ => true end = true) ts)) as [Hw|Hw].
    + left. apply not_Exists_Forall in He; [|apply _]. rewrite Forall_forall in *. intros t Hin.
      specialize (Hw t Hin). specialize (He t Hin). destruct t; [done|done|eauto].
    + right. apply not_Forall_Exists in Hw; [|apply _]. apply Exists_exists in Hw as (t & Hin & Ht).
      apply list_elem_of_lookup in Hin as [i Hi]. destruct t as [p|p|r]; [|by destruct (Ht eq_refl)..].
      do 2 eexists. eapply (bs i ts _ None); [exact Hi|constructor; lia].
Qed.
End Batch.

(** ** Whole runs *)

(** [expands t f]: [f] is the trace [t] of the run loop with every batch
    replaced by the events of some schedule of its tasks; when the batch
    returned observations, the schedule had finished with them.  A run that is
    cancelled inside a batch sees the batch answer [CancelledError]. *)
Inductive expands {Handler : Type} `{Hashing} (self : ExecutionRunner) (request : RunRequest) (mono : Z) :
    list (event (@answer Handler)) -> list (event (@answer Handler)) -> Prop :=
| ex_nil : expands self request mono [] []
| ex_event e t f :
    (match projT1 e with QBatch _ _ _ => False | _ => True end) ->
    expands self request mono t f -> expands self request mono (e :: t) (e :: f)
| ex_batch intents flags it (r : res (list ToolObservation)) b ts t f :
    schedule request (start self request it mono intents flags) b ts ->
    (forall os, r = Ok os -> gathered ts (Ok os)) ->
    expands self request mono t f ->
    expands self request mono ((QBatch intents flags it ~> r) :: t) (b.*2 ++ f).

Section Whole.
Context {Handler : Type} `{Hashing} (self : ExecutionRunner) (request : RunRequest) (mono : Z).
Abbreviation hist := (list (event (@answer Handler))).

Lemma handles_handled (h : hist) : handles h = length (handled_ids h).
Proof.
  unfold handles, handled_ids. induction h as [|[q a] h IH]; [done|].
  simpl. destruct q; simpl; by rewrite IH.
Qed.

Lemma fresh_calls (t : hist) : Z.of_nat (length (fresh t)) <= calls t.
Proof.
  induction t as [|[q a] t IH]; [done|].
  change (Z.of_nat (length (fresh_of (existT q a) ++ fresh t)) <= batched (existT q a) + calls t).
  rewrite length_app. unfold fresh_of, batched. simpl. destruct q; simpl; try lia.
  assert (length (fresh_in intents duplicate_flags) <= length intents)%nat; [|lia].
  unfold fresh_in. transitivity (length (zip intents duplicate_flags)).
  - induction (zip intents duplicate_flags) as [|[i []] l IHl]; csimpl in *; [done|lia..].
  - rewrite length_zip. lia.
Qed.

Definition well_flagged (e : event (@answer Handler)) : Prop :=
  match projT1 e with QBatch intents flags _ => length flags = length intents | _ => True end.

(** Handlers entered in a run come from the fresh call ids of its batches. *)
Lemma expands_handled t f :
  expands self request mono t f -> Forall (fun e => is_handle e = false /\ well_flagged e) t ->
  exists ids, handled_ids f ≡ₚ ids /\ ids `sublist_of` fresh t.
Proof.
  induction 1 as [|e t f He _ IH|intents flags it r b ts t f Hs _ _ IH]; intros Ht.
  - by exists [].
  - apply Forall_cons in Ht as [[Hh _] Ht]. destruct (IH Ht) as (ids & Hp & Hsub). exists ids.
    assert (handled e = None) as Hn by (destruct e as [[] a]; done).
    assert (fresh_of e = []) as Hf by (destruct e as [[] a]; done).
    unfold handled_ids, fresh in *. simpl. by rewrite Hn, Hf.
  - apply Forall_cons in Ht as [[_ Hflag] Ht]. destruct (IH Ht) as (ids & Hp & Hsub).
    destruct (batch_handled self request it mono intents flags b ts Hflag Hs) as (ids' & Hp' & Hsub').
    exists (ids' ++ ids)%list. split; [|by apply sublist_app].
    unfold handled_ids in *. by rewrite omap_app, Hp, Hp'.
Qed.

Lemma bounded_batches started t : bounded_trace self request started t ->
  Forall (fun e => is_handle e = false /\ well_flagged e) t.
Proof.
  intros Hb. apply Forall_forall. intros e He. split; [by eapply bounded_trace_handles|].
  apply list_elem_of_split in He as (t1 & t2 & ->). specialize (Hb t1 e t2 eq_refl).
  unfold bounded, well_flagged in *. destruct e as [[] a]; simpl in *; try done. apply Hb.
Qed.

End Whole.

(** ** Properties *)

(** The batch's semaphore works: whatever the interleaving of its tasks and
    whatever they get as answers, at no point of a schedule are more than
    [max_parallel_calls] calls of a batch in progress. *)
Theorem batch_parallelism_is_bounded {Handler : Type} `{Hashing} self request iteration mono intents flags b
    (ts : list (@task Handler)) :
  valid_run request -> schedule request (start self request iteration mono intents flags) b ts ->
  Z.of_nat (running ts) <= eb_max_parallel_calls (rq_budget request).
Proof.
  intros Hv Hs. pose proof (valid_run_parallel request Hv).
  pose proof (schedule_running request _ _ _ Hs) as Hr. rewrite start_running in Hr. unfold capacity in Hr. lia.
Qed.

(** A batch that succeeds returns one observation per intent, in the order
    of the intents and with their call ids, however its calls interleaved. *)
Theorem batch_observes_in_intent_order {Handler : Type} `{Hashing} self request iteration mono intents flags b
    (ts : list (@task Handler)) os :
  length flags = length intents ->
  schedule request (start self request iteration mono intents flags) b ts -> gathered ts (Ok os) ->
  ob_call_id <$> os = in_call_id <$> intents.
Proof.
  intros Hlen Hs Hg. simpl in Hg. apply list_eq_same_length with (length intents); [by rewrite length_fmap|..].
  { apply schedule_length in Hs. rewrite Hg, length_fmap in Hs. unfold start in Hs.
    rewrite length_fmap, length_zip in Hs. rewrite length_fmap. lia. }
  intros i x y _ Hx Hy. rewrite list_lookup_fmap_Some in Hx. rewrite list_lookup_fmap_Some in Hy.
  destruct Hx as (o & -> & Ho), Hy as (intent & -> & Hi).
  destruct (lookup_lt_is_Some_2 flags i) as [dup Hdup]; [apply lookup_lt_Some in Hi; lia|].
  destruct (schedule_task request _ _ _ i (Waiting (execute self request iteration mono intent dup)) Hs)
    as (t' & Ht' & Hrun).
  { assert (zip intents flags !! i = Some (intent, dup)) as Hz by (by apply lookup_zip_with_Some; eauto).
    unfold start. by rewrite list_lookup_fmap, Hz. }
  rewrite Hg, list_lookup_fmap, Ho in Ht'. injection Ht' as <-.
  by destruct (wp_sound _ _ _ _ _ _ _ (wp_execute self request iteration mono intent dup) Hrun) as [_ Hend].
Qed.

(** Batches terminate: no schedule of a batch is infinite, and as long as a
    task is unfinished some task can move, so waiting for the semaphore never
    deadlocks. *)
Theorem batch_terminates {Handler : Type} `{Hashing} self request iteration mono intents flags :
  valid_run request ->
  Acc (@batch_next Handler request) (start self request iteration mono intents flags) /\
  forall b ts, schedule request (start self request iteration mono intents flags) b ts ->
    Forall (fun t : @task Handler => exists r, t = Finished r) ts \/ exists l ts', batch_step request ts l ts'.
Proof.
  intros Hv. split; [apply batch_acc|]. intros b ts _. apply batch_progress.
  pose proof (valid_run_parallel request Hv). unfold capacity. lia.
Qed.

(** C3. Exactly-once effects within the budget, for whole runs: in every trace
    of a run, with its batches scheduled in any way, the handlers entered carry
    pairwise distinct call ids and are at most [max_tool_calls] in number. *)
Theorem handlers_run_once_within_budget {Handler B : Type} `{Hashing} `{Dumping} `{Quota B}
    self request hp hr st mono (t f : list (event (@answer Handler))) o (q : B) :
  valid_run request -> initial st -> q_ok q -> answered_by q t ->
  run_to (run_loop self request hp hr st) t o -> expands self request mono t f ->
  NoDup (handled_ids f) /\ Z.of_nat (handles f) <= eb_max_tool_calls (rq_budget request).
Proof.
  intros Hv Hi Hq Hb Hrun Hx.
  destruct (run_loop_sound self request hp hr st t o Hv Hi Hrun) as [Htr _].
  pose proof (valid_run_budget request Hv) as Hbud.
  destruct (bounded_trace_counters self request (st_started_at st) t) as (_ & Hnd & Hc); [lia|done|].
  specialize (Hc ltac:(by eapply answered_honest)).
  destruct (expands_handled self request mono t f Hx (bounded_batches self request _ t Htr)) as (ids & Hp & Hsub).
  rewrite Hp. split; [by eapply sublist_NoDup|].
  rewrite handles_handled, Hp. pose proof (fresh_calls t). pose proof (sublist_length _ _ Hsub).
  pose proof (valid_run_inherited request Hv). unfold limit in *. lia.
Qed.

(** ** A concrete batch: the call of the mediation example and a duplicate of
    it, both admitted, the duplicate finishing first *)
#[local] Instance demo_hash : Hashing := fun _ => zeros.

Lemma run_task {Handler : Type} request (p : prog (@answer Handler) ToolObservation) (ts : list (@task Handler)) i t o :
  ts !! i = Some (Running p) -> run_to p t (Done o) ->
  schedule request ts ((fun e => (i, e)) <$> t) (<[ i := Finished (Ok o) ]> ts).
Proof.
  revert ts t. induction p as [a|e|q k IH]; intros ts t Hi Hrun.
  - destruct Hrun as [-> [[= ->]|[=]]]. eapply (sc_step _ _ None _ []); [|constructor].
    eapply (bs _ i ts _ None); [done|constructor].
  - by destruct Hrun as [_ [[=]|[=]]].
  - destruct Hrun as [[_ [=]]|(a & t' & -> & Hrun)].
    eapply (sc_step _ _ (Some (i, existT q a)) (<[ i := Running (k a) ]> ts)).
    + eapply (bs _ i ts _ (Some (existT q a))); [done|constructor].
    + rewrite <- (list_insert_insert_eq ts i (Finished (Ok o)) (Running (k a))). apply (IH a); [|done].
      apply list_lookup_insert_eq. by eapply lookup_lt_Some.
Qed.

Lemma admit_task {Handler : Type} request (p : prog (@answer Handler) ToolObservation) (ts : list (@task Handler)) i b ts' :
  ts !! i = Some (Waiting p) -> (running ts < capacity request)%nat ->
  schedule request (<[ i := Running p ]> ts) b ts' -> schedule request ts b ts'.
Proof.
  intros Hi Hr Hs. eapply (sc_step _ _ None _ b); [|done]. eapply (bs _ i ts _ None); [done|by apply ts_acquire].
Qed.

Lemma schedule_trans {Handler : Type} request (ts1 ts2 ts3 : list (@task Handler)) b1 b2 :
  schedule request ts1 b1 ts2 -> schedule request ts2 b2 ts3 -> schedule request ts1 (b1 ++ b2) ts3.
Proof.
  induction 1 as [|ts l ts' b ts'' Hstep _ IH]; [done|]. intros Hs. rewrite <- app_assoc.
  eapply sc_step; [done|]. by apply IH.
Qed.

Definition demo_task (duplicate : bool) : prog (@answer unit) ToolObservation :=
  execute demo_runner demo_run 1 0 demo_intent duplicate.
Definition demo_run_task (duplicate : bool) := interp demo_env (demo_task duplicate) 10.
Definition demo_duplicate : ToolObservation :=
  MkToolObservation "call-1" "wipe" None None CALL_DENIED JNull
    (Some (failure DUPLICATE_CALL_ID "call_id was already used in this run" (Some 1) (Some "call-1") (Some "wipe")))
    10 13.

Lemma demo_task_done duplicate :
  run_to (demo_task duplicate) (demo_run_task duplicate).1.1
    (Done (if duplicate then demo_duplicate else demo_observation)).
Proof.
  assert (Ho : (demo_run_task duplicate).1.2 = Done (if duplicate then demo_duplicate else demo_observation)).
  { destruct duplicate; [vm_cast_no_check (eq_refl (Done demo_duplicate))
                        |vm_cast_no_check (eq_refl (Done demo_observation))]. }
  rewrite <- Ho. apply interp_run_to.
Qed.

Definition demo_tasks (duplicates : list bool) : list (@task unit) :=
  start demo_runner demo_run 1 0 ((fun _ => demo_intent) <$> duplicates) duplicates.
Definition demo_events (i : nat) (duplicate : bool) := (fun e => (i, e)) <$> (demo_run_task duplicate).1.1.

Lemma demo_schedule : schedule demo_run (demo_tasks [false; true]) (demo_events 1 true ++ demo_events 0 false)
  [Finished (Ok demo_observation); Finished (Ok demo_duplicate)].
Proof.
  eapply (admit_task _ _ _ 0); [reflexivity|decide_by_vm|].
  eapply (admit_task _ _ _ 1); [reflexivity|decide_by_vm|].
  apply (schedule_trans _ _ [Running (demo_task false); Finished (Ok demo_duplicate)]).
  - apply (run_task _ (demo_task true) [Running (demo_task false); Running (demo_task true)] 1 _ demo_duplicate);
      [reflexivity|apply (demo_task_done true)].
  - apply (run_task _ (demo_task false) [Running (demo_task false); Finished (Ok demo_duplicate)] 0 _ demo_observation);
      [reflexivity|apply (demo_task_done false)].
Qed.

Lemma demo_both_running : schedule demo_run (demo_tasks [false; true]) []
  [Running (demo_task false); Running (demo_task true)].
Proof.
  eapply (admit_task _ _ _ 0); [reflexivity|decide_by_vm|].
  eapply (admit_task _ _ _ 1); [reflexivity|decide_by_vm|]. constructor.
Qed.

Lemma batch_parallelism_is_bounded_witness :
  Z.of_nat (running [Running (demo_task false); Running (demo_task true)]) = 2 /\
  Z.of_nat (running [Running (demo_task false); Running (demo_task true)])
    <= eb_max_parallel_calls (rq_budget demo_run).
Proof.
  split; [reflexivity|].
  apply (batch_parallelism_is_bounded demo_runner demo_run 1 0 [demo_intent; demo_intent] [false; true] []).
  - apply demo_valid.
  - apply demo_both_running.
Defined.

Lemma batch_observes_in_intent_order_witness :
  ob_call_id <$> [demo_observation; demo_duplicate] = in_call_id <$> [demo_intent; demo_intent].
Proof.
  apply (batch_observes_in_intent_order demo_runner demo_run 1 0 [demo_intent; demo_intent] [false; true]
    (demo_events 1 true ++ demo_events 0 false)
    [Finished (Ok demo_observation); Finished (Ok demo_duplicate)] [demo_observation; demo_duplicate]).
  - reflexivity.
  - apply demo_schedule.
  - reflexivity.
Defined.

Lemma batch_terminates_witness : Acc (batch_next demo_run) (demo_tasks [false; true]).
Proof.
  apply (batch_terminates demo_runner demo_run 1 0 [demo_intent; demo_intent] [false; true]). apply demo_valid.
Defined.

(** The run of the previous file, with its batch expanded *)
Lemma expands_app {Handler : Type} self request mono (t1 t f : list (event (@answer Handler))) :
  forallb (fun e => match projT1 e with QBatch _ _ _ => false | _ => true end) t1 = true ->
  expands self request mono t f -> expands self request mono (t1 ++ t) (t1 ++ f).
Proof.
  induction t1 as [|e t1 IH]; [done|]. simpl. intros [He Ht]%andb_true_iff Hx.
  constructor; [by destruct (projT1 e)|by apply IH].
Qed.

#[local] Instance demo_dumping : Dumping :=
  {| dump_resume _ := JNull; dump_conversation _ := JNull; runtime_environment _ := "clock" |}.

Definition demo_full : list (event (@answer unit)) :=
  (take 18 demo_outcome.1.1 ++ (demo_events 0 false).*2 ++ drop 19 demo_outcome.1.1)%list.

Lemma demo_outcome_batch : demo_outcome.1.1 =
  (take 18 demo_outcome.1.1 ++ (QBatch [demo_intent] [false] 1 ~> Ok [demo_observation])
    :: drop 19 demo_outcome.1.1)%list.
Proof. vm_cast_no_check (eq_refl demo_outcome.1.1). Qed.

Lemma demo_expands : expands demo_runner demo_run 0 demo_outcome.1.1 demo_full.
Proof.
  rewrite demo_outcome_batch. apply expands_app; [vm_cast_no_check (eq_refl true)|].
  eapply (ex_batch demo_runner demo_run 0 _ _ _ _ _ [Finished (Ok demo_observation)]).
  - eapply (admit_task _ _ _ 0); [reflexivity|decide_by_vm|].
    apply (run_task _ (demo_task false) [Running (demo_task false)] 0 _ demo_observation);
      [reflexivity|apply (demo_task_done false)].
  - by intros os [= <-].
  - rewrite <- (app_nil_r (drop 19 demo_outcome.1.1)). apply expands_app; [vm_cast_no_check (eq_refl true)|constructor].
Qed.

Lemma handlers_run_once_within_budget_witness :
  handled_ids demo_full = ["call-1"] /\ Z.of_nat (handles demo_full) <= 8.
Proof.
  split; [vm_cast_no_check (eq_refl ["call-1"])|].
  apply (handlers_run_once_within_budget demo_runner demo_run false false demo_state 0 demo_outcome.1.1 demo_full
    demo_outcome.1.2 demo_budget).
  - apply demo_valid.
  - apply demo_initial.
  - apply demo_budget_ok.
  - apply (demo_world_answered demo_loop (20, demo_budget)).
  - apply interp_run_to.
  - apply demo_expands.
Defined.
End Batch.
