(* ===== verification/Supervisor.v ===== *)
(** * Supervision of a run ([execution/runner.py], [_run], [_terminate], [cancel])

    [_run] registers the run in the table of active runs, starts the loop as a
    task and waits for the loop, a cancellation or the time limit; whichever
    comes first decides the result.  The loop may have been stopped at any of
    its awaits, so the result is computed from the last state it stored.

    The supervisor itself is a program: its own awaits are questions, and a
    cancellation of its task is an answer to the one it was suspended in.  So the
    [try], the [except asyncio.CancelledError] and the [finally] of [_run] stand
    where the source has them. *)
From S2P Require Import Prelude PyText Json Scopes ExecModels Registry Prog RunnerPolicy RunnerIntent Mediation RunnerLoop RunInvariants.
Open Scope string_scope.
Open Scope Z_scope.
Open Scope list_scope.

Module Supervisor.
Export RunInvariants.

(** ** How a run ends *)
Section Conclude.
Context {Handler : Type} (request : RunRequest).
Abbreviation exec := (@exec Handler).
Abbreviation hist := (list (event (@answer Handler))).

Definition report (st : RunState) (status : RunStatus) (code : FailureCode) (message : string) : exec RunResult :=
  f <-- lift (run_failure (failure code message None None None)) ;;
  result request st status JNull (Some f).

Definition internal_error (st : RunState) : exec RunResult :=
  report st RUN_FAILED INTERNAL_ERROR "trusted execution infrastructure failed".

(** The early return of [_run] when the key is taken *)
Definition conflict (st : RunState) : exec RunResult :=
  report st RUN_FAILED RUN_CONFLICT "a run with this run_id is already active".

(** [_terminate], once the loop task has been cancelled and awaited *)
Definition terminate (st : RunState) (status : RunStatus) (code : FailureCode) (message : string) : exec RunResult :=
  r <-- report st status code message ;;
  catch (finish request r) (fun _ => internal_error st).

(** What wakes the supervisor *)
Inductive wake : Type :=
| Returned (r : RunResult)
| Raised (e : exn)
| CancelRequested
| TimeLimit
| CallerCancelled.

#[global] Instance wake_eq_dec : EqDecision wake.
Proof. solve_decision. Defined.

(** The loop's own end decides only if the loop is what woke the supervisor. *)
Definition wakes (w : wake) (o : outcome RunResult) : Prop :=
  match w with
  | Returned r => o = Done r
  | Raised e => o = Thrown e
  | _ => True
  end.

(** The shared [_RunState] as the loop left it *)
Definition last_state (st : RunState) (t : hist) : RunState :=
  foldl (fun st e => match projT1 e with QStore s => s | _ => st end) st t.

(** ** Reports *)
Definition reports (st : RunState) (status : RunStatus) (code : FailureCode) (r : RunResult) : Prop :=
  rr_run_id r = rq_run_id request /\ rr_status r = status /\
  (exists f, rr_failure r = Some f /\ rf_code f = code) /\
  rr_observations r = st_observations st /\ rr_iterations_used r = st_iterations_used st /\
  rr_tool_calls_used r = st_tool_calls_used st.

(** The wall clock went back since the run started. *)
Definition clock_stepped_back (st : RunState) (h : hist) : Prop :=
  exists now, (QNow ~> now) ∈ h /\ now < st_started_at st.

Lemma wp_report st status code message h (R : RunResult -> hist -> Prop) (E : exn -> hist -> Prop) :
  status <> RUN_SUCCEEDED ->
  0 <= st_iterations_used st -> 0 <= st_tool_calls_used st ->
  (forall r h', reports st status code r -> extends h h' [] -> R r h') ->
  (forall e h', e <> CancelledError -> clock_stepped_back st h' -> E e h') ->
  wp (fun _ _ => True) (report st status code message) h R E.
Proof.
  intros Hs Hi Hc HR HE. unfold report, result.
  apply wp_bind, wp_lift; [intros f [= <-]|done]. apply wp_bind, wp_lift; [intros out [= <-]|done].
  apply wp_bind. apply (wp_ask (ans := @answer Handler) (fun _ _ => True) QNow). intros now. split; [done|].
  unfold run_result. simpl. rewrite (proj2 (Z.leb_le _ _) Hi), (proj2 (Z.leb_le _ _) Hc).
  rewrite (bool_decide_false (status = RUN_SUCCEEDED)), (bool_decide_true (status <> RUN_SUCCEEDED)) by done.
  simpl. destruct (st_started_at st <=? now) eqn:Hnow; apply wp_lift; simpl; try done.
  - intros r [= <-]. apply HR; [repeat split; by eexists|]. apply extends_step; [apply extends_refl|done..].
  - intros e [= <-]. apply HE; [done|]. exists now. split; [left|]. by apply Z.leb_gt.
Qed.

(** What [_terminate] delivers: its status, recorded in the journal, or an
    internal error when the journal refused the record *)
Definition terminated (st : RunState) (status : RunStatus) (code : FailureCode) (h : hist) (r : RunResult) (h' : hist) : Prop :=
  reports st status code r /\ extends h h' [RUN_FINISHED] \/
  reports st RUN_FAILED INTERNAL_ERROR r /\ extends h h' [].

(** The journal's append was cancelled. *)
Definition append_cancelled (h : hist) : Prop := exists ev, (QAppend ev ~> Raise CancelledError) ∈ h.

Lemma audit_event_Raise ev e : audit_event ev = Raise e -> e <> CancelledError.
Proof.
  unfold audit_event, identifier_if_set, optional_identifier, validate_tool_binding, canonical_json, identifier, name_, guard. simpl. intros Hr ->.
  repeat (case_match; simpl in *; try done).
Qed.

Lemma emit_cancelled ty data h : wp (fun _ _ => True) (emit request ty None None None data) h (fun _ _ => True)
  (fun e h' => e = CancelledError -> append_cancelled h').
Proof.
  unfold emit, await. apply wp_bind, wp_ask. intros id. split; [done|]. apply wp_bind, wp_ask. intros at_. split; [done|].
  apply wp_bind, wp_lift; [|intros e He ->; by apply audit_event_Raise in He]. intros ev _.
  apply wp_bind, (wp_ask (ans := @answer Handler) _ (QAppend ev)). intros a. split; [done|]. apply wp_lift; [done|]. intros e -> ->. exists ev. by left.
Qed.

Lemma wp_terminate st status code message h :
  status <> RUN_SUCCEEDED -> 0 <= st_iterations_used st -> 0 <= st_tool_calls_used st ->
  wp (fun _ _ => True) (terminate st status code message) h (terminated st status code h)
    (fun e h' => (e = CancelledError /\ append_cancelled h' /\ extends h h' []) \/ (e <> CancelledError /\ clock_stepped_back st h')).
Proof.
  intros Hs Hi Hc. unfold terminate. apply wp_bind, wp_report; [done..| |intros e h' Hne Hb; by right].
  intros r h1 Hr Hx1. apply wp_catch. unfold finish. apply wp_bind.
  match goal with |- wp _ (emit _ _ _ _ _ ?data) _ _ _ =>
    assert (wp (fun _ _ => True) (emit request RUN_FINISHED None None None data) h1 (fun _ h' => extends h1 h' [RUN_FINISHED]) (fun _ h' => extends h1 h' [])) as Hemit by (by apply wp_emit);
    pose proof (wp_and _ _ _ _ _ _ _ (emit_cancelled RUN_FINISHED data h1) Hemit) as Hboth
  end.
  eapply wp_mono; [| | |exact Hboth]; [done|..].
  - intros [] h2 [_ Hx2]. left. split; [done|]. by apply (extends_trans h h1 h2 [] [RUN_FINISHED]).
  - intros e h2 [Hcan Hx2]. simpl in Hx2. pose proof (extends_trans h h1 h2 [] [] Hx1 Hx2) as Hx. destruct (catchable e) eqn:He.
    + unfold internal_error. apply wp_report; [done..| |intros e' h' Hne Hb; by right].
      intros r' h3 Hr' Hx3. right. split; [done|]. by apply (extends_trans h h2 h3 [] []).
    + left. unfold catchable in He. case_bool_decide; [|done]. split_and!; [done|by apply Hcan|done].
Qed.

(** ** The supervisor as a program *)

(** Its awaits: waiting for whatever wakes it, for the cancelled [cancel_task], for the cancelled loop, and for the
    lock of the table in the [finally] block.  A Boolean answer says that the supervisor's task was
    cancelled while it waited. *)
Inductive await_point : Type :=
| SRunner (q : query Handler)
| SWait
| SCancelTask
| SLoop
| SLock.

Definition reply (q : await_point) : Type :=
  match q with SRunner q => answer q | SWait => wake | SCancelTask | SLoop | SLock => bool end.

Abbreviation supervision := (prog reply).
Abbreviation shist := (list (event reply)).

(** What the supervisor does of the runner's own *)
Fixpoint within {A : Type} (p : exec A) : supervision A :=
  match p with
  | Ret a => Ret a
  | Throw e => Throw e
  | Call q k => Call (SRunner q : await_point) (fun a => within (k a))
  end.

(** [_terminate]: the loop is cancelled and awaited first. *)
Definition terminating (st : RunState) (status : RunStatus) (code : FailureCode) (message : string) : supervision RunResult :=
  interrupted <-- ask (SLoop : await_point) ;;
  if (interrupted : bool) then Throw CancelledError else within (terminate st status code message).

(** The body of the [try]; [contextlib.suppress] swallows a cancellation that hits the supervisor while it awaits
    [cancel_task]. *)
Definition conclude (st : RunState) : supervision RunResult :=
  w <-- ask (SWait : await_point) ;;
  match (w : wake) with
  | Returned r => ask (SCancelTask : await_point) ;;; Ret r
  | Raised e => ask (SCancelTask : await_point) ;;; (if catchable e then within (internal_error st) else Throw e)
  | CancelRequested => terminating st RUN_CANCELLED CODE_CANCELLED "run was cancelled"
  | TimeLimit => terminating st RUN_TIMED_OUT CODE_TIMED_OUT "run exceeded its time budget"
  | CallerCancelled => Throw CancelledError
  end.

(** [_run] after registration *)
Definition supervise (st : RunState) : supervision RunResult :=
  finally
    (on_cancel (conclude st) (terminating st RUN_CANCELLED CODE_CANCELLED "caller cancelled the run"))
    (interrupted <-- ask (SLock : await_point) ;; if (interrupted : bool) then Throw CancelledError else Ret tt).

(** ** What the trace of a supervisor tells *)
Definition runner_event (e : event reply) : option (event (@answer Handler)) :=
  match e with existT (SRunner q) a => Some (existT q a) | _ => None end.
Definition runner_events (h : shist) : hist := omap runner_event h.

(** A [CancelledError] was raised into the [try] statement: by the caller, by the loop that ended with one, or by the
    journal.  The lock is outside of it, and at [cancel_task] it is suppressed. *)
Definition cancels (e : event reply) : bool :=
  match e with
  | existT SWait w => match w with CallerCancelled => true | Raised x => negb (catchable x) | _ => false end
  | existT SLoop b => b
  | existT (SRunner (QAppend _)) (Raise x) => negb (catchable x)
  | _ => false
  end.

Definition cancelled (h : shist) : Prop := exists c, c ∈ h /\ cancels c = true.
(** ... twice, one after the other *)
Definition cancelled_again (h : shist) : Prop := exists h2 h1, h = h2 ++ h1 /\ cancelled h1 /\ cancelled h2.
Definition lock_cancelled (h : shist) : Prop := (SLock ~> true : event reply) ∈ h.

Lemma runner_events_app h1 h2 : runner_events (h1 ++ h2) = runner_events h1 ++ runner_events h2.
Proof. apply omap_app. Qed.

Lemma runner_events_elem (q : query Handler) (a : answer q) h : (q ~> a) ∈ runner_events h -> (SRunner q ~> a : event reply) ∈ h.
Proof.
  unfold runner_events. rewrite list_elem_of_omap. intros ([q' b] & Hin & He). destruct q' as [q'| | | |]; simpl in He; try done. apply (inj Some) in He.
  apply (f_equal (fun e : event (@answer Handler) => (SRunner (projT1 e) ~> projT2 e : event reply))) in He. simpl in He. by rewrite He in Hin.
Qed.

Lemma append_is_cancel h new : append_cancelled (runner_events new ++ h) -> append_cancelled h \/ cancelled new.
Proof.
  intros (ev & [Hin|Hin]%elem_of_app); [right|left; by exists ev]. exists (SRunner (QAppend ev) ~> Raise CancelledError).
  split; [by apply runner_events_elem|done].
Qed.

#[local] Arguments wp : simpl nomatch.

Lemma wp_within {A : Type} (p : exec A) hp h R E : wp (fun _ _ => True) p hp R E ->
  wp (fun _ _ => True) (within p) h (fun a h' => exists new, h' = new ++ h /\ R a (runner_events new ++ hp))
    (fun e h' => exists new, h' = new ++ h /\ E e (runner_events new ++ hp)).
Proof.
  revert hp h. induction p as [a|e|q k IH]; intros hp h Hp; simpl in *; [by exists []..|]. intros a. split; [done|]. destruct (Hp a) as [_ Hk].
  eapply (wp_mono (fun _ _ => True) (fun _ _ => True)); [done| | |exact (IH a _ ((SRunner q ~> a) :: h) Hk)];
    intros x h' (new & -> & Hx); exists (new ++ [SRunner q ~> a]); rewrite <- app_assoc, runner_events_app, <- app_assoc; (split; [done|]); exact Hx.
Qed.

#[local] Arguments wp : simpl never.

(** Why a run was stopped *)
Definition reason (w : wake) : RunStatus * FailureCode :=
  match w with TimeLimit => (RUN_TIMED_OUT, CODE_TIMED_OUT) | _ => (RUN_CANCELLED, CODE_CANCELLED) end.

(** A result that [_terminate] delivered, or the internal error, with what the journal has of it *)
Definition stopped (st : RunState) (status : RunStatus) (code : FailureCode) (r : RunResult) (h : shist) : Prop :=
  reports st status code r /\ journal (runner_events h) = [RUN_FINISHED] \/
  reports st RUN_FAILED INTERNAL_ERROR r /\ journal (runner_events h) = [].

(** What a supervisor's trace, newest event first, leads to *)
Definition concluded (st : RunState) (r : RunResult) (h : shist) : Prop :=
  exists w new, h = new ++ [SWait ~> w] /\
    match w with
    | Returned r' => r = r'
    | Raised e => (if catchable e then reports st RUN_FAILED INTERNAL_ERROR r /\ journal (runner_events h) = [] else stopped st RUN_CANCELLED CODE_CANCELLED r h)
    | _ => stopped st (reason w).1 (reason w).2 r h \/ cancelled new /\ stopped st RUN_CANCELLED CODE_CANCELLED r h
    end.

Definition clock_back (st : RunState) (h : shist) : Prop := clock_stepped_back st (runner_events h).

Lemma clock_back_later st new h : clock_back st new -> clock_back st (new ++ h).
Proof. intros (now & Hin & Hlt). exists now. split; [|done]. rewrite runner_events_app. apply elem_of_app. by left. Qed.

Lemma wp_terminating st status code message h :
  status <> RUN_SUCCEEDED -> 0 <= st_iterations_used st -> 0 <= st_tool_calls_used st -> journal (runner_events h) = [] ->
  wp (fun _ _ => True) (terminating st status code message) h
    (fun r h' => (exists new, h' = new ++ h) /\ stopped st status code r h')
    (fun e h' => (e = CancelledError /\ journal (runner_events h') = [] /\ exists new, h' = new ++ h /\ cancelled new) \/ (e <> CancelledError /\ clock_back st h')).
Proof.
  intros Hs Hi Hc Hj. unfold terminating. apply wp_bind, wp_ask. intros b. split; [done|]. destruct b; cbv iota.
  { left. split; [done|]. split; [done|]. exists [SLoop ~> true]. split; [done|]. exists (SLoop ~> true). split; [by left|done]. }
  assert (forall new js, extends [] (runner_events new ++ []) js -> journal (runner_events (new ++ (SLoop ~> false) :: h)) = js) as Hjs.
  { intros new js Hx%extends_journal. rewrite app_nil_r in Hx. rewrite runner_events_app, journal_app, Hx. simpl. change (omap runner_event h) with (runner_events h). by rewrite Hj, !app_nil_r. }
  eapply (wp_mono (fun _ _ => True) (fun _ _ => True)); [done| | |eapply (wp_within (terminate st status code message) []); by apply wp_terminate].
  - intros r h' (new & -> & Ht). split; [exists (new ++ [SLoop ~> false]); by rewrite <- app_assoc|].
    destruct Ht as [[Hr Hx]|[Hr Hx]]; [left|right]; (split; [done|by apply Hjs]).
  - intros e h' (new & -> & [(-> & Hcan & Hx)|[Hne Hb]]); [left|right; split; [done|]].
    + split; [done|]. split; [by apply Hjs|]. exists (new ++ [SLoop ~> false]). split; [by rewrite <- app_assoc|].
      destruct (append_is_cancel _ _ Hcan) as [(ev & Hin%not_elem_of_nil)|(c & Hin & Hc')]; [done|]. exists c. split; [apply elem_of_app; by left|done].
    + rewrite app_nil_r in Hb. by apply clock_back_later.
Qed.

Lemma wp_conclude st : 0 <= st_iterations_used st -> 0 <= st_tool_calls_used st ->
  wp (fun _ _ => True) (conclude st) [] (concluded st)
    (fun e h' => (e = CancelledError /\ journal (runner_events h') = [] /\ cancelled h' /\
       exists w new, h' = new ++ [SWait ~> w] /\ match w with Returned _ => False | Raised x => catchable x = false | CallerCancelled => True | _ => cancelled new end)
     \/ (e <> CancelledError /\ clock_back st h')).
Proof.
  intros Hi Hc. unfold conclude. apply wp_bind, wp_ask. intros w. split; [done|].
  assert (forall status code message, status <> RUN_SUCCEEDED -> (status, code) = reason w -> (w = CancelRequested \/ w = TimeLimit) ->
    wp (fun _ _ => True) (terminating st status code message) [SWait ~> w] (concluded st)
      (fun e h' => (e = CancelledError /\ journal (runner_events h') = [] /\ cancelled h' /\
        exists w new, h' = new ++ [SWait ~> w] /\ match w with Returned _ => False | Raised x => catchable x = false | CallerCancelled => True | _ => cancelled new end)
        \/ (e <> CancelledError /\ clock_back st h'))) as Hstop.
  { intros status code message Hs Hw Hcase. eapply (wp_mono (fun _ _ => True) (fun _ _ => True)); [done| | |by apply wp_terminating].
    - intros r h' [(new & ->) Ht]. exists w, new. split; [done|]. destruct Hcase as [->| ->]; left; by injection Hw as -> ->.
    - intros e h' [(-> & Hj & new & -> & (c & Hin & Hcc))|[Hne Hb]]; [left|by right]. split_and!; [done..| |].
      + exists c. split; [apply elem_of_app; by left|done].
      + exists w, new. split; [done|]. by destruct Hcase as [->| ->]; exists c. }
  destruct w as [r|e| | |]; cbv iota.
  - apply wp_bind, wp_ask. intros b. split; [done|]. exists (Returned r), [SCancelTask ~> b]. by split.
  - apply wp_bind, wp_ask. intros b. split; [done|]. destruct (catchable e) eqn:He.
    + eapply (wp_mono (fun _ _ => True) (fun _ _ => True)); [done| | |eapply (wp_within (internal_error st) [] _ (fun r h' => reports st RUN_FAILED INTERNAL_ERROR r /\ extends [] h' [])
        (fun e h' => e <> CancelledError /\ clock_stepped_back st h')); by apply wp_report].
      * intros r h' (new & -> & Hr & Hx%extends_journal). rewrite app_nil_r in Hx. exists (Raised e), (new ++ [SCancelTask ~> b]). rewrite <- app_assoc. split; [done|].
        rewrite He. split; [done|]. by rewrite runner_events_app, journal_app, Hx.
      * intros x h' (new & -> & Hne & Hb). right. split; [done|]. rewrite app_nil_r in Hb. by apply clock_back_later.
    + unfold catchable in He. case_bool_decide as Hcan; [|done]. subst e. left. split_and!; [done|done| |].
      * exists (SWait ~> Raised CancelledError). split; [by right; left|done].
      * exists (Raised CancelledError), [SCancelTask ~> b]. by split.
  - by apply Hstop; [..|left].
  - by apply Hstop; [..|right].
  - left. split_and!; [done|done| |].
    + exists (SWait ~> CallerCancelled). split; [by left|done].
    + exists CallerCancelled, []. by split.
Qed.

Lemma concluded_lock st r h b : concluded st r h -> concluded st r ((SLock ~> b) :: h).
Proof.
  intros (w & new & -> & Hw). exists w, ((SLock ~> b) :: new). split; [done|]. destruct w; try exact Hw.
  all: destruct Hw as [Hs|[(c & Hin & Hc) Hs]]; [left; exact Hs|right; split; [exists c; split; [by right|done]|exact Hs]].
Qed.

(** All there is to say about a supervisor *)
Lemma wp_supervise st : 0 <= st_iterations_used st -> 0 <= st_tool_calls_used st ->
  wp (fun _ _ => True) (supervise st) [] (concluded st)
    (fun e h' => clock_back st h' \/ (e = CancelledError /\ (cancelled_again h' \/ lock_cancelled h'))).
Proof.
  intros Hi Hc. unfold supervise. apply wp_finally, wp_on_cancel.
  assert (forall r h, concluded st r h -> wp (fun _ _ => True) (interrupted <-- ask (SLock : await_point) ;; if (interrupted : bool) then Throw CancelledError else Ret tt) h
    (fun _ h' => concluded st r h') (fun e h' => clock_back st h' \/ (e = CancelledError /\ (cancelled_again h' \/ lock_cancelled h')))) as Hret.
  { intros r h Hr. apply wp_bind, wp_ask. intros [|]; (split; [done|]); [right; split; [done|]; right; by left|by apply concluded_lock]. }
  assert (forall e h, clock_back st h \/ (e = CancelledError /\ cancelled_again h) ->
    wp (fun _ _ => True) (interrupted <-- ask (SLock : await_point) ;; if (interrupted : bool) then Throw CancelledError else Ret tt) h
    (fun _ h' => clock_back st h' \/ (e = CancelledError /\ (cancelled_again h' \/ lock_cancelled h')))
    (fun e h' => clock_back st h' \/ (e = CancelledError /\ (cancelled_again h' \/ lock_cancelled h')))) as Hraise.
  { intros e h He. apply wp_bind, wp_ask. intros [|]; (split; [done|]); [right; split; [done|]; right; by left|].
    destruct He as [Hb|[-> (h2 & h1 & -> & H1 & (c & Hin & Hcc))]]; [left; exact Hb|right; split; [done|]; left].
    exists ((SLock ~> false) :: h2), h1. split_and!; [done..|]. exists c. split; [by right|done]. }
  eapply (wp_mono (fun _ _ => True) (fun _ _ => True)); [done|exact Hret| |by apply wp_conclude].
  intros e h [(-> & Hj & Hcan & w & new & Hh & Hw)|[Hne Hb]].
  - rewrite decide_True by done. eapply (wp_mono (fun _ _ => True) (fun _ _ => True)); [done| | |by apply wp_terminating].
    + intros r h' [(new' & ->) Hs]. apply Hret. exists w, (new' ++ new). rewrite Hh, <- app_assoc in *. split; [done|].
      destruct w as [|x| | |]; [done|by rewrite Hw|by left| |by left]. right. split; [|done]. destruct Hw as (c & Hin & Hcc). exists c. split; [apply elem_of_app; by right|done].
    + intros e h' [(-> & _ & new' & -> & Hcan')|[_ Hb]]; apply Hraise; [right|by left]. split; [done|]. by exists new', h.
  - rewrite decide_False by done. apply Hraise. by left.
Qed.
End Conclude.

(** ** Supervised runs *)
Section Supervised.
Context {Handler : Type} `{Hashing} `{Dumping} (self : ExecutionRunner) (request : RunRequest)
        (has_prompt has_reflection : bool) (st : RunState).
Abbreviation hist := (list (event (@answer Handler))).
Abbreviation shist := (list (event (@reply Handler))).

(** A run after registration: the trace of the loop up to where it ended or was cancelled, and that of its supervisor,
    who reads the state the loop has left *)
Inductive supervised (t : hist) (s : shist) (o : outcome RunResult) : Prop :=
| sv_run ol :
    run_to (run_loop self request has_prompt has_reflection st) t ol ->
    run_to (supervise request (last_state st t)) s o ->
    (forall w, (SWait ~> w : event reply) ∈ s -> wakes w ol) ->
    supervised t s o.

Lemma last_state_counted t :
  bounded_trace self request (st_started_at st) t -> counted (Handler := Handler) request (st_started_at st) st [] ->
  counted (Handler := Handler) request (st_started_at st) (last_state st t) (reverse t).
Proof.
  intros Hb Hst. induction t as [|e t IH] using rev_ind; [done|].
  apply bounded_trace_snoc in Hb as [Hb He]. unfold last_state. rewrite foldl_app, reverse_snoc. simpl.
  destruct e as [q a]. specialize (IH Hb). simpl.
  destruct q; by apply (counted_ext _ _ _ [_]).
Qed.

Lemma initial_counted : valid_run request -> initial st -> counted (Handler := Handler) request (st_started_at st) st [].
Proof.
  intros Hv (I1 & I2 & _). destruct (valid_run_budget request Hv).
  constructor; [done|unfold iters in *; lia|lia|intros; unfold limit in *; lia].
Qed.

(** A supervised run, taken apart: what the loop did and what its supervisor made of it *)
Lemma supervised_sound t s o :
  valid_run request -> initial st -> supervised t s o ->
  counted (Handler := Handler) request (st_started_at st) (last_state st t) (reverse t) /\
  (forall r, (SWait ~> Returned r : event reply) ∈ s -> final_ok request r (reverse t)) /\
  match o with
  | Done r => concluded request (last_state st t) r (reverse s)
  | Thrown e => clock_back (last_state st t) (reverse s) \/ (e = CancelledError /\ (cancelled_again (reverse s) \/ lock_cancelled (reverse s)))
  | Cut => True
  end.
Proof.
  intros Hv Hi [ol Hl Hs Hw]. destruct (run_loop_sound _ _ _ _ _ _ _ Hv Hi Hl) as [Htr Hend].
  pose proof (last_state_counted t Htr (initial_counted Hv Hi)) as Hcnt. split; [done|]. split.
  - intros r Hr. specialize (Hw _ Hr). simpl in Hw. by subst ol.
  - destruct Hcnt as [_ N2 N3 _]. destruct (wp_sound _ _ _ _ _ _ _ (wp_supervise request (last_state st t) ltac:(lia) N3) Hs) as [_ He].
    rewrite app_nil_r in He. by destruct o.
Qed.
End Supervised.

(** ** Properties of supervised runs *)

(** The result of a supervised run is the loop's, or reports a failure with the counters of the state. *)
Lemma concluded_result {Handler : Type} request st r (h : list (event (@reply Handler))) : concluded request st r h ->
  (SWait ~> Returned r : event reply) ∈ h \/
  rr_run_id r = rq_run_id request /\ rr_status r <> RUN_SUCCEEDED /\ rr_failure r <> None /\
  rr_iterations_used r = st_iterations_used st /\ rr_tool_calls_used r = st_tool_calls_used st.
Proof.
  assert (Hrep : forall status code, status <> RUN_SUCCEEDED -> reports request st status code r ->
    rr_run_id r = rq_run_id request /\ rr_status r <> RUN_SUCCEEDED /\ rr_failure r <> None /\
    rr_iterations_used r = st_iterations_used st /\ rr_tool_calls_used r = st_tool_calls_used st).
  { intros status code Hs (H1 & H2 & (f & H3 & _) & _ & H4 & H5). split_and!; congruence. }
  assert (Hstop : forall status code, status <> RUN_SUCCEEDED -> stopped request st status code r h ->
    rr_run_id r = rq_run_id request /\ rr_status r <> RUN_SUCCEEDED /\ rr_failure r <> None /\
    rr_iterations_used r = st_iterations_used st /\ rr_tool_calls_used r = st_tool_calls_used st).
  { intros status code Hs [[Hx _]|[Hx _]]; (eapply Hrep; [|exact Hx]; done). }
  intros (w & new & -> & Hw). destruct w as [r'|e| | |].
  - left. subst r'. apply elem_of_app. right. by left.
  - right. destruct (catchable e); [eapply Hrep; [|apply Hw]; done|eapply Hstop; [|exact Hw]; done].
  - right. destruct Hw as [Hw|[_ Hw]]; (eapply Hstop; [|exact Hw]; done).
  - right. destruct Hw as [Hw|[_ Hw]]; (eapply Hstop; [|exact Hw]; done).
  - right. destruct Hw as [Hw|[_ Hw]]; (eapply Hstop; [|exact Hw]; done).
Qed.

(** Structured termination.  However a run ends, by its own loop, by an
    internal exception, by a cancellation or a timeout that stops the loop at an
    arbitrary await, and even when the conclusion is itself interrupted, the
    result it returns is for this run, reports success exactly when it carries no
    failure, and its counters are within the requested budget. *)
Theorem every_result_is_within_budget {Handler B : Type} `{Hashing} `{Dumping} `{Quota B}
    self request hp hr st (t : list (event (@answer Handler))) s r (b : B) :
  valid_run request -> initial st -> q_ok b -> answered_by b t ->
  supervised self request hp hr st t s (Done r) ->
  rr_run_id r = rq_run_id request /\ (rr_status r = RUN_SUCCEEDED <-> rr_failure r = None) /\
  rr_iterations_used r <= eb_max_iterations (rq_budget request) /\
  rr_tool_calls_used r <= eb_max_tool_calls (rq_budget request).
Proof.
  intros Hv Hi Hq Hb Hs. pose proof (answered_honest b t Hq Hb) as Hh. apply Forall_reverse in Hh.
  destruct (supervised_sound self request hp hr st t s _ Hv Hi Hs) as (Hcnt & Hret & Hc). destruct Hcnt as [_ N2 _ N4].
  destruct (concluded_result _ _ _ _ Hc) as [Hw|(R1 & R2 & R3 & R4 & R5)].
  - rewrite elem_of_reverse in Hw. destruct (Hret r Hw) as [F1 F2 F3 F4 _]. split_and!; [done..|by apply F4].
  - rewrite R4, R5. split_and!; [done| |unfold iters in N2; lia|by apply N4]. by split.
Qed.

Definition wake_of {Handler : Type} (e : event (@reply Handler)) : option wake := match e with existT SWait w => Some w | _ => None end.

(** A run that is cancelled or runs out of time says so: its result carries
    the status and code of what stopped it - of a cancellation, if one came while
    its time-out was being answered - and the observations made until then,
    and its end is recorded in the journal; if the journal refuses that record,
    the result reports an internal error instead. *)
Theorem stopped_run_reports_why {Handler : Type} `{Hashing} `{Dumping}
    self request hp hr st (t : list (event (@answer Handler))) s w r :
  valid_run request -> initial st ->
  (w = CancelRequested \/ w = CallerCancelled \/ w = TimeLimit) ->
  supervised self request hp hr st t ((SWait ~> w) :: s) (Done r) ->
  rr_observations r = st_observations (last_state st t) /\
  ((exists status code, rr_status r = status /\ rf_code <$> rr_failure r = Some code /\ journal (runner_events s) = [RUN_FINISHED] /\
      ((status, code) = reason w \/ (status, code) = (RUN_CANCELLED, CODE_CANCELLED) /\ cancelled s))
   \/ rr_status r = RUN_FAILED /\ rf_code <$> rr_failure r = Some INTERNAL_ERROR /\ journal (runner_events s) = []).
Proof.
  intros Hv Hi Hw Hs. destruct (supervised_sound self request hp hr st t _ _ Hv Hi Hs) as (_ & _ & w' & new & Heq & Hc).
  rewrite reverse_cons in Heq. apply app_inj_tail in Heq as [Hnew Hww]. apply (f_equal wake_of) in Hww. injection Hww as <-.
  assert (forall js, journal (runner_events (reverse ((SWait ~> w) :: s))) = js -> (length js <= 1)%nat -> journal (runner_events s) = js) as Hj.
  { intros js Hj Hlen. rewrite reverse_cons, runner_events_app, journal_app in Hj. simpl in Hj. rewrite app_nil_r in Hj.
    assert (runner_events (reverse s) = reverse (runner_events s)) as Hrev.
    { clear. induction s as [|e s IH]; [done|]. rewrite reverse_cons, runner_events_app, IH. unfold runner_events. simpl. destruct (runner_event e); simpl; [by rewrite reverse_cons|by rewrite app_nil_r]. }
    rewrite Hrev, journal_reverse in Hj. apply (f_equal reverse) in Hj. rewrite reverse_involutive in Hj. rewrite Hj. destruct js as [|x [|]]; [done..|simpl in Hlen; lia]. }
  assert (exists status code, stopped request (last_state st t) status code r (reverse ((SWait ~> w) :: s)) /\
    ((status, code) = reason w \/ (status, code) = (RUN_CANCELLED, CODE_CANCELLED) /\ cancelled s)) as (status & code & Hst & Hwhy).
  { assert (cancelled new -> cancelled s) as Hcan by (intros (c & Hin & Hcc); exists c; split; [rewrite <- Hnew in Hin; by apply elem_of_reverse|done]).
    destruct Hw as [->|[->| ->]]; (destruct Hc as [Hc|[Hn Hc]]; [by exists (reason w).1, (reason w).2 || (do 2 eexists; split; [exact Hc|by left])|do 2 eexists; split; [exact Hc|right; split; [done|by apply Hcan]]]). }
  destruct Hst as [[(_ & R2 & (f & R3 & R4) & R5 & _) Hx]|[(_ & R2 & (f & R3 & R4) & R5 & _) Hx]]; (split; [done|]); apply Hj in Hx; try (simpl; lia).
  - left. exists status, code. rewrite R3. simpl. by rewrite R4.
  - right. rewrite R3. simpl. by rewrite R4.
Qed.

(** C37. Errors do not escape the supervisor, and neither does one cancellation.  When [_run] raises, then either the wall clock read a
    time before the start of the run, which the result model rejects; or a [CancelledError]
    is raised, and cancellations were raised into its [try] statement twice, one after the other - the first,
    be it the caller's, the loop's own or the journal's, is always answered by a conclusion, and only a second one, that
    interrupts this conclusion, escapes -, or the one that escapes hit the [finally] block while it waited
    for the lock. *)
Theorem supervisor_raises_only_on_clock_or_cancel {Handler : Type} `{Hashing} `{Dumping}
    self request hp hr st (t : list (event (@answer Handler))) s e :
  valid_run request -> initial st -> supervised self request hp hr st t s (Thrown e) ->
  (exists now, (SRunner QNow ~> now : event reply) ∈ s /\ now < st_started_at st) \/
  e = CancelledError /\ ((exists s1 s2, s = s1 ++ s2 /\ cancelled s1 /\ cancelled s2) \/ (SLock ~> true : event reply) ∈ s).
Proof.
  intros Hv Hi Hs. destruct (supervised_sound self request hp hr st t s _ Hv Hi Hs) as (Hcnt & _ & [(now & Hin & Hlt)|(-> & Hc)]).
  - left. exists now. rewrite (cn_started _ _ _ _ Hcnt) in Hlt. split; [|done]. apply runner_events_elem in Hin. by apply elem_of_reverse.
  - right. split; [done|]. destruct Hc as [(h2 & h1 & Heq & (c1 & Hin1 & Hc1) & (c2 & Hin2 & Hc2))|Hl]; [left|right; by apply elem_of_reverse].
    exists (reverse h1), (reverse h2). split; [by rewrite <- reverse_app, <- Heq, reverse_involutive|].
    split; [exists c1|exists c2]; (split; [by apply elem_of_reverse|done]).
Qed.

(** ** The example run, stopped by its time limit while a tool batch is running,
    and concluded at time 70 *)
#[local] Instance demo_hash : Hashing := fun _ => zeros.
#[local] Instance demo_dumping : Dumping :=
  {| dump_resume _ := JNull; dump_conversation _ := JNull; runtime_environment _ := "clock" |}.

Definition demo_cut : list (event (@answer unit)) := take 20 demo_outcome.1.1.
Definition demo_left : RunState := last_state demo_state demo_cut.

(** What a supervisor is answered that wakes for [w]; [lock] says whether it is cancelled at the lock. *)
Definition demo_replies (w : wake) (lock : bool) (q : @await_point unit) (now : Z) : reply q * Z :=
  match q with
  | SRunner q => demo_env q now
  | SWait => (w, now)
  | SCancelTask | SLoop => (false, now)
  | SLock => (lock, now)
  end.
Definition demo_conclusion (w : wake) (lock : bool) (now : Z) := interp (demo_replies w lock) (supervise demo_run demo_left) now.
Definition demo_stopped (status : RunStatus) (code : FailureCode) (message : string) : RunResult :=
  MkRunResult "run-1" status JNull (Some (failure code message None None None)) [demo_observation] 1 1 10 70.
Definition demo_timed_out : RunResult := demo_stopped RUN_TIMED_OUT CODE_TIMED_OUT "run exceeded its time budget".

Lemma demo_wakes {A : Type} w lock (p : prog (@reply unit) A) now w' :
  (SWait ~> w' : event (@reply unit)) ∈ (interp (demo_replies w lock) p now).1.1 -> w' = w.
Proof.
  revert now. induction p as [a|e|q k IH]; intros now; simpl; [by intros ?%not_elem_of_nil..|].
  destruct (demo_replies w lock q now) as [a now1] eqn:Hq. specialize (IH a now1). destruct (interp _ (k a) now1) as [[t o] s]. simpl in IH |- *.
  intros [Heq|Hin]%elem_of_cons; [|by apply IH]. destruct q; try (apply (f_equal wake_of) in Heq; simpl in Heq; discriminate Heq).
  apply (f_equal wake_of) in Heq. simpl in Heq, Hq. injection Heq as ->. by injection Hq as ->.
Qed.

Lemma demo_supervised w lock now o : wakes w Cut -> (demo_conclusion w lock now).1.2 = o ->
  supervised demo_runner demo_run false false demo_state demo_cut (demo_conclusion w lock now).1.1 o.
Proof.
  intros Hw <-. apply sv_run with Cut.
  - apply (run_to_take demo_loop demo_outcome.1.1 demo_outcome.1.2), interp_run_to.
  - apply interp_run_to.
  - by intros w' ->%demo_wakes.
Qed.

Lemma every_result_is_within_budget_witness : rr_tool_calls_used demo_timed_out <= 8.
Proof.
  apply (every_result_is_within_budget demo_runner demo_run false false demo_state demo_cut
    (demo_conclusion TimeLimit false 70).1.1 demo_timed_out demo_budget).
  - apply demo_valid.
  - apply demo_initial.
  - apply demo_budget_ok.
  - apply answered_take, (demo_world_answered demo_loop (20, demo_budget)).
  - apply demo_supervised; [exact I|vm_compute; reflexivity].
Defined.

(** A single cancellation is answered. *)
Example one_cancellation_is_answered :
  (demo_conclusion CallerCancelled false 70).1.2 = Done (demo_stopped RUN_CANCELLED CODE_CANCELLED "caller cancelled the run").
Proof. vm_compute. reflexivity. Qed.

(** One that hits the [finally] block is not, whatever the loop had to say. *)
Example the_lock_can_be_cancelled : (demo_conclusion CancelRequested true 70).1.2 = Thrown CancelledError.
Proof. vm_compute. reflexivity. Qed.

(** A clock that has stepped back makes the result model raise. *)
Lemma supervisor_raises_only_on_clock_or_cancel_witness :
  (demo_conclusion TimeLimit false 5).1.2 = Thrown ValueError /\
  ((exists now, (SRunner QNow ~> now : event (@reply unit)) ∈ (demo_conclusion TimeLimit false 5).1.1 /\ now < 10) \/
   ValueError = CancelledError /\ ((exists s1 s2, (demo_conclusion TimeLimit false 5).1.1 = s1 ++ s2 /\ cancelled s1 /\ cancelled s2) \/
     (SLock ~> true : event (@reply unit)) ∈ (demo_conclusion TimeLimit false 5).1.1)).
Proof.
  split; [vm_compute; reflexivity|].
  apply (supervisor_raises_only_on_clock_or_cancel demo_runner demo_run false false demo_state demo_cut (demo_conclusion TimeLimit false 5).1.1 ValueError).
  - apply demo_valid.
  - apply demo_initial.
  - apply demo_supervised; [exact I|vm_compute; reflexivity].
Defined.
End Supervisor.
