(* ===== verification/ActiveRuns.v ===== *)
(** * The table of active runs ([execution/runner.py], [_run] and [cancel])

    The table maps a key to the [_ActiveRun] object that the run itself holds
    too, so an entry is the index of a run.  Each critical section under
    [__active_lock] is one action of the system. *)
From S2P Require Import Prelude Scopes RunnerPolicy.
Open Scope string_scope.

Module ActiveRuns.

(** The type of [run_key] *)
Abbreviation Key := (ScopePath * string * string)%type.

(** Where a call of [_run] stands *)
Inductive phase : Type := Arriving | Live | Refused | Over.
#[global] Instance phase_eq_dec : EqDecision phase.
Proof. solve_decision. Defined.

(** A call of [_run]; [ar_cancel] is its [asyncio.Event]. *)
Record ActiveRun : Type := MkActiveRun {
  ar_key : Key;
  ar_phase : phase;
  ar_cancel : bool;
}.

Record Runner : Type := MkRunner {
  active : gmap Key nat;
  runs : list ActiveRun;
}.

Definition idle : Runner := MkRunner ∅ [].

Definition with_phase (p : phase) (r : ActiveRun) : ActiveRun := MkActiveRun (ar_key r) p (ar_cancel r).
Definition cancelled (r : ActiveRun) : ActiveRun := MkActiveRun (ar_key r) (ar_phase r) true.

(** [_run] is called: the event object is created. *)
Definition arrive (s : Runner) (k : Key) : Runner :=
  MkRunner (active s) (runs s ++ [MkActiveRun k Arriving false]).

(** The first critical section: conflict, or registration *)
Definition enter (s : Runner) (i : nat) (r : ActiveRun) : Runner :=
  match active s !! ar_key r with
  | Some _ => MkRunner (active s) (<[ i := with_phase Refused r ]> (runs s))
  | None => MkRunner (<[ ar_key r := i ]> (active s)) (<[ i := with_phase Live r ]> (runs s))
  end.

(** [cancel] *)
Definition cancel (s : Runner) (k : Key) : bool * Runner :=
  match active s !! k with
  | None => (false, s)
  | Some i => (true, MkRunner (active s) (alter cancelled i (runs s)))
  end.

(** The [finally] block, which only a registered run reaches *)
Definition leave (s : Runner) (i : nat) (r : ActiveRun) : Runner :=
  MkRunner (delete (ar_key r) (active s)) (<[ i := with_phase Over r ]> (runs s)).

(** Interleaved calls of [_run] and [cancel] *)
Inductive step : Runner -> Runner -> Prop :=
| st_arrive s k : step s (arrive s k)
| st_enter s i r : runs s !! i = Some r -> ar_phase r = Arriving -> step s (enter s i r)
| st_cancel s k : step s (cancel s k).2
| st_caller s i r : runs s !! i = Some r -> ar_phase r = Live ->
    step s (MkRunner (active s) (alter cancelled i (runs s)))
| st_leave s i r : runs s !! i = Some r -> ar_phase r = Live -> step s (leave s i r).

Inductive reachable : Runner -> Prop :=
| rc_idle : reachable idle
| rc_step s s' : reachable s -> step s s' -> reachable s'.

(** The table holds exactly the live runs. *)
Definition inv (s : Runner) : Prop :=
  forall k i, active s !! k = Some i <-> exists r, runs s !! i = Some r /\ ar_key r = k /\ ar_phase r = Live.

Lemma inv_alter s i : inv s -> inv (MkRunner (active s) (alter cancelled i (runs s))).
Proof.
  intros Hinv k j. rewrite (Hinv k j). simpl. destruct (decide (i = j)) as [<-|Hne].
  - rewrite list_lookup_alter_eq. destruct (runs s !! i) as [r|]; simpl.
    + split; intros (r' & [= <-] & Hk & Hp); [by exists (cancelled r)|by exists r].
    + split; by intros (r' & ? & _).
  - by rewrite list_lookup_alter_ne.
Qed.

Lemma inv_insert (s : Runner) (i : nat) (r : ActiveRun) (p : phase) (m : gmap Key nat) :
  inv s -> runs s !! i = Some r ->
  (forall (k : Key) (j : nat), m !! k = Some j <-> if decide (j = i) then ar_key r = k /\ p = Live else active s !! k = Some j) ->
  inv (MkRunner m (<[ i := with_phase p r ]> (runs s))).
Proof.
  intros Hinv Hr Hm k j. simpl. rewrite Hm. destruct (decide (j = i)) as [->|Hne].
  - rewrite list_lookup_insert_eq by (by eapply lookup_lt_Some). split.
    + intros [Hk Hp]. by eexists.
    + by intros (r' & [= <-] & Hk & Hp).
  - rewrite list_lookup_insert_ne by done. apply Hinv.
Qed.

Lemma inv_step s s' : inv s -> step s s' -> inv s'.
Proof.
  intros Hinv Hs. destruct Hs as [s k|s i r Hr Hp|s k|s i r Hr Hp|s i r Hr Hp].
  - intros k' j. simpl. rewrite (Hinv k' j). split.
    + intros (r & Hr & Hk & Hp). exists r. split; [by apply lookup_app_l_Some|done].
    + intros (r & [Hr|[_ Hr]]%lookup_app_Some & Hk & Hp); [by exists r|].
      apply list_lookup_singleton_Some in Hr as [_ <-]. done.
  - unfold enter. destruct (active s !! ar_key r) as [i'|] eqn:Ha; apply inv_insert; try done; intros k j.
    + destruct (decide (j = i)) as [->|Hne]; [|done]. split; [|by intros [_ [=]]].
      intros (r' & Hr' & _ & Hl)%Hinv. congruence.
    + destruct (decide (j = i)) as [->|Hne].
      * rewrite lookup_insert_Some. split; [|naive_solver]. intros [[Hk _]|[_ Hact]]; [done|].
        apply Hinv in Hact as (r' & Hr' & _ & Hl). congruence.
      * rewrite lookup_insert_Some. split; [naive_solver|]. intros Hact. right. split; [|done].
        intros <-. congruence.
  - unfold cancel. destruct (active s !! k); [by apply inv_alter|done].
  - by apply inv_alter.
  - unfold leave. apply inv_insert; [done..|]. intros k j. rewrite lookup_delete_Some.
    assert (Ha : active s !! ar_key r = Some i) by (apply Hinv; eauto).
    destruct (decide (j = i)) as [->|Hne].
    + split; [|by intros [_ [=]]]. intros [Hk Hact]. apply Hinv in Hact as (r' & Hr' & Hk' & _). congruence.
    + split; [by intros []|]. intros Hact. split; [|done]. intros <-. congruence.
Qed.

Lemma active_reachable_inv s : reachable s -> inv s.
Proof.
  induction 1 as [|s s' _ IH Hs]; [|by eapply inv_step].
  intros k i. simpl. rewrite lookup_empty. split; [done|]. by intros (r & [=] & _).
Qed.

(** ** Properties *)

(** Run identifiers are exclusive while a run lives: under every
    interleaving of calls, the table holds exactly the live runs, and no two
    live runs share scope path, principal and run id. *)
Theorem live_runs_are_exclusive s :
  reachable s ->
  (forall k, is_Some (active s !! k) <-> exists r, r ∈ runs s /\ ar_key r = k /\ ar_phase r = Live) /\
  (forall i j r r', runs s !! i = Some r -> runs s !! j = Some r' -> ar_phase r = Live -> ar_phase r' = Live ->
     ar_key r = ar_key r' -> i = j).
Proof.
  intros Hs%active_reachable_inv. split.
  - intros k. split.
    + intros [i (r & Hr & Hk & Hp)%Hs]. exists r. split; [by eapply list_elem_of_lookup_2|done].
    + intros (r & [i Hi]%list_elem_of_lookup & Hk & Hp). exists i. apply Hs. eauto.
  - intros i j r r' Hi Hj Hp Hp' Hk.
    assert (active s !! ar_key r = Some i) by (apply Hs; eauto).
    assert (active s !! ar_key r = Some j) by (apply Hs; eauto). congruence.
Qed.

(** Cancellation reaches its own run and nobody else's: [cancel] answers
    [True] exactly if the caller's scope path and principal own a live run with
    that id, and then sets the event of that run and changes no other run and
    no other part of the table. *)
Theorem cancel_is_confined_to_the_owner s scope run_id b s' :
  reachable s -> cancel s (run_key scope run_id) = (b, s') ->
  active s' = active s /\
  (b = true <-> exists r, r ∈ runs s /\ ar_phase r = Live /\ ar_key r = (rs_path scope, rs_principal_id scope, run_id)) /\
  forall i r, runs s !! i = Some r ->
    runs s' !! i = Some (if bool_decide (ar_phase r = Live /\ ar_key r = run_key scope run_id) then cancelled r else r).
Proof.
  intros Hs%active_reachable_inv Hc. unfold cancel in Hc. destruct (active s !! run_key scope run_id) as [i|] eqn:Ha; simplify_eq.
  - pose proof Ha as (r & Hr & Hk & Hp)%Hs. split_and!; [done| |].
    + split; [|done]. intros _. exists r. split_and!; [by eapply list_elem_of_lookup_2|done|exact Hk].
    + intros j r' Hr'. simpl. destruct (decide (i = j)) as [<-|Hne].
      * rewrite list_lookup_alter_eq, Hr'. simplify_eq. simpl. by rewrite bool_decide_true.
      * rewrite list_lookup_alter_ne, Hr' by done. rewrite bool_decide_false; [done|]. intros [Hp' Hk'].
        assert (active s !! run_key scope run_id = Some j) by (apply Hs; eauto). congruence.
  - split_and!; [done| |].
    + split; [done|]. intros (r & [i Hi]%list_elem_of_lookup & Hp & Hk).
      assert (active s' !! run_key scope run_id = Some i) by (apply Hs; eauto). congruence.
    + intros i r Hr. rewrite bool_decide_false; [done|]. intros [Hp Hk].
      assert (active s' !! run_key scope run_id = Some i) by (apply Hs; eauto). congruence.
Qed.

(** ** Two runs with the same id, of two principals; a third is refused. *)
Definition demo_scope (principal : string) : RequestScope :=
  MkRequestScope (MkScopePath PRODUCT (Some "acme") (Some "shop") None None) principal "cli" ∅ "chat" "req" "corr" None.
Definition demo_key (principal : string) : Key := run_key (demo_scope principal) "run-1".

Definition demo_runner : Runner :=
  let s := arrive (arrive (arrive idle (demo_key "ann")) (demo_key "bob")) (demo_key "ann") in
  let s := enter s 0 (MkActiveRun (demo_key "ann") Arriving false) in
  let s := enter s 1 (MkActiveRun (demo_key "bob") Arriving false) in
  enter s 2 (MkActiveRun (demo_key "ann") Arriving false).

Lemma demo_runner_reachable : reachable demo_runner.
Proof.
  unfold demo_runner. do 3 (eapply rc_step; [|apply st_enter; [vm_compute; reflexivity|reflexivity]]).
  do 3 (eapply rc_step; [|apply st_arrive]). constructor.
Qed.

Lemma live_runs_are_exclusive_witness :
  ar_phase <$> runs demo_runner = [Live; Live; Refused] /\
  forall i j r r', runs demo_runner !! i = Some r -> runs demo_runner !! j = Some r' ->
    ar_phase r = Live -> ar_phase r' = Live -> ar_key r = ar_key r' -> i = j.
Proof.
  split; [vm_compute; reflexivity|]. exact (proj2 (live_runs_are_exclusive demo_runner demo_runner_reachable)).
Defined.

Lemma cancel_is_confined_to_the_owner_witness :
  ar_cancel <$> runs (cancel demo_runner (demo_key "bob")).2 = [false; true; false] /\
  active (cancel demo_runner (demo_key "bob")).2 = active demo_runner.
Proof.
  split; [vm_compute; reflexivity|].
  apply (cancel_is_confined_to_the_owner demo_runner (demo_scope "bob") "run-1" (cancel demo_runner (demo_key "bob")).1).
  - apply demo_runner_reachable.
  - apply surjective_pairing.
Defined.
End ActiveRuns.
