(* ===== verification/Stream.v ===== *)
(** * The event stream of a run ([execution/runner.py], [stream] and [run];
    [execution/events.py])

    The producer task publishes numbered events into a queue and ends it with
    [None]; the consumer yields them in order.  A publish that is refused
    raises in the code that called it, which is free to go on. *)
From S2P Require Import Prelude PyText Json ExecModels RunnerPolicy.
Open Scope string_scope.
Open Scope Z_scope.

Module Stream.

Definition event_kinds : list string :=
  ["started"; "delta"; "status"; "usage"; "compact_started"; "compact_completed"; "tool_started";
   "tool_completed"; "completed"; "failed"; "cancelled"; "checkpoint"].

Record RunEvent : Type := MkRunEvent {
  ev_run_id : string;
  ev_sequence : Z;
  ev_kind : string;
  ev_text : string;
  ev_data : list (string * json);
  ev_result : option RunResult;
}.

(** The [RunEvent] model *)
Definition run_event (e : RunEvent) : res RunEvent :=
  require 1 <=? ev_sequence e else ValueError ;;
  require bool_decide (ev_kind e ∈ event_kinds) else ValueError ;;
  Ok e.

(** The variables the [publish] closure shares with the stream; [pb_stopped]
    says that the stream is closed or the producer is being cancelled. *)
Record Publisher : Type := MkPublisher {
  pb_sequence : Z;
  pb_text_bytes : Z;
  pb_stopped : bool;
}.

(** What is published *)
Record message : Type := MkMessage {
  ms_kind : string;
  ms_text : string;
  ms_data : list (string * json);
  ms_result : option RunResult;
}.

(** What the producer puts into the queue *)
Inductive item : Type := Event (e : RunEvent) | Failure (e : exn) | End.

Section Stream.
Context (policy : ExecutionPolicy) (run_id : string).

(** [publish] *)
Definition publish (s : Publisher) (m : message) : res RunEvent * Publisher :=
  if pb_stopped s then (Raise CancelledError, s) else
  let text_bytes := if bool_decide (ms_kind m = "delta") then pb_text_bytes s + byte_len (ms_text m) else pb_text_bytes s in
  let s1 := MkPublisher (pb_sequence s) text_bytes (pb_stopped s) in
  if bool_decide (ms_kind m = "delta") && (ep_max_final_output_bytes policy <? text_bytes) then (Raise ValueError, s1)
  else
    match canonical_json (JObj (ms_data m)) with
    | Raise e => (Raise e, s1)
    | Ok data =>
        if ep_max_tool_result_bytes policy <? byte_len data then (Raise ValueError, s1)
        else
          let sequence := pb_sequence s + 1 in
          (run_event (MkRunEvent run_id sequence (ms_kind m) (ms_text m) (ms_data m) (ms_result m)),
           MkPublisher sequence text_bytes (pb_stopped s))
    end.

#[local] Arguments publish : simpl never.

(** The publishes of the run, in order; the refused ones raise in their callers. *)
Fixpoint publish_all (s : Publisher) (ms : list message) : list RunEvent * Publisher :=
  match ms with
  | [] => ([], s)
  | m :: ms =>
      let '(r, s1) := publish s m in
      let '(es, s2) := publish_all s1 ms in
      (match r with Ok e => e :: es | Raise _ => es end, s2)
  end.

Definition final_kind (r : RunResult) : string :=
  match rr_status r with RUN_SUCCEEDED => "completed" | RUN_CANCELLED => "cancelled" | _ => "failed" end.

(** [except asyncio.CancelledError: raise], [except Exception], [finally] *)
Definition close_with (r : res RunEvent) : list item :=
  match r with
  | Ok e => [Event e; End]
  | Raise e => if bool_decide (e = CancelledError) then [End] else [Failure e; End]
  end.

(** [produce], for a stream that is read to its end: [ms] are the messages of
    the run, [r] what [_run] returned.  A consumer that leaves early cancels the
    producer, which then puts nothing more into the queue. *)
Definition produce (ms : list message) (r : res RunResult) : list item :=
  let '(started, s) := publish (MkPublisher 0 0 false) (MkMessage "started" "" [] None) in
  match started with
  | Raise _ => close_with started
  | Ok e =>
      let '(es, s) := publish_all s ms in
      Event e :: (Event <$> es) ++
        close_with (match r with
                    | Ok r => (publish s (MkMessage (final_kind r) "" [] (Some r))).1
                    | Raise e => Raise e
                    end)
  end.

(** The consumer's [while True] loop: the events yielded and how it ends *)
Fixpoint consume (q : list item) : list RunEvent * res unit :=
  match q with
  | [] => ([], Ok tt)
  | Event e :: q => let '(es, r) := consume q in (e :: es, r)
  | Failure e :: _ => ([], Raise e)
  | End :: _ => ([], Ok tt)
  end.

(** [run]: the result of the last event that has one *)
Definition last_result (es : list RunEvent) : option RunResult :=
  foldl (fun acc e => match ev_result e with Some r => Some r | None => acc end) None es.

Definition run (q : list item) : res RunResult :=
  let '(es, r) := consume q in
  let! _ := r in
  match last_result es with Some r => Ok r | None => Raise RuntimeError end.

(** ** Publishing *)

(** A message the runner sends: a known kind, and no result *)
Definition known (m : message) : Prop := ms_kind m ∈ event_kinds /\ ms_result m = None.

(** The numbers of the events between two states of the publisher *)
Definition numbered (from : Z) (es : list RunEvent) : Prop :=
  forall i e, es !! i = Some e -> ev_sequence e = from + 1 + Z.of_nat i.

Definition delta_bytes (es : list RunEvent) : Z :=
  foldr (fun e n => (if bool_decide (ev_kind e = "delta") then byte_len (ev_text e) else 0) + n) 0 es.

Lemma publish_Ok s m e s' : publish s m = (Ok e, s') ->
  e = MkRunEvent run_id (pb_sequence s + 1) (ms_kind m) (ms_text m) (ms_data m) (ms_result m) /\
  pb_sequence s' = pb_sequence s + 1 /\ pb_stopped s' = pb_stopped s /\
  pb_text_bytes s' = pb_text_bytes s + delta_bytes [e] /\
  (ms_kind m = "delta" -> pb_text_bytes s' <= ep_max_final_output_bytes policy).
Proof.
  unfold publish. destruct (pb_stopped s) eqn:Hst; [done|]. destruct (_ && _) eqn:Hd; [done|]. destruct (canonical_json _) as [data|]; [|done].
  destruct (_ <? byte_len data); [done|]. intros [= Hev <-].
  assert (Hlim : ms_kind m = "delta" ->
    (if bool_decide (ms_kind m = "delta") then pb_text_bytes s + byte_len (ms_text m) else pb_text_bytes s)
      <= ep_max_final_output_bytes policy).
  { intros Hk. rewrite bool_decide_true in Hd |- * by done. simpl in Hd. by apply Z.ltb_ge in Hd. }
  clear Hd. unfold run_event in Hev. py_simpl. split_and!; [done|done|done| |done].
  unfold delta_bytes. simpl. case_bool_decide; lia.
Qed.

(** A refused known message leaves the sequence alone. *)
Lemma publish_Raise s m e s' : 0 <= pb_sequence s -> ms_kind m ∈ event_kinds -> publish s m = (Raise e, s') ->
  pb_sequence s' = pb_sequence s /\ pb_stopped s' = pb_stopped s /\ pb_text_bytes s <= pb_text_bytes s'.
Proof.
  intros Hs Hk. assert (Hb : 0 <= byte_len (ms_text m)) by (unfold byte_len; lia).
  unfold publish. destruct (pb_stopped s) eqn:Hst; [intros [= _ <-]; split_and!; done || lia|]. destruct (_ && _) eqn:Hd; [intros [= _ <-]; simpl; case_bool_decide; split_and!; done || lia|].
  destruct (canonical_json _) as [data|]; [|intros [= _ <-]; simpl; case_bool_decide; split_and!; done || lia].
  destruct (_ <? byte_len data); intros [= Hev <-]; [simpl; case_bool_decide; split_and!; done || lia|].
  exfalso. unfold run_event in Hev. simpl in Hev. rewrite bool_decide_true in Hev by done.
  by rewrite (proj2 (Z.leb_le 1 (pb_sequence s + 1))) in Hev by lia.
Qed.

Lemma delta_bytes_app es es' : delta_bytes (es ++ es') = delta_bytes es + delta_bytes es'.
Proof. induction es as [|e es IH]; simpl; [done|]. rewrite IH. lia. Qed.

Lemma delta_bytes_nonneg es : 0 <= delta_bytes es.
Proof. induction es as [|e es IH]; simpl; [done|]. unfold byte_len. case_bool_decide; lia. Qed.

Lemma numbered_cons n e es : ev_sequence e = n + 1 -> numbered (n + 1) es -> numbered n (e :: es).
Proof.
  intros He Hes [|i] x Hx; simpl in Hx; [injection Hx as <-; lia|]. rewrite (Hes i x Hx). lia.
Qed.

Lemma publish_all_spec ms : forall s es s',
  Forall known ms -> 0 <= pb_sequence s -> publish_all s ms = (es, s') ->
  numbered (pb_sequence s) es /\ pb_sequence s' = pb_sequence s + Z.of_nat (length es) /\ pb_stopped s' = pb_stopped s /\
  Forall (fun e => ev_result e = None /\ ev_run_id e = run_id) es /\
  (delta_bytes es = 0 \/ pb_text_bytes s + delta_bytes es <= ep_max_final_output_bytes policy).
Proof.
  induction ms as [|m ms IH]; intros s es s' Hms Hs; simpl.
  { intros [= <- <-]. split_and!; [by intros [] ? ?|simpl; lia|done|constructor|by left]. }
  apply Forall_cons in Hms as [[Hk Hr] Hms].
  destruct (publish s m) as [[e|ex] s1] eqn:Hp; destruct (publish_all s1 ms) as [es2 s2] eqn:Ha; intros [= <- <-].
  - destruct (publish_Ok _ _ _ _ Hp) as (He & Hq & Ho & Hb & Hlim).
    destruct (IH s1 es2 s2 Hms ltac:(lia) Ha) as (IH1 & IH2 & IHo & IH3 & IH4). rewrite Hq in *.
    split_and!; [apply numbered_cons; [by rewrite He|done]|simpl; lia|congruence|constructor; [by rewrite He|done]|].
    change (e :: es2) with ([e] ++ es2)%list. rewrite delta_bytes_app.
    pose proof (delta_bytes_nonneg es2). destruct IH4 as [IH4|IH4]; [|right; lia].
    assert (delta_bytes [e] = 0 \/ ms_kind m = "delta") as [Hz|Hz]; [|left; lia|right; specialize (Hlim Hz); lia].
    rewrite He. unfold delta_bytes. simpl. case_bool_decide; auto.
  - destruct (publish_Raise _ _ _ _ Hs Hk Hp) as (Hq & Ho & Hb).
    destruct (IH s1 es2 s2 Hms ltac:(lia) Ha) as (IH1 & IH2 & IHo & IH3 & IH4). rewrite Hq in *.
    split_and!; [done..|congruence|done|]. pose proof (delta_bytes_nonneg es2). destruct IH4 as [IH4|IH4]; [by left|right; lia].
Qed.

(** A message without data and text is never refused. *)
Lemma publish_bare s kind r :
  pb_stopped s = false -> 0 <= pb_sequence s -> kind ∈ event_kinds -> kind <> "delta" -> 2 <= ep_max_tool_result_bytes policy ->
  publish s (MkMessage kind "" [] r) =
    (Ok (MkRunEvent run_id (pb_sequence s + 1) kind "" [] r), MkPublisher (pb_sequence s + 1) (pb_text_bytes s) false).
Proof.
  intros Ho Hs Hk Hd Hp. unfold publish. rewrite Ho. simpl. rewrite (bool_decide_false (kind = "delta")) by done. simpl.
  rewrite (proj2 (Z.ltb_ge _ _)) by exact Hp. unfold run_event. simpl. rewrite bool_decide_true by done.
  by rewrite (proj2 (Z.leb_le 1 (pb_sequence s + 1))) by lia.
Qed.

Lemma consume_events es q : consume ((Event <$> es) ++ q) = ((es ++ (consume q).1)%list, (consume q).2).
Proof.
  induction es as [|e es IH]; csimpl; [by destruct (consume q)|]. by rewrite IH.
Qed.

Lemma final_kind_known r : final_kind r ∈ event_kinds /\ final_kind r <> "delta".
Proof. unfold final_kind. destruct (rr_status r); split; try done; decide_by_vm. Qed.

Lemma last_result_none es acc : Forall (fun e => ev_result e = None /\ ev_run_id e = run_id) es ->
  foldl (fun acc e => match ev_result e with Some r => Some r | None => acc end) acc es = acc.
Proof. intros Hes. revert acc. induction Hes as [|e es [He _] _ IH]; intros acc; [done|]. simpl. by rewrite He, IH. Qed.

(** What a run with result [r] puts into its queue *)
Lemma produce_Ok ms r :
  Forall known ms -> 2 <= ep_max_tool_result_bytes policy -> 0 <= ep_max_final_output_bytes policy ->
  exists es, produce ms (Ok r) =
    ((Event <$> MkRunEvent run_id 1 "started" "" [] None :: es) ++
     [Event (MkRunEvent run_id (Z.of_nat (length es) + 2) (final_kind r) "" [] (Some r)); End])%list /\
    numbered 1 es /\ Forall (fun e => ev_result e = None /\ ev_run_id e = run_id) es /\
    delta_bytes es <= ep_max_final_output_bytes policy.
Proof.
  intros Hms Hp Hf. unfold produce. rewrite publish_bare by (done || decide_by_vm). simpl pb_text_bytes. simpl pb_sequence. change (0 + 1) with 1.
  destruct (publish_all (MkPublisher 1 0 false) ms) as [es s] eqn:Ha.
  destruct (publish_all_spec ms (MkPublisher 1 0 false) es s Hms ltac:(done) Ha) as (Hn & Hs & Ho & He & Hd). simpl in Hn, Hs, Ho, Hd.
  destruct (final_kind_known r) as [Hk Hnd]. rewrite publish_bare; [|done|lia|exact Hk|exact Hnd|done]. simpl. rewrite Hs.
  exists es. split_and!; [|done|done|lia]. f_equal. f_equal.
  by replace (1 + Z.of_nat (length es) + 1) with (Z.of_nat (length es) + 2) by lia.
Qed.
End Stream.

(** ** Properties *)

(** The stream of a run that returns a result: the consumer gets, without an
    error, a [started] event, the accepted events of the run, and one last event
    that carries the result; the events are numbered 1, 2, 3, ... without gaps
    and all belong to this run; the text streamed in deltas stays within the
    output limit; and [run] returns exactly the result. *)
Theorem stream_delivers_the_result policy run_id ms r :
  Forall known ms -> 2 <= ep_max_tool_result_bytes policy -> 0 <= ep_max_final_output_bytes policy ->
  exists es last, consume (produce policy run_id ms (Ok r)) = ((es ++ [last])%list, Ok tt) /\
    ev_kind <$> head es = Some "started" /\
    Forall (fun e => ev_result e = None) es /\ ev_result last = Some r /\ ev_kind last = final_kind r /\
    (forall i e, (es ++ [last])%list !! i = Some e -> ev_sequence e = Z.of_nat i + 1 /\ ev_run_id e = run_id) /\
    delta_bytes (es ++ [last]) <= ep_max_final_output_bytes policy /\
    run (produce policy run_id ms (Ok r)) = Ok r.
Proof.
  intros Hms Hp Hf. destruct (produce_Ok policy run_id ms r Hms Hp Hf) as (es & -> & Hn & Hes & Hd).
  set (last := MkRunEvent run_id (Z.of_nat (length es) + 2) (final_kind r) "" [] (Some r)).
  set (first := MkRunEvent run_id 1 "started" "" [] None).
  assert (Hdl : delta_bytes ((first :: es) ++ [last]) = delta_bytes es).
  { rewrite delta_bytes_app. simpl. rewrite !bool_decide_false by (simpl; try apply final_kind_known; done). lia. }
  exists (first :: es), last. unfold run. rewrite consume_events. simpl fst. simpl snd.
  split_and!; [done|done| |done|done| |by rewrite Hdl|].
  - constructor; [done|]. eapply Forall_impl; [exact Hes|]. by intros e [].
  - intros i e Hi. change ((first :: es) ++ [last])%list with (first :: (es ++ [last])%list) in Hi.
    destruct i as [|i]; simpl in Hi; [by injection Hi as <-|].
    apply lookup_app_Some in Hi as [Hi|[Hge Hi]].
    + rewrite (Hn i e Hi). rewrite Forall_lookup in Hes. destruct (Hes i e Hi). split; [lia|done].
    + apply list_lookup_singleton_Some in Hi as [Hlen <-]. simpl. split; [lia|done].
  - unfold last_result. rewrite foldl_app. simpl. done.
Qed.

(** A run that raises is never mistaken for one that finished: the events
    published so far are delivered, [run] re-raises the exception, and a
    cancellation that left no result becomes a [RuntimeError]. *)
Theorem stream_surfaces_errors policy run_id ms e :
  Forall known ms -> 2 <= ep_max_tool_result_bytes policy ->
  run (produce policy run_id ms (Raise e)) = Raise (if bool_decide (e = CancelledError) then RuntimeError else e).
Proof.
  intros Hms Hp. unfold run, produce. rewrite publish_bare by (done || decide_by_vm).
  simpl pb_text_bytes. simpl pb_sequence. change (0 + 1) with 1.
  destruct (publish_all policy run_id (MkPublisher 1 0 false) ms) as [es s] eqn:Ha.
  destruct (publish_all_spec policy run_id ms (MkPublisher 1 0 false) es s Hms ltac:(done) Ha) as (_ & _ & _ & He & _).
  set (first := MkRunEvent _ _ _ _ _ _).
  change (Event first :: (Event <$> es) ++ ?q)%list with ((Event <$> (first :: es)) ++ q)%list.
  rewrite consume_events. unfold close_with. case_bool_decide; simpl; [|done]. unfold last_result. simpl.
  rewrite app_nil_r. by rewrite (last_result_none run_id es None He).
Qed.

(** ** An example: a streamed answer with one chunk over the limit *)
Definition demo_policy : ExecutionPolicy :=
  MkExecutionPolicy ∅ 100 100 100 8 100 4 4 2 60.
Definition demo_messages : list message :=
  [MkMessage "delta" "Hello" [] None; MkMessage "delta" "World" [] None; MkMessage "status" "" [] None].
Definition demo_result : RunResult := MkRunResult "run-1" RUN_SUCCEEDED (JStr "Hello") None [] 1 0 0 5.

Lemma demo_known : Forall known demo_messages.
Proof. repeat constructor; decide_by_vm. Qed.

Lemma stream_delivers_the_result_witness :
  ev_kind <$> (consume (produce demo_policy "run-1" demo_messages (Ok demo_result))).1 =
    ["started"; "delta"; "status"; "completed"] /\
  exists es last, consume (produce demo_policy "run-1" demo_messages (Ok demo_result)) = ((es ++ [last])%list, Ok tt) /\
    ev_kind <$> head es = Some "started" /\
    Forall (fun e => ev_result e = None) es /\ ev_result last = Some demo_result /\ ev_kind last = final_kind demo_result /\
    (forall i e, (es ++ [last])%list !! i = Some e -> ev_sequence e = Z.of_nat i + 1 /\ ev_run_id e = "run-1") /\
    delta_bytes (es ++ [last]) <= 8 /\
    run (produce demo_policy "run-1" demo_messages (Ok demo_result)) = Ok demo_result.
Proof.
  split; [vm_compute; reflexivity|].
  apply (stream_delivers_the_result demo_policy "run-1" demo_messages demo_result); [apply demo_known|simpl; lia|simpl; lia].
Defined.

Lemma stream_surfaces_errors_witness :
  run (produce demo_policy "run-1" demo_messages (Raise ValueError)) = Raise ValueError.
Proof. apply (stream_surfaces_errors demo_policy "run-1" demo_messages ValueError); [apply demo_known|simpl; lia]. Defined.
End Stream.
