(* ===== verification/SessionModels.v ===== *)
(** * Values of the session store ([sessions/models.py])

    Frozen, strict pydantic models as records with a fallible constructor.
    Timestamps are UTC microseconds once [_utc] has accepted them.  The parser
    of ISO timestamps and pydantic's JSON dump of a resume point are
    parameters. *)
From S2P Require Import Prelude PyText Json.
From Stdlib Require Import Ascii.
Open Scope string_scope.
Open Scope Z_scope.

(** [RESUME_POINT_TTL_SECONDS] *)
Definition RESUME_POINT_TTL : Z := seconds 300.

(** ** Enumerations *)
Inductive SessionStatus : Type :=
| SESSION_ACTIVE | SESSION_WAITING_APPROVAL | SESSION_COMPLETED | SESSION_FAILED | SESSION_CANCELLED.
#[global] Instance SessionStatus_eq_dec : EqDecision SessionStatus.
Proof. solve_decision. Defined.

Inductive SessionRunClaimState : Type := ACQUIRED | ACTIVE | STALE.
#[global] Instance SessionRunClaimState_eq_dec : EqDecision SessionRunClaimState.
Proof. solve_decision. Defined.

Inductive RunStopOutcome : Type := REQUESTED | ALREADY_REQUESTED | ALREADY_FINISHED | NOT_FOUND.
#[global] Instance RunStopOutcome_eq_dec : EqDecision RunStopOutcome.
Proof. solve_decision. Defined.

Inductive TranscriptEventType : Type :=
| USER_MESSAGE | ASSISTANT_MESSAGE | TOOL_INTENT | TOOL_RESULT | APPROVAL_REQUESTED | APPROVAL_RESOLVED
| STATUS | ERROR | CANCEL | MEMORY_INVALIDATED.
#[global] Instance TranscriptEventType_eq_dec : EqDecision TranscriptEventType.
Proof. solve_decision. Defined.

Definition event_type_value (t : TranscriptEventType) : string :=
  match t with
  | USER_MESSAGE => "user_message" | ASSISTANT_MESSAGE => "assistant_message" | TOOL_INTENT => "tool_intent"
  | TOOL_RESULT => "tool_result" | APPROVAL_REQUESTED => "approval_requested"
  | APPROVAL_RESOLVED => "approval_resolved" | STATUS => "status" | ERROR => "error" | CANCEL => "cancel"
  | MEMORY_INVALIDATED => "memory_invalidated"
  end.

(** ** Limits *)
Record SessionStoreLimits : Type := MkLimits {
  max_sessions : Z;
  max_transcript_payload_bytes : Z;
  max_transcript_events_per_session : Z;
  max_transcript_events_total : Z;
  max_run_claims_per_session : Z;
  max_run_claims_total : Z;
  max_checkpoint_state_bytes : Z;
  max_checkpoints_per_session : Z;
  max_checkpoint_bytes_per_session : Z;
  max_resume_point_bytes : Z;
  max_resume_points_per_session : Z;
  max_resume_bytes_per_session : Z;
  max_resume_points_total : Z;
  max_resume_bytes_total : Z;
}.

Definition within (lo hi x : Z) : bool := (lo <=? x) && (x <=? hi).

(** The field bounds and [internally_consistent] *)
Definition session_store_limits (l : SessionStoreLimits) : res SessionStoreLimits :=
  require within 1 1000000 (max_sessions l) else ValueError ;;
  require within 1024 33554432 (max_transcript_payload_bytes l) else ValueError ;;
  require within 1 1000000 (max_transcript_events_per_session l) else ValueError ;;
  require within 1 10000000 (max_transcript_events_total l) else ValueError ;;
  require within 1 1000000 (max_run_claims_per_session l) else ValueError ;;
  require within 1 10000000 (max_run_claims_total l) else ValueError ;;
  require within 1024 33554432 (max_checkpoint_state_bytes l) else ValueError ;;
  require within 1 256 (max_checkpoints_per_session l) else ValueError ;;
  require within 1024 134217728 (max_checkpoint_bytes_per_session l) else ValueError ;;
  require within 1024 524288 (max_resume_point_bytes l) else ValueError ;;
  require within 1 256 (max_resume_points_per_session l) else ValueError ;;
  require within 1024 134217728 (max_resume_bytes_per_session l) else ValueError ;;
  require within 1 1000000 (max_resume_points_total l) else ValueError ;;
  require within 1024 1073741824 (max_resume_bytes_total l) else ValueError ;;
  require max_transcript_events_per_session l <=? max_transcript_events_total l else ValueError ;;
  require max_run_claims_per_session l <=? max_run_claims_total l else ValueError ;;
  require max_checkpoint_state_bytes l <=? max_checkpoint_bytes_per_session l else ValueError ;;
  require max_resume_point_bytes l <=? max_resume_bytes_per_session l else ValueError ;;
  require max_resume_points_per_session l <=? max_resume_points_total l else ValueError ;;
  require max_resume_bytes_per_session l <=? max_resume_bytes_total l else ValueError ;;
  Ok l.

(** [SessionStoreLimits()] *)
Definition default_limits : SessionStoreLimits :=
  MkLimits 100000 4194304 50000 1000000 50000 1000000 4194304 8 16777216 524288 8 2097152 10000 134217728.

(** ** Identities and records *)
Record SessionIdentity : Type := MkIdentity {
  id_tenant_id : string;
  id_product_id : string;
  id_agent_id : string;
  id_session_id : string;
  id_principal_id : string;
}.
#[global] Instance SessionIdentity_eq_dec : EqDecision SessionIdentity.
Proof. solve_decision. Defined.
#[global] Instance SessionIdentity_countable : Countable SessionIdentity.
Proof.
  refine (inj_countable'
    (fun i => (id_tenant_id i, id_product_id i, id_agent_id i, id_session_id i, id_principal_id i))
    (fun '(a, b, c, d, e) => MkIdentity a b c d e) _).
  by intros [].
Defined.

Definition session_identity (i : SessionIdentity) : res SessionIdentity :=
  let! _ := identifier (id_tenant_id i) in
  let! _ := identifier (id_product_id i) in
  let! _ := identifier (id_agent_id i) in
  let! _ := identifier (id_session_id i) in
  let! _ := identifier (id_principal_id i) in
  Ok i.

Record SessionRecord : Type := MkSessionRecord {
  sr_identity : SessionIdentity;
  sr_status : SessionStatus;
  sr_revision : Z;
  sr_memory_invalidated_revision : Z;
  sr_memory_source_versions : gmap string Z;
  sr_created_at : Z;
  sr_updated_at : Z;
}.
#[global] Instance SessionRecord_eq_dec : EqDecision SessionRecord.
Proof. solve_decision. Defined.

Definition session_record (r : SessionRecord) : res SessionRecord :=
  require 0 <=? sr_revision r else ValueError ;;
  require 0 <=? sr_memory_invalidated_revision r else ValueError ;;
  require sr_created_at r <=? sr_updated_at r else ValueError ;;
  Ok r.

Record TranscriptEvent : Type := MkTranscriptEvent {
  te_identity : SessionIdentity;
  te_event_id : string;
  te_sequence : Z;
  te_revision : Z;
  te_type : TranscriptEventType;
  te_payload : json;
  te_occurred_at : Z;
  te_idempotency_key : option string;
}.
#[global] Instance TranscriptEvent_eq_dec : EqDecision TranscriptEvent.
Proof. solve_decision. Defined.

Definition transcript_event (e : TranscriptEvent) : res TranscriptEvent :=
  let! _ := identifier (te_event_id e) in
  require 1 <=? te_sequence e else ValueError ;;
  require 1 <=? te_revision e else ValueError ;;
  let! _ := canonical_json (te_payload e) in
  let! _ := match te_idempotency_key e with None => Ok "" | Some k => identifier k end in
  Ok e.

Record SessionCheckpoint : Type := MkCheckpoint {
  sc_identity : SessionIdentity;
  sc_checkpoint_id : string;
  sc_revision : Z;
  sc_workflow_state : json;
  sc_last_event_sequence : Z;
  sc_created_at : Z;
  sc_idempotency_key : string;
}.
#[global] Instance SessionCheckpoint_eq_dec : EqDecision SessionCheckpoint.
Proof. solve_decision. Defined.

Definition session_checkpoint (c : SessionCheckpoint) : res SessionCheckpoint :=
  let! _ := identifier (sc_checkpoint_id c) in
  require 1 <=? sc_revision c else ValueError ;;
  let! _ := canonical_json (sc_workflow_state c) in
  require 0 <=? sc_last_event_sequence c else ValueError ;;
  let! _ := identifier (sc_idempotency_key c) in
  Ok c.

Record SessionSnapshot : Type := MkSnapshot {
  sn_session : SessionRecord;
  sn_checkpoint : option SessionCheckpoint;
  sn_transcript : list TranscriptEvent;
}.

Record RunResumePoint : Type := MkResumePoint {
  rp_identity : SessionIdentity;
  rp_run_id : string;
  rp_payload : json;
  rp_memory_invalidated_revision : Z;
  rp_memory_source_versions : gmap string Z;
  rp_created_at : Z;
}.
#[global] Instance RunResumePoint_eq_dec : EqDecision RunResumePoint.
Proof. solve_decision. Defined.

Definition run_resume_point (p : RunResumePoint) : res RunResumePoint :=
  let! _ := session_identity (rp_identity p) in
  let! _ := identifier (rp_run_id p) in
  require 0 <=? rp_memory_invalidated_revision p else ValueError ;;
  let! _ := for_each (fun kv => let! _ := identifier kv.1 in guard (1 <=? kv.2) ValueError)
                     (map_to_list (rp_memory_source_versions p)) in
  Ok p.

(** ** Reading event payloads *)

(** [memory_invalidation_source] *)
Definition memory_invalidation_source (payload : json) : res (option (string * Z)) :=
  match payload with
  | JObj kvs =>
      match obj_get "source_namespace" kvs, obj_get "source_version" kvs with
      | (None | Some JNull), (None | Some JNull) => Ok None
      | Some (JStr namespace), Some (JInt version) =>
          if IDENTIFIER namespace && (1 <=? version) then Ok (Some (namespace, version)) else Raise ValueError
      | _, _ => Raise ValueError
      end
  | _ => Ok None
  end.

(** [finished_resume_run_id] *)
Definition finished_resume_run_id (event_type : TranscriptEventType) (payload : json) : option string :=
  match event_type, payload with
  | (ASSISTANT_MESSAGE | ERROR), JObj kvs =>
      if bool_decide (obj_get "run_status" kvs = Some (JStr "cancelled")) then None
      else match obj_get "run_id" kvs with
      | Some (JStr run_id) => if IDENTIFIER run_id then Some run_id else None
      | _ => None
      end
  | _, _ => None
  end.

(** [validate_transcript_page] *)
Definition validate_transcript_page (limit : pyarg) (before_sequence : option pyarg) : res (Z * option Z) :=
  match limit with
  | AInt n =>
      require within 1 1000 n else ValueError ;;
      match before_sequence with
      | None => Ok (n, None)
      | Some (AInt b) => require 1 <=? b else ValueError ;; Ok (n, Some b)
      | Some _ => Raise ValueError
      end
  | _ => Raise ValueError
  end.

(** ** Resume points *)

(** Serialisation of a resume point by pydantic, and [datetime.fromisoformat] *)
Class SessionCodec : Type := {
  model_dump_json : RunResumePoint -> string;
  fromisoformat : string -> res datetime;
}.

Definition forbidden_keys : list string :=
  ["resultid"; "resultreference"; "approvaltoken"; "approvalbinding"; "approvalcredential"; "accesstoken";
   "refreshtoken"; "apikey"; "authorization"; "password"; "secret"; "clientsecret"; "credential"; "credentials";
   "grantid"; "ownertoken"; "privatekey"; "approval"; "token"; "cookie"].

(** [re.sub(r"[^a-z0-9]", "", key.lower())] on UTF-8 bytes: besides the capital
    letters, U+212A (Kelvin) lowers to [k] and U+0130 to [i] and a dot. *)
Fixpoint squash (l : list ascii) : list ascii :=
  match l with
  | [] => []
  | a :: r =>
      if is_lower_digit a then a :: squash r
      else if is_upper a then ascii_of_N (N_of_ascii a + 32) :: squash r
      else match r with
      | b :: r' =>
          if (code a =? 196) && (code b =? 176) then "i"%char :: squash r'
          else match r' with
          | c :: r'' =>
              if (code a =? 226) && (code b =? 132) && (code c =? 170) then "k"%char :: squash r''
              else squash r
          | [] => squash r
          end
      | [] => []
      end
  end.

Definition forbidden_key (key : string) : bool :=
  bool_decide (String.string_of_list_ascii (squash (chars key)) ∈ forbidden_keys).

(** The nested [unsafe] *)
Fixpoint unsafe (v : json) : bool :=
  match v with
  | JObj kvs => existsb (fun kv => forbidden_key kv.1 || unsafe kv.2) kvs
  | JList l => existsb unsafe l
  | _ => false
  end.

Definition has_keys (keys : list string) (kvs : list (string * json)) : bool :=
  forallb (fun k => negb (bool_decide (obj_get k kvs = None))) keys.

Definition str_of (v : option json) : option string := match v with Some (JStr s) => Some s | _ => None end.
Definition int_of (v : option json) : option Z := match v with Some (JInt z) => Some z | _ => None end.
Definition list_of (v : option json) : option (list json) := match v with Some (JList l) => Some l | _ => None end.
Definition obj_of (v : option json) : option (list (string * json)) := match v with Some (JObj o) => Some o | _ => None end.

Definition builtin_family (name : string) : option string :=
  if bool_decide (name ∈ ["suiteharness.fs.list"; "suiteharness.fs.read"; "suiteharness.fs.glob"; "suiteharness.fs.grep"])
  then Some "fs"
  else if bool_decide (name ∈ ["suiteharness.web.search"; "suiteharness.web.fetch"]) then Some "web" else None.

(** The identity dict of a built-in tool; dict equality ignores the order. *)
Definition builtin_identity (family name : string) (ident : list (string * json)) : bool :=
  (length ident =? 4)%nat
  && bool_decide (str_of (obj_get "namespace" ident) = Some "suiteharness")
  && bool_decide (str_of (obj_get "name" ident) = Some name)
  && bool_decide (str_of (obj_get "origin" ident) = Some ("suiteharness.builtin." +:+ family))
  && bool_decide (str_of (obj_get "version" ident) = Some "1").

Section Resume.
Context `{SessionCodec}.

Definition iso (v : option json) : option Z :=
  match str_of v with
  | None => None
  | Some text =>
      match fromisoformat text with
      | Ok stamp => match utc stamp with Ok us => Some us | Raise _ => None end
      | Raise _ => None
      end
  end.

(** One round of [for observation in observations]: the call id it reports *)
Definition resumable_observation (observation : json) : option json :=
  match observation with
  | JObj o =>
      if negb (bool_decide (str_of (obj_get "status" o) = Some "succeeded"))
         || negb (bool_decide (default JNull (obj_get "failure" o) = JNull))
         || bool_decide (obj_get "result" o = None)
      then None
      else match str_of (obj_get "tool_name" o) with
      | None => None
      | Some name =>
          match builtin_family name, obj_of (obj_get "tool_identity" o) with
          | Some family, Some ident =>
              if negb (builtin_identity family name ident) then None
              else match iso (obj_get "started_at" o), iso (obj_get "finished_at" o) with
              | Some start, Some finish =>
                  if finish <? start then None else Some (default JNull (obj_get "call_id" o))
              | _, _ => None
              end
          | _, _ => None
          end
      end
  | _ => None
  end.

(** [sorted(observed_ids) != sorted(call_ids)], both of strings; anything else
    compares unequal or raises, which is refused too. *)
Definition same_ids (observed call_ids : list json) : bool :=
  match mapM (fun v => str_of (Some v)) observed, mapM (fun v => str_of (Some v)) call_ids with
  | Some a, Some b => bool_decide (merge_sort String.le a = merge_sort String.le b)
  | _, _ => false
  end.

Definition identifier_list (l : list json) : bool :=
  forallb (fun v => match v with JStr s => IDENTIFIER s | _ => false end) l.

(** The checks on [data["resume_state"]] *)
Definition resumable_state (run_id : string) (state : list (string * json)) : bool :=
  match str_of (obj_get "source_run_id" state), int_of (obj_get "iterations_used" state),
        int_of (obj_get "tool_calls_used" state), list_of (obj_get "observations" state),
        list_of (obj_get "call_ids" state), str_of (obj_get "prompt_digest" state),
        str_of (obj_get "route_key" state), obj_get "workflow_state" state with
  | Some source, Some iterations, Some calls, Some observations, Some call_ids, Some digest, Some route, Some workflow =>
      bool_decide (source = run_id) && within 0 10000 iterations && SHA256 digest && within 1 4096 (py_len route)
      && identifier_list call_ids && bool_decide (NoDup call_ids)
      && (calls =? Z.of_nat (length observations)) && (length call_ids =? length observations)%nat
      && (length observations <=? 1024)%nat
      && (bool_decide (observations = []) || negb ((iterations =? 0) || bool_decide (workflow = JNull)))
      && match mapM resumable_observation observations with
         | Some observed => same_ids observed call_ids
         | None => false
         end
  | _, _, _, _, _, _, _, _ => false
  end.

(** [safe_resume_point]; every exception of its [try] block answers [None]. *)
Definition safe_resume_point (point : RunResumePoint) : option RunResumePoint :=
  if unsafe (rp_payload point) then None
  else match canonical_json (rp_payload point) with
  | Raise _ => None
  | Ok encoded =>
      if 524288 <? byte_len encoded then None
      else match run_resume_point point with
      | Raise _ => None
      | Ok checked =>
          match rp_payload checked with
          | JObj data =>
              match str_of (obj_get "message_digest" data), obj_of (obj_get "conversation" data),
                    obj_get "input" data, obj_of (obj_get "resume_state" data) with
              | Some digest, Some conversation, Some _, Some state =>
                  if SHA256 digest && negb (bool_decide (list_of (obj_get "messages" conversation) = None))
                     && resumable_state (rp_run_id checked) state
                  then Some checked else None
              | _, _, _, _ => None
              end
          | _ => None
          end
      end
  end.

Lemma safe_resume_point_Some p q : safe_resume_point p = Some q ->
  q = p /\ unsafe (rp_payload p) = false /\ run_resume_point p = Ok p.
Proof.
  unfold safe_resume_point. destruct (unsafe _); [done|]. destruct (canonical_json _); [|done].
  destruct (_ <? _); [done|]. destruct (run_resume_point p) as [c|] eqn:Hc; [|done].
  assert (c = p) as -> by (unfold run_resume_point in Hc; py_simpl; done).
  intros Hq. repeat (case_match; try done). by simplify_eq.
Qed.
End Resume.
