(* ===== verification/Sessions.v ===== *)
(** * The in-memory session store ([sessions/memory.py])

    Every method runs its state changes inside one [asyncio.Lock], so an
    operation is one atomic step on the store.  An operation that raises leaves
    the store as it was.  Clock readings are arguments: [now] is the injected
    clock, [wall] is [utc_now]. *)
From S2P Require Import Prelude PyText Json ExecModels SessionModels.
Open Scope string_scope.
Open Scope Z_scope.

Module Sessions.

(** ** State *)
Inductive claim_state : Type := claim_active | claim_finalizing | claim_abandoned.
#[global] Instance claim_state_eq_dec : EqDecision claim_state.
Proof. solve_decision. Defined.

Record Claim : Type := MkClaim {
  cl_owner : string;
  cl_state : claim_state;
  cl_expires_at : Z;
}.

Abbreviation Key := (SessionIdentity * string)%type.

Record Store : Type := MkStore {
  s_sessions : gmap SessionIdentity SessionRecord;
  s_events : gmap SessionIdentity (list TranscriptEvent);
  s_checkpoints : gmap SessionIdentity (list SessionCheckpoint);
  s_event_idempotency : gmap Key (string * TranscriptEvent);
  s_event_ids : gmap Key TranscriptEvent;
  s_checkpoint_idempotency : gmap Key (string * SessionCheckpoint);
  s_run_claims : dict Key Claim;
  s_run_stops : gset Key;
  s_resume_points : dict Key RunResumePoint;
  s_resume_point_bytes : gmap Key Z;
}.

Definition empty : Store := MkStore ∅ ∅ ∅ ∅ ∅ ∅ [] ∅ [] ∅.

(** Updates of one table or a few *)
Definition with_sessions f s := MkStore f (s_events s) (s_checkpoints s) (s_event_idempotency s) (s_event_ids s)
  (s_checkpoint_idempotency s) (s_run_claims s) (s_run_stops s) (s_resume_points s) (s_resume_point_bytes s).
Definition with_claims c s := MkStore (s_sessions s) (s_events s) (s_checkpoints s) (s_event_idempotency s)
  (s_event_ids s) (s_checkpoint_idempotency s) c (s_run_stops s) (s_resume_points s) (s_resume_point_bytes s).
Definition with_stops x s := MkStore (s_sessions s) (s_events s) (s_checkpoints s) (s_event_idempotency s)
  (s_event_ids s) (s_checkpoint_idempotency s) (s_run_claims s) x (s_resume_points s) (s_resume_point_bytes s).
Definition with_resume p b s := MkStore (s_sessions s) (s_events s) (s_checkpoints s) (s_event_idempotency s)
  (s_event_ids s) (s_checkpoint_idempotency s) (s_run_claims s) (s_run_stops s) p b.

Definition events_of (s : Store) (identity : SessionIdentity) : list TranscriptEvent :=
  default [] (s_events s !! identity).
Definition checkpoints_of (s : Store) (identity : SessionIdentity) : list SessionCheckpoint :=
  default [] (s_checkpoints s !! identity).

(** [_require] *)
Definition require_session (s : Store) (identity : SessionIdentity) : res SessionRecord :=
  match s_sessions s !! identity with
  | Some record => Ok record
  | None => Raise SessionNotFoundError
  end.

(** [_check_revision] *)
Definition check_revision (record : SessionRecord) (expected : option Z) : res unit :=
  guard (match expected with None => true | Some n => n =? sr_revision record end) SessionRevisionConflictError.

(** [_validate_run_id], [_validate_run_claim]: the lease in microseconds *)
Definition validate_run_id (run_id : string) : res unit := guard (IDENTIFIER run_id) ValueError.

Definition validate_run_claim (run_id owner_token : string) (lease_seconds : pyarg) : res Z :=
  let! _ := validate_run_id run_id in
  require OWNER_TOKEN owner_token else ValueError ;;
  match lease_seconds with
  | AInt n => require (0 <? n) && (n <=? 172800) else ValueError ;; Ok (seconds n)
  | AFloat us => require (0 <? us) && (us <=? seconds 172800) else ValueError ;; Ok us
  | _ => Raise ValueError
  end.

(** [_validate_active_run_limit] *)
Definition validate_active_run_limit (limit : pyarg) : res nat :=
  match limit with
  | AInt n => require within 1 1000 n else ValueError ;; Ok (Z.to_nat n)
  | _ => Raise ValueError
  end.

(** The sum of the transcript lengths *)
Definition total_events (s : Store) : Z :=
  map_fold (fun _ items n => Z.of_nat (length items) + n) 0 (s_events s).

(** Run claims of one session *)
Definition claims_of (s : Store) (identity : SessionIdentity) : Z :=
  Z.of_nat (length (List.filter (fun kc : Key * Claim => bool_decide (kc.1.1 = identity)) (s_run_claims s))).

Section Store.
Context `{Hashing} `{SessionCodec} (limits : SessionStoreLimits).

(** [_digest] *)
Definition digest (value : json) : res string :=
  let! text := canonical_json value in Ok (sha256_hex text).

(** ** Sessions *)

(** [create]; the record's two default timestamps are separate clock readings. *)
Definition create (s : Store) (created updated : Z) (identity : SessionIdentity) : res (SessionRecord * Store) :=
  match s_sessions s !! identity with
  | Some record => Ok (record, s)
  | None =>
      require Z.of_nat (size (s_sessions s)) <? max_sessions limits else SessionCapacityError ;;
      let! record := session_record (MkSessionRecord identity SESSION_ACTIVE 0 0 ∅ created updated) in
      Ok (record, MkStore (<[ identity := record ]> (s_sessions s)) (<[ identity := [] ]> (s_events s))
        (<[ identity := [] ]> (s_checkpoints s)) (s_event_idempotency s) (s_event_ids s)
        (s_checkpoint_idempotency s) (s_run_claims s) (s_run_stops s) (s_resume_points s) (s_resume_point_bytes s))
  end.

(** [get] *)
Definition get (s : Store) (identity : SessionIdentity) : option SessionRecord := s_sessions s !! identity.

(** ** Run claims *)

(** [claim_run] *)
Definition claim_run (s : Store) (now : Z) (identity : SessionIdentity) (run_id owner_token : string)
    (lease_seconds : pyarg) : res (SessionRunClaimState * Store) :=
  let! lease := validate_run_claim run_id owner_token lease_seconds in
  let! _ := require_session s identity in
  let key := (identity, run_id) in
  match dget key (s_run_claims s) with
  | None =>
      require claims_of s identity <? max_run_claims_per_session limits else SessionCapacityError ;;
      require Z.of_nat (length (s_run_claims s)) <? max_run_claims_total limits else SessionCapacityError ;;
      Ok (ACQUIRED, with_claims (dset key (MkClaim owner_token claim_active (now + lease)) (s_run_claims s)) s)
  | Some prior =>
      if negb (bool_decide (cl_state prior = claim_abandoned)) && (now <? cl_expires_at prior) then Ok (ACTIVE, s)
      else if negb (bool_decide (cl_state prior = claim_abandoned))
      then Ok (STALE, with_claims (dset key (MkClaim (cl_owner prior) claim_abandoned (cl_expires_at prior)) (s_run_claims s)) s)
      else Ok (STALE, s)
  end.

(** [finalize_run] *)
Definition finalize_run (s : Store) (now : Z) (identity : SessionIdentity) (run_id owner_token : string)
    (lease_seconds : pyarg) : res (bool * Store) :=
  let! lease := validate_run_claim run_id owner_token lease_seconds in
  let! _ := require_session s identity in
  let key := (identity, run_id) in
  match dget key (s_run_claims s) with
  | None => Ok (false, s)
  | Some prior =>
      if negb (bool_decide (cl_owner prior = owner_token)) || negb (bool_decide (cl_state prior = claim_active))
      then Ok (false, s)
      else Ok (true, with_claims (dset key (MkClaim owner_token claim_finalizing (now + lease)) (s_run_claims s)) s)
  end.

(** [request_stop] *)
Definition request_stop (s : Store) (now : Z) (identity : SessionIdentity) (run_id : string) :
    res (RunStopOutcome * Store) :=
  let! _ := validate_run_id run_id in
  let key := (identity, run_id) in
  match dget key (s_run_claims s) with
  | None => Ok (NOT_FOUND, s)
  | Some claim =>
      if negb (bool_decide (cl_state claim = claim_active)) || (cl_expires_at claim <=? now) then Ok (ALREADY_FINISHED, s)
      else if bool_decide (key ∈ s_run_stops s) then Ok (ALREADY_REQUESTED, s)
      else Ok (REQUESTED, with_stops ({[ key ]} ∪ s_run_stops s) s)
  end.

(** [stop_requested] *)
Definition stop_requested (s : Store) (identity : SessionIdentity) (run_id : string) : res bool :=
  let! _ := validate_run_id run_id in Ok (bool_decide ((identity, run_id) ∈ s_run_stops s)).

(** [active_run_ids], in the order the runs were claimed *)
Definition active_run_ids (s : Store) (now : Z) (identity : SessionIdentity) (limit : pyarg) : res (list string) :=
  let! n := validate_active_run_limit limit in
  Ok (take n (omap (fun kc : Key * Claim =>
    if bool_decide (kc.1.1 = identity) && bool_decide (cl_state kc.2 = claim_active) && (now <? cl_expires_at kc.2)
    then Some kc.1.2 else None) (s_run_claims s))).

(** ** Resume points *)

(** [_discard_resume_point] *)
Definition discard_resume_point (key : Key) (s : Store) : Store :=
  with_resume (dpop key (s_resume_points s)) (delete key (s_resume_point_bytes s)) s.

(** [_expire_resume_points] *)
Definition expire_resume_points (now : Z) (s : Store) : Store :=
  let expired := omap (fun kp : Key * RunResumePoint =>
    if RESUME_POINT_TTL <=? now - rp_created_at kp.2 then Some kp.1 else None) (s_resume_points s) in
  foldl (fun s key => discard_resume_point key s) s expired.

(** A stable sort by creation time *)
Fixpoint insert_by_age (kp : Key * RunResumePoint) (l : list (Key * RunResumePoint)) : list (Key * RunResumePoint) :=
  match l with
  | [] => [kp]
  | x :: l => if rp_created_at kp.2 <=? rp_created_at x.2 then kp :: x :: l else x :: insert_by_age kp l
  end.
Definition sort_by_age (l : list (Key * RunResumePoint)) : list (Key * RunResumePoint) := foldr insert_by_age [] l.

(** [sum(self._resume_point_bytes[key] for key in keys)] *)
Fixpoint sum_bytes (bytes : gmap Key Z) (keys : list Key) : res Z :=
  match keys with
  | [] => Ok 0
  | key :: keys =>
      match bytes !! key with
      | None => Raise KeyError
      | Some n => let! rest := sum_bytes bytes keys in Ok (n + rest)
      end
  end.

(** The [for key in keys] loop of one round of trimming *)
Fixpoint trim_loop (keep : Key) (max_count max_bytes count size : Z) (keys : list Key) (s : Store) : res Store :=
  match keys with
  | [] => Ok s
  | key :: keys =>
      if (count <=? max_count) && (size <=? max_bytes) then Ok s
      else if bool_decide (key = keep) then trim_loop keep max_count max_bytes count size keys s
      else match s_resume_point_bytes s !! key with
      | None => Raise KeyError
      | Some n => trim_loop keep max_count max_bytes (count - 1) (size - n) keys (discard_resume_point key s)
      end
  end.

(** One round: the points of one session, or all of them *)
Definition trim_round (scope : option SessionIdentity) (max_count max_bytes : Z) (keep : Key) (s : Store) : res Store :=
  let keys := (sort_by_age (List.filter (fun kp : Key * RunResumePoint =>
    match scope with None => true | Some identity => bool_decide (kp.1.1 = identity) end) (s_resume_points s))).*1 in
  let! size := sum_bytes (s_resume_point_bytes s) keys in
  trim_loop keep max_count max_bytes (Z.of_nat (length keys)) size keys s.

(** [_trim_resume_points] *)
Definition trim_resume_points (identity : SessionIdentity) (keep : Key) (s : Store) : res Store :=
  let! s := trim_round (Some identity) (max_resume_points_per_session limits) (max_resume_bytes_per_session limits) keep s in
  trim_round None (max_resume_points_total limits) (max_resume_bytes_total limits) keep s.

(** [save_resume_point] *)
Definition save_resume_point (s : Store) (now : Z) (identity : SessionIdentity) (point : RunResumePoint) :
    res (option RunResumePoint * Store) :=
  match safe_resume_point point with
  | None => Ok (None, s)
  | Some checked =>
      if negb (bool_decide (rp_identity checked = identity)) then Ok (None, s)
      else
        let point_bytes := byte_len (model_dump_json checked) in
        if max_resume_point_bytes limits <? point_bytes then Ok (None, s)
        else
          let s := expire_resume_points now s in
          let key := (identity, rp_run_id checked) in
          match dget key (s_run_claims s), s_sessions s !! identity with
          | Some claim, Some record =>
              if negb (bool_decide (cl_state claim = claim_active)) || (cl_expires_at claim <=? now)
                 || bool_decide (key ∈ s_run_stops s)
                 || negb ((0 <=? now - rp_created_at checked) && (now - rp_created_at checked <? RESUME_POINT_TTL))
                 || negb (rp_memory_invalidated_revision checked =? sr_memory_invalidated_revision record)
                 || negb (bool_decide (rp_memory_source_versions checked = sr_memory_source_versions record))
                 || match dget key (s_resume_points s) with
                    | None => false
                    | Some prior => rp_created_at checked <? rp_created_at prior
                    end
              then Ok (None, s)
              else
                let! s := trim_resume_points identity key
                  (with_resume (dset key checked (s_resume_points s)) (<[ key := point_bytes ]> (s_resume_point_bytes s)) s) in
                Ok (Some checked, s)
          | _, _ => Ok (None, s)
          end
  end.

(** [get_resume_point] *)
Definition get_resume_point (s : Store) (now : Z) (identity : SessionIdentity) (run_id : string) :
    res (option RunResumePoint * Store) :=
  let! _ := validate_run_id run_id in
  let s := expire_resume_points now s in
  match dget (identity, run_id) (s_resume_points s) with
  | None => Ok (None, s)
  | Some point =>
      if (0 <=? now - rp_created_at point) && (now - rp_created_at point <? RESUME_POINT_TTL) then Ok (Some point, s)
      else Ok (None, s)
  end.

(** ** Transcript *)

Definition append_fingerprint (event_type : TranscriptEventType) (payload : json) : res string :=
  digest (JObj [("type", JStr (event_type_value event_type)); ("payload", payload)]).

(** The commit of [append], after every check has passed *)
Definition commit_event (s : Store) (now : Z) (identity : SessionIdentity) (record : SessionRecord)
    (source : option (string * Z)) (fingerprint : string) (event : TranscriptEvent) : Store :=
  let s := MkStore
    (<[ identity := MkSessionRecord (sr_identity record) (sr_status record) (te_revision event)
          (if bool_decide (te_type event = MEMORY_INVALIDATED) then te_revision event
           else sr_memory_invalidated_revision record)
          (match source with
           | None => sr_memory_source_versions record
           | Some (namespace, version) => <[ namespace := version ]> (sr_memory_source_versions record)
           end)
          (sr_created_at record) (Z.max (sr_updated_at record) (te_occurred_at event)) ]> (s_sessions s))
    (<[ identity := (events_of s identity ++ [event])%list ]> (s_events s))
    (s_checkpoints s)
    (match te_idempotency_key event with
     | None => s_event_idempotency s
     | Some key => <[ (identity, key) := (fingerprint, event) ]> (s_event_idempotency s)
     end)
    (<[ (identity, te_event_id event) := event ]> (s_event_ids s))
    (s_checkpoint_idempotency s) (s_run_claims s) (s_run_stops s) (s_resume_points s) (s_resume_point_bytes s) in
  let s := expire_resume_points now s in
  match finished_resume_run_id (te_type event) (te_payload event) with
  | None => s
  | Some run_id => discard_resume_point (identity, run_id) s
  end.

(** The part of [append] behind the idempotency check *)
Definition append_new (s : Store) (now wall : Z) (identity : SessionIdentity) (record : SessionRecord)
    (event_id : string) (event_type : TranscriptEventType) (payload : json) (source : option (string * Z))
    (fingerprint : string) (idempotency_key : option string) (expected_revision : option Z)
    (occurred_at : option datetime) : res (TranscriptEvent * Store) :=
  let stale :=
    match source with
    | None => false
    | Some (namespace, version) => version <=? default 0 (sr_memory_source_versions record !! namespace)
    end in
  if stale then
    match List.find (fun e => te_revision e =? sr_memory_invalidated_revision record) (events_of s identity) with
    | Some event => Ok (event, s)
    | None => Raise RuntimeError  (** [StopIteration] inside a coroutine *)
    end
  else
    require bool_decide (s_event_ids s !! (identity, event_id) = None) else SessionIdempotencyConflictError ;;
    let! _ := check_revision record expected_revision in
    require Z.of_nat (length (events_of s identity)) <? max_transcript_events_per_session limits else SessionCapacityError ;;
    require total_events s <? max_transcript_events_total limits else SessionCapacityError ;;
    let! occurred := match occurred_at with None => Ok wall | Some stamp => utc stamp end in
    let! event := transcript_event (MkTranscriptEvent identity event_id
      (Z.of_nat (length (events_of s identity)) + 1) (sr_revision record + 1) event_type payload occurred idempotency_key) in
    Ok (event, commit_event s now identity record source fingerprint event).

(** [append] *)
Definition append (s : Store) (now wall : Z) (identity : SessionIdentity) (event_id : string)
    (event_type : TranscriptEventType) (payload : json) (idempotency_key : option string)
    (expected_revision : option Z) (occurred_at : option datetime) : res (TranscriptEvent * Store) :=
  let! source := (if bool_decide (event_type = MEMORY_INVALIDATED) then memory_invalidation_source payload else Ok None) in
  let! payload_bytes := canonical_json payload in
  require byte_len payload_bytes <=? max_transcript_payload_bytes limits else SessionPayloadTooLargeError ;;
  let! fingerprint := append_fingerprint event_type payload in
  let! record := require_session s identity in
  match (match idempotency_key with None => None | Some key => s_event_idempotency s !! (identity, key) end) with
  | Some (prior, event) =>
      require bool_decide (prior = fingerprint) else SessionIdempotencyConflictError ;; Ok (event, s)
  | None =>
      append_new s now wall identity record event_id event_type payload source fingerprint idempotency_key
        expected_revision occurred_at
  end.

(** ** Checkpoints and status *)
Definition retained_bytes (cs : list SessionCheckpoint) : Z :=
  foldr (fun c n => canonical_len (sc_workflow_state c) + n) 0 cs.

(** [_prune_checkpoints]: the [while] loop pops the oldest checkpoint. *)
Fixpoint prune_checkpoints (identity : SessionIdentity) (cs : list SessionCheckpoint)
    (idempotency : gmap Key (string * SessionCheckpoint)) : list SessionCheckpoint * gmap Key (string * SessionCheckpoint) :=
  match cs with
  | [] => ([], idempotency)
  | removed :: rest =>
      if (max_checkpoints_per_session limits <? Z.of_nat (length cs))
         || (max_checkpoint_bytes_per_session limits <? retained_bytes cs)
      then
        let key := (identity, sc_idempotency_key removed) in
        prune_checkpoints identity rest
          (match idempotency !! key with
           | Some (_, prior) =>
               if bool_decide (sc_checkpoint_id prior = sc_checkpoint_id removed) then delete key idempotency
               else idempotency
           | None => idempotency
           end)
      else (cs, idempotency)
  end.

(** [save_checkpoint] *)
Definition save_checkpoint (s : Store) (wall : Z) (identity : SessionIdentity) (checkpoint_id : string)
    (workflow_state : json) (expected_revision : Z) (idempotency_key : string) : res (SessionCheckpoint * Store) :=
  let! state_bytes := canonical_json workflow_state in
  require byte_len state_bytes <=? max_checkpoint_state_bytes limits else SessionPayloadTooLargeError ;;
  let! fingerprint := digest workflow_state in
  let! record := require_session s identity in
  match s_checkpoint_idempotency s !! (identity, idempotency_key) with
  | Some (prior, checkpoint) =>
      require bool_decide (prior = fingerprint) else SessionIdempotencyConflictError ;; Ok (checkpoint, s)
  | None =>
      require negb (existsb (fun c => bool_decide (sc_checkpoint_id c = checkpoint_id)) (checkpoints_of s identity))
        else SessionIdempotencyConflictError ;;
      let! _ := check_revision record (Some expected_revision) in
      let! checkpoint := session_checkpoint (MkCheckpoint identity checkpoint_id (sr_revision record + 1) workflow_state
        (Z.of_nat (length (events_of s identity))) wall idempotency_key) in
      let '(cs, idempotency) := prune_checkpoints identity (checkpoints_of s identity ++ [checkpoint])%list
        (<[ (identity, idempotency_key) := (fingerprint, checkpoint) ]> (s_checkpoint_idempotency s)) in
      Ok (checkpoint, MkStore
        (<[ identity := MkSessionRecord (sr_identity record) (sr_status record) (sc_revision checkpoint)
              (sr_memory_invalidated_revision record) (sr_memory_source_versions record) (sr_created_at record) wall ]>
           (s_sessions s))
        (s_events s) (<[ identity := cs ]> (s_checkpoints s)) (s_event_idempotency s) (s_event_ids s) idempotency
        (s_run_claims s) (s_run_stops s) (s_resume_points s) (s_resume_point_bytes s))
  end.

(** [set_status] *)
Definition set_status (s : Store) (wall : Z) (identity : SessionIdentity) (status : SessionStatus) (expected_revision : Z) :
    res (SessionRecord * Store) :=
  let! record := require_session s identity in
  let! _ := check_revision record (Some expected_revision) in
  let updated := MkSessionRecord (sr_identity record) status (sr_revision record + 1)
    (sr_memory_invalidated_revision record) (sr_memory_source_versions record) (sr_created_at record) wall in
  Ok (updated, with_sessions (<[ identity := updated ]> (s_sessions s)) s).

(** ** Reading back *)

(** [resume] *)
Definition resume (s : Store) (identity : SessionIdentity) : option SessionSnapshot :=
  match s_sessions s !! identity with
  | None => None
  | Some record =>
      let checkpoint := last (checkpoints_of s identity) in
      let after := match checkpoint with Some c => sc_last_event_sequence c | None => 0 end in
      Some (MkSnapshot record checkpoint (List.filter (fun e => after <? te_sequence e) (events_of s identity)))
  end.

(** [recent_transcript] *)
Definition recent_transcript (s : Store) (identity : SessionIdentity) (limit : Z) : res (list TranscriptEvent) :=
  require within 1 1000 limit else ValueError ;;
  let! _ := require_session s identity in
  let events := events_of s identity in
  Ok (drop (length events - Z.to_nat limit) events).

(** [transcript_page] *)
Definition transcript_page (s : Store) (identity : SessionIdentity) (limit : pyarg) (before_sequence : option pyarg) :
    res (list TranscriptEvent) :=
  let! (limit, before) := validate_transcript_page limit before_sequence in
  let! _ := require_session s identity in
  let events := events_of s identity in
  let n := Z.of_nat (length events) in
  let end_ := match before with None => n | Some b => Z.min n (b - 1) end in
  let from := Z.max 0 (end_ - limit) in
  Ok (take (Z.to_nat (end_ - from)) (drop (Z.to_nat from) events)).

(** ** Histories *)
Inductive step : Store -> Store -> Prop :=
| do_create s c u id r s' : create s c u id = Ok (r, s') -> step s s'
| do_claim s now id run owner lease r s' : claim_run s now id run owner lease = Ok (r, s') -> step s s'
| do_finalize s now id run owner lease r s' : finalize_run s now id run owner lease = Ok (r, s') -> step s s'
| do_stop s now id run r s' : request_stop s now id run = Ok (r, s') -> step s s'
| do_save_point s now id p r s' : save_resume_point s now id p = Ok (r, s') -> step s s'
| do_get_point s now id run r s' : get_resume_point s now id run = Ok (r, s') -> step s s'
| do_append s now wall id eid ty p k rev at_ r s' : append s now wall id eid ty p k rev at_ = Ok (r, s') -> step s s'
| do_checkpoint s wall id cid st rev k r s' : save_checkpoint s wall id cid st rev k = Ok (r, s') -> step s s'
| do_status s wall id st rev r s' : set_status s wall id st rev = Ok (r, s') -> step s s'.

Definition steps : Store -> Store -> Prop := rtc step.
Definition reachable (s : Store) : Prop := steps empty s.

(** ** Frames: what an operation leaves alone *)

(** The two stores differ in resume points only. *)
Record same_but_points (s s' : Store) : Prop := {
  sb_sessions : s_sessions s' = s_sessions s;
  sb_events : s_events s' = s_events s;
  sb_checkpoints : s_checkpoints s' = s_checkpoints s;
  sb_idempotency : s_event_idempotency s' = s_event_idempotency s;
  sb_ids : s_event_ids s' = s_event_ids s;
  sb_cp_idempotency : s_checkpoint_idempotency s' = s_checkpoint_idempotency s;
  sb_claims : s_run_claims s' = s_run_claims s;
  sb_stops : s_run_stops s' = s_run_stops s;
}.

#[local] Instance same_but_points_preorder : PreOrder same_but_points.
Proof.
  split; [by intros s|]. intros s1 s2 s3 [] []. constructor; congruence.
Qed.

Lemma same_discard key s : same_but_points s (discard_resume_point key s).
Proof. done. Qed.

Lemma same_expire now s : same_but_points s (expire_resume_points now s).
Proof.
  unfold expire_resume_points. generalize (omap (fun kp : Key * RunResumePoint =>
    if RESUME_POINT_TTL <=? now - rp_created_at kp.2 then Some kp.1 else None) (s_resume_points s)).
  intros keys. revert s. induction keys as [|key keys IH]; intros s; [done|].
  simpl. transitivity (discard_resume_point key s); [apply same_discard|apply IH].
Qed.

Lemma same_trim_loop keep mc mb keys : forall count size s s',
  trim_loop keep mc mb count size keys s = Ok s' -> same_but_points s s'.
Proof.
  induction keys as [|key keys IH]; intros count size s s'; simpl; [by intros [= ->]|].
  destruct (_ && _); [by intros [= ->]|]. case_bool_decide; [apply IH|].
  destruct (_ !! key) as [n|]; [|done]. intros Ht. transitivity (discard_resume_point key s); [done|by eapply IH].
Qed.

Lemma same_trim id keep s s' : trim_resume_points id keep s = Ok s' -> same_but_points s s'.
Proof.
  unfold trim_resume_points, trim_round. intros Ht. py_simpl. etransitivity; by eapply same_trim_loop.
Qed.

Lemma same_save_point s now id p r s' : save_resume_point s now id p = Ok (r, s') -> same_but_points s s'.
Proof.
  unfold save_resume_point. pose proof (same_expire now s) as He.
  destruct (safe_resume_point p) as [checked|]; [|by intros [= _ <-]].
  destruct (negb _); [by intros [= _ <-]|]. destruct (_ <? _); [by intros [= _ <-]|].
  set (s1 := expire_resume_points now s) in *. clearbody s1.
  destruct (dget (id, rp_run_id checked) (s_run_claims s1)); [|by intros [= _ <-]].
  destruct (s_sessions s1 !! id); [|by intros [= _ <-]].
  match goal with |- (if ?b then _ else _) = _ -> _ => destruct b end; [by intros [= _ <-]|].
  intros (s2 & Ht & [= _ <-])%res_bind_Ok. transitivity s1; [done|]. by apply same_trim in Ht as [].
Qed.

Lemma same_get_point s now id run r s' : get_resume_point s now id run = Ok (r, s') -> same_but_points s s'.
Proof.
  unfold get_resume_point. intros Ht. py_simpl. pose proof (same_expire now s) as He.
  repeat (case_match; simplify_eq/=; try done).
Qed.

(** ** Run claims *)
Definition rank (c : claim_state) : Z :=
  match c with claim_active => 0 | claim_finalizing => 1 | claim_abandoned => 2 end.

(** A claim stays with its owner and only moves forward. *)
Definition later_claim (c c' : Claim) : Prop :=
  cl_owner c' = cl_owner c /\ rank (cl_state c) <= rank (cl_state c').

Definition claims_kept (s s' : Store) : Prop :=
  forall key c, dget key (s_run_claims s) = Some c ->
    exists c', dget key (s_run_claims s') = Some c' /\ later_claim c c'.

Lemma claims_kept_same s s' : s_run_claims s' = s_run_claims s -> claims_kept s s'.
Proof. intros Heq key c Hc. rewrite Heq. exists c. done. Qed.

Lemma claims_kept_set s key c' :
  (forall c, dget key (s_run_claims s) = Some c -> later_claim c c') ->
  claims_kept s (with_claims (dset key c' (s_run_claims s)) s).
Proof.
  intros Hc key' c Hget. simpl. rewrite dget_dset. destruct (decide (key' = key)) as [->|]; [|by exists c]. eauto.
Qed.

Lemma claims_kept_claim s now id run owner lease r s' :
  claim_run s now id run owner lease = Ok (r, s') -> claims_kept s s'.
Proof.
  unfold claim_run. intros Hr. py_simpl. destruct (dget _ _) as [prior|] eqn:Hd.
  - repeat (case_match; simplify_eq/=); try (by apply claims_kept_same).
    apply claims_kept_set. intros c Hc. rewrite Hd in Hc. injection Hc as <-. split; [done|]. destruct (cl_state prior); simpl; lia.
  - py_simpl. apply claims_kept_set. congruence.
Qed.

Lemma claims_kept_finalize s now id run owner lease r s' :
  finalize_run s now id run owner lease = Ok (r, s') -> claims_kept s s'.
Proof.
  unfold finalize_run. intros Hr. py_simpl. destruct (dget _ _) as [prior|] eqn:Hd; [|py_simpl; by apply claims_kept_same].
  destruct (_ || _) eqn:Hc; py_simpl; [by apply claims_kept_same|].
  apply claims_kept_set. intros c Hc'. rewrite Hd in Hc'. injection Hc' as <-. split; [done|].
  match goal with Hx : cl_state prior = claim_active |- _ => by rewrite Hx end.
Qed.

(** ** The ways [append] can return *)
Inductive appended (s : Store) (now : Z) (id : SessionIdentity) (eid : string) (ty : TranscriptEventType) (p : json)
    (k : option string) (rev : option Z) (record : SessionRecord) (source : option (string * Z)) (fp : string) :
    TranscriptEvent -> Store -> Prop :=
| ap_replay key e :
    k = Some key -> s_event_idempotency s !! (id, key) = Some (fp, e) ->
    appended s now id eid ty p k rev record source fp e s
| ap_stale ns v e :
    source = Some (ns, v) -> v <= default 0 (sr_memory_source_versions record !! ns) ->
    e ∈ events_of s id -> te_revision e = sr_memory_invalidated_revision record ->
    appended s now id eid ty p k rev record source fp e s
| ap_fresh occurred :
    s_event_ids s !! (id, eid) = None ->
    (forall key, k = Some key -> s_event_idempotency s !! (id, key) = None) ->
    (forall n, rev = Some n -> n = sr_revision record) ->
    Z.of_nat (length (events_of s id)) < max_transcript_events_per_session limits ->
    let e := MkTranscriptEvent id eid (Z.of_nat (length (events_of s id)) + 1) (sr_revision record + 1) ty p occurred k in
    transcript_event e = Ok e ->
    appended s now id eid ty p k rev record source fp e (commit_event s now id record source fp e).

Lemma append_cases s now wall id eid ty p k rev at_ e s' :
  append s now wall id eid ty p k rev at_ = Ok (e, s') ->
  exists record source fp, s_sessions s !! id = Some record /\ append_fingerprint ty p = Ok fp /\
    (if bool_decide (ty = MEMORY_INVALIDATED) then memory_invalidation_source p else Ok None) = Ok source /\
    appended s now id eid ty p k rev record source fp e s'.
Proof.
  unfold append. intros (source & Hsrc & (text & _ & (u & _ & (fp & Hfp & Ha)%res_bind_Ok)%res_bind_Ok)%res_bind_Ok)%res_bind_Ok.
  apply res_bind_Ok in Ha as (record & Hrec & Ha). exists record, source, fp.
  unfold require_session in Hrec. destruct (s_sessions s !! id) as [r|]; [|done]. injection Hrec as ->.
  split_and!; [done..|].
  destruct (match k with None => None | Some key => _ end) as [[prior ev]|] eqn:Hk.
  - destruct k as [key|]; [|done]. py_simpl. by eapply ap_replay.
  - unfold append_new in Ha. destruct (match source with None => false | Some (ns, v) => _ end) eqn:Hst.
    + destruct source as [[ns v]|]; [|done]. destruct (List.find _ _) as [ev|] eqn:Hf; [|done]. injection Ha as -> <-.
      apply List.find_some in Hf as [Hin Hrev]. eapply ap_stale; [done|by apply Z.leb_le|by apply list_elem_of_In|by apply Z.eqb_eq].
    + unfold check_revision in Ha. py_simpl.
      match goal with Hx : transcript_event ?e0 = Ok e |- _ =>
        assert (e = e0) as -> by (unfold transcript_event in Hx; py_simpl; done) end.
      apply ap_fresh; [done| | |by apply Z.ltb_lt|done].
      * by intros key ->.
      * intros n ->. by apply Z.eqb_eq.
Qed.

(** The log after a commit *)
Lemma commit_log s now id record source fp e :
  same_but_points (MkStore
    (<[ id := MkSessionRecord (sr_identity record) (sr_status record) (te_revision e)
          (if bool_decide (te_type e = MEMORY_INVALIDATED) then te_revision e else sr_memory_invalidated_revision record)
          (match source with
           | None => sr_memory_source_versions record
           | Some (namespace, version) => <[ namespace := version ]> (sr_memory_source_versions record)
           end)
          (sr_created_at record) (Z.max (sr_updated_at record) (te_occurred_at e)) ]> (s_sessions s))
    (<[ id := (events_of s id ++ [e])%list ]> (s_events s)) (s_checkpoints s)
    (match te_idempotency_key e with
     | None => s_event_idempotency s
     | Some key => <[ (id, key) := (fp, e) ]> (s_event_idempotency s)
     end)
    (<[ (id, te_event_id e) := e ]> (s_event_ids s)) (s_checkpoint_idempotency s) (s_run_claims s) (s_run_stops s)
    (s_resume_points s) (s_resume_point_bytes s))
  (commit_event s now id record source fp e).
Proof.
  unfold commit_event. destruct (finished_resume_run_id _ _).
  - etransitivity; [|apply same_discard]. apply same_expire.
  - apply same_expire.
Qed.

Lemma append_claims s now wall id eid ty p k rev at_ e s' :
  append s now wall id eid ty p k rev at_ = Ok (e, s') -> s_run_claims s' = s_run_claims s.
Proof.
  intros (record & source & fp & _ & _ & _ & Ha)%append_cases. destruct Ha; [done..|].
  apply (sb_claims _ _ (commit_log s now id record source fp e)).
Qed.

Lemma step_claims s s' : step s s' -> claims_kept s s'.
Proof.
  intros Hs. destruct Hs as [s c u id r s' Hr|s now id run owner lease r s' Hr|s now id run owner lease r s' Hr
    |s now id run r s' Hr|s now id p r s' Hr|s now id run r s' Hr|s now wall id eid ty p k rev at_ r s' Hr
    |s wall id cid st rev k r s' Hr|s wall id st rev r s' Hr].
  - apply claims_kept_same. unfold create in Hr. case_match; py_simpl; done.
  - by eapply claims_kept_claim.
  - by eapply claims_kept_finalize.
  - apply claims_kept_same. unfold request_stop in Hr. py_simpl. repeat (case_match; py_simpl; try done).
  - apply claims_kept_same. by apply same_save_point in Hr as [].
  - apply claims_kept_same. by apply same_get_point in Hr as [].
  - apply claims_kept_same. by eapply append_claims.
  - apply claims_kept_same. unfold save_checkpoint in Hr. py_simpl. repeat (case_match; py_simpl; try done).
  - apply claims_kept_same. unfold set_status in Hr. py_simpl. done.
Qed.

Lemma steps_claims s s' : steps s s' -> claims_kept s s'.
Proof.
  induction 1 as [s|s1 s2 s3 Hs _ IH]; [by apply claims_kept_same|].
  intros key c Hc. destruct (step_claims _ _ Hs key c Hc) as (c2 & Hc2 & Ho2 & Hr2).
  destruct (IH key c2 Hc2) as (c3 & Hc3 & Ho3 & Hr3). exists c3. split; [done|]. split; [congruence|lia].
Qed.

(** ** The log *)

(** What holds of the transcript of one session *)
Record transcript_ok (s : Store) (id : SessionIdentity) (r : SessionRecord) : Prop := {
  to_revision : 0 <= sr_revision r;
  to_numbered : forall i e, events_of s id !! i = Some e -> te_sequence e = Z.of_nat i + 1;
  to_owner : Forall (fun e => te_identity e = id) (events_of s id);
  to_sorted : StronglySorted (fun e e' => te_revision e < te_revision e') (events_of s id);
  to_bound : Forall (fun e => 1 <= te_revision e <= sr_revision r) (events_of s id);
  to_ids : NoDup (te_event_id <$> events_of s id);
  to_index : forall e, e ∈ events_of s id -> s_event_ids s !! (id, te_event_id e) = Some e;
  to_keys : forall k fp e, s_event_idempotency s !! (id, k) = Some (fp, e) ->
    e ∈ events_of s id /\ te_idempotency_key e = Some k;
  to_memory : forall ns v, sr_memory_source_versions r !! ns = Some v ->
    exists e, e ∈ events_of s id /\ te_type e = MEMORY_INVALIDATED /\ te_revision e = sr_memory_invalidated_revision r;
  to_checkpoints : Forall (fun c => 0 <= sc_last_event_sequence c <= Z.of_nat (length (events_of s id)))
    (checkpoints_of s id);
}.

Definition log_ok (s : Store) : Prop :=
  forall id, match s_sessions s !! id with
  | None => events_of s id = [] /\ forall k, s_event_idempotency s !! (id, k) = None
  | Some r => transcript_ok s id r
  end.

(** The log of one session depends on these tables at this session only. *)
Lemma transcript_ok_frame s s' id r :
  events_of s' id = events_of s id -> checkpoints_of s' id = checkpoints_of s id ->
  (forall k, s_event_ids s' !! (id, k) = s_event_ids s !! (id, k)) ->
  (forall k, s_event_idempotency s' !! (id, k) = s_event_idempotency s !! (id, k)) ->
  transcript_ok s id r -> transcript_ok s' id r.
Proof.
  intros He Hc Hi Hk [T0 T1 T2 T3 T4 T5 T6 T7 T8 T9].
  constructor; rewrite ?He, ?Hc; try done.
  - intros e Hin. rewrite Hi. auto.
  - intros k fp e Hx. rewrite Hk in Hx. eauto.
Qed.

Lemma log_ok_same s s' : same_but_points s s' -> log_ok s -> log_ok s'.
Proof.
  intros [S1 S2 S3 S4 S5 S6 _ _] Hlog id. specialize (Hlog id). rewrite S1.
  assert (He : events_of s' id = events_of s id) by (unfold events_of; by rewrite S2).
  destruct (s_sessions s !! id).
  - eapply transcript_ok_frame; [done|unfold checkpoints_of; by rewrite S3|intros; by rewrite S5|intros; by rewrite S4|done].
  - rewrite He. split; [apply Hlog|]. intros k. rewrite S4. apply Hlog.
Qed.

(** A changed record of one session *)
Lemma transcript_ok_record s id r r' :
  sr_revision r <= sr_revision r' -> sr_memory_invalidated_revision r' = sr_memory_invalidated_revision r ->
  sr_memory_source_versions r' = sr_memory_source_versions r -> transcript_ok s id r -> transcript_ok s id r'.
Proof.
  intros Hr Hm Hv [T0 T1 T2 T3 T4 T5 T6 T7 T8 T9]. constructor; rewrite ?Hm, ?Hv; try done; [lia|].
  eapply Forall_impl; [exact T4|]. simpl. lia.
Qed.

(** One more event *)
Lemma numbered_snoc (es : list TranscriptEvent) e :
  (forall i e, es !! i = Some e -> te_sequence e = Z.of_nat i + 1) -> te_sequence e = Z.of_nat (length es) + 1 ->
  forall i x, (es ++ [e])%list !! i = Some x -> te_sequence x = Z.of_nat i + 1.
Proof.
  intros Hes He i x [Hx|[Hge Hx]]%lookup_app_Some; [auto|].
  apply list_lookup_singleton_Some in Hx as [Hi <-]. rewrite He. lia.
Qed.

Lemma sorted_snoc (es : list TranscriptEvent) e n :
  StronglySorted (fun e e' => te_revision e < te_revision e') es ->
  Forall (fun e => 1 <= te_revision e <= n) es -> n < te_revision e ->
  StronglySorted (fun e e' => te_revision e < te_revision e') (es ++ [e]).
Proof.
  intros Hs Hb Hn. induction Hs as [|x es Hs IH Hx]; [repeat constructor|].
  apply Forall_cons in Hb as [Hb1 Hb]. simpl. constructor; [by apply IH|].
  apply Forall_app. split; [done|]. repeat constructor. lia.
Qed.

Lemma log_ok_commit s now id record source fp e :
  log_ok s -> s_sessions s !! id = Some record ->
  te_identity e = id -> te_sequence e = Z.of_nat (length (events_of s id)) + 1 -> te_revision e = sr_revision record + 1 ->
  s_event_ids s !! (id, te_event_id e) = None ->
  (forall ns v, source = Some (ns, v) -> te_type e = MEMORY_INVALIDATED) ->
  log_ok (commit_event s now id record source fp e).
Proof.
  intros Hlog Hrec Hid Hseq Hrev Hfresh Hsrc. eapply log_ok_same; [apply commit_log|]. intros id'.
  match goal with |- match s_sessions ?x !! _ with _ => _ end => set (s1 := x) end.
  assert (He1 : events_of s1 id = (events_of s id ++ [e])%list) by (unfold events_of; simpl; by rewrite lookup_insert_eq).
  simpl s_sessions. destruct (decide (id' = id)) as [->|Hne].
  - rewrite lookup_insert_eq. specialize (Hlog id). rewrite Hrec in Hlog. destruct Hlog as [T0 T1 T2 T3 T4 T5 T6 T7 T8 T9].
    constructor; rewrite ?He1; simpl.
    + lia.
    + by apply numbered_snoc.
    + apply Forall_app. split; [done|by repeat constructor].
    + eapply sorted_snoc; [done|exact T4|lia].
    + apply Forall_app. split; [eapply Forall_impl; [exact T4|]; simpl; lia|]. repeat constructor; lia.
    + rewrite fmap_app. apply NoDup_app. split_and!; [done| |apply NoDup_singleton].
      intros x Hx ->%list_elem_of_singleton. apply list_elem_of_fmap in Hx as (e' & Heq & Hin).
      rewrite Heq, (T6 e' Hin) in Hfresh. done.
    + intros e' [Hin|Hin]%elem_of_app.
      * rewrite lookup_insert_ne; [by apply T6|]. intros [= Heq]. rewrite Heq, (T6 e' Hin) in Hfresh. done.
      * apply list_elem_of_singleton in Hin as ->. apply lookup_insert_eq.
    + intros k fp' e' Hk. destruct (te_idempotency_key e) as [k0|] eqn:Hk0.
      * apply lookup_insert_Some in Hk as [[Hkey [= <- <-]]|[_ Hk]].
        -- split; [apply elem_of_app; right; by apply list_elem_of_singleton|congruence].
        -- destruct (T7 _ _ _ Hk). split; [apply elem_of_app; by left|done].
      * destruct (T7 _ _ _ Hk). split; [apply elem_of_app; by left|done].
    + intros ns v Hv. case_bool_decide as Hty.
      * exists e. split_and!; [apply elem_of_app; right; by apply list_elem_of_singleton|done|done].
      * destruct source as [[ns' v']|]; [by specialize (Hsrc _ _ eq_refl)|].
        destruct (T8 ns v Hv) as (e' & Hin & Ht & Hr). exists e'. split_and!; [apply elem_of_app; by left|done..].
    + eapply Forall_impl; [exact T9|]. simpl. rewrite length_app. simpl. lia.
  - rewrite lookup_insert_ne by done. specialize (Hlog id').
    assert (He : events_of s1 id' = events_of s id') by (unfold events_of; simpl; by rewrite lookup_insert_ne).
    destruct (s_sessions s !! id') as [r'|].
    + eapply transcript_ok_frame; [done|done| | |done]; intros k; simpl.
      * rewrite lookup_insert_ne; [done|]. by intros [= ->].
      * destruct (te_idempotency_key e); [|done]. rewrite lookup_insert_ne; [done|]. by intros [= ->].
    + destruct Hlog as [L1 L2]. split; [by rewrite He|]. intros k. simpl.
      destruct (te_idempotency_key e); [|done]. rewrite lookup_insert_ne; [done|]. by intros [= ->].
Qed.

(** Pruning drops the oldest checkpoints. *)
Lemma prune_suffix id cs idem : exists n, (prune_checkpoints id cs idem).1 = drop n cs.
Proof.
  revert idem. induction cs as [|c cs IH]; intros idem; simpl; [by exists 0%nat|].
  destruct (_ || _); [|by exists 0%nat]. destruct (IH (match idem !! (id, sc_idempotency_key c) with
    | Some (_, prior) => if bool_decide (sc_checkpoint_id prior = sc_checkpoint_id c)
        then delete (id, sc_idempotency_key c) idem else idem
    | None => idem end)) as [n Hn]. by exists (S n).
Qed.

(** A change of one record, its checkpoints and nothing else of the log *)
Lemma log_ok_update s s' id r r' :
  log_ok s -> s_sessions s !! id = Some r -> s_sessions s' = <[ id := r' ]> (s_sessions s) ->
  sr_revision r <= sr_revision r' -> sr_memory_invalidated_revision r' = sr_memory_invalidated_revision r ->
  sr_memory_source_versions r' = sr_memory_source_versions r ->
  s_events s' = s_events s -> s_event_ids s' = s_event_ids s -> s_event_idempotency s' = s_event_idempotency s ->
  (forall id', id' <> id -> checkpoints_of s' id' = checkpoints_of s id') ->
  Forall (fun c => 0 <= sc_last_event_sequence c <= Z.of_nat (length (events_of s id))) (checkpoints_of s' id) ->
  log_ok s'.
Proof.
  intros Hlog Hr Hs Hrev Hm Hv He Hi Hk Hc Hcp id'. specialize (Hlog id'). rewrite Hs.
  assert (Hev : events_of s' id' = events_of s id') by (unfold events_of; by rewrite He).
  destruct (decide (id' = id)) as [->|Hne].
  - rewrite lookup_insert_eq. rewrite Hr in Hlog. apply (transcript_ok_record _ _ r); [done..|].
    destruct Hlog as [T0 T1 T2 T3 T4 T5 T6 T7 T8 T9]. constructor; rewrite ?Hev, ?Hi, ?Hk; done.
  - rewrite lookup_insert_ne by done. destruct (s_sessions s !! id').
    + eapply transcript_ok_frame; [done|by apply Hc|intros; by rewrite Hi|intros; by rewrite Hk|done].
    + rewrite Hev, Hk. done.
Qed.

Lemma log_ok_create s c u id r s' : create s c u id = Ok (r, s') -> log_ok s -> log_ok s'.
Proof.
  unfold create. intros Hr Hlog. destruct (s_sessions s !! id) as [r0|] eqn:Hid; py_simpl; [done|].
  match goal with Hx : session_record _ = Ok r |- _ => unfold session_record in Hx; py_simpl end.
  intros id'. simpl s_sessions. destruct (decide (id' = id)) as [->|Hne].
  - rewrite lookup_insert_eq. specialize (Hlog id). rewrite Hid in Hlog. destruct Hlog as [_ Hk].
    constructor; unfold events_of, checkpoints_of; simpl; rewrite ?lookup_insert_eq; simpl;
      [done|done|constructor|constructor|constructor|constructor| | | |constructor].
    + by intros e Hin%not_elem_of_nil.
    + intros k fp e Hx. by rewrite Hk in Hx.
    + intros ns v Hv. by rewrite lookup_empty in Hv.
  - rewrite lookup_insert_ne by done. specialize (Hlog id').
    destruct (s_sessions s !! id') eqn:Hid'; unfold events_of in *; simpl.
    + eapply transcript_ok_frame; [..|exact Hlog]; try done; unfold events_of, checkpoints_of; simpl; by rewrite lookup_insert_ne.
    + by rewrite lookup_insert_ne.
Qed.

Lemma checkpoint_cases s wall id cid st rev k c s' :
  save_checkpoint s wall id cid st rev k = Ok (c, s') ->
  s' = s \/ exists r r', s_sessions s !! id = Some r /\ s_sessions s' = <[ id := r' ]> (s_sessions s) /\
    rev = sr_revision r /\ sr_revision r' = sr_revision r + 1 /\
    sr_memory_invalidated_revision r' = sr_memory_invalidated_revision r /\
    sr_memory_source_versions r' = sr_memory_source_versions r /\
    s_events s' = s_events s /\ s_event_ids s' = s_event_ids s /\ s_event_idempotency s' = s_event_idempotency s /\
    sc_last_event_sequence c = Z.of_nat (length (events_of s id)) /\
    canonical_len (sc_workflow_state c) <= max_checkpoint_state_bytes limits /\
    exists n, s_checkpoints s' = <[ id := drop n (checkpoints_of s id ++ [c])%list ]> (s_checkpoints s) /\
      (checkpoints_of s' id) = (prune_checkpoints id (checkpoints_of s id ++ [c])%list
         (<[ (id, k) := (sha256_hex (canonical_text st), c) ]> (s_checkpoint_idempotency s))).1.
Proof.
  unfold save_checkpoint, digest, canonical_json. intros Hc. py_simpl. unfold require_session in *.
  destruct (s_sessions s !! id) as [r|] eqn:Hr; [|done]. py_simpl.
  destruct (s_checkpoint_idempotency s !! (id, k)) as [[prior c0]|]; py_simpl; [by left|right].
  match goal with Hx : session_checkpoint _ = Ok _ |- _ => unfold session_checkpoint in Hx; py_simpl end.
  destruct (prune_checkpoints _ _ _) as [cs idem'] eqn:Hp. py_simpl.
  match goal with Hx : prune_checkpoints _ ?cs0 ?i0 = _ |- _ => pose proof (prune_suffix id cs0 i0) as [n Hn]; rewrite Hx in Hn end.
  simpl in Hn. unfold check_revision in *. py_simpl. rewrite Z.eqb_eq, Z.leb_le in *.
  eexists _, _. split_and!; [done|done|done|done..|]. exists n. simpl. split; [done|].
  unfold checkpoints_of at 1. simpl. rewrite lookup_insert_eq. simpl.
  by rewrite Hp.
Qed.

Lemma status_cases s wall id st rev r' s' : set_status s wall id st rev = Ok (r', s') ->
  exists r, s_sessions s !! id = Some r /\ s' = with_sessions (<[ id := r' ]> (s_sessions s)) s /\ rev = sr_revision r /\
    sr_revision r' = sr_revision r + 1 /\ sr_memory_invalidated_revision r' = sr_memory_invalidated_revision r /\
    sr_memory_source_versions r' = sr_memory_source_versions r.
Proof.
  unfold set_status, require_session, check_revision. intros Hs. destruct (s_sessions s !! id) as [r|]; [|done].
  py_simpl. eexists. split_and!; [reflexivity|try done..]. by apply Z.eqb_eq.
Qed.

Lemma stop_frame s now id run r s' : request_stop s now id run = Ok (r, s') ->
  s' = s \/ exists stops, s' = with_stops stops s.
Proof. unfold request_stop. intros Hr. py_simpl. repeat (case_match; py_simpl; eauto). Qed.

Lemma claim_frame s now id run owner lease r s' : claim_run s now id run owner lease = Ok (r, s') ->
  s' = s \/ exists c, s' = with_claims c s.
Proof. unfold claim_run. intros Hr. py_simpl. repeat (case_match; py_simpl; eauto). Qed.

Lemma finalize_frame s now id run owner lease r s' : finalize_run s now id run owner lease = Ok (r, s') ->
  s' = s \/ exists c, s' = with_claims c s.
Proof. unfold finalize_run. intros Hr. py_simpl. repeat (case_match; py_simpl; eauto). Qed.

(** The source of an invalidation is read from invalidation events only. *)
Lemma source_type ty p source ns v :
  (if bool_decide (ty = MEMORY_INVALIDATED) then memory_invalidation_source p else Ok None) = Ok source ->
  source = Some (ns, v) -> ty = MEMORY_INVALIDATED /\ 1 <= v.
Proof.
  intros Hs ->. case_bool_decide as Ht; [|done]. split; [done|].
  unfold memory_invalidation_source in Hs. repeat (case_match; simplify_eq/=; try done).
  py_simpl. by apply Z.leb_le.
Qed.

(** One step keeps the log well-formed and only appends to it. *)
Record log_kept (s s' : Store) : Prop := {
  lk_ok : log_ok s';
  lk_events : forall id, events_of s id `prefix_of` events_of s' id;
  lk_keys : forall key x, s_event_idempotency s !! key = Some x -> s_event_idempotency s' !! key = Some x;
  lk_sessions : forall id r, s_sessions s !! id = Some r ->
    exists r', s_sessions s' !! id = Some r' /\ sr_revision r <= sr_revision r';
}.

Lemma log_kept_same s s' : log_ok s -> same_but_points s s' -> log_kept s s'.
Proof.
  intros Hlog Hs. pose proof (log_ok_same _ _ Hs Hlog). destruct Hs as [S1 S2 S3 S4 S5 S6 _ _].
  constructor; [done|intros id; unfold events_of; by rewrite S2|by rewrite S4|rewrite S1; eauto with lia].
Qed.

Lemma log_kept_refl s : log_ok s -> log_kept s s.
Proof. intros Hlog. by apply log_kept_same. Qed.

(** Tables other than the log do not matter. *)
Lemma log_kept_frame s s' :
  log_ok s -> s_sessions s' = s_sessions s -> s_events s' = s_events s -> s_checkpoints s' = s_checkpoints s ->
  s_event_ids s' = s_event_ids s -> s_event_idempotency s' = s_event_idempotency s -> log_kept s s'.
Proof.
  intros Hlog S1 S2 S3 S4 S5. constructor.
  - intros id. specialize (Hlog id). rewrite S1. destruct (s_sessions s !! id).
    + eapply transcript_ok_frame; [unfold events_of; by rewrite S2|unfold checkpoints_of; by rewrite S3
        |intros; by rewrite S4|intros; by rewrite S5|done].
    + unfold events_of in *. by rewrite S2, S5.
  - intros id. unfold events_of. by rewrite S2.
  - by rewrite S5.
  - rewrite S1. eauto with lia.
Qed.

Lemma log_kept_create s c u id r s' : log_ok s -> create s c u id = Ok (r, s') -> log_kept s s'.
Proof.
  intros Hlog Hr. pose proof (log_ok_create _ _ _ _ _ _ Hr Hlog) as Hlog'. unfold create in Hr.
  destruct (s_sessions s !! id) as [r0|] eqn:Hid; py_simpl; [by apply log_kept_refl|].
  specialize (Hlog id). rewrite Hid in Hlog. destruct Hlog as [Hev _]. constructor; [done| |done|].
  - intros id'. unfold events_of at 2. simpl. destruct (decide (id' = id)) as [->|Hne].
    + rewrite Hev. apply prefix_nil.
    + by rewrite lookup_insert_ne.
  - intros id' r' Hr'. simpl. destruct (decide (id' = id)) as [->|Hne]; [congruence|].
    rewrite lookup_insert_ne by done. eauto with lia.
Qed.

Lemma log_kept_append s now wall id eid ty p k rev at_ e s' :
  log_ok s -> append s now wall id eid ty p k rev at_ = Ok (e, s') -> log_kept s s'.
Proof.
  intros Hlog (record & source & fp & Hrec & Hfp & Hsrc & Ha)%append_cases.
  destruct Ha as [key e _ _|ns v e _ _ _ _|occurred Hid Hk Hrev Hcap e He]; [by apply log_kept_refl..|].
  pose proof (commit_log s now id record source fp e) as [C1 C2 C3 C4 C5 _ _ _]. simpl in C1, C2, C4.
  constructor.
  - apply log_ok_commit; [done|done|done|done|done|done|]. intros ns v Hs. by eapply source_type.
  - intros id'. unfold events_of at 2. rewrite C2. destruct (decide (id' = id)) as [->|Hne].
    + rewrite lookup_insert_eq. simpl. by apply prefix_app_r.
    + by rewrite lookup_insert_ne.
  - intros key x Hx. rewrite C4. destruct k as [k|]; [|done]. rewrite lookup_insert_ne; [done|].
    intros <-. by rewrite (Hk k eq_refl) in Hx.
  - intros id' r' Hr'. rewrite C1. destruct (decide (id' = id)) as [->|Hne].
    + rewrite lookup_insert_eq. eexists. split; [done|]. simplify_eq. simpl. lia.
    + rewrite lookup_insert_ne by done. eauto with lia.
Qed.

Lemma log_kept_checkpoint s wall id cid st rev k c s' :
  log_ok s -> save_checkpoint s wall id cid st rev k = Ok (c, s') -> log_kept s s'.
Proof.
  intros Hlog [->|(r & r' & Hr & Hs & _ & Hrev & Hm & Hv & He & Hi & Hk & Hseq & _ & n & Hc & _)]%checkpoint_cases;
    [by apply log_kept_refl|]. constructor.
  - eapply log_ok_update; [done|done|done|lia|done..| |].
    + intros id' Hne. unfold checkpoints_of. by rewrite Hc, lookup_insert_ne.
    + unfold checkpoints_of at 1. rewrite Hc, lookup_insert_eq. simpl. apply Forall_drop, Forall_app.
      specialize (Hlog id). rewrite Hr in Hlog. split; [apply Hlog|]. repeat constructor; lia.
  - intros id'. unfold events_of. by rewrite He.
  - by rewrite Hk.
  - intros id' r0 Hr0. rewrite Hs. destruct (decide (id' = id)) as [->|Hne].
    + rewrite lookup_insert_eq. exists r'. split; [done|]. simplify_eq. lia.
    + rewrite lookup_insert_ne by done. eauto with lia.
Qed.

Lemma log_kept_status s wall id st rev r s' : log_ok s -> set_status s wall id st rev = Ok (r, s') -> log_kept s s'.
Proof.
  intros Hlog (r0 & Hr & -> & _ & Hrev & Hm & Hv)%status_cases. constructor.
  - eapply log_ok_update; [done|done|done|lia|done..|]. specialize (Hlog id). rewrite Hr in Hlog. apply Hlog.
  - done.
  - done.
  - intros id' r1 Hr1. simpl. destruct (decide (id' = id)) as [->|Hne].
    + rewrite lookup_insert_eq. exists r. split; [done|]. simplify_eq. lia.
    + rewrite lookup_insert_ne by done. eauto with lia.
Qed.

Lemma step_log s s' : log_ok s -> step s s' -> log_kept s s'.
Proof.
  intros Hlog Hs. destruct Hs as [s c u id r s' Hr|s now id run owner lease r s' Hr|s now id run owner lease r s' Hr
    |s now id run r s' Hr|s now id p r s' Hr|s now id run r s' Hr|s now wall id eid ty p k rev at_ r s' Hr
    |s wall id cid st rev k r s' Hr|s wall id st rev r s' Hr].
  - by eapply log_kept_create.
  - apply claim_frame in Hr as [->|[c ->]]; by apply log_kept_frame.
  - apply finalize_frame in Hr as [->|[c ->]]; by apply log_kept_frame.
  - apply stop_frame in Hr as [->|[c ->]]; by apply log_kept_frame.
  - apply log_kept_same; [done|]. by eapply same_save_point.
  - apply log_kept_same; [done|]. by eapply same_get_point.
  - by eapply log_kept_append.
  - by eapply log_kept_checkpoint.
  - by eapply log_kept_status.
Qed.

Lemma steps_log s s' : log_ok s -> steps s s' -> log_kept s s'.
Proof.
  intros Hlog Hs. induction Hs as [s|s1 s2 s3 Hs _ IH]; [by apply log_kept_refl|].
  destruct (step_log _ _ Hlog Hs) as [L1 L2 L3 L4]. destruct (IH L1) as [K1 K2 K3 K4]. constructor.
  - done.
  - intros id. etransitivity; [apply L2|apply K2].
  - eauto.
  - intros id r Hr. destruct (L4 id r Hr) as (r2 & Hr2 & Hle). destruct (K4 id r2 Hr2) as (r3 & Hr3 & Hle3). eauto with lia.
Qed.

Lemma reachable_log s : reachable s -> log_ok s.
Proof.
  intros Hs. apply (steps_log empty s); [|done]. intros id. simpl. rewrite lookup_empty. split; [done|].
  intros k. apply lookup_empty.
Qed.
End Store.
End Sessions.
