(* ===== verification/SessionProps.v ===== *)
(** * What the session store guarantees

    Properties of every history of the in-memory session store: run claims,
    the transcript, idempotency keys, memory invalidation, checkpoints and the
    bounded cache of resume points. *)
From S2P Require Import Prelude PyText Json ExecModels SessionModels Sessions.
Open Scope string_scope.
Open Scope Z_scope.

Module SessionProps.
Export Sessions.

(** ** The cache of resume points *)
Section Cache.
Context `{Hashing} `{SessionCodec} (limits : SessionStoreLimits).

(** Keys of one session, or of all *)
Definition in_scope (scope : option SessionIdentity) (key : Key) : bool :=
  match scope with None => true | Some identity => bool_decide (key.1 = identity) end.

Definition scoped (scope : option SessionIdentity) (s : Store) : list Key :=
  List.filter (in_scope scope) (s_resume_points s).*1.

Definition weight (s : Store) (key : Key) : Z := default 0 (s_resume_point_bytes s !! key).
Definition weigh (s : Store) (keys : list Key) : Z := foldr (fun key n => weight s key + n) 0 keys.

(** The two tables agree and every point is within the point limit. *)
Record points_ok (s : Store) : Prop := {
  po_keys : NoDup (s_resume_points s).*1;
  po_bytes : forall key, key ∈ (s_resume_points s).*1 <-> is_Some (s_resume_point_bytes s !! key);
  po_weight : forall key n, s_resume_point_bytes s !! key = Some n -> 0 <= n <= max_resume_point_bytes limits;
}.

(** What a scope may hold *)
Definition max_count (scope : option SessionIdentity) : Z :=
  match scope with Some _ => max_resume_points_per_session limits | None => max_resume_points_total limits end.
Definition max_bytes (scope : option SessionIdentity) : Z :=
  match scope with Some _ => max_resume_bytes_per_session limits | None => max_resume_bytes_total limits end.
Definition fits (scope : option SessionIdentity) (s : Store) : Prop :=
  Z.of_nat (length (scoped scope s)) <= max_count scope /\ weigh s (scoped scope s) <= max_bytes scope.

Definition cache_ok (s : Store) : Prop := points_ok s /\ forall scope, fits scope s.

Lemma dpop_keys key (d : dict Key RunResumePoint) :
  NoDup d.*1 -> (dpop key d).*1 = List.filter (fun k => negb (bool_decide (k = key))) d.*1.
Proof.
  induction d as [|[k v] d IH]; csimpl; [done|]. intros [Hk Hnd]%NoDup_cons. destruct (decide (key = k)) as [->|Hne]; csimpl.
  - rewrite bool_decide_true by done. simpl. symmetry. clear -Hk. induction (d.*1) as [|x l IH]; [done|].
    apply not_elem_of_cons in Hk as [Hx Hl]. simpl. rewrite bool_decide_false by done. simpl. by rewrite IH.
  - rewrite bool_decide_false by done. simpl. by rewrite IH.
Qed.

Lemma points_ok_discard key s : points_ok s -> points_ok (discard_resume_point key s).
Proof.
  intros [P1 P2 P3]. constructor; simpl.
  - by apply dpop_NoDup.
  - intros k. rewrite dpop_keys by done. rewrite list_elem_of_In, List.filter_In, <- list_elem_of_In, (P2 k).
    destruct (decide (k = key)) as [->|Hne].
    + rewrite lookup_delete_eq, bool_decide_true by done. split; [by intros [_ ?]|by intros [? ?]].
    + rewrite lookup_delete_ne, bool_decide_false by done. simpl. tauto.
  - intros k n [_ Hk]%lookup_delete_Some. eauto.
Qed.

Lemma weigh_perm s keys keys' : keys ≡ₚ keys' -> weigh s keys = weigh s keys'.
Proof. induction 1; simpl in *; lia. Qed.

Lemma weigh_ext s s' keys : (forall k, k ∈ keys -> weight s' k = weight s k) -> weigh s' keys = weigh s keys.
Proof.
  induction keys as [|k keys IH]; intros Hk; simpl; [done|]. rewrite Hk by (by left). rewrite IH; [done|].
  intros k' Hin. apply Hk. by right.
Qed.

Lemma weight_nonneg s key : points_ok s -> 0 <= weight s key.
Proof.
  intros Hok. unfold weight. destruct (_ !! key) as [n|] eqn:Hn; simpl; [|done]. by apply (po_weight _ Hok key n).
Qed.

Lemma weigh_nonneg s keys : points_ok s -> 0 <= weigh s keys.
Proof. intros Hok. induction keys as [|k keys IH]; simpl; [done|]. pose proof (weight_nonneg s k Hok). lia. Qed.

(** Discarding a key of the scope takes it out of the scope. *)
Lemma scoped_discard scope key s :
  points_ok s -> key ∈ scoped scope s ->
  scoped scope s ≡ₚ key :: scoped scope (discard_resume_point key s) /\
  weigh (discard_resume_point key s) (scoped scope (discard_resume_point key s)) = weigh s (scoped scope s) - weight s key.
Proof.
  intros Hok Hin. assert (Hsc : scoped scope (discard_resume_point key s) =
    List.filter (fun k => negb (bool_decide (k = key))) (scoped scope s)).
  { unfold scoped. simpl. rewrite dpop_keys by apply Hok. clear. induction ((s_resume_points s).*1) as [|k l IH]; [done|].
    simpl. destruct (negb _) eqn:H1, (in_scope scope k) eqn:H2; simpl; rewrite ?H1, ?H2; by rewrite ?IH. }
  assert (Hnd : NoDup (scoped scope s)).
  { unfold scoped. apply NoDup_ListNoDup, List.NoDup_filter, NoDup_ListNoDup, Hok. }
  assert (Hp : scoped scope s ≡ₚ key :: scoped scope (discard_resume_point key s)).
  { rewrite Hsc. clear Hsc Hok. induction (scoped scope s) as [|k l IH]; [by apply not_elem_of_nil in Hin|].
    apply NoDup_cons in Hnd as [Hk Hnd]. simpl. destruct (decide (k = key)) as [->|Hne].
    - rewrite bool_decide_true by done. simpl. constructor. clear -Hk. induction l as [|x l IH]; [done|].
      apply not_elem_of_cons in Hk as [Hx Hl]. simpl. rewrite bool_decide_false by done. simpl. by rewrite <- IH.
    - rewrite bool_decide_false by done. simpl. apply elem_of_cons in Hin as [->|Hin]; [done|].
      rewrite (IH Hin Hnd) at 1. apply Permutation_swap. }
  split; [done|]. rewrite (weigh_perm s _ _ Hp). simpl.
  rewrite (weigh_ext s (discard_resume_point key s)); [lia|]. intros k Hk. unfold weight. simpl.
  rewrite lookup_delete_ne; [done|]. intros <-. rewrite Hsc in Hk.
  apply list_elem_of_In, List.filter_In in Hk as [_ Hk]. by rewrite bool_decide_true in Hk.
Qed.

(** Discarding never grows a scope. *)
Lemma scoped_shrinks scope key s : points_ok s ->
  (length (scoped scope (discard_resume_point key s)) <= length (scoped scope s))%nat /\
  weigh (discard_resume_point key s) (scoped scope (discard_resume_point key s)) <= weigh s (scoped scope s).
Proof.
  intros Hok. destruct (decide (key ∈ scoped scope s)) as [Hin|Hout].
  - destruct (scoped_discard scope key s Hok Hin) as [Hp Hw]. pose proof (weight_nonneg s key Hok).
    apply Permutation_length in Hp. simpl in Hp. split; lia.
  - assert (Hsc : scoped scope (discard_resume_point key s) = scoped scope s).
    { unfold scoped in *. simpl. rewrite dpop_keys by apply Hok. clear -Hout.
      induction ((s_resume_points s).*1) as [|k l IH]; [done|]. simpl in *. destruct (in_scope scope k) eqn:Hk.
      - apply not_elem_of_cons in Hout as [Hne Hout]. rewrite bool_decide_false by done. simpl. rewrite Hk. by rewrite IH.
      - destruct (negb _); simpl; rewrite ?Hk; by apply IH. }
    rewrite Hsc. split; [done|]. rewrite (weigh_ext s); [done|]. intros k Hk. unfold weight. simpl.
    rewrite lookup_delete_ne; [done|]. by intros <-.
Qed.

Lemma fits_discard scope key s : points_ok s -> fits scope s -> fits scope (discard_resume_point key s).
Proof. intros Hok [F1 F2]. destruct (scoped_shrinks scope key s Hok). split; lia. Qed.

Lemma cache_ok_discard key s : cache_ok s -> cache_ok (discard_resume_point key s).
Proof. intros [Hok Hf]. split; [by apply points_ok_discard|]. intros scope. by apply fits_discard. Qed.

Lemma cache_ok_expire now s : cache_ok s -> cache_ok (expire_resume_points now s).
Proof.
  unfold expire_resume_points. generalize (omap (fun kp : Key * RunResumePoint =>
    if RESUME_POINT_TTL <=? now - rp_created_at kp.2 then Some kp.1 else None) (s_resume_points s)).
  intros keys. revert s. induction keys as [|key keys IH]; intros s Hs; [done|]. by apply IH, cache_ok_discard.
Qed.

(** ** Trimming *)
Lemma insert_by_age_perm kp l : insert_by_age kp l ≡ₚ kp :: l.
Proof.
  induction l as [|x l IH]; simpl; [done|]. destruct (_ <=? _); [done|]. rewrite IH. apply Permutation_swap.
Qed.

Lemma sort_by_age_perm l : sort_by_age l ≡ₚ l.
Proof. induction l as [|x l IH]; simpl; [done|]. by rewrite insert_by_age_perm, IH. Qed.

Lemma round_keys scope s :
  (sort_by_age (List.filter (fun kp : Key * RunResumePoint =>
     match scope with None => true | Some identity => bool_decide (kp.1.1 = identity) end) (s_resume_points s))).*1
  ≡ₚ scoped scope s.
Proof.
  rewrite sort_by_age_perm. unfold scoped. induction (s_resume_points s) as [|[k v] l IH]; [done|].
  csimpl. unfold in_scope at 1. destruct scope as [id|]; [case_bool_decide|]; csimpl; by rewrite IH.
Qed.

Lemma sum_bytes_Ok s keys : points_ok s -> Forall (fun k => k ∈ (s_resume_points s).*1) keys ->
  sum_bytes (s_resume_point_bytes s) keys = Ok (weigh s keys).
Proof.
  intros Hok. induction 1 as [|k keys Hk _ IH]; simpl; [done|].
  apply (po_bytes _ Hok) in Hk as [n Hn]. unfold weight. rewrite Hn, IH. done.
Qed.

(** The loop keeps [keep] and ends within the limits. *)
Lemma trim_loop_Ok scope keep keys : forall s,
  points_ok s -> NoDup keys -> Forall (fun k => k ∈ scoped scope s) keys ->
  Forall (fun k => k = keep \/ k ∈ keys) (scoped scope s) ->
  1 <= max_count scope -> 0 <= max_resume_point_bytes limits <= max_bytes scope ->
  exists s', trim_loop keep (max_count scope) (max_bytes scope) (Z.of_nat (length (scoped scope s)))
      (weigh s (scoped scope s)) keys s = Ok s' /\
    points_ok s' /\ fits scope s' /\ (forall sc, fits sc s -> fits sc s') /\
    dget keep (s_resume_points s') = dget keep (s_resume_points s).
Proof.
  induction keys as [|key keys IH]; intros s Hok Hnd Hin Hall Hc Hb; simpl.
  - exists s. split_and!; try done.
    assert (Hone : scoped scope s = [] \/ scoped scope s = [keep]).
    { assert (Hnd' : NoDup (scoped scope s)).
      { unfold scoped. apply NoDup_ListNoDup, List.NoDup_filter, NoDup_ListNoDup, Hok. }
      destruct (scoped scope s) as [|a [|b l]]; [by left| |].
      - apply Forall_singleton in Hall as [->|Hx]; [by right|by apply not_elem_of_nil in Hx].
      - exfalso. apply Forall_cons in Hall as [[->|Ha] Hall]; [|by apply not_elem_of_nil in Ha].
        apply Forall_cons in Hall as [[->|Hb'] _]; [|by apply not_elem_of_nil in Hb'].
        apply NoDup_cons in Hnd' as [Hk _]. apply Hk. by left. }
    assert (weight s keep <= max_resume_point_bytes limits).
    { unfold weight. destruct (_ !! keep) as [n|] eqn:Hn; simpl; [|lia]. pose proof (po_weight _ Hok keep n Hn). lia. }
    unfold fits. destruct Hone as [-> | ->]; simpl; lia.
  - destruct ((Z.of_nat _ <=? _) && _) eqn:Hfit.
    { exists s. apply andb_true_iff in Hfit as [F1 F2]. rewrite Z.leb_le in *. by split_and!. }
    apply NoDup_cons in Hnd as [Hk Hnd]. apply Forall_cons in Hin as [Hkey Hin]. case_bool_decide as Heq.
    { apply IH; try done. eapply Forall_impl; [exact Hall|]. simpl. intros x [->|[->|Hx]%elem_of_cons]; auto. }
    assert (Hpt : key ∈ (s_resume_points s).*1).
    { unfold scoped in Hkey. by apply list_elem_of_In, List.filter_In in Hkey as [Hkey%list_elem_of_In _]. }
    destruct (proj1 (po_bytes _ Hok key) Hpt) as [n Hn]. rewrite Hn.
    destruct (scoped_discard scope key s Hok Hkey) as [Hp Hw].
    assert (Hlen : Z.of_nat (length (scoped scope s)) - 1 = Z.of_nat (length (scoped scope (discard_resume_point key s)))).
    { apply Permutation_length in Hp. simpl in Hp. lia. }
    assert (Hwt : weight s key = n) by (unfold weight; by rewrite Hn).
    rewrite Hlen, <- Hwt, <- Hw.
    destruct (IH (discard_resume_point key s)) as (s' & Ht & Hok' & Hfits & Hmono & Hkeep); try done.
    + by apply points_ok_discard.
    + rewrite Forall_forall in *. intros x Hx. specialize (Hin x Hx). rewrite Hp in Hin.
      apply elem_of_cons in Hin as [->|Hin]; done.
    + rewrite Forall_forall in *. intros x Hx.
      assert (x <> key) as Hne.
      { intros ->. assert (NoDup (scoped scope s)) as Hnd'.
        { unfold scoped. apply NoDup_ListNoDup, List.NoDup_filter, NoDup_ListNoDup, Hok. }
        rewrite Hp in Hnd'. by apply NoDup_cons in Hnd' as [? _]. }
      destruct (Hall x) as [->|[->|Hx']%elem_of_cons]; auto; [|done]. rewrite Hp. by right.
    + exists s'. split_and!; try done.
      * intros sc Hsc. by apply Hmono, fits_discard.
      * rewrite Hkeep. simpl. rewrite dget_dpop by apply Hok. by rewrite decide_False.
Qed.

Lemma trim_round_Ok scope keep s :
  points_ok s -> 1 <= max_count scope -> 0 <= max_resume_point_bytes limits <= max_bytes scope ->
  exists s', trim_round scope (max_count scope) (max_bytes scope) keep s = Ok s' /\
    points_ok s' /\ fits scope s' /\ (forall sc, fits sc s -> fits sc s') /\
    dget keep (s_resume_points s') = dget keep (s_resume_points s).
Proof.
  intros Hok Hc Hb. unfold trim_round. pose proof (round_keys scope s) as Hp.
  set (keys := _.*1) in *. clearbody keys. assert (Hnd : NoDup keys).
  { rewrite Hp. unfold scoped. apply NoDup_ListNoDup, List.NoDup_filter, NoDup_ListNoDup, Hok. }
  assert (Hin : Forall (fun k => k ∈ scoped scope s) keys) by (apply Forall_forall; intros k; by rewrite Hp).
  rewrite (sum_bytes_Ok s keys Hok). 2:{ eapply Forall_impl; [exact Hin|]. intros k Hk. unfold scoped in Hk.
    by apply list_elem_of_In, List.filter_In in Hk as [Hk%list_elem_of_In _]. }
  simpl. rewrite (weigh_perm s _ _ Hp). replace (length keys) with (length (scoped scope s)) by (by rewrite Hp).
  apply trim_loop_Ok; try done. apply Forall_forall. intros k Hk. right. by rewrite Hp.
Qed.

(** What validated limits give *)
Lemma limits_facts : session_store_limits limits = Ok limits ->
  (forall scope, 1 <= max_count scope /\ 0 <= max_resume_point_bytes limits <= max_bytes scope) /\
  1 <= max_checkpoints_per_session limits /\
  max_checkpoint_state_bytes limits <= max_checkpoint_bytes_per_session limits.
Proof.
  unfold session_store_limits, within. intros Hl. py_simpl. rewrite Z.leb_le in *.
  split_and!; [|lia..]. intros [id|]; simpl; lia.
Qed.

Context (Hlimits : session_store_limits limits = Ok limits).

Lemma trim_resume_points_Ok id key s :
  points_ok s -> (forall sc, sc <> None -> sc <> Some id -> fits sc s) ->
  exists s', trim_resume_points limits id key s = Ok s' /\ cache_ok s' /\
    dget key (s_resume_points s') = dget key (s_resume_points s).
Proof.
  intros Hok Hother. destruct (limits_facts Hlimits) as [Hsc _].
  destruct (trim_round_Ok (Some id) key s Hok) as (s1 & H1 & Hok1 & F1 & M1 & K1); [apply Hsc..|].
  destruct (trim_round_Ok None key s1 Hok1) as (s2 & H2 & Hok2 & F2 & M2 & K2); [apply Hsc..|].
  exists s2. unfold trim_resume_points. simpl in H1, H2. rewrite H1. simpl. split_and!; [done| |congruence].
  split; [done|]. intros [id'|]; [|done]. apply M2. destruct (decide (id' = id)) as [->|Hne]; [done|].
  apply M1, Hother; [done|congruence].
Qed.

(** Storing a point keeps the tables in step and touches its own session only. *)
Lemma points_ok_set key point n s :
  points_ok s -> 0 <= n <= max_resume_point_bytes limits ->
  let s' := with_resume (dset key point (s_resume_points s)) (<[ key := n ]> (s_resume_point_bytes s)) s in
  points_ok s' /\ forall sc, sc <> None -> sc <> Some key.1 -> fits sc s -> fits sc s'.
Proof.
  intros [P1 P2 P3] Hn s'. split.
  - constructor; simpl.
    + by apply dset_NoDup.
    + intros k. rewrite dset_keys. destruct (decide (k = key)) as [->|Hne].
      * rewrite lookup_insert_eq. split; [intros _; by eexists|]. intros _. case_decide; [done|]. apply elem_of_app. right. by left.
      * rewrite lookup_insert_ne by done. rewrite <- P2. case_decide; [reflexivity|].
        rewrite elem_of_app, list_elem_of_singleton. naive_solver.
    + intros k m [[<- <-]|[_ Hm]]%lookup_insert_Some; [done|eauto].
  - intros [id|] Hnone Hid [F1 F2]; [|done]. assert (Hne : key.1 <> id) by congruence.
    assert (Hsc : scoped (Some id) s' = scoped (Some id) s).
    { unfold scoped. simpl. rewrite dset_keys. case_decide; [done|]. rewrite List.filter_app. simpl.
      rewrite bool_decide_false by done. by rewrite app_nil_r. }
    split; rewrite Hsc; [done|]. rewrite (weigh_ext s s'); [done|]. intros k Hk. unfold weight. simpl.
    rewrite lookup_insert_ne; [done|]. intros <-. unfold scoped in Hk. apply list_elem_of_In, List.filter_In in Hk as [_ Hk].
    simpl in Hk. by apply bool_decide_eq_true_1 in Hk.
Qed.

(** [save_resume_point] always returns, within the limits, and keeps the point
    it reports as saved. *)
Lemma save_point_Ok s now id p : cache_ok s ->
  exists r s', save_resume_point limits s now id p = Ok (r, s') /\ cache_ok s' /\
    (forall q, r = Some q -> dget (id, rp_run_id q) (s_resume_points s') = Some q).
Proof.
  intros Hs. unfold save_resume_point. pose proof (cache_ok_expire now s Hs) as He.
  destruct (safe_resume_point p) as [checked|]; [|by exists None, s].
  destruct (negb _); [by exists None, s|]. destruct (_ <? _) eqn:Hsize; [by exists None, s|].
  set (s1 := expire_resume_points now s) in *. clearbody s1.
  destruct (dget (id, rp_run_id checked) (s_run_claims s1)); [|by exists None, s1].
  destruct (s_sessions s1 !! id); [|by exists None, s1].
  match goal with |- context [if ?b then _ else _] => destruct b end; [by exists None, s1|].
  destruct He as [Hok1 Hf1].
  destruct (points_ok_set (id, rp_run_id checked) checked (byte_len (model_dump_json checked)) s1 Hok1) as [Hok2 Hf2].
  { apply Z.ltb_ge in Hsize. unfold byte_len in *. lia. }
  destruct (trim_resume_points_Ok id (id, rp_run_id checked) _ Hok2) as (s2 & Ht & Hc & Hk).
  { intros sc H1 H2. apply Hf2; [done..|apply Hf1]. }
  rewrite Ht. simpl. exists (Some checked), s2. split_and!; [done..|]. intros q [= <-]. rewrite Hk. simpl.
  rewrite dget_dset. by rewrite decide_True.
Qed.

Lemma cache_ok_frame s s' :
  s_resume_points s' = s_resume_points s -> s_resume_point_bytes s' = s_resume_point_bytes s -> cache_ok s -> cache_ok s'.
Proof.
  intros Hp Hb [[P1 P2 P3] Hf]. split; [constructor; by rewrite ?Hp, ?Hb|]. intros scope. specialize (Hf scope).
  unfold fits, scoped in *. rewrite Hp. destruct Hf as [F1 F2]. split; [done|].
  rewrite (weigh_ext s s'); [done|]. intros k _. unfold weight. by rewrite Hb.
Qed.

Lemma cache_ok_commit s now id record source fp e :
  cache_ok s -> cache_ok (commit_event s now id record source fp e).
Proof.
  intros Hs. unfold commit_event. match goal with |- context [expire_resume_points now ?x] => set (s1 := x) end.
  assert (cache_ok (expire_resume_points now s1)) by (apply cache_ok_expire; by apply (cache_ok_frame s)).
  destruct (finished_resume_run_id _ _); [by apply cache_ok_discard|done].
Qed.

Lemma step_cache s s' : cache_ok s -> step limits s s' -> cache_ok s'.
Proof.
  intros Hs Hstep. destruct Hstep as [s c u id r s' Hr|s now id run owner lease r s' Hr|s now id run owner lease r s' Hr
    |s now id run r s' Hr|s now id p r s' Hr|s now id run r s' Hr|s now wall id eid ty p k rev at_ r s' Hr
    |s wall id cid st rev k r s' Hr|s wall id st rev r s' Hr].
  - unfold create in Hr. case_match; py_simpl; [done|by apply (cache_ok_frame s)].
  - apply claim_frame in Hr as [->|[c ->]]; [done|by apply (cache_ok_frame s)].
  - apply finalize_frame in Hr as [->|[c ->]]; [done|by apply (cache_ok_frame s)].
  - apply stop_frame in Hr as [->|[c ->]]; [done|by apply (cache_ok_frame s)].
  - destruct (save_point_Ok s now id p Hs) as (r' & s2 & Hp & Hc & _). rewrite Hr in Hp. by injection Hp as <- <-.
  - unfold get_resume_point in Hr. py_simpl. repeat (case_match; simplify_eq/=); by apply cache_ok_expire.
  - apply append_cases in Hr as (record & source & fp & _ & _ & _ & Ha). destruct Ha; [done..|]. by apply cache_ok_commit.
  - unfold save_checkpoint in Hr. py_simpl. repeat (case_match; py_simpl; try done); by apply (cache_ok_frame s).
  - apply status_cases in Hr as (r0 & _ & -> & _). by apply (cache_ok_frame s).
Qed.

Lemma reachable_cache s : reachable limits s -> cache_ok s.
Proof.
  assert (Hgen : forall s0 s1, cache_ok s0 -> steps limits s0 s1 -> cache_ok s1).
  { intros s0 s1 H1 H2. induction H2 as [|s1 s2 s3 Hstep _ IH]; [done|]. apply IH. by eapply step_cache. }
  intros Hs. apply (Hgen empty); [|done]. destruct (limits_facts Hlimits) as [Hl _]. split.
  - constructor; simpl; [constructor| |].
    + intros key. rewrite lookup_empty. split; [by intros ?%not_elem_of_nil|by intros []].
    + intros key n. by rewrite lookup_empty.
  - intros scope. destruct (Hl scope). unfold fits, scoped. simpl. lia.
Qed.
End Cache.

(** ** Checkpoints *)
Section Checkpoints.
Context `{Hashing} `{SessionCodec} (limits : SessionStoreLimits).

Lemma retained_nonneg cs : 0 <= retained_bytes cs.
Proof. induction cs; simpl; [done|]. unfold canonical_len, byte_len. lia. Qed.

(** Pruning ends within the limits and keeps the newest checkpoint. *)
Lemma prune_bounds id cs idem c :
  1 <= max_checkpoints_per_session limits ->
  canonical_len (sc_workflow_state c) <= max_checkpoint_bytes_per_session limits ->
  let kept := (prune_checkpoints limits id (cs ++ [c]) idem).1 in
  last kept = Some c /\ Z.of_nat (length kept) <= max_checkpoints_per_session limits /\
  retained_bytes kept <= max_checkpoint_bytes_per_session limits.
Proof.
  intros Hn Hb. revert idem. induction cs as [|x cs IH]; intros idem.
  - simpl. rewrite Z.add_0_r. rewrite !(proj2 (Z.ltb_ge _ _)) by lia. simpl. split_and!; [done|lia|lia].
  - change ((x :: cs) ++ [c])%list with (x :: (cs ++ [c]))%list. unfold prune_checkpoints. fold (prune_checkpoints limits).
    destruct (_ || _) eqn:Hover; [apply IH|]. apply orb_false_iff in Hover as [H1 H2].
    apply Z.ltb_ge in H1, H2. simpl fst. split_and!; [|done|done].
    change (x :: (cs ++ [c]))%list with ((x :: cs) ++ [c])%list. apply last_snoc.
Qed.
End Checkpoints.

(** In a contiguous transcript, a filter on the sequence is a suffix. *)
Lemma filter_after (es : list TranscriptEvent) after n :
  (forall i e, es !! i = Some e -> te_sequence e = Z.of_nat i + 1) -> after = Z.of_nat n ->
  List.filter (fun e => after <? te_sequence e) es = drop n es.
Proof.
  intros Hn ->. assert (Hgen : forall k, (forall i e, es !! i = Some e -> te_sequence e = Z.of_nat (k + i) + 1) ->
    List.filter (fun e => Z.of_nat n <? te_sequence e) es = drop (n - k) es); [|rewrite (Hgen 0%nat) by done; by rewrite Nat.sub_0_r].
  clear Hn. induction es as [|e es IH]; intros k Hk; simpl; [by rewrite drop_nil|].
  pose proof (Hk 0%nat e eq_refl) as He.
  assert (Hes : List.filter (fun e => Z.of_nat n <? te_sequence e) es = drop (n - S k) es).
  { apply IH. intros i x Hx. specialize (Hk (S i) x Hx). lia. }
  rewrite Hes. destruct (Z.ltb_spec (Z.of_nat n) (te_sequence e)).
  - by replace (n - S k)%nat with 0%nat by lia; replace (n - k)%nat with 0%nat by lia.
  - by replace (n - k)%nat with (S (n - S k)) by lia.
Qed.

(** Revisions identify events. *)
Lemma revision_unique (es : list TranscriptEvent) e e' :
  StronglySorted (fun e e' => te_revision e < te_revision e') es -> e ∈ es -> e' ∈ es ->
  te_revision e = te_revision e' -> e = e'.
Proof.
  induction 1 as [|x es _ IH Hx]; [by intros ?%not_elem_of_nil|]. rewrite Forall_forall in Hx.
  intros [->|He]%elem_of_cons [->|He']%elem_of_cons Heq; [done| | |by apply IH].
  - specialize (Hx _ He'). lia.
  - specialize (Hx _ He). lia.
Qed.

(** ** Properties *)

(** A run is claimed at most once, for ever.  After [claim_run] has answered
    [ACQUIRED] for a session and run id, no later claim in any history of the
    store is answered [ACQUIRED] again, not even after the lease has expired,
    and only the owner token that acquired the run can finalize it. *)
Theorem run_is_claimed_once `{Hashing} `{SessionCodec} limits s now id run owner lease s1 s2 :
  claim_run limits s now id run owner lease = Ok (ACQUIRED, s1) -> steps limits s1 s2 ->
  (forall now' owner' lease' r s3, claim_run limits s2 now' id run owner' lease' = Ok (r, s3) -> r <> ACQUIRED) /\
  (forall now' owner' lease' s3, finalize_run s2 now' id run owner' lease' = Ok (true, s3) -> owner' = owner).
Proof.
  intros Hc Hs. assert (Hclaim : exists c, dget (id, run) (s_run_claims s1) = Some c /\ cl_owner c = owner).
  { unfold claim_run in Hc. py_simpl. repeat (case_match; py_simpl; try done).
    eexists. rewrite dget_dset, decide_True by done. done. }
  destruct Hclaim as (c & Hget & Hown). destruct (steps_claims _ _ _ Hs _ _ Hget) as (c2 & Hget2 & Ho2 & _). split.
  - intros now' owner' lease' r s3 Hr. unfold claim_run in Hr. rewrite Hget2 in Hr. py_simpl.
    repeat (case_match; py_simpl; try done).
  - intros now' owner' lease' s3 Hr. unfold finalize_run in Hr. rewrite Hget2 in Hr. py_simpl.
    destruct (_ || _) eqn:Hx; py_simpl. congruence.
Qed.

(** C38. The transcript is an append-only log: in every reachable store the
    events of a session are numbered 1, 2, 3, ... without gaps, belong to that
    session, have distinct ids and strictly increasing revisions, and every
    later state of the store extends the list. *)
Theorem transcript_is_an_append_only_log `{Hashing} `{SessionCodec} limits s s' id r :
  reachable limits s -> s_sessions s !! id = Some r -> steps limits s s' ->
  (forall i e, events_of s id !! i = Some e -> te_sequence e = Z.of_nat i + 1 /\ te_identity e = id) /\
  NoDup (te_event_id <$> events_of s id) /\
  StronglySorted (fun e e' => te_revision e < te_revision e') (events_of s id) /\
  events_of s id `prefix_of` events_of s' id.
Proof.
  intros Hs Hr Hst. pose proof (reachable_log _ _ Hs) as Hlog. pose proof (Hlog id) as Ht. rewrite Hr in Ht.
  destruct Ht as [_ T1 T2 T3 _ T5 _ _ _ _]. split_and!; [|done|done|].
  - intros i e He. split; [by apply T1|]. rewrite Forall_lookup in T2. eauto.
  - by apply (lk_events _ _ (steps_log _ _ _ Hlog Hst)).
Qed.

(** Appends are idempotent per key: once an event was appended under an
    idempotency key, every later append with that key, at any point of any
    history, changes nothing and returns the same event, and it succeeds only
    for content with the same fingerprint. *)
Theorem append_is_idempotent `{Hashing} `{SessionCodec} limits s now wall id eid ty p key rev at_ e s1 s2 :
  reachable limits s -> ty <> MEMORY_INVALIDATED ->
  append limits s now wall id eid ty p (Some key) rev at_ = Ok (e, s1) -> steps limits s1 s2 ->
  (forall now' wall' eid' rev' at', append limits s2 now' wall' id eid' ty p (Some key) rev' at' = Ok (e, s2)) /\
  (forall now' wall' eid' ty' p' rev' at' e' s3,
     append limits s2 now' wall' id eid' ty' p' (Some key) rev' at' = Ok (e', s3) ->
     e' = e /\ s3 = s2 /\ append_fingerprint ty' p' = append_fingerprint ty p).
Proof.
  intros Hs Hty Ha Hst. pose proof (reachable_log _ _ Hs) as Hlog.
  pose proof (log_kept_append _ _ _ _ _ _ _ _ _ _ _ _ _ Hlog Ha) as [Hlog1 _ _ Hses1].
  assert (Hkey : exists fp r, append_fingerprint ty p = Ok fp /\ s_event_idempotency s1 !! (id, key) = Some (fp, e) /\
    s_sessions s !! id = Some r).
  { apply append_cases in Ha as (record & source & fp & Hrec & Hfp & Hsrc & Hap). exists fp, record. split_and!; [done| |done].
    destruct Hap as [k e Hk Hi|ns v e -> _ _ _|occurred Hi Hk Hv Hcap e He].
    - by injection Hk as ->.
    - by destruct (source_type _ _ _ ns v Hsrc eq_refl).
    - rewrite (sb_idempotency _ _ (commit_log s now id record source fp e)). apply lookup_insert_eq. }
  destruct Hkey as (fp & r & Hfp & Hkey & Hr). destruct (Hses1 id r Hr) as (r1 & Hr1 & _).
  destruct (steps_log _ _ _ Hlog1 Hst) as [_ _ Hkeys Hses]. specialize (Hkeys _ _ Hkey). destruct (Hses id r1 Hr1) as (r2 & Hr2 & _).
  split.
  - intros now' wall' eid' rev' at'. unfold append in *. rewrite bool_decide_false in Ha |- * by done. simpl in Ha |- *.
    apply res_bind_Ok in Ha as (text & Htext & (u & Hsize & _)%res_bind_Ok). rewrite Htext. simpl.
    rewrite Hsize. simpl. rewrite Hfp. simpl. unfold require_session. rewrite Hr2. simpl. rewrite Hkeys.
    by rewrite bool_decide_true.
  - intros now' wall' eid' ty' p' rev' at' e' s3 Ha'. unfold append in Ha'.
    apply res_bind_Ok in Ha' as (source & _ & (text & _ & (u & _ & (fp' & Hfp' & (rec & _ & Ha')%res_bind_Ok)%res_bind_Ok)%res_bind_Ok)%res_bind_Ok).
    rewrite Hkeys in Ha'. py_simpl. by rewrite Hfp', Hfp.
Qed.

(** A late invalidation cannot undo newer work: an invalidation whose source
    version is not newer than the one recorded for its namespace is answered
    with the invalidation event in force, whatever else the session did in
    between, and leaves the store as it is; in particular the search for that
    event never fails. *)
Theorem stale_invalidation_is_absorbed `{Hashing} `{SessionCodec} limits s now wall id r eid p rev at_ text ns v :
  reachable limits s -> s_sessions s !! id = Some r ->
  canonical_json p = Ok text -> byte_len text <= max_transcript_payload_bytes limits ->
  memory_invalidation_source p = Ok (Some (ns, v)) -> v <= default 0 (sr_memory_source_versions r !! ns) ->
  exists e, append limits s now wall id eid MEMORY_INVALIDATED p None rev at_ = Ok (e, s) /\
    e ∈ events_of s id /\ te_revision e = sr_memory_invalidated_revision r /\ te_type e = MEMORY_INVALIDATED.
Proof.
  intros Hs Hr Htext Hsize Hsrc Hv. pose proof (reachable_log _ _ Hs id) as Hlog. rewrite Hr in Hlog.
  assert (Hpos : 1 <= v).
  { destruct (source_type MEMORY_INVALIDATED p (Some (ns, v)) ns v) as [_ Hpos]; [by rewrite bool_decide_true|done|done]. }
  destruct (sr_memory_source_versions r !! ns) as [v0|] eqn:Hns; [|simpl in Hv; lia].
  destruct (to_memory _ _ _ Hlog ns v0 Hns) as (e0 & Hin & Hty & Hrev).
  unfold append, append_fingerprint, digest. rewrite bool_decide_true by done. rewrite Hsrc. simpl. rewrite Htext. simpl.
  rewrite (proj2 (Z.leb_le _ _) Hsize). simpl.
  assert (Hfin : all_finite p = true) by (unfold canonical_json in Htext; py_simpl; done).
  unfold canonical_json. simpl. rewrite Hfin. simpl. unfold require_session. rewrite Hr. simpl.
  unfold append_new. rewrite Hns. simpl in Hv |- *. rewrite (proj2 (Z.leb_le _ _) Hv).
  destruct (List.find _ _) as [e|] eqn:Hf.
  - apply List.find_some in Hf as [Hin' Hrev']. apply Z.eqb_eq in Hrev'. exists e. split_and!; [done|by apply list_elem_of_In|done|].
    rewrite (revision_unique (events_of s id) e e0); [done|apply Hlog|by apply list_elem_of_In|done|congruence].
  - pose proof (List.find_none _ _ Hf e0) as Hno. simpl in Hno. apply list_elem_of_In in Hin. specialize (Hno Hin).
    by rewrite Hrev, Z.eqb_refl in Hno.
Qed.

(** Resuming loses nothing: the snapshot of a session consists of its record,
    its newest checkpoint and exactly the events that follow the ones the
    checkpoint covers; with no checkpoint it is the whole transcript. *)
Theorem resume_continues_after_the_checkpoint `{Hashing} `{SessionCodec} limits s id sn :
  reachable limits s -> resume s id = Some sn ->
  s_sessions s !! id = Some (sn_session sn) /\ sn_checkpoint sn = last (checkpoints_of s id) /\
  exists n, Z.of_nat n = match sn_checkpoint sn with Some c => sc_last_event_sequence c | None => 0 end /\
    (n <= length (events_of s id))%nat /\ sn_transcript sn = drop n (events_of s id).
Proof.
  intros Hs Hsn. unfold resume in Hsn. destruct (s_sessions s !! id) as [r|] eqn:Hr; [|done]. injection Hsn as <-. simpl.
  split_and!; [done..|]. pose proof (reachable_log _ _ Hs id) as Hlog. rewrite Hr in Hlog.
  set (after := match last (checkpoints_of s id) with Some c => sc_last_event_sequence c | None => 0 end).
  assert (Hb : 0 <= after <= Z.of_nat (length (events_of s id))).
  { unfold after. destruct (last (checkpoints_of s id)) as [c|] eqn:Hl; [|lia].
    pose proof (to_checkpoints _ _ _ Hlog) as Hcp. rewrite Forall_forall in Hcp. apply Hcp. by apply last_Some_elem_of. }
  exists (Z.to_nat after). split_and!; [lia|lia|]. pose proof (to_numbered _ _ _ Hlog) as Hn.
  apply (filter_after (events_of s id) after (Z.to_nat after)); [done|lia].
Qed.

(** Checkpoints stay within their limits: a checkpoint that was newly stored
    is the newest one kept, and after pruning the session holds at most the
    configured number of checkpoints and of state bytes. *)
Theorem checkpoints_stay_bounded `{Hashing} `{SessionCodec} limits s wall id cid st rev k c s' :
  session_store_limits limits = Ok limits ->
  save_checkpoint limits s wall id cid st rev k = Ok (c, s') -> s' <> s ->
  last (checkpoints_of s' id) = Some c /\
  Z.of_nat (length (checkpoints_of s' id)) <= max_checkpoints_per_session limits /\
  retained_bytes (checkpoints_of s' id) <= max_checkpoint_bytes_per_session limits.
Proof.
  intros Hl Hc Hne. destruct (limits_facts limits Hl) as (_ & Hn & Hb).
  apply checkpoint_cases in Hc as [->|(r & r' & _ & _ & _ & _ & _ & _ & _ & _ & _ & _ & Hsize & n & _ & Hcp)]; [done|].
  rewrite Hcp. apply prune_bounds; [done|lia].
Qed.

(** The resume cache is bounded and never breaks: in every history under
    validated limits the two tables of the cache agree, each session and the
    whole store stay within their limits on points and bytes, and saving a
    point always returns; a point reported as saved can be looked up. *)
Theorem resume_cache_is_bounded `{Hashing} `{SessionCodec} limits s now id p :
  session_store_limits limits = Ok limits -> reachable limits s ->
  cache_ok limits s /\
  exists r s', save_resume_point limits s now id p = Ok (r, s') /\ cache_ok limits s' /\
    (forall q, r = Some q -> dget (id, rp_run_id q) (s_resume_points s') = Some q).
Proof.
  intros Hl Hs. pose proof (reachable_cache limits Hl s Hs) as Hc. split; [done|]. by apply save_point_Ok.
Qed.

(** ** A concrete history: a claimed run, a message, an invalidation, a
    checkpoint and the answer *)
#[local] Instance demo_hash : Hashing := fun text => text.
#[local] Instance demo_codec : SessionCodec :=
  {| model_dump_json p := rp_run_id p; fromisoformat _ := Ok (Aware 0) |}.

Definition store_of {A : Type} (m : res (A * Store)) : Store := match m with Ok (_, s) => s | Raise _ => empty end.

Lemma ran {A : Type} (m : res (A * Store)) : is_Ok m = true -> exists a, m = Ok (a, store_of m).
Proof. destruct m as [[a s]|]; [by exists a|done]. Qed.

Definition demo_id : SessionIdentity := MkIdentity "acme" "shop" "helper" "s1" "ann".
Definition demo_owner : string := "owner-token-0123456789-0123456789".
Definition demo_digest : string := "0000000000000000000000000000000000000000000000000000000000000000".
Definition demo_source : json := JObj [("source_namespace", JStr "orders"); ("source_version", JInt 2)].

Definition demo_created := create default_limits empty 0 0 demo_id.
Definition demo_claimed := claim_run default_limits (store_of demo_created) 0 demo_id "run-1" demo_owner (AInt 60).
Definition demo_message := append default_limits (store_of demo_claimed) 1 1 demo_id "e1" USER_MESSAGE (JStr "hi")
  (Some "m1") (Some 0) None.
Definition demo_invalidated := append default_limits (store_of demo_message) 2 2 demo_id "e2" MEMORY_INVALIDATED demo_source
  None None None.
Definition demo_saved := save_checkpoint default_limits (store_of demo_invalidated) 3 demo_id "c1" (JStr "state") 2 "k1".
Definition demo_answer := append default_limits (store_of demo_saved) 4 4 demo_id "e3" ASSISTANT_MESSAGE (JStr "hello")
  None None None.

Lemma demo_steps_from_message : steps default_limits (store_of demo_message) (store_of demo_answer).
Proof.
  destruct (ran demo_invalidated) as [a Ha]; [vm_cast_no_check (eq_refl true)|].
  destruct (ran demo_saved) as [b Hb]; [vm_cast_no_check (eq_refl true)|].
  destruct (ran demo_answer) as [c Hc]; [vm_cast_no_check (eq_refl true)|].
  unfold demo_invalidated at 1 in Ha. unfold demo_saved at 1 in Hb. unfold demo_answer at 1 in Hc.
  eapply rtc_l; [exact (do_append _ _ _ _ _ _ _ _ _ _ _ _ _ Ha)|].
  eapply rtc_l; [exact (do_checkpoint _ _ _ _ _ _ _ _ _ _ Hb)|].
  apply rtc_once. exact (do_append _ _ _ _ _ _ _ _ _ _ _ _ _ Hc).
Qed.

Definition value_of {A : Type} (m : res (A * Store)) : option A := match m with Ok (a, _) => Some a | Raise _ => None end.

Lemma returned {A : Type} (m : res (A * Store)) a : value_of m = Some a -> m = Ok (a, store_of m).
Proof. destruct m as [[a' s]|]; [by intros [= ->]|done]. Qed.

Lemma demo_claimed_ok : demo_claimed = Ok (ACQUIRED, store_of demo_claimed).
Proof. apply returned. vm_cast_no_check (eq_refl (Some ACQUIRED)). Qed.

Lemma demo_message_ok : exists e, demo_message = Ok (e, store_of demo_message).
Proof. apply ran. vm_cast_no_check (eq_refl true). Qed.

Lemma demo_claimed_reachable : reachable default_limits (store_of demo_claimed).
Proof.
  destruct (ran demo_created) as [a Ha]; [vm_cast_no_check (eq_refl true)|].
  unfold demo_created at 1 in Ha. eapply rtc_l; [exact (do_create _ _ _ _ _ _ _ Ha)|].
  pose proof demo_claimed_ok as Hc. unfold demo_claimed at 1 in Hc. apply rtc_once. exact (do_claim _ _ _ _ _ _ _ _ _ Hc).
Qed.

Lemma demo_steps_from_claim : steps default_limits (store_of demo_claimed) (store_of demo_answer).
Proof.
  destruct demo_message_ok as [e He].
  unfold demo_message at 1 in He. eapply rtc_l; [exact (do_append _ _ _ _ _ _ _ _ _ _ _ _ _ He)|].
  apply demo_steps_from_message.
Qed.

Lemma demo_reachable : reachable default_limits (store_of demo_answer).
Proof. unfold reachable, steps. etransitivity; [apply demo_claimed_reachable|apply demo_steps_from_claim]. Qed.

(** A second claim long after the lease of the first has expired *)
Definition demo_reclaimed :=
  claim_run default_limits (store_of demo_answer) (seconds 90) demo_id "run-1" "another-token-0123456789-0123456789" (AInt 60).

Lemma run_is_claimed_once_witness : demo_reclaimed = Ok (STALE, store_of demo_reclaimed) /\ STALE <> ACQUIRED.
Proof.
  assert (Hr : demo_reclaimed = Ok (STALE, store_of demo_reclaimed)).
  { apply returned. vm_cast_no_check (eq_refl (Some STALE)). }
  split; [exact Hr|]. unfold demo_reclaimed at 1 in Hr.
  apply (proj1 (run_is_claimed_once default_limits (store_of demo_created) 0 demo_id "run-1" demo_owner (AInt 60)
    (store_of demo_claimed) (store_of demo_answer) demo_claimed_ok demo_steps_from_claim)
    _ _ _ _ _ Hr).
Defined.

Definition demo_record : SessionRecord :=
  MkSessionRecord demo_id SESSION_ACTIVE 4 2 {[ "orders" := 2 ]} 0 4.

Lemma demo_record_ok : s_sessions (store_of demo_answer) !! demo_id = Some demo_record.
Proof. vm_cast_no_check (eq_refl (Some demo_record)). Qed.

Lemma transcript_is_an_append_only_log_witness :
  te_event_id <$> events_of (store_of demo_answer) demo_id = ["e1"; "e2"; "e3"] /\
  NoDup (te_event_id <$> events_of (store_of demo_answer) demo_id).
Proof.
  split; [vm_cast_no_check (eq_refl ["e1"; "e2"; "e3"])|].
  apply (transcript_is_an_append_only_log default_limits (store_of demo_answer) (store_of demo_answer) demo_id demo_record).
  - apply demo_reachable.
  - apply demo_record_ok.
  - apply rtc_refl.
Defined.

Lemma append_is_idempotent_witness : exists e,
  append default_limits (store_of demo_answer) 9 9 demo_id "e9" USER_MESSAGE (JStr "hi") (Some "m1") None None
    = Ok (e, store_of demo_answer).
Proof.
  destruct demo_message_ok as [e He]. exists e.
  apply (append_is_idempotent default_limits (store_of demo_claimed) 1 1 demo_id "e1" USER_MESSAGE (JStr "hi") "m1" (Some 0) None
    e (store_of demo_message) (store_of demo_answer)).
  - apply demo_claimed_reachable.
  - discriminate.
  - exact He.
  - apply demo_steps_from_message.
Defined.

Lemma stale_invalidation_is_absorbed_witness : exists e,
  append default_limits (store_of demo_answer) 9 9 demo_id "e9" MEMORY_INVALIDATED demo_source None None None
    = Ok (e, store_of demo_answer) /\
  e ∈ events_of (store_of demo_answer) demo_id /\ te_revision e = 2 /\ te_type e = MEMORY_INVALIDATED.
Proof.
  apply (stale_invalidation_is_absorbed default_limits (store_of demo_answer) 9 9 demo_id demo_record "e9" demo_source None None
    (canonical_text demo_source) "orders" 2).
  - apply demo_reachable.
  - apply demo_record_ok.
  - vm_cast_no_check (eq_refl (Ok (canonical_text demo_source))).
  - decide_by_vm.
  - vm_cast_no_check (eq_refl (Ok (Some ("orders", 2)))).
  - decide_by_vm.
Defined.

Definition demo_snapshot : SessionSnapshot :=
  default (MkSnapshot demo_record None []) (resume (store_of demo_answer) demo_id).

Lemma resume_continues_after_the_checkpoint_witness :
  te_event_id <$> sn_transcript demo_snapshot = ["e3"] /\
  sn_checkpoint demo_snapshot = last (checkpoints_of (store_of demo_answer) demo_id).
Proof.
  split; [vm_cast_no_check (eq_refl ["e3"])|].
  apply (resume_continues_after_the_checkpoint default_limits (store_of demo_answer) demo_id demo_snapshot).
  - apply demo_reachable.
  - unfold demo_snapshot, resume. rewrite demo_record_ok. reflexivity.
Defined.

Definition demo_checkpoint : SessionCheckpoint := MkCheckpoint demo_id "c1" 3 (JStr "state") 2 3 "k1".

Lemma demo_saved_ok : demo_saved = Ok (demo_checkpoint, store_of demo_saved).
Proof. apply returned. vm_cast_no_check (eq_refl (Some demo_checkpoint)). Qed.

Lemma checkpoints_stay_bounded_witness :
  last (checkpoints_of (store_of demo_saved) demo_id) = Some demo_checkpoint.
Proof.
  apply (checkpoints_stay_bounded default_limits (store_of demo_invalidated) 3 demo_id "c1" (JStr "state") 2 "k1").
  - vm_cast_no_check (eq_refl (Ok default_limits)).
  - apply demo_saved_ok.
  - intros Heq. apply (f_equal (fun s => length (checkpoints_of s demo_id))) in Heq. vm_compute in Heq. discriminate Heq.
Defined.

Definition demo_point : RunResumePoint :=
  MkResumePoint demo_id "run-1" (JObj
    [("message_digest", JStr demo_digest); ("input", JNull); ("conversation", JObj [("messages", JList [])]);
     ("resume_state", JObj [("source_run_id", JStr "run-1"); ("workflow_state", JNull); ("observations", JList []);
       ("iterations_used", JInt 0); ("tool_calls_used", JInt 0); ("call_ids", JList []);
       ("prompt_digest", JStr demo_digest); ("route_key", JStr "route")])]) 2 {[ "orders" := 2 ]} 5.

Lemma resume_cache_is_bounded_witness :
  value_of (save_resume_point default_limits (store_of demo_answer) 10 demo_id demo_point) = Some (Some demo_point) /\
  exists r s', save_resume_point default_limits (store_of demo_answer) 10 demo_id demo_point = Ok (r, s') /\
    cache_ok default_limits s' /\ (forall q, r = Some q -> dget (demo_id, rp_run_id q) (s_resume_points s') = Some q).
Proof.
  split; [vm_cast_no_check (eq_refl (Some (Some demo_point)))|].
  apply (resume_cache_is_bounded default_limits (store_of demo_answer) 10 demo_id demo_point).
  - vm_cast_no_check (eq_refl (Ok default_limits)).
  - apply demo_reachable.
Defined.
End SessionProps.
