(* ===== verification/PluginModels.v ===== *)
(** * Plugin declarations ([plugins/models.py], [plugins/errors.py])

    Manifests are data: every model class is a record, and its validators are the
    fallible constructor of the same name.  Versions and specifiers belong to the
    [packaging] distribution, which is the parameter [Packaging]. *)
From S2P Require Import Prelude PyText Json.
From Stdlib Require Import Ascii.
Open Scope string_scope.

(** ** Parameters

    [parse_version s] is [Version(s)], [None] if it raises [InvalidVersion];
    [spec_valid s] says that [SpecifierSet(s)] does not raise; [spec_contains s v]
    is [v in SpecifierSet(s)].  [word_char] removes one leading character of
    Python's Unicode class [\w] from UTF-8 text. *)
Class Packaging : Type := {
  version : Type;
  parse_version : string -> option version;
  version_str : version -> string;
  version_leb : version -> version -> bool;
  spec_valid : string -> bool;
  spec_contains : string -> version -> bool;
  word_char : list ascii -> option (list ascii);
}.

(** [PluginErrorCode] *)
Inductive PluginErrorCode : Type :=
| PATH_NOT_ALLOWED | INVALID_SOURCE | INVALID_MANIFEST | DIGEST_MISMATCH | SIGNATURE_REJECTED
| TRUST_REJECTED | HARNESS_API_MISMATCH | DUPLICATE_PLUGIN | DUPLICATE_PROVIDER | MISSING_PROVIDER
| PROVIDER_VERSION_MISMATCH | DEPENDENCY_CYCLE | CONTRIBUTION_CONFLICT | INVALID_EXPORTS
| INVALID_CONTRIBUTION | UNSUPPORTED_TRUST_MODE | ALREADY_ACTIVE | NOT_ACTIVE | ACTIVATION_FAILED
| CLEANUP_FAILED.
#[global] Instance PluginErrorCode_eq_dec : EqDecision PluginErrorCode.
Proof. solve_decision. Defined.

(** [PluginError]: the code and the identifiers of its [detail] *)
Record PluginError : Type := MkPluginError {
  pe_code : PluginErrorCode;
  pe_detail : list string;
}.
#[global] Instance PluginError_eq_dec : EqDecision PluginError.
Proof. solve_decision. Defined.

(** ** Enumerations *)
Inductive TrustMode : Type := TRUSTED_IN_PROCESS | ISOLATED_WORKER | MCP_MODE.
#[global] Instance TrustMode_eq_dec : EqDecision TrustMode.
Proof. solve_decision. Defined.

Inductive Permission : Type :=
| WORKSPACE_READ | WORKSPACE_WRITE | NETWORK_EGRESS | PROCESS_SPAWN | MODEL_INVOKE | MEMORY_READ
| MEMORY_WRITE | KNOWLEDGE_READ | KNOWLEDGE_WRITE | MCP_CONNECT | CHANNEL_RECEIVE | CHANNEL_SEND
| TOOL_REGISTER.
#[global] Instance Permission_eq_dec : EqDecision Permission.
Proof. solve_decision. Defined.
#[global, program] Instance Permission_finite : Finite Permission := {|
  enum := [WORKSPACE_READ; WORKSPACE_WRITE; NETWORK_EGRESS; PROCESS_SPAWN; MODEL_INVOKE; MEMORY_READ;
    MEMORY_WRITE; KNOWLEDGE_READ; KNOWLEDGE_WRITE; MCP_CONNECT; CHANNEL_RECEIVE; CHANNEL_SEND; TOOL_REGISTER] |}.
Next Obligation. solve_finite. Qed.
Next Obligation. solve_finite. Qed.

Inductive ContributionKind : Type :=
| PRODUCT_KIND | MEMORY_KIND | KNOWLEDGE_KIND | WORKFLOW_KIND | REFLECTION_KIND | PROMPT_KIND | TOOL_KIND
| MODEL_KIND | MCP_KIND | CHANNEL_KIND.
#[global] Instance ContributionKind_eq_dec : EqDecision ContributionKind.
Proof. solve_decision. Defined.
#[global, program] Instance ContributionKind_finite : Finite ContributionKind := {|
  enum := [PRODUCT_KIND; MEMORY_KIND; KNOWLEDGE_KIND; WORKFLOW_KIND; REFLECTION_KIND; PROMPT_KIND; TOOL_KIND;
    MODEL_KIND; MCP_KIND; CHANNEL_KIND] |}.
Next Obligation. solve_finite. Qed.
Next Obligation. solve_finite. Qed.

(** [ContributionKind.value] *)
Definition contribution_kind_value (k : ContributionKind) : string :=
  match k with
  | PRODUCT_KIND => "product" | MEMORY_KIND => "memory" | KNOWLEDGE_KIND => "knowledge"
  | WORKFLOW_KIND => "workflow" | REFLECTION_KIND => "reflection" | PROMPT_KIND => "prompt"
  | TOOL_KIND => "tools" | MODEL_KIND => "models" | MCP_KIND => "mcp" | CHANNEL_KIND => "channels"
  end.

(** [PermissionSet] *)
Definition PermissionSet : Type := gset Permission.
Definition permits (s : PermissionSet) (p : Permission) : bool := bool_decide (p ∈ s).
Definition permissions_contain (s required : PermissionSet) : bool := bool_decide (required ⊆ s).

(** ** Field validators *)

(** [_ID = ^[a-z][a-z0-9]*(?:[._/-][a-z0-9]+)*$] *)
Definition ID (s : string) : bool := dotted_name "._/-" s.
Definition plugin_identifier (value : string) : res string := require ID value else ValueError ;; Ok value.

(** [_DIGEST = ^sha256:[0-9a-f]{64}$] *)
Definition DIGEST (s : string) : bool :=
  String.prefix "sha256:" s && SHA256 (String.substring 7 (String.length s - 7) s).

(** [_KEY_ID = ^[A-Za-z0-9][A-Za-z0-9._:/-]{0,127}$] *)
Definition KEY_ID (s : string) : bool := head_then (fun c => is_alnum c || one_of "._:/-" c) 127 s.

Section Models.
Context `{Packaging}.

(** [_ENTRYPOINT]: names [[A-Za-z_]\w*] separated by dots, a colon, and one more
    such name; the flags say that a name must start here, and that the colon has
    been passed. *)
Definition name_head (c : ascii) : bool := is_lower c || is_upper c || one_of "_" c.

Fixpoint entrypoint_tail (fuel : nat) (fresh past_colon : bool) (l : list ascii) : bool :=
  match fuel, l with
  | _, [] => negb fresh && past_colon
  | O, _ => false
  | S fuel, c :: r =>
      if fresh then name_head c && entrypoint_tail fuel false past_colon r
      else match word_char l with
           | Some r => entrypoint_tail fuel false past_colon r
           | None =>
               if one_of "." c then negb past_colon && entrypoint_tail fuel true false r
               else if one_of ":" c then negb past_colon && entrypoint_tail fuel true true r
               else false
           end
  end.

Definition ENTRYPOINT (s : string) : bool := entrypoint_tail (String.length s) true false (chars s).

(** [_canonical_version] *)
Definition canonical_version (value : string) : res string :=
  require negb (bool_decide (value = "")) && bool_decide (PyText.strip value = value) else ValueError ;;
  match parse_version value with
  | None => Raise ValueError
  | Some parsed => require bool_decide (version_str parsed = value) else ValueError ;; Ok value
  end.

(** [_version_specifier] *)
Definition version_specifier (value : string) (allow_empty : bool) : res string :=
  require bool_decide (PyText.strip value = value) && (negb (bool_decide (value = "")) || allow_empty) else ValueError ;;
  require spec_valid value else ValueError ;;
  Ok value.

(** ** Models *)
Record SignatureMetadata : Type := MkSignatureMetadata { sg_algorithm : string; sg_key_id : string; sg_value : string }.

Definition signature_metadata (s : SignatureMetadata) : res SignatureMetadata :=
  let! _ := plugin_identifier (sg_algorithm s) in
  require KEY_ID (sg_key_id s) else ValueError ;;
  require negb (bool_decide (sg_value s = "")) && bool_decide (PyText.strip (sg_value s) = sg_value s)
          && (py_len (sg_value s) <=? 16384)%Z else ValueError ;;
  Ok s.

Record ArtifactIntegrity : Type := MkArtifactIntegrity { ai_digest : string; ai_signature : option SignatureMetadata }.

Definition artifact_integrity (a : ArtifactIntegrity) : res ArtifactIntegrity :=
  require DIGEST (ai_digest a) else ValueError ;; Ok a.

Record ProvidedService : Type := MkProvidedService { pv_service : string; pv_version : string }.

Definition provided_service (p : ProvidedService) : res ProvidedService :=
  let! _ := plugin_identifier (pv_service p) in
  let! _ := canonical_version (pv_version p) in Ok p.

Record RequiredService : Type := MkRequiredService { rq_service : string; rq_version : string; rq_optional : bool }.

Definition required_service (r : RequiredService) : res RequiredService :=
  let! _ := plugin_identifier (rq_service r) in
  let! _ := version_specifier (rq_version r) true in Ok r.

(** [RequiredService.accepts], given a version string *)
Definition accepts (r : RequiredService) (v : string) : res bool :=
  match parse_version v with
  | None => Raise ValueError
  | Some candidate => Ok (spec_contains (rq_version r) candidate)
  end.

Record ContributionDeclaration : Type := MkContributionDeclaration {
  cd_contribution_id : string;
  cd_version : string;
  cd_permissions : PermissionSet;
}.

Definition contribution_declaration (c : ContributionDeclaration) : res ContributionDeclaration :=
  let! _ := plugin_identifier (cd_contribution_id c) in
  let! _ := canonical_version (cd_version c) in Ok c.

(** [Contributions]: [getattr(self, kind.value)] is [of_kind c kind]. *)
Record Contributions : Type := MkContributions { of_kind : ContributionKind -> list ContributionDeclaration }.

Definition contribution_items (c : Contributions) : list (ContributionKind * ContributionDeclaration) :=
  enum ContributionKind ≫= fun kind => (fun item => (kind, item)) <$> of_kind c kind.

(** [unique_within_kind] *)
Definition contributions (c : Contributions) : res Contributions :=
  let! _ := for_each (fun kind =>
      guard (bool_decide (NoDup (cd_contribution_id <$> of_kind c kind))) ValueError) (enum ContributionKind) in
  Ok c.

Record PluginManifest : Type := MkPluginManifest {
  pm_schema_version : string;
  pm_plugin_id : string;
  pm_version : string;
  pm_harness_api : string;
  pm_trust_mode : TrustMode;
  pm_entrypoint : string;
  pm_artifact : ArtifactIntegrity;
  pm_provides : list ProvidedService;
  pm_requires : list RequiredService;
  pm_contributions : Contributions;
  pm_permissions : PermissionSet;
  pm_config_schema : json;
}.

Definition PLUGIN_SCHEMA_VERSION : string := "1".

(** The [relationships] validator *)
Definition relationships (m : PluginManifest) : res unit :=
  let provided := pv_service <$> pm_provides m in
  let required := rq_service <$> pm_requires m in
  require bool_decide (NoDup provided) else ValueError ;;
  require bool_decide (NoDup required) else ValueError ;;
  require bool_decide (Forall (fun s => s ∉ required) provided) else ValueError ;;
  for_each (fun kc => guard (permissions_contain (pm_permissions m) (cd_permissions kc.2)) ValueError)
    (contribution_items (pm_contributions m)).

Definition plugin_manifest (m : PluginManifest) : res PluginManifest :=
  require bool_decide (pm_schema_version m = PLUGIN_SCHEMA_VERSION) else ValueError ;;
  let! _ := plugin_identifier (pm_plugin_id m) in
  let! _ := canonical_version (pm_version m) in
  let! _ := version_specifier (pm_harness_api m) false in
  require ENTRYPOINT (pm_entrypoint m) else ValueError ;;
  let! _ := relationships m in
  Ok m.

(** [PluginManifest.supports_harness], given a [Version] *)
Definition supports_harness (m : PluginManifest) (v : version) : bool := spec_contains (pm_harness_api m) v.

(** [PluginManifest.parsed_version] *)
Definition parsed_version (m : PluginManifest) : res version :=
  match parse_version (pm_version m) with Some v => Ok v | None => Raise ValueError end.

(** [PluginManifest.contribution_map] *)
Definition contribution_map (m : PluginManifest) : dict (ContributionKind * string) ContributionDeclaration :=
  foldl (fun d kc => dset (kc.1, cd_contribution_id kc.2) kc.2 d) [] (contribution_items (pm_contributions m)).
End Models.

(** [VerifiedPluginSource]: what discovery attests; tokens are object identities. *)
Record VerifiedPluginSource : Type := MkVerifiedPluginSource {
  vs_root : string;
  vs_manifest : PluginManifest;
  vs_digest : string;
  vs_config : json;
  vs_signature_verified : bool;
  vs_attestation : nat;
}.

Definition is_attested_by (s : VerifiedPluginSource) (token : nat) : bool := bool_decide (vs_attestation s = token).

(** [AllowlistedTrustPolicy.allows] *)
Record AllowlistedTrustPolicy : Type := MkAllowlistedTrustPolicy {
  tp_allowed_digests : gmap string (gset string);
  tp_trusted_in_process_plugins : gset string;
  tp_require_signatures : bool;
}.

Definition allows (t : AllowlistedTrustPolicy) (m : PluginManifest) (digest : string) (signature_verified : bool) : bool :=
  if negb (bool_decide (digest ∈ default ∅ (tp_allowed_digests t !! pm_plugin_id m))) then false
  else if tp_require_signatures t && negb signature_verified then false
  else if bool_decide (pm_trust_mode m = TRUSTED_IN_PROCESS)
          && negb (bool_decide (pm_plugin_id m ∈ tp_trusted_in_process_plugins t)) then false
  else true.
