(* ===== verification/Effects.v ===== *)
(** * Owners of side effects ([runtime/effects.py], [plugins/lifecycle.py])

    [EffectScope] and [PluginFiber] both own a stack of disposers and unwind it
    once.  Their operations are transcribed separately; [OwnerOps] is the
    interface through which callers use either, and [Contract] is the promise
    both make: an owner is open with its effects, unwinding, or closed with one
    outcome.  [Refines] states that an implementation keeps that promise, and is
    discharged for both.  A disposer is named by what it does: an opaque callable,
    the exit of an entered resource, or the [close] of a child scope. *)
From S2P Require Import Prelude PyText PluginModels.
Open Scope string_scope.

(** ** Exceptions and failures

    Cleanup errors carry the failures of the unwinding, which may be cleanup
    errors of nested owners. *)
Inductive exc : Type :=
| Exc (e : exn)
| KeyboardInterrupt
| SystemExit
| PluginLifecycleError (code : PluginErrorCode)
| EffectCleanupError (scope_name : string) (failures : list failure)
| PluginCleanupError (fiber_id : string) (failures : list failure)
with failure : Type := MkFailure (label : string) (error : exc).

(** [except (KeyboardInterrupt, SystemExit)] *)
Definition fatal (x : exc) : bool :=
  match x with KeyboardInterrupt | SystemExit => true | _ => false end.

(** What a call came back with: [None] if it returned. *)
Abbreviation outcome := (option exc).

Inductive disposer : Type :=
| CallOf (callable : nat)
| ExitOf (resource : nat)
| CloseOf (scope : nat).

(** [_OwnedEffect], [_Effect] *)
Record OwnedEffect : Type := MkOwnedEffect {
  oe_label : string;
  oe_dispose : disposer;
}.

#[global] Instance disposer_eq_dec : EqDecision disposer.
Proof. solve_decision. Defined.
#[global] Instance OwnedEffect_eq_dec : EqDecision OwnedEffect.
Proof. solve_decision. Defined.

(** What [close] does after its critical section *)
Inductive close_start : Type :=
| Return (r : outcome)
| Wait
| Unwind (effects : list OwnedEffect).

(** ** The interface *)
Class OwnerOps (S : Type) : Type := {
  op_new : string -> exc + S;
  op_register : S -> string -> disposer -> exc + (S * OwnedEffect);
  op_close_begin : S -> S * close_start;
  op_close_finish : S -> list failure -> S;
  op_closed : S -> bool;
  op_cleanup_error : S -> outcome;
  (** [enter] and [child], where the owner has them: the guard of [enter], and
      the construction of a child with the label it is registered under. *)
  op_enter : option (S -> outcome);
  op_child : option (nat -> string -> exc + (S * string));
}.

(** ** [EffectScope] *)
Module Scope.

(** [EffectScopeState] *)
Inductive EffectScopeState : Type := OPEN | CLOSING | CLOSED.
#[global] Instance EffectScopeState_eq_dec : EqDecision EffectScopeState.
Proof. solve_decision. Defined.

Record EffectScope : Type := MkEffectScope {
  es_name : string;
  es_parent : option nat;
  es_state : EffectScopeState;
  es_effects : list OwnedEffect;
  es_closed : bool;
  es_cleanup_error : option exc;
}.

(** [__init__] *)
Definition effect_scope (name : string) (parent : option nat) : exc + EffectScope :=
  if decide (strip name = "") then inl (Exc ValueError)
  else inr (MkEffectScope (strip name) parent OPEN [] false None).

(** [callback]; a disposer of the model is callable. *)
Definition callback (s : EffectScope) (label : string) (dispose : disposer) : exc + (EffectScope * OwnedEffect) :=
  let clean_label := strip label in
  if decide (clean_label = "") then inl (Exc ValueError)
  else if decide (es_state s <> OPEN) then inl (Exc EffectScopeClosedError)
  else let e := MkOwnedEffect clean_label dispose in
       inr (MkEffectScope (es_name s) (es_parent s) (es_state s) (es_effects s ++ [e])
              (es_closed s) (es_cleanup_error s), e).

(** The guard of [enter] *)
Definition enter_guard (s : EffectScope) : outcome :=
  if decide (es_state s <> OPEN) then Some (Exc EffectScopeClosedError) else None.

(** [child]: the new scope, and the label of its [close] in the parent *)
Definition new_child (parent : nat) (name : string) : exc + (EffectScope * string) :=
  match effect_scope name (Some parent) with
  | inl x => inl x
  | inr c => inr (c, "scope:" ++ es_name c)
  end.

(** [close], inside [_close_lock] *)
Definition close_begin (s : EffectScope) : EffectScope * close_start :=
  match es_state s with
  | CLOSED => (s, Return (es_cleanup_error s))
  | CLOSING => (s, Wait)
  | OPEN =>
      (MkEffectScope (es_name s) (es_parent s) CLOSING [] (es_closed s) (es_cleanup_error s),
       Unwind (reverse (es_effects s)))
  end.

(** The [finally] block of [close] *)
Definition close_finish (s : EffectScope) (failures : list failure) : EffectScope :=
  MkEffectScope (es_name s) (es_parent s) CLOSED (es_effects s) true
    (match failures with
     | [] => es_cleanup_error s
     | _ => Some (EffectCleanupError (es_name s) failures)
     end).

(** [__aexit__], given what [close] came back with and the exception of the
    body: the cleanup error wins, and the body's exception is never swallowed. *)
Definition aexit (closed : outcome) (body : outcome) : outcome :=
  match closed with
  | Some x => Some x
  | None => body
  end.

#[global] Instance scope_ops : OwnerOps EffectScope := {
  op_new := fun name => effect_scope name None;
  op_register := callback;
  op_close_begin := close_begin;
  op_close_finish := close_finish;
  op_closed := es_closed;
  op_cleanup_error := es_cleanup_error;
  op_enter := Some enter_guard;
  op_child := Some new_child;
}.
End Scope.

(** ** [PluginFiber] *)
Module Fiber.

Inductive FiberState : Type := OPEN | CLOSING | CLOSED.
#[global] Instance FiberState_eq_dec : EqDecision FiberState.
Proof. solve_decision. Defined.

Record PluginFiber : Type := MkPluginFiber {
  pf_fiber_id : string;
  pf_state : FiberState;
  pf_effects : list OwnedEffect;
  pf_closed : bool;
  pf_cleanup_error : option exc;
}.

(** [__init__] *)
Definition plugin_fiber (fiber_id : string) : exc + PluginFiber :=
  if is_blank fiber_id then inl (Exc ValueError)
  else inr (MkPluginFiber fiber_id OPEN [] false None).

Definition own (s : PluginFiber) (label : string) (d : disposer) : exc + (PluginFiber * OwnedEffect) :=
  if is_blank label then inl (Exc ValueError)
  else if decide (pf_state s <> OPEN) then inl (PluginLifecycleError ACTIVATION_FAILED)
  else let e := MkOwnedEffect label d in
       inr (MkPluginFiber (pf_fiber_id s) (pf_state s) (pf_effects s ++ [e]) (pf_closed s)
              (pf_cleanup_error s), e).

(** [close], inside both locks *)
Definition close_begin (s : PluginFiber) : PluginFiber * close_start :=
  match pf_state s with
  | CLOSED => (s, Return (pf_cleanup_error s))
  | CLOSING => (s, Wait)
  | OPEN =>
      (MkPluginFiber (pf_fiber_id s) CLOSING [] (pf_closed s) (pf_cleanup_error s),
       Unwind (reverse (pf_effects s)))
  end.

(** The [finally] block of [close] *)
Definition close_finish (s : PluginFiber) (failures : list failure) : PluginFiber :=
  MkPluginFiber (pf_fiber_id s) CLOSED (pf_effects s) true
    (match failures with
     | [] => pf_cleanup_error s
     | _ => Some (PluginCleanupError (pf_fiber_id s) failures)
     end).

#[global] Instance fiber_ops : OwnerOps PluginFiber := {
  op_new := plugin_fiber;
  op_register := own;
  op_close_begin := close_begin;
  op_close_finish := close_finish;
  op_closed := pf_closed;
  op_cleanup_error := pf_cleanup_error;
  op_enter := None;
  op_child := None;
}.
End Fiber.

(** ** The contract *)
Module Contract.

Inductive phase : Type :=
| Owning (effects : list OwnedEffect)
| Unwinding
| Settled (result : outcome).

Record owner : Type := MkOwner {
  ow_name : string;
  ow_phase : phase;
}.

(** What distinguishes the two families: how names and labels are checked, the exception
    of a late registration, the aggregate error, and whether there are children. *)
Record flavour : Type := MkFlavour {
  fl_name : string -> exc + string;
  fl_label : string -> exc + string;
  fl_late : exc;
  fl_cleanup : string -> list failure -> exc;
  fl_children : bool;
}.

Section Ops.
Context (fl : flavour).

Definition new_owner (name : string) : exc + owner :=
  match fl_name fl name with
  | inl x => inl x
  | inr name => inr (MkOwner name (Owning []))
  end.

Definition register (o : owner) (label : string) (d : disposer) : exc + (owner * OwnedEffect) :=
  match fl_label fl label with
  | inl x => inl x
  | inr label =>
      match ow_phase o with
      | Owning effects =>
          let e := MkOwnedEffect label d in inr (MkOwner (ow_name o) (Owning (effects ++ [e])), e)
      | _ => inl (fl_late fl)
      end
  end.

Definition close_begin (o : owner) : owner * close_start :=
  match ow_phase o with
  | Owning effects => (MkOwner (ow_name o) Unwinding, Unwind (reverse effects))
  | Unwinding => (o, Wait)
  | Settled r => (o, Return r)
  end.

Definition result_of (name : string) (failures : list failure) : outcome :=
  match failures with [] => None | _ => Some (fl_cleanup fl name failures) end.

Definition close_finish (o : owner) (failures : list failure) : owner :=
  MkOwner (ow_name o) (Settled (result_of (ow_name o) failures)).

Definition closed (o : owner) : bool := match ow_phase o with Settled _ => true | _ => false end.
Definition cleanup_error (o : owner) : outcome := match ow_phase o with Settled r => r | _ => None end.

Definition guard_open (o : owner) : outcome :=
  match ow_phase o with Owning _ => None | _ => Some (fl_late fl) end.

Definition new_child (_ : nat) (name : string) : exc + (owner * string) :=
  match new_owner name with
  | inl x => inl x
  | inr c => inr (c, "scope:" ++ ow_name c)
  end.

Definition contract_ops : OwnerOps owner := {|
  op_new := new_owner;
  op_register := register;
  op_close_begin := close_begin;
  op_close_finish := close_finish;
  op_closed := closed;
  op_cleanup_error := cleanup_error;
  op_enter := if fl_children fl then Some guard_open else None;
  op_child := if fl_children fl then Some new_child else None;
|}.
End Ops.
End Contract.

(** ** Refinement

    [abs] reads the contract's owner off a concrete one, [wf] is the
    representation invariant; every operation commutes with [abs] and keeps
    [wf].  [close_finish] is only ever called by the call that is unwinding. *)
Class Refines {S : Type} (O : OwnerOps S) (fl : Contract.flavour) : Type := {
  abs : S -> Contract.owner;
  wf : S -> Prop;
  new_refines name :
    match op_new name with
    | inl x => Contract.new_owner fl name = inl x
    | inr s => wf s /\ Contract.new_owner fl name = inr (abs s)
    end;
  register_refines s label d : wf s ->
    match op_register s label d with
    | inl x => Contract.register fl (abs s) label d = inl x
    | inr (s', e) => wf s' /\ Contract.register fl (abs s) label d = inr (abs s', e)
    end;
  close_begin_refines s s' start : wf s -> op_close_begin s = (s', start) ->
    wf s' /\ Contract.close_begin (abs s) = (abs s', start);
  close_finish_refines s failures : wf s -> Contract.ow_phase (abs s) = Contract.Unwinding ->
    wf (op_close_finish s failures) /\
    abs (op_close_finish s failures) = Contract.close_finish fl (abs s) failures;
  closed_refines s : wf s -> op_closed s = Contract.closed (abs s);
  cleanup_error_refines s : wf s -> op_cleanup_error s = Contract.cleanup_error (abs s);
  enter_refines : match op_enter, Contract.fl_children fl with
    | Some guard, true => forall s, wf s -> guard s = Contract.guard_open fl (abs s)
    | None, false => True
    | _, _ => False
    end;
  child_refines : match op_child, Contract.fl_children fl with
    | Some new, true => forall p name,
        match new p name with
        | inl x => Contract.new_child fl p name = inl x
        | inr (c, label) => wf c /\ Contract.new_child fl p name = inr (abs c, label)
        end
    | None, false => True
    | _, _ => False
    end;
}.

Definition non_empty (s : string) : exc + string :=
  if decide (strip s = "") then inl (Exc ValueError) else inr (strip s).

Definition scope_flavour : Contract.flavour :=
  Contract.MkFlavour non_empty non_empty (Exc EffectScopeClosedError) EffectCleanupError true.

Definition not_blank (s : string) : exc + string :=
  if is_blank s then inl (Exc ValueError) else inr s.

Definition fiber_flavour : Contract.flavour :=
  Contract.MkFlavour not_blank not_blank (PluginLifecycleError ACTIVATION_FAILED) PluginCleanupError false.

Definition scope_abs (s : Scope.EffectScope) : Contract.owner :=
  Contract.MkOwner (Scope.es_name s)
    (match Scope.es_state s with
     | Scope.OPEN => Contract.Owning (Scope.es_effects s)
     | Scope.CLOSING => Contract.Unwinding
     | Scope.CLOSED => Contract.Settled (Scope.es_cleanup_error s)
     end).

(** The event is set exactly when the scope is closed, and before that there is
    no cleanup error. *)
Definition scope_wf (s : Scope.EffectScope) : Prop :=
  Scope.es_closed s = bool_decide (Scope.es_state s = Scope.CLOSED) /\
  (Scope.es_state s <> Scope.CLOSED -> Scope.es_cleanup_error s = None).

Definition fiber_abs (s : Fiber.PluginFiber) : Contract.owner :=
  Contract.MkOwner (Fiber.pf_fiber_id s)
    (match Fiber.pf_state s with
     | Fiber.OPEN => Contract.Owning (Fiber.pf_effects s)
     | Fiber.CLOSING => Contract.Unwinding
     | Fiber.CLOSED => Contract.Settled (Fiber.pf_cleanup_error s)
     end).

Definition fiber_wf (s : Fiber.PluginFiber) : Prop :=
  Fiber.pf_closed s = bool_decide (Fiber.pf_state s = Fiber.CLOSED) /\
  (Fiber.pf_state s <> Fiber.CLOSED -> Fiber.pf_cleanup_error s = None).

(** Both implementations are refined by the same case analysis on their state. *)
Ltac refine_owner :=
  repeat match goal with
  | H : _ /\ _ |- _ => destruct H
  | |- _ /\ _ => split
  | H : (_, _) = (_, _) |- _ => injection H as <- <-
  | |- context [decide ?P] => destruct (decide P)
  | |- context [if ?b then _ else _] => destruct b
  | x : Scope.EffectScopeState |- _ => destruct x
  | x : Fiber.FiberState |- _ => destruct x
  | |- context [match ?l with [] => _ | _ => _ end] => destruct l
  | H : ?P -> _ = None |- _ => specialize (H ltac:(discriminate))
  | H : ~ (_ <> _) |- _ => exfalso; apply H; discriminate
  | _ => progress (simplify_eq/=)
  end; try done.

#[global, program] Instance scope_refines : Refines Scope.scope_ops scope_flavour := {
  abs := scope_abs;
  wf := scope_wf;
}.
Next Obligation. intros name. simpl. unfold Scope.effect_scope, Contract.new_owner; simpl. unfold non_empty. refine_owner. Qed.
Next Obligation.
  intros [n p st l c er] label d [Hw1 Hw2]. simpl in *. unfold Scope.callback, scope_wf, scope_abs, Contract.register; simpl.
  unfold non_empty. refine_owner.
Qed.
Next Obligation.
  intros [n p st l c er] s' start [Hw1 Hw2] Hb. simpl in *. unfold Scope.close_begin, Contract.close_begin, scope_wf, scope_abs in *; simpl in *.
  refine_owner.
Qed.
Next Obligation.
  intros [n p st l c er] fs [Hw1 Hw2] Hp. simpl in *. unfold Scope.close_finish, Contract.close_finish, scope_wf, scope_abs in *; simpl in *.
  refine_owner.
Qed.
Next Obligation. intros [n p st l c er] [Hw1 Hw2]. unfold scope_abs; simpl in *. refine_owner. Qed.
Next Obligation. intros [n p st l c er] [Hw1 Hw2]. unfold scope_abs; simpl in *. refine_owner. Qed.
Next Obligation. intros [n p st l c er] [Hw1 Hw2]. unfold scope_abs, Scope.enter_guard; simpl in *. refine_owner. Qed.
Next Obligation. intros p name. unfold Scope.new_child, Contract.new_child, Scope.effect_scope, Contract.new_owner; simpl. unfold non_empty. refine_owner. Qed.

#[global, program] Instance fiber_refines : Refines Fiber.fiber_ops fiber_flavour := {
  abs := fiber_abs;
  wf := fiber_wf;
}.
Next Obligation. intros name. simpl. unfold Fiber.plugin_fiber, Contract.new_owner; simpl. unfold not_blank. refine_owner. Qed.
Next Obligation.
  intros [n st l c er] label d [Hw1 Hw2]. simpl in *. unfold Fiber.own, fiber_wf, fiber_abs, Contract.register; simpl. unfold not_blank. refine_owner.
Qed.
Next Obligation.
  intros [n st l c er] s' start [Hw1 Hw2] Hb. simpl in *. unfold Fiber.close_begin, Contract.close_begin, fiber_wf, fiber_abs in *; simpl in *.
  refine_owner.
Qed.
Next Obligation.
  intros [n st l c er] fs [Hw1 Hw2] Hp. simpl in *. unfold Fiber.close_finish, Contract.close_finish, fiber_wf, fiber_abs in *; simpl in *.
  refine_owner.
Qed.
Next Obligation. intros [n st l c er] [Hw1 Hw2]. unfold fiber_abs; simpl in *. refine_owner. Qed.
Next Obligation. intros [n st l c er] [Hw1 Hw2]. unfold fiber_abs; simpl in *. refine_owner. Qed.
Next Obligation. done. Qed.
Next Obligation. done. Qed.
