(* ===== verification/EffectMachine.v ===== *)
(** * Concurrent use of effect owners ([runtime/effects.py], [plugins/lifecycle.py])

    Several tasks call [close], [enter], [callback] (or [own]) and [child] on a
    heap of owners.  A task is a stack of suspended calls; it is interrupted at
    every await, so the calls of different tasks interleave freely.  The
    environment decides what an opaque disposer, an [__aenter__] or an
    [__aexit__] comes back with, and may cancel whatever awaits. *)
From S2P Require Import Prelude PyText Effects.
Open Scope string_scope.

Module EffectMachine.

(** ** Calls in progress

    [FUnwind] is the [close] that owns the unwinding, at the effect [current] with
    [todo] to come; [FWait] is a [close] in [self._closed.wait()]; [FEnter] is
    [enter] awaiting [__aenter__]; [FUndo] is [enter] awaiting [exit_resource]
    before it raises [cause] again. *)
Inductive frame : Type :=
| FUnwind (scope : nat) (current : option OwnedEffect) (todo : list OwnedEffect) (failures : list failure)
| FWait (scope : nat)
| FEnter (scope : nat) (label : string) (resource : nat)
| FUndo (resource : nat) (cause : exc).

(** A task runs its top call, or hands the outcome of a finished call to it. *)
Inductive control : Type := Run | Back (r : outcome).

Record task : Type := MkTask {
  tk_stack : list frame;
  tk_control : control;
}.

Definition finished (t : task) : Prop := tk_stack t = [] /\ exists r, tk_control t = Back r.

#[global] Instance finished_dec t : Decision (finished t).
Proof.
  destruct t as [[|f k] [|r]]; unfold finished; simpl; [right|left|right|right]; naive_solver.
Defined.

(** What an observer sees: registrations, the start and the outcome of every
    disposer, the outcome of every [close], and resources entered and undone. *)
Inductive event : Type :=
| Added (scope : nat) (e : OwnedEffect)
| Started (scope : nat) (e : OwnedEffect)
| Disposed (scope : nat) (e : OwnedEffect) (r : outcome)
| Observed (scope : nat) (r : outcome)
| Acquired (resource : nat)
| Undone (resource : nat).

(** What the environment contributes to a step *)
Inductive input : Type := Go | Outcome (r : outcome) | Cancel.

Inductive action : Type :=
| ANew (name : string)
| ARegister (scope : nat) (label : string) (callable : nat)
| AChild (scope : nat) (name : string)
| AClose (scope : nat)
| AEnter (scope : nat) (label : string) (resource : nat)
| AStep (task : nat) (i : input).

Section Machine.
Context {S : Type} {O : OwnerOps S}.

Record system : Type := MkSystem {
  sys_owners : list S;
  sys_tasks : list task;
  sys_log : list event;
}.

Definition empty_system : system := MkSystem [] [] [].

(** [close] up to its first await, called from a task with the given stack *)
Definition call_close (c : nat) (stack : list frame) (os : list S) : option (task * list S * list event) :=
  match os !! c with
  | None => None
  | Some o =>
      let (o', start) := op_close_begin o in
      let os := <[ c := o' ]> os in
      match start with
      | Return r => Some (MkTask stack (Back r), os, [Observed c r])
      | Wait => Some (MkTask (FWait c :: stack) Run, os, [])
      | Unwind effects => Some (MkTask (FUnwind c None effects [] :: stack) Run, os, [])
      end
  end.

(** The [finally] of [close], after which the call comes back with [r], or with
    the cleanup error if nothing else is being raised *)
Definition settle (s : nat) (failures : list failure) (raising : outcome) (stack : list frame)
    (os : list S) (evs : list event) : option (task * list S * list event) :=
  match os !! s with
  | None => None
  | Some o =>
      let o' := op_close_finish o failures in
      let r := match raising with Some x => Some x | None => op_cleanup_error o' end in
      Some (MkTask stack (Back r), <[ s := o' ]> os, (evs ++ [Observed s r])%list)
  end.

(** The [for] loop of [close] goes on with the next effect *)
Definition next_effect (s : nat) (todo : list OwnedEffect) (fs : list failure) (stack : list frame) (os : list S) :
    option (task * list S * list event) :=
  match todo with
  | [] => settle s fs None stack os []
  | e :: todo =>
      let stack := FUnwind s (Some e) todo fs :: stack in
      match oe_dispose e with
      | CloseOf c =>
          match call_close c stack os with
          | Some (t, os, evs) => Some (t, os, Started s e :: evs)
          | None => None
          end
      | _ => Some (MkTask stack Run, os, [Started s e])
      end
  end.

(** The outcome [r] of the disposer of [e] *)
Definition disposed_effect (s : nat) (e : OwnedEffect) (r : outcome) (todo : list OwnedEffect) (fs : list failure)
    (stack : list frame) (os : list S) : option (task * list S * list event) :=
  match r with
  | None => Some (MkTask (FUnwind s None todo fs :: stack) Run, os, [Disposed s e r])
  | Some x =>
      if fatal x then settle s fs (Some x) stack os [Disposed s e r]
      else Some (MkTask (FUnwind s None todo (fs ++ [MkFailure (oe_label e) x]) :: stack) Run, os, [Disposed s e r])
  end.

(** [enter] after [__aenter__] returned *)
Definition entered (s : nat) (label : string) (resource : nat) (stack : list frame) (os : list S) :
    option (task * list S * list event) :=
  match os !! s with
  | None => None
  | Some o =>
      match op_register o label (ExitOf resource) with
      | inr (o', e) => Some (MkTask stack (Back None), <[ s := o' ]> os, [Acquired resource; Added s e])
      | inl x => Some (MkTask (FUndo resource x :: stack) Run, os, [Acquired resource; Undone resource])
      end
  end.

Definition opaque (d : disposer) : bool := match d with CloseOf _ => false | _ => true end.

(** One step of a task *)
Definition step_task (i : input) (t : task) (os : list S) : option (task * list S * list event) :=
  match tk_control t, tk_stack t, i with
  | Run, FUnwind s None todo fs :: k, Go => next_effect s todo fs k os
  | Run, FUnwind s (Some e) todo fs :: k, Outcome r =>
      if opaque (oe_dispose e) then Some (MkTask (tk_stack t) (Back r), os, []) else None
  | Run, FWait s :: k, Go =>
      match os !! s with
      | Some o => if op_closed o then Some (MkTask k (Back (op_cleanup_error o)), os, [Observed s (op_cleanup_error o)])
                  else None
      | None => None
      end
  | Run, FWait s :: k, Cancel =>
      Some (MkTask k (Back (Some (Exc CancelledError))), os, [Observed s (Some (Exc CancelledError))])
  | Run, FEnter s label resource :: k, Outcome (Some x) => Some (MkTask k (Back (Some x)), os, [])
  | Run, FEnter s label resource :: k, Outcome None => entered s label resource k os
  | Run, FUndo resource x :: k, Outcome r => Some (MkTask (tk_stack t) (Back r), os, [])
  | Back r, FUnwind s (Some e) todo fs :: k, Go => disposed_effect s e r todo fs k os
  | Back r, FUndo resource x :: k, Go =>
      Some (MkTask k (Back (match r with Some y => Some y | None => Some x end)), os, [])
  | _, _, _ => None
  end.

(** A call made at any time by any task, a running disposer included.  A call that
    raises leaves everything as it is; [None] means the action cannot happen. *)
Definition act (y : system) (a : action) : option system :=
  let os := sys_owners y in
  match a with
  | ANew name =>
      match op_new name with
      | inr o => Some (MkSystem (os ++ [o]) (sys_tasks y) (sys_log y))
      | inl _ => Some y
      end
  | ARegister s label callable =>
      match os !! s with
      | None => None
      | Some o =>
          match op_register o label (CallOf callable) with
          | inr (o', e) => Some (MkSystem (<[ s := o' ]> os) (sys_tasks y) (sys_log y ++ [Added s e]))
          | inl _ => Some y
          end
      end
  | AChild s name =>
      match op_child, os !! s with
      | Some new, Some o =>
          match new s name with
          | inl _ => Some y
          | inr (c, label) =>
              match op_register o label (CloseOf (length os)) with
              | inr (o', e) => Some (MkSystem (<[ s := o' ]> os ++ [c]) (sys_tasks y) (sys_log y ++ [Added s e]))
              | inl _ => Some y
              end
          end
      | _, _ => None
      end
  | AClose s =>
      match call_close s [] os with
      | Some (t, os, evs) => Some (MkSystem os (sys_tasks y ++ [t]) (sys_log y ++ evs))
      | None => None
      end
  | AEnter s label resource =>
      match op_enter, os !! s with
      | Some guard, Some o =>
          match guard o with
          | Some _ => Some y
          | None => Some (MkSystem os (sys_tasks y ++ [MkTask [FEnter s label resource] Run]) (sys_log y))
          end
      | _, _ => None
      end
  | AStep i inp =>
      match sys_tasks y !! i with
      | Some t =>
          match step_task inp t os with
          | Some (t, os, evs) => Some (MkSystem os (<[ i := t ]> (sys_tasks y)) (sys_log y ++ evs))
          | None => None
          end
      | None => None
      end
  end.

Fixpoint acts (y : system) (l : list action) : option system :=
  match l with
  | [] => Some y
  | a :: l => match act y a with Some y => acts y l | None => None end
  end.

Definition reachable (y : system) : Prop := exists l, acts empty_system l = Some y.

Lemma acts_app y l1 l2 : acts y (l1 ++ l2) = match acts y l1 with Some y => acts y l2 | None => None end.
Proof. revert y. induction l1 as [|a l1 IH]; intros y; simpl; [done|]. by destruct (act y a). Qed.

Lemma reachable_ind (P : system -> Prop) :
  P empty_system ->
  (forall y a y', reachable y -> P y -> act y a = Some y' -> P y') ->
  forall y, reachable y -> P y.
Proof.
  intros H0 Hs y [l Hl]. revert y Hl. induction l as [|a l IH] using rev_ind; intros y Hl; [by simplify_eq/=|].
  rewrite acts_app in Hl. destruct (acts empty_system l) as [y1|] eqn:H1; [|done]. simpl in Hl.
  destruct (act y1 a) as [y2|] eqn:H2; simplify_eq. eapply Hs; [by exists l|by apply IH|done].
Qed.
End Machine.
Arguments system : clear implicits.

(** ** Reading the log *)
Definition added (s : nat) : list event -> list OwnedEffect :=
  omap (fun ev => match ev with Added s' e => if decide (s' = s) then Some e else None | _ => None end).
Definition started (s : nat) : list event -> list OwnedEffect :=
  omap (fun ev => match ev with Started s' e => if decide (s' = s) then Some e else None | _ => None end).
Definition disposed (s : nat) : list event -> list (OwnedEffect * outcome) :=
  omap (fun ev => match ev with Disposed s' e r => if decide (s' = s) then Some (e, r) else None | _ => None end).

(** The failures [close] records *)
Definition failures_of : list (OwnedEffect * outcome) -> list failure :=
  omap (fun er => match er.2 with Some x => if fatal x then None else Some (MkFailure (oe_label er.1) x) | None => None end).

Definition is_fatal (er : OwnedEffect * outcome) : Prop := exists x, er.2 = Some x /\ fatal x = true.

Definition unwinds (s : nat) (f : frame) : bool :=
  match f with FUnwind s' _ _ _ => bool_decide (s' = s) | _ => false end.
Definition unwinders (s : nat) (fs : list frame) : list frame := List.filter (unwinds s) fs.
Definition frames (ts : list task) : list frame := ts ≫= tk_stack.

Lemma added_app s l1 l2 : added s (l1 ++ l2) = (added s l1 ++ added s l2)%list.
Proof. apply omap_app. Qed.
Lemma started_app s l1 l2 : started s (l1 ++ l2) = (started s l1 ++ started s l2)%list.
Proof. apply omap_app. Qed.
Lemma disposed_app s l1 l2 : disposed s (l1 ++ l2) = (disposed s l1 ++ disposed s l2)%list.
Proof. apply omap_app. Qed.
Lemma failures_of_app l1 l2 : failures_of (l1 ++ l2) = (failures_of l1 ++ failures_of l2)%list.
Proof. apply omap_app. Qed.
Lemma unwinders_app s l1 l2 : unwinders s (l1 ++ l2) = (unwinders s l1 ++ unwinders s l2)%list.
Proof. apply List.filter_app. Qed.

Lemma frames_split ts i t : ts !! i = Some t ->
  exists F1 F2, frames ts = (F1 ++ tk_stack t ++ F2)%list /\
    forall t', frames (<[ i := t' ]> ts) = (F1 ++ tk_stack t' ++ F2)%list.
Proof.
  intros Hi. exists (frames (take i ts)), (frames (drop (i + 1)%nat ts)). split.
  - rewrite <- (take_drop_middle ts i t Hi) at 1. unfold frames. rewrite bind_app. simpl.
    by replace (i + 1)%nat with (S i) by lia.
  - intros t'. rewrite insert_take_drop by (by eapply lookup_lt_Some). unfold frames. rewrite bind_app. simpl.
    by replace (i + 1)%nat with (S i) by lia.
Qed.

Create Rewrite HintDb effects.
#[export] Hint Rewrite added_app started_app disposed_app failures_of_app unwinders_app : effects.

(** ** The invariant of the contract's machine *)
Section Invariant.
Context (fl : Contract.flavour).
#[local] Instance ops : OwnerOps Contract.owner := Contract.contract_ops fl.

(** One owner, the frames that unwind it, and its part of the log *)
Definition slot_ok (s : nat) (o : option Contract.owner) (us : list frame) (ad st : list OwnedEffect)
    (di : list (OwnedEffect * outcome)) : Prop :=
  match o with
  | None => us = [] /\ ad = [] /\ st = [] /\ di = []
  | Some o =>
      match Contract.ow_phase o with
      | Contract.Owning effects => us = [] /\ ad = effects /\ st = [] /\ di = []
      | Contract.Unwinding =>
          exists cur todo, us = [FUnwind s cur todo (failures_of di)] /\
            reverse ad = (st ++ todo)%list /\ st = (di.*1 ++ option_list cur)%list /\ Forall (fun er => ~ is_fatal er) di
      | Contract.Settled r =>
          us = [] /\ r = Contract.result_of fl (Contract.ow_name o) (failures_of di) /\
          exists left, reverse ad = (st ++ left)%list /\ st = di.*1 /\ (left <> [] -> Exists is_fatal di)
      end
  end.

Definition slots_ok (os : list Contract.owner) (fs : list frame) (log : list event) : Prop :=
  forall s, slot_ok s (os !! s) (unwinders s fs) (added s log) (started s log) (disposed s log).

Lemma slots_ok_frames os fs fs' log : (forall s, unwinders s fs = unwinders s fs') -> slots_ok os fs log -> slots_ok os fs' log.
Proof. intros Hf Hs s. rewrite <- Hf. apply Hs. Qed.

(** A change that concerns one owner only *)
Lemma slots_ok_at (s : nat) os fs log os' fs' evs :
  slots_ok os fs log ->
  (forall s', s' <> s -> os' !! s' = os !! s' /\ unwinders s' fs' = unwinders s' fs /\
     added s' evs = [] /\ started s' evs = [] /\ disposed s' evs = []) ->
  slot_ok s (os' !! s) (unwinders s fs') (added s log ++ added s evs) (started s log ++ started s evs)
    (disposed s log ++ disposed s evs) ->
  slots_ok os' fs' (log ++ evs).
Proof.
  intros Hok Hne Heq s'. autorewrite with effects. destruct (decide (s' = s)) as [->|Hs]; [done|].
  destruct (Hne s' Hs) as (-> & -> & -> & -> & ->). rewrite !app_nil_r. apply Hok.
Qed.

Lemma unwinding_alone s cur todo fs F1 k F2 os log :
  slots_ok os (F1 ++ (FUnwind s cur todo fs :: k) ++ F2) log ->
  exists o, os !! s = Some o /\ Contract.ow_phase o = Contract.Unwinding /\
    unwinders s F1 = [] /\ unwinders s k = [] /\ unwinders s F2 = [] /\
    fs = failures_of (disposed s log) /\ reverse (added s log) = (started s log ++ todo)%list /\
    started s log = ((disposed s log).*1 ++ option_list cur)%list /\
    Forall (fun er => ~ is_fatal er) (disposed s log).
Proof.
  intros Hok. specialize (Hok s). rewrite !unwinders_app in Hok. simpl in Hok. rewrite bool_decide_true in Hok by done.
  unfold slot_ok in Hok. destruct (os !! s) as [o|].
  2:{ destruct Hok as [Hx _]. symmetry in Hx. apply (f_equal length) in Hx. rewrite !length_app in Hx. simpl in Hx. lia. }
  exists o. split; [done|]. destruct (Contract.ow_phase o) as [l| |r]; simpl in Hok.
  1,3: destruct Hok as [Hx _]; apply (f_equal length) in Hx; rewrite !length_app in Hx; simpl in Hx; lia.
  destruct Hok as (cur' & todo' & Hx & Had & Hst & Hnf).
  assert (Hlen := f_equal length Hx). rewrite !length_app in Hlen. simpl in Hlen.
  destruct (unwinders s F1); simpl in *; [|lia]. destruct (unwinders s F2); simpl in *; [|rewrite length_app in Hlen; simpl in Hlen; lia].
  destruct (unwinders s k); simpl in *; [|lia]. simplify_eq. done.
Qed.

Lemma unwinders_other s s' cur todo fs : s' <> s -> unwinders s' [FUnwind s cur todo fs] = [].
Proof. intros Hs. simpl. by rewrite bool_decide_false. Qed.

(** Rearranges the frames and the log in a goal about one owner *)
Ltac slot_simpl :=
  repeat first
    [ rewrite list_lookup_insert_eq by (by eapply lookup_lt_Some)
    | rewrite list_lookup_insert_ne by done
    | rewrite bool_decide_true by done
    | rewrite bool_decide_false by done
    | rewrite decide_True by done
    | rewrite decide_False by done
    | rewrite app_nil_r
    | progress autorewrite with effects
    | progress simpl ].

Lemma call_close_ok c k os F1 F2 log t' os' evs :
  slots_ok os (F1 ++ k ++ F2) log -> call_close c k os = Some (t', os', evs) ->
  slots_ok os' (F1 ++ tk_stack t' ++ F2) (log ++ evs).
Proof.
  intros Hok Hc. unfold call_close in Hc. destruct (os !! c) as [o|] eqn:Ho; [|done].
  assert (Hlt := lookup_lt_Some _ _ _ Ho). pose proof (Hok c) as Hs. rewrite Ho in Hs. simpl in Hs.
  simpl in Hc. unfold Contract.close_begin in Hc.
  destruct (Contract.ow_phase o) as [l| |r] eqn:Hp; simplify_eq; apply (slots_ok_at c _ _ _ _ _ _ Hok).
  - intros s' Hne. slot_simpl. done.
  - slot_simpl. destruct Hs as (Hu & Ha & Hst & Hdi). rewrite !unwinders_app in Hu.
    apply app_eq_nil in Hu as [-> [-> ->]%app_eq_nil]. exists None, (reverse l). rewrite Hst, Hdi, Ha. done.
  - intros s' Hne. slot_simpl. done.
  - slot_simpl. rewrite Hp. rewrite !unwinders_app in Hs. exact Hs.
  - intros s' Hne. slot_simpl. done.
  - slot_simpl. rewrite Hp. rewrite !unwinders_app in Hs. exact Hs.
Qed.

Lemma settle_ok s fs x cur todo k os F1 F2 log t' os' evs0 evs :
  slots_ok os (F1 ++ (FUnwind s cur todo fs :: k) ++ F2) log ->
  (x = None /\ cur = None /\ todo = [] /\ evs0 = [] \/
   exists e y, cur = Some e /\ x = Some y /\ fatal y = true /\ evs0 = [Disposed s e x]) ->
  settle s fs x k os evs0 = Some (t', os', evs) ->
  slots_ok os' (F1 ++ tk_stack t' ++ F2) (log ++ evs).
Proof.
  intros Hok Hcase Hc. destruct (unwinding_alone _ _ _ _ _ _ _ _ _ Hok) as (o & Ho & Hp & HF1 & Hk & HF2 & Hfs & Had & Hst & Hnf).
  assert (Hlt := lookup_lt_Some _ _ _ Ho). unfold settle in Hc. rewrite Ho in Hc. simplify_eq/=.
  apply (slots_ok_at s _ _ _ _ _ _ Hok).
  - intros s' Hne. slot_simpl. destruct Hcase as [(-> & -> & -> & ->)|(e & y & -> & -> & Hy & ->)]; simpl;
      rewrite ?(decide_False (P := s = s')) by congruence; done.
  - slot_simpl. rewrite HF1, Hk, HF2. split; [done|].
    destruct Hcase as [(-> & -> & -> & ->)|(e & y & -> & -> & Hy & ->)]; slot_simpl.
    + split; [done|]. exists []. simpl in Hst. rewrite app_nil_r in Hst. done.
    + rewrite Hy. slot_simpl. split; [done|]. exists todo. split; [done|]. split; [by rewrite fmap_app|].
      intros _. apply Exists_app. right. apply Exists_exists. exists (e, Some y). split; [by left|]. by exists y.
Qed.

Lemma next_effect_ok s todo fs k os F1 F2 log t' os' evs :
  slots_ok os (F1 ++ (FUnwind s None todo fs :: k) ++ F2) log ->
  next_effect s todo fs k os = Some (t', os', evs) ->
  slots_ok os' (F1 ++ tk_stack t' ++ F2) (log ++ evs).
Proof.
  intros Hok Hc. destruct todo as [|e todo]; simpl in Hc.
  { eapply settle_ok; [exact Hok|by left|exact Hc]. }
  assert (Hok' : slots_ok os (F1 ++ (FUnwind s (Some e) todo fs :: k) ++ F2) (log ++ [Started s e])).
  { destruct (unwinding_alone _ _ _ _ _ _ _ _ _ Hok) as (o & Ho & Hp & HF1 & Hk & HF2 & Hfs & Had & Hst & Hnf).
    apply (slots_ok_at s _ _ _ _ _ _ Hok).
    - intros s' Hne. slot_simpl. done.
    - rewrite Ho. simpl. rewrite Hp. slot_simpl. rewrite HF1, Hk, HF2. exists (Some e), todo. rewrite Hfs, Had, Hst. simpl.
      rewrite !app_nil_r, <- app_assoc. done. }
  destruct (oe_dispose e) as [n|n|c]; simplify_eq; try exact Hok'.
  destruct (call_close c (FUnwind s (Some e) todo fs :: k) os) as [[[t1 os1] evs1]|] eqn:Hcc; simplify_eq.
  replace (log ++ Started s e :: evs1)%list with ((log ++ [Started s e]) ++ evs1)%list by (by rewrite <- app_assoc).
  eapply call_close_ok; [exact Hok'|exact Hcc].
Qed.

Lemma disposed_effect_ok s e r todo fs k os F1 F2 log t' os' evs :
  slots_ok os (F1 ++ (FUnwind s (Some e) todo fs :: k) ++ F2) log ->
  disposed_effect s e r todo fs k os = Some (t', os', evs) ->
  slots_ok os' (F1 ++ tk_stack t' ++ F2) (log ++ evs).
Proof.
  intros Hok Hc. assert (Hr : (exists x, r = Some x /\ fatal x = true) \/ ~ exists x, r = Some x /\ fatal x = true).
  { destruct r as [x|]; [|right; by intros (? & ? & _)]. destruct (fatal x) eqn:Hx; [left; eauto|right; intros (? & ? & ?); congruence]. }
  destruct Hr as [(x & -> & Hx)|Hnf'].
  { simpl in Hc. rewrite Hx in Hc. eapply settle_ok; [exact Hok| |exact Hc]. right. by exists e, x. }
  destruct (unwinding_alone _ _ _ _ _ _ _ _ _ Hok) as (o & Ho & Hp & HF1 & Hk & HF2 & Hfs & Had & Hst & Hnf).
  assert (Hgoal : slots_ok os
    (F1 ++ (FUnwind s None todo (failures_of (disposed s log ++ [(e, r)])) :: k) ++ F2) (log ++ [Disposed s e r])).
  { apply (slots_ok_at s _ _ _ _ _ _ Hok).
    - intros s' Hne. slot_simpl. done.
    - rewrite Ho. simpl. rewrite Hp. slot_simpl. rewrite HF1, Hk, HF2. exists None, todo. rewrite Had, Hst. simpl.
      rewrite fmap_app. simpl. rewrite !app_nil_r. split_and!; [done..|]. apply Forall_app. split; [done|].
      apply Forall_singleton. intros (x & Hx1 & Hx2). apply Hnf'. by exists x. }
  rewrite failures_of_app, <- Hfs in Hgoal. destruct r as [x|]; simpl in Hc.
  - simpl in Hgoal. destruct (fatal x) eqn:Hx; [exfalso; apply Hnf'; by exists x|]. by simplify_eq.
  - simpl in Hgoal. rewrite app_nil_r in Hgoal. by simplify_eq.
Qed.

(** A registration *)
Lemma register_slot_ok (s : nat) (o o' : Contract.owner) (label : string) (d : disposer) e os fs log evs0 :
  slots_ok os fs log -> os !! s = Some o -> Contract.register fl o label d = inr (o', e) ->
  (forall s', added s' evs0 = [] /\ started s' evs0 = [] /\ disposed s' evs0 = []) ->
  slots_ok (<[ s := o' ]> os) fs (log ++ (evs0 ++ [Added s e])).
Proof.
  intros Hok Ho Hr Hevs. assert (Hlt := lookup_lt_Some _ _ _ Ho). apply (slots_ok_at s _ _ _ _ _ _ Hok).
  - intros s' Hne. slot_simpl. destruct (Hevs s') as (-> & -> & ->). done.
  - pose proof (Hok s) as Hs. rewrite Ho in Hs. simpl in Hs. unfold Contract.register in Hr.
    destruct (Contract.fl_label fl label) as [x|clean]; [done|]. destruct (Contract.ow_phase o) as [l| |]; simplify_eq.
    slot_simpl. destruct (Hevs s) as (-> & -> & ->), Hs as (Hu & -> & -> & ->). done.
Qed.

Lemma entered_ok s label resource k os F1 F2 log t' os' evs :
  slots_ok os (F1 ++ (FEnter s label resource :: k) ++ F2) log ->
  entered s label resource k os = Some (t', os', evs) ->
  slots_ok os' (F1 ++ tk_stack t' ++ F2) (log ++ evs).
Proof.
  intros Hok Hc. unfold entered in Hc. destruct (os !! s) as [o|] eqn:Ho; [|done]. simpl in Hc.
  assert (Hok1 : slots_ok os (F1 ++ k ++ F2) log).
  { eapply slots_ok_frames; [|exact Hok]. intros s'. autorewrite with effects. done. }
  destruct (Contract.register fl o label (ExitOf resource)) as [x|[o' e]] eqn:Hr; simplify_eq/=.
  - intros s'. slot_simpl. specialize (Hok1 s'). autorewrite with effects in Hok1. exact Hok1.
  - apply (register_slot_ok s o o' label (ExitOf resource) e os _ log [Acquired resource] Hok1 Ho Hr). done.
Qed.

Lemma step_task_ok i t os F1 F2 log t' os' evs :
  slots_ok os (F1 ++ tk_stack t ++ F2) log -> step_task i t os = Some (t', os', evs) ->
  slots_ok os' (F1 ++ tk_stack t' ++ F2) (log ++ evs).
Proof.
  intros Hok Hs. destruct t as [stack ctl]. unfold step_task in Hs. simpl in *.
  assert (Hpop : forall f, (forall s', unwinds s' f = false) -> forall k, stack = f :: k ->
     slots_ok os (F1 ++ k ++ F2) (log ++ [])).
  { intros f Hf k ->. rewrite app_nil_r. eapply slots_ok_frames; [|exact Hok]. intros s'. autorewrite with effects.
    simpl. by rewrite Hf. }
  assert (Hobs : forall k s r, slots_ok os k (log ++ []) -> slots_ok os k (log ++ [Observed s r])).
  { intros k s r Hk s'. specialize (Hk s'). rewrite app_nil_r in Hk. slot_simpl. exact Hk. }
  destruct ctl as [|r], stack as [|[s [e|] todo fs|s|s label resource|resource x] k]; try done;
    destruct i as [|ri|]; try done.
  - case_match; simplify_eq. by rewrite app_nil_r.
  - eapply next_effect_ok; eauto.
  - destruct (os !! s) as [o|]; [|done]. simpl in Hs. destruct (Contract.closed o); simplify_eq/=. by apply Hobs, (Hpop (FWait s)).
  - simplify_eq/=. by apply Hobs, (Hpop (FWait s)).
  - destruct ri; simplify_eq/=; [by apply (Hpop (FEnter s label resource))|]. eapply entered_ok; eauto.
  - simplify_eq/=. by rewrite app_nil_r.
  - eapply disposed_effect_ok; eauto.
  - simplify_eq/=. by apply (Hpop (FUndo resource x)).
Qed.

Lemma frames_app ts ts' : frames (ts ++ ts') = (frames ts ++ frames ts')%list.
Proof. apply bind_app. Qed.

(** A new owner *)
Lemma slots_ok_new name os fs log : slots_ok os fs log -> slots_ok (os ++ [Contract.MkOwner name (Contract.Owning [])]) fs log.
Proof.
  intros Hok s. specialize (Hok s). destruct (decide (s < length os)%nat) as [Hlt|Hge].
  - by rewrite lookup_app_l.
  - rewrite lookup_ge_None_2 in Hok by lia. rewrite lookup_app_r by lia.
    destruct (s - length os)%nat; simpl in *; done.
Qed.

Lemma act_ok y a y' :
  slots_ok (sys_owners y) (frames (sys_tasks y)) (sys_log y) -> act y a = Some y' ->
  slots_ok (sys_owners y') (frames (sys_tasks y')) (sys_log y').
Proof.
  destruct y as [os ts log]. simpl. intros Hok Ha. destruct a as [name|s label n|s name|s|s label n|i inp]; simpl in Ha.
  - unfold Contract.new_owner in Ha. destruct (Contract.fl_name fl name); simplify_eq/=; [done|]. by apply slots_ok_new.
  - destruct (os !! s) as [o|] eqn:Ho; [|done].
    destruct (Contract.register fl o label (CallOf n)) as [x|[o' e]] eqn:Hr; simplify_eq/=; [done|].
    by apply (register_slot_ok s o o' label (CallOf n) e os _ log []).
  - destruct (Contract.fl_children fl); [|done]. destruct (os !! s) as [o|] eqn:Ho; [|done].
    unfold Contract.new_child, Contract.new_owner in Ha. destruct (Contract.fl_name fl name) as [x|cn]; simplify_eq/=; [done|].
    destruct (Contract.register fl o _ _) as [x|[o' e]] eqn:Hr; simplify_eq/=; [done|].
    apply slots_ok_new. by apply (register_slot_ok s o o' _ _ e os _ log [] Hok Ho Hr).
  - destruct (call_close s [] os) as [[[t' os'] evs]|] eqn:Hc; simplify_eq/=. rewrite frames_app. unfold frames at 2. simpl.
    apply (call_close_ok s [] os _ [] log t' os' evs); [|done]. simpl. by rewrite app_nil_r.
  - destruct (Contract.fl_children fl); [|done]. destruct (os !! s) as [o|] eqn:Ho; [|done].
    destruct (Contract.guard_open fl o); simplify_eq/=; [done|]. eapply slots_ok_frames; [|exact Hok]. intros s'.
    rewrite frames_app. autorewrite with effects. unfold frames at 3. simpl. by rewrite app_nil_r.
  - destruct (ts !! i) as [t|] eqn:Hi; [|done]. destruct (step_task inp t os) as [[[t' os'] evs]|] eqn:Hs; simplify_eq/=.
    destruct (frames_split ts i t Hi) as (F1 & F2 & HF & HF'). rewrite HF'. rewrite HF in Hok. eapply step_task_ok; eauto.
Qed.

Lemma reachable_slots y : reachable y -> slots_ok (sys_owners y) (frames (sys_tasks y)) (sys_log y).
Proof.
  revert y. apply reachable_ind; [by intros s|]. intros y a y' _ Hok Ha. by eapply act_ok.
Qed.
End Invariant.

(** ** Implementations run like the contract *)
Section Simulation.
Context {S : Type} {O : OwnerOps S} (fl : Contract.flavour) {R : Refines O fl}.
#[local] Hint Extern 0 (OwnerOps Contract.owner) => exact (ops fl) : typeclass_instances.

Definition abs_system (y : system S) : system Contract.owner :=
  MkSystem (abs <$> sys_owners y) (sys_tasks y) (sys_log y).

Definition abs_result (r : task * list S * list event) : task * list Contract.owner * list event :=
  let '(t, os, evs) := r in (t, abs <$> os, evs).

Definition owners_wf (r : option (task * list S * list event)) : Prop :=
  match r with Some (_, os, _) => Forall wf os | None => True end.

Definition refined (r : option (task * list S * list event)) (r' : option (task * list Contract.owner * list event)) : Prop :=
  r' = (abs_result <$> r) /\ owners_wf r.

Lemma owner_wf (os : list S) c o : Forall wf os -> os !! c = Some o -> wf o.
Proof. intros Hwf Ho. by eapply Forall_lookup_1. Qed.

Lemma call_close_refines c k os : Forall wf os ->
  refined (call_close c k os) (call_close c k (abs <$> os)).
Proof.
  intros Hwf. unfold call_close. rewrite list_lookup_fmap. destruct (os !! c) as [o|] eqn:Ho; simpl; [|done].
  destruct (op_close_begin o) as [o' start] eqn:Hb.
  destruct (close_begin_refines o o' start (owner_wf _ _ _ Hwf Ho) Hb) as [Hwf' ->].
  assert (Hos : Forall wf (<[ c := o' ]> os)) by (by apply Forall_insert). rewrite <- list_fmap_insert.
  by destruct start.
Qed.

Lemma settle_refines s fs x k os evs : Forall wf os ->
  (forall o, os !! s = Some o -> Contract.ow_phase (abs o) = Contract.Unwinding) ->
  refined (settle s fs x k os evs) (settle s fs x k (abs <$> os) evs).
Proof.
  intros Hwf Hp. unfold settle. rewrite list_lookup_fmap. destruct (os !! s) as [o|] eqn:Ho; simpl; [|done].
  destruct (close_finish_refines o fs (owner_wf _ _ _ Hwf Ho) (Hp o eq_refl)) as [Hwf' <-].
  rewrite (cleanup_error_refines _ Hwf'), <- list_fmap_insert. split; [done|]. simpl. by apply Forall_insert.
Qed.

Lemma next_effect_refines s todo fs k os : Forall wf os ->
  (forall o, os !! s = Some o -> Contract.ow_phase (abs o) = Contract.Unwinding) ->
  refined (next_effect s todo fs k os) (next_effect s todo fs k (abs <$> os)).
Proof.
  intros Hwf Hp. destruct todo as [|e todo]; simpl; [by apply settle_refines|]. destruct (oe_dispose e) as [n|n|c]; [done..|].
  destruct (call_close_refines c (FUnwind s (Some e) todo fs :: k) os Hwf) as [-> Hw].
  by destruct (call_close c _ os) as [[[t' os'] evs]|].
Qed.

Lemma disposed_effect_refines s e r todo fs k os : Forall wf os ->
  (forall o, os !! s = Some o -> Contract.ow_phase (abs o) = Contract.Unwinding) ->
  refined (disposed_effect s e r todo fs k os) (disposed_effect s e r todo fs k (abs <$> os)).
Proof.
  intros Hwf Hp. destruct r as [x|]; simpl; [|done]. destruct (fatal x); [by apply settle_refines|done].
Qed.

Lemma register_result (o : S) label d : wf o ->
  Contract.register fl (abs o) label d =
    match op_register o label d with inl x => inl x | inr (o', e) => inr (abs o', e) end /\
  (forall o' e, op_register o label d = inr (o', e) -> wf o').
Proof.
  intros Hwf. pose proof (register_refines o label d Hwf) as Hr. destruct (op_register o label d) as [x|[o' e]].
  - split; [done|]. by intros ??[=].
  - destruct Hr as [Hw ->]. split; [done|]. by intros ?? [= <- <-].
Qed.

Lemma entered_refines s label resource k os : Forall wf os ->
  refined (entered s label resource k os) (entered s label resource k (abs <$> os)).
Proof.
  intros Hwf. unfold entered. rewrite list_lookup_fmap. destruct (os !! s) as [o|] eqn:Ho; simpl; [|done].
  destruct (register_result o label (ExitOf resource) (owner_wf _ _ _ Hwf Ho)) as [-> Hw].
  destruct (op_register o label (ExitOf resource)) as [x|[o' e]]; [done|]. rewrite <- list_fmap_insert. split; [done|].
  simpl. apply Forall_insert; [done|]. by eapply Hw.
Qed.

Lemma step_task_refines i t os : Forall wf os ->
  (forall s cur todo fs k, tk_stack t = FUnwind s cur todo fs :: k -> forall o, os !! s = Some o ->
     Contract.ow_phase (abs o) = Contract.Unwinding) ->
  refined (step_task i t os) (step_task i t (abs <$> os)).
Proof.
  intros Hwf Hp. destruct t as [stack ctl]. unfold step_task. simpl in *.
  destruct ctl as [|r], stack as [|[s [e|] todo fs|s|s label resource|resource x] k]; try done;
    destruct i as [|ri|]; try done.
  - by destruct (opaque (oe_dispose e)).
  - apply next_effect_refines; [done|]. by eapply Hp.
  - rewrite list_lookup_fmap. destruct (os !! s) as [o|] eqn:Ho; simpl; [|done].
    rewrite <- (closed_refines o), <- (cleanup_error_refines o) by (by eapply owner_wf). by destruct (op_closed o).
  - destruct ri; [done|]. by apply entered_refines.
  - apply disposed_effect_refines; [done|]. by eapply Hp.
Qed.

Lemma act_refines y a : Forall wf (sys_owners y) -> reachable (abs_system y) ->
  act (abs_system y) a = (abs_system <$> act y a) /\
  (forall y', act y a = Some y' -> Forall wf (sys_owners y')).
Proof.
  intros Hwf Hreach%reachable_slots. destruct y as [os ts log].
  destruct a as [name|s label n|s name|s|s label n|i inp]; simpl in *.
  - pose proof (new_refines name) as Hn. destruct (op_new name) as [x|o]; simpl in *.
    + rewrite Hn. split; [done|]. by intros y' [= <-].
    + destruct Hn as [Hw ->]. split; [unfold abs_system; simpl; by rewrite fmap_app|]. intros y' [= <-]. simpl.
      apply Forall_app. by split; [|constructor].
  - rewrite list_lookup_fmap. destruct (os !! s) as [o|] eqn:Ho; simpl; [|done].
    destruct (register_result o label (CallOf n) (owner_wf _ _ _ Hwf Ho)) as [-> Hw].
    destruct (op_register o label (CallOf n)) as [x|[o' e]].
    + split; [done|]. by intros y' [= <-].
    + split; [unfold abs_system; simpl; by rewrite list_fmap_insert|]. intros y' [= <-]. simpl.
      apply Forall_insert; [done|]. by eapply Hw.
  - pose proof child_refines as Hch. rewrite list_lookup_fmap, length_fmap.
    destruct op_child as [new|], (Contract.fl_children fl); try done.
    destruct (os !! s) as [o|] eqn:Ho; simpl; [|done]. specialize (Hch s name).
    destruct (new s name) as [x|[c label]].
    + rewrite Hch. split; [done|]. by intros y' [= <-].
    + destruct Hch as [Hwc ->]. destruct (register_result o label (CloseOf (length os)) (owner_wf _ _ _ Hwf Ho)) as [-> Hw].
      destruct (op_register o label (CloseOf (length os))) as [x|[o' e]].
      * split; [done|]. by intros y' [= <-].
      * split; [unfold abs_system; simpl; by rewrite fmap_app, list_fmap_insert|]. intros y' [= <-]. simpl.
        apply Forall_app. split; [|by constructor]. apply Forall_insert; [done|]. by eapply Hw.
  - destruct (call_close_refines s [] os Hwf) as [-> Hw].
    destruct (call_close s [] os) as [[[t' os'] evs]|]; [|done]. split; [done|]. by intros y' [= <-].
  - pose proof enter_refines as Hen. rewrite list_lookup_fmap. destruct op_enter as [g|], (Contract.fl_children fl); try done.
    destruct (os !! s) as [o|] eqn:Ho; simpl; [|done]. rewrite <- Hen by (by eapply owner_wf).
    destruct (g o); (split; [done|]); by intros y' [= <-].
  - destruct (ts !! i) as [t|] eqn:Hi; [|done]. destruct (step_task_refines inp t os Hwf) as [-> Hw].
    + intros s cur todo fs k Hk o Ho. destruct (frames_split ts i t Hi) as (F1 & F2 & HF & _). rewrite HF, Hk in Hreach.
      apply unwinding_alone in Hreach as (o' & Ho' & Hph & _). rewrite list_lookup_fmap, Ho in Ho'. by simplify_eq/=.
    + destruct (step_task inp t os) as [[[t' os'] evs]|]; [|done]. split; [done|]. by intros y' [= <-].
Qed.

Lemma acts_refine l y : acts empty_system l = Some y ->
  Forall wf (sys_owners y) /\ acts empty_system l = Some (abs_system y).
Proof.
  revert y. induction l as [|a l IH] using rev_ind; intros y Hl.
  { simplify_eq/=. split; [constructor|done]. }
  rewrite acts_app in Hl. destruct (acts (S := S) empty_system l) as [y1|] eqn:H1; [|done]. simpl in Hl.
  destruct (IH _ eq_refl) as [Hwf Habs]. destruct (act y1 a) as [y2|] eqn:H2; simplify_eq.
  destruct (act_refines y1 a Hwf) as [Ha Hw]; [by exists l|]. split; [by apply Hw|].
  rewrite acts_app, Habs. simpl. by rewrite Ha, H2.
Qed.

Lemma reachable_refines y : reachable y -> Forall wf (sys_owners y) /\ reachable (abs_system y).
Proof. intros [l Hl]. destruct (acts_refine l y Hl) as [Hwf Ha]. split; [done|]. by exists l. Qed.
End Simulation.
End EffectMachine.
