(* ===== verification/EffectProps.v ===== *)
(** * What every history of effect owners satisfies

    Proved once for the contract of [Effects] and carried over to [EffectScope]
    and [PluginFiber] by the simulation of [EffectMachine]. *)
From S2P Require Import Prelude PyText Effects EffectMachine.
Open Scope string_scope.

Module EffectProps.
Import EffectMachine.

Section Outcomes.
Context (fl : Contract.flavour).
#[local] Hint Extern 0 (OwnerOps Contract.owner) => exact (ops fl) : typeclass_instances.

(** ** What the callers of [close] observe *)

Definition settled (os : list Contract.owner) (s : nat) (r : outcome) : Prop :=
  exists o, os !! s = Some o /\ Contract.ow_phase o = Contract.Settled r.

Definition outcome_ok (os : list Contract.owner) (log : list event) (s : nat) (r : outcome) : Prop :=
  r = Some (Exc CancelledError) \/ (exists e, (e, r) ∈ disposed s log /\ is_fatal (e, r)) \/ settled os s r.

Definition settled_kept (os os' : list Contract.owner) : Prop := forall s r, settled os s r -> settled os' s r.

Definition grows (os : list Contract.owner) (log : list event) (os' : list Contract.owner) (evs : list event) : Prop :=
  settled_kept os os' /\ forall s r, Observed s r ∈ evs -> outcome_ok os' (log ++ evs) s r.

Lemma settled_kept_refl os : settled_kept os os.
Proof. by intros s r. Qed.

Lemma settled_kept_insert os s o o' :
  os !! s = Some o -> (forall r, Contract.ow_phase o = Contract.Settled r -> Contract.ow_phase o' = Contract.Settled r) ->
  settled_kept os (<[ s := o' ]> os).
Proof.
  intros Ho Hr s' r (o1 & Ho1 & Hp). destruct (decide (s' = s)) as [->|Hne].
  - simplify_eq. exists o'. rewrite list_lookup_insert_eq by (by eapply lookup_lt_Some). eauto.
  - exists o1. by rewrite list_lookup_insert_ne.
Qed.

Lemma settled_kept_app os os1 : settled_kept os (os ++ os1).
Proof. intros s r (o & Ho & Hp). exists o. split; [by apply lookup_app_l_Some|done]. Qed.

Lemma outcome_ok_mono os log os' evs s r :
  settled_kept os os' -> outcome_ok os log s r -> outcome_ok os' (log ++ evs) s r.
Proof.
  intros Hk [->|[(e & He & Hf)|Hs]]; [by left| |right; right; by apply Hk].
  right. left. exists e. rewrite disposed_app, elem_of_app. by split; [left|].
Qed.

Lemma call_close_grows c k os log t' os' evs : call_close c k os = Some (t', os', evs) -> grows os log os' evs.
Proof.
  unfold call_close. destruct (os !! c) as [o|] eqn:Ho; [|done]. simpl. unfold Contract.close_begin.
  destruct (Contract.ow_phase o) as [l| |r] eqn:Hp; intros Hc; simplify_eq; (split;
    [by apply (settled_kept_insert _ _ o); [|rewrite Hp]|]).
  1,2: by intros s r ?%not_elem_of_nil.
  intros s r' [= -> ->]%list_elem_of_singleton. right. right. exists o. by rewrite list_lookup_insert_eq by (by eapply lookup_lt_Some).
Qed.

Lemma settle_grows s fs x k os log cur todo F1 F2 t' os' evs0 evs :
  slots_ok fl os (F1 ++ (FUnwind s cur todo fs :: k) ++ F2) log ->
  (x = None /\ evs0 = [] \/ exists e y, x = Some y /\ fatal y = true /\ evs0 = [Disposed s e x]) ->
  settle s fs x k os evs0 = Some (t', os', evs) -> grows os log os' evs.
Proof.
  intros Hok Hcase Hc. destruct (unwinding_alone _ _ _ _ _ _ _ _ _ _ Hok) as (o & Ho & Hp & _).
  assert (Hlt := lookup_lt_Some _ _ _ Ho). unfold settle in Hc. rewrite Ho in Hc. simplify_eq/=.
  split; [by apply (settled_kept_insert _ _ o); [|rewrite Hp]|].
  intros s' r Hin. destruct Hcase as [(-> & ->)|(e & y & -> & Hy & ->)].
  - apply list_elem_of_singleton in Hin as [= -> ->]. right. right. eexists. by rewrite list_lookup_insert_eq.
  - apply elem_of_app in Hin as [Hin|Hin]; apply list_elem_of_singleton in Hin as [=]; subst. right. left. exists e.
    split; [|by exists y]. rewrite disposed_app. apply elem_of_app. right. simpl. rewrite decide_True by done. by left.
Qed.

Lemma step_task_grows i t os F1 F2 log t' os' evs :
  slots_ok fl os (F1 ++ tk_stack t ++ F2) log -> step_task i t os = Some (t', os', evs) -> grows os log os' evs.
Proof.
  intros Hok Hs. destruct t as [stack ctl]. unfold step_task in Hs. simpl in *.
  assert (Hnil : grows os log os []) by (split; [apply settled_kept_refl|by intros s r ?%not_elem_of_nil]).
  destruct ctl as [|r], stack as [|[s [e|] todo fs|s|s label resource|resource x] k]; try done;
    destruct i as [|ri|]; try done; try (by simplify_eq).
  - case_match; by simplify_eq.
  - destruct todo as [|e todo]; simpl in Hs; [eapply settle_grows; [exact Hok|by left|exact Hs]|].
    assert (Hst : forall os1 evs1, grows os (log ++ [Started s e]) os1 evs1 -> grows os log os1 (Started s e :: evs1)).
    { intros os1 evs1 [Hk Ho]. split; [done|]. intros s' r [[=]|Hin]%elem_of_cons. specialize (Ho s' r Hin).
      by rewrite <- app_assoc in Ho. }
    destruct (oe_dispose e) as [n|n|c]; simplify_eq; [apply Hst; split; [apply settled_kept_refl|by intros ?? ?%not_elem_of_nil]..|].
    destruct (call_close c (FUnwind s (Some e) todo fs :: k) os) as [[[t1 os1] evs1]|] eqn:Hcc; simplify_eq.
    apply Hst. by eapply call_close_grows.
  - destruct (os !! s) as [o|] eqn:Ho; [|done]. simpl in Hs. unfold Contract.closed in Hs.
    destruct (Contract.ow_phase o) as [| |r] eqn:Hp; simplify_eq/=. split; [apply settled_kept_refl|].
    intros s' r' [= -> ->]%list_elem_of_singleton. right. right. exists o. unfold Contract.cleanup_error. by rewrite Hp.
  - simplify_eq. split; [apply settled_kept_refl|]. intros s' r' [= -> ->]%list_elem_of_singleton. by left.
  - destruct ri; [by simplify_eq|]. unfold entered in Hs. destruct (os !! s) as [o|] eqn:Ho; [|done]. simpl in Hs.
    unfold Contract.register in Hs. destruct (Contract.fl_label fl label); [|destruct (Contract.ow_phase o) eqn:Hp]; simplify_eq.
    1,3,4: split; [apply settled_kept_refl|]; intros s' r; rewrite !elem_of_cons; intros [[=]|[[=]|?%not_elem_of_nil]]; done.
    split; [by apply (settled_kept_insert _ _ o); [|rewrite Hp]|].
    intros s' r; rewrite !elem_of_cons; intros [[=]|[[=]|?%not_elem_of_nil]]; done.
  - unfold disposed_effect in Hs.
    assert (Hd : forall r, grows os log os [Disposed s e r]).
    { intros r'. split; [apply settled_kept_refl|]. by intros s' r'' [=]%list_elem_of_singleton. }
    destruct r as [x|]; [|by simplify_eq]. destruct (fatal x) eqn:Hx; [|by simplify_eq].
    eapply settle_grows; [exact Hok| |exact Hs]. right. by exists e, x.
Qed.

Definition observed_ok (y : system Contract.owner) : Prop :=
  forall s r, Observed s r ∈ sys_log y -> outcome_ok (sys_owners y) (sys_log y) s r.

Lemma observed_ok_grows os ts log os' ts' evs :
  observed_ok (MkSystem os ts log) -> grows os log os' evs -> observed_ok (MkSystem os' ts' (log ++ evs)).
Proof.
  intros Hok [Hk Hn] s r [Hin|Hin]%elem_of_app; [|by apply Hn]. by apply (outcome_ok_mono os); [|apply Hok].
Qed.

Lemma register_grows s o o' label d e os log :
  os !! s = Some o -> Contract.register fl o label d = inr (o', e) -> grows os log (<[ s := o' ]> os) [Added s e].
Proof.
  intros Ho Hr. split; [|by intros s' r [=]%list_elem_of_singleton]. apply (settled_kept_insert _ _ o); [done|].
  unfold Contract.register in Hr. destruct (Contract.fl_label fl label); [done|]. by destruct (Contract.ow_phase o); simplify_eq.
Qed.

Lemma reachable_observed y : reachable y -> observed_ok y.
Proof.
  revert y. apply reachable_ind; [by intros s r ?%not_elem_of_nil|].
  intros [os ts log] a y' Hreach%reachable_slots Hok Ha. simpl in Hreach.
  destruct a as [name|s label n|s name|s|s label n|i inp]; simpl in Ha.
  - destruct (Contract.new_owner fl name) as [x|o]; simplify_eq; [done|]. intros s r Hin.
    pose proof (outcome_ok_mono os log (os ++ [o]) [] s r (settled_kept_app _ _) (Hok s r Hin)) as Hm.
    by rewrite app_nil_r in Hm.
  - destruct (os !! s) as [o|] eqn:Ho; [|done]. destruct (Contract.register fl o label (CallOf n)) as [x|[o' e]] eqn:Hr;
      simplify_eq; [done|]. eapply observed_ok_grows; [exact Hok|]. by eapply register_grows.
  - destruct (Contract.fl_children fl); [|done]. destruct (os !! s) as [o|] eqn:Ho; [|done].
    destruct (Contract.new_child fl s name) as [x|[c label]]; simplify_eq; [done|].
    destruct (Contract.register fl o label (CloseOf (length os))) as [x|[o' e]] eqn:Hr; simplify_eq; [done|].
    eapply observed_ok_grows; [exact Hok|]. destruct (register_grows s o o' label _ e os log Ho Hr) as [Hk Hn].
    split; [|by intros s' r [=]%list_elem_of_singleton]. intros s' r Hs. by apply settled_kept_app, Hk.
  - destruct (call_close s [] os) as [[[t' os'] evs]|] eqn:Hc; simplify_eq. eapply observed_ok_grows; [exact Hok|].
    by eapply call_close_grows.
  - destruct (Contract.fl_children fl); [|done]. destruct (os !! s) as [o|]; [|done].
    destruct (Contract.guard_open fl o); by simplify_eq.
  - destruct (ts !! i) as [t|] eqn:Hi; [|done]. destruct (step_task inp t os) as [[[t' os'] evs]|] eqn:Hs; simplify_eq.
    destruct (frames_split ts i t Hi) as (F1 & F2 & HF & _). rewrite HF in Hreach.
    eapply observed_ok_grows; [exact Hok|]. by eapply step_task_grows.
Qed.
End Outcomes.

(** ** Entered resources *)
Section Resources.
Context (fl : Contract.flavour).
#[local] Hint Extern 0 (OwnerOps Contract.owner) => exact (ops fl) : typeclass_instances.

(** A resource is exited by [enter] itself, or its exit is an owned effect. *)
Definition accounted (log : list event) (n : nat) : Prop :=
  Undone n ∈ log \/ exists s e, e ∈ added s log /\ oe_dispose e = ExitOf n.

Definition resources_ok (log evs : list event) : Prop := forall n, Acquired n ∈ evs -> accounted (log ++ evs) n.

Lemma call_close_no_acquired c k (os : list Contract.owner) t' os' evs : call_close c k os = Some (t', os', evs) -> forall n, Acquired n ∉ evs.
Proof.
  unfold call_close. destruct (os !! c) as [o|]; [|done]. destruct (op_close_begin o) as [o' []]; intros Hc n Hin;
    simplify_eq; set_solver.
Qed.

Lemma settle_no_acquired s fs x k (os : list Contract.owner) evs0 t' os' evs : settle s fs x k os evs0 = Some (t', os', evs) ->
  (forall n, Acquired n ∉ evs0) -> forall n, Acquired n ∉ evs.
Proof. unfold settle. destruct (os !! s) as [o|]; [|done]. intros Hc H0 n. simplify_eq. set_solver. Qed.

Lemma next_effect_no_acquired s todo fs k (os : list Contract.owner) t' os' evs : next_effect s todo fs k os = Some (t', os', evs) ->
  forall n, Acquired n ∉ evs.
Proof.
  destruct todo as [|e todo]; simpl; [intros Hs; eapply settle_no_acquired; [exact Hs|set_solver]|].
  destruct (oe_dispose e); intros Hs; simplify_eq; [set_solver..|].
  destruct (call_close _ _ os) as [[[t1 os1] evs1]|] eqn:Hc; simplify_eq. intros n.
  pose proof (call_close_no_acquired _ _ _ _ _ _ Hc n). set_solver.
Qed.

Lemma disposed_effect_no_acquired s e r todo fs k (os : list Contract.owner) t' os' evs :
  disposed_effect s e r todo fs k os = Some (t', os', evs) -> forall n, Acquired n ∉ evs.
Proof.
  unfold disposed_effect. destruct r as [x|]; [destruct (fatal x)|]; intros Hs; simplify_eq; [|set_solver..].
  eapply settle_no_acquired; [exact Hs|set_solver].
Qed.

Lemma step_task_resources i t (os : list Contract.owner) log t' os' evs : step_task i t os = Some (t', os', evs) -> resources_ok log evs.
Proof.
  intros Hs. assert (Hno : (forall n, Acquired n ∉ evs) -> resources_ok log evs) by (intros Hn n Hin; by destruct (Hn n)).
  destruct t as [stack ctl]. unfold step_task in Hs. simpl in *.
  destruct ctl as [|r], stack as [|[s [e|] todo fs|s|s label resource|resource x] k]; try done;
    destruct i as [|ri|]; try done; try (simplify_eq; apply Hno; set_solver).
  - apply Hno. case_match; simplify_eq. set_solver.
  - apply Hno. by eapply next_effect_no_acquired.
  - apply Hno. destruct (os !! s); [|done]. case_match; simplify_eq. set_solver.
  - destruct ri; [simplify_eq; apply Hno; set_solver|]. unfold entered in Hs. destruct (os !! s) as [o|]; [|done].
    destruct (op_register o label (ExitOf resource)) as [x|[o' e]] eqn:Hr; simplify_eq; intros n Hin.
    + left. set_solver.
    + assert (n = resource) as -> by set_solver. right. exists s, e. rewrite added_app. simpl. rewrite decide_True by done.
      split; [set_solver|]. simpl in Hr. unfold Contract.register in Hr. destruct (Contract.fl_label fl label); [done|].
      by destruct (Contract.ow_phase o); simplify_eq.
  - apply Hno. by eapply disposed_effect_no_acquired.
Qed.

Lemma resources_app log evs : resources_ok [] log -> resources_ok log evs -> resources_ok [] (log ++ evs).
Proof.
  intros Hl He n [Hin|Hin]%elem_of_app; [|by apply He]. destruct (Hl n Hin) as [?|(s & e & ? & ?)]; simpl in *.
  - left. set_solver.
  - right. exists s, e. rewrite added_app. set_solver.
Qed.

Lemma reachable_resources (y : system Contract.owner) : reachable y -> resources_ok [] (sys_log y).
Proof.
  revert y. apply reachable_ind; [by intros n ?%not_elem_of_nil|]. intros [os ts log] a y' _ Hok Ha.
  assert (Hno : forall evs, (forall n, Acquired n ∉ evs) -> resources_ok [] (log ++ evs)).
  { intros evs Hn. apply resources_app; [done|]. intros n Hin. by destruct (Hn n). }
  destruct a as [name|s label n|s name|s|s label n|i inp]; simpl in Ha.
  - by destruct (Contract.new_owner fl name); simplify_eq.
  - destruct (os !! s) as [o|]; [|done]. destruct (Contract.register _ _ _ _) as [|[]]; simplify_eq; [done|]. apply Hno. set_solver.
  - destruct (Contract.fl_children fl); [|done]. destruct (os !! s) as [o|]; [|done].
    destruct (Contract.new_child fl s name) as [x|[c label]]; simplify_eq; [done|].
    destruct (Contract.register _ _ _ _) as [|[]]; simplify_eq; [done|]. apply Hno. set_solver.
  - destruct (call_close s [] os) as [[[t' os'] evs]|] eqn:Hc; simplify_eq. apply Hno. by eapply call_close_no_acquired.
  - destruct (Contract.fl_children fl); [|done]. destruct (os !! s) as [o|]; [|done].
    destruct (Contract.guard_open fl o); by simplify_eq.
  - destruct (ts !! i) as [t|] eqn:Hi; [|done]. destruct (step_task inp t os) as [[[t' os'] evs]|] eqn:Hs; simplify_eq.
    apply resources_app; [done|]. by eapply step_task_resources.
Qed.
End Resources.

(** ** The shape of a task

    Below a call there are only unwindings whose current effect is the [close] of
    the scope above. *)
Fixpoint below (c : nat) (k : list frame) : Prop :=
  match k with
  | [] => True
  | FUnwind s (Some e) _ _ :: k => oe_dispose e = CloseOf c /\ below s k
  | _ => False
  end.

Definition stack_ok (t : task) : Prop :=
  match tk_stack t, tk_control t with
  | [], Back _ => True
  | FUnwind s None _ _ :: k, Run => below s k
  | FUnwind s (Some e) _ _ :: k, Run => opaque (oe_dispose e) = true /\ below s k
  | FUnwind s (Some e) _ _ :: k, Back _ => below s k
  | FWait s :: k, Run => below s k
  | FEnter _ _ _ :: k, Run => k = []
  | FUndo _ _ :: k, _ => k = []
  | _, _ => False
  end.

Lemma below_back c k r : below c k -> stack_ok (MkTask k (Back r)).
Proof. destruct k as [|[s [e|] todo fs|s|s l n|n x] k]; simpl; tauto. Qed.

Section Liveness.
Context (fl : Contract.flavour).
#[local] Hint Extern 0 (OwnerOps Contract.owner) => exact (ops fl) : typeclass_instances.

Lemma call_close_stack c k (os : list Contract.owner) t' os' evs :
  below c k -> call_close c k os = Some (t', os', evs) -> stack_ok t'.
Proof.
  intros Hb. unfold call_close. destruct (os !! c) as [o|]; [|done]. destruct (op_close_begin o) as [o' []]; intros Hc;
    simplify_eq; [by eapply below_back|done..].
Qed.

Lemma settle_stack s fs x k (os : list Contract.owner) evs0 t' os' evs :
  below s k -> settle s fs x k os evs0 = Some (t', os', evs) -> stack_ok t'.
Proof. intros Hb. unfold settle. destruct (os !! s); [|done]. intros Hc. simplify_eq. eauto using below_back. Qed.

Lemma step_task_stack i t (os : list Contract.owner) t' os' evs :
  stack_ok t -> step_task i t os = Some (t', os', evs) -> stack_ok t'.
Proof.
  intros Hok Hs. destruct t as [stack ctl]. unfold step_task in Hs. simpl in *.
  destruct ctl as [|r], stack as [|[s [e|] todo fs|s|s label resource|resource x] k]; try done;
    destruct i as [|ri|]; try done; unfold stack_ok in Hok; simpl in Hok.
  - destruct Hok as [Ho Hb]. rewrite Ho in Hs. by simplify_eq.
  - destruct todo as [|e todo]; simpl in Hs; [eauto using settle_stack|].
    destruct (oe_dispose e) as [n|n|c] eqn:He; simplify_eq; [unfold stack_ok; simpl; by rewrite He..|].
    destruct (call_close _ _ os) as [[[t1 os1] evs1]|] eqn:Hc; simplify_eq. eapply call_close_stack; [|exact Hc]. done.
  - destruct (os !! s); [|done]. case_match; simplify_eq. eauto using below_back.
  - simplify_eq. eauto using below_back.
  - subst k. destruct ri; [by simplify_eq|]. unfold entered in Hs. destruct (os !! s) as [o|]; [|done].
    destruct (op_register _ _ _) as [x|[]]; by simplify_eq.
  - by simplify_eq.
  - unfold disposed_effect in Hs. destruct r as [x|]; [destruct (fatal x)|]; simplify_eq; [eauto using settle_stack|done..].
  - subst k. by simplify_eq.
Qed.

(** ** Outcomes of nested closes

    What a [close] run as a disposer came back with was observed as the outcome of
    that [close]. *)
Definition handed_back (log : list event) (t : task) : Prop :=
  match tk_stack t, tk_control t with
  | FUnwind s (Some e) _ _ :: _, Back r => forall c, oe_dispose e = CloseOf c -> Observed c r ∈ log
  | _, _ => True
  end.

Definition nested_ok (log : list event) : Prop :=
  forall s e r c, (e, r) ∈ disposed s log -> oe_dispose e = CloseOf c -> Observed c r ∈ log.

Lemma handed_back_mono log evs t : handed_back log t -> handed_back (log ++ evs) t.
Proof.
  unfold handed_back. destruct (tk_stack t) as [|[s [e|] todo fs|s|s l n|n x] k]; try done. destruct (tk_control t); [done|].
  intros Hh c Hc. apply elem_of_app. left. by apply Hh.
Qed.

Lemma below_handed c k r log : below c k -> Observed c r ∈ log -> handed_back log (MkTask k (Back r)).
Proof. destruct k as [|[s [e|] todo fs|s|s l n|n x] k]; simpl; try done. intros [He _] Ho c'. rewrite He. by intros [= <-]. Qed.

Lemma call_close_handed c k (os : list Contract.owner) t' os' evs log :
  below c k -> call_close c k os = Some (t', os', evs) -> handed_back (log ++ evs) t' /\ forall s, disposed s evs = [].
Proof.
  intros Hb. unfold call_close. destruct (os !! c) as [o|]; [|done]. destruct (op_close_begin o) as [o' []]; intros Hc; simplify_eq; try done.
  split; [|done]. apply (below_handed c); [done|]. set_solver.
Qed.

Lemma settle_handed s fs x k (os : list Contract.owner) evs0 t' os' evs log :
  below s k -> settle s fs x k os evs0 = Some (t', os', evs) ->
  handed_back (log ++ evs) t' /\ forall s', disposed s' evs = disposed s' evs0.
Proof.
  intros Hb. unfold settle. destruct (os !! s); [|done]. intros Hc. simplify_eq. split.
  - apply (below_handed s); [done|]. set_solver.
  - intros s'. rewrite disposed_app. simpl. apply app_nil_r.
Qed.

Lemma step_task_nested i t (os : list Contract.owner) t' os' evs log :
  stack_ok t -> handed_back log t -> nested_ok log -> step_task i t os = Some (t', os', evs) ->
  handed_back (log ++ evs) t' /\ nested_ok (log ++ evs).
Proof.
  intros Hst Hback Hn Hs.
  assert (Hquiet : (forall s, disposed s evs = []) -> nested_ok (log ++ evs)).
  { intros Hd s e r c Hin Hc. rewrite disposed_app, Hd, app_nil_r in Hin. apply elem_of_app. left. by eapply Hn. }
  destruct t as [stack ctl]. unfold step_task in Hs. unfold stack_ok in Hst. unfold handed_back in Hback. simpl in *.
  destruct ctl as [|r], stack as [|[s [e|] todo fs|s|s label resource|resource x] k]; try done;
    destruct i as [|ri|]; try done; simpl in Hst, Hback.
  - destruct Hst as [Ho _]. rewrite Ho in Hs. simplify_eq. split; [|by apply Hquiet].
    unfold handed_back. simpl. intros c Hc. by rewrite Hc in Ho.
  - destruct todo as [|e todo]; simpl in Hs; [destruct (settle_handed _ _ _ _ _ _ _ _ _ log Hst Hs) as [? Hd]; auto|].
    destruct (oe_dispose e) as [n|n|c] eqn:He; simplify_eq; [split; [done|by apply Hquiet]..|].
    destruct (call_close _ _ os) as [[[t1 os1] evs1]|] eqn:Hc; simplify_eq.
    apply (call_close_handed _ _ _ _ _ _ (log ++ [Started s e])) in Hc as [Hh Hd]; [|done].
    rewrite <- app_assoc in Hh. auto.
  - destruct (os !! s); [|done]. case_match; simplify_eq. split; [|by apply Hquiet]. apply (below_handed s); [done|]. set_solver.
  - simplify_eq. split; [|by apply Hquiet]. apply (below_handed s); [done|]. set_solver.
  - subst k. destruct ri; [simplify_eq; split; [done|by apply Hquiet]|]. unfold entered in Hs. destruct (os !! s) as [o|]; [|done].
    destruct (op_register _ _ _) as [x|[]]; simplify_eq; (split; [done|by apply Hquiet]).
  - simplify_eq. split; [done|by apply Hquiet].
  - assert (Hdone : forall t1 os1 evs1, Some (t1, os1, evs1) = Some (t', os', evs) ->
      handed_back (log ++ evs1) t1 -> (forall s', disposed s' evs1 = disposed s' [Disposed s e r]) -> handed_back (log ++ evs) t' /\ nested_ok (log ++ evs)).
    { intros t1 os1 evs1 [= <- <- <-] Hh Hd. split; [done|]. intros s' e' r' c Hin Hc. rewrite disposed_app, Hd in Hin.
      apply elem_of_app. left. apply elem_of_app in Hin as [Hin|Hin]; [by eapply Hn|]. simpl in Hin. case_decide; [|by apply not_elem_of_nil in Hin].
      apply list_elem_of_singleton in Hin as [= -> ->]. by apply Hback. }
    unfold disposed_effect in Hs. destruct r as [x|]; [destruct (fatal x)|]; [|by eapply Hdone..].
    destruct (settle s fs (Some x) k os _) as [[[t1 os1] evs1]|] eqn:Hse; [|done].
    apply (settle_handed _ _ _ _ _ _ _ _ _ log) in Hse as [Hh Hd]; [|done]. by eapply Hdone.
  - subst k. simplify_eq. split; [done|by apply Hquiet].
Qed.

(** ** Termination: every step uses up weight *)
Definition frame_weight (f : frame) : nat :=
  match f with
  | FUnwind _ None todo _ => 4 * length todo + 2
  | FUnwind _ (Some _) todo _ => 4 * length todo + 4
  | FWait _ => 1
  | FEnter _ _ _ => 6
  | FUndo _ _ => 2
  end.

Definition task_weight (t : task) : nat :=
  sum_list_with frame_weight (tk_stack t) + match tk_control t with Run => 1 | Back _ => 0 end.

Definition owner_weight (o : Contract.owner) : nat :=
  match Contract.ow_phase o with Contract.Owning l => 4 * length l + 4 | _ => 0 end.

Definition system_weight (y : system Contract.owner) : nat :=
  sum_list_with owner_weight (sys_owners y) + sum_list_with task_weight (sys_tasks y).

Lemma sum_insert {A : Type} (w : A -> nat) (l : list A) i x y :
  l !! i = Some x -> (sum_list_with w (<[ i := y ]> l) + w x = sum_list_with w l + w y)%nat.
Proof.
  revert i. induction l as [|z l IH]; intros [|i] Hi; simplify_eq/=; [lia|]. specialize (IH i Hi). lia.
Qed.

Lemma call_close_weight c k (os : list Contract.owner) t' os' evs :
  call_close c k os = Some (t', os', evs) ->
  (sum_list_with owner_weight os' + task_weight t' <= sum_list_with owner_weight os + sum_list_with frame_weight k + 2)%nat.
Proof.
  unfold call_close. destruct (os !! c) as [o|] eqn:Ho; [|done]. simpl. unfold Contract.close_begin.
  destruct (Contract.ow_phase o) as [l| |r] eqn:Hp; intros Hc; simplify_eq;
    match goal with |- context [<[ _ := ?o' ]> os] => pose proof (sum_insert owner_weight os c o o' Ho) as Hw end;
    unfold owner_weight, task_weight in *; simpl in *; rewrite ?Hp in Hw; rewrite ?length_reverse; lia.
Qed.

Lemma settle_weight s fs x k (os : list Contract.owner) evs0 t' os' evs :
  settle s fs x k os evs0 = Some (t', os', evs) ->
  (sum_list_with owner_weight os' + task_weight t' <= sum_list_with owner_weight os + sum_list_with frame_weight k)%nat.
Proof.
  unfold settle. destruct (os !! s) as [o|] eqn:Ho; [|done]. intros Hc. simplify_eq.
  pose proof (sum_insert owner_weight os s o (Contract.close_finish fl o fs) Ho) as Hw. simpl in *.
  unfold task_weight. simpl. unfold owner_weight in Hw at 4. simpl in Hw. lia.
Qed.

Lemma step_task_weight i t (os : list Contract.owner) t' os' evs :
  step_task i t os = Some (t', os', evs) ->
  (sum_list_with owner_weight os' + task_weight t' < sum_list_with owner_weight os + task_weight t)%nat.
Proof.
  intros Hs. destruct t as [stack ctl]. unfold step_task in Hs. simpl in *.
  destruct ctl as [|r], stack as [|[s [e|] todo fs|s|s label resource|resource x] k]; try done;
    destruct i as [|ri|]; try done; unfold task_weight at 2; simpl.
  - case_match; simplify_eq. unfold task_weight. simpl. lia.
  - destruct todo as [|e todo]; simpl in Hs; [apply settle_weight in Hs; simpl; lia|].
    destruct (oe_dispose e) as [n|n|c]; simplify_eq; [unfold task_weight; simpl; lia..|].
    destruct (call_close _ _ os) as [[[t1 os1] evs1]|] eqn:Hc; simplify_eq. apply call_close_weight in Hc. simpl in *. lia.
  - destruct (os !! s); [|done]. case_match; simplify_eq. unfold task_weight. simpl. lia.
  - simplify_eq. unfold task_weight. simpl. lia.
  - destruct ri; [simplify_eq; unfold task_weight; simpl; lia|]. unfold entered in Hs.
    destruct (os !! s) as [o|] eqn:Ho; [|done]. simpl in Hs. unfold Contract.register in Hs.
    destruct (Contract.fl_label fl label); [simplify_eq; unfold task_weight; simpl; lia|].
    destruct (Contract.ow_phase o) as [l| |] eqn:Hp; simplify_eq; [|unfold task_weight; simpl; lia..].
    match goal with |- context [<[ _ := ?o' ]> os] => pose proof (sum_insert owner_weight os s o o' Ho) as Hw end.
    unfold owner_weight, task_weight in *. simpl in *. rewrite Hp in Hw. rewrite length_app in Hw. simpl in Hw. lia.
  - simplify_eq. unfold task_weight. simpl. lia.
  - unfold disposed_effect in Hs. destruct r as [x|]; [destruct (fatal x)|]; simplify_eq;
      [apply settle_weight in Hs; simpl; lia|unfold task_weight; simpl; lia..].
  - simplify_eq. unfold task_weight. simpl. lia.
Qed.

(** ** Who waits for whom *)
Definition begun (os : list Contract.owner) (s : nat) : Prop :=
  exists o, os !! s = Some o /\ forall l, Contract.ow_phase o <> Contract.Owning l.

Definition known (os : list Contract.owner) (f : frame) : Prop :=
  match f with
  | FWait s => begun os s
  | FEnter s _ _ => (s < length os)%nat
  | _ => True
  end.

Definition owners_le (os os' : list Contract.owner) : Prop :=
  (length os <= length os')%nat /\ forall s, begun os s -> begun os' s.

Lemma known_mono os os' fs : owners_le os os' -> Forall (known os) fs -> Forall (known os') fs.
Proof.
  intros [Hl Hb] Hfs. eapply Forall_impl; [exact Hfs|]. intros [s c todo l|s|s lb n|n x]; simpl; [done|apply Hb|lia|done].
Qed.

Lemma owners_le_refl os : owners_le os os.
Proof. by split. Qed.

Lemma owners_le_insert os s o o' :
  os !! s = Some o -> (forall l, Contract.ow_phase o' = Contract.Owning l -> exists l', Contract.ow_phase o = Contract.Owning l') ->
  owners_le os (<[ s := o' ]> os).
Proof.
  intros Ho Hp. split; [by rewrite length_insert|]. intros s' (o1 & Ho1 & Hn). destruct (decide (s' = s)) as [->|Hne].
  - simplify_eq. exists o'. rewrite list_lookup_insert_eq by (by eapply lookup_lt_Some). split; [done|]. intros l Hl.
    destruct (Hp l Hl) as [l' Hl']. by eapply Hn.
  - exists o1. by rewrite list_lookup_insert_ne.
Qed.

Lemma register_le s o o' label d e os :
  os !! s = Some o -> Contract.register fl o label d = inr (o', e) -> owners_le os (<[ s := o' ]> os) /\ oe_dispose e = d.
Proof.
  intros Ho Hr. unfold Contract.register in Hr. destruct (Contract.fl_label fl label); [done|].
  destruct (Contract.ow_phase o) eqn:Hp; simplify_eq. split; [|done]. apply (owners_le_insert _ _ o); [done|]. rewrite Hp. eauto.
Qed.

(** What a step does to the wiring: no new edge between scopes *)
Definition wired_step (os : list Contract.owner) (r : task * list Contract.owner * list event) : Prop :=
  let '(t, os', evs) := r in
  owners_le os os' /\ Forall (known os') (tk_stack t) /\
  forall s e, e ∈ added s evs -> opaque (oe_dispose e) = true.

Lemma call_close_wired c k (os : list Contract.owner) r :
  Forall (known os) k -> call_close c k os = Some r -> wired_step os r.
Proof.
  intros Hk. unfold call_close. destruct (os !! c) as [o|] eqn:Ho; [|done]. assert (Hlt := lookup_lt_Some _ _ _ Ho).
  simpl. unfold Contract.close_begin. destruct (Contract.ow_phase o) as [l| |x] eqn:Hp; intros Hc; simplify_eq.
  all: match goal with |- wired_step _ (_, <[ _ := ?o' ]> _, _) =>
         assert (Hle : owners_le os (<[ c := o' ]> os)) by (apply (owners_le_insert _ _ o); [done|]; simpl; rewrite ?Hp; eauto) end.
  all: split_and!; [exact Hle| |intros s e; by rewrite elem_of_nil].
  - constructor; [done|]. by eapply known_mono.
  - constructor; [|by eapply known_mono]. exists o. rewrite list_lookup_insert_eq by done. by rewrite Hp.
  - by eapply known_mono.
Qed.

Lemma settle_wired s fs x k (os : list Contract.owner) evs0 r :
  Forall (known os) k -> (forall s, added s evs0 = []) -> settle s fs x k os evs0 = Some r -> wired_step os r.
Proof.
  intros Hk H0. unfold settle. destruct (os !! s) as [o|] eqn:Ho; [|done]. intros Hc. simplify_eq.
  assert (Hle : owners_le os (<[ s := Contract.close_finish fl o fs ]> os)) by (by apply (owners_le_insert _ _ o)).
  split_and!; [exact Hle|by eapply known_mono|]. intros s' e. rewrite added_app, H0. simpl. by rewrite elem_of_nil.
Qed.

Lemma step_task_wired i t (os : list Contract.owner) r :
  Forall (known os) (tk_stack t) -> step_task i t os = Some r -> wired_step os r.
Proof.
  intros Hk Hs. destruct t as [stack ctl]. unfold step_task in Hs. simpl in *.
  assert (Hsame : forall t evs, Forall (known os) (tk_stack t) -> (forall s, added s evs = []) -> wired_step os (t, os, evs)).
  { intros t evs Ht He. split_and!; [apply owners_le_refl|done|]. intros s e. by rewrite He, elem_of_nil. }
  destruct ctl as [|ro], stack as [|[s [e|] todo fs|s|s label resource|resource x] k]; try done;
    destruct i as [|ri|]; try done; pose proof (Forall_inv Hk) as Hk0; pose proof (Forall_inv_tail Hk) as Hk1.
  - case_match; simplify_eq. by apply Hsame.
  - destruct todo as [|e todo]; simpl in Hs; [by apply (settle_wired s fs None k os [])|].
    assert (Hk' : Forall (known os) (FUnwind s (Some e) todo fs :: k)) by (by constructor).
    destruct (oe_dispose e) as [n|n|c]; simplify_eq; [by apply Hsame..|].
    destruct (call_close _ _ os) as [[[t1 os1] evs1]|] eqn:Hc; simplify_eq. by apply call_close_wired in Hc.
  - destruct (os !! s); [|done]. case_match; simplify_eq. by apply Hsame.
  - simplify_eq. by apply Hsame.
  - destruct ri; [simplify_eq; by apply Hsame|]. unfold entered in Hs. destruct (os !! s) as [o|] eqn:Ho; [|done]. simpl in Hs.
    destruct (Contract.register fl o label (ExitOf resource)) as [x|[o' e]] eqn:Hr; simplify_eq.
    + apply Hsame; [by constructor|done].
    + destruct (register_le s o o' label _ e os Ho Hr) as [Hle He]. split_and!; [done|by eapply known_mono|].
      intros s' e'. simpl. case_decide; [|by rewrite elem_of_nil]. rewrite list_elem_of_singleton. intros ->. by rewrite He.
  - simplify_eq. by apply Hsame.
  - unfold disposed_effect in Hs. destruct ro as [x|]; [destruct (fatal x)|]; simplify_eq.
    + by apply (settle_wired s fs (Some x) k os [Disposed s e (Some x)]).
    + apply Hsame; [by constructor|done].
    + apply Hsame; [by constructor|done].
  - simplify_eq. by apply Hsame.
Qed.

Record wired (y : system Contract.owner) : Prop := MkWired {
  wi_stacks : Forall stack_ok (sys_tasks y);
  wi_known : Forall (known (sys_owners y)) (frames (sys_tasks y));
  wi_down : forall s e c, e ∈ added s (sys_log y) -> oe_dispose e = CloseOf c -> (s < c < length (sys_owners y))%nat;
}.

Lemma wired_grow (os os' : list Contract.owner) ts ts' log evs :
  wired (MkSystem os ts log) -> owners_le os os' -> Forall stack_ok ts' -> Forall (known os') (frames ts') ->
  (forall s e, e ∈ added s evs -> opaque (oe_dispose e) = true \/ oe_dispose e = CloseOf (length os) /\ (s < length os < length os')%nat) ->
  wired (MkSystem os' ts' (log ++ evs)).
Proof.
  intros [_ _ Hd] [Hl Hb] Hs Hk Ha. split; simpl in *; [done..|]. intros s e c. rewrite added_app.
  intros [Hin|Hin]%elem_of_app Hc; [specialize (Hd s e c Hin Hc); lia|].
  destruct (Ha s e Hin) as [Ho|[He Hlt]]; rewrite Hc in *; [done|]. simplify_eq. lia.
Qed.

Lemma reachable_wired (y : system Contract.owner) : reachable y -> wired y.
Proof.
  revert y. apply reachable_ind; [split; simpl; [constructor..|by intros s e c ?%not_elem_of_nil]|].
  intros [os ts log] a y' _ Hw Ha. pose proof Hw as [Hst Hkn Hd]. simpl in *.
  destruct a as [name|s label n|s name|s|s label n|i inp]; simpl in Ha.
  - destruct (Contract.new_owner fl name) as [x|o]; simplify_eq; [done|]. split; simpl; [done| |].
    + eapply known_mono; [|exact Hkn]. split; [rewrite length_app; lia|]. intros s' (o' & Ho' & Hn). exists o'.
      split; [by apply lookup_app_l_Some|done].
    + intros s e c Hin Hc. rewrite length_app. specialize (Hd s e c Hin Hc). lia.
  - destruct (os !! s) as [o|] eqn:Ho; [|done]. destruct (Contract.register fl o label (CallOf n)) as [x|[o' e]] eqn:Hr;
      simplify_eq; [done|]. destruct (register_le s o o' label _ e os Ho Hr) as [Hle He].
    eapply wired_grow; [exact Hw|done|done|by eapply known_mono|]. intros s' e'. simpl. case_decide; [|by rewrite elem_of_nil].
    intros ->%list_elem_of_singleton. left. by rewrite He.
  - destruct (Contract.fl_children fl); [|done]. destruct (os !! s) as [o|] eqn:Ho; [|done].
    assert (Hlt := lookup_lt_Some _ _ _ Ho).
    destruct (Contract.new_child fl s name) as [x|[c label]]; simplify_eq; [done|].
    destruct (Contract.register fl o label (CloseOf (length os))) as [x|[o' e]] eqn:Hr; simplify_eq; [done|].
    destruct (register_le s o o' label _ e os Ho Hr) as [[Hl Hb] He].
    assert (Hle : owners_le os (<[s:=o']> os ++ [c])).
    { split; [rewrite length_app; lia|]. intros s' (o1 & Ho1 & Hn)%Hb. exists o1. split; [by apply lookup_app_l_Some|done]. }
    eapply wired_grow; [exact Hw|done|done|by eapply known_mono|]. intros s' e'. simpl. case_decide; [|by rewrite elem_of_nil].
    intros ->%list_elem_of_singleton. right. rewrite He, length_app, length_insert. simpl. split; [done|]. subst. lia.
  - destruct (call_close s [] os) as [[[t' os'] evs]|] eqn:Hc; simplify_eq.
    pose proof (call_close_stack s [] os t' os' evs I Hc) as Ht.
    apply (call_close_wired s [] os _ (Forall_nil_2 _)) in Hc as (Hle & Hk & Hev).
    eapply wired_grow; [exact Hw|done|apply Forall_app; split; [done|by constructor]| |by intros s' e Hin; left; eapply Hev].
    rewrite frames_app. apply Forall_app. split; [by eapply known_mono|]. unfold frames. simpl. by rewrite app_nil_r.
  - destruct (Contract.fl_children fl); [|done]. destruct (os !! s) as [o|] eqn:Ho; [|done].
    assert (Hlt := lookup_lt_Some _ _ _ Ho). destruct (Contract.guard_open fl o); simplify_eq; [done|]. split; simpl; [| |done].
    + apply Forall_app. split; [done|]. by constructor.
    + rewrite frames_app. apply Forall_app. split; [done|]. unfold frames. simpl. by repeat constructor.
  - destruct (ts !! i) as [t|] eqn:Hi; [|done]. destruct (step_task inp t os) as [[[t' os'] evs]|] eqn:Hs; simplify_eq.
    destruct (frames_split ts i t Hi) as (F1 & F2 & HF & HF'). rewrite HF in Hkn.
    apply Forall_app in Hkn as [HF1 [Ht HF2]%Forall_app].
    pose proof (step_task_stack inp t os t' os' evs (Forall_lookup_1 _ _ _ _ Hst Hi) Hs) as Ht'.
    apply (step_task_wired inp t os _ Ht) in Hs as (Hle & Hk & Hev).
    eapply wired_grow; [exact Hw|done|by apply Forall_insert| |by intros s' e Hin; left; eapply Hev].
    rewrite HF'. apply Forall_app. split; [by eapply known_mono|]. apply Forall_app. split; [done|by eapply known_mono].
Qed.

Lemma reachable_nested (y : system Contract.owner) : reachable y ->
  Forall (handed_back (sys_log y)) (sys_tasks y) /\ nested_ok (sys_log y).
Proof.
  revert y. apply reachable_ind; [split; [constructor|by intros s e r c ?%not_elem_of_nil]|].
  intros [os ts log] a y' Hr [Hh Hn] Ha. pose proof (wi_stacks _ (reachable_wired _ Hr)) as Hst. simpl in *.
  assert (Hkeep : forall evs, (forall s, disposed s evs = []) -> Forall (handed_back (log ++ evs)) ts /\ nested_ok (log ++ evs)).
  { intros evs Hd. split; [eapply Forall_impl; [exact Hh|]; intros t; apply handed_back_mono|].
    intros s e r c Hin Hc. rewrite disposed_app, Hd, app_nil_r in Hin. apply elem_of_app. left. by eapply Hn. }
  destruct a as [name|s label n|s name|s|s label n|i inp]; simpl in Ha.
  - by destruct (Contract.new_owner fl name); simplify_eq.
  - destruct (os !! s) as [o|]; [|done]. destruct (Contract.register _ _ _ _) as [|[]]; simplify_eq; [done|]. by apply Hkeep.
  - destruct (Contract.fl_children fl); [|done]. destruct (os !! s) as [o|]; [|done].
    destruct (Contract.new_child fl s name) as [x|[c label]]; simplify_eq; [done|].
    destruct (Contract.register _ _ _ _) as [|[]]; simplify_eq; [done|]. by apply Hkeep.
  - destruct (call_close s [] os) as [[[t' os'] evs]|] eqn:Hc; simplify_eq. apply (call_close_handed _ _ _ _ _ _ log) in Hc as [Ht Hd]; [|done].
    destruct (Hkeep evs Hd) as [Hts Hl]. split; [|done]. apply Forall_app. split; [done|by constructor].
  - destruct (Contract.fl_children fl); [|done]. destruct (os !! s) as [o|]; [|done].
    destruct (Contract.guard_open fl o); simplify_eq; [done|]. split; [|done]. apply Forall_app. split; [done|by constructor].
  - destruct (ts !! i) as [t|] eqn:Hi; [|done]. destruct (step_task inp t os) as [[[t' os'] evs]|] eqn:Hs; simplify_eq.
    pose proof (Forall_lookup_1 _ _ _ _ Hst Hi) as Ht. pose proof (Forall_lookup_1 _ _ _ _ Hh Hi) as Hb.
    destruct (step_task_nested inp t os t' os' evs log Ht Hb Hn Hs) as [Hb' Hn']. split; [|done].
    apply Forall_insert; [|done]. eapply Forall_impl; [exact Hh|]. intros t0. apply handed_back_mono.
Qed.

(** ** Progress *)
Section Progress.
Context (y : system Contract.owner) (Hreach : reachable y).

(** Effects being disposed of were registered, and the owner is there. *)
Lemma frame_registered s cur todo fs :
  FUnwind s cur todo fs ∈ frames (sys_tasks y) ->
  is_Some (sys_owners y !! s) /\
  (forall e, cur = Some e -> e ∈ added s (sys_log y)) /\ (forall e, e ∈ todo -> e ∈ added s (sys_log y)).
Proof.
  intros (F1 & F2 & HF)%list_elem_of_split. pose proof (reachable_slots _ _ Hreach) as Hok. rewrite HF in Hok.
  apply (unwinding_alone _ s cur todo fs F1 [] F2) in Hok as (o & Ho & _ & _ & _ & _ & _ & Had & Hst & _).
  assert (Hin : forall e, e ∈ (started s (sys_log y) ++ todo)%list -> e ∈ added s (sys_log y)).
  { intros e He. rewrite <- Had in He. by apply elem_of_reverse. }
  split_and!; [by exists o| |]; intros e He; apply Hin, elem_of_app; [left|by right].
  rewrite Hst. apply elem_of_app. right. rewrite He. by left.
Qed.

Lemma task_frames i t f : sys_tasks y !! i = Some t -> f ∈ tk_stack t -> f ∈ frames (sys_tasks y).
Proof. intros Hi Hf. apply list_elem_of_bind. exists t. split; [done|by eapply list_elem_of_lookup_2]. Qed.

Lemma below_order c k s cur todo fs :
  below c k -> (forall f, f ∈ k -> f ∈ frames (sys_tasks y)) -> FUnwind s cur todo fs ∈ k -> (s < c)%nat.
Proof.
  revert c. induction k as [|f k IH]; intros c Hb Hk Hin; [by apply not_elem_of_nil in Hin|].
  destruct f as [s1 [e|] todo1 fs1|s1|s1 lb n|n x]; simpl in Hb; try done. destruct Hb as [He Hb].
  destruct (frame_registered s1 (Some e) todo1 fs1) as (_ & Hcur & _); [apply Hk; by left|].
  destruct (wi_down _ (reachable_wired _ Hreach) s1 e c (Hcur e eq_refl) He) as [Hlt _].
  apply elem_of_cons in Hin as [Heq|Hin]; [by injection Heq as -> _ _ _|].
  assert (s < s1)%nat; [|lia]. apply IH; [done| |done]. intros f Hf. apply Hk. by right.
Qed.

Definition can_step (t : task) : Prop :=
  exists inp, inp <> Cancel /\ is_Some (step_task inp t (sys_owners y)).

Lemma call_close_some c k : (c < length (sys_owners y))%nat -> is_Some (call_close c k (sys_owners y)).
Proof.
  intros [o Ho]%lookup_lt_is_Some_2. unfold call_close. rewrite Ho. destruct (op_close_begin o) as [o' []]; eauto.
Qed.

Lemma settle_some s fs x k evs : is_Some (sys_owners y !! s) -> is_Some (settle s fs x k (sys_owners y) evs).
Proof. intros [o Ho]. unfold settle. rewrite Ho. eauto. Qed.

(** An unfinished task can move, or waits for a scope that is unwinding. *)
Lemma task_progress i t :
  sys_tasks y !! i = Some t -> ~ finished t ->
  can_step t \/ exists s k, tk_stack t = FWait s :: k /\ exists o, sys_owners y !! s = Some o /\ Contract.ow_phase o = Contract.Unwinding.
Proof.
  intros Hi Hnf. pose proof (reachable_wired _ Hreach) as Hw. pose proof (Forall_lookup_1 _ _ _ _ (wi_stacks _ Hw) Hi) as Hst.
  pose proof (wi_known _ Hw) as Hkn. rewrite Forall_forall in Hkn. pose proof (fun f => task_frames i t f Hi) as Hfr.
  destruct t as [stack ctl]. unfold stack_ok in Hst. simpl in *.
  destruct stack as [|[s [e|] todo fs|s|s label n|n x] k], ctl as [|r]; simpl in Hst; try done.
  - exfalso. apply Hnf. split; simpl; eauto.
  - left. exists (Outcome None). split; [done|]. unfold step_task. simpl. destruct Hst as [-> _]. eauto.
  - left. exists Go. split; [done|]. unfold step_task, disposed_effect. simpl.
    destruct (frame_registered _ _ _ _ (Hfr _ (list_elem_of_here _ _))) as (Ho & _).
    destruct r as [x|]; [destruct (fatal x)|]; eauto using settle_some.
  - left. exists Go. split; [done|]. unfold step_task. simpl.
    destruct (frame_registered _ _ _ _ (Hfr _ (list_elem_of_here _ _))) as (Ho & _ & Htodo).
    destruct todo as [|e todo]; simpl; [by apply settle_some|]. destruct (oe_dispose e) as [m|m|c] eqn:He; [eauto..|].
    destruct (wi_down _ Hw s e c (Htodo e (list_elem_of_here _ _)) He) as [_ Hlt].
    destruct (call_close_some c (FUnwind s (Some e) todo fs :: k) Hlt) as [[[t' os'] evs] ->]. eauto.
  - destruct (Hkn (FWait s)) as (o & Ho & Hn); [apply Hfr; by left|]. destruct (Contract.ow_phase o) as [l| |r] eqn:Hp.
    + by destruct (Hn l).
    + right. eauto 6.
    + left. exists Go. split; [done|]. unfold step_task. simpl. rewrite Ho. simpl. unfold Contract.closed. rewrite Hp. eauto.
  - left. exists (Outcome (Some (Exc OtherException))). split; [done|]. unfold step_task. simpl. eauto.
  - left. exists (Outcome None). split; [done|]. unfold step_task. simpl. eauto.
  - left. exists Go. split; [done|]. unfold step_task. simpl. eauto.
Qed.

(** Whoever unwinds a scope can move, or waits for a scope further down. *)
Lemma unwinding_progress s :
  (exists o, sys_owners y !! s = Some o /\ Contract.ow_phase o = Contract.Unwinding) ->
  exists i t, sys_tasks y !! i = Some t /\ can_step t.
Proof.
  remember (length (sys_owners y) - s)%nat as m eqn:Hm. revert s Hm. induction m as [m IH] using lt_wf_ind.
  intros s -> (o & Ho & Hp). pose proof (reachable_slots _ _ Hreach s) as Hs. rewrite Ho in Hs. simpl in Hs. rewrite Hp in Hs.
  destruct Hs as (cur & todo & Hu & _).
  assert (Hin : FUnwind s cur todo (failures_of (disposed s (sys_log y))) ∈ frames (sys_tasks y)).
  { assert (Hin : FUnwind s cur todo (failures_of (disposed s (sys_log y))) ∈ unwinders s (frames (sys_tasks y)))
      by (rewrite Hu; by left). apply list_elem_of_In, filter_In in Hin as [Hin _]. by apply list_elem_of_In. }
  apply list_elem_of_bind in Hin as (t & Hin & [i Hi]%list_elem_of_lookup).
  destruct (task_progress i t Hi) as [Hc|(s' & k & Hk & Hs')]; [|by exists i, t|].
  { intros [Hnil _]. rewrite Hnil in Hin. by apply not_elem_of_nil in Hin. }
  assert (s < s')%nat.
  { pose proof (Forall_lookup_1 _ _ _ _ (wi_stacks _ (reachable_wired _ Hreach)) Hi) as Hst. unfold stack_ok in Hst.
    rewrite Hk in Hst, Hin. destruct (tk_control t); [|done]. apply elem_of_cons in Hin as [[=]|Hin].
    eapply below_order; [exact Hst| |exact Hin]. intros f Hf. eapply task_frames; [exact Hi|]. rewrite Hk. by right. }
  destruct Hs' as (o' & Ho' & Hp'). assert (Hlt := lookup_lt_Some _ _ _ Ho').
  destruct (IH (length (sys_owners y) - s')%nat) with (s := s') as (i' & t' & Hi' & Hc'); [lia|done|eauto|].
  exists i', t'. done.
Qed.

Lemma some_progress : Exists (fun t => ~ finished t) (sys_tasks y) ->
  exists i t, sys_tasks y !! i = Some t /\ can_step t.
Proof.
  intros (t & [i Hi]%list_elem_of_lookup & Hn)%Exists_exists.
  destruct (task_progress i t Hi Hn) as [Hc|(s & k & _ & Hs)]; [eauto|by eapply unwinding_progress].
Qed.

(** When every call has returned, no scope is left half closed. *)
Lemma finished_settled : Forall finished (sys_tasks y) -> forall s o, sys_owners y !! s = Some o ->
  Contract.ow_phase o <> Contract.Unwinding.
Proof.
  intros Hf s o Ho Hp. destruct (unwinding_progress s) as (i & t & Hi & inp & _ & [[[t' os'] evs] Hs]); [eauto|].
  destruct (Forall_lookup_1 _ _ _ _ Hf Hi) as [Hk [r Hr]]. unfold step_task in Hs. by rewrite Hk, Hr in Hs.
Qed.
End Progress.

Lemma step_weight y i inp y' : act y (AStep i inp) = Some y' -> (system_weight y' < system_weight y)%nat.
Proof.
  destruct y as [os ts log]. simpl. destruct (ts !! i) as [t|] eqn:Hi; [|done].
  destruct (step_task inp t os) as [[[t' os'] evs]|] eqn:Hs; [|done]. intros Ha. simplify_eq. unfold system_weight. simpl.
  apply step_task_weight in Hs. pose proof (sum_insert task_weight ts i t t' Hi). lia.
Qed.
End Liveness.

(** ** Carried over to an implementation *)
Section Implementation.
Context {S : Type} {O : OwnerOps S} (fl : Contract.flavour) {R : Refines O fl}.

Definition steps (l : list (nat * input)) : list action := (fun ii => AStep ii.1 ii.2) <$> l.

Lemma steps_bounded l (y y' : system S) : reachable y -> acts y (steps l) = Some y' ->
  (length l + system_weight (abs_system fl y') <= system_weight (abs_system fl y))%nat /\ reachable y'.
Proof.
  revert y. induction l as [|[i inp] l IH]; intros y Hr Hl; [simplify_eq/=; split; [lia|done]|].
  change (steps ((i, inp) :: l)) with (AStep i inp :: steps l) in Hl. change (length ((i, inp) :: l)) with (1 + length l)%nat.
  cbn [acts] in Hl. destruct (act y (AStep i inp)) as [y1|] eqn:Ha; [|done].
  assert (Hr1 : reachable y1). { destruct Hr as [l0 Hl0]. exists (l0 ++ [AStep i inp])%list. rewrite acts_app, Hl0. cbn [acts]. by rewrite Ha. }
  destruct (IH y1 Hr1 Hl) as [Hlen Hr']. split; [|done]. destruct (reachable_refines fl y Hr) as [Hwf Hra].
  destruct (act_refines fl y (AStep i inp) Hwf Hra) as [Habs _]. rewrite Ha in Habs. apply step_weight in Habs. lia.
Qed.

(** A state in which no step is possible, short of cancelling somebody *)
Definition quiescent (y : system S) : Prop := forall i inp, inp <> Cancel -> act y (AStep i inp) = None.

Lemma quiescent_finished (y : system S) : reachable y -> quiescent y ->
  Forall finished (sys_tasks y) /\ forall s o, sys_owners y !! s = Some o -> Contract.ow_phase (abs o) <> Contract.Unwinding.
Proof.
  intros Hr Hq. destruct (reachable_refines fl y Hr) as [Hwf Hra].
  assert (Hf : Forall finished (sys_tasks y)).
  { destruct (decide (Forall finished (sys_tasks y))) as [|Hn]; [done|]. exfalso. apply not_Forall_Exists in Hn; [|apply _].
    destruct (some_progress fl (abs_system fl y) Hra Hn) as (i & t & Hi & inp & Hinp & [[[t' os'] evs] Hs]).
    destruct (act_refines fl y (AStep i inp) Hwf Hra) as [Habs _]. rewrite Hq in Habs by done. simpl in *. by rewrite Hi, Hs in Habs. }
  split; [done|]. intros s o Ho. eapply (finished_settled fl (abs_system fl y) Hra Hf s). simpl. by rewrite list_lookup_fmap, Ho.
Qed.

Lemma acts_refine_exactly l : acts (O := ops fl) empty_system l = (abs_system fl <$> acts (S := S) empty_system l).
Proof.
  induction l as [|a l IH] using rev_ind; [done|]. rewrite !acts_app, IH.
  destruct (acts (S := S) empty_system l) as [y1|] eqn:H1; [|done]. cbn [fmap option_fmap option_map acts].
  destruct (reachable_refines fl y1) as [Hwf Hra]; [by exists l|]. destruct (act_refines fl y1 a Hwf Hra) as [-> _].
  by destruct (act y1 a).
Qed.

Lemma owner_slot (y : system S) s o : reachable y -> sys_owners y !! s = Some o ->
  wf o /\ slot_ok fl s (Some (abs o)) (unwinders s (frames (sys_tasks y))) (added s (sys_log y)) (started s (sys_log y))
    (disposed s (sys_log y)).
Proof.
  intros [Hwf Hs%reachable_slots]%(reachable_refines fl) Ho. split; [by eapply Forall_lookup_1|]. specialize (Hs s).
  simpl in Hs. by rewrite list_lookup_fmap, Ho in Hs.
Qed.

Lemma unwound (y : system S) s o : reachable y -> sys_owners y !! s = Some o ->
  exists left, reverse (added s (sys_log y)) = (started s (sys_log y) ++ left)%list /\
    (forall l, Contract.ow_phase (abs o) = Contract.Owning l -> started s (sys_log y) = []) /\
    (forall r, Contract.ow_phase (abs o) = Contract.Settled r -> Forall (fun er => ~ is_fatal er) (disposed s (sys_log y)) ->
       left = [] /\ (disposed s (sys_log y)).*1 = reverse (added s (sys_log y))).
Proof.
  intros Hr Ho. destruct (owner_slot y s o Hr Ho) as [_ Hs]. simpl in Hs. destruct (Contract.ow_phase (abs o)) as [l| |r].
  - destruct Hs as (_ & _ & -> & _). eexists. split; [done|]. split; [done|]. by intros r [=].
  - destruct Hs as (cur & todo & _ & Had & _). exists todo. split; [done|]. split; [by intros l [=]|by intros r [=]].
  - destruct Hs as (_ & _ & left & Had & Hst & Hleft). exists left. split; [done|]. split; [by intros l [=]|]. intros r' _ Hnf.
    assert (Hnil : left = []).
    { destruct (decide (left = [])) as [|Hn]; [done|]. exfalso. specialize (Hleft Hn). apply Exists_exists in Hleft as (er & Hin & Hf).
      rewrite Forall_forall in Hnf. by eapply Hnf. }
    subst left. rewrite app_nil_r in Had. by rewrite <- Hst, Had.
Qed.

Lemma observed (y : system S) s r : reachable y -> Observed s r ∈ sys_log y ->
  r = Some (Exc CancelledError) \/ (exists e, (e, r) ∈ disposed s (sys_log y) /\ is_fatal (e, r)) \/
  exists o, sys_owners y !! s = Some o /\ op_closed o = true /\ r = op_cleanup_error o /\
    r = Contract.result_of fl (Contract.ow_name (abs o)) (failures_of (disposed s (sys_log y))).
Proof.
  intros Hr Hin. pose proof (reachable_refines fl y Hr) as [_ Hra].
  destruct (reachable_observed fl _ Hra s r Hin) as [->|[Hd|(o' & Ho' & Hp)]]; [by left|by right; left|]. right. right.
  simpl in Ho'. rewrite list_lookup_fmap in Ho'. destruct (sys_owners y !! s) as [o|] eqn:Ho; simplify_eq/=.
  destruct (owner_slot y s o Hr Ho) as [Hwf Hs]. exists o. simpl in Hs. rewrite Hp in Hs. destruct Hs as (_ & Hres & _).
  rewrite (closed_refines o Hwf), (cleanup_error_refines o Hwf). unfold Contract.closed, Contract.cleanup_error. by rewrite Hp.
Qed.
(** An owner closed without an error has disposed everything without an error. *)
Lemma clean_slot (y : system S) s o : reachable y -> sys_owners y !! s = Some o ->
  Contract.ow_phase (abs o) = Contract.Settled None -> Forall (fun er => ~ is_fatal er) (disposed s (sys_log y)) ->
  disposed s (sys_log y) = (fun e => (e, None)) <$> reverse (added s (sys_log y)).
Proof.
  intros Hr Ho Hp Hnf. destruct (unwound y s o Hr Ho) as (left & _ & _ & Hcl). destruct (Hcl None Hp Hnf) as [_ <-].
  destruct (owner_slot y s o Hr Ho) as [_ Hs]. simpl in Hs. rewrite Hp in Hs. destruct Hs as (_ & Hres & _).
  assert (Hf : failures_of (disposed s (sys_log y)) = []) by (unfold Contract.result_of in Hres; by destruct (failures_of _)).
  revert Hnf Hf. generalize (disposed s (sys_log y)) as d. clear. induction d as [|[e r] d IH]; [done|]. intros Hnf Hf.
  inversion_clear Hnf as [|? ? Hn Hnf']. unfold failures_of in Hf. simpl in Hf. destruct r as [x|].
  - destruct (fatal x) eqn:Hx; [|done]. by destruct Hn; exists x.
  - simpl. f_equal. by apply IH.
Qed.

(** [c] was created as a child of [s]. *)
Definition owns (y : system S) (s c : nat) : Prop := exists e, e ∈ added s (sys_log y) /\ oe_dispose e = CloseOf c.

Lemma clean_child (y : system S) s o c : reachable y -> (forall s', Forall (fun er => ~ is_fatal er) (disposed s' (sys_log y))) ->
  sys_owners y !! s = Some o -> Contract.ow_phase (abs o) = Contract.Settled None -> owns y s c ->
  exists o', sys_owners y !! c = Some o' /\ Contract.ow_phase (abs o') = Contract.Settled None.
Proof.
  intros Hr Hnf Ho Hp (e & Hin & He). pose proof (reachable_refines fl y Hr) as [_ Hra].
  destruct (reachable_nested fl _ Hra) as [_ Hn].
  assert (Hd : (e, None) ∈ disposed s (sys_log y)).
  { rewrite (clean_slot y s o) by done. apply list_elem_of_fmap. exists e. split; [done|by rewrite elem_of_reverse]. }
  destruct (reachable_observed fl _ Hra c None (Hn s e None c Hd He)) as [[=]|[(e' & _ & x & [=] & _)|(o' & Ho' & Hp')]].
  simpl in Ho'. rewrite list_lookup_fmap in Ho'. destruct (sys_owners y !! c) as [o1|]; simplify_eq/=. eauto.
Qed.

Lemma clean_subtree (y : system S) s o c : reachable y -> (forall s', Forall (fun er => ~ is_fatal er) (disposed s' (sys_log y))) ->
  sys_owners y !! s = Some o -> Contract.ow_phase (abs o) = Contract.Settled None -> rtc (owns y) s c ->
  exists o', sys_owners y !! c = Some o' /\ Contract.ow_phase (abs o') = Contract.Settled None /\
    disposed c (sys_log y) = (fun e => (e, None)) <$> reverse (added c (sys_log y)).
Proof.
  intros Hr Hnf Ho Hp Hsc. revert o Ho Hp. induction Hsc as [s|s c' c Hsc _ IH]; intros o Ho Hp.
  - exists o. split_and!; [done..|]. by eapply clean_slot.
  - destruct (clean_child y s o c' Hr Hnf Ho Hp Hsc) as (o' & Ho' & Hp'). by eapply IH.
Qed.
End Implementation.

(** ** Properties *)

(** C34. [EffectScope] and [PluginFiber] refine one contract: every history of
    concurrent calls behaves, action for action, like the same history of the
    contract's owner read through the abstraction function; whatever one of them
    refuses, raises or answers, the contract refuses, raises or answers. *)
Theorem owners_refine_the_contract :
  (forall l, acts (O := ops scope_flavour) empty_system l = (abs_system scope_flavour <$> acts (S := Scope.EffectScope) empty_system l)) /\
  (forall l, acts (O := ops fiber_flavour) empty_system l = (abs_system fiber_flavour <$> acts (S := Fiber.PluginFiber) empty_system l)).
Proof. split; intros l; apply acts_refine_exactly. Qed.

(** C35. Effects are undone once each, newest first: in every history of
    concurrent calls the disposers a scope has started are an initial segment of
    its registrations in reverse order; none is started while the scope is open,
    and a closed scope has run all of them, whatever they raised, unless one raised
    [KeyboardInterrupt] or [SystemExit].  The same holds of plugin fibers. *)
Theorem effects_unwind_once_in_lifo_order :
  (forall (y : system Scope.EffectScope) s o, reachable y -> sys_owners y !! s = Some o ->
     exists left, reverse (added s (sys_log y)) = (started s (sys_log y) ++ left)%list /\
       (Scope.es_state o = Scope.OPEN -> started s (sys_log y) = []) /\
       (Scope.es_state o = Scope.CLOSED -> Forall (fun er => ~ is_fatal er) (disposed s (sys_log y)) ->
          left = [] /\ (disposed s (sys_log y)).*1 = reverse (added s (sys_log y)))) /\
  (forall (y : system Fiber.PluginFiber) s o, reachable y -> sys_owners y !! s = Some o ->
     exists left, reverse (added s (sys_log y)) = (started s (sys_log y) ++ left)%list /\
       (Fiber.pf_state o = Fiber.OPEN -> started s (sys_log y) = []) /\
       (Fiber.pf_state o = Fiber.CLOSED -> Forall (fun er => ~ is_fatal er) (disposed s (sys_log y)) ->
          left = [] /\ (disposed s (sys_log y)).*1 = reverse (added s (sys_log y)))).
Proof.
  split; intros y s o Hr Ho.
  - destruct (unwound scope_flavour y s o Hr Ho) as (left & Had & Hop & Hcl). simpl in Hop, Hcl. unfold scope_abs in Hop, Hcl.
    exists left. split; [done|]. split; intros Hst; rewrite Hst in *; eauto.
  - destruct (unwound fiber_flavour y s o Hr Ho) as (left & Had & Hop & Hcl). simpl in Hop, Hcl. unfold fiber_abs in Hop, Hcl.
    exists left. split; [done|]. split; intros Hst; rewrite Hst in *; eauto.
Qed.

(** All callers of [close] observe the same cleanup result: a call on a scope
    comes back with the scope's one stored outcome, after the scope is closed, and
    that outcome lists exactly the disposers that failed, in the order they ran;
    the exceptions are a waiter that was cancelled and the owner of an unwinding
    that a disposer stopped with [KeyboardInterrupt] or [SystemExit]. *)
Theorem closers_observe_one_outcome (y : system Scope.EffectScope) s r :
  reachable y -> Observed s r ∈ sys_log y ->
  r = Some (Exc CancelledError) \/ (exists e, (e, r) ∈ disposed s (sys_log y) /\ is_fatal (e, r)) \/
  exists o, sys_owners y !! s = Some o /\ Scope.es_closed o = true /\ r = Scope.es_cleanup_error o /\
    r = match failures_of (disposed s (sys_log y)) with
        | [] => None
        | fs => Some (EffectCleanupError (Scope.es_name o) fs)
        end.
Proof.
  intros Hr Hin. destruct (observed scope_flavour y s r Hr Hin) as [?|[?|(o & Ho & Hc & He & Hf)]]; [auto..|].
  right. right. exists o. split_and!; [done..|]. rewrite Hf. by destruct (failures_of (disposed s (sys_log y))).
Qed.

(** A resource entered through a scope is never leaked: once [__aenter__] has
    returned, its exit is an effect of the scope, or [enter] has started the exit
    itself because the scope had begun to close (or refused the label). *)
Theorem entered_resources_are_owned (y : system Scope.EffectScope) n :
  reachable y -> Acquired n ∈ sys_log y ->
  Undone n ∈ sys_log y \/ exists s e, e ∈ added s (sys_log y) /\ oe_dispose e = ExitOf n.
Proof. intros [_ Hra]%(reachable_refines scope_flavour) Hin. exact (reachable_resources _ _ Hra n Hin). Qed.

(** C36. Closing always completes: from any reachable state the number of steps the
    tasks can take without a new call is bounded, and when none can move any more
    (disposers having returned) every [close] and [enter] has come back and no
    scope is left closing, however scopes are nested and whoever waits for whom. *)
Theorem closing_completes (y : system Scope.EffectScope) :
  reachable y ->
  exists bound, forall l y', acts y (steps l) = Some y' ->
    (length l <= bound)%nat /\
    (quiescent y' -> Forall finished (sys_tasks y') /\ Forall (fun o => Scope.es_state o <> Scope.CLOSING) (sys_owners y')).
Proof.
  intros Hr. exists (system_weight (abs_system scope_flavour y)). intros l y' Hl.
  destruct (steps_bounded scope_flavour l y y' Hr Hl) as [Hlen Hr']. split; [lia|]. intros Hq.
  destruct (quiescent_finished scope_flavour y' Hr' Hq) as [Hf Hs]. split; [done|].
  apply Forall_lookup. intros s o Ho Hst. specialize (Hs s o Ho). simpl in Hs. unfold scope_abs in Hs. by rewrite Hst in Hs.
Qed.

(** Closing a scope cleanly cleans its whole subtree: if no disposer raised
    [KeyboardInterrupt] or [SystemExit] and a scope is closed with no cleanup error,
    then every scope created below it, at any depth, is closed with no cleanup error
    and has run every disposer it ever registered, newest first, and all of them
    succeeded. *)
Theorem clean_close_cleans_the_subtree (y : system Scope.EffectScope) s o c :
  reachable y -> (forall s', Forall (fun er => ~ is_fatal er) (disposed s' (sys_log y))) ->
  sys_owners y !! s = Some o -> Scope.es_state o = Scope.CLOSED -> Scope.es_cleanup_error o = None -> rtc (owns y) s c ->
  exists o', sys_owners y !! c = Some o' /\ Scope.es_state o' = Scope.CLOSED /\ Scope.es_cleanup_error o' = None /\
    disposed c (sys_log y) = (fun e => (e, None)) <$> reverse (added c (sys_log y)).
Proof.
  intros Hr Hnf Ho Hst He Hsc. destruct (clean_subtree scope_flavour y s o c Hr Hnf Ho) as (o' & Ho' & Hp' & Hd); [|done|].
  { simpl. unfold scope_abs. by rewrite Hst, He. }
  exists o'. simpl in Hp'. unfold scope_abs in Hp'. destruct (Scope.es_state o'); simplify_eq/=. done.
Qed.

(** ** A root scope with a child, an entered connection and two closers *)
Definition demo_calls : list action :=
  [ANew "root"; AChild 0 "tenant"; ARegister 1 "db" 7; ARegister 0 " http " 8; AEnter 0 "conn" 3;
   AStep 0 (Outcome None); AClose 0; AClose 0; ARegister 0 "late" 9].
Definition demo_unwinding : list (nat * input) :=
  [(1, Go); (1, Outcome None); (1, Go); (1, Go); (1, Outcome (Some (Exc ValueError))); (1, Go); (1, Go); (1, Go);
   (1, Outcome None); (1, Go); (1, Go); (1, Go); (1, Go); (2, Go)]%nat.

Definition demo_after (l : list action) : system Scope.EffectScope := default empty_system (acts empty_system l).
Definition demo_closing : system Scope.EffectScope := demo_after demo_calls.
Definition demo_closed : system Scope.EffectScope := demo_after (demo_calls ++ steps demo_unwinding).

Lemma demo_effects_reachable l : bool_decide (is_Some (acts (S := Scope.EffectScope) empty_system l)) = true -> reachable (demo_after l).
Proof. intros [y Hy]%bool_decide_eq_true_1. exists l. unfold demo_after. by rewrite Hy. Qed.

Lemma demo_effects_closing_reachable : reachable demo_closing.
Proof. apply demo_effects_reachable. vm_cast_no_check (eq_refl true). Qed.

Lemma demo_closed_reachable : reachable demo_closed.
Proof. apply demo_effects_reachable. vm_cast_no_check (eq_refl true). Qed.

Definition demo_error : exc := EffectCleanupError "root" [MkFailure "http" (Exc ValueError)].
Definition demo_root : Scope.EffectScope := Scope.MkEffectScope "root" None Scope.CLOSED [] true (Some demo_error).

Lemma effects_unwind_once_in_lifo_order_witness :
  sys_owners demo_closed !! 0%nat = Some demo_root /\
  exists left, reverse (added 0 (sys_log demo_closed)) = (started 0 (sys_log demo_closed) ++ left)%list.
Proof.
  assert (Ho : sys_owners demo_closed !! 0%nat = Some demo_root) by vm_cast_no_check (eq_refl (Some demo_root)).
  split; [exact Ho|].
  destruct (proj1 effects_unwind_once_in_lifo_order demo_closed 0%nat demo_root demo_closed_reachable Ho) as (left & Hl & _).
  exact (ex_intro _ left Hl).
Defined.

Lemma demo_observed : Observed 0 (Some demo_error) ∈ sys_log demo_closed.
Proof. apply (list_elem_of_lookup_2 _ 15). vm_cast_no_check (eq_refl (Some (Observed 0 (Some demo_error)))). Qed.

Lemma closers_observe_one_outcome_witness :
  Some demo_error = Some (Exc CancelledError) \/
  (exists e, (e, Some demo_error) ∈ disposed 0 (sys_log demo_closed) /\ is_fatal (e, Some demo_error)) \/
  exists o, sys_owners demo_closed !! 0%nat = Some o /\ Scope.es_closed o = true.
Proof.
  destruct (closers_observe_one_outcome demo_closed 0 (Some demo_error) demo_closed_reachable demo_observed)
    as [Hx|[Hx|(o & Ho & Hc & _)]]; [exact (or_introl Hx)|exact (or_intror (or_introl Hx))|].
  right. right. exact (ex_intro _ o (conj Ho Hc)).
Defined.

Lemma demo_acquired : Acquired 3 ∈ sys_log demo_closed.
Proof. apply (list_elem_of_lookup_2 _ 3). vm_cast_no_check (eq_refl (Some (Acquired 3))). Qed.

Lemma entered_resources_are_owned_witness :
  Undone 3 ∈ sys_log demo_closed \/ exists s e, e ∈ added s (sys_log demo_closed) /\ oe_dispose e = ExitOf 3.
Proof. exact (entered_resources_are_owned demo_closed 3 demo_closed_reachable demo_acquired). Defined.

Lemma closing_completes_witness :
  exists bound, forall l y', acts demo_closing (steps l) = Some y' -> (length l <= bound)%nat.
Proof.
  destruct (closing_completes demo_closing demo_effects_closing_reachable) as [bound Hb]. exists bound. intros l y' Hl. exact (proj1 (Hb l y' Hl)).
Defined.
Definition demo_clean : system Scope.EffectScope :=
  demo_after ([ANew "root"; AChild 0 "tenant"; ARegister 1 "db" 7; AClose 0] ++
    steps [(0, Go); (0, Go); (0, Outcome None); (0, Go); (0, Go); (0, Go); (0, Go)]%nat).
Definition demo_clean_root : Scope.EffectScope := Scope.MkEffectScope "root" None Scope.CLOSED [] true None.

Lemma demo_clean_log : sys_log demo_clean =
  [Added 0 (MkOwnedEffect "scope:tenant" (CloseOf 1)); Added 1 (MkOwnedEffect "db" (CallOf 7));
   Started 0 (MkOwnedEffect "scope:tenant" (CloseOf 1)); Started 1 (MkOwnedEffect "db" (CallOf 7));
   Disposed 1 (MkOwnedEffect "db" (CallOf 7)) None; Observed 1 None;
   Disposed 0 (MkOwnedEffect "scope:tenant" (CloseOf 1)) None; Observed 0 None].
Proof. vm_compute. reflexivity. Qed.

Lemma clean_close_cleans_the_subtree_witness :
  exists o', sys_owners demo_clean !! 1%nat = Some o' /\ Scope.es_state o' = Scope.CLOSED /\ Scope.es_cleanup_error o' = None /\
    disposed 1 (sys_log demo_clean) = (fun e => (e, None)) <$> reverse (added 1 (sys_log demo_clean)).
Proof.
  apply (clean_close_cleans_the_subtree demo_clean 0 demo_clean_root 1).
  - apply demo_effects_reachable. vm_cast_no_check (eq_refl true).
  - intros s'. rewrite demo_clean_log. simpl. repeat case_decide; repeat constructor; intros (x & [=] & _).
  - vm_cast_no_check (eq_refl (Some demo_clean_root)).
  - reflexivity.
  - reflexivity.
  - apply rtc_once. exists (MkOwnedEffect "scope:tenant" (CloseOf 1)). rewrite demo_clean_log. split; [|reflexivity].
    apply list_elem_of_here.
Defined.
End EffectProps.
