(* ===== verification/PluginGraph.v ===== *)
(** * Planning a set of plugins ([plugins/graph.py])

    [PluginPlanner.plan] checks every source, indexes plugins, services and
    contributions, resolves the requirements and orders the plugins with Kahn's
    algorithm over a heap.  Sections [Kahn] and [Planner] are the two halves. *)
From S2P Require Import Prelude PyText Json PluginModels.
Open Scope string_scope.
Open Scope list_scope.

(** ** Results of planning: a [PluginPlanError], or an exception of a library call *)
Inductive plan_exn : Type := PlanError (e : PluginError) | Crash (e : exn).

Definition planned (A : Type) : Type := plan_exn + A.

Definition refuse {A : Type} (code : PluginErrorCode) (detail : list string) : planned A :=
  inl (PlanError (MkPluginError code detail)).

Definition crash {A : Type} (m : res A) : planned A :=
  match m with Ok a => inr a | Raise e => inl (Crash e) end.

(** ** Dictionaries and heaps *)

(** [d[k] = f(d[k])] for a present key *)
Fixpoint dalter {V : Type} (f : V -> V) (k : string) (d : dict string V) : dict string V :=
  match d with
  | [] => []
  | (k', v) :: d => if decide (k = k') then (k', f v) :: d else (k', v) :: dalter f k d
  end.

Lemma dget_dalter {V : Type} (f : V -> V) k d k' :
  dget k' (dalter f k d) = if decide (k' = k) then f <$> dget k' d else dget k' d.
Proof.
  induction d as [|[k1 v1] d IH]; simpl; [by case_decide|]. destruct (decide (k = k1)) as [->|Hne]; simpl.
  - by repeat case_decide.
  - rewrite IH. destruct (decide (k' = k1)) as [->|]; [|done]. by rewrite decide_False by done.
Qed.

Lemma dalter_keys {V : Type} (f : V -> V) k d : (dalter f k d).*1 = d.*1.
Proof. induction d as [|[k1 v1] d IH]; csimpl; [done|]. case_decide; csimpl; [done|by rewrite IH]. Qed.

(** A [heapq] heap of strings, by its contents in ascending order *)
Fixpoint heappush (x : string) (heap : list string) : list string :=
  match heap with
  | [] => [x]
  | y :: heap => if decide (String.le x y) then x :: y :: heap else y :: heappush x heap
  end.

Definition heapify (l : list string) : list string := foldr heappush [] l.

Lemma heappush_perm x h : heappush x h ≡ₚ x :: h.
Proof. induction h as [|y h IH]; simpl; [done|]. case_decide; [done|]. rewrite IH. apply Permutation_swap. Qed.

Lemma heapify_perm l : heapify l ≡ₚ l.
Proof. induction l as [|x l IH]; simpl; [done|]. by rewrite heappush_perm, IH. Qed.

(** [sorted] on strings *)
Definition sorted_strings (l : list string) : list string := merge_sort String.le l.

Lemma filter_ext_in {A : Type} (P Q : A -> Prop) `{!forall x, Decision (P x), !forall x, Decision (Q x)} (l : list A) :
  (forall x, x ∈ l -> P x <-> Q x) -> filter P l = filter Q l.
Proof.
  induction l as [|x l IH]; intros Hpq; [done|]. rewrite !filter_cons, IH by (intros y Hy; apply Hpq; by right).
  specialize (Hpq x (list_elem_of_here _ _)). by do 2 case_decide; try tauto.
Qed.

(** ** Kahn's algorithm *)
Section Kahn.

(** The inner [for] loop *)
Fixpoint relax (consumers : list string) (count : dict string Z) (ready : list string) : dict string Z * list string :=
  match consumers with
  | [] => (count, ready)
  | c :: consumers =>
      let count := dalter (fun n => (n - 1)%Z) c count in
      relax consumers count (if decide (dget c count = Some 0%Z) then heappush c ready else ready)
  end.

(** The [while] loop; [fuel] bounds its rounds. *)
Fixpoint kahn (fuel : nat) (outgoing : dict string (list string)) (count : dict string Z) (ready order : list string) :
    option (list string * dict string Z) :=
  match ready, fuel with
  | [], _ => Some (order, count)
  | _, O => None
  | p :: ready, S fuel =>
      let (count, ready) := relax (sorted_strings (default [] (dget p outgoing))) count ready in
      kahn fuel outgoing count ready (order ++ [p])
  end.

Context (nodes : list string) (deps : string -> list string) (outgoing : dict string (list string)).

(** The dependencies of [c] that are not planned yet *)
Definition missing (order : list string) (c : string) : list string := filter (fun d => d ∉ order) (deps c).

Record kahn_inv (count : dict string Z) (ready order : list string) : Prop := MkKahnInv {
  ki_nodup : NoDup (order ++ ready);
  ki_nodes : order ++ ready ⊆ nodes;
  ki_count : forall c, c ∈ nodes -> dget c count = Some (Z.of_nat (length (missing order c)));
  ki_ready : forall c, c ∈ nodes -> c ∈ order ++ ready <-> missing order c = [];
  ki_topo : forall l1 c l2, order = l1 ++ c :: l2 -> deps c ⊆ l1;
}.

Lemma relax_count consumers count ready c : NoDup consumers ->
  dget c (relax consumers count ready).1 = if decide (c ∈ consumers) then (fun n => (n - 1)%Z) <$> dget c count else dget c count.
Proof.
  revert count ready. induction consumers as [|c' consumers IH]; intros count ready Hnd; [done|]. cbn [relax].
  apply NoDup_cons in Hnd as [Hnotin Hnd]. rewrite IH, dget_dalter by done. destruct (decide (c = c')) as [->|Hne].
  - rewrite decide_False by done. rewrite decide_True; [done|by left].
  - destruct (decide (c ∈ consumers)); [rewrite decide_True by (by right)|rewrite decide_False by set_solver]; done.
Qed.

Lemma relax_ready consumers count ready : NoDup consumers ->
  (relax consumers count ready).2 ≡ₚ ready ++ filter (fun c => dget c count = Some 1%Z) consumers.
Proof.
  revert count ready. induction consumers as [|c' consumers IH]; intros count ready Hnd.
  { cbn. by rewrite app_nil_r. }
  cbn [relax].
  apply NoDup_cons in Hnd as [Hnotin Hnd]. rewrite IH by done. rewrite dget_dalter, (decide_True (P := c' = c')) by done.
  assert (Hf : filter (fun c => dget c (dalter (fun n => (n - 1)%Z) c' count) = Some 1%Z) consumers =
               filter (fun c => dget c count = Some 1%Z) consumers).
  { apply filter_ext_in. intros c Hc. rewrite dget_dalter, decide_False; [done|]. by intros ->. }
  rewrite Hf, filter_cons. destruct (dget c' count) as [n|] eqn:Hn; simpl.
  - destruct (decide (Some (n - 1)%Z = Some 0%Z)) as [Hz|Hz], (decide (Some n = Some 1%Z)) as [H1|H1]; simplify_eq; try lia.
    + rewrite heappush_perm. by rewrite <- Permutation_middle.
    + exfalso. apply H1. f_equal. lia.
    + done.
  - done.
Qed.

Context (Hnd : NoDup nodes) (Hdeps : forall c, c ∈ nodes -> NoDup (deps c) /\ deps c ⊆ nodes).
Context (Hout : forall p, p ∈ nodes ->
  exists outs, dget p outgoing = Some outs /\ NoDup outs /\ forall c, c ∈ outs <-> c ∈ nodes /\ p ∈ deps c).

Lemma missing_elem order c d : d ∈ missing order c <-> d ∈ deps c /\ d ∉ order.
Proof. unfold missing. rewrite list_elem_of_filter. tauto. Qed.

Lemma missing_NoDup order c : c ∈ nodes -> NoDup (missing order c).
Proof. intros Hc. by apply NoDup_filter, Hdeps. Qed.

Lemma missing_step order p c : c ∈ nodes -> p ∉ order -> p ∈ deps c ->
  missing order c ≡ₚ p :: missing (order ++ [p]) c.
Proof.
  intros Hc Hp Hpc. apply NoDup_Permutation; [by apply missing_NoDup| |].
  - apply NoDup_cons. split; [|by apply missing_NoDup]. rewrite missing_elem. set_solver.
  - intros d. rewrite elem_of_cons, !missing_elem, elem_of_app, list_elem_of_singleton.
    destruct (decide (d = p)) as [->|]; naive_solver.
Qed.

Lemma missing_other order p c : p ∉ deps c -> missing (order ++ [p]) c = missing order c.
Proof.
  intros Hpc. apply filter_ext_in. intros d Hd. rewrite elem_of_app, list_elem_of_singleton.
  assert (d <> p) by (by intros ->). tauto.
Qed.

Lemma kahn_step count p ready order :
  kahn_inv count (p :: ready) order ->
  kahn_inv (relax (sorted_strings (default [] (dget p outgoing))) count ready).1
           (relax (sorted_strings (default [] (dget p outgoing))) count ready).2 (order ++ [p]).
Proof.
  intros [Hn Hin Hcount Hready Htopo].
  assert (Hp : p ∈ nodes) by (apply Hin, elem_of_app; right; by left).
  destruct (Hout p Hp) as (outs & -> & Hno & Helem). simpl. unfold sorted_strings.
  assert (Hperm : merge_sort String.le outs ≡ₚ outs) by apply merge_sort_Permutation.
  set (cs := merge_sort String.le outs) in *. assert (Hnc : NoDup cs) by (by rewrite Hperm).
  assert (Hec : forall c, c ∈ cs <-> c ∈ nodes /\ p ∈ deps c) by (intros c; rewrite Hperm; apply Helem).
  assert (Hpo : p ∉ order). { intros Hpo. apply NoDup_app in Hn as (_ & Hd & _). apply (Hd p Hpo). by left. }
  assert (Hmp : missing order p = []) by (apply Hready; [done|]; apply elem_of_app; right; by left).
  assert (Hnew : forall c, c ∈ nodes -> c ∈ (order ++ [p]) ++ (relax cs count ready).2 <->
     c ∈ order ++ p :: ready \/ (p ∈ deps c /\ missing (order ++ [p]) c = [])).
  { intros c Hc. rewrite (relax_ready cs count ready Hnc), !elem_of_app, list_elem_of_singleton, elem_of_cons, list_elem_of_filter, Hec,
      (Hcount c Hc).
    assert (Hone : p ∈ deps c -> Some (Z.of_nat (length (missing order c))) = Some 1%Z <-> missing (order ++ [p]) c = []).
    { intros Hpc. rewrite (missing_step order p c) by done. simpl. rewrite <- length_zero_iff_nil.
      split; [intros [= ?]; lia|intros ->; done]. }
    clear - Hone Hc. tauto. }
  split.
  - rewrite (relax_ready cs count ready Hnc), <- app_assoc, app_assoc. simpl. rewrite (assoc_L (++)). simpl.
    apply NoDup_app. split; [by rewrite <- app_assoc|]. split; [|by apply NoDup_filter].
    intros c Hc1 [Hc2 [Hcn Hpc]%Hec]%list_elem_of_filter. rewrite (Hcount c Hcn) in Hc2.
    assert (Hm : missing order c = []).
    { apply Hready; [done|]. rewrite <- app_assoc in Hc1. done. }
    rewrite Hm in Hc2. done.
  - intros c Hc. apply elem_of_app in Hc as [Hc|Hc]; [set_solver|]. rewrite (relax_ready cs count ready Hnc) in Hc.
    apply elem_of_app in Hc as [Hc|[_ [Hc _]%Hec]%list_elem_of_filter]; [set_solver|done].
  - intros c Hc. rewrite (relax_count cs count ready c Hnc), (Hcount c Hc). case_decide as Hcs.
    + rewrite (missing_step order p c) by (try apply Hec; done). simpl. f_equal. lia.
    + rewrite missing_other; [done|]. intros Hpc. apply Hcs, Hec. done.
  - intros c Hc. rewrite (Hnew c Hc), (Hready c Hc). destruct (decide (p ∈ deps c)) as [Hpc|Hpc].
    + split; [intros [Hm|[_ ?]]; [|done]|by right]. pose proof (missing_step order p c Hc Hpo Hpc) as Hs.
      rewrite Hm in Hs. by apply Permutation_nil_l in Hs.
    + rewrite (missing_other order p c Hpc). clear - Hpc. tauto.
  - intros l1 c l2 Heq. destruct l2 as [|z l2 _] using rev_ind.
    + apply app_inj_tail in Heq as [<- <-]. intros d Hd. destruct (decide (d ∈ order)) as [|Hnd']; [done|].
      assert (Hx : d ∈ missing order p) by (by apply missing_elem). rewrite Hmp in Hx. by apply not_elem_of_nil in Hx.
    + rewrite app_comm_cons, app_assoc in Heq. apply app_inj_tail in Heq as [Heq _]. by eapply Htopo.
Qed.

Lemma kahn_runs fuel count ready order :
  kahn_inv count ready order -> (length nodes <= fuel + length order)%nat ->
  exists order' count', kahn fuel outgoing count ready order = Some (order', count') /\ kahn_inv count' [] order'.
Proof.
  revert count ready order. induction fuel as [|fuel IH]; intros count ready order Hinv Hfuel; destruct ready as [|p ready]; simpl; eauto.
  - exfalso.
    assert (Hle : (length (order ++ p :: ready) <= length nodes)%nat).
    { apply submseteq_length, NoDup_submseteq; [apply Hinv|]. intros x. apply (ki_nodes _ _ _ Hinv). }
    rewrite length_app in Hle. simpl in Hle. lia.
  - apply kahn_step in Hinv. destruct (relax _ count ready) as [count' ready']. apply IH; [done|]. rewrite length_app. simpl. lia.
Qed.

(** The loop is entered with the plugins that depend on nothing. *)
Lemma kahn_start count :
  (forall c, c ∈ nodes -> dget c count = Some (Z.of_nat (length (deps c)))) ->
  kahn_inv count (heapify (filter (fun c => dget c count = Some 0%Z) nodes)) [].
Proof.
  intros Hc. assert (Hm : forall c, missing [] c = deps c).
  { intros c. unfold missing. induction (deps c) as [|d l IH]; [done|]. rewrite filter_cons, IH, decide_True; [done|].
    apply not_elem_of_nil. }
  split; simpl.
  - rewrite heapify_perm. by apply NoDup_filter.
  - intros c. rewrite heapify_perm, list_elem_of_filter. tauto.
  - intros c Hin. by rewrite Hm, Hc.
  - intros c Hin. rewrite heapify_perm, list_elem_of_filter, (Hc c Hin), Hm. destruct (deps c); simpl; split; try done; intros [[=] _].
  - intros l1 c l2 Heq. by destruct l1.
Qed.

(** [x] depends on [y] *)
Definition depends (x y : string) : Prop := x ∈ nodes /\ y ∈ deps x.

(** A complete order refutes every cycle. *)
Lemma topo_acyclic order : order ≡ₚ nodes -> (forall l1 c l2, order = l1 ++ c :: l2 -> deps c ⊆ l1) -> forall x, ~ tc depends x x.
Proof.
  intros Hperm Htopo. assert (Hno : NoDup order) by (by rewrite Hperm).
  assert (Hbefore : forall x y, tc depends x y -> forall l1 l2, order = l1 ++ x :: l2 -> y ∈ l1).
  { intros x y Hxy. induction Hxy as [x y [_ Hy]|x y z [Hx Hy] Htc IH]; intros l1 l2 Heq; [by eapply Htopo|].
    assert (Hy1 : y ∈ l1) by (by eapply Htopo). apply list_elem_of_split in Hy1 as (k1 & k2 & ->).
    rewrite <- app_assoc in Heq. specialize (IH k1 _ Heq). set_solver. }
  intros x Hxx. assert (Hx : x ∈ order).
  { rewrite Hperm. inversion Hxx as [? ? [Hx _]|? ? ? [Hx _] _]; subst; done. }
  apply list_elem_of_split in Hx as (l1 & l2 & Heq). specialize (Hbefore x x Hxx l1 l2 Heq).
  rewrite Heq in Hno. apply NoDup_app in Hno as (_ & Hd & _). apply (Hd x Hbefore). by left.
Qed.

(** A chain of [n] dependencies *)
Inductive chain : list string -> Prop :=
| chain_one x : chain [x]
| chain_cons x y l : depends x y -> chain (y :: l) -> chain (x :: y :: l).

Lemma chain_path x l z : chain (x :: l) -> z ∈ l -> tc depends x z.
Proof.
  revert x. induction l as [|y l IH]; intros x Hc Hz; [by apply not_elem_of_nil in Hz|]. inversion Hc; subst.
  apply elem_of_cons in Hz as [->|Hz]; [by constructor|]. eapply tc_l; [done|by apply IH].
Qed.

Lemma chain_tail l1 l2 x : chain (l1 ++ x :: l2) -> chain (x :: l2).
Proof. induction l1 as [|y l1 IH]; [done|]. intros Hc. apply IH. destruct l1; simpl in *; by inversion Hc. Qed.

(** Plugins that always have a dependency among themselves form a cycle. *)
Lemma stuck_cyclic (stuck : list string) : stuck <> [] ->
  (forall c, c ∈ stuck -> c ∈ nodes /\ exists d, d ∈ deps c /\ d ∈ stuck) -> exists x, tc depends x x.
Proof.
  intros Hne Hstuck.
  assert (Hchains : forall n, exists x l, chain (x :: l) /\ length l = n /\ x :: l ⊆ stuck).
  { assert (Hext : forall n x, x ∈ stuck -> exists l, chain (x :: l) /\ length l = n /\ x :: l ⊆ stuck).
    { induction n as [|n IH]; intros x Hx; [exists []; split_and!; [constructor|done|set_solver]|].
      destruct (Hstuck x Hx) as (Hxn & d & Hd & Hds). destruct (IH d Hds) as (l & Hc & Hl & Hsub). exists (d :: l).
      split_and!; [by repeat constructor|simpl; lia|set_solver]. }
    intros n. destruct stuck as [|x stuck']; [done|]. destruct (Hext n x) as (l & ?); [by left|]. eauto. }
  destruct (Hchains (length stuck)) as (x & l & Hc & Hlen & Hsub).
  assert (Hdup : ~ NoDup (x :: l)).
  { intros Hno. assert (Hle : (length (x :: l) <= length stuck)%nat) by (by apply submseteq_length, NoDup_submseteq). simpl in Hle. lia. }
  revert Hc Hdup. clear. generalize (x :: l) as k. clear. intros k Hc Hdup.
  assert (Hrep : exists z l1 l2, k = l1 ++ z :: l2 /\ z ∈ l2).
  { clear Hc. induction k as [|y k IH]; [exfalso; apply Hdup; constructor|]. destruct (decide (y ∈ k)) as [Hy|Hy].
    - by exists y, [], k.
    - destruct IH as (z & l1 & l2 & -> & Hz); [intros Hno; apply Hdup; by constructor|]. by exists z, (y :: l1), l2. }
  destruct Hrep as (z & l1 & l2 & -> & Hz). exists z. eapply chain_path; [by eapply chain_tail|done].
Qed.

(** An incomplete order leaves a cycle behind. *)
Lemma kahn_stuck count order : kahn_inv count [] order -> length order <> length nodes -> exists x, tc depends x x.
Proof.
  intros Hinv Hlen. pose proof (ki_nodup _ _ _ Hinv) as Hno. pose proof (ki_nodes _ _ _ Hinv) as Hsub. rewrite app_nil_r in Hno, Hsub.
  destruct (decide (filter (fun c => c ∉ order) nodes = [])) as [Hnil|Hne].
  - exfalso. apply Hlen. apply Permutation_length, NoDup_Permutation; [done..|]. intros c. split; [apply Hsub|]. intros Hc.
    destruct (decide (c ∈ order)) as [|Hn]; [done|].
    assert (Hx : c ∈ filter (fun c => c ∉ order) nodes) by (by apply list_elem_of_filter). rewrite Hnil in Hx.
    by apply not_elem_of_nil in Hx.
  - apply (stuck_cyclic _ Hne). intros c [Hc Hcn]%list_elem_of_filter. split; [done|].
    assert (Hm : missing order c <> []). { intros Hm. apply Hc. apply (ki_ready _ _ _ Hinv) in Hm; [|done]. by rewrite app_nil_r in Hm. }
    destruct (missing order c) as [|d m] eqn:Hmd; [done|].
    assert (Hd : d ∈ missing order c) by (rewrite Hmd; by left). apply missing_elem in Hd as [Hd Hdo].
    exists d. split; [done|]. apply list_elem_of_filter. split; [done|]. by apply (Hdeps c Hcn).
Qed.

(** The loop orders every plugin only if there is no cycle. *)
Lemma kahn_complete count order : kahn_inv count [] order -> length order = length nodes -> forall x, ~ tc depends x x.
Proof.
  intros Hinv Hlen. pose proof (ki_nodup _ _ _ Hinv) as Hno. pose proof (ki_nodes _ _ _ Hinv) as Hsub. rewrite app_nil_r in Hno, Hsub.
  apply topo_acyclic with order; [|apply (ki_topo _ _ _ Hinv)].
  apply submseteq_length_Permutation; [by apply NoDup_submseteq|lia].
Qed.
End Kahn.

(** ** The planner *)
Record ResolvedRequirement : Type := MkResolvedRequirement {
  rr_requirement : RequiredService;
  rr_provider_plugin_id : option string;
}.

Record PluginPlan : Type := MkPluginPlan {
  pp_sources : list VerifiedPluginSource;
  pp_bindings : dict string (list ResolvedRequirement);
  pp_attestation : nat;
}.

Definition plugin_id (s : VerifiedPluginSource) : string := pm_plugin_id (vs_manifest s).

(** [PluginPlan.plugin_ids] *)
Definition plugin_ids (p : PluginPlan) : list string := plugin_id <$> pp_sources p.

Section Planner.
Context `{Packaging} (harness_version : version) (attestation : nat).

(** The first loop: trust and harness API *)
Definition check_source (_ : unit) (s : VerifiedPluginSource) : planned unit :=
  if negb (is_attested_by s attestation) then refuse TRUST_REJECTED []
  else if negb (supports_harness (vs_manifest s) harness_version) then refuse HARNESS_API_MISMATCH [plugin_id s]
  else inr tt.

(** [_source_key], and the order of such tuples *)
Definition source_key (s : VerifiedPluginSource) : res (string * version * string) :=
  let! v := parsed_version (vs_manifest s) in Ok (plugin_id s, v, vs_digest s).

Definition version_eqb (v w : version) : bool := version_leb v w && version_leb w v.

Definition key_leb (a b : string * version * string) : bool :=
  let '(i, v, d) := a in let '(j, w, e) := b in
  if decide (i = j) then if version_eqb v w then bool_decide (String.le d e) else version_leb v w
  else bool_decide (String.le i j).

Definition keyed_le (a b : (string * version * string) * VerifiedPluginSource) : Prop := key_leb a.1 b.1 = true.
#[global] Instance keyed_le_dec : RelDecision keyed_le.
Proof. intros a b. unfold keyed_le. apply _. Defined.

Fixpoint keyed_sources (l : list VerifiedPluginSource) : res (list ((string * version * string) * VerifiedPluginSource)) :=
  match l with
  | [] => Ok []
  | s :: l => let! k := source_key s in let! r := keyed_sources l in Ok ((k, s) :: r)
  end.

(** [sorted(candidates, key=self._source_key)]: all keys first, then the sort *)
Definition sorted_sources (l : list VerifiedPluginSource) : res (list VerifiedPluginSource) :=
  let! keyed := keyed_sources l in
  Ok (snd <$> merge_sort keyed_le keyed).

(** [by_id] *)
Definition index_source (by_id : dict string VerifiedPluginSource) (s : VerifiedPluginSource) :
    planned (dict string VerifiedPluginSource) :=
  match dget (plugin_id s) by_id with
  | Some _ => refuse DUPLICATE_PLUGIN [plugin_id s]
  | None => inr (dset (plugin_id s) s by_id)
  end.

Abbreviation Providers := (dict string (VerifiedPluginSource * string)).

(** [providers] *)
Definition index_provided (s : VerifiedPluginSource) (providers : Providers) (p : ProvidedService) : planned Providers :=
  match dget (pv_service p) providers with
  | Some (previous, _) => refuse DUPLICATE_PROVIDER (pv_service p :: sorted_strings [plugin_id previous; plugin_id s])
  | None => inr (dset (pv_service p) (s, pv_version p) providers)
  end.

Definition index_provider (providers : Providers) (s : VerifiedPluginSource) : planned Providers :=
  efold (index_provided s) providers (pm_provides (vs_manifest s)).

Abbreviation Slots := (dict (ContributionKind * string) string).

(** [seen_contributions] *)
Definition claim_slot (s : VerifiedPluginSource) (seen : Slots) (key : ContributionKind * string) : planned Slots :=
  match dget key seen with
  | Some previous =>
      refuse CONTRIBUTION_CONFLICT (contribution_kind_value key.1 :: key.2 :: sorted_strings [previous; plugin_id s])
  | None => inr (dset key (plugin_id s) seen)
  end.

Definition claim_slots (seen : Slots) (s : VerifiedPluginSource) : planned Slots :=
  efold (claim_slot s) seen (contribution_map (vs_manifest s)).*1.

(** One requirement: appended to [resolved], its provider added to the set of
    dependencies *)
Definition resolve_requirement (providers : Providers) (id : string)
    (acc : list ResolvedRequirement * list string) (r : RequiredService) : planned (list ResolvedRequirement * list string) :=
  let (resolved, dependencies) := acc in
  match dget (rq_service r) providers with
  | None =>
      if rq_optional r then inr (resolved ++ [MkResolvedRequirement r None], dependencies)
      else refuse MISSING_PROVIDER [id; rq_service r]
  | Some (source, provided) =>
      try! accepted := crash (accepts r provided) in
      if negb accepted then refuse PROVIDER_VERSION_MISMATCH [id; rq_service r; rq_version r; provided; plugin_id source]
      else inr (resolved ++ [MkResolvedRequirement r (Some (plugin_id source))],
                if decide (plugin_id source ∈ dependencies) then dependencies else dependencies ++ [plugin_id source])
  end.

Definition resolve_source (providers : Providers) (id : string) (s : VerifiedPluginSource) :
    planned (list ResolvedRequirement * list string) :=
  efold (resolve_requirement providers id) ([], []) (pm_requires (vs_manifest s)).

Record Links : Type := MkLinks {
  lk_outgoing : dict string (list string);
  lk_incoming : dict string Z;
  lk_bindings : dict string (list ResolvedRequirement);
}.

(** [outgoing[provider_id].add(plugin_id); incoming_count[plugin_id] += 1] *)
Definition add_edge (id : string) (l : Links) (provider : string) : Links :=
  MkLinks (dalter (fun outs => if decide (id ∈ outs) then outs else outs ++ [id]) provider (lk_outgoing l))
    (dalter (fun n => (n + 1)%Z) id (lk_incoming l)) (lk_bindings l).

Definition link_source (providers : Providers) (l : Links) (entry : string * VerifiedPluginSource) : planned Links :=
  let (id, s) := entry in
  try! rd := resolve_source providers id s in
  inr (foldl (add_edge id) (MkLinks (lk_outgoing l) (lk_incoming l) (dset id rd.1 (lk_bindings l))) rd.2).

(** [plan] from the indexed plugins on *)
Definition order_plugins (by_id : dict string VerifiedPluginSource) (l : Links) : planned PluginPlan :=
  let ready := heapify (filter (fun id => dget id (lk_incoming l) = Some 0%Z) (lk_incoming l).*1) in
  match kahn (length by_id) (lk_outgoing l) (lk_incoming l) ready [] with
  | None => inl (Crash OutOfFuel)
  | Some (order, count) =>
      if decide (length order <> length by_id) then
        refuse DEPENDENCY_CYCLE (sorted_strings (filter (fun id => dget id count <> Some 0%Z) count.*1))
      else inr (MkPluginPlan (omap (fun id => dget id by_id) order) (lk_bindings l) attestation)
  end.

Definition plan (sources : list VerifiedPluginSource) : planned PluginPlan :=
  try! _ := efold check_source tt sources in
  try! candidates := crash (sorted_sources sources) in
  try! by_id := efold index_source [] candidates in
  try! providers := efold index_provider [] by_id.*2 in
  try! _ := efold claim_slots [] by_id.*2 in
  try! links := efold (link_source providers)
    (MkLinks ((fun id => (id, [])) <$> by_id.*1) ((fun id => (id, 0%Z)) <$> by_id.*1) []) by_id in
  order_plugins by_id links.

(** *** What the loops compute *)

Lemma dset_absent {V : Type} (k : string) (v : V) d : dget k d = None -> dset k v d = d ++ [(k, v)].
Proof. induction d as [|[k1 v1] d IH]; simpl; [done|]. case_decide; [done|]. intros Hd. by rewrite IH. Qed.

Lemma keyed_sources_Ok l r : keyed_sources l = Ok r -> r.*2 = l /\ Forall (fun ks => ks.1.1.1 = plugin_id ks.2) r.
Proof.
  revert r. induction l as [|s l IH]; intros r Hr; simpl in Hr; py_simpl; [by split|].
  match goal with Hk : source_key s = Ok ?k, Hl : keyed_sources l = Ok ?r |- _ => destruct (IH r Hl) as [<- Hf];
    unfold source_key in Hk; apply res_bind_Ok in Hk as (v & _ & [= <-]) end.
  split; [done|]. by constructor.
Qed.

Lemma sorted_sources_perm l c : sorted_sources l = Ok c -> c ≡ₚ l.
Proof.
  unfold sorted_sources. intros Hs. apply res_bind_Ok in Hs as (k & [Hk _]%keyed_sources_Ok & [= <-]).
  by rewrite merge_sort_Permutation, Hk.
Qed.

Definition indexed (l : list VerifiedPluginSource) : dict string VerifiedPluginSource := (fun s => (plugin_id s, s)) <$> l.

Lemma indexed_keys l : (indexed l).*1 = plugin_id <$> l.
Proof. unfold indexed. by rewrite <- list_fmap_compose. Qed.
Lemma indexed_values l : (indexed l).*2 = l.
Proof. unfold indexed. rewrite <- list_fmap_compose. apply list_fmap_id. Qed.

Lemma index_source_Ok l by_id : efold index_source [] l = inr by_id -> by_id = indexed l /\ NoDup (plugin_id <$> l).
Proof.
  apply (efold_ind (fun done d => d = indexed done /\ NoDup (plugin_id <$> done))); [split; [done|constructor]|].
  intros done s rest d1 d2 _ [-> Hnd] Hi. unfold index_source in Hi.
  destruct (dget (plugin_id s) (indexed done)) eqn:Hd; [done|]. simplify_eq. rewrite dset_absent by done. unfold indexed.
  rewrite fmap_app. split; [done|]. rewrite fmap_app. apply NoDup_app. split_and!; [done| |apply NoDup_singleton].
  apply dget_None in Hd. rewrite indexed_keys in Hd. intros x Hx ->%list_elem_of_singleton. done.
Qed.

(** The provider of a service is the plugin that declares it. *)
Definition providers_of (l : list VerifiedPluginSource) (providers : Providers) : Prop :=
  (forall service s v, dget service providers = Some (s, v) ->
     s ∈ l /\ exists p, p ∈ pm_provides (vs_manifest s) /\ pv_service p = service /\ pv_version p = v) /\
  (forall s p, s ∈ l -> p ∈ pm_provides (vs_manifest s) -> dget (pv_service p) providers = Some (s, pv_version p)).

Lemma index_provider_Ok l providers : efold index_provider [] l = inr providers -> providers_of l providers.
Proof.
  apply (efold_ind providers_of); [split; [done|set_solver]|].
  intros done s rest d1 d2 _ [Hsound Hcomplete] Hi. unfold index_provider in Hi.
  pose (I := fun (ps : list ProvidedService) (d : Providers) =>
    (forall service s' v, dget service d = Some (s', v) -> (s' ∈ done \/ s' = s) /\
       exists p, p ∈ pm_provides (vs_manifest s') /\ pv_service p = service /\ pv_version p = v) /\
    (forall service sv, dget service d1 = Some sv -> dget service d = Some sv) /\
    (forall p, p ∈ ps -> dget (pv_service p) d = Some (s, pv_version p))).
  cut (I (pm_provides (vs_manifest s)) d2).
  { intros (Hs & Hk & Hc). split.
    - intros service s' v Hd. destruct (Hs service s' v Hd) as [Hin Hp]. split; [|done]. rewrite elem_of_app, list_elem_of_singleton. done.
    - intros s' p [Hin| ->%list_elem_of_singleton]%elem_of_app Hp; [by apply Hk, Hcomplete|by apply Hc]. }
  revert Hi. apply (efold_ind I).
  - split_and!; [|done|set_solver]. intros service s' v Hd. destruct (Hsound service s' v Hd). auto.
  - intros ps p rest' e1 e2 Hps (Hs & Hk & Hc) Hp.
    assert (Hin : p ∈ pm_provides (vs_manifest s)) by (rewrite Hps; set_solver). unfold index_provided in Hp.
    destruct (dget (pv_service p) e1) as [[]|] eqn:He; [done|]. simplify_eq. split_and!.
    + intros service s' v. rewrite dget_dset. case_decide as Hsv; [|apply Hs]. intros [= <- <-]. split; [by right|]. by exists p.
    + intros service sv Hd. rewrite dget_dset, decide_False; [by apply Hk|]. intros ->. apply Hk in Hd. congruence.
    + intros p' [Hp'| ->%list_elem_of_singleton]%elem_of_app; rewrite dget_dset; [|by rewrite decide_True].
      rewrite decide_False; [by apply Hc|]. intros Heq. specialize (Hc p' Hp'). congruence.
Qed.

(** What a resolved requirement promises *)
Definition binding_ok (providers : Providers) (r : ResolvedRequirement) : Prop :=
  match rr_provider_plugin_id r with
  | None => rq_optional (rr_requirement r) = true /\ dget (rq_service (rr_requirement r)) providers = None
  | Some q => exists s v, dget (rq_service (rr_requirement r)) providers = Some (s, v) /\ plugin_id s = q /\
                accepts (rr_requirement r) v = Ok true
  end.

Lemma resolve_source_Ok providers id s rs ds : resolve_source providers id s = inr (rs, ds) ->
  rr_requirement <$> rs = pm_requires (vs_manifest s) /\ NoDup ds /\ Forall (binding_ok providers) rs /\
  (forall d, d ∈ ds <-> exists r, r ∈ rs /\ rr_provider_plugin_id r = Some d).
Proof.
  pose (I := fun reqs (rd : list ResolvedRequirement * list string) => rr_requirement <$> rd.1 = reqs /\ NoDup rd.2 /\
    Forall (binding_ok providers) rd.1 /\ (forall d, d ∈ rd.2 <-> exists r, r ∈ rd.1 /\ rr_provider_plugin_id r = Some d)).
  intros Hrs. cut (I (pm_requires (vs_manifest s)) (rs, ds)); [done|]. revert Hrs. apply (efold_ind I).
  { split_and!; [done|constructor|constructor|]. intros d. rewrite elem_of_nil. split; [done|]. by intros (r & ?%not_elem_of_nil & _). }
  intros reqs r rest [rs1 ds1] [rs2 ds2] _ (<- & Hnd & Hok & Hds) Hr. unfold resolve_requirement in Hr.
  assert (Hnew : forall q, binding_ok providers (MkResolvedRequirement r q) ->
    rr_requirement <$> (rs1 ++ [MkResolvedRequirement r q]) = (rr_requirement <$> rs1) ++ [r] /\
    Forall (binding_ok providers) (rs1 ++ [MkResolvedRequirement r q])).
  { intros q Hq. rewrite fmap_app, Forall_app. by repeat constructor. }
  destruct (dget (rq_service r) providers) as [[s' v]|] eqn:Hp.
  - apply ebind_inr in Hr as (acc & Hacc & Hr). destruct acc; simpl in Hr; [|done]. simplify_eq.
    destruct (accepts r v) as [b|] eqn:Hb; simplify_eq/=.
    destruct (Hnew (Some (plugin_id s'))) as [Hreq ?]; [by exists s', v|]. unfold I. simpl in *. split_and!; [done| |done|].
    + case_decide; [done|]. apply NoDup_app. split_and!; [done| |apply NoDup_singleton]. set_solver.
    + intros d. case_decide; set_solver.
  - destruct (rq_optional r) eqn:Ho; simplify_eq. destruct (Hnew None) as [Hreq ?]; [done|]. unfold I. simpl in *. split_and!; [done|done|done|].
    intros d. rewrite Hds. set_solver.
Qed.

(** The providers a plugin depends on *)
Definition dependencies (providers : Providers) (by_id : dict string VerifiedPluginSource) (c : string) : list string :=
  match dget c by_id with
  | Some s => match resolve_source providers c s with inr rd => rd.2 | inl _ => [] end
  | None => []
  end.

Lemma add_edges id ds l : NoDup ds ->
  (forall p, dget p (lk_outgoing (foldl (add_edge id) l ds)) =
     (fun outs => if decide (p ∈ ds) then (if decide (id ∈ outs) then outs else outs ++ [id]) else outs) <$> dget p (lk_outgoing l)) /\
  (forall c, dget c (lk_incoming (foldl (add_edge id) l ds)) =
     (fun n => if decide (c = id) then (n + Z.of_nat (length ds))%Z else n) <$> dget c (lk_incoming l)) /\
  lk_bindings (foldl (add_edge id) l ds) = lk_bindings l.
Proof.
  intros Hnd. revert l. induction Hnd as [|d ds Hd Hnd IH]; intros l; cbn [foldl].
  - split_and!; [|intros c|done].
    + intros p. by destruct (dget p (lk_outgoing l)).
    + destruct (dget c (lk_incoming l)) as [n|]; simpl; [|done]. case_decide; f_equal; lia.
  - destruct (IH (add_edge id l d)) as (Ho & Hi & ->). split_and!; [| |done].
    + intros p. rewrite Ho. unfold add_edge at 1. cbn [lk_outgoing]. rewrite dget_dalter.
      destruct (decide (p = d)) as [->|Hne].
      * destruct (dget d (lk_outgoing l)) as [outs|]; cbn [fmap option_fmap option_map]; [|done]. f_equal.
        destruct (decide (d ∈ ds)); [done|]. destruct (decide (d ∈ d :: ds)) as [|Hn]; [done|]. exfalso. apply Hn. by left.
      * destruct (dget p (lk_outgoing l)) as [outs|]; cbn [fmap option_fmap option_map]; [|done]. f_equal.
        destruct (decide (p ∈ ds)), (decide (p ∈ d :: ds)); try done; set_solver.
    + intros c. rewrite Hi. unfold add_edge at 1. cbn [lk_incoming]. rewrite dget_dalter.
      destruct (decide (c = id)); [|done]. destruct (dget c (lk_incoming l)) as [n|]; simpl; [|done]. f_equal. lia.
Qed.

Section Linking.
Context (l : list VerifiedPluginSource) (providers : Providers) (Hids : NoDup (plugin_id <$> l)).
Context (Hprov : providers_of l providers).

Abbreviation deps := (dependencies providers (indexed l)).

Lemma indexed_get s : s ∈ l -> dget (plugin_id s) (indexed l) = Some s.
Proof.
  intros Hs. apply dget_Some; [by rewrite indexed_keys|]. unfold indexed. apply list_elem_of_fmap. by exists s.
Qed.

Lemma get_indexed c s : dget c (indexed l) = Some s -> s ∈ l /\ plugin_id s = c.
Proof. intros Hd%dget_elem. unfold indexed in Hd. apply list_elem_of_fmap in Hd as (s' & [= -> ->] & Hs). done. Qed.

Record linked (done : list (string * VerifiedPluginSource)) (k : Links) : Prop := MkLinked {
  ld_keys : (lk_incoming k).*1 = plugin_id <$> l;
  ld_out : forall p, p ∈ plugin_id <$> l ->
    exists outs, dget p (lk_outgoing k) = Some outs /\ NoDup outs /\ forall c, c ∈ outs <-> c ∈ done.*1 /\ p ∈ deps c;
  ld_in : forall c, c ∈ plugin_id <$> l ->
    dget c (lk_incoming k) = Some (if decide (c ∈ done.*1) then Z.of_nat (length (deps c)) else 0%Z);
  ld_bound : forall c, c ∈ done.*1 -> exists s rs ds, s ∈ l /\ plugin_id s = c /\
    resolve_source providers c s = inr (rs, ds) /\ dget c (lk_bindings k) = Some rs /\ deps c = ds;
}.

Lemma foldl_add_edge_keys id ds k : (lk_incoming (foldl (add_edge id) k ds)).*1 = (lk_incoming k).*1.
Proof. revert k. induction ds as [|d ds IH]; intros k; [done|]. cbn [foldl]. rewrite IH. apply dalter_keys. Qed.

Lemma dget_const {V : Type} (v : V) (ids : list string) (k : string) :
  k ∈ ids -> dget k ((fun id : string => (id, v)) <$> ids : dict string V) = Some v.
Proof. induction ids as [|i ids IH]; [by intros ?%not_elem_of_nil|]. csimpl. case_decide; [done|]. intros [?|?]%elem_of_cons; auto. done. Qed.

Lemma link_sources_Ok k :
  efold (link_source providers)
    (MkLinks ((fun id => (id, [])) <$> (indexed l).*1) ((fun id => (id, 0%Z)) <$> (indexed l).*1) []) (indexed l) = inr k ->
  linked (indexed l) k.
Proof.
  apply (efold_ind linked).
  { rewrite indexed_keys. split; cbn [lk_incoming lk_outgoing fmap list_fmap].
    - by rewrite <- list_fmap_compose, list_fmap_id.
    - intros p Hp. exists []. rewrite dget_const by done. split_and!; [done|constructor|]. set_solver.
    - intros c Hc. by rewrite dget_const.
    - set_solver. }
  intros done [id s] rest k1 k2 Heq [Hkeys Hout Hin Hbound] Hk. unfold link_source in Hk.
  apply ebind_inr in Hk as ([rs ds] & Hres & Hk). simplify_eq. simpl.
  assert (Hs : s ∈ l /\ plugin_id s = id).
  { assert (Hi : (id, s) ∈ indexed l) by (rewrite Heq; set_solver). apply list_elem_of_fmap in Hi as (s' & [= -> ->] & ?). done. }
  destruct Hs as [Hs Hid].
  assert (Hfresh : id ∉ done.*1).
  { assert (Hnd : NoDup ((indexed l).*1)) by (by rewrite indexed_keys). rewrite Heq, fmap_app in Hnd. apply NoDup_app in Hnd as (_ & Hd & _).
    intros Hx. apply (Hd id Hx). by left. }
  assert (Hdeps : deps id = ds). { unfold dependencies. rewrite <- Hid, (indexed_get s Hs), Hid, Hres. done. }
  destruct (resolve_source_Ok _ _ _ _ _ Hres) as (_ & Hnds & _ & _).
  destruct (add_edges id ds (MkLinks (lk_outgoing k1) (lk_incoming k1) (dset id rs (lk_bindings k1))) Hnds) as (Ho & Hi & Hb).
  assert (Hd : (done ++ [(id, s)]).*1 = done.*1 ++ [id]) by (by rewrite fmap_app). split.
  - by rewrite foldl_add_edge_keys.
  - intros p Hp. destruct (Hout p Hp) as (outs & Hp1 & Hno & Hel). rewrite Ho. cbn [lk_outgoing]. rewrite Hp1.
    eexists. split; [done|]. assert (Hio : id ∉ outs) by (rewrite Hel; tauto).
    destruct (decide (p ∈ ds)) as [Hpd|Hpd]; [rewrite (decide_False (P := id ∈ outs)) by done|].
    + split; [apply NoDup_app; split_and!; [done|set_solver|apply NoDup_singleton]|]. intros c.
      rewrite Hd, !elem_of_app, !list_elem_of_singleton, Hel. split; [|set_solver]. intros [?| ->]; [tauto|]. rewrite Hdeps. tauto.
    + split; [done|]. intros c. rewrite Hd, Hel, elem_of_app, list_elem_of_singleton. split; [tauto|].
      intros [[?| ->] ?]; [tauto|]. rewrite Hdeps in *. done.
  - intros c Hc. rewrite Hd, Hi. cbn [lk_incoming]. rewrite (Hin c Hc). cbn [fmap option_fmap option_map]. f_equal.
    destruct (decide (c = id)) as [->|Hne].
    + rewrite (decide_False (P := id ∈ done.*1)), decide_True by (done || set_solver). rewrite Hdeps. lia.
    + destruct (decide (c ∈ done.*1)), (decide (c ∈ done.*1 ++ [id])); try done; set_solver.
  - intros c. rewrite Hd. intros [Hc| ->%list_elem_of_singleton]%elem_of_app; rewrite Hb; cbn [lk_bindings]; rewrite dget_dset.
    + rewrite decide_False by (by intros ->). by apply Hbound.
    + rewrite decide_True by done. by exists s, rs, ds.
Qed.

Section Ordered.
Context (k : Links) (Hk : linked (indexed l) k).

Abbreviation nodes := (plugin_id <$> l).

Lemma linked_resolved c : c ∈ nodes -> exists s rs, s ∈ l /\ plugin_id s = c /\
  resolve_source providers c s = inr (rs, deps c) /\ dget c (lk_bindings k) = Some rs.
Proof.
  intros Hc. destruct (ld_bound _ _ Hk c) as (s & rs & ds & Hs & Hid & Hr & Hb & Hd); [by rewrite indexed_keys|].
  exists s, rs. by rewrite Hd.
Qed.

Lemma deps_ok c : c ∈ nodes -> NoDup (deps c) /\ deps c ⊆ nodes.
Proof.
  intros Hc. destruct (linked_resolved c Hc) as (s & rs & Hs & Hid & Hr & Hb).
  destruct (resolve_source_Ok _ _ _ _ _ Hr) as (_ & Hnd & Hok & Hds). split; [done|].
  intros d Hd. apply Hds in Hd as (r & Hrin & Hp). rewrite Forall_forall in Hok. specialize (Hok r Hrin). unfold binding_ok in Hok.
  rewrite Hp in Hok. destruct Hok as (s' & v & Hget & <- & _). apply Hprov in Hget as [Hs' _]. apply list_elem_of_fmap. by exists s'.
Qed.

Lemma out_ok p : p ∈ nodes ->
  exists outs, dget p (lk_outgoing k) = Some outs /\ NoDup outs /\ forall c, c ∈ outs <-> c ∈ nodes /\ p ∈ deps c.
Proof.
  intros Hp. destruct (ld_out _ _ Hk p Hp) as (outs & Ho & Hnd & Hel). exists outs. rewrite indexed_keys in Hel. done.
Qed.

Lemma order_runs : exists order count,
  kahn (length (indexed l)) (lk_outgoing k) (lk_incoming k)
    (heapify (filter (fun id => dget id (lk_incoming k) = Some 0%Z) (lk_incoming k).*1)) [] = Some (order, count) /\
  kahn_inv nodes deps count [] order.
Proof.
  rewrite (ld_keys _ _ Hk). apply (kahn_runs nodes deps _ Hids deps_ok out_ok).
  - apply kahn_start; [done|]. intros c Hc. rewrite (ld_in _ _ Hk c Hc), indexed_keys. by rewrite decide_True.
  - unfold indexed. rewrite !length_fmap. simpl. lia.
Qed.

(** A plugin depends on the plugins that provide what it requires. *)
Definition needs (sources : list VerifiedPluginSource) (x y : string) : Prop :=
  exists s s' r p, s ∈ sources /\ plugin_id s = x /\ r ∈ pm_requires (vs_manifest s) /\
    s' ∈ sources /\ plugin_id s' = y /\ p ∈ pm_provides (vs_manifest s') /\ rq_service r = pv_service p.

Lemma depends_needs x y : depends nodes deps x y <-> needs l x y.
Proof.
  split.
  - intros [Hx Hy]. destruct (linked_resolved x Hx) as (s & rs & Hs & Hid & Hr & _).
    destruct (resolve_source_Ok _ _ _ _ _ Hr) as (Hreq & _ & Hok & Hds). apply Hds in Hy as (r & Hrin & Hp).
    rewrite Forall_forall in Hok. specialize (Hok r Hrin). unfold binding_ok in Hok. rewrite Hp in Hok.
    destruct Hok as (s' & v & Hget & Hid' & _). apply Hprov in Hget as (Hs' & p & Hpin & Hsv & _).
    exists s, s', (rr_requirement r), p. split_and!; try done. rewrite <- Hreq. by apply list_elem_of_fmap_2.
  - intros (s & s' & r & p & Hs & <- & Hrin & Hs' & <- & Hpin & Hsv).
    assert (Hx : plugin_id s ∈ nodes) by (by apply list_elem_of_fmap_2). split; [done|].
    destruct (linked_resolved _ Hx) as (s0 & rs & Hs0 & Hid & Hr & _).
    assert (s0 = s) as -> by (pose proof (indexed_get s0 Hs0); pose proof (indexed_get s Hs); congruence).
    destruct (resolve_source_Ok _ _ _ _ _ Hr) as (Hreq & _ & Hok & Hds). rewrite <- Hreq in Hrin.
    apply list_elem_of_fmap in Hrin as (rr & -> & Hrr). apply Hds. exists rr. split; [done|].
    rewrite Forall_forall in Hok. specialize (Hok rr Hrr). unfold binding_ok in Hok.
    assert (Hget := proj2 Hprov s' p Hs' Hpin). rewrite <- Hsv in Hget. rewrite Hget in Hok.
    destruct (rr_provider_plugin_id rr) as [q|]; [|by destruct Hok]. destruct Hok as (s1 & v & [= <- <-] & <- & _). done.
Qed.

Lemma tc_mono (R R' : relation string) : (forall a b, R a b -> R' a b) -> forall a b, tc R a b -> tc R' a b.
Proof. intros Hr a b Hab. induction Hab; [constructor; auto|eapply tc_l; eauto]. Qed.

Lemma order_cyclic count order : kahn_inv nodes deps count [] order ->
  (length order <> length l -> exists x, tc (needs l) x x) /\ (length order = length l -> forall x, ~ tc (needs l) x x).
Proof.
  intros Hinv. split; intros Hlen.
  - destruct (kahn_stuck nodes deps _ Hids deps_ok out_ok count order Hinv) as [x Hx]; [by rewrite length_fmap|].
    exists x. revert Hx. apply tc_mono. intros a b. apply depends_needs.
  - intros x Hx. apply (kahn_complete nodes deps _ Hids deps_ok out_ok count order Hinv) with x; [by rewrite length_fmap|].
    revert Hx. apply tc_mono. intros a b. apply depends_needs.
Qed.

End Ordered.
End Linking.

Lemma needs_perm l l' x y : l ≡ₚ l' -> needs l x y -> needs l' x y.
Proof.
  intros Hp (s & s' & r & p & Hs & ? & ? & Hs' & ?). rewrite Hp in Hs, Hs'. by exists s, s', r, p.
Qed.

(** The stages of [plan] up to the ordering, and what they leave *)
Lemma plan_stages sources r : plan sources = r ->
  (exists e, r = inl e /\ forall members, e <> PlanError (MkPluginError DEPENDENCY_CYCLE members)) \/
  exists l providers k, sorted_sources sources = Ok l /\ NoDup (plugin_id <$> l) /\ providers_of l providers /\
    linked l providers (indexed l) k /\ order_plugins (indexed l) k = r.
Proof.
  assert (Hfail : forall A B (f : A -> B -> planned A) a xs e, efold f a xs = inl e -> exists a b, f a b = inl e).
  { intros A B f a xs e (done & b & rest & a1 & _ & _ & Hf)%efold_inl. eauto. }
  intros Hp. unfold plan in Hp. destruct (efold check_source tt sources) as [e|u] eqn:H1; simpl in Hp.
  { left. exists e. split; [done|]. intros ms ->. apply Hfail in H1 as (a & b & H1). unfold check_source in H1. by repeat case_match. }
  destruct (sorted_sources sources) as [l|e] eqn:H2; simpl in Hp; [|left; by exists (Crash e)].
  destruct (efold index_source [] l) as [e|by_id] eqn:H3; simpl in Hp.
  { left. exists e. split; [done|]. intros ms ->. apply Hfail in H3 as (a & b & H3). unfold index_source in H3. by repeat case_match. }
  apply index_source_Ok in H3 as [-> Hids]. rewrite indexed_values in Hp.
  destruct (efold index_provider [] l) as [e|providers] eqn:H4; simpl in Hp.
  { left. exists e. split; [done|]. intros ms ->. apply Hfail in H4 as (a & b & H4). apply Hfail in H4 as (a' & b' & H4).
    unfold index_provided in H4. by repeat case_match. }
  apply index_provider_Ok in H4. destruct (efold claim_slots [] l) as [e|slots] eqn:H5; simpl in Hp.
  { left. exists e. split; [done|]. intros ms ->. apply Hfail in H5 as (a & b & H5). apply Hfail in H5 as (a' & b' & H5).
    unfold claim_slot in H5. by repeat case_match. }
  destruct (efold (link_source providers) _ (indexed l)) as [e|k] eqn:H6; simpl in Hp.
  { left. exists e. split; [done|]. intros ms ->. apply Hfail in H6 as (a & [id b] & H6). unfold link_source in H6.
    apply ebind_inl in H6 as [H6|(a' & _ & H6)]; [|done]. apply Hfail in H6 as ([rs ds] & r' & H6). unfold resolve_requirement in H6.
    destruct (dget (rq_service r') providers) as [[s' v]|]; [|by case_match]. apply ebind_inl in H6 as [H6|(b' & _ & H6)]; [|by repeat case_match].
    unfold crash in H6. by case_match. }
  right. exists l, providers, k. split_and!; try done. by apply link_sources_Ok.
Qed.

Lemma ordered_sources l (order : list string) : NoDup (plugin_id <$> l) -> order ⊆ plugin_id <$> l ->
  plugin_id <$> omap (fun id => dget id (indexed l)) order = order.
Proof.
  intros Hnd. induction order as [|c order IH]; intros Hsub; [done|]. csimpl.
  assert (Hc : c ∈ plugin_id <$> l) by (apply Hsub; by left). apply list_elem_of_fmap in Hc as (s & -> & Hs).
  rewrite (indexed_get l Hnd s Hs). csimpl. f_equal. apply IH. intros x Hx. apply Hsub. by right.
Qed.

Lemma ordered_perm l (order : list string) : NoDup (plugin_id <$> l) -> order ≡ₚ plugin_id <$> l ->
  omap (fun id => dget id (indexed l)) order ≡ₚ l.
Proof.
  intros Hnd Hp. apply NoDup_Permutation.
  - apply (NoDup_fmap_1 plugin_id). rewrite ordered_sources; [by rewrite Hp|done|intros x; by rewrite Hp].
  - by apply (NoDup_fmap_1 plugin_id).
  - intros s. rewrite list_elem_of_omap. split.
    + intros (c & _ & Hd). by apply get_indexed in Hd as [? _].
    + intros Hs. exists (plugin_id s). rewrite Hp, (indexed_get l Hnd s Hs). split; [by apply list_elem_of_fmap_2|done].
Qed.

(** The order and the links behind a plan *)
Lemma plan_laid_out sources p : plan sources = inr p -> exists l providers k order count,
  l ≡ₚ sources /\ NoDup (plugin_id <$> l) /\ providers_of l providers /\ linked l providers (indexed l) k /\
  kahn_inv (plugin_id <$> l) (dependencies providers (indexed l)) count [] order /\ order ≡ₚ plugin_id <$> l /\
  pp_sources p = omap (fun id => dget id (indexed l)) order /\ pp_bindings p = lk_bindings k.
Proof.
  intros Hp. destruct (plan_stages _ _ Hp) as [(e & [=] & _)|(l & providers & k & Hl & Hids & Hprov & Hk & Ho)].
  destruct (order_runs l providers Hids Hprov k Hk) as (order & count & Hrun & Hinv). unfold order_plugins in Ho. rewrite Hrun in Ho.
  case_decide as Hlen; [done|]. simplify_eq. exists l, providers, k, order, count. split_and!; try done; [by apply sorted_sources_perm|].
  pose proof (ki_nodup _ _ _ _ _ Hinv) as Hno. pose proof (ki_nodes _ _ _ _ _ Hinv) as Hsub. rewrite app_nil_r in Hno, Hsub.
  apply submseteq_length_Permutation; [by apply NoDup_submseteq|]. unfold indexed in Hlen. rewrite !length_fmap in *. lia.
Qed.

(** The bindings of a planned source *)
Lemma plan_bindings sources p before s after : plan sources = inr p -> pp_sources p = before ++ s :: after ->
  exists rs, dget (plugin_id s) (pp_bindings p) = Some rs /\ rr_requirement <$> rs = pm_requires (vs_manifest s) /\
    Forall (fun r => match rr_provider_plugin_id r with
      | None => rq_optional (rr_requirement r) = true /\
          forall s' pv, s' ∈ sources -> pv ∈ pm_provides (vs_manifest s') -> pv_service pv <> rq_service (rr_requirement r)
      | Some q => exists s' pv, s' ∈ before /\ plugin_id s' = q /\ pv ∈ pm_provides (vs_manifest s') /\
          pv_service pv = rq_service (rr_requirement r) /\ accepts (rr_requirement r) (pv_version pv) = Ok true
      end) rs.
Proof.
  intros (l & providers & k & order & count & Hperm & Hids & Hprov & Hk & Hinv & Hall & -> & ->)%plan_laid_out Heq.
  assert (Hsub : order ⊆ plugin_id <$> l) by (intros x; by rewrite Hall). pose proof (ordered_sources l order Hids Hsub) as Hord. rewrite Heq, fmap_app in Hord. simpl in Hord.
  assert (Hs : plugin_id s ∈ plugin_id <$> l) by (rewrite <- Hall, <- Hord; set_solver).
  destruct (linked_resolved l providers k Hk _ Hs) as (s0 & rs & Hs0 & Hid & Hr & Hb).
  assert (Hsl : s ∈ l) by (rewrite <- (ordered_perm l order Hids Hall), Heq; set_solver).
  assert (s0 = s) as -> by (pose proof (indexed_get l Hids s0 Hs0); pose proof (indexed_get l Hids s Hsl); congruence).
  destruct (resolve_source_Ok _ _ _ _ _ Hr) as (Hreq & _ & Hok & Hds). exists rs. split_and!; [done..|].
  apply Forall_forall. intros r Hrin. rewrite Forall_forall in Hok. specialize (Hok r Hrin). unfold binding_ok in Hok.
  destruct (rr_provider_plugin_id r) as [q|] eqn:Hq.
  - destruct Hok as (s' & v & Hget & Hid' & Hacc). apply Hprov in Hget as (Hs' & pv & Hpv & Hsv & Hv). subst v.
    assert (Hqin : q ∈ plugin_id <$> before).
    { apply (ki_topo _ _ _ _ _ Hinv (plugin_id <$> before) (plugin_id s) (plugin_id <$> after) (eq_sym Hord)). apply Hds. by exists r. }
    apply list_elem_of_fmap in Hqin as (s1 & -> & Hs1).
    assert (Hs1l : s1 ∈ l) by (rewrite <- (ordered_perm l order Hids Hall), Heq; set_solver).
    assert (s1 = s') as -> by (pose proof (indexed_get l Hids s1 Hs1l); pose proof (indexed_get l Hids s' Hs'); congruence).
    by exists s', pv.
  - destruct Hok as [Hopt Hnone]. split; [done|]. intros s' pv Hs' Hpv Hsv. rewrite <- Hperm in Hs'.
    pose proof (proj2 Hprov s' pv Hs' Hpv) as Hget. congruence.
Qed.

(** No service has two providers, or two versions. *)
Lemma plan_providers_unique sources p s1 s2 p1 p2 : plan sources = inr p -> s1 ∈ sources -> s2 ∈ sources ->
  p1 ∈ pm_provides (vs_manifest s1) -> p2 ∈ pm_provides (vs_manifest s2) -> pv_service p1 = pv_service p2 ->
  s1 = s2 /\ pv_version p1 = pv_version p2.
Proof.
  intros Hp Hs1 Hs2 Hp1 Hp2 Heq. destruct (plan_stages _ _ Hp) as [(e & [=] & _)|(l & providers & k & Hl & _ & Hprov & _)].
  pose proof (sorted_sources_perm _ _ Hl) as Hperm. rewrite <- Hperm in Hs1, Hs2.
  pose proof (proj2 Hprov s1 p1 Hs1 Hp1) as H1. pose proof (proj2 Hprov s2 p2 Hs2 Hp2) as H2. rewrite Heq in H1. split; congruence.
Qed.

(** ** Properties *)

(** A plan is a complete, injectable order: it contains exactly the given
    sources, and every plugin comes after the providers of everything it was
    bound to.  Its bindings follow its requirements one by one; a bound provider
    precedes it, declares the service and a version the requirement accepts, and a
    requirement is left unbound only if it is optional and nobody provides it. *)
Theorem plan_orders_providers_first sources p :
  plan sources = inr p ->
  pp_sources p ≡ₚ sources /\ NoDup (plugin_ids p) /\
  forall before s after, pp_sources p = before ++ s :: after ->
    exists rs, dget (plugin_id s) (pp_bindings p) = Some rs /\ rr_requirement <$> rs = pm_requires (vs_manifest s) /\
      Forall (fun r => match rr_provider_plugin_id r with
        | None => rq_optional (rr_requirement r) = true /\
            forall s' pv, s' ∈ sources -> pv ∈ pm_provides (vs_manifest s') -> pv_service pv <> rq_service (rr_requirement r)
        | Some q => exists s' pv, s' ∈ before /\ plugin_id s' = q /\ pv ∈ pm_provides (vs_manifest s') /\
            pv_service pv = rq_service (rr_requirement r) /\ accepts (rr_requirement r) (pv_version pv) = Ok true
        end) rs.
Proof.
  intros Hp. destruct (plan_laid_out _ _ Hp) as (l & _ & _ & order & _ & Hperm & Hids & _ & _ & _ & Hall & Hs & _).
  unfold plugin_ids. rewrite Hs. split_and!; [by rewrite ordered_perm, Hperm| |rewrite <- Hs; by intros; eapply plan_bindings].
  rewrite ordered_sources; [by rewrite Hall|done|]. intros x. by rewrite Hall.
Qed.

(** Dependency cycles are rejected, and only cycles are called cycles: a plan
    is refused with DEPENDENCY_CYCLE only if some plugin requires itself through
    the services of others, and no accepted plan contains such a plugin. *)
Theorem cycles_are_exactly_rejected sources :
  (forall members, plan sources = inl (PlanError (MkPluginError DEPENDENCY_CYCLE members)) -> exists x, tc (needs sources) x x) /\
  (forall p, plan sources = inr p -> forall x, ~ tc (needs sources) x x).
Proof.
  assert (Htc : forall l x, l ≡ₚ sources -> tc (needs l) x x <-> tc (needs sources) x x).
  { intros l x Hp. split; apply tc_mono; intros a b; apply needs_perm; [done|by symmetry]. }
  split.
  - intros ms Hp. destruct (plan_stages _ _ Hp) as [(e & [= <-] & Hne)|(l & providers & k & Hl & Hids & Hprov & Hk & Ho)].
    { by destruct (Hne ms). }
    destruct (order_runs l providers Hids Hprov k Hk) as (order & count & Hrun & Hinv). unfold order_plugins in Ho. rewrite Hrun in Ho.
    case_decide as Hlen; [|done]. unfold indexed in Hlen. rewrite length_fmap in Hlen.
    destruct (order_cyclic l providers Hids Hprov k Hk count order Hinv) as [Hcyc _]. destruct (Hcyc Hlen) as [x Hx]. exists x.
    by apply (Htc l x (sorted_sources_perm _ _ Hl)).
  - intros p Hp x Hx. destruct (plan_stages _ _ Hp) as [(e & [=] & _)|(l & providers & k & Hl & Hids & Hprov & Hk & Ho)].
    destruct (order_runs l providers Hids Hprov k Hk) as (order & count & Hrun & Hinv). unfold order_plugins in Ho. rewrite Hrun in Ho.
    case_decide as Hlen; [done|]. unfold indexed in Hlen. rewrite length_fmap in Hlen.
    destruct (order_cyclic l providers Hids Hprov k Hk count order Hinv) as [_ Hac]. apply (Hac ltac:(lia) x).
    by apply (Htc l x (sorted_sources_perm _ _ Hl)).
Qed.

(** ** The order does not depend on how the sources are listed

    [packaging] versions are totally ordered. *)
Section Deterministic.
Context (version_total : forall v w, version_leb v w = true \/ version_leb w v = true).
Context (version_trans : forall u v w, version_leb u v = true -> version_leb v w = true -> version_leb u w = true).

#[local] Instance keyed_le_total : Total keyed_le.
Proof.
  intros [[[i v] d] s] [[[j w] e] t]. unfold keyed_le, key_leb. simpl. destruct (decide (i = j)) as [->|Hne].
  - rewrite (decide_True (P := j = j)) by done. unfold version_eqb. destruct (version_leb v w) eqn:Hvw, (version_leb w v) eqn:Hwv; simpl; auto.
    + destruct (total String.le d e); [left|right]; by apply bool_decide_eq_true_2.
    + destruct (version_total v w); congruence.
  - rewrite (decide_False (P := j = i)) by congruence.
    destruct (total String.le i j); [left|right]; by apply bool_decide_eq_true_2.
Qed.

#[local] Instance keyed_le_trans : Transitive keyed_le.
Proof.
  intros [[[i u] d] s] [[[j v] e] t] [[[k w] f] r]. unfold keyed_le, key_leb, version_eqb. simpl.
  pose proof (version_trans u v w) as T1. pose proof (version_trans v w u) as T2. pose proof (version_trans w u v) as T3.
  destruct (decide (i = j)) as [->|Hij], (decide (j = k)) as [->|Hjk].
  - destruct (version_leb u v), (version_leb v u), (version_leb v w), (version_leb w v), (version_leb u w), (version_leb w u);
      simpl; intros Ha Hb; py_simpl; try done; try (by specialize (T1 eq_refl eq_refl)); try (by specialize (T2 eq_refl eq_refl));
      try (by specialize (T3 eq_refl eq_refl)).
    apply bool_decide_eq_true_2. by etransitivity.
  - intros _. done.
  - intros Ha _. by rewrite (decide_False (P := i = k)).
  - intros Ha Hb. py_simpl. destruct (decide (i = k)) as [->|Hik].
    + exfalso. apply Hij. by apply (anti_symm String.le).
    + apply bool_decide_eq_true_2. by etransitivity.
Qed.

Lemma keyed_sources_perm l l' r : l ≡ₚ l' -> keyed_sources l = Ok r -> exists r', keyed_sources l' = Ok r' /\ r ≡ₚ r'.
Proof.
  intros Hp. revert r. induction Hp as [|s l l' Hp IH|s t l|l1 l2 l3 H12 IH1 H23 IH2]; intros r Hr; simpl in *.
  - eauto.
  - apply res_bind_Ok in Hr as (k & -> & Hr). apply res_bind_Ok in Hr as (q & Hq & [= <-]). destruct (IH q Hq) as (q' & -> & Hperm).
    eexists. split; [done|]. by constructor.
  - apply res_bind_Ok in Hr as (k & -> & Hr). apply res_bind_Ok in Hr as (q & Hq & [= <-]).
    apply res_bind_Ok in Hq as (k' & -> & Hq). apply res_bind_Ok in Hq as (q' & -> & [= <-]). eexists. split; [done|]. constructor.
  - destruct (IH1 r Hr) as (r2 & H2 & P2). destruct (IH2 r2 H2) as (r3 & H3 & P3). exists r3. split; [done|]. by rewrite P2.
Qed.

Lemma sorted_sources_unique l l' c : l ≡ₚ l' -> NoDup (plugin_id <$> c) -> sorted_sources l = Ok c -> sorted_sources l' = Ok c.
Proof.
  unfold sorted_sources. intros Hp Hnd Hs. apply res_bind_Ok in Hs as (r & Hr & [= <-]).
  destruct (keyed_sources_perm l l' r Hp Hr) as (r' & -> & Hperm). simpl. do 2 f_equal.
  destruct (keyed_sources_Ok l r Hr) as [_ Hid]. rewrite merge_sort_Permutation in Hnd.
  symmetry. apply (StronglySorted_unique_strong keyed_le).
  - intros x y Hx Hy Hxy Hyx. rewrite merge_sort_Permutation in Hx, Hy. rewrite <- Hperm in Hy.
    rewrite Forall_forall in Hid. pose proof (Hid x Hx) as Ix. pose proof (Hid y Hy) as Iy.
    assert (Hsame : plugin_id x.2 = plugin_id y.2).
    { destruct x as [[[i v] d] s], y as [[[j w] e] t]. unfold keyed_le, key_leb in Hxy, Hyx. simpl in *.
      destruct (decide (i = j)) as [->|Hne]; [congruence|]. rewrite (decide_False (P := j = i)) in Hyx by congruence.
      py_simpl. exfalso. apply Hne. by apply (anti_symm String.le). }
    apply list_elem_of_lookup in Hx as [n Hn], Hy as [m Hm].
    rewrite <- list_fmap_compose in Hnd.
    assert (n = m) as ->; [|congruence].
    eapply NoDup_lookup; [exact Hnd| |]; rewrite list_lookup_fmap; [by rewrite Hn|rewrite Hm; simpl; by rewrite Hsame].
  - apply StronglySorted_merge_sort; apply _.
  - apply StronglySorted_merge_sort; apply _.
  - by rewrite !merge_sort_Permutation.
Qed.

Lemma check_sources_perm l l' : l ≡ₚ l' -> efold check_source tt l = inr tt -> efold check_source tt l' = inr tt.
Proof.
  assert (Hall : forall l, efold check_source tt l = inr tt <-> Forall (fun s => check_source tt s = inr tt) l).
  { intros k. induction k as [|s k IH]; simpl; [by split|]. rewrite Forall_cons, <- IH. rewrite ebind_inr. split.
    - intros ([] & ? & ?). done.
    - intros [? ?]. by exists tt. }
  rewrite !Hall. intros Hp. by rewrite Hp.
Qed.

(** The plan is a function of the set of sources: any other listing of the same
    sources yields the very same order and bindings. *)
Theorem plan_ignores_listing_order sources sources' p :
  sources ≡ₚ sources' -> plan sources = inr p -> plan sources' = inr p.
Proof.
  intros Hp Hplan. unfold plan in Hplan |- *. apply ebind_inr in Hplan as ([] & H1 & Hplan).
  rewrite (check_sources_perm _ _ Hp H1). simpl. apply ebind_inr in Hplan as (c & H2 & Hplan).
  pose proof Hplan as H3. apply ebind_inr in H3 as (by_id & H3 & _).
  destruct (sorted_sources sources) as [c0|] eqn:Hs; simplify_eq/=.
  rewrite (sorted_sources_unique sources sources' c Hp); [done| |done]. by apply index_source_Ok in H3 as [_ ?].
Qed.
End Deterministic.
End Planner.

(** ** Three plugins, and two that need each other *)
#[local] Instance demo_packaging : Packaging := {|
  version := string;
  parse_version := Some;
  version_str := fun v => v;
  version_leb := fun v w => bool_decide (String.le v w);
  spec_valid := fun _ => true;
  spec_contains := fun spec v => bool_decide (spec = "" \/ spec = v);
  word_char := fun l => match l with c :: r => if is_alnum c then Some r else None | [] => None end;
|}.

Definition demo_harness : @version demo_packaging := "2.0".

Definition demo_source (id : string) (provides : list ProvidedService) (requires : list RequiredService) : VerifiedPluginSource :=
  MkVerifiedPluginSource "/plugins"
    (MkPluginManifest "1" id "1.0" "2.0" ISOLATED_WORKER "main:run" (MkArtifactIntegrity "" None) provides requires
       (MkContributions (fun _ => [])) ∅ (JObj [])) "" (JObj []) false 7.

Definition demo_web : VerifiedPluginSource := demo_source "web" [] [MkRequiredService "db.core" "3.1" false; MkRequiredService "trace" "" true].
Definition demo_pg : VerifiedPluginSource := demo_source "pg" [MkProvidedService "db.core" "3.1"] [].
Definition demo_log : VerifiedPluginSource := demo_source "log" [] [].
Definition demo_left : VerifiedPluginSource := demo_source "left" [MkProvidedService "l" "1"] [MkRequiredService "r" "" false].
Definition demo_right : VerifiedPluginSource := demo_source "right" [MkProvidedService "r" "1"] [MkRequiredService "l" "" false].

Definition demo_plan : PluginPlan := MkPluginPlan [demo_log; demo_pg; demo_web]
  [("log", []); ("pg", []);
   ("web", [MkResolvedRequirement (MkRequiredService "db.core" "3.1" false) (Some "pg");
            MkResolvedRequirement (MkRequiredService "trace" "" true) None])] 7.

Lemma demo_planned : plan demo_harness 7 [demo_web; demo_pg; demo_log] = inr demo_plan.
Proof. vm_compute. reflexivity. Qed.

Lemma plan_orders_providers_first_witness :
  pp_sources demo_plan ≡ₚ [demo_web; demo_pg; demo_log] /\ NoDup (plugin_ids demo_plan).
Proof.
  destruct (plan_orders_providers_first demo_harness 7 [demo_web; demo_pg; demo_log] demo_plan demo_planned) as (Hp & Hn & _).
  exact (conj Hp Hn).
Defined.

Lemma cycles_are_exactly_rejected_witness :
  plan demo_harness 7 [demo_left; demo_right; demo_log] = inl (PlanError (MkPluginError DEPENDENCY_CYCLE ["left"; "right"])) /\
  exists x, tc (needs [demo_left; demo_right; demo_log]) x x.
Proof.
  assert (Hp : plan demo_harness 7 [demo_left; demo_right; demo_log] = inl (PlanError (MkPluginError DEPENDENCY_CYCLE ["left"; "right"]))) by (vm_compute; reflexivity).
  split; [exact Hp|]. exact (proj1 (cycles_are_exactly_rejected demo_harness 7 _) _ Hp).
Defined.

Lemma plan_ignores_listing_order_witness : plan demo_harness 7 [demo_log; demo_pg; demo_web] = inr demo_plan.
Proof.
  apply (plan_ignores_listing_order demo_harness 7) with [demo_web; demo_pg; demo_log].
  - intros v w. simpl. destruct (total String.le v w) as [Hl|Hl]; [left|right]; by apply bool_decide_eq_true_2.
  - intros u v w Hu Hv. simpl in *. apply bool_decide_eq_true_1 in Hu, Hv. apply bool_decide_eq_true_2. by transitivity v.
  - apply (Permutation_rev [demo_web; demo_pg; demo_log]).
  - exact demo_planned.
Defined.
