(* ===== verification/PluginRegistry.v ===== *)
(** * Publishing contributions ([plugins/registry.py], [plugins/manager.py])

    [InMemoryContributionRegistry] keeps a stack of records per contribution slot;
    a plugin fills its slots through a [PluginActivationContext].  Methods under the
    registry's lock are atomic.  [uuid4] tokens are drawn by the caller of the
    model; [step] draws only tokens that were never drawn before. *)
From S2P Require Import Prelude PyText Json PluginModels PluginGraph.
Open Scope string_scope.
Open Scope list_scope.

Module PluginRegistry.

(** [PluginActivationIdentity] *)
Record PluginActivationIdentity : Type := MkIdentity {
  pi_plugin_id : string;
  pi_version : string;
  pi_artifact_digest : string;
  pi_activation_id : string;
}.

Section Registry.
Context {V : Type}.

Record ContributionRegistration : Type := MkRegistration {
  cr_owner : PluginActivationIdentity;
  cr_kind : ContributionKind;
  cr_declaration : ContributionDeclaration;
  cr_value : V;
}.

Abbreviation Key := (ContributionKind * string)%type.

(** [ContributionRegistration.key] *)
Definition cr_key (r : ContributionRegistration) : Key := (cr_kind r, cd_contribution_id (cr_declaration r)).

(** [_Record] *)
Record Rec : Type := MkRec { rc_token : string; rc_registration : ContributionRegistration }.

Abbreviation Records := (gmap Key (list Rec)).

(** [_RegistryHandle] *)
Record Handle : Type := MkHandle { hd_key : Key; hd_token : string; hd_revoked : bool }.

Definition stack_of (m : Records) (k : Key) : list Rec := default [] (m !! k).

(** The check of [publish] on one registration *)
Definition slot_free (m : Records) (replaces : gset string) (r : ContributionRegistration) : bool :=
  match last (stack_of m (cr_key r)) with
  | Some top => bool_decide (pi_activation_id (cr_owner (rc_registration top)) ∈ replaces)
  | None => true
  end.

(** [setdefault(key, []).append(record)] *)
Definition push (m : Records) (tr : string * ContributionRegistration) : Records :=
  <[ cr_key tr.2 := stack_of m (cr_key tr.2) ++ [MkRec tr.1 tr.2] ]> m.

Definition publish (m : Records) (regs : list ContributionRegistration) (replaces : gset string) (tokens : list string) :
    PluginError + (Records * list Handle) :=
  if negb (bool_decide (NoDup (cr_key <$> regs))) then inl (MkPluginError CONTRIBUTION_CONFLICT [])
  else match List.find (fun r => negb (slot_free m replaces r)) regs with
       | Some r => inl (MkPluginError CONTRIBUTION_CONFLICT [contribution_kind_value (cr_kind r); cd_contribution_id (cr_declaration r)])
       | None =>
           let drawn := zip tokens regs in
           inr (foldl push m drawn, (fun tr => MkHandle (cr_key tr.2) tr.1 false) <$> drawn)
       end.

(** [_revoke] *)
Definition registry_revoke (m : Records) (k : Key) (token : string) : Records :=
  match m !! k with
  | None | Some [] => m
  | Some stack =>
      match filter (fun r => rc_token r <> token) stack with
      | [] => delete k m
      | remaining => <[ k := remaining ]> m
      end
  end.

(** [_RegistryHandle.revoke] *)
Definition handle_revoke (m : Records) (h : Handle) : Records * Handle :=
  if hd_revoked h then (m, h)
  else (registry_revoke m (hd_key h) (hd_token h), MkHandle (hd_key h) (hd_token h) true).

(** [VisibleContribution] *)
Record VisibleContribution : Type := MkVisible {
  vc_key : Key;
  vc_owner : PluginActivationIdentity;
  vc_value : V;
}.

Definition visible_of (k : Key) (r : Rec) : VisibleContribution :=
  MkVisible k (cr_owner (rc_registration r)) (cr_value (rc_registration r)).

(** [get] *)
Definition get (m : Records) (k : Key) : option VisibleContribution := visible_of k <$> last (stack_of m k).

(** [snapshot]: every slot in the order of kind value and identifier *)
Definition slot_le (a b : Key * list Rec) : Prop :=
  if decide (contribution_kind_value a.1.1 = contribution_kind_value b.1.1) then String.le a.1.2 b.1.2
  else String.le (contribution_kind_value a.1.1) (contribution_kind_value b.1.1).
#[global] Instance slot_le_dec : RelDecision slot_le.
Proof. intros a b. unfold slot_le. case_decide; apply _. Defined.

Definition snapshot (m : Records) : list VisibleContribution :=
  omap (fun ks => visible_of ks.1 <$> last ks.2) (merge_sort slot_le (map_to_list m)).

(** ** [PluginActivationContext] *)
Record ActivationContext : Type := MkActivationContext {
  ac_identity : PluginActivationIdentity;
  ac_manifest : PluginManifest;
  ac_values : gmap Key V;
}.

Definition contribute (c : ActivationContext) (kind : ContributionKind) (contribution_id : string) (value : V) :
    PluginError + ActivationContext :=
  let key := (kind, contribution_id) in
  let detail := [pm_plugin_id (ac_manifest c); contribution_kind_value kind; contribution_id] in
  match dget key (contribution_map (ac_manifest c)) with
  | None => inl (MkPluginError INVALID_CONTRIBUTION detail)
  | Some declaration =>
      if negb (permissions_contain (pm_permissions (ac_manifest c)) (cd_permissions declaration)) then
        inl (MkPluginError INVALID_CONTRIBUTION detail)
      else match ac_values c !! key with
           | Some _ => inl (MkPluginError INVALID_CONTRIBUTION detail)
           | None => inr (MkActivationContext (ac_identity c) (ac_manifest c) (<[ key := value ]> (ac_values c)))
           end
  end.

(** [_revoke], which a [_PendingContributionHandle] calls once *)
Definition context_revoke (c : ActivationContext) (key : Key) : ActivationContext :=
  MkActivationContext (ac_identity c) (ac_manifest c) (delete key (ac_values c)).

Definition registrations (c : ActivationContext) : PluginError + list ContributionRegistration :=
  let missing := filter (fun key => ac_values c !! key = None) (contribution_map (ac_manifest c)).*1 in
  match missing with
  | _ :: _ => inl (MkPluginError INVALID_CONTRIBUTION (pm_plugin_id (ac_manifest c) :: (snd <$> missing)))
  | [] =>
      inr (omap (fun kd => MkRegistration (ac_identity c) kd.1 kd.2 <$> ac_values c !! (kd.1, cd_contribution_id kd.2))
             (contribution_items (pm_contributions (ac_manifest c))))
  end.

(** ** Histories *)
Record state : Type := MkState {
  st_records : Records;
  st_handles : list Handle;
  st_drawn : gset string;
}.

Inductive step : state -> state -> Prop :=
| st_publish s regs replaces tokens m hs :
    length tokens = length regs -> NoDup tokens -> list_to_set tokens ## st_drawn s ->
    publish (st_records s) regs replaces tokens = inr (m, hs) ->
    step s (MkState m (st_handles s ++ hs) (st_drawn s ∪ list_to_set tokens))
| st_revoke s i h :
    st_handles s !! i = Some h ->
    step s (MkState (handle_revoke (st_records s) h).1 (<[ i := (handle_revoke (st_records s) h).2 ]> (st_handles s)) (st_drawn s)).

Inductive reachable : state -> Prop :=
| rc_empty : reachable (MkState ∅ [] ∅)
| rc_step s s' : reachable s -> step s s' -> reachable s'.

(** ** Stacks under the operations *)
Lemma stack_of_push m tr k : stack_of (push m tr) k = if decide (cr_key tr.2 = k) then stack_of m k ++ [MkRec tr.1 tr.2] else stack_of m k.
Proof. unfold push, stack_of at 1. destruct (decide (cr_key tr.2 = k)) as [->|Hne]; [by rewrite lookup_insert_eq|by rewrite lookup_insert_ne]. Qed.

Lemma stack_of_pushes m d k :
  stack_of (foldl push m d) k = stack_of m k ++ ((fun tr => MkRec tr.1 tr.2) <$> filter (fun tr => cr_key tr.2 = k) d).
Proof.
  revert m. induction d as [|tr d IH]; intros m; cbn [foldl]; [by rewrite app_nil_r|].
  rewrite IH, stack_of_push, filter_cons. case_decide; [|done]. by rewrite <- app_assoc.
Qed.

Lemma stack_of_revoke m k t k' :
  stack_of (registry_revoke m k t) k' = if decide (k' = k) then filter (fun r => rc_token r <> t) (stack_of m k) else stack_of m k'.
Proof.
  unfold registry_revoke. destruct (m !! k) as [[|r0 stack]|] eqn:Hm.
  - unfold stack_of. destruct (decide (k' = k)) as [->|]; by rewrite ?Hm.
  - unfold stack_of at 2. rewrite Hm. cbn [default from_option id].
    destruct (filter (fun r => rc_token r <> t) (r0 :: stack)) as [|r1 rest] eqn:Hf; unfold stack_of.
    + destruct (decide (k' = k)) as [->|]; [by rewrite lookup_delete_eq|by rewrite lookup_delete_ne].
    + destruct (decide (k' = k)) as [->|]; [by rewrite lookup_insert_eq|by rewrite lookup_insert_ne].
  - unfold stack_of. destruct (decide (k' = k)) as [->|]; by rewrite ?Hm.
Qed.

Lemma last_filter {A : Type} (P : A -> Prop) `{!forall x, Decision (P x)} l x :
  last l = Some x -> P x -> last (filter P l) = Some x.
Proof.
  intros Hl HP. apply last_Some in Hl as [l' ->]. rewrite filter_app, filter_cons, decide_True by done. apply last_snoc.
Qed.

(** Slots of one batch are distinct, so each registration tops its own slot. *)
Lemma pushed_top m d t r :
  NoDup ((fun tr => cr_key tr.2) <$> d) -> (t, r) ∈ d -> last (stack_of (foldl push m d) (cr_key r)) = Some (MkRec t r).
Proof.
  intros Hnd Hin. rewrite stack_of_pushes. apply list_elem_of_split in Hin as (d1 & d2 & ->).
  rewrite fmap_app in Hnd. apply NoDup_app in Hnd as (_ & H1 & Hnd). cbn in Hnd. apply NoDup_cons in Hnd as [H2 _].
  rewrite filter_app, filter_cons, decide_True by done.
  assert (Hnil : filter (fun tr : string * ContributionRegistration => cr_key tr.2 = cr_key r) d2 = []).
  { destruct (filter _ d2) as [|x xs] eqn:Hf; [done|]. exfalso. apply H2. assert (Hx : x ∈ x :: xs) by (by left). rewrite <- Hf in Hx.
    apply list_elem_of_filter in Hx as [Hk Hx]. rewrite <- Hk. apply list_elem_of_fmap. by exists x. }
  rewrite Hnil, fmap_app. simpl. rewrite app_assoc. apply last_snoc.
Qed.

Lemma publish_contributions_Ok m regs replaces tokens m' hs :
  publish m regs replaces tokens = inr (m', hs) ->
  NoDup (cr_key <$> regs) /\ Forall (fun r => slot_free m replaces r = true) regs /\
  m' = foldl push m (zip tokens regs) /\ hs = ((fun tr => MkHandle (cr_key tr.2) tr.1 false) <$> zip tokens regs).
Proof.
  unfold publish. destruct (bool_decide (NoDup (cr_key <$> regs))) eqn:Hnd; simpl; [|done]. apply bool_decide_eq_true_1 in Hnd.
  destruct (List.find _ regs) as [r|] eqn:Hf; [done|]. intros Heq. simplify_eq. split_and!; [done| |done|done].
  apply Forall_forall. intros r Hr. apply list_elem_of_In in Hr. pose proof (List.find_none _ _ Hf r Hr) as Hn. by apply negb_false_iff in Hn.
Qed.

Lemma handles_drawn s : reachable s -> Forall (fun h => hd_token h ∈ st_drawn s) (st_handles s).
Proof.
  induction 1 as [|s s' _ IH Hs]; [constructor|]. destruct Hs as [s regs replaces tokens m hs Hlen Hnd Hfresh Hp|s i h Hi]; simpl.
  - apply publish_contributions_Ok in Hp as (_ & _ & _ & ->). apply Forall_app. split.
    + eapply Forall_impl; [exact IH|]. set_solver.
    + apply Forall_forall. intros h ([t r] & -> & Hin)%list_elem_of_fmap. apply elem_of_zip_l in Hin. set_solver.
  - apply Forall_insert; [done|]. pose proof (Forall_lookup_1 _ _ _ _ IH Hi) as Hh. unfold handle_revoke. by destruct (hd_revoked h).
Qed.

Lemma zip_keys tokens regs : length tokens = length regs -> (fun tr : string * ContributionRegistration => cr_key tr.2) <$> zip tokens regs = cr_key <$> regs.
Proof.
  intros Hl. change (fun tr : string * ContributionRegistration => cr_key tr.2) with (cr_key ∘ snd (A := string)).
  rewrite list_fmap_compose, snd_zip; [done|lia].
Qed.

Lemma dget_declared (items : list (ContributionKind * ContributionDeclaration)) (d : dict Key ContributionDeclaration) kd :
  kd ∈ items -> is_Some (dget (kd.1, cd_contribution_id kd.2) (foldl (fun d kc => dset (kc.1, cd_contribution_id kc.2) kc.2 d) d items)).
Proof.
  assert (Hkeep : forall (its : list (ContributionKind * ContributionDeclaration)) (d : dict Key ContributionDeclaration) (k : Key),
    is_Some (dget k d) -> is_Some (dget k (foldl (fun d kc => dset (kc.1, cd_contribution_id kc.2) kc.2 d) d its))).
  { intros its. induction its as [|kc its IH]; intros d' k Hd; [done|]. cbn [foldl]. apply IH. rewrite dget_dset. by case_decide. }
  revert d. induction items as [|kc items IH]; intros d; [by intros ?%not_elem_of_nil|]. cbn [foldl].
  intros [->|Hin]%elem_of_cons; [|by apply IH]. apply Hkeep. rewrite dget_dset. by rewrite decide_True.
Qed.

(** A plugin that filled its slots publishes what its manifest declares, in the
    manifest's order, with the values it supplied. *)
Lemma registrations_follow_the_manifest c regs : registrations c = inr regs ->
  (fun r => (cr_kind r, cr_declaration r)) <$> regs = contribution_items (pm_contributions (ac_manifest c)) /\
  Forall (fun r => cr_owner r = ac_identity c /\ ac_values c !! cr_key r = Some (cr_value r)) regs.
Proof.
  unfold registrations. destruct (filter _ _) as [|x xs] eqn:Hm; [|done]. intros [= <-].
  assert (Hall : forall kd, kd ∈ contribution_items (pm_contributions (ac_manifest c)) -> is_Some (ac_values c !! (kd.1, cd_contribution_id kd.2))).
  { intros kd Hkd. destruct (ac_values c !! (kd.1, cd_contribution_id kd.2)) as [v|] eqn:Hv; [eauto|]. exfalso.
    pose proof (dget_declared _ [] kd Hkd) as [d Hd%dget_elem].
    assert (Hx : (kd.1, cd_contribution_id kd.2) ∈ filter (fun key => ac_values c !! key = None) (contribution_map (ac_manifest c)).*1).
    { apply list_elem_of_filter. split; [done|]. apply list_elem_of_fmap. by exists ((kd.1, cd_contribution_id kd.2), d). }
    rewrite Hm in Hx. by apply not_elem_of_nil in Hx. }
  induction (contribution_items (pm_contributions (ac_manifest c))) as [|kd items IH]; [by split|]. csimpl.
  destruct (Hall kd (list_elem_of_here _ _)) as [v Hv]. rewrite Hv. csimpl. destruct IH as [IH1 IH2].
  { intros kd' Hin. apply Hall. by right. }
  rewrite IH1. split; [by destruct kd|]. by constructor.
Qed.

(** ** Properties *)

(** A batch is published as a whole: when [publish] succeeds, every slot of the
    batch was free or showed a contribution of an activation being replaced, every
    registration of the batch is now the visible one of its slot, and nothing else
    changed; otherwise it fails with CONTRIBUTION_CONFLICT and publishes nothing. *)
Theorem publication_is_atomic m regs replaces tokens :
  length tokens = length regs ->
  match publish m regs replaces tokens with
  | inl e => pe_code e = CONTRIBUTION_CONFLICT /\
      (~ NoDup (cr_key <$> regs) \/ exists r shown, r ∈ regs /\ get m (cr_key r) = Some shown /\ pi_activation_id (vc_owner shown) ∉ replaces)
  | inr (m', hs) =>
      (forall r shown, r ∈ regs -> get m (cr_key r) = Some shown -> pi_activation_id (vc_owner shown) ∈ replaces) /\
      (forall r, r ∈ regs -> get m' (cr_key r) = Some (MkVisible (cr_key r) (cr_owner r) (cr_value r))) /\
      (forall k, k ∉ cr_key <$> regs -> get m' k = get m k) /\ length hs = length regs
  end.
Proof.
  intros Hlen. destruct (publish m regs replaces tokens) as [e|[m' hs]] eqn:Hp.
  - unfold publish in Hp. destruct (bool_decide (NoDup (cr_key <$> regs))) eqn:Hnd; simpl in Hp.
    + destruct (List.find _ regs) as [r|] eqn:Hf; simplify_eq. split; [done|]. right. apply List.find_some in Hf as [Hin Hfree].
      apply list_elem_of_In in Hin. apply negb_true_iff in Hfree. unfold slot_free in Hfree. unfold get.
      destruct (last (stack_of m (cr_key r))) as [top|] eqn:Ht; [|done]. apply bool_decide_eq_false_1 in Hfree.
      exists r, (visible_of (cr_key r) top). by rewrite Ht.
    + simplify_eq. split; [done|]. left. by apply bool_decide_eq_false_1 in Hnd.
  - apply publish_contributions_Ok in Hp as (Hnd & Hfree & -> & ->). split_and!.
    + intros r shown Hr Hg. rewrite Forall_forall in Hfree. specialize (Hfree r Hr). unfold slot_free, get in *.
      destruct (last (stack_of m (cr_key r))) as [top|]; simplify_eq/=. by apply bool_decide_eq_true_1 in Hfree.
    + intros r Hr. apply list_elem_of_lookup in Hr as [i Hi]. destruct (lookup_lt_is_Some_2 tokens i) as [t Ht].
      { rewrite Hlen. by eapply lookup_lt_Some. }
      unfold get. rewrite (pushed_top m (zip tokens regs) t r); [done|by rewrite zip_keys|].
      apply (list_elem_of_lookup_2 _ i). apply lookup_zip_with_Some. by exists t, r.
    + intros k Hk. unfold get. rewrite stack_of_pushes.
      assert (Hnil : filter (fun tr : string * ContributionRegistration => cr_key tr.2 = k) (zip tokens regs) = []).
      { destruct (filter _ (zip tokens regs)) as [|x xs] eqn:Hf; [done|]. exfalso. apply Hk. assert (Hx : x ∈ x :: xs) by (by left).
        rewrite <- Hf in Hx. apply list_elem_of_filter in Hx as [<- Hx]. destruct x as [t r]. apply elem_of_zip_r in Hx. by apply list_elem_of_fmap_2. }
      by rewrite Hnil, app_nil_r.
    + rewrite length_fmap, length_zip. lia.
Qed.

(** A stale handle never unregisters its replacement: after a batch has been
    published, revoking any handles issued before it, in any order and number,
    leaves every contribution of the batch visible. *)
Theorem stale_handles_keep_replacements s regs replaces tokens m hs old r :
  reachable s -> length tokens = length regs -> list_to_set tokens ## st_drawn s ->
  publish (st_records s) regs replaces tokens = inr (m, hs) ->
  old ⊆ st_handles s -> r ∈ regs ->
  get (foldl (fun m h => (handle_revoke m h).1) m old) (cr_key r) = Some (MkVisible (cr_key r) (cr_owner r) (cr_value r)).
Proof.
  intros Hs Hlen Hfresh Hp Hold Hr. apply handles_drawn in Hs. apply publish_contributions_Ok in Hp as (Hnd & _ & -> & _).
  apply list_elem_of_lookup in Hr as [i Hi]. destruct (lookup_lt_is_Some_2 tokens i) as [t Ht].
  { rewrite Hlen. by eapply lookup_lt_Some. }
  assert (Htop : last (stack_of (foldl push (st_records s) (zip tokens regs)) (cr_key r)) = Some (MkRec t r)).
  { apply pushed_top; [by rewrite zip_keys|]. apply (list_elem_of_lookup_2 _ i). apply lookup_zip_with_Some. by exists t, r. }
  assert (Hnew : t ∉ st_drawn s) by (apply list_elem_of_lookup_2 in Ht; set_solver).
  generalize dependent (foldl push (st_records s) (zip tokens regs)). induction old as [|h old IH]; intros m Htop.
  { cbn [foldl]. unfold get. by rewrite Htop. }
  cbn [foldl]. apply IH; [set_solver|]. unfold handle_revoke. destruct (hd_revoked h); [done|]. simpl. rewrite stack_of_revoke.
  case_decide as Hk; [|done]. rewrite <- Hk. apply last_filter; [done|]. simpl. intros ->. apply Hnew.
  rewrite Forall_forall in Hs. apply Hs, Hold. by left.
Qed.
End Registry.
Arguments ContributionRegistration : clear implicits.
Arguments state : clear implicits.

(** ** A reload: the second activation replaces the first, whose handle goes stale. *)
Definition demo_registration (activation : string) (v : nat) : ContributionRegistration nat :=
  MkRegistration (MkIdentity "search" "1.0" "" activation) TOOL_KIND (MkContributionDeclaration "find" "1.0" ∅) v.

(** The result of a publication that went through *)
Definition published (r : PluginError + (gmap (ContributionKind * string) (list (Rec (V := nat))) * list Handle)) :=
  match r with inr mh => mh | inl _ => (∅, []) end.
Definition accepted {A B : Type} (r : A + B) : bool := match r with inr _ => true | inl _ => false end.

Lemma published_Ok r : accepted r = true -> r = inr ((published r).1, (published r).2).
Proof. by destruct r as [e|[m hs]]. Qed.

Definition demo_publication := publish ∅ [demo_registration "a1" 1] ∅ ["t1"].
Definition demo_first : state nat :=
  MkState (published demo_publication).1 ([] ++ (published demo_publication).2) (∅ ∪ list_to_set ["t1"]).

Lemma demo_first_reachable : reachable demo_first.
Proof.
  apply (rc_step (MkState ∅ [] ∅)); [constructor|].
  apply (st_publish (MkState ∅ [] ∅) [demo_registration "a1" 1] ∅ ["t1"]); [done|apply NoDup_singleton|set_solver|].
  apply (published_Ok demo_publication). vm_compute. reflexivity.
Qed.

Lemma publication_is_atomic_witness :
  match publish (st_records demo_first) [demo_registration "a9" 2] {[ "a2" ]} ["t2"] with
  | inl e => pe_code e = CONTRIBUTION_CONFLICT
  | inr _ => False
  end.
Proof.
  pose proof (publication_is_atomic (st_records demo_first) [demo_registration "a9" 2] {[ "a2" ]} ["t2"] eq_refl) as Hp.
  destruct (publish (st_records demo_first) [demo_registration "a9" 2] {[ "a2" ]} ["t2"]) as [e|[m hs]] eqn:Hpub; [exact (proj1 Hp)|].
  vm_compute in Hpub. discriminate.
Defined.

Definition demo_republication := publish (st_records demo_first) [demo_registration "a2" 2] {[ "a1" ]} ["t2"].

Lemma stale_handles_keep_replacements_witness :
  accepted demo_republication = true /\
  get (foldl (fun m h => (handle_revoke m h).1) (published demo_republication).1 (st_handles demo_first)) (TOOL_KIND, "find") =
    Some (MkVisible (TOOL_KIND, "find") (MkIdentity "search" "1.0" "" "a2") 2%nat).
Proof.
  assert (Ha : accepted demo_republication = true) by (vm_compute; reflexivity). split; [exact Ha|].
  apply (stale_handles_keep_replacements demo_first [demo_registration "a2" 2] {[ "a1" ]} ["t2"] (published demo_republication).1
           (published demo_republication).2 (st_handles demo_first) (demo_registration "a2" 2)).
  - exact demo_first_reachable.
  - reflexivity.
  - set_solver.
  - exact (published_Ok demo_republication Ha).
  - set_solver.
  - set_solver.
Defined.
End PluginRegistry.
