(* ===== verification/PluginManager.v ===== *)
(** * The plugin manager ([plugins/manager.py])

    [PluginManager] with the contexts it hands to plugins, as tasks over the fibers,
    contexts and the active set.  Plugin code is arbitrary: every await may bring
    calls on contexts that were handed out earlier ([plugin_act]), before the answer
    itself.  [uuid4] identifiers are answers.  The runtime and the prepared plugin of
    a source are named by the fiber of the source; [_lock] serializes the calls of
    [activate], [reload] and [deactivate]. *)
From S2P Require Import Prelude PyText Json Prog Tasks PluginModels Effects PluginGraph PluginRegistry.
Open Scope string_scope.
Open Scope list_scope.

Module PluginManager.
Import Tasks PluginRegistry.

(** ** Errors *)
Definition lifecycle {A : Type} (code : PluginErrorCode) : exc + A := inl (PluginLifecycleError code).

(** [isinstance(exc, PluginLifecycleError)]: cleanup errors are lifecycle errors. *)
Definition is_lifecycle (x : exc) : bool :=
  match x with PluginLifecycleError _ | PluginCleanupError _ _ => true | _ => false end.

Definition of_plugin {A : Type} (r : PluginError + A) : exc + A :=
  match r with inl e => lifecycle (pe_code e) | inr a => inr a end.

(** ** What fibers own *)
Inductive callable : Type :=
| RuntimeClose
| PreparedClose
| HandleRevoke (handle : nat)
| PluginCallback (n : nat).

Record OwnedCall : Type := MkOwnedCall { oc_fiber : nat; oc_call : callable }.

(** [PluginLaunchDescriptor] *)
Record PluginLaunchDescriptor : Type := MkLaunchDescriptor {
  ld_source_path : string;
  ld_entrypoint : string;
  ld_artifact_digest : string;
  ld_manifest : PluginManifest;
  ld_config : json;
}.

(** The launchers a manager was given, by trust mode *)
Definition add_launcher (table : list TrustMode) (mode : TrustMode) : exn + list TrustMode :=
  if decide (mode = TRUSTED_IN_PROCESS) then inl ValueError
  else if decide (mode ∈ table) then inl ValueError
  else inr (table ++ [mode]).

Definition launcher_table (modes : list TrustMode) : exn + list TrustMode := efold add_launcher [] modes.

Section Manager.
Context {V : Type}.

(** [ProviderBinding] *)
Record ProviderBinding : Type := MkProviderBinding {
  pb_service : string;
  pb_version : string;
  pb_provider_plugin_id : string;
  pb_value : V;
}.

Abbreviation Bindings := (dict string (option ProviderBinding)).
Abbreviation Registration := (ContributionRegistration V).

(** ** Contexts *)

(** [PluginPrepareContext] *)
Record PluginPrepareContext : Type := MkPrepareContext {
  pc_manifest : PluginManifest;
  pc_config : json;
  pc_bindings : Bindings;
  pc_fiber : nat;
}.

Definition declared (c : PluginPrepareContext) (service : string) : bool :=
  bool_decide (service ∈ rq_service <$> pm_requires (pc_manifest c)).

(** [provider], [inject] *)
Definition provider (c : PluginPrepareContext) (service : string) : exc + option ProviderBinding :=
  if declared c service then inr (default None (dget service (pc_bindings c))) else lifecycle INVALID_EXPORTS.

Definition inject (c : PluginPrepareContext) (service : string) : exc + option V :=
  match provider c service with inl x => inl x | inr binding => inr (pb_value <$> binding) end.

Inductive context : Type :=
| PrepareContext (c : PluginPrepareContext)
| ActivateContext (fiber : nat) (c : ActivationContext (V := V)).

Definition context_fiber (c : context) : nat := match c with PrepareContext c => pc_fiber c | ActivateContext f _ => f end.

(** The prefix each context puts before the labels of its plugin *)
Definition owned_label (c : context) (label : string) : string :=
  match c with PrepareContext _ => "prepare:" ++ label | ActivateContext _ _ => "activate:" ++ label end.

(** [_PendingContributionHandle] *)
Record PendingHandle : Type := MkPendingHandle { ph_context : nat; ph_key : ContributionKind * string; ph_revoked : bool }.

(** ** The manager's state *)

(** [_PreparedState] *)
Record PreparedState : Type := MkPreparedState {
  ps_source : VerifiedPluginSource;
  ps_identity : PluginActivationIdentity;
  ps_fiber : nat;
  ps_context : nat;
}.

(** [_ActiveSet] *)
Record ActiveSet : Type := MkActiveSet {
  as_plan : PluginPlan;
  as_fiber : nat;
  as_plugins : list PreparedState;
}.

Definition activation_ids (s : ActiveSet) : gset string := list_to_set ((fun p => pi_activation_id (ps_identity p)) <$> as_plugins s).

Record State : Type := MkState {
  mg_fibers : list Fiber.PluginFiber;
  mg_calls : list OwnedCall;
  mg_contexts : list context;
  mg_pending : list PendingHandle;
  mg_active : option ActiveSet;
}.

Definition start : State := MkState [] [] [] [] None.

Definition active_plugin_ids (l : State) : list string :=
  match mg_active l with None => [] | Some s => plugin_ids (as_plan s) end.

Definition set_fiber (f : nat) (fb : Fiber.PluginFiber) (l : State) : State :=
  MkState (<[ f := fb ]> (mg_fibers l)) (mg_calls l) (mg_contexts l) (mg_pending l) (mg_active l).
Definition add_context (c : context) (l : State) : State :=
  MkState (mg_fibers l) (mg_calls l) (mg_contexts l ++ [c]) (mg_pending l) (mg_active l).
Definition set_active (s : option ActiveSet) (l : State) : State :=
  MkState (mg_fibers l) (mg_calls l) (mg_contexts l) (mg_pending l) s.

(** [fiber.own(label, disposer)]; the manager never loses a fiber. *)
Definition own (f : nat) (label : string) (d : disposer) (l : State) : exc + State :=
  match mg_fibers l !! f with
  | None => inl (Exc OutOfFuel)
  | Some fb =>
      match Fiber.own fb label d with
      | inl x => inl x
      | inr (fb, _) => inr (set_fiber f fb l)
      end
  end.

(** ... of a callable *)
Definition own_call (f : nat) (label : string) (k : callable) (l : State) : exc + State :=
  match own f label (CallOf (length (mg_calls l))) l with
  | inl x => inl x
  | inr l => inr (MkState (mg_fibers l) (mg_calls l ++ [MkOwnedCall f k]) (mg_contexts l) (mg_pending l) (mg_active l))
  end.

(** ** What plugin code can do with its contexts *)
Inductive plugin_act : Type :=
| ActOwn (context : nat) (label : string) (callback : nat)
| ActContribute (context : nat) (kind : ContributionKind) (contribution_id : string) (value : V)
| ActRevoke (pending : nat).

(** The plugin sees the exception of a refused call; nothing else happens. *)
Definition perform (l : State) (a : plugin_act) : State :=
  match a with
  | ActOwn i label n =>
      match mg_contexts l !! i with
      | None => l
      | Some c => match own_call (context_fiber c) (owned_label c label) (PluginCallback n) l with inl _ => l | inr l => l end
      end
  | ActContribute i kind contribution_id value =>
      match mg_contexts l !! i with
      | Some (ActivateContext f c) =>
          match contribute c kind contribution_id value with
          | inl _ => l
          | inr c => MkState (mg_fibers l) (mg_calls l) (<[ i := ActivateContext f c ]> (mg_contexts l))
                       (mg_pending l ++ [MkPendingHandle i (kind, contribution_id) false]) (mg_active l)
          end
      | _ => l
      end
  | ActRevoke j =>
      match mg_pending l !! j with
      | Some (MkPendingHandle i key false) =>
          MkState (mg_fibers l) (mg_calls l)
            (alter (fun c => match c with ActivateContext f c => ActivateContext f (context_revoke c key) | c => c end) i (mg_contexts l))
            (<[ j := MkPendingHandle i key true ]> (mg_pending l)) (mg_active l)
      | _ => l
      end
  end.

Definition performs (l : State) (acts : list plugin_act) : State := foldl perform l acts.

(** ** Questions *)
Inductive question : Type :=
| QAssertCurrent (source : VerifiedPluginSource)
| QUuid
| QLoad (fiber : nat) (source : VerifiedPluginSource)
| QLaunch (fiber : nat) (mode : TrustMode) (descriptor : PluginLaunchDescriptor) (identity : PluginActivationIdentity)
| QPrepare (fiber context : nat) (bindings : Bindings)
| QExports (fiber : nat)
| QActivate (fiber context : nat)
| QPublish (registrations : list Registration) (replaces : gset string)
| QRevoke (handle : nat)
| QDispose (call : nat) (what : OwnedCall)
| QClosed (fiber : nat).

(** Loaders and [prepare] say whether they returned what they must; [exports] is
    [None] when it is no mapping. *)
Definition ans (q : question) : Type :=
  match q with
  | QAssertCurrent _ => option exc
  | QUuid => string
  | QLoad _ _ | QLaunch _ _ _ _ | QPrepare _ _ _ => list plugin_act * (exc + bool)
  | QExports _ => list plugin_act * (exc + option (dict string V))
  | QActivate _ _ | QRevoke _ | QDispose _ _ => list plugin_act * option exc
  | QPublish _ _ => list plugin_act * (exc + list nat)
  | QClosed _ => list plugin_act
  end%type.

Definition M (A : Type) : Type := task ans State exc A.

Definition lift_state (f : State -> exc + State) : M unit := fun l =>
  match f l with inl x => Ret (l, inl x) | inr l => Ret (l, inr tt) end.

Definition assert_current s : M unit := fun l => Call (QAssertCurrent s) (fun a => Ret (l, raised a)).
Definition uuid4 : M string := fun l => Call QUuid (fun a => Ret (l, inr a)).
Definition load f s : M bool := fun l => Call (QLoad f s) (fun a => Ret (performs l a.1, a.2)).
Definition launch f m d i : M bool := fun l => Call (QLaunch f m d i) (fun a => Ret (performs l a.1, a.2)).
Definition prepare f c bs : M bool := fun l => Call (QPrepare f c bs) (fun a => Ret (performs l a.1, a.2)).
Definition exports f : M (option (dict string V)) := fun l => Call (QExports f) (fun a => Ret (performs l a.1, a.2)).
Definition activate_prepared f c : M unit := fun l => Call (QActivate f c) (fun a => Ret (performs l a.1, raised a.2)).
Definition publish rs r : M (list nat) := fun l => Call (QPublish rs r) (fun a => Ret (performs l a.1, a.2)).
Definition revoke h : M unit := fun l => Call (QRevoke h) (fun a => Ret (performs l a.1, raised a.2)).
Definition call_disposer c k : M unit := fun l => Call (QDispose c k) (fun a => Ret (performs l a.1, raised a.2)).
Definition wait_closed f : M unit := fun l => Call (QClosed f) (fun a => Ret (performs l a, inr tt)).

(** ** Fibers *)
Definition new_fiber (fiber_id : string) : M nat := fun l =>
  match Fiber.plugin_fiber fiber_id with
  | inl x => Ret (l, inl x)
  | inr fb => Ret (MkState (mg_fibers l ++ [fb]) (mg_calls l) (mg_contexts l) (mg_pending l) (mg_active l), inr (length (mg_fibers l)))
  end.

Definition dispose (close : nat -> M unit) (d : disposer) : M unit := fun l =>
  match d with
  | CallOf c => match mg_calls l !! c with Some k => call_disposer c k l | None => Ret (l, inl (Exc OutOfFuel)) end
  | CloseOf f => close f l
  | ExitOf _ => Ret (l, inl (Exc OutOfFuel))
  end.

(** The [finally] block *)
Definition close_finish (f : nat) (failures : list failure) (l : State) : State :=
  match mg_fibers l !! f with
  | Some fb => set_fiber f (Fiber.close_finish fb failures) l
  | None => l
  end.

Definition dispose_one (close : nat -> M unit) (f : nat) (failures : list failure) (e : OwnedEffect) : M (list failure) :=
  mcatch (do _ <- dispose close (oe_dispose e) in ret failures) (fun x =>
    if fatal x then do _ <- update (close_finish f failures) in raise x
    else ret (failures ++ [MkFailure (oe_label e) x])).

Definition cleanup_error (f : nat) (l : State) : option exc := mg_fibers l !! f ≫= Fiber.pf_cleanup_error.

(** [PluginFiber.close]; plugin fibers sit in activation fibers, so two levels are
    enough. *)
Fixpoint close_fiber (depth : nat) (f : nat) : M unit :=
  match depth with
  | O => raise (Exc OutOfFuel)
  | S depth => fun l =>
      match mg_fibers l !! f with
      | None => Ret (l, inl (Exc OutOfFuel))
      | Some fb =>
          let '(fb, start) := Fiber.close_begin fb in
          (match start with
           | Return r => of_sum (raised r)
           | Wait => do _ <- wait_closed f in do r <- gets (cleanup_error f) in of_sum (raised r)
           | Unwind effects =>
               do failures <- foreach (dispose_one (close_fiber depth) f) [] effects in
               do _ <- update (close_finish f failures) in
               do r <- gets (cleanup_error f) in of_sum (raised r)
           end) (set_fiber f fb l)
      end
  end.

Definition close (f : nat) : M unit := close_fiber 2 f.

(** ** Building a set *)
Section Build.
Context (attestation : nat) (launchers : list TrustMode).

(** [_load_runtime] *)
Definition load_runtime (f : nat) (s : VerifiedPluginSource) (identity : PluginActivationIdentity) : M bool :=
  let mode := pm_trust_mode (vs_manifest s) in
  if decide (mode = TRUSTED_IN_PROCESS) then load f s
  else if decide (mode ∈ launchers) then
    launch f mode (MkLaunchDescriptor (vs_root s) (pm_entrypoint (vs_manifest s)) (vs_digest s) (vs_manifest s) (vs_config s)) identity
  else of_sum (lifecycle UNSUPPORTED_TRUST_MODE).

(** [_validate_exports] *)
Definition validate_exports (s : VerifiedPluginSource) (e : option (dict string V)) : exc + unit :=
  match e with
  | None => lifecycle INVALID_EXPORTS
  | Some d =>
      if decide ((list_to_set (pv_service <$> pm_provides (vs_manifest s)) : gset string) = list_to_set d.*1) then inr tt
      else lifecycle INVALID_EXPORTS
  end.

Abbreviation Exported := (dict string (VerifiedPluginSource * V)).

Definition bind_service (exported : Exported) (bindings : Bindings) (resolved : ResolvedRequirement) : exc + Bindings :=
  let service := rq_service (rr_requirement resolved) in
  match rr_provider_plugin_id resolved with
  | None => inr (dset service None bindings)
  | Some _ =>
      match dget service exported with
      | None => inl (Exc KeyError)
      | Some (provider_source, value) =>
          match List.find (fun item => bool_decide (pv_service item = service)) (pm_provides (vs_manifest provider_source)) with
          | None => inl (Exc StopIteration)
          | Some provided =>
              inr (dset service (Some (MkProviderBinding service (pv_version provided) (plugin_id provider_source) value)) bindings)
          end
      end
  end.

Definition bindings_of (plan : PluginPlan) (exported : Exported) (s : VerifiedPluginSource) : exc + Bindings :=
  match dget (plugin_id s) (pp_bindings plan) with
  | None => inl (Exc KeyError)
  | Some resolved => efold (bind_service exported) [] resolved
  end.

Definition activation_identity (s : VerifiedPluginSource) (activation_id : string) : PluginActivationIdentity :=
  MkIdentity (plugin_id s) (pm_version (vs_manifest s)) (vs_digest s) activation_id.

Definition check_made (ok : bool) : exc + unit := if ok then inr tt else lifecycle ACTIVATION_FAILED.

Definition fiber_label (s : VerifiedPluginSource) : string := "plugin:" ++ plugin_id s.

(** One round of the first loop *)
Definition prepare_source (plan : PluginPlan) (activation_fiber : nat) (acc : Exported * list PreparedState) (s : VerifiedPluginSource) :
    M (Exported * list PreparedState) :=
  let '(exported, prepared_states) := acc in
  do _ <- assert_current s in
  do id <- uuid4 in
  do f <- new_fiber (fiber_label s ++ ":" ++ id) in
  do _ <- lift_state (own activation_fiber (fiber_label s) (CloseOf f)) in
  do ok <- load_runtime f s (activation_identity s id) in
  do _ <- of_sum (check_made ok) in
  do _ <- lift_state (own_call f "runtime" RuntimeClose) in
  do bindings <- of_sum (bindings_of plan exported s) in
  do c <- gets (fun l => length (mg_contexts l)) in
  do _ <- update (add_context (PrepareContext (MkPrepareContext (vs_manifest s) (vs_config s) bindings f))) in
  do ok <- prepare f c bindings in
  do _ <- of_sum (check_made ok) in
  do _ <- lift_state (own_call f "prepared" PreparedClose) in
  do first <- exports f in
  do _ <- of_sum (validate_exports s first) in
  do second <- exports f in
  do exported <- of_sum (match second with
                         | None => inl (Exc OtherException)
                         | Some d => inr (foldl (fun e kv => dset kv.1 (s, kv.2) e) exported d)
                         end) in
  do c <- gets (fun l => length (mg_contexts l)) in
  do _ <- update (add_context (ActivateContext f (MkActivationContext (activation_identity s id) (vs_manifest s) ∅))) in
  ret (exported, prepared_states ++ [MkPreparedState s (activation_identity s id) f c]).

(** [state.activation_context.registrations()] *)
Definition registrations_of (p : PreparedState) (l : State) : exc + list Registration :=
  match mg_contexts l !! ps_context p with
  | Some (ActivateContext _ c) => of_plugin (registrations c)
  | _ => inl (Exc OutOfFuel)
  end.

(** One round of the second loop *)
Definition activate_state (pending : list (PreparedState * Registration)) (p : PreparedState) : M (list (PreparedState * Registration)) :=
  do _ <- activate_prepared (ps_fiber p) (ps_context p) in
  do r <- gets (registrations_of p) in
  do registrations <- of_sum r in
  ret (pending ++ ((fun r => (p, r)) <$> registrations)).

Definition contribution_label (r : Registration) : string :=
  "contribution:" ++ contribution_kind_value (cr_kind r) ++ ":" ++ cd_contribution_id (cr_declaration r).

Definition own_handle (_ : unit) (item : (PreparedState * Registration) * nat) : M unit :=
  let '(p, r, handle) := item in lift_state (own_call (ps_fiber p) (contribution_label r) (HandleRevoke handle)).

(** The [try] block of [_build] *)
Definition build_body (plan : PluginPlan) (replaces : gset string) (activation_fiber : nat) : M ActiveSet :=
  do prepared <- foreach (prepare_source plan activation_fiber) ([], []) (pp_sources plan) in
  do pending <- foreach activate_state [] prepared.2 in
  do handles <- publish pending.*2 replaces in
  do _ <- (if decide (length handles <> length pending) then
             do _ <- foreach (fun _ h => revoke h) tt (reverse handles) in of_sum (lifecycle ACTIVATION_FAILED)
           else ret tt) in
  do _ <- foreach own_handle tt (zip pending handles) in
  ret (MkActiveSet plan activation_fiber prepared.2).

(** The [except] clauses: a bare [raise] in a [finally] block re-raises what the
    block was left with. *)
Definition roll_back (activation_fiber : nat) (x : exc) : M ActiveSet :=
  if fatal x then do _ <- close activation_fiber in raise x
  else
    do _ <- rethrow (close activation_fiber) (fun y =>
              match y with PluginCleanupError _ _ => PluginLifecycleError ACTIVATION_FAILED | _ => y end) in
    if is_lifecycle x then raise x else of_sum (lifecycle ACTIVATION_FAILED).

(** [_build] *)
Definition build (plan : PluginPlan) (replaces : gset string) : M ActiveSet :=
  if decide (pp_attestation plan <> attestation) then of_sum (lifecycle TRUST_REJECTED)
  else
    do id <- uuid4 in
    do f <- new_fiber ("plugin-plan:" ++ id) in
    mcatch (build_body plan replaces f) (roll_back f).

(** ** The three transitions *)
Definition activate (plan : PluginPlan) : M unit :=
  do current <- gets mg_active in
  match current with
  | Some _ => of_sum (lifecycle ALREADY_ACTIVE)
  | None => do s <- build plan ∅ in update (set_active (Some s))
  end.

Definition reload (plan : PluginPlan) : M unit :=
  do previous <- gets mg_active in
  do replacement <- build plan (match previous with None => ∅ | Some s => activation_ids s end) in
  do _ <- update (set_active (Some replacement)) in
  match previous with None => ret tt | Some s => close (as_fiber s) end.

Definition deactivate : M unit :=
  do current <- gets mg_active in
  match current with
  | None => ret tt
  | Some s => do _ <- update (set_active None) in close (as_fiber s)
  end.
End Build.
End Manager.
End PluginManager.
