(* ===== verification/PluginManagerProps.v ===== *)
(** * What every history of the plugin manager satisfies

    Fibers, what they own, and what has been disposed of, through arbitrary acts of
    plugin code; unwinding; building; and the three transitions. *)
From S2P Require Import Prelude PyText Json Prog Tasks PluginModels Effects PluginGraph PluginRegistry PluginManager.
Open Scope string_scope.
Open Scope list_scope.
Open Scope nat_scope.

Module PluginManagerProps.
Import Tasks PluginRegistry PluginManager.

Section Props.
Context {V : Type}.
Abbreviation St := (@State V).
Abbreviation ev := (event (@ans V)).
Abbreviation fiber := Fiber.PluginFiber.

(** ** Fibers and what they own *)
Definition is_call (e : OwnedEffect) : Prop := exists c, oe_dispose e = CallOf c.
Definition target (e : OwnedEffect) : option nat := match oe_dispose e with CloseOf g => Some g | _ => None end.
Definition targets (fb : fiber) : list nat := omap target (Fiber.pf_effects fb).
Definition leaf (fb : fiber) : Prop := Forall is_call (Fiber.pf_effects fb).
Definition is_open (fb : fiber) : Prop := Fiber.pf_state fb = Fiber.OPEN.

Record wf (l : St) : Prop := MkWf {
  wf_calls : forall f fb e c, mg_fibers l !! f = Some fb -> e ∈ Fiber.pf_effects fb -> oe_dispose e = CallOf c ->
    exists k, mg_calls l !! c = Some (MkOwnedCall f k);
  wf_exits : forall f fb e n, mg_fibers l !! f = Some fb -> e ∈ Fiber.pf_effects fb -> oe_dispose e <> ExitOf n;
  wf_nested : forall f fb g, mg_fibers l !! f = Some fb -> g ∈ targets fb -> exists fg, mg_fibers l !! g = Some fg /\ is_open fg /\ leaf fg;
  wf_targets : forall f fb, mg_fibers l !! f = Some fb -> NoDup (targets fb);
  wf_owner : forall f1 fb1 f2 fb2 g, mg_fibers l !! f1 = Some fb1 -> mg_fibers l !! f2 = Some fb2 ->
    g ∈ targets fb1 -> g ∈ targets fb2 -> f1 = f2;
  wf_below : forall f fb g, mg_fibers l !! f = Some fb -> g ∈ targets fb -> f < g;
  wf_known : forall c oc, mg_calls l !! c = Some oc -> is_Some (mg_fibers l !! oc_fiber oc);
  wf_errors : forall f fb x, mg_fibers l !! f = Some fb -> Fiber.pf_cleanup_error fb = Some x -> exists id fs, x = PluginCleanupError id fs;
}.

Definition nested (l : St) (g : nat) : Prop := exists f fb, mg_fibers l !! f = Some fb /\ g ∈ targets fb.

(** The effect of call [c] still sits in its open fiber. *)
Definition held (l : St) (c : nat) (oc : OwnedCall) : Prop :=
  exists fb e, mg_fibers l !! oc_fiber oc = Some fb /\ is_open fb /\ e ∈ Fiber.pf_effects fb /\ oe_dispose e = CallOf c.

Definition disposed (h : list ev) (c : nat) (oc : OwnedCall) : Prop := exists r, (QDispose c oc ~> r) ∈ h.

(** Every effect that was ever accepted is held, disposed of, or lost. *)
Definition accounted (lost : nat -> OwnedCall -> Prop) (h : list ev) (l : St) : Prop :=
  forall c oc, mg_calls l !! c = Some oc -> held l c oc \/ disposed h c oc \/ lost c oc.

Lemma disposed_mono h h' c oc : h ⊆ h' -> disposed h c oc -> disposed h' c oc.
Proof. intros Hs (r & Hin). exists r. by apply Hs. Qed.

Lemma not_call_target e : is_call e -> target e = None.
Proof. intros [c Hc]. unfold target. by rewrite Hc. Qed.

Lemma calls_no_targets es : Forall is_call es -> omap target es = [].
Proof. induction 1 as [|e es He _ IH]; [done|]. simpl. by rewrite not_call_target. Qed.

Lemma targets_app fb es es' : Fiber.pf_effects fb = es ++ es' -> targets fb = omap target es ++ omap target es'.
Proof. intros He. unfold targets. by rewrite He, omap_app. Qed.

Lemma target_elem fb g : g ∈ targets fb <-> exists e, e ∈ Fiber.pf_effects fb /\ oe_dispose e = CloseOf g.
Proof.
  unfold targets. rewrite list_elem_of_omap. split; intros (e & He & Ht); exists e; (split; [done|]); unfold target in *; [|by rewrite Ht].
  by destruct (oe_dispose e); simplify_eq.
Qed.

(** ** Steps that only add

    What plugin acts and the bookkeeping of the manager do to the state *)
Definition shape (c : context (V := V)) : PluginPrepareContext (V := V) + (nat * PluginActivationIdentity * PluginManifest) :=
  match c with PrepareContext c => inl c | ActivateContext f c => inr (f, ac_identity c, ac_manifest c) end.

Record calm (l l' : St) : Prop := MkCalm {
  cm_active : mg_active l' = mg_active l;
  cm_contexts : forall i c, mg_contexts l !! i = Some c -> exists c', mg_contexts l' !! i = Some c' /\ shape c' = shape c;
  cm_calls : mg_calls l `prefix_of` mg_calls l';
  cm_fibers : forall f fb, mg_fibers l !! f = Some fb -> exists fb' new, mg_fibers l' !! f = Some fb' /\
    Fiber.pf_state fb' = Fiber.pf_state fb /\ Fiber.pf_cleanup_error fb' = Fiber.pf_cleanup_error fb /\
    Fiber.pf_effects fb' = Fiber.pf_effects fb ++ new /\ Forall is_call new /\ (is_open fb \/ new = []);
  cm_fresh : forall f fb, mg_fibers l !! f = None -> mg_fibers l' !! f = Some fb -> is_open fb /\ leaf fb;
  cm_held : forall c oc, mg_calls l !! c = None -> mg_calls l' !! c = Some oc -> held l' c oc;
  cm_wf : wf l -> wf l';
}.

Lemma calm_refl l : calm l l.
Proof.
  split; try done; [by eauto| |by intros ?? ->..]. intros f fb Hf. exists fb, []. rewrite app_nil_r. split_and!; [done..|constructor|by right].
Qed.

Lemma held_calm l l' c oc : calm l l' -> held l c oc -> held l' c oc.
Proof.
  intros Hc (fb & e & Hf & Ho & He & Hd). destruct (cm_fibers _ _ Hc _ _ Hf) as (fb' & new & Hf' & Hs & _ & Heff & _).
  exists fb', e. unfold is_open in *. rewrite Hs, Heff. split_and!; [done..|set_solver|done].
Qed.

Lemma calm_trans l1 l2 l3 : calm l1 l2 -> calm l2 l3 -> calm l1 l3.
Proof.
  intros H1 H2. pose proof H1 as [A1 C1 P1 G1 N1 D1 W1]. pose proof H2 as [A2 C2 P2 G2 N2 D2 W2]. split; [congruence| | | | | |auto].
  - intros i c Hi. destruct (C1 i c Hi) as (c1 & Hi1 & Hs1). destruct (C2 i c1 Hi1) as (c2 & Hi2 & Hs2). exists c2. split; [done|congruence].
  - by etransitivity.
  - intros f fb Hf. destruct (G1 f fb Hf) as (fb1 & n1 & Hf1 & Hs1 & He1 & Heff1 & Hc1 & Ho1).
    destruct (G2 f fb1 Hf1) as (fb2 & n2 & Hf2 & Hs2 & He2 & Heff2 & Hc2 & Ho2). exists fb2, (n1 ++ n2).
    split_and!; [done|congruence|congruence|by rewrite Heff2, Heff1, app_assoc|by apply Forall_app|].
    unfold is_open in *. rewrite Hs1 in Ho2. destruct Ho1 as [?| ->]; [by left|]. destruct Ho2 as [?| ->]; [by left|by right].
  - intros f fb Hn Hf. destruct (mg_fibers l2 !! f) as [fb1|] eqn:Hf1; [|by eapply N2].
    destruct (N1 f fb1 Hn Hf1) as [Ho Hl]. destruct (G2 f fb1 Hf1) as (fb2 & n2 & Hf2 & Hs2 & _ & Heff2 & Hc2 & _).
    assert (fb2 = fb) as -> by congruence. unfold is_open, leaf in *. rewrite Hs2, Heff2. split; [done|by apply Forall_app].
  - intros c oc Hn Hc. destruct (mg_calls l2 !! c) as [oc1|] eqn:Hc1; [|by eapply D2].
    assert (oc1 = oc) as -> by (pose proof (prefix_lookup_Some _ _ _ _ Hc1 P2); congruence). eapply held_calm; [done|]. by eapply D1.
Qed.

Lemma accounted_calm lost h l l' : calm l l' -> accounted lost h l -> accounted lost h l'.
Proof.
  intros Hc Ha c oc Hoc. destruct (mg_calls l !! c) as [oc1|] eqn:Hold; [|left; by eapply cm_held].
  assert (oc1 = oc) as -> by (pose proof (prefix_lookup_Some _ _ _ _ Hold (cm_calls _ _ Hc)); congruence).
  destruct (Ha c oc Hold) as [Hh|Hr]; [left; by eapply held_calm|by right].
Qed.

Lemma accounted_mono (lost lost' : nat -> OwnedCall -> Prop) h h' l : h ⊆ h' -> (forall c oc, lost c oc -> lost' c oc) -> accounted lost h l -> accounted lost' h' l.
Proof. intros Hs Hl Ha c oc Hc. destruct (Ha c oc Hc) as [?|[?|?]]; [by left|right; left; by eapply disposed_mono|right; right; auto]. Qed.

Lemma nested_calm l l' g : calm l l' -> nested l' g -> nested l g.
Proof.
  intros Hc (f & fb' & Hf' & Hg). destruct (mg_fibers l !! f) as [fb|] eqn:Hf.
  - destruct (cm_fibers _ _ Hc _ _ Hf) as (fb1 & new & Hf1 & _ & _ & Heff & Hnew & _). exists f, fb. split; [done|].
    assert (fb1 = fb') as -> by congruence. rewrite (targets_app _ _ _ Heff), (calls_no_targets new Hnew), app_nil_r in Hg. done.
  - destruct (cm_fresh _ _ Hc _ _ Hf Hf') as [_ Hl]. unfold targets in Hg. rewrite (calls_no_targets _ Hl) in Hg. by apply not_elem_of_nil in Hg.
Qed.
(** ** The primitives *)
Lemma fiber_own_inr fb label d fb' e : Fiber.own fb label d = inr (fb', e) ->
  is_open fb /\ is_open fb' /\ Fiber.pf_cleanup_error fb' = Fiber.pf_cleanup_error fb /\
  Fiber.pf_effects fb' = Fiber.pf_effects fb ++ [e] /\ e = MkOwnedEffect label d.
Proof.
  unfold Fiber.own, is_open. destruct (is_blank label); [done|]. destruct (decide (Fiber.pf_state fb <> Fiber.OPEN)) as [|Ho]; [done|].
  intros [= <- <-]. simpl. apply dec_stable in Ho. done.
Qed.

(** An effect is added to one open fiber. *)
Lemma own_inr f label d (l l' : St) : own f label d l = inr l' ->
  exists fb fb', mg_fibers l !! f = Some fb /\ is_open fb /\ is_open fb' /\ Fiber.pf_cleanup_error fb' = Fiber.pf_cleanup_error fb /\
    Fiber.pf_effects fb' = Fiber.pf_effects fb ++ [MkOwnedEffect label d] /\ l' = set_fiber f fb' l.
Proof.
  unfold own. destruct (mg_fibers l !! f) as [fb|] eqn:Hf; [|done]. destruct (Fiber.own fb label d) as [|[fb' e]] eqn:Ho; [done|].
  intros [= <-]. apply fiber_own_inr in Ho as (H1 & H2 & H3 & H4 & ->). by exists fb, fb'.
Qed.

Lemma own_total f label d (l : St) fb : mg_fibers l !! f = Some fb -> is_open fb -> is_blank label = false -> exists l', own f label d l = inr l'.
Proof.
  intros Hf Ho Hl. unfold own, Fiber.own, is_open in *. rewrite Hf, Hl. rewrite decide_False by (intros Hn; by apply Hn). by eexists.
Qed.

Lemma set_fiber_lookup f fb (l : St) f' fb' : mg_fibers (set_fiber f fb l) !! f' = Some fb' ->
  (f' = f /\ fb' = fb /\ is_Some (mg_fibers l !! f)) \/ (f' <> f /\ mg_fibers l !! f' = Some fb').
Proof. simpl. rewrite list_lookup_insert_Some. intros [(-> & -> & Hlt)|[Hne Hf]]; [left|by right]. split_and!; [done..|by apply lookup_lt_is_Some]. Qed.

Lemma set_fiber_at f fb (l : St) : is_Some (mg_fibers l !! f) -> mg_fibers (set_fiber f fb l) !! f = Some fb.
Proof. intros Hs. simpl. apply list_lookup_insert_eq. by apply lookup_lt_is_Some. Qed.

Lemma set_fiber_known f fb (l : St) g : is_Some (mg_fibers l !! g) -> is_Some (mg_fibers (set_fiber f fb l) !! g).
Proof. rewrite !lookup_lt_is_Some. simpl. by rewrite length_insert. Qed.

(** The state after [own_call] *)
Lemma own_call_inr f label k (l l' : St) : own_call f label k l = inr l' ->
  exists fb fb', mg_fibers l !! f = Some fb /\ is_open fb /\ is_open fb' /\ Fiber.pf_cleanup_error fb' = Fiber.pf_cleanup_error fb /\
    Fiber.pf_effects fb' = Fiber.pf_effects fb ++ [MkOwnedEffect label (CallOf (length (mg_calls l)))] /\
    l' = MkState (<[ f := fb' ]> (mg_fibers l)) (mg_calls l ++ [MkOwnedCall f k]) (mg_contexts l) (mg_pending l) (mg_active l).
Proof.
  unfold own_call. destruct (own f label _ l) as [|l1] eqn:Ho; [done|]. intros [= <-].
  apply own_inr in Ho as (fb & fb' & Hf & Hp & Hp' & Hc & He & ->). by exists fb, fb'.
Qed.

Lemma own_call_total f label k (l : St) fb : mg_fibers l !! f = Some fb -> is_open fb -> is_blank label = false -> exists l', own_call f label k l = inr l'.
Proof. intros Hf Ho Hl. unfold own_call. destruct (own_total f label (CallOf (length (mg_calls l))) l fb Hf Ho Hl) as [l' ->]. by eexists. Qed.

Lemma targets_snoc_call fb fb' label c : Fiber.pf_effects fb' = Fiber.pf_effects fb ++ [MkOwnedEffect label (CallOf c)] -> targets fb' = targets fb.
Proof. intros He. rewrite (targets_app _ _ _ He). simpl. by rewrite app_nil_r. Qed.

Lemma own_call_wf f label k (l l' : St) : own_call f label k l = inr l' -> wf l -> wf l'.
Proof.
  intros (fb & fb' & Hf & Hp & Hp' & Hcl & He & ->)%own_call_inr [Hca Hex Hne Hta Hun Hbe Hkn Her].
  pose proof (targets_snoc_call _ _ _ _ He) as Ht. assert (Hl : forall f1 fb1, <[f := fb']> (mg_fibers l) !! f1 = Some fb1 ->
    exists fb0, mg_fibers l !! f1 = Some fb0 /\ targets fb1 = targets fb0 /\ (leaf fb0 -> leaf fb1) /\ Fiber.pf_cleanup_error fb1 = Fiber.pf_cleanup_error fb0 /\
      forall e, e ∈ Fiber.pf_effects fb1 -> e ∈ Fiber.pf_effects fb0 \/ f1 = f /\ oe_dispose e = CallOf (length (mg_calls l))).
  { intros f1 fb1 [(-> & -> & _)|[Hn Hf1]]%list_lookup_insert_Some; [exists fb|exists fb1; by split_and!; auto].
    split_and!; [done|done| |done|].
    - unfold leaf. rewrite He. intros Hle. apply Forall_app. split; [done|]. constructor; [by eexists|constructor].
    - intros e Hin. rewrite He in Hin. apply elem_of_app in Hin as [?| ->%list_elem_of_singleton]; [by left|by right]. }
  split; simpl.
  - intros f1 fb1 e c Hf1 Hin Hd. destruct (Hl f1 fb1 Hf1) as (fb0 & Hf0 & _ & _ & _ & Hor). destruct (Hor e Hin) as [Hold|[-> Hnew]].
    + destruct (Hca _ _ _ _ Hf0 Hold Hd) as [k' Hk]. exists k'. by apply lookup_app_l_Some.
    + assert (c = length (mg_calls l)) as -> by congruence. exists k. by apply list_lookup_middle.
  - intros f1 fb1 e n Hf1 Hin. destruct (Hl f1 fb1 Hf1) as (fb0 & Hf0 & _ & _ & _ & Hor). destruct (Hor e Hin) as [Hold|[_ ->]]; [by eapply Hex|done].
  - intros f1 fb1 g Hf1. destruct (Hl f1 fb1 Hf1) as (fb0 & Hf0 & -> & _). intros Hg. destruct (Hne _ _ _ Hf0 Hg) as (fg & Hfg & Hog & Hlg).
    destruct (decide (g = f)) as [->|Hn]; [|exists fg; by rewrite list_lookup_insert_ne].
    assert (fg = fb) as -> by congruence. exists fb'. rewrite list_lookup_insert_eq by (by eapply lookup_lt_Some). split_and!; [done..|].
    destruct (Hl f fb') as (fb0' & Hf0' & _ & Hlf & _); [by apply list_lookup_insert_eq; eapply lookup_lt_Some|].
    assert (fb0' = fb) as -> by congruence. by apply Hlf.
  - intros f1 fb1 Hf1. destruct (Hl f1 fb1 Hf1) as (fb0 & Hf0 & -> & _). by eapply Hta.
  - intros f1 fb1 f2 fb2 g Hf1 Hf2. destruct (Hl f1 fb1 Hf1) as (fb01 & Hf01 & -> & _). destruct (Hl f2 fb2 Hf2) as (fb02 & Hf02 & -> & _). by eapply Hun.
  - intros f1 fb1 g Hf1. destruct (Hl f1 fb1 Hf1) as (fb0 & Hf0 & -> & _). by eapply Hbe.
  - intros c oc Hc. apply lookup_lt_is_Some. rewrite length_insert. apply lookup_lt_is_Some.
    apply lookup_app_Some in Hc as [Hc|[_ Hc]]; [by eapply Hkn|]. apply list_lookup_singleton_Some in Hc as [_ <-]. by eexists.
  - intros f1 fb1 x Hf1. destruct (Hl f1 fb1 Hf1) as (fb0 & Hf0 & _ & _ & -> & _). by eapply Her.
Qed.

Lemma own_call_calm f label k (l l' : St) : own_call f label k l = inr l' -> calm l l'.
Proof.
  intros Ho. pose proof (own_call_wf _ _ _ _ _ Ho) as Hwf. apply own_call_inr in Ho as (fb & fb' & Hf & Hp & Hp' & Hcl & He & ->). split; simpl.
  - done.
  - by eauto.
  - by apply prefix_app_r.
  - intros f1 fb1 Hf1. destruct (decide (f1 = f)) as [->|Hn].
    + assert (fb1 = fb) as -> by congruence. exists fb', [MkOwnedEffect label (CallOf (length (mg_calls l)))].
      rewrite list_lookup_insert_eq by (by eapply lookup_lt_Some). unfold is_open in *. split_and!; [done|congruence|done|done| |by left].
      constructor; [by eexists|constructor].
    + exists fb1, []. rewrite list_lookup_insert_ne, app_nil_r by done. split_and!; [done..|constructor|by right].
  - intros f1 fb1 Hn [(-> & _)|[_ Hf1]]%list_lookup_insert_Some; congruence.
  - intros c oc Hn [Hc|[Hlen Hc]]%lookup_app_Some; [congruence|]. apply list_lookup_singleton_Some in Hc as [Hc <-].
    assert (c = length (mg_calls l)) as -> by lia. exists fb', (MkOwnedEffect label (CallOf (length (mg_calls l)))). simpl.
    rewrite list_lookup_insert_eq by (by eapply lookup_lt_Some). split_and!; [done..|rewrite He; set_solver|done].
  - done.
Qed.

(** Only contexts, pending handles *)
Lemma calm_contexts (l : St) cs ps : (forall i c, mg_contexts l !! i = Some c -> exists c', cs !! i = Some c' /\ shape c' = shape c) ->
  calm l (MkState (mg_fibers l) (mg_calls l) cs ps (mg_active l)).
Proof.
  intros Hc. split; simpl; try done; [|by intros ?? ->..|by intros []]. intros f fb Hf. exists fb, []. rewrite app_nil_r.
  split_and!; [done..|constructor|by right].
Qed.

Lemma calm_add_context c (l : St) : calm l (add_context c l).
Proof. apply calm_contexts. intros i c0 Hi. exists c0. split; [by apply lookup_app_l_Some|done]. Qed.

Lemma contribute_shape c kind id (v : V) c' : contribute c kind id v = inr c' -> ac_identity c' = ac_identity c /\ ac_manifest c' = ac_manifest c.
Proof. unfold contribute. destruct (dget _ _); [|done]. destruct (negb _); [done|]. destruct (ac_values c !! _); [done|]. by intros [= <-]. Qed.

Lemma perform_calm (l : St) a : calm l (perform l a).
Proof.
  destruct a as [i label n|i kind id v|j]; simpl.
  - destruct (mg_contexts l !! i) as [c|]; [|apply calm_refl]. destruct (own_call _ _ _ l) as [|l'] eqn:Ho; [apply calm_refl|by eapply own_call_calm].
  - destruct (mg_contexts l !! i) as [[c|f c]|] eqn:Hi; [apply calm_refl| |apply calm_refl].
    destruct (contribute c kind id v) as [|c'] eqn:Hc; [apply calm_refl|]. apply contribute_shape in Hc as [Hid Hm]. apply calm_contexts.
    intros i' c0 Hi'. destruct (decide (i' = i)) as [->|Hn]; [|exists c0; by rewrite list_lookup_insert_ne].
    exists (ActivateContext f c'). rewrite list_lookup_insert_eq by (by eapply lookup_lt_Some). split; [done|].
    assert (c0 = ActivateContext f c) as -> by congruence. simpl. by rewrite Hid, Hm.
  - destruct (mg_pending l !! j) as [[i key []]|] eqn:Hj; [apply calm_refl| |apply calm_refl]. apply calm_contexts.
    intros i' c0 Hi'. destruct (decide (i' = i)) as [->|Hn]; [|exists c0; by rewrite list_lookup_alter_ne].
    rewrite list_lookup_alter_eq, Hi'. eexists. split; [done|]. by destruct c0.
Qed.

Lemma performs_calm (l : St) acts : calm l (performs l acts).
Proof. unfold performs. revert l. induction acts as [|a acts IH]; intros l; simpl; [apply calm_refl|]. eapply calm_trans; [apply perform_calm|apply IH]. Qed.

Lemma new_fiber_calm (l : St) fb : is_open fb -> Fiber.pf_effects fb = [] -> Fiber.pf_cleanup_error fb = None ->
  calm l (MkState (mg_fibers l ++ [fb]) (mg_calls l) (mg_contexts l) (mg_pending l) (mg_active l)).
Proof.
  intros Ho He Hce. assert (Hl : leaf fb) by (unfold leaf; rewrite He; constructor). assert (Ht : targets fb = []) by (unfold targets; by rewrite He).
  assert (Hlk : forall f fb1, (mg_fibers l ++ [fb]) !! f = Some fb1 -> mg_fibers l !! f = Some fb1 \/ (mg_fibers l !! f = None /\ fb1 = fb)).
  { intros f fb1 [Hf|[Hge Hf]]%lookup_app_Some; [by left|right]. apply list_lookup_singleton_Some in Hf as [_ <-]. split; [by apply lookup_ge_None|done]. }
  split; simpl; try done; [by eauto| | |by intros ?? ->|].
  - intros f fb1 Hf. exists fb1, []. rewrite app_nil_r. split_and!; [by apply lookup_app_l_Some|done..|constructor|by right].
  - intros f fb1 Hn [Hf|[_ ->]]%Hlk; [congruence|done].
  - intros [Hca Hex Hne Hta Hun Hbe Hkn Her]. split; simpl.
    + intros f fb1 e c [Hf|[_ ->]]%Hlk; [by apply Hca|]. rewrite He. by intros ?%not_elem_of_nil.
    + intros f fb1 e n [Hf|[_ ->]]%Hlk; [by eapply Hex|]. rewrite He. by intros ?%not_elem_of_nil.
    + intros f fb1 g [Hf|[_ ->]]%Hlk; [|rewrite Ht; by intros ?%not_elem_of_nil]. intros Hg. destruct (Hne _ _ _ Hf Hg) as (fg & Hfg & Hr).
      exists fg. split; [by apply lookup_app_l_Some|done].
    + intros f fb1 [Hf|[_ ->]]%Hlk; [by eapply Hta|rewrite Ht; constructor].
    + intros f1 fb1 f2 fb2 g [Hf1|[_ ->]]%Hlk [Hf2|[_ ->]]%Hlk; [by eapply Hun|rewrite Ht; by intros _ ?%not_elem_of_nil|rewrite Ht; by intros ?%not_elem_of_nil..].
    + intros f fb1 g [Hf|[_ ->]]%Hlk; [by eapply Hbe|rewrite Ht; by intros ?%not_elem_of_nil].
    + intros c oc [fb1 Hf]%Hkn. exists fb1. by apply lookup_app_l_Some.
    + intros f fb1 x [Hf|[_ ->]]%Hlk; [by eapply Her|by rewrite Hce].
Qed.
(** ** Unwinding *)

(** Steps that may close the fibers in [F] *)
Record steady (F : nat -> Prop) (l l' : St) : Prop := MkSteady {
  sd_active : mg_active l' = mg_active l;
  sd_contexts : forall i c, mg_contexts l !! i = Some c -> exists c', mg_contexts l' !! i = Some c' /\ shape c' = shape c;
  sd_calls : mg_calls l `prefix_of` mg_calls l';
  sd_fibers : forall f fb, ~ F f -> mg_fibers l !! f = Some fb -> exists fb' new, mg_fibers l' !! f = Some fb' /\
    Fiber.pf_state fb' = Fiber.pf_state fb /\ Fiber.pf_cleanup_error fb' = Fiber.pf_cleanup_error fb /\
    Fiber.pf_effects fb' = Fiber.pf_effects fb ++ new /\ Forall is_call new /\ (is_open fb \/ new = []);
  sd_fresh : forall f fb, mg_fibers l !! f = None -> mg_fibers l' !! f = Some fb -> is_open fb /\ leaf fb;
  sd_kept : forall f, is_Some (mg_fibers l !! f) -> is_Some (mg_fibers l' !! f);
  sd_nested : forall g, nested l' g -> nested l g;
}.

Lemma calm_steady F l l' : calm l l' -> steady F l l'.
Proof.
  intros Hc. pose proof Hc as [A C P G N D W]. split; auto; [|by intros g; apply nested_calm].
  intros f [fb Hf]. destruct (G f fb Hf) as (fb' & _ & Hf' & _). by eexists.
Qed.

Lemma steady_then (F : nat -> Prop) l1 l2 l3 : (forall f, F f -> is_Some (mg_fibers l1 !! f)) -> steady F l1 l2 -> steady F l2 l3 -> steady F l1 l3.
Proof.
  intros HF [A1 C1 P1 G1 N1 K1 T1] [A2 C2 P2 G2 N2 K2 T2]. split; [congruence| | | | |auto|auto].
  - intros i c Hi. destruct (C1 i c Hi) as (c1 & Hi1 & Hs1). destruct (C2 i c1 Hi1) as (c2 & Hi2 & Hs2). exists c2. split; [done|congruence].
  - by etransitivity.
  - intros f fb Hn Hf. destruct (G1 f fb Hn Hf) as (fb1 & n1 & Hf1 & Hs1 & He1 & Heff1 & Hc1 & Ho1).
    destruct (G2 f fb1 Hn Hf1) as (fb2 & n2 & Hf2 & Hs2 & He2 & Heff2 & Hc2 & Ho2). exists fb2, (n1 ++ n2).
    split_and!; [done|congruence|congruence|by rewrite Heff2, Heff1, app_assoc|by apply Forall_app|].
    unfold is_open in *. rewrite Hs1 in Ho2. destruct Ho1 as [?| ->]; [by left|]. destruct Ho2 as [?| ->]; [by left|by right].
  - intros f fb Hn Hf. destruct (mg_fibers l2 !! f) as [fb1|] eqn:Hf1; [|by eapply N2].
    destruct (N1 f fb1 Hn Hf1) as [Ho Hl]. destruct (G2 f fb1) as (fb2 & n2 & Hf2 & Hs2 & _ & Heff2 & Hc2 & _); [|done|].
    { intros HFf. destruct (HF f HFf). congruence. }
    assert (fb2 = fb) as -> by congruence. unfold is_open, leaf in *. rewrite Hs2, Heff2. split; [done|by apply Forall_app].
Qed.

Lemma steady_weaken (F F' : nat -> Prop) l l' : (forall f, F f -> F' f) -> steady F l l' -> steady F' l l'.
Proof. intros HF [A C P G N K T]. split; auto. Qed.

(** A fiber that owns nothing, in place of one that nobody owns *)
Lemma wf_emptied f fb (l : St) : ~ nested l f -> Fiber.pf_effects fb = [] ->
  (forall x, Fiber.pf_cleanup_error fb = Some x -> exists id fs, x = PluginCleanupError id fs) -> wf l -> wf (set_fiber f fb l).
Proof.
  intros Hnn He Hx [Hca Hex Hne Hta Hun Hbe Hkn Her]. assert (Ht : targets fb = []) by (unfold targets; by rewrite He). split.
  - intros f1 fb1 e c [(-> & -> & _)|[_ Hf1]]%set_fiber_lookup; [rewrite He; by intros ?%not_elem_of_nil|by apply Hca].
  - intros f1 fb1 e n [(-> & -> & _)|[_ Hf1]]%set_fiber_lookup; [rewrite He; by intros ?%not_elem_of_nil|by eapply Hex].
  - intros f1 fb1 g [(-> & -> & _)|[_ Hf1]]%set_fiber_lookup Hg; [rewrite Ht in Hg; by apply not_elem_of_nil in Hg|].
    destruct (Hne _ _ _ Hf1 Hg) as (fg & Hfg & Hr). exists fg. simpl. rewrite list_lookup_insert_ne; [done|]. intros ->. apply Hnn. by exists f1, fb1.
  - intros f1 fb1 [(-> & -> & _)|[_ Hf1]]%set_fiber_lookup; [rewrite Ht; constructor|by eapply Hta].
  - intros f1 fb1 f2 fb2 g [(-> & -> & _)|[_ Hf1]]%set_fiber_lookup [(-> & -> & _)|[_ Hf2]]%set_fiber_lookup Hg1 Hg2; [done| | |by eapply (Hun f1 fb1 f2 fb2)].
    + rewrite Ht in Hg1. by apply not_elem_of_nil in Hg1.
    + rewrite Ht in Hg2. by apply not_elem_of_nil in Hg2.
  - intros f1 fb1 g [(-> & -> & _)|[_ Hf1]]%set_fiber_lookup; [rewrite Ht; by intros ?%not_elem_of_nil|by eapply Hbe].
  - intros c oc Hc. apply set_fiber_known. by eapply Hkn.
  - intros f1 fb1 x [(-> & -> & _)|[_ Hf1]]%set_fiber_lookup; [by apply Hx|by eapply Her].
Qed.

Lemma steady_set_fiber (F : nat -> Prop) f fb (l : St) : F f -> Fiber.pf_effects fb = [] -> steady F l (set_fiber f fb l).
Proof.
  intros HF He. split; simpl; try done; [by eauto| | | |].
  - intros f1 fb1 Hn Hf1. exists fb1, []. rewrite list_lookup_insert_ne, app_nil_r by (by intros ->). split_and!; [done..|constructor|by right].
  - intros f1 fb1 Hn [(-> & _ & Hlt)|[_ Hf1]]%list_lookup_insert_Some; [by apply lookup_ge_None in Hn; lia|congruence].
  - intros f1 Hs. apply lookup_lt_is_Some. rewrite length_insert. by apply lookup_lt_is_Some.
  - intros g (f1 & fb1 & [(-> & -> & _)|[_ Hf1]]%set_fiber_lookup & Hg); [|by exists f1, fb1].
    unfold targets in Hg. rewrite He in Hg. by apply not_elem_of_nil in Hg.
Qed.
Lemma accounted_set_fiber lost h f fb0 fb (l : St) : mg_fibers l !! f = Some fb0 -> ~ is_open fb0 ->
  accounted lost h l -> accounted lost h (set_fiber f fb l).
Proof.
  intros Hf0 Hno Ha c oc Hoc. destruct (Ha c oc Hoc) as [(fb1 & e & Hf & Ho & He)|Hr]; [left|by right]. exists fb1, e.
  simpl. rewrite list_lookup_insert_ne; [done|]. intros ->. congruence.
Qed.

(** [g] was closed, and all it owned disposed of. *)
Definition closed_post (g : nat) (lost : nat -> OwnedCall -> Prop) (l : St) (h : list ev) (l' : St) (h' : list ev) : Prop :=
  h ⊆ h' /\ wf l' /\ steady (eq g) l l' /\
  (exists fg, mg_fibers l' !! g = Some fg /\ Fiber.pf_state fg = Fiber.CLOSED /\ Fiber.pf_effects fg = []) /\ accounted lost h' l'.

(** An unwinding was interrupted; what [F] owned may be lost. *)
Definition broken_post (F : nat -> Prop) (lost : nat -> OwnedCall -> Prop) (l : St) (h : list ev) (l' : St) (h' : list ev) : Prop :=
  h ⊆ h' /\ wf l' /\ steady F l l' /\ accounted (fun c oc => lost c oc \/ F (oc_fiber oc)) h' l'.

(** Only open fibers have owners. *)
Lemma wf_unowned (l : St) f fb : wf l -> mg_fibers l !! f = Some fb -> ~ is_open fb -> ~ nested l f.
Proof. intros Hw Hf Hno (f1 & fb1 & Hf1 & Hx). destruct (wf_nested _ Hw _ _ _ Hf1 Hx) as (fx & Hfx & Ho & _). congruence. Qed.

Definition is_cleanup (x : exc) : Prop := exists id fs, x = PluginCleanupError id fs.

Section Loop.
Context (I : list ev -> ev -> Prop) (close1 : nat -> M (V := V) unit) (f : nat) (es : list OwnedEffect) (l0 : St) (h0 : list ev)
  (lost : nat -> OwnedCall -> Prop).
Let F (g : nat) : Prop := g = f \/ g ∈ omap target es.

(** What may still be found in the effects to come *)
Definition pending_in (rest : list OwnedEffect) (c : nat) (oc : OwnedCall) : Prop :=
  lost c oc \/ (oc_fiber oc = f /\ exists e, e ∈ rest /\ oe_dispose e = CallOf c).

Definition closable (l : St) (g : nat) : Prop :=
  g <> f /\ ~ nested l g /\ exists fg, mg_fibers l !! g = Some fg /\ is_open fg /\ leaf fg.

Record looping (dn rest : list OwnedEffect) (l : St) (h : list ev) : Prop := MkLooping {
  lp_hist : h0 ⊆ h;
  lp_wf : wf l;
  lp_steady : steady F l0 l;
  lp_closing : exists fb, mg_fibers l !! f = Some fb /\ Fiber.pf_state fb = Fiber.CLOSING /\ Fiber.pf_effects fb = [];
  lp_unowned : ~ nested l f;
  lp_accounted : accounted (pending_in rest) h l;
  lp_rest : forall e, e ∈ rest -> match oe_dispose e with
    | CallOf c => exists k, mg_calls l !! c = Some (MkOwnedCall f k)
    | CloseOf g => closable l g
    | ExitOf _ => False
    end;
  lp_done : forall g, g ∈ omap target dn -> exists fg, mg_fibers l !! g = Some fg /\ Fiber.pf_state fg = Fiber.CLOSED;
}.

Context (HF : forall g, F g -> is_Some (mg_fibers l0 !! g)) (Hf : f ∉ omap target es) (Hnd : NoDup (omap target es)).

Lemma closable_calm l l' g : calm l l' -> closable l g -> closable l' g.
Proof.
  intros Hc (Hne & Hn & fg & Hfg & Ho & Hl). split_and!; [done|by intros Hn'%(nested_calm _ _ _ Hc)|].
  destruct (cm_fibers _ _ Hc _ _ Hfg) as (fg' & new & Hfg' & Hs & _ & He & Hnew & _). exists fg'. unfold is_open, leaf in *.
  rewrite Hs, He. split_and!; [done..|by apply Forall_app].
Qed.

Lemma looping_calm dn rest l h l' h' : looping dn rest l h -> calm l l' -> h ⊆ h' -> looping dn rest l' h'.
Proof.
  intros [Hh Hw Hs (fb & Hfb & Hst & He) Hu Ha Hr Hd] Hc Hsub. split.
  - by etransitivity.
  - by apply (cm_wf _ _ Hc).
  - eapply steady_then; [exact HF|done|by apply calm_steady].
  - destruct (cm_fibers _ _ Hc _ _ Hfb) as (fb' & new & Hfb' & Hs' & _ & He' & _ & Hno). exists fb'.
    unfold is_open in Hno. destruct Hno as [?| ->]; [congruence|]. rewrite Hs', He', He. done.
  - by intros Hn%(nested_calm _ _ _ Hc).
  - eapply accounted_mono; [exact Hsub| |by eapply accounted_calm]. done.
  - intros e Hin. specialize (Hr e Hin). destruct (oe_dispose e) as [c|n|g]; [|done|by eapply closable_calm].
    destruct Hr as [k Hk]. exists k. eapply prefix_lookup_Some; [done|apply Hc].
  - intros g Hg. destruct (Hd g Hg) as (fg & Hfg & Hcl). destruct (cm_fibers _ _ Hc _ _ Hfg) as (fg' & new & Hfg' & Hs' & _). exists fg'. split; [done|congruence].
Qed.

(** The next effect was a call, and was made. *)
Lemma looping_called dn e rest l h c oc : looping dn (e :: rest) l h -> oe_dispose e = CallOf c -> mg_calls l !! c = Some oc -> disposed h c oc -> looping (dn ++ [e]) rest l h.
Proof.
  intros [Hh Hw Hs Hcl Hu Ha Hr Hd] He Hk Hc. split; try done.
  - intros c' oc' Hoc. destruct (Ha c' oc' Hoc) as [?|[?|[?|(Hof & e' & Hin & He')]]]; [by left|by right; left|by right; right; left|].
    apply elem_of_cons in Hin as [->|Hin]; [right; left; assert (c' = c) as -> by congruence; by assert (oc' = oc) as -> by congruence|]. right. right. right. split; [done|]. by exists e'.
  - intros e' Hin. apply Hr. by right.
  - intros g. rewrite omap_app. simpl. unfold target at 2. rewrite He, app_nil_r. apply Hd.
Qed.

(** The next effect was a fiber, and was closed. *)
Lemma looping_closed dn e rest l h l' h' g : es = dn ++ e :: rest -> looping dn (e :: rest) l h -> oe_dispose e = CloseOf g ->
  closed_post g (pending_in (e :: rest)) l h l' h' -> looping (dn ++ [e]) rest l' h'.
Proof.
  intros Hes [Hh Hw Hs (fb & Hfb & Hst & Heff) Hu Ha Hr Hd] He (Hsub & Hw' & Hs' & (fg & Hfg & Hcl & Hge) & Ha').
  assert (Hte : target e = Some g) by (unfold target; by rewrite He).
  pose proof (Hr e (list_elem_of_here _ _)) as Hcg. rewrite He in Hcg. destruct Hcg as (Hgf & Hgn & _).
  assert (Hnot : forall g', g' ∈ omap target dn \/ g' ∈ omap target rest -> g' <> g).
  { rewrite Hes, omap_app in Hnd. simpl in Hnd. rewrite Hte in Hnd. apply NoDup_app in Hnd as (_ & Hdis & Hnd').
    apply NoDup_cons in Hnd' as [Hgr _]. intros g' [Hin|Hin] ->; [apply (Hdis g Hin); by left|done]. }
  assert (Hkeep : forall g' fg', g' <> g -> mg_fibers l !! g' = Some fg' -> exists fg1 new, mg_fibers l' !! g' = Some fg1 /\ Fiber.pf_state fg1 = Fiber.pf_state fg' /\
    Fiber.pf_effects fg1 = Fiber.pf_effects fg' ++ new /\ Forall is_call new /\ (is_open fg' \/ new = [])).
  { intros g' fg' Hne Hg'. destruct (sd_fibers _ _ _ Hs' g' fg' (fun Heq => Hne (eq_sym Heq)) Hg') as (fg1 & new & Hg1 & Hs1 & _ & He1 & Hn1 & Ho1). by exists fg1, new. }
  assert (HFg : F g) by (right; rewrite Hes, omap_app; simpl; rewrite Hte; set_solver). split.
  - by etransitivity.
  - done.
  - eapply steady_then; [exact HF|done|]. eapply steady_weaken; [|done]. by intros ? <-.
  - destruct (Hkeep f fb (fun Heq => Hgf (eq_sym Heq)) Hfb) as (fb1 & new & Hf1 & Hs1 & He1 & _ & Ho). exists fb1.
    unfold is_open in Ho. destruct Ho as [?| ->]; [congruence|]. rewrite Hs1, He1, Heff. done.
  - intros Hn. by apply Hu, (sd_nested _ _ _ Hs').
  - intros c oc Hoc. destruct (Ha' c oc Hoc) as [?|[?|[?|(Hof & e' & Hin & He')]]]; [by left|by right; left|by right; right; left|].
    apply elem_of_cons in Hin as [->|Hin]; [congruence|]. right. right. right. split; [done|]. by exists e'.
  - intros e' Hin. pose proof (Hr e' (list_elem_of_further _ _ _ Hin)) as Hr'. destruct (oe_dispose e') as [c|n|g'] eqn:He'; [|done|].
    + destruct Hr' as [k Hk]. exists k. eapply prefix_lookup_Some; [done|apply Hs'].
    + destruct Hr' as (Hne' & Hn' & fg' & Hfg' & Ho' & Hl'). assert (Hg' : g' <> g).
      { apply Hnot. right. apply list_elem_of_omap. exists e'. split; [done|]. unfold target. by rewrite He'. }
      split_and!; [done|by intros Hn%(sd_nested _ _ _ Hs')|].
      destruct (Hkeep g' fg' Hg' Hfg') as (fg1 & new & Hg1 & Hs1 & He1 & Hnew & _). exists fg1. unfold is_open, leaf in *. rewrite Hs1, He1.
      split_and!; [done..|by apply Forall_app].
  - intros g' Hg'. rewrite omap_app in Hg'. apply elem_of_app in Hg' as [Hg'|Hg'].
    + destruct (Hd g' Hg') as (fg' & Hfg' & Hc'). destruct (Hkeep g' fg') as (fg1 & new & Hg1 & Hs1 & _); [by apply Hnot; left|done|]. exists fg1. split; [done|congruence].
    + simpl in Hg'. rewrite Hte in Hg'. apply list_elem_of_singleton in Hg' as ->. by exists fg.
Qed.
(** The contract of the nested close, and the conditions on the questions asked *)
Context (Hclose : forall lost' g l h fg, g ∈ omap target es -> mg_fibers l !! g = Some fg -> is_open fg -> leaf fg -> ~ nested l g -> wf l ->
  accounted lost' h l -> (forall h' c k r, h ⊆ h' -> I h' (QDispose c (MkOwnedCall g k) ~> r)) ->
  mwp I (close1 g) l h (fun _ l' h' => closed_post g lost' l h l' h')
    (fun x l' h' => if fatal x then broken_post (eq g) lost' l h l' h' else is_cleanup x /\ closed_post g lost' l h l' h')).
Context (HI : forall h' c k r, h0 ⊆ h' -> I h' (QDispose c (MkOwnedCall f k) ~> r)).
Context (HIn : forall dn e rest g h' c k r, es = dn ++ e :: rest -> oe_dispose e = CloseOf g -> h0 ⊆ h' ->
  (forall g' c' oc, g' ∈ omap target dn -> mg_calls l0 !! c' = Some oc -> oc_fiber oc = g' -> disposed h' c' oc \/ lost c' oc) ->
  I h' (QDispose c (MkOwnedCall g k) ~> r)).

Lemma looping_finished dn rest l h failures : looping dn rest l h ->
  broken_post F lost l0 h0 (close_finish f failures l) h.
Proof.
  intros [Hh Hw Hs (fb & Hfb & Hst & He) Hu Ha Hr Hd]. unfold close_finish. rewrite Hfb. split_and!; [done| | |].
  - apply wf_emptied; [done|done| |done]. simpl. intros x Hx. destruct failures as [|fl fs]; [by eapply wf_errors|]. injection Hx as <-. by eexists _, _.
  - eapply steady_then; [exact HF|done|]. apply steady_set_fiber; [by left|done].
  - eapply accounted_set_fiber; [done|unfold is_open; congruence|]. eapply (accounted_mono _ _ h h); [done| |exact Ha].
    intros c oc [?|[-> _]]; [by left|right; by left].
Qed.

Lemma done_disposed dn rest l h g c oc : looping dn rest l h -> es = dn ++ rest -> g ∈ omap target dn -> mg_calls l0 !! c = Some oc -> oc_fiber oc = g ->
  disposed h c oc \/ lost c oc.
Proof.
  intros [Hh Hw Hs _ Hu Ha Hr Hd] Hes Hg Hc Ho. destruct (Hd g Hg) as (fg & Hfg & Hcl).
  destruct (Ha c oc) as [(fb & e & Hfb & Hop & _)|[?|[?|[Hof _]]]]; [eapply prefix_lookup_Some; [done|apply Hs]| |by left|by right|].
  - unfold is_open in Hop. congruence.
  - exfalso. apply Hf. rewrite Hes, omap_app. apply elem_of_app. left. congruence.
Qed.

Lemma dispose_one_wp dn e rest failures l h : es = dn ++ e :: rest -> looping dn (e :: rest) l h ->
  mwp I (dispose_one close1 f failures e) l h (fun _ l' h' => looping (dn ++ [e]) rest l' h')
    (fun x l' h' => fatal x = true /\ broken_post F lost l0 h0 l' h').
Proof.
  intros Hes Hl. pose proof (lp_rest _ _ _ _ Hl e (list_elem_of_here _ _)) as He. unfold dispose_one. apply mwp_catch.
  assert (Hmid : mwp I (dispose close1 (oe_dispose e)) l h (fun _ l' h' => looping (dn ++ [e]) rest l' h')
    (fun x l' h' => if fatal x then broken_post F lost l0 h0 (close_finish f failures l') h' else looping (dn ++ [e]) rest l' h')).
  { unfold dispose. destruct (oe_dispose e) as [c|n|g] eqn:Hd; [|done|].
    - destruct He as [k Hk]. unfold mwp. rewrite Hk. intros [acts r]. split; [apply HI, (lp_hist _ _ _ _ Hl)|]. unfold wp. simpl.
      assert (Hl' : looping (dn ++ [e]) rest (performs l acts) ((QDispose c (MkOwnedCall f k) ~> (acts, r)) :: h)).
      { eapply looping_called; [|exact Hd| |by eexists; left]; [|eapply prefix_lookup_Some; [exact Hk|apply (cm_calls _ _ (performs_calm l acts))]]. eapply looping_calm; [done|apply performs_calm|set_solver]. }
      destruct r as [x|]; simpl; [|done]. destruct (fatal x); [by eapply looping_finished|done].
    - destruct He as (Hgf & Hgn & fg & Hfg & Hog & Hlg). assert (Hte : target e = Some g) by (unfold target; by rewrite Hd).
      eapply mwp_mono; [| |eapply (Hclose (pending_in (e :: rest))); [|done..|apply Hl|apply Hl|]].
      + simpl. intros _ l' h' Hp. by eapply looping_closed.
      + simpl. intros x l' h' Hp. destruct (fatal x) eqn:Hx; [|by eapply looping_closed; [..|apply Hp]].
        destruct Hp as (Hsub & Hw' & Hs' & Ha'). destruct (lp_closing _ _ _ _ Hl) as (fb & Hfb & Hst & Heff).
        destruct (sd_fibers _ _ _ Hs' f fb (fun Heq => Hgf Heq) Hfb) as (fb1 & new & Hf1 & Hs1 & _ & He1 & _ & Ho).
        unfold is_open in Ho. destruct Ho as [?| ->]; [congruence|]. rewrite app_nil_r, Heff in He1.
        assert (Hnn : ~ nested l' f) by (eapply wf_unowned; [done|done|unfold is_open; congruence]).
        unfold close_finish. rewrite Hf1. split_and!.
        * etransitivity; [apply (lp_hist _ _ _ _ Hl)|done].
        * apply wf_emptied; [done|done| |done]. simpl. intros y Hy. destruct failures as [|fl fs]; [by eapply wf_errors|]. injection Hy as <-. by eexists _, _.
        * eapply steady_then; [exact HF| |apply steady_set_fiber; [by left|done]]. eapply steady_then; [exact HF|apply Hl|].
          eapply steady_weaken; [|done]. intros ? <-. right. rewrite Hes, omap_app. simpl. rewrite Hte. set_solver.
        * eapply accounted_set_fiber; [done|unfold is_open; congruence|]. eapply (accounted_mono _ _ h' h'); [done| |exact Ha'].
          intros c oc [[?|[-> _]]| <-]; [by left|right; by left|right; right]. rewrite Hes, omap_app. simpl. rewrite Hte. set_solver.
      + rewrite Hes, omap_app. simpl. rewrite Hte. set_solver.
      + intros h' c k r Hsub. eapply HIn; [done|done|etransitivity; [apply (lp_hist _ _ _ _ Hl)|done]|].
        intros g' c' oc Hg' Hc' Ho'. destruct (done_disposed _ _ _ _ _ _ _ Hl Hes Hg' Hc' Ho') as [?|?]; [left; by eapply disposed_mono|by right]. }
  apply mwp_bind. eapply mwp_mono; [| |exact Hmid]; simpl.
  - intros [] l' h' Hl'. exact Hl'.
  - intros x l' h' Hp. destruct (fatal x) eqn:Hx; [|exact Hp]. unfold mwp. simpl. by split.
Qed.

Lemma unwind_loop_wp l h : looping [] es l h ->
  mwp I (foreach (dispose_one close1 f) [] es) l h (fun _ l' h' => looping es [] l' h')
    (fun x l' h' => fatal x = true /\ broken_post F lost l0 h0 l' h').
Proof.
  intros Hl. eapply (mwp_foreach _ (fun dn _ l' h' => exists rest, es = dn ++ rest /\ looping dn rest l' h')).
  - by exists es.
  - intros dn e rest b l' h' Hes (rest' & Heq & Hl'). assert (rest' = e :: rest) as -> by (rewrite Hes in Heq; by apply app_inv_head in Heq).
    eapply mwp_mono; [| |by apply dispose_one_wp]; [|done]. intros b' l2 h2 Hl2. exists rest. split; [by rewrite Hes, <- app_assoc|done].
  - intros b l' h' (rest & Heq & Hl'). assert (rest = []) as ->; [|done]. apply (app_inv_head es). by rewrite app_nil_r.
Qed.
End Loop.
(** ** Closing a fiber *)
Definition unwound_post (F : nat -> Prop) (f : nat) (gs : list nat) (lost : nat -> OwnedCall -> Prop) (l : St) (h : list ev) (l' : St) (h' : list ev) : Prop :=
  h ⊆ h' /\ wf l' /\ steady F l l' /\
  (exists fb, mg_fibers l' !! f = Some fb /\ Fiber.pf_state fb = Fiber.CLOSED /\ Fiber.pf_effects fb = []) /\
  (forall g, g ∈ gs -> exists fg, mg_fibers l' !! g = Some fg /\ Fiber.pf_state fg = Fiber.CLOSED) /\ accounted lost h' l'.

Definition family (f : nat) (fb : fiber) (g : nat) : Prop := g = f \/ g ∈ targets fb.

Lemma targets_reverse fb : omap target (reverse (Fiber.pf_effects fb)) ≡ₚ targets fb.
Proof. unfold targets. by rewrite reverse_Permutation. Qed.

Lemma omap_reverse {A B : Type} (k : A -> option B) l : omap k (reverse l) = reverse (omap k l).
Proof.
  induction l as [|x l IH]; [done|]. rewrite reverse_cons, omap_app, IH. simpl.
  destruct (k x); [by rewrite reverse_cons|by rewrite app_nil_r].
Qed.

Lemma family_is f fb (l : St) g : wf l -> mg_fibers l !! f = Some fb -> g = f \/ g ∈ omap target (reverse (Fiber.pf_effects fb)) -> is_Some (mg_fibers l !! g).
Proof.
  intros Hw Hf [->|Hg]; [by eexists|]. rewrite targets_reverse in Hg. destruct (wf_nested _ Hw _ _ _ Hf Hg) as (fg & Hfg & _). by eexists.
Qed.

Lemma unwinding_starts lost f fb (l : St) h : mg_fibers l !! f = Some fb -> is_open fb -> ~ nested l f -> wf l -> accounted lost h l ->
  looping f (reverse (Fiber.pf_effects fb)) l h lost [] (reverse (Fiber.pf_effects fb)) (set_fiber f (Fiber.close_begin fb).1 l) h.
Proof.
  intros Hf Ho Hn Hw Ha. unfold Fiber.close_begin. rewrite Ho. simpl.
  set (fb1 := Fiber.MkPluginFiber _ _ _ _ _). assert (Hf1 : mg_fibers (set_fiber f fb1 l) !! f = Some fb1) by (apply set_fiber_at; by eexists).
  split.
  - done.
  - apply wf_emptied; [done|done| |done]. intros x Hx. by eapply wf_errors.
  - apply steady_set_fiber; [by left|done].
  - by exists fb1.
  - eapply wf_unowned; [|exact Hf1|done]. apply wf_emptied; [done|done| |done]. intros x Hx. by eapply wf_errors.
  - intros c oc Hc. destruct (Ha c oc Hc) as [(fb2 & e & Hfb2 & Ho2 & He & Hd)|[?|?]]; [|by right; left|by right; right; left].
    destruct (decide (oc_fiber oc = f)) as [Heq|Hne].
    + right. right. right. split; [done|]. exists e. split; [|done]. rewrite elem_of_reverse. rewrite Heq in Hfb2. congruence.
    + left. exists fb2, e. simpl. by rewrite list_lookup_insert_ne.
  - intros e He. rewrite elem_of_reverse in He. destruct (oe_dispose e) as [c|n|g] eqn:Hd.
    + exact (wf_calls _ Hw _ _ _ _ Hf He Hd).
    + exact (wf_exits _ Hw _ _ _ _ Hf He Hd).
    + assert (Hg : g ∈ targets fb) by (apply target_elem; by exists e). destruct (wf_nested _ Hw _ _ _ Hf Hg) as (fg & Hfg & Hog & Hlg).
      assert (Hgf : g <> f) by (intros ->; apply Hn; by exists f, fb). split_and!; [done| |exists fg; simpl; by rewrite list_lookup_insert_ne].
      intros (f2 & fb2 & [(-> & -> & _)|[Hne Hf2]]%set_fiber_lookup & Hg2); [by apply not_elem_of_nil in Hg2|].
      apply Hne. by eapply wf_owner.
  - intros g Hg. by apply not_elem_of_nil in Hg.
Qed.

Lemma close_fiber_wp I d f lost l h fb :
  mg_fibers l !! f = Some fb -> is_open fb -> ~ nested l f -> wf l -> accounted lost h l ->
  (forall lost' g l h fg, g ∈ targets fb -> mg_fibers l !! g = Some fg -> is_open fg -> leaf fg -> ~ nested l g -> wf l ->
    accounted lost' h l -> (forall h' c k r, h ⊆ h' -> I h' (QDispose c (MkOwnedCall g k) ~> r)) ->
    mwp I (close_fiber (V := V) d g) l h (fun _ l' h' => closed_post g lost' l h l' h')
      (fun x l' h' => if fatal x then broken_post (eq g) lost' l h l' h' else is_cleanup x /\ closed_post g lost' l h l' h')) ->
  (forall h' c k r, h ⊆ h' -> I h' (QDispose c (MkOwnedCall f k) ~> r)) ->
  (forall before g after h' c k r, reverse (targets fb) = before ++ g :: after -> h ⊆ h' ->
    (forall g' c' oc, g' ∈ before -> mg_calls l !! c' = Some oc -> oc_fiber oc = g' -> disposed h' c' oc \/ lost c' oc) ->
    I h' (QDispose c (MkOwnedCall g k) ~> r)) ->
  mwp I (close_fiber (S d) f) l h (fun _ l' h' => unwound_post (family f fb) f (targets fb) lost l h l' h')
    (fun x l' h' => if fatal x then broken_post (family f fb) lost l h l' h'
                    else is_cleanup x /\ unwound_post (family f fb) f (targets fb) lost l h l' h').
Proof.
  intros Hf Ho Hn Hw Ha Hcl HI HIn. pose proof (unwinding_starts _ _ _ _ _ Hf Ho Hn Hw Ha) as Hl.
  unfold mwp. cbn [close_fiber]. rewrite Hf. destruct (Fiber.close_begin fb) as [fb1 start] eqn:Hb.
  assert (start = Unwind (reverse (Fiber.pf_effects fb))) as -> by (unfold Fiber.close_begin in Hb; rewrite Ho in Hb; congruence).
  simpl in Hl. set (es := reverse (Fiber.pf_effects fb)) in *.
  assert (Hpm : omap target es ≡ₚ targets fb) by apply targets_reverse.
  assert (Hfam : forall g, g = f \/ g ∈ omap target es -> family f fb g) by (intros g [->|Hg]; [by left|right]; by rewrite <- Hpm).
  assert (Hloop : mwp I (foreach (dispose_one (close_fiber d) f) [] es) (set_fiber f fb1 l) h
            (fun _ l' h' => looping f es l h lost es [] l' h')
            (fun x l' h' => fatal x = true /\ broken_post (fun g => g = f \/ g ∈ omap target es) lost l h l' h')).
  { apply unwind_loop_wp; [intros g Hg; by eapply family_is| | | | | |done].
    - rewrite Hpm. intros Hg. apply Hn. by exists f, fb.
    - rewrite Hpm. by eapply wf_targets.
    - intros lost' g l1 h1 fg Hg. apply Hcl. by rewrite <- Hpm.
    - done.
    - intros dn e rest g h' c k r Hes Hd Hsub Hdone. eapply (HIn (omap target dn) g (omap target rest)); [|done|done].
      unfold targets. rewrite <- omap_reverse. fold es. rewrite Hes, omap_app. simpl. unfold target at 2. by rewrite Hd. }
  change (mwp I (do failures <- foreach (dispose_one (close_fiber d) f) [] es in
               do _ <- update (close_finish f failures) in
               do r <- gets (cleanup_error f) in of_sum (raised r)) (set_fiber f fb1 l) h
    (fun _ l' h' => unwound_post (family f fb) f (targets fb) lost l h l' h')
    (fun x l' h' => if fatal x then broken_post (family f fb) lost l h l' h'
                    else is_cleanup x /\ unwound_post (family f fb) f (targets fb) lost l h l' h')).
  apply mwp_bind. eapply mwp_mono; [| |exact Hloop]; simpl.
  - intros failures l' h' Hl'. destruct (lp_closing _ _ _ _ _ _ _ _ _ Hl') as (fb2 & Hfb2 & Hst & He).
    assert (Hpost : unwound_post (family f fb) f (targets fb) lost l h (close_finish f failures l') h').
    { unfold close_finish. rewrite Hfb2. split_and!.
      - apply Hl'.
      - apply wf_emptied; [apply Hl'|done| |apply Hl']. simpl. intros y Hy. destruct failures as [|fl fs]; [by eapply (wf_errors l'); [apply Hl'|..]|]. injection Hy as <-. by eexists _, _.
      - eapply steady_then; [|eapply steady_weaken; [exact Hfam|apply Hl']|apply steady_set_fiber; [by left|done]].
        intros g [->|Hg]; [by eexists|]. destruct (wf_nested _ Hw _ _ _ Hf Hg) as (fg & Hfg & _). by eexists.
      - eexists. split; [apply set_fiber_at; by eexists|]. done.
      - intros g Hg. rewrite <- Hpm in Hg. destruct (lp_done _ _ _ _ _ _ _ _ _ Hl' g Hg) as (fg & Hfg & Hc). exists fg.
        simpl. rewrite list_lookup_insert_ne; [done|]. intros <-. congruence.
      - eapply accounted_set_fiber; [exact Hfb2|unfold is_open; congruence|]. eapply (accounted_mono _ _ h' h'); [done| |apply Hl'].
        intros c oc [?|(_ & e & Hin & _)]; [done|]. by apply not_elem_of_nil in Hin. }
    apply mwp_bind, mwp_update, mwp_bind, mwp_gets, mwp_of_sum; [by intros _ _|]. intros x Hx.
    unfold cleanup_error in Hx. destruct (mg_fibers (close_finish f failures l') !! f) as [fb3|] eqn:Hf3; [|done].
    simpl in Hx. destruct (Fiber.pf_cleanup_error fb3) as [y|] eqn:Hy; [|done]. injection Hx as ->.
    destruct (wf_errors _ (proj1 (proj2 Hpost)) _ _ _ Hf3 Hy) as (id & fs & ->). simpl. split; [by eexists _, _|exact Hpost].
  - intros x l' h' [Hx (H1 & H2 & H3 & H4)]. rewrite Hx. split_and!; [done|done|by apply (steady_weaken _ _ _ _ Hfam)|].
    eapply (accounted_mono _ _ h' h'); [done| |exact H4]. intros c oc [?|HFc]; [by left|right; by apply Hfam].
Qed.

Lemma leaf_targets fb : leaf fb -> targets fb = [].
Proof. apply calls_no_targets. Qed.

Lemma close_leaf_wp I d f lost l h fb :
  mg_fibers l !! f = Some fb -> is_open fb -> leaf fb -> ~ nested l f -> wf l -> accounted lost h l ->
  (forall h' c k r, h ⊆ h' -> I h' (QDispose c (MkOwnedCall f k) ~> r)) ->
  mwp I (close_fiber (V := V) (S d) f) l h (fun _ l' h' => closed_post f lost l h l' h')
    (fun x l' h' => if fatal x then broken_post (eq f) lost l h l' h' else is_cleanup x /\ closed_post f lost l h l' h').
Proof.
  intros Hf Ho Hl Hn Hw Ha HI. assert (Hfam : forall g, family f fb g -> f = g) by (intros g [->|Hg]; [done|]; rewrite leaf_targets in Hg by done; by apply not_elem_of_nil in Hg).
  assert (Hpost : forall l' h', unwound_post (family f fb) f (targets fb) lost l h l' h' -> closed_post f lost l h l' h').
  { intros l' h' (H1 & H2 & H3 & H4 & _ & H5). split_and!; [done|done|by apply (steady_weaken _ _ _ _ Hfam)|done|done]. }
  eapply mwp_mono; [| |eapply close_fiber_wp; [done|done|done|done|done| |done|]].
  - intros [] l' h'. apply Hpost.
  - simpl. intros x l' h' Hp. destruct (fatal x); [|destruct Hp; auto]. destruct Hp as (H1 & H2 & H3 & H4).
    split_and!; [done|done|by apply (steady_weaken _ _ _ _ Hfam)|]. eapply (accounted_mono _ _ h' h'); [done| |exact H4]. intros c oc [?|HF]; [by left|right; by apply Hfam].
  - intros lost' g l1 h1 fg Hg. rewrite leaf_targets in Hg by done. by apply not_elem_of_nil in Hg.
  - intros before g after h' c k r Heq. rewrite leaf_targets in Heq by done. by destruct before.
Qed.

(** [close] of an activation fiber: nested fibers are closed newest first. *)
Lemma close_wp I f lost l h fb :
  mg_fibers l !! f = Some fb -> is_open fb -> ~ nested l f -> wf l -> accounted lost h l ->
  (forall h' c k r, h ⊆ h' -> I h' (QDispose c (MkOwnedCall f k) ~> r)) ->
  (forall before g after h' c k r, reverse (targets fb) = before ++ g :: after -> h ⊆ h' ->
    (forall g' c' oc, g' ∈ before -> mg_calls l !! c' = Some oc -> oc_fiber oc = g' -> disposed h' c' oc \/ lost c' oc) ->
    I h' (QDispose c (MkOwnedCall g k) ~> r)) ->
  mwp I (PluginManager.close f) l h (fun _ l' h' => unwound_post (family f fb) f (targets fb) lost l h l' h')
    (fun x l' h' => if fatal x then broken_post (family f fb) lost l h l' h'
                    else is_cleanup x /\ unwound_post (family f fb) f (targets fb) lost l h l' h').
Proof.
  intros Hf Ho Hn Hw Ha HI HIn. unfold PluginManager.close. apply close_fiber_wp; try done.
  intros lost' g l1 h1 fg _ Hfg Hog Hlg Hng Hwg Hag HIg. by eapply close_leaf_wp.
Qed.
(** ** What was acquired must be owned *)

(** Events after which the manager owes somebody a [close] *)
Definition gives (e : ev) (oc : OwnedCall) : Prop :=
  let 'existT q a := e in
  match q return ans q -> Prop with
  | QLoad f _ | QLaunch f _ _ _ => fun a => a.2 = inr true /\ oc = MkOwnedCall f RuntimeClose
  | QPrepare f _ _ => fun a => a.2 = inr true /\ oc = MkOwnedCall f PreparedClose
  | _ => fun _ => False
  end a.

(** A publication whose handles match the registrations *)
Definition accepted (e : ev) (hs : list nat) : Prop :=
  let 'existT q a := e in
  match q return ans q -> Prop with
  | QPublish rs _ => fun a => a.2 = inr hs /\ length hs = length rs
  | _ => fun _ => False
  end a.

Definition acquired (owed : option OwnedCall) (h : list ev) (l : St) : Prop :=
  forall e oc, e ∈ h -> gives e oc -> oc ∈ mg_calls l \/ owed = Some oc.

Definition handles_owned (h : list ev) (l : St) : Prop :=
  forall e hs n, e ∈ h -> accepted e hs -> n ∈ hs -> exists f, MkOwnedCall f (HandleRevoke n) ∈ mg_calls l.

(** The plugin [f] was loaded from source [s]. *)
Definition loaded (h : list ev) (f : nat) (s : VerifiedPluginSource) : Prop :=
  exists e, e ∈ h /\ match projT1 e with
    | QLoad g s' => g = f /\ s' = s
    | QLaunch g _ d _ => g = f /\ ld_manifest d = vs_manifest s
    | _ => False
    end.

Definition exported_by (h : list ev) (f : nat) (service : string) (v : V) : Prop :=
  exists acts d, (QExports f ~> (acts, inr (Some d))) ∈ h /\ (service, v) ∈ d.

Lemma loaded_mono h h' f s : h ⊆ h' -> loaded h f s -> loaded h' f s.
Proof. intros Hs (e & He & Hm). exists e. split; [by apply Hs|done]. Qed.

Lemma exported_mono h h' f k v : h ⊆ h' -> exported_by h f k v -> exported_by h' f k v.
Proof. intros Hs (acts & d & He & Hm). exists acts, d. split; [by apply Hs|done]. Qed.

(** Fibers below [n] are as they were, but for calls that plugins added. *)
Record kept (n : nat) (l l' : St) : Prop := MkKept {
  kp_active : mg_active l' = mg_active l;
  kp_calls : mg_calls l `prefix_of` mg_calls l';
  kp_length : length (mg_fibers l) <= length (mg_fibers l');
  kp_fibers : forall f fb, f < n -> mg_fibers l !! f = Some fb -> exists fb' new, mg_fibers l' !! f = Some fb' /\
    Fiber.pf_state fb' = Fiber.pf_state fb /\ Fiber.pf_cleanup_error fb' = Fiber.pf_cleanup_error fb /\
    Fiber.pf_effects fb' = Fiber.pf_effects fb ++ new /\ Forall is_call new /\ (is_open fb \/ new = []);
}.

Lemma kept_refl n l : kept n l l.
Proof. split; [done|done|done|]. intros f fb _ Hf. exists fb, []. rewrite app_nil_r. split_and!; [done..|constructor|by right]. Qed.

Lemma kept_trans n l1 l2 l3 : kept n l1 l2 -> kept n l2 l3 -> kept n l1 l3.
Proof.
  intros [A1 P1 L1 G1] [A2 P2 L2 G2]. split; [congruence|by etransitivity|lia|].
  intros f fb Hn Hf. destruct (G1 f fb Hn Hf) as (fb1 & n1 & Hf1 & Hs1 & He1 & Heff1 & Hc1 & Ho1).
  destruct (G2 f fb1 Hn Hf1) as (fb2 & n2 & Hf2 & Hs2 & He2 & Heff2 & Hc2 & Ho2). exists fb2, (n1 ++ n2).
  split_and!; [done|congruence|congruence|by rewrite Heff2, Heff1, app_assoc|by apply Forall_app|].
  unfold is_open in *. rewrite Hs1 in Ho2. destruct Ho1 as [?| ->]; [by left|]. destruct Ho2 as [?| ->]; [by left|by right].
Qed.

Lemma kept_lengths (l l' : St) : (forall f, is_Some (mg_fibers l !! f) -> is_Some (mg_fibers l' !! f)) -> length (mg_fibers l) <= length (mg_fibers l').
Proof.
  intros Hk. destruct (decide (length (mg_fibers l) = 0)) as [|Hn]; [lia|].
  assert (Hlt : is_Some (mg_fibers l' !! (length (mg_fibers l) - 1))) by (apply Hk, lookup_lt_is_Some; lia). apply lookup_lt_is_Some in Hlt. lia.
Qed.

Lemma kept_steady n (F : nat -> Prop) l l' : (forall f, F f -> n <= f) -> steady F l l' -> kept n l l'.
Proof.
  intros HF [A C P G N K _]. split; [done|done|by apply kept_lengths|]. intros f fb Hlt. apply G. intros HFf%HF. lia.
Qed.

Lemma kept_set_fiber n f fb (l : St) : n <= f -> kept n l (set_fiber f fb l).
Proof.
  intros Hle. split; simpl; [done|done|by rewrite length_insert|]. intros f1 fb1 Hlt Hf1. exists fb1, [].
  rewrite list_lookup_insert_ne, app_nil_r by lia. split_and!; [done..|constructor|by right].
Qed.

Lemma kept_calm n l l' : calm l l' -> kept n l l'.
Proof. intros Hc. apply (kept_steady n (fun _ => False)); [done|by apply calm_steady]. Qed.

Lemma acquired_calm owed h l l' : mg_calls l `prefix_of` mg_calls l' -> acquired owed h l -> acquired owed h l'.
Proof. intros [k Hk] Ha e oc He Hg. destruct (Ha e oc He Hg) as [?|?]; [left; rewrite Hk; set_solver|by right]. Qed.

Lemma handles_calm h l l' : mg_calls l `prefix_of` mg_calls l' -> handles_owned h l -> handles_owned h l'.
Proof. intros [k Hk] Ha e hs n He Hg Hn. destruct (Ha e hs n He Hg Hn) as [f ?]. exists f. rewrite Hk. set_solver. Qed.
(** ** Adding a fiber to an activation fiber *)
Record quiet (l l' : St) : Prop := MkQuiet { qt_calm : calm l l'; qt_length : length (mg_fibers l') = length (mg_fibers l) }.

Lemma own_call_quiet f label k (l l' : St) : own_call f label k l = inr l' -> quiet l l'.
Proof. intros Ho. split; [by eapply own_call_calm|]. apply own_call_inr in Ho as (fb & fb' & _ & _ & _ & _ & _ & ->). simpl. by rewrite length_insert. Qed.

Lemma perform_quiet (l : St) a : quiet l (perform l a).
Proof.
  split; [apply perform_calm|]. destruct a as [i label n|i kind id v|j]; simpl.
  - destruct (mg_contexts l !! i); [|done]. destruct (own_call _ _ _ l) eqn:Ho; [done|]. exact (qt_length _ _ (own_call_quiet _ _ _ _ _ Ho)).
  - destruct (mg_contexts l !! i) as [[]|]; [done| |done]. by destruct (contribute _ _ _ _).
  - by destruct (mg_pending l !! j) as [[? ? []]|].
Qed.

Lemma quiet_trans l1 l2 l3 : quiet l1 l2 -> quiet l2 l3 -> quiet l1 l3.
Proof. intros [C1 L1] [C2 L2]. split; [by eapply calm_trans|congruence]. Qed.

Lemma performs_quiet (l : St) acts : quiet l (performs l acts).
Proof.
  unfold performs. revert l. induction acts as [|a acts IH]; intros l; simpl; [split; [apply calm_refl|done]|].
  eapply quiet_trans; [apply perform_quiet|apply IH].
Qed.

Lemma add_context_quiet c (l : St) : quiet l (add_context c l).
Proof. split; [apply calm_add_context|done]. Qed.

Lemma own_close_wf f g label (l l' : St) fg : own f label (CloseOf g) l = inr l' -> mg_fibers l !! g = Some fg -> is_open fg -> leaf fg ->
  ~ nested l g -> ~ nested l f -> f < g -> wf l -> wf l'.
Proof.
  intros (fb & fb' & Hf & Hp & Hp' & Hcl & He & ->)%own_inr Hg Hog Hlg Hng Hnf Hlt [Hca Hex Hnt Hta Hun Hbe Hkn Her].
  assert (Hne : g <> f) by lia. assert (Ht : targets fb' = targets fb ++ [g]) by (rewrite (targets_app _ _ _ He); done).
  assert (Hin : forall e, e ∈ Fiber.pf_effects fb' -> e ∈ Fiber.pf_effects fb \/ oe_dispose e = CloseOf g).
  { intros e. rewrite He. intros [?| ->%list_elem_of_singleton]%elem_of_app; [by left|by right]. }
  split.
  - intros f1 fb1 e c [(-> & -> & _)|[_ Hf1]]%set_fiber_lookup Hin1 Hd; [|by eapply Hca]. destruct (Hin e Hin1) as [?|?]; [by eapply Hca|congruence].
  - intros f1 fb1 e n [(-> & -> & _)|[_ Hf1]]%set_fiber_lookup Hin1; [|exact (Hex _ _ _ _ Hf1 Hin1)]. destruct (Hin e Hin1) as [Ho|?]; [exact (Hex _ _ _ _ Hf Ho)|congruence].
  - intros f1 fb1 x Hl Hx. assert (Hcase : (exists fb0, mg_fibers l !! f1 = Some fb0 /\ x ∈ targets fb0) \/ x = g).
    { apply set_fiber_lookup in Hl as [(-> & -> & _)|[_ Hf1]]; [|by left; eauto]. rewrite Ht in Hx. apply elem_of_app in Hx as [?|?%list_elem_of_singleton]; [left; eauto|by right]. }
    assert (Hxf : x <> f) by (intros ->; destruct Hcase as [(fb0 & Hf0 & Hx0)| ->]; [apply Hnf; by exists f1, fb0|done]).
    destruct Hcase as [(fb0 & Hf0 & Hx0)| ->]; [|exists fg; simpl; by rewrite list_lookup_insert_ne].
    destruct (Hnt _ _ _ Hf0 Hx0) as (fx & Hfx & Hr). exists fx. simpl. by rewrite list_lookup_insert_ne.
  - intros f1 fb1 [(-> & -> & _)|[_ Hf1]]%set_fiber_lookup; [|by eapply Hta]. rewrite Ht. apply NoDup_app. split_and!; [by eapply Hta| |apply NoDup_singleton].
    intros x Hx ->%list_elem_of_singleton. apply Hng. by exists f, fb.
  - intros f1 fb1 f2 fb2 x Hl1 Hl2 Hx1 Hx2. assert (Hcase : forall f0 fb0, mg_fibers (set_fiber f fb' l) !! f0 = Some fb0 -> x ∈ targets fb0 ->
      (exists fb3, mg_fibers l !! f0 = Some fb3 /\ x ∈ targets fb3) \/ (f0 = f /\ x = g)).
    { intros f0 fb0 [(-> & -> & _)|[_ Hf0]]%set_fiber_lookup Hx; [|by left; eauto]. rewrite Ht in Hx. apply elem_of_app in Hx as [?|?%list_elem_of_singleton]; [left; eauto|by right]. }
    destruct (Hcase _ _ Hl1 Hx1) as [(fb3 & H3 & Hx3)|[-> ->]], (Hcase _ _ Hl2 Hx2) as [(fb4 & H4 & Hx4)|[-> Hg4]]; try done.
    + by eapply Hun.
    + subst. exfalso. apply Hng. by exists f1, fb3.
    + exfalso. apply Hng. by exists f2, fb4.
  - intros f1 fb1 x [(-> & -> & _)|[_ Hf1]]%set_fiber_lookup Hx; [|by eapply Hbe]. rewrite Ht in Hx. apply elem_of_app in Hx as [Hx|Hx]; [by eapply Hbe|].
    by apply list_elem_of_singleton in Hx as ->.
  - intros c oc Hc. apply set_fiber_known. by eapply Hkn.
  - intros f1 fb1 x [(-> & -> & _)|[_ Hf1]]%set_fiber_lookup; [rewrite Hcl|]; by eapply Her.
Qed.
(** Closing makes no fibers. *)
Lemma performs_length (l : St) acts : length (mg_fibers (performs l acts)) = length (mg_fibers l).
Proof. apply qt_length, performs_quiet. Qed.

Lemma close_finish_length f failures (l : St) : length (mg_fibers (close_finish f failures l)) = length (mg_fibers l).
Proof. unfold close_finish. destruct (mg_fibers l !! f); [simpl; by rewrite length_insert|done]. Qed.

Lemma close_makes_no_fibers d f (l : St) h : mwp (fun _ _ => True) (close_fiber (V := V) d f) l h
  (fun _ l' _ => length (mg_fibers l') = length (mg_fibers l)) (fun _ l' _ => length (mg_fibers l') = length (mg_fibers l)).
Proof.
  revert f l h. induction d as [|d IH]; intros f l h; [done|]. unfold mwp. cbn [close_fiber]. destruct (mg_fibers l !! f) as [fb|]; [|done].
  destruct (Fiber.close_begin fb) as [fb1 start]. assert (Hl1 : length (mg_fibers (set_fiber f fb1 l)) = length (mg_fibers l)) by apply length_insert.
  revert Hl1. generalize (set_fiber f fb1 l) as l1. intros l1 Hl1. rewrite <- Hl1. clear Hl1 l. destruct start as [r| |effects].
  - by destruct r.
  - change (mwp (fun _ _ => True) (do _ <- wait_closed f in do r <- gets (cleanup_error f) in of_sum (raised r)) l1 h
      (fun _ l' _ => length (mg_fibers l') = length (mg_fibers l1)) (fun _ l' _ => length (mg_fibers l') = length (mg_fibers l1))).
    apply mwp_bind, mwp_call. intros acts. split; [done|]. simpl. apply mwp_bind, mwp_gets, mwp_of_sum; intros; apply performs_length.
  - change (mwp (fun _ _ => True) (do failures <- foreach (dispose_one (close_fiber d) f) [] effects in do _ <- update (close_finish f failures) in
      do r <- gets (cleanup_error f) in of_sum (raised r)) l1 h
      (fun _ l' _ => length (mg_fibers l') = length (mg_fibers l1)) (fun _ l' _ => length (mg_fibers l') = length (mg_fibers l1))).
    apply mwp_bind. eapply (mwp_foreach _ (fun _ _ l' _ => length (mg_fibers l') = length (mg_fibers l1))); [done| |].
    + intros _ e _ failures l' h' _ Hl'. rewrite <- Hl'. apply mwp_catch, mwp_bind.
      eapply (mwp_mono _ _ _ _ (fun _ l2 _ => length (mg_fibers l2) = length (mg_fibers l')) _ (fun _ l2 _ => length (mg_fibers l2) = length (mg_fibers l'))); [by intros; apply mwp_ret| |].
      * simpl. intros x l2 h2 Hl2. destruct (fatal x); [|done]. unfold mwp. simpl. etransitivity; [apply close_finish_length|exact Hl2].
      * unfold dispose. destruct (oe_dispose e) as [c|n|g]; [|done|apply IH]. unfold mwp. destruct (mg_calls l' !! c) as [k|]; [|done].
        intros [acts r]. split; [done|]. unfold wp. simpl. destruct r; apply performs_length.
    + intros failures l' h' Hl'. apply mwp_bind, mwp_update, mwp_bind, mwp_gets, mwp_of_sum; intros; (etransitivity; [apply close_finish_length|exact Hl']).
Qed.
(** ** Building a set *)
Section Building.
Context (launchers : list TrustMode) (plan : PluginPlan) (ls : St) (lost : nat -> OwnedCall -> Prop) (af : nat).

(** What holds throughout a build, from the creation of its activation fiber [af] *)
Record core (owed : option OwnedCall) (l : St) (h : list ev) : Prop := MkCore {
  co_wf : wf l;
  co_accounted : accounted lost h l;
  co_fiber : exists fb, mg_fibers l !! af = Some fb /\ is_open fb /\
    (forall f, is_Some (mg_fibers l !! f) -> af < f -> f ∈ targets fb) /\ (forall g, g ∈ targets fb -> af < g);
  co_unowned : ~ nested l af;
  co_kept : kept af ls l;
  co_acquired : acquired owed h l;
  co_unpublished : forall e hs, e ∈ h -> ~ accepted e hs;
}.

Abbreviation Exported := (dict string (VerifiedPluginSource * V)).

(** Exports come from plugins that were loaded before. *)
Definition exports_ok (h : list ev) (dn : list VerifiedPluginSource) (exported : Exported) : Prop :=
  forall service s v, dget service exported = Some (s, v) -> s ∈ dn /\ exists f, loaded h f s /\ exported_by h f service v.

Definition state_ok (l : St) (p : PreparedState) : Prop :=
  MkOwnedCall (ps_fiber p) RuntimeClose ∈ mg_calls l /\ MkOwnedCall (ps_fiber p) PreparedClose ∈ mg_calls l /\
  exists c, mg_contexts l !! ps_context p = Some (ActivateContext (ps_fiber p) c) /\ ac_identity c = ps_identity p /\
    ac_manifest c = vs_manifest (ps_source p).

Record stage (owed : option OwnedCall) (fs : list nat) (dn : list VerifiedPluginSource) (exported : Exported) (states : list PreparedState)
    (l : St) (h : list ev) : Prop := MkStage {
  sg_core : core owed l h;
  sg_targets : forall fb, mg_fibers l !! af = Some fb -> targets fb = fs;
  sg_states : Forall (state_ok l) states;
  sg_sources : ps_source <$> states = dn;
  sg_exported : exports_ok h dn exported;
}.

(** The service of a requirement and what it was bound to *)
Definition bound (h : list ev) (dn : list VerifiedPluginSource) (r : ResolvedRequirement) (b : option (ProviderBinding (V := V))) : Prop :=
  let service := rq_service (rr_requirement r) in
  match rr_provider_plugin_id r with
  | None => b = None
  | Some _ => exists b' s f, b = Some b' /\ pb_service b' = service /\ s ∈ dn /\ pb_provider_plugin_id b' = plugin_id s /\
      MkProvidedService service (pb_version b') ∈ pm_provides (vs_manifest s) /\ loaded h f s /\ exported_by h f service (pb_value b')
  end.

(** What is injected into plugin [f] *)
Definition injected (h : list ev) (f : nat) (bs : dict string (option (ProviderBinding (V := V)))) : Prop :=
  exists dn s rest rs, pp_sources plan = dn ++ s :: rest /\ loaded h f s /\ dget (plugin_id s) (pp_bindings plan) = Some rs /\
    (forall service b, dget service bs = Some b -> exists r, r ∈ rs /\ rq_service (rr_requirement r) = service /\ bound h dn r b) /\
    (forall r, r ∈ rs -> is_Some (dget (rq_service (rr_requirement r)) bs)).

Definition guard (h : list ev) (e : ev) : Prop :=
  match projT1 e with
  | QDispose c oc => af <= oc_fiber oc
  | QLoad f _ | QLaunch f _ _ _ => af < f
  | QPrepare f _ bs => af < f /\ injected h f bs
  | _ => True
  end.

Definition harmless (e : ev) : Prop := (forall oc, ~ gives e oc) /\ forall hs, ~ accepted e hs.

Lemma core_quiet owed l h l' : core owed l h -> quiet l l' -> core owed l' h.
Proof.
  intros [Hw Ha (fb & Hf & Ho & Hall & Hab) Hu Hk Hq Hp] [Hc Hlen]. destruct (cm_fibers _ _ Hc _ _ Hf) as (fb' & new & Hf' & Hs & _ & He & Hnew & _).
  assert (Ht : targets fb' = targets fb) by (by rewrite (targets_app _ _ _ He), (calls_no_targets new Hnew), app_nil_r). split.
  - by apply (cm_wf _ _ Hc).
  - by eapply accounted_calm.
  - exists fb'. unfold is_open in *. rewrite Hs, Ht. split_and!; [done..| |done]. intros f Hf1. apply Hall. apply lookup_lt_is_Some in Hf1. apply lookup_lt_is_Some. lia.
  - by intros Hn%(nested_calm _ _ _ Hc).
  - eapply kept_trans; [done|by apply kept_calm].
  - eapply acquired_calm; [apply Hc|done].
  - done.
Qed.

Lemma core_event owed e l h : harmless e -> core owed l h -> core owed l (e :: h).
Proof.
  intros [Hg Hac] [Hw Ha Hf Hu Hk Hq Hp]. split; try done.
  - eapply accounted_mono; [|done|done]. set_solver.
  - intros e' oc [->|He]%elem_of_cons Hge; [by apply Hg in Hge|by eapply Hq].
  - intros e' hs [->|He]%elem_of_cons; [apply Hac|by apply Hp].
Qed.

Lemma core_gives oc e l h : (forall oc', gives e oc' -> oc' = oc) -> (forall hs, ~ accepted e hs) -> core None l h -> core (Some oc) l (e :: h).
Proof.
  intros Hg Hac [Hw Ha Hf Hu Hk Hq Hp]. split; try done.
  - eapply accounted_mono; [|done|done]. set_solver.
  - intros e' oc' [->|He]%elem_of_cons Hge; [right; f_equal; symmetry; by apply Hg|]. destruct (Hq e' oc' He Hge) as [?|[=]]. by left.
  - intros e' hs [->|He]%elem_of_cons; [apply Hac|by apply Hp].
Qed.

Lemma core_paid f k l h : MkOwnedCall f k ∈ mg_calls l -> core (Some (MkOwnedCall f k)) l h -> core None l h.
Proof.
  intros Hin [Hw Ha Hf Hu Hk Hq Hp]. split; try done. intros e oc He Hg. destruct (Hq e oc He Hg) as [?|[= <-]]; by left.
Qed.

Lemma state_ok_calm l l' p : calm l l' -> state_ok l p -> state_ok l' p.
Proof.
  intros Hc (Hr & Hp & c & Hctx & Hid & Hm). destruct (cm_calls _ _ Hc) as [k Hk]. split_and!; [rewrite Hk; set_solver..|].
  destruct (cm_contexts _ _ Hc _ _ Hctx) as (c' & Hctx' & Hsh). destruct c' as [c'|f' c']; [done|]. injection Hsh as -> Hid' Hm'. exists c'. by rewrite Hctx', Hid', Hm'.
Qed.

Lemma exports_mono h h' dn exported : h ⊆ h' -> exports_ok h dn exported -> exports_ok h' dn exported.
Proof.
  intros Hs He service s v Hd. destruct (He service s v Hd) as (Hin & f & Hl & Hx). split; [done|]. exists f. split; [by eapply loaded_mono|by eapply exported_mono].
Qed.

Lemma stage_quiet owed fs dn exported states l h l' : stage owed fs dn exported states l h -> quiet l l' -> stage owed fs dn exported states l' h.
Proof.
  intros [Hc Ht Hs Hd He] Hq. split; [by eapply core_quiet| | |done|done].
  - intros fb' Hf'. destruct (co_fiber _ _ _ Hc) as (fb & Hf & _). destruct (cm_fibers _ _ (qt_calm _ _ Hq) _ _ Hf) as (fb1 & new & Hf1 & _ & _ & Heff & Hnew & _).
    assert (fb1 = fb') as -> by congruence. rewrite (targets_app _ _ _ Heff), (calls_no_targets new Hnew), app_nil_r. by apply Ht.
  - eapply Forall_impl; [exact Hs|]. intros p. apply state_ok_calm, Hq.
Qed.

Lemma stage_core owed owed' fs dn exported states l h e : stage owed fs dn exported states l h -> core owed' l (e :: h) -> stage owed' fs dn exported states l (e :: h).
Proof. intros [Hc Ht Hs Hd He] Hc'. split; try done. eapply exports_mono; [|done]. set_solver. Qed.

Lemma stage_event owed fs dn exported states e l h : harmless e -> stage owed fs dn exported states l h -> stage owed fs dn exported states l (e :: h).
Proof. intros Hh Hs. eapply stage_core; [done|]. apply core_event; [done|apply Hs]. Qed.

(** A plugin fiber of this build is open. *)
Lemma stage_open owed fs dn exported states l h f : stage owed fs dn exported states l h -> f ∈ fs -> exists fb, mg_fibers l !! f = Some fb /\ is_open fb /\ leaf fb.
Proof.
  intros Hs Hf. destruct (co_fiber _ _ _ (sg_core _ _ _ _ _ _ _ Hs)) as (fb & Hfb & _). eapply (wf_nested _ (co_wf _ _ _ (sg_core _ _ _ _ _ _ _ Hs)) af fb); [done|].
  by rewrite (sg_targets _ _ _ _ _ _ _ Hs fb Hfb).
Qed.

Lemma stage_above owed fs dn exported states l h f : stage owed fs dn exported states l h -> f ∈ fs -> af < f.
Proof.
  intros Hs Hf. destruct (co_fiber _ _ _ (sg_core _ _ _ _ _ _ _ Hs)) as (fb & Hfb & _ & _ & Hab). apply Hab. by rewrite (sg_targets _ _ _ _ _ _ _ Hs fb Hfb).
Qed.

(** An effect is owned by a plugin fiber: this cannot fail. *)
Lemma own_call_wp owed fs dn exported states l h h2 f label k (R : unit -> St -> list ev -> Prop) E :
  stage owed fs dn exported states l h -> f ∈ fs -> is_blank label = false ->
  (forall l', stage owed fs dn exported states l' h -> quiet l l' -> MkOwnedCall f k ∈ mg_calls l' -> R tt l' h2) ->
  mwp guard (lift_state (own_call f label k)) l h2 R E.
Proof.
  intros Hs Hf Hb HR. destruct (stage_open _ _ _ _ _ _ _ _ Hs Hf) as (fb & Hfb & Ho & _). destruct (own_call_total f label k l fb Hfb Ho Hb) as [l' Hl'].
  unfold mwp, lift_state. rewrite Hl'. unfold wp. simpl. apply HR; [eapply stage_quiet; [done|]; by eapply own_call_quiet|by eapply own_call_quiet|].
  apply own_call_inr in Hl' as (fb1 & fb2 & _ & _ & _ & _ & _ & ->). simpl. set_solver.
Qed.

Lemma new_fiber_wp I id (R : nat -> St -> list ev -> Prop) E l h : is_blank id = false ->
  (forall fb, is_open fb -> Fiber.pf_effects fb = [] -> Fiber.pf_cleanup_error fb = None ->
     R (length (mg_fibers l)) (MkState (mg_fibers l ++ [fb]) (mg_calls l) (mg_contexts l) (mg_pending l) (mg_active l)) h) ->
  mwp I (new_fiber (V := V) id) l h R E.
Proof. intros Hb HR. unfold mwp, new_fiber, Fiber.plugin_fiber. rewrite Hb. unfold wp. simpl. by apply HR. Qed.

Lemma accounted_own lost' h f label d (l l' : St) : own f label d l = inr l' -> accounted lost' h l -> accounted lost' h l'.
Proof.
  intros (fb & fb' & Hf & Ho & Ho' & _ & He & ->)%own_inr Ha c oc Hc. destruct (Ha c oc Hc) as [(fb1 & e & Hf1 & Ho1 & He1 & Hd)|Hr]; [left|by right].
  destruct (decide (oc_fiber oc = f)) as [Heq|Hne].
  - exists fb', e. rewrite Heq in *. rewrite set_fiber_at by (by eexists). assert (fb1 = fb) as -> by congruence. rewrite He. split_and!; [done..|set_solver|done].
  - exists fb1, e. simpl. by rewrite list_lookup_insert_ne.
Qed.

(** A new plugin fiber is owned at once. *)
Lemma fork_wp {A : Type} fs dn exported states l h id label (k : nat -> M A) (R : A -> St -> list ev -> Prop) E :
  stage None fs dn exported states l h -> is_blank id = false -> is_blank label = false ->
  (forall l' f, stage None (fs ++ [f]) dn exported states l' h -> mwp guard (k f) l' h R E) ->
  mwp guard (do f <- new_fiber id in do _ <- lift_state (own af label (CloseOf f)) in k f) l h R E.
Proof.
  intros [[Hw Ha (fb & Hf & Ho & Hall & Hab) Hu Hk Hq Hp] Ht Hs Hd He] Hid Hb HR. apply mwp_bind, new_fiber_wp; [done|].
  intros fb0 Ho0 He0 Hc0. set (f := length (mg_fibers l)). set (l1 := MkState _ _ _ _ _).
  pose proof (new_fiber_calm l fb0 Ho0 He0 Hc0) as Hcalm. fold l1 in Hcalm. assert (Hf1 : mg_fibers l1 !! af = Some fb) by (by apply lookup_app_l_Some).
  assert (Hlt : af < f) by (by eapply lookup_lt_Some). assert (Hf0 : mg_fibers l1 !! f = Some fb0) by (by apply list_lookup_middle).
  assert (Hnf : ~ nested l1 f).
  { intros (f2 & fb2 & Hf2 & Hx)%(nested_calm _ _ _ Hcalm). destruct (wf_nested _ Hw _ _ _ Hf2 Hx) as (fx & Hfx & _). apply lookup_lt_Some in Hfx. unfold f in Hfx. lia. }
  assert (Hna : ~ nested l1 af) by (by intros Hn%(nested_calm _ _ _ Hcalm)).
  destruct (own_total af label (CloseOf f) l1 fb Hf1 Ho Hb) as [l2 Hl2]. apply mwp_bind. unfold mwp, lift_state. rewrite Hl2. unfold wp. simpl. apply HR.
  pose proof (accounted_own _ _ _ _ _ _ _ Hl2 (accounted_calm _ _ _ _ Hcalm Ha)) as Ha2.
  assert (Hw2 : wf l2) by (eapply own_close_wf; [exact Hl2|exact Hf0|done|by unfold leaf; rewrite He0|done|done|lia|by apply Hcalm]).
  apply own_inr in Hl2 as (fb1 & fb2 & Hfb1 & _ & Ho2 & _ & He2 & ->). assert (fb1 = fb) as -> by congruence.
  assert (Ht2 : targets fb2 = fs ++ [f]) by (rewrite (targets_app _ _ _ He2), <- (Ht fb Hf); done).
  assert (Hat : mg_fibers (set_fiber af fb2 l1) !! af = Some fb2) by (apply set_fiber_at; by eexists). split; [split|..]; try done.
  - exists fb2. rewrite Ht2. split_and!; [done|done| |].
    + intros f' [fb' Hf'] Hgt. apply set_fiber_lookup in Hf' as [(-> & _)|[_ Hf']]; [lia|]. unfold l1 in Hf'. simpl in Hf'.
      apply lookup_app_Some in Hf' as [Hf'|[Hge Hf']]; [rewrite <- (Ht fb Hf); apply elem_of_app; left; apply Hall; [by eexists|done]|].
      apply list_lookup_singleton_Some in Hf' as [Hz _]. apply elem_of_app. right. apply list_elem_of_singleton. unfold f. lia.
    + intros g [Hg|Hg]%elem_of_app; [apply Hab; by rewrite (Ht fb Hf)|]. apply list_elem_of_singleton in Hg. lia.
  - intros (f2 & fb3 & Hf2 & Hx). apply set_fiber_lookup in Hf2 as [(-> & -> & _)|[_ Hf2]]; [|apply Hna; by exists f2, fb3].
    rewrite Ht2 in Hx. apply elem_of_app in Hx as [Hx|Hx]; [|apply list_elem_of_singleton in Hx; lia]. apply Hu. exists af, fb. by rewrite (Ht fb Hf).
  - eapply kept_trans; [exact Hk|]. eapply kept_trans; [by apply kept_calm|]. by apply kept_set_fiber.
  - intros fb3 Hf3. congruence.
Qed.

(** ** Loading, preparing, exporting *)
Lemma harmless_other q (a : ans q) : match q with QLoad _ _ | QLaunch _ _ _ _ | QPrepare _ _ _ | QPublish _ _ => False | _ => True end -> harmless (q ~> a).
Proof. destruct q; intros Hq; try (by destruct Hq); (split; [by intros oc Hg|by intros hs Hg]). Qed.

Lemma harmless_refused (e : ev) : match projT1 e as q return ans q -> Prop with
  | QLoad _ _ | QLaunch _ _ _ _ | QPrepare _ _ _ => fun a => a.2 <> inr true
  | QPublish rs _ => fun a => forall hs, a.2 = inr hs -> length hs <> length rs
  | _ => fun _ => True
  end (projT2 e) -> harmless e.
Proof. destruct e as [q a]. destruct q; simpl; intros Hr; split; simpl; try naive_solver. Qed.

(** What an answer that makes [oc] owed leaves *)
Lemma stage_given fs dn exported states l h e oc : (forall oc', gives e oc' -> oc' = oc) -> (forall hs, ~ accepted e hs) ->
  stage None fs dn exported states l h -> stage (Some oc) fs dn exported states l (e :: h).
Proof. intros Hg Ha Hs. eapply stage_core; [done|]. apply core_gives; [done|done|apply Hs]. Qed.

Definition owes (ok : bool) (oc : OwnedCall) : option OwnedCall := if ok then Some oc else None.

Ltac answered acts r :=
  apply mwp_call; intros [acts r]; (split; [done|]); simpl.

Lemma load_wp fs dn exported states l h f s identity : stage None fs dn exported states l h -> af < f ->
  mwp guard (load_runtime launchers f s identity) l h
    (fun ok l' h' => stage (owes ok (MkOwnedCall f RuntimeClose)) fs dn exported states l' h' /\ loaded h' f s)
    (fun _ l' h' => core None l' h').
Proof.
  intros Hs Hlt. unfold load_runtime. destruct (decide (pm_trust_mode (vs_manifest s) = TRUSTED_IN_PROCESS)).
  - answered acts r. destruct r as [x|[]]; simpl.
    + eapply sg_core, stage_quiet; [|apply performs_quiet]. apply stage_event; [by apply harmless_refused|done].
    + split; [|eexists; split; [by left|done]]. eapply stage_quiet; [|apply performs_quiet]. apply stage_given; [by intros oc [_ ->]|by intros hs Hac|done].
    + split; [|eexists; split; [by left|done]]. eapply stage_quiet; [|apply performs_quiet]. apply stage_event; [by apply harmless_refused|done].
  - destruct (decide (pm_trust_mode (vs_manifest s) ∈ launchers)); [|apply Hs]. answered acts r. destruct r as [x|[]]; simpl.
    + eapply sg_core, stage_quiet; [|apply performs_quiet]. apply stage_event; [by apply harmless_refused|done].
    + split; [|eexists; split; [by left|done]]. eapply stage_quiet; [|apply performs_quiet]. apply stage_given; [by intros oc [_ ->]|by intros hs Hac|done].
    + split; [|eexists; split; [by left|done]]. eapply stage_quiet; [|apply performs_quiet]. apply stage_event; [by apply harmless_refused|done].
Qed.

Lemma prepare_wp fs dn exported states l h f c bs : stage None fs dn exported states l h -> af < f -> injected h f bs ->
  mwp guard (prepare f c bs) l h
    (fun ok l' h' => stage (owes ok (MkOwnedCall f PreparedClose)) fs dn exported states l' h' /\ quiet l l' /\ h ⊆ h')
    (fun _ l' h' => core None l' h').
Proof.
  intros Hs Hlt Hi. answered acts r. destruct r as [x|[]]; simpl.
  - eapply sg_core, stage_quiet; [|apply performs_quiet]. apply stage_event; [by apply harmless_refused|done].
  - split_and!; [|apply performs_quiet|set_solver]. eapply stage_quiet; [|apply performs_quiet]. apply stage_given; [by intros oc [_ ->]|by intros hs Hac|done].
  - split_and!; [|apply performs_quiet|set_solver]. eapply stage_quiet; [|apply performs_quiet]. apply stage_event; [by apply harmless_refused|done].
Qed.

Lemma exports_wp fs dn exported states l h f : stage None fs dn exported states l h ->
  mwp guard (exports f) l h
    (fun d l' h' => stage None fs dn exported states l' h' /\ quiet l l' /\ h ⊆ h' /\
       match d with Some d => forall k v, (k, v) ∈ d -> exported_by h' f k v | None => True end)
    (fun _ l' h' => core None l' h').
Proof.
  intros Hs. answered acts r.
  assert (Hs' : stage None fs dn exported states (performs l acts) ((QExports f ~> (acts, r)) :: h)).
  { eapply stage_quiet; [|apply performs_quiet]. apply stage_event; [by apply harmless_other|done]. }
  destruct r as [x|d]; simpl; [apply Hs'|]. split_and!; [done|apply performs_quiet|set_solver|]. destruct d as [d|]; [|done].
  intros k v Hk. exists acts, d. split; [by left|done].
Qed.

(** The bindings of a source *)
Lemma bind_service_inr h dn exported r acc acc' : exports_ok h dn exported -> bind_service exported acc r = inr acc' ->
  exists b, acc' = dset (rq_service (rr_requirement r)) b acc /\ bound h dn r b.
Proof.
  intros He. unfold bind_service, bound. destruct (rr_provider_plugin_id r) as [q|]; [|intros [= <-]; by exists None].
  destruct (dget _ exported) as [[s' v]|] eqn:Hx; [|done]. destruct (List.find _ _) as [pv|] eqn:Hfind; [|done]. intros [= <-].
  apply List.find_some in Hfind as [Hin Hsv]. apply list_elem_of_In in Hin. apply bool_decide_eq_true in Hsv.
  destruct (He _ _ _ Hx) as (Hdn & f' & Hl' & Hex). eexists. split; [done|]. eexists _, s', f'. split_and!; [done|done|done|done| |done|done].
  simpl. rewrite <- Hsv. by destruct pv.
Qed.

Lemma bindings_injected h f s dn rest exported bs : pp_sources plan = dn ++ s :: rest -> loaded h f s -> exports_ok h dn exported ->
  bindings_of plan exported s = inr bs -> injected h f bs.
Proof.
  intros Hp Hl He Hb. unfold bindings_of in Hb. destruct (dget (plugin_id s) (pp_bindings plan)) as [rs|] eqn:Hrs; [|done].
  exists dn, s, rest, rs. split; [done|]. split; [done|]. split; [done|].
  refine (efold_ind (fun seen bs => (forall service b, dget service bs = Some b -> exists r, r ∈ seen /\ rq_service (rr_requirement r) = service /\ bound h dn r b)
      /\ forall r, r ∈ seen -> is_Some (dget (rq_service (rr_requirement r)) bs)) _ _ _ _ _ _ Hb).
  - split; [by intros service b|by intros r ?%not_elem_of_nil].
  - intros seen r rest' acc acc' Heq [IH1 IH2] (b & -> & Hbd)%(bind_service_inr h dn); [|done]. split.
    + intros service b' Hd. rewrite dget_dset in Hd. case_decide as Hk; [injection Hd as <-; exists r; split_and!; [set_solver|done|done]|].
      destruct (IH1 service b' Hd) as (r' & Hin & Hr'). exists r'. split; [set_solver|done].
    + intros r' [Hin|Hin]%elem_of_app; rewrite dget_dset; case_decide; [by eexists|by apply IH2|by eexists|].
      apply list_elem_of_singleton in Hin. by subst.
Qed.
Lemma made_wp I ok l h (R : unit -> St -> list ev -> Prop) (E : exc -> St -> list ev -> Prop) :
  (ok = true -> R tt l h) -> (forall x, ok = false -> E x l h) -> mwp I (of_sum (check_made ok)) l h R E.
Proof. intros HR HE. apply mwp_of_sum; [intros [] Hok|intros x Hok]; destruct ok; try done; auto. Qed.

Lemma stage_paid f k fs dn exported states l h : MkOwnedCall f k ∈ mg_calls l ->
  stage (Some (MkOwnedCall f k)) fs dn exported states l h -> stage None fs dn exported states l h.
Proof. intros Hin [Hc Ht Hs Hd He]. split; try done. by eapply core_paid. Qed.

Lemma quiet_calls (l l' : St) oc : quiet l l' -> oc ∈ mg_calls l -> oc ∈ mg_calls l'.
Proof. intros [Hc _] Hin. destruct (cm_calls _ _ Hc) as [k ->]. set_solver. Qed.

(** Second thoughts: what a plugin exports is read again, and may have changed. *)
Lemma exports_extend h dn s f exported (d : dict string V) : loaded h f s -> (forall k v, (k, v) ∈ d -> exported_by h f k v) ->
  exports_ok h dn exported -> exports_ok h (dn ++ [s]) (foldl (fun e kv => dset kv.1 (s, kv.2) e) exported d).
Proof.
  intros Hl Hd He. assert (Hz : exports_ok h (dn ++ [s]) exported).
  { intros service s' v' Hk. destruct (He service s' v' Hk) as [Hin Hr]. split; [set_solver|done]. }
  clear He. revert exported Hd Hz. induction d as [|[k v] d IH]; intros e Hd He; simpl; [done|]. apply IH; [set_solver|].
  intros service s' v' Hk. rewrite dget_dset in Hk. case_decide as Heq; [|by apply He]. injection Hk as <- <-. subst service.
  split; [set_solver|]. exists f. split; [done|]. apply Hd. by left.
Qed.

Lemma identity_label s id : is_blank (fiber_label s ++ ":" ++ id) = false.
Proof. done. Qed.

Lemma prepare_source_wp dn s rest exported states l h :
  pp_sources plan = dn ++ s :: rest -> stage None (ps_fiber <$> states) dn exported states l h ->
  mwp guard (prepare_source launchers plan af (exported, states) s) l h
    (fun acc l' h' => stage None (ps_fiber <$> acc.2) (dn ++ [s]) acc.1 acc.2 l' h') (fun _ l' h' => core None l' h').
Proof.
  intros Hp Hs. unfold prepare_source. apply mwp_bind, mwp_ask. intros a. split; [done|]. assert (Hs1 := stage_event None _ _ _ _ (QAssertCurrent s ~> a) l h (harmless_other (QAssertCurrent s) a I) Hs).
  destruct a as [x|]; simpl; [apply Hs1|]. apply mwp_bind, mwp_ask. intros id. split; [done|]. simpl.
  assert (Hs2 := stage_event None _ _ _ _ (QUuid ~> id) _ _ (harmless_other QUuid id I) Hs1). eapply fork_wp; [exact Hs2|done|done|].
  clear Hs Hs1 Hs2 l. intros l f Hs. assert (Hlt : af < f) by (eapply stage_above; [done|set_solver]). apply mwp_bind. eapply mwp_mono; [|intros x l' h' Hx; exact Hx|by apply load_wp].
  clear Hs h l. intros ok l h [Hs Hl]. apply mwp_bind, made_wp; [intros ->|intros x ->; apply Hs].
  apply mwp_bind. eapply own_call_wp; [done|set_solver|done|]. intros l1 Hs1 _ Hrun. clear Hs l. rename l1 into l, Hs1 into Hs. apply stage_paid in Hs; [|done].
  apply mwp_bind, mwp_of_sum; [|intros x _; apply Hs]. intros bs Hbs. pose proof (bindings_injected _ _ _ _ _ _ _ Hp Hl (sg_exported _ _ _ _ _ _ _ Hs) Hbs) as Hinj.
  apply mwp_bind, mwp_gets, mwp_bind, mwp_update.
  match goal with |- mwp _ _ (add_context ?c l) _ _ _ => pose proof (add_context_quiet c l) as Hq; generalize dependent (add_context c l) end.
  intros l1 Hq. apply (stage_quiet _ _ _ _ _ _ _ l1) in Hs; [|done]. apply (quiet_calls l l1) in Hrun; [|done]. generalize (length (mg_contexts l)) as c. intros c. clear Hq l Hbs.
  apply mwp_bind. eapply mwp_mono; [|intros x l' h' Hx; exact Hx|by apply prepare_wp]. intros ok l h' (Hs' & Hq & Hsub). clear Hs Hinj.
  apply (quiet_calls l1 l) in Hrun; [|done]. apply (loaded_mono h h') in Hl; [|done]. clear Hq Hsub l1 h. apply mwp_bind, made_wp; [intros ->|intros x ->; apply Hs'].
  apply mwp_bind. eapply own_call_wp; [done|set_solver|done|]. intros l1 Hs1 Hq Hprep. apply stage_paid in Hs1; [|done].
  apply (quiet_calls l l1) in Hrun; [|done]. clear Hs' Hq l. apply mwp_bind. eapply mwp_mono; [|intros x l' h'' Hx; exact Hx|by apply exports_wp].
  intros d1 l h (Hs & Hq & Hsub & _). apply (quiet_calls l1 l) in Hrun, Hprep; [|done..]. apply (loaded_mono h' h) in Hl; [|done]. clear Hs1 Hq Hsub l1 h'.
  apply mwp_bind, mwp_of_sum; [intros [] _|intros x _; apply Hs]. apply mwp_bind. eapply mwp_mono; [|intros x l' h'' Hx; exact Hx|by apply exports_wp].
  intros d2 l1 h1 (Hs1 & Hq & Hsub & Hex). apply (quiet_calls l l1) in Hrun, Hprep; [|done..]. apply (loaded_mono h h1) in Hl; [|done]. clear Hs Hq Hsub l h.
  apply mwp_bind, mwp_of_sum; [|intros x _; apply Hs1]. intros exported' He'. destruct d2 as [d|]; [|done]. injection He' as <-.
  apply mwp_bind, mwp_gets, mwp_bind, mwp_update, mwp_ret. simpl.
  set (ctx := ActivateContext _ _). pose proof (stage_quiet _ _ _ _ _ _ _ _ Hs1 (add_context_quiet ctx l1)) as [Hc Ht Hst Hso He].
  rewrite fmap_app. split; [done|done| |by rewrite fmap_app, Hso|by eapply exports_extend].
  apply Forall_app. split; [done|]. constructor; [|constructor]. split_and!; [done|done|]. eexists. simpl. by rewrite list_lookup_middle.
Qed.

(** Activation: contributions of the plugins, as declared *)
Definition pending_ok (pr : PreparedState * ContributionRegistration V) : Prop :=
  cr_owner pr.2 = ps_identity pr.1 /\ (cr_kind pr.2, cr_declaration pr.2) ∈ contribution_items (pm_contributions (vs_manifest (ps_source pr.1))).

Lemma activate_state_wp fs dn exported states l h pending p : stage None fs dn exported states l h -> p ∈ states -> Forall pending_ok pending ->
  mwp guard (activate_state pending p) l h
    (fun r l' h' => stage None fs dn exported states l' h' /\ Forall pending_ok r /\ exists rs, r = pending ++ ((fun r => (p, r)) <$> rs)) (fun _ l' h' => core None l' h').
Proof.
  intros Hs Hp Hpe. unfold activate_state. apply mwp_bind, mwp_call. intros [acts r]. split; [done|]. simpl.
  assert (Hs1 : stage None fs dn exported states (performs l acts) ((QActivate (ps_fiber p) (ps_context p) ~> (acts, r)) :: h)).
  { eapply stage_quiet; [|apply performs_quiet]. apply stage_event; [|done]. by apply (harmless_other (QActivate (ps_fiber p) (ps_context p)) (acts, r)). }
  destruct r as [x|]; simpl; [apply Hs1|]. apply mwp_bind, mwp_gets, mwp_bind, mwp_of_sum; [|intros x _; apply Hs1]. intros rs Hrs. apply mwp_ret.
  split; [done|]. split; [|by exists rs]. apply Forall_app. split; [done|].
  pose proof (sg_states _ _ _ _ _ _ _ Hs1) as Hst. rewrite Forall_forall in Hst. destruct (Hst p Hp) as (_ & _ & c & Hctx & Hid & Hm).
  unfold registrations_of in Hrs. rewrite Hctx in Hrs. unfold of_plugin in Hrs. destruct (registrations c) as [|rs'] eqn:Hr; [done|]. injection Hrs as ->.
  apply registrations_follow_the_manifest in Hr as [Hdecl Hown]. apply Forall_forall. intros [p' r] (r' & Heq & Hin)%list_elem_of_fmap. injection Heq as -> ->.
  rewrite Forall_forall in Hown. destruct (Hown r' Hin) as [Ho _]. split; simpl; [by rewrite Ho|]. rewrite <- Hm, <- Hdecl. apply list_elem_of_fmap. by exists r'.
Qed.

(** ** The whole [try] block *)

(** The set is ready: its fibers own it, and its publication was accepted. *)
Record built (replaces : gset string) (s : ActiveSet) (l : St) (h : list ev) : Prop := MkBuilt {
  bt_plan : as_plan s = plan;
  bt_fiber : as_fiber s = af;
  bt_wf : wf l;
  bt_accounted : accounted lost h l;
  bt_open : exists fb, mg_fibers l !! af = Some fb /\ is_open fb /\ targets fb = ps_fiber <$> as_plugins s /\ forall g, g ∈ targets fb -> af < g;
  bt_unowned : ~ nested l af;
  bt_kept : kept af ls l;
  bt_acquired : acquired None h l;
  bt_plugins : Forall (state_ok l) (as_plugins s);
  bt_sources : ps_source <$> as_plugins s = pp_sources plan;
  bt_published : exists acts hs pending, (QPublish pending.*2 replaces ~> (acts, inr hs)) ∈ h /\ length hs = length pending /\
    Forall pending_ok pending /\ pending.*1 ⊆ as_plugins s;
  bt_handles : handles_owned h l;
}.
(** Handles are owned by the plugins that contributed: this cannot fail. *)
Lemma own_handles_wp dn exported states l h h2 pending handles : stage None (ps_fiber <$> states) dn exported states l h -> pending.*1 ⊆ states ->
  length handles = length pending ->
  mwp guard (foreach own_handle tt (zip pending handles)) l h2
    (fun _ l' h' => h' = h2 /\ stage None (ps_fiber <$> states) dn exported states l' h /\
       forall n, n ∈ handles -> exists f, MkOwnedCall f (HandleRevoke n) ∈ mg_calls l') (fun _ _ _ => False).
Proof.
  intros Hs Hsub Hlen. eapply (mwp_foreach _ (fun seen _ l' h' => h' = h2 /\ stage None (ps_fiber <$> states) dn exported states l' h /\
     forall i, i ∈ seen -> MkOwnedCall (ps_fiber i.1.1) (HandleRevoke i.2) ∈ mg_calls l')).
  - split_and!; [done|done|]. by intros i ?%not_elem_of_nil.
  - intros seen [[p r] n] rest [] l1 h1 Heq (-> & Hs1 & Hown). eapply own_call_wp; [done| |done|].
    + apply list_elem_of_fmap_2, Hsub. apply list_elem_of_fmap. exists (p, r). split; [done|]. apply (elem_of_zip_l _ n _ handles). rewrite Heq. set_solver.
    + intros l2 Hs2 Hq Hin. split_and!; [done|done|]. intros i [Hi|Hi]%elem_of_app; [eapply quiet_calls; [done|by apply Hown]|].
      apply list_elem_of_singleton in Hi as ->. done.
  - intros [] l1 h1 (-> & Hs1 & Hown). split_and!; [done|done|]. intros n [i Hi]%list_elem_of_lookup.
    destruct (lookup_lt_is_Some_2 pending i) as [pr Hpr]; [rewrite <- Hlen; by eapply lookup_lt_Some|].
    exists (ps_fiber pr.1). apply (Hown (pr, n)). apply (list_elem_of_lookup_2 _ i). apply lookup_zip_with_Some. by exists pr, n.
Qed.

Lemma revokes_wp fs dn exported states l h hs : stage None fs dn exported states l h ->
  mwp guard (do _ <- foreach (fun _ n => revoke n) tt hs in of_sum (lifecycle ACTIVATION_FAILED)) l h
    (fun (_ : unit) _ _ => False) (fun _ l' h' => core None l' h').
Proof.
  intros Hs. apply mwp_bind. eapply (mwp_foreach _ (fun _ _ l' h' => stage None fs dn exported states l' h')); [done| |].
  - intros seen n rest [] l1 h1 _ Hs1. apply mwp_call. intros [acts r]. split; [done|]. simpl.
    assert (Hs2 : stage None fs dn exported states (performs l1 acts) ((QRevoke n ~> (acts, r)) :: h1)).
    { eapply stage_quiet; [|apply performs_quiet]. apply stage_event; [|done]. by apply (harmless_other (QRevoke n) (acts, r)). }
    destruct r as [x|]; simpl; [apply Hs2|done].
  - intros [] l1 h1 Hs1. apply Hs1.
Qed.

Lemma published_wp replaces exported states l h h1 pending acts hs : stage None (ps_fiber <$> states) (pp_sources plan) exported states l h ->
  Forall pending_ok pending -> pending.*1 ⊆ states -> length hs = length pending -> h1 = (QPublish pending.*2 replaces ~> (acts, inr hs)) :: h ->
  mwp guard (do _ <- foreach own_handle tt (zip pending hs) in ret (MkActiveSet plan af states)) l h1 (fun s l' h' => built replaces s l' h') (fun _ l' h' => core None l' h').
Proof.
  intros Hs1 Hok Hsub Hlen ->. apply mwp_bind. eapply mwp_mono; [| |by apply own_handles_wp]; [|done].
  intros [] l2 h2 (-> & Hs2 & Hown). apply mwp_ret. pose proof (sg_core _ _ _ _ _ _ _ Hs2) as Hc2.
  destruct (co_fiber _ _ _ Hc2) as (fb & Hfb & Ho & _ & Hab). split; simpl.
  - done.
  - done.
  - apply Hc2.
  - eapply accounted_mono; [|done|apply Hc2]. set_solver.
  - exists fb. split_and!; [done|done|by apply (sg_targets _ _ _ _ _ _ _ Hs2)|done].
  - apply Hc2.
  - apply Hc2.
  - intros e' oc [->|He']%elem_of_cons Hg; [done|]. by eapply (co_acquired _ _ _ Hc2).
  - apply Hs2.
  - apply Hs2.
  - exists acts, hs, pending. split_and!; [by left|done|done|done].
  - intros e' hs' n [->|He']%elem_of_cons Hae; [|by apply (co_unpublished _ _ _ Hc2) in Hae]. destruct Hae as [[= <-] _]. apply Hown.
Qed.

Lemma build_body_wp replaces l h : stage None [] [] [] [] l h ->
  mwp guard (build_body launchers plan replaces af) l h (fun s l' h' => built replaces s l' h') (fun _ l' h' => core None l' h').
Proof.
  intros Hs. unfold build_body. apply mwp_bind. eapply (mwp_foreach _ (fun dn acc l' h' => stage None (ps_fiber <$> acc.2) dn acc.1 acc.2 l' h')); [done| |].
  { intros dn s rest [exported states] l1 h1 Hp Hs1. by eapply prepare_source_wp. }
  clear Hs l h. intros [exported states] l h Hs. simpl in *. apply mwp_bind.
  eapply (mwp_foreach _ (fun dn pending l' h' => stage None (ps_fiber <$> states) (pp_sources plan) exported states l' h' /\ Forall pending_ok pending /\ pending.*1 ⊆ states)).
  { split_and!; [done|constructor|set_solver]. }
  { intros dn p rest pending l1 h1 Hst (Hs1 & Hok & Hsub). assert (Hp : p ∈ states) by (rewrite Hst; set_solver).
    eapply mwp_mono; [|intros x l' h' Hx; exact Hx|by apply activate_state_wp]. intros r l' h' (Hs' & Hok' & rs & ->). split_and!; [done|done|].
    rewrite fmap_app. intros q [Hq|Hq]%elem_of_app; [by apply Hsub|]. apply list_elem_of_fmap in Hq as (pr & -> & (r & -> & _)%list_elem_of_fmap). done. }
  clear Hs l h. intros pending l h (Hs & Hok & Hsub). apply mwp_bind, mwp_call. intros [acts r]. split; [done|]. simpl.
  pose proof (stage_quiet _ _ _ _ _ _ _ _ Hs (performs_quiet l acts)) as Hs1.
  assert (Href : (forall hs, r = inr hs -> length hs <> length pending) ->
    stage None (ps_fiber <$> states) (pp_sources plan) exported states (performs l acts) ((QPublish pending.*2 replaces ~> (acts, r)) :: h)).
  { intros Hr. apply stage_event; [|done]. apply harmless_refused. simpl. intros hs -> Hlen. rewrite length_fmap in Hlen. by apply (Hr hs). }
  destruct r as [x|hs]; [by apply Href|]. apply mwp_bind. destruct (decide (length hs <> length pending)) as [Hne|Heq].
  - eapply mwp_mono; [| |eapply revokes_wp, Href; by intros ? [= <-]]; done.
  - apply mwp_ret. apply dec_stable in Heq. by eapply published_wp.
Qed.

(** ** Rolling back *)

(** Nothing the build made is left. *)
Record undone (l : St) (h : list ev) : Prop := MkUndone {
  un_wf : wf l;
  un_kept : kept af ls l;
  un_accounted : accounted lost h l;
  un_closed : forall f fb, af <= f -> mg_fibers l !! f = Some fb -> Fiber.pf_state fb = Fiber.CLOSED;
  un_acquired : acquired None h l;
  un_unpublished : forall e hs, e ∈ h -> ~ accepted e hs;
}.

(** An interrupted build leaves at least the older fibers alone. *)
Definition interrupted (l : St) (h : list ev) : Prop := wf l /\ kept af ls l /\ forall e hs, e ∈ h -> ~ accepted e hs.

Definition closing_guard (_ : list ev) (e : ev) : Prop := match projT1 e with QDispose c oc => af <= oc_fiber oc | _ => False end.

Lemma closing_harmless h e : closing_guard h e -> harmless e.
Proof. destruct e as [q a]. unfold closing_guard. simpl. intros Hg. apply harmless_other. by destruct q. Qed.

Lemma close_rolls_back l h : core None l h ->
  mwp guard (PluginManager.close af) l h (fun _ l' h' => undone l' h')
    (fun y l' h' => if fatal y then interrupted l' h' else is_cleanup y /\ undone l' h').
Proof.
  intros [Hw Ha (fb & Hf & Ho & Hall & Hab) Hu Hk Hq Hp]. apply (mwp_weaken closing_guard).
  { intros h1 [q a]. unfold closing_guard, guard. by destruct q. }
  assert (Hfam : forall g, family af fb g -> af <= g) by (intros g [->|Hg%Hab]; lia).
  assert (Hev : forall (h' : list ev) e, (forall e, e ∈ h' -> e ∈ h \/ exists h1, closing_guard h1 e) -> e ∈ h' -> e ∈ h \/ harmless e).
  { intros h' e He Hin. destruct (He e Hin) as [?|[h1 Hg]]; [by left|right]. by eapply closing_harmless. }
  assert (Hun : forall l' h', unwound_post (family af fb) af (targets fb) lost l h l' h' -> (forall e, e ∈ h' -> e ∈ h \/ exists h1, closing_guard h1 e) ->
    length (mg_fibers l') = length (mg_fibers l) -> undone l' h').
  { intros l' h' (Hsub & Hw' & Hs & (fb' & Hf' & Hst & Hef) & Hcl & Ha') He Hlen. split.
    - done.
    - eapply kept_trans; [done|]. by eapply kept_steady.
    - done.
    - intros f fb1 Hle Hf1. destruct (decide (f = af)) as [->|Hne]; [assert (fb1 = fb') as -> by congruence; done|].
      assert (Hg : f ∈ targets fb) by (apply Hall; [|lia]; apply lookup_lt_is_Some; rewrite <- Hlen; by eapply lookup_lt_Some).
      destruct (Hcl f Hg) as (fg & Hfg & Hst1). congruence.
    - intros e oc Hin Hg. destruct (Hev h' e He Hin) as [Hold|[Hno _]]; [|by apply Hno in Hg].
      destruct (Hq e oc Hold Hg) as [Hc|[=]]. left. destruct (sd_calls _ _ _ Hs) as [k ->]. set_solver.
    - intros e hs Hin. destruct (Hev h' e He Hin) as [Hold|[_ Hno]]; [by apply Hp|apply Hno]. }
  assert (Hbr : forall l' h', broken_post (family af fb) lost l h l' h' -> (forall e, e ∈ h' -> e ∈ h \/ exists h1, closing_guard h1 e) -> interrupted l' h').
  { intros l' h' (Hsub & Hw' & Hs & Ha') He. split_and!; [done|eapply kept_trans; [done|]; by eapply kept_steady|].
    intros e hs Hin. destruct (Hev h' e He Hin) as [Hold|[_ Hno]]; [by apply Hp|apply Hno]. }
  eapply mwp_mono; [| |eapply mwp_and; [eapply mwp_events, close_wp; try done|apply close_makes_no_fibers]].
  - intros [] l' h' [[Hpost He] Hlen]. by apply Hun.
  - simpl. intros y l' h' [[Hpost He] Hlen]. destruct (fatal y); [by apply Hbr|]. destruct Hpost as [Hc Hpost]. split; [done|by apply Hun].
  - intros h' c k r _. by apply Hfam; left.
  - intros before g after h' c k r Heq _ _. apply Hfam. right. rewrite <- reverse_Permutation, Heq. set_solver.
Qed.

Lemma cleanup_not_fatal y : is_cleanup y -> fatal y = false.
Proof. by intros (id & fs & ->). Qed.

(** What a build raises, and how it leaves the manager then *)
Definition failed (y : exc) (l : St) (h : list ev) : Prop :=
  if fatal y then interrupted l h else is_lifecycle y = true /\ undone l h.

Lemma roll_back_wp x l h : core None l h ->
  mwp guard (roll_back (V := V) af x) l h (fun _ _ _ => False) (fun y l' h' => failed y l' h').
Proof.
  intros Hc. unfold roll_back, failed. destruct (fatal x) eqn:Hx.
  - apply mwp_bind. eapply mwp_mono; [| |by apply close_rolls_back].
    + intros [] l' h' Hu. apply mwp_raise. rewrite Hx. split_and!; apply Hu.
    + simpl. intros y l' h' Hp. destruct (fatal y); [done|]. destruct Hp as [(id & fs & ->) Hu]. done.
  - apply mwp_bind, mwp_rethrow. eapply mwp_mono; [| |by apply close_rolls_back].
    + intros [] l' h' Hu. destruct (is_lifecycle x) eqn:Hl; [|done]. apply mwp_raise. by rewrite Hx, Hl.
    + simpl. intros y l' h' Hp. destruct (fatal y) eqn:Hy; [destruct y; try done; by rewrite Hy|]. destruct Hp as [(id & fs & ->) Hu]. done.
Qed.
End Building.
End Props.
End PluginManagerProps.
