(* ===== verification/PluginTransitions.v ===== *)
(** * The transitions of the plugin manager

    [activate], [reload] and [deactivate] in every reachable state: what they leave
    active, what they undo when they fail, and in which order they retire plugins. *)
From S2P Require Import Prelude PyText Json Prog Tasks PluginModels Effects PluginGraph PluginRegistry PluginManager PluginManagerProps.
Open Scope string_scope.
Open Scope list_scope.
Open Scope nat_scope.

Module PluginTransitions.
Import Tasks PluginRegistry PluginManager PluginManagerProps.

Section Transitions.
Context {V : Type}.
Abbreviation St := (@State V).
Abbreviation ev := (event (@ans V)).

(** What was disposed of before, or is nobody's *)
Definition unheld (l : St) (c : nat) (oc : OwnedCall) : Prop := mg_calls l !! c = Some oc /\ ~ held l c oc.

Lemma held_dec (l : St) c oc : held l c oc \/ ~ held l c oc.
Proof.
  destruct (mg_fibers l !! oc_fiber oc) as [fb|] eqn:Hf; [|right; intros (fb & e & Hf' & _); congruence].
  destruct (decide (Fiber.pf_state fb = Fiber.OPEN)) as [Ho|Ho]; [|right; intros (fb' & e & Hf' & Ho' & _); unfold is_open in Ho'; congruence].
  destruct (decide (Exists (fun e => oe_dispose e = CallOf c) (Fiber.pf_effects fb))) as [He|He]; [left|right].
  - apply Exists_exists in He as (e & He & Hd). by exists fb, e.
  - intros (fb' & e & Hf' & _ & He' & Hd). apply He, Exists_exists. exists e. split; [|done]. congruence.
Qed.

Lemma accounted_start (l : St) : accounted (unheld l) [] l.
Proof. intros c oc Hc. destruct (held_dec l c oc); [by left|by right; right]. Qed.

(** ** A manager at rest *)
Record ready (l : St) : Prop := MkReady {
  rd_wf : wf l;
  rd_active : forall s, mg_active l = Some s -> ~ nested l (as_fiber s) /\
    exists fb, mg_fibers l !! as_fiber s = Some fb /\ is_open fb /\ targets fb = ps_fiber <$> as_plugins s;
}.

Lemma ready_start : ready start.
Proof. split; [|done]. split; by intros. Qed.

(** Older fibers own the same fibers as before. *)
Lemma nested_kept n (l l' : St) g : wf l' -> n <= length (mg_fibers l) -> g < n -> kept n l l' -> nested l' g -> nested l g.
Proof.
  intros Hw Hn Hg Hk (f & fb' & Hf' & Ht). pose proof (wf_below _ Hw _ _ _ Hf' Ht) as Hlt.
  destruct (lookup_lt_is_Some_2 (mg_fibers l) f) as [fb Hf]; [lia|]. destruct (kp_fibers _ _ _ Hk f fb) as (fb1 & new & Hf1 & _ & _ & He & Hnew & _); [lia|done|].
  exists f, fb. split; [done|]. assert (fb1 = fb') as -> by congruence. by rewrite (targets_app _ _ _ He), (calls_no_targets new Hnew), app_nil_r in Ht.
Qed.

Lemma ready_kept (l l' : St) : ready l -> wf l' -> kept (length (mg_fibers l)) l l' -> ready l'.
Proof.
  intros [Hw Ha] Hw' Hk. split; [done|]. intros s Hs. rewrite (kp_active _ _ _ Hk) in Hs. destruct (Ha s Hs) as (Hn & fb & Hf & Ho & Ht).
  assert (Hlt : as_fiber s < length (mg_fibers l)) by (by eapply lookup_lt_Some). split; [intros Hn'; apply Hn, (nested_kept _ _ _ _ Hw' (le_n _) Hlt Hk Hn')|].
  destruct (kp_fibers _ _ _ Hk _ fb Hlt Hf) as (fb' & new & Hf' & Hst & _ & He & Hnew & _). exists fb'. unfold is_open in *.
  rewrite (targets_app _ _ _ He), (calls_no_targets new Hnew), app_nil_r. split_and!; [done|congruence|done].
Qed.

Lemma ready_performs (l : St) acts : ready l -> ready (performs l acts).
Proof. intros Hr. pose proof (performs_calm l acts) as Hc. apply (ready_kept l); [done|apply (cm_wf _ _ Hc), Hr|by apply kept_calm]. Qed.

(** Locals that differ in what is active only *)
Lemma wf_active s (l : St) : wf l -> wf (set_active s l).
Proof. by intros []. Qed.

(** ** Building *)
Section Build.
Context (attestation : nat) (launchers : list TrustMode).

Lemma undone_start (l : St) : ready l -> undone l (unheld l) (length (mg_fibers l)) l [].
Proof.
  intros Hr. split; [apply Hr|apply kept_refl|apply accounted_start| | |].
  - intros f fb Hle Hf. apply lookup_lt_Some in Hf. lia.
  - intros e oc Hn. by apply not_elem_of_nil in Hn.
  - intros e hs Hn. by apply not_elem_of_nil in Hn.
Qed.

Lemma build_wp plan replaces (l : St) : ready l ->
  mwp (guard plan (length (mg_fibers l))) (build attestation launchers plan replaces) l []
    (fun s l' h' => built plan l (unheld l) (length (mg_fibers l)) replaces s l' h')
    (fun y l' h' => failed l (unheld l) (length (mg_fibers l)) y l' h').
Proof.
  intros Hr. unfold build. destruct (decide (pp_attestation plan <> attestation)).
  - apply mwp_of_sum; [done|]. intros x [= <-]. split; [done|]. by apply undone_start.
  - apply mwp_bind, mwp_ask. intros id. split; [done|]. simpl. apply mwp_bind, new_fiber_wp; [done|]. intros fb Ho He Hc. set (l1 := MkState _ _ _ _ _).
    pose proof (new_fiber_calm l fb Ho He Hc) as Hcalm. fold l1 in Hcalm. apply mwp_catch.
    eapply mwp_mono; [intros s l' h' Hb; exact Hb|intros x l' h' Hcore|apply build_body_wp].
    { eapply mwp_mono; [| |eapply roll_back_wp; exact Hcore]; [done|intros y l2 h2 Hy; exact Hy]. }
    assert (Hf : mg_fibers l1 !! length (mg_fibers l) = Some fb) by (by apply list_lookup_middle).
    assert (Ht : targets fb = []) by (unfold targets; by rewrite He). split; [split|..].
    + apply Hcalm, Hr.
    + eapply (accounted_mono _ _ []); [set_solver|done|]. eapply accounted_calm; [done|apply accounted_start].
    + exists fb. rewrite Ht. split_and!; [done|done| |by intros g ?%not_elem_of_nil]. intros f Hf1 Hlt.
      apply lookup_lt_is_Some in Hf1. unfold l1 in Hf1. simpl in Hf1. rewrite length_app in Hf1. simpl in Hf1. lia.
    + intros (f & fb' & Hf' & Hg)%(nested_calm _ _ _ Hcalm). destruct (wf_nested _ (rd_wf _ Hr) _ _ _ Hf' Hg) as (fg & Hfg & _).
      apply lookup_lt_Some in Hfg. lia.
    + by apply kept_calm.
    + intros e oc [->|Hn]%elem_of_cons Hg; [done|by apply not_elem_of_nil in Hn].
    + intros e hs [->|Hn]%elem_of_cons Hg; [done|by apply not_elem_of_nil in Hn].
    + intros fb' Hf'. congruence.
    + constructor.
    + done.
    + by intros service s v.
Qed.

(** ** Installing a set *)
Lemma ready_built plan (l : St) lost replaces s l1 h : built plan l lost (length (mg_fibers l)) replaces s l1 h -> ready (set_active (Some s) l1).
Proof.
  intros Hb. split; [apply wf_active, Hb|]. intros s' [= <-]. rewrite (bt_fiber _ _ _ _ _ _ _ _ Hb). split; [apply Hb|].
  destruct (bt_open _ _ _ _ _ _ _ _ Hb) as (fb & Hf & Ho & Ht & _). by exists fb.
Qed.

Lemma ready_failed (l : St) lost y l' h : ready l -> failed l lost (length (mg_fibers l)) y l' h -> ready l'.
Proof. intros Hr Hf. unfold failed in Hf. destruct (fatal y); [destruct Hf as (Hw & Hk & _)|destruct Hf as [_ [Hw Hk _ _ _ _]]]; by eapply ready_kept. Qed.

Lemma activation_wp plan (l : St) : ready l ->
  mwp (guard plan (length (mg_fibers l))) (activate attestation launchers plan) l []
    (fun _ l' h' => exists s l1, built plan l (unheld l) (length (mg_fibers l)) ∅ s l1 h' /\ l' = set_active (Some s) l1)
    (fun y l' h' => failed l (unheld l) (length (mg_fibers l)) y l' h').
Proof.
  intros Hr. unfold activate. apply mwp_bind, mwp_gets. destruct (mg_active l) as [s|].
  - apply mwp_of_sum; [done|]. intros x [= <-]. split; [done|]. by apply undone_start.
  - apply mwp_bind. eapply mwp_mono; [|intros y l' h' Hy; exact Hy|by apply build_wp]. intros s l1 h' Hb. apply mwp_update. by exists s, l1.
Qed.

(** ** Retiring the previous set *)

(** The order in which the fibers of a set are closed: consumers first *)
Definition retiring (s : ActiveSet) (held0 : nat -> OwnedCall -> Prop) (h : list ev) (oc : OwnedCall) : Prop :=
  oc_fiber oc = as_fiber s \/ exists before p after, as_plugins s = before ++ p :: after /\ oc_fiber oc = ps_fiber p /\
    forall q c oc', q ∈ after -> held0 c oc' -> oc_fiber oc' = ps_fiber q -> disposed h c oc'.

(** [s] and all its plugins are closed. *)
Record retired (s : ActiveSet) (lost : nat -> OwnedCall -> Prop) (l : St) (h : list ev) (l' : St) (h' : list ev) : Prop := MkRetired {
  rt_hist : h ⊆ h';
  rt_wf : wf l';
  rt_steady : steady (fun f => f = as_fiber s \/ f ∈ ps_fiber <$> as_plugins s) l l';
  rt_closed : forall f, f = as_fiber s \/ f ∈ ps_fiber <$> as_plugins s -> exists fb, mg_fibers l' !! f = Some fb /\ Fiber.pf_state fb = Fiber.CLOSED;
  rt_accounted : accounted lost h' l';
}.

Definition partly_retired (s : ActiveSet) (l l' : St) : Prop :=
  wf l' /\ steady (fun f => f = as_fiber s \/ f ∈ ps_fiber <$> as_plugins s) l l'.

Lemma close_set_wp I s lost (l : St) h : wf l -> accounted lost h l -> ~ nested l (as_fiber s) ->
  (exists fb, mg_fibers l !! as_fiber s = Some fb /\ is_open fb /\ targets fb = ps_fiber <$> as_plugins s) ->
  (forall h' c oc r, h ⊆ h' -> retiring s (fun c oc => mg_calls l !! c = Some oc /\ ~ lost c oc) h' oc -> I h' (QDispose c oc ~> r)) ->
  mwp I (PluginManager.close (as_fiber s)) l h (fun _ l' h' => retired s lost l h l' h')
    (fun y l' h' => if fatal y then partly_retired s l l' else is_cleanup y /\ retired s lost l h l' h').
Proof.
  intros Hw Ha Hn (fb & Hf & Ho & Ht) HI.
  assert (Hfam : forall f, family (as_fiber s) fb f -> f = as_fiber s \/ f ∈ ps_fiber <$> as_plugins s) by (intros f [->|Hf1]; [by left|right; by rewrite <- Ht]).
  assert (Hpost : forall l' h', unwound_post (family (as_fiber s) fb) (as_fiber s) (targets fb) lost l h l' h' -> retired s lost l h l' h').
  { intros l' h' (H1 & H2 & H3 & (fb' & Hf' & Hc & _) & H5 & H6). split; [done|done|by apply (steady_weaken _ _ _ _ Hfam)| |done].
    intros f [->|Hf1]; [by exists fb'|]. apply H5. by rewrite Ht. }
  eapply mwp_mono; [| |eapply close_wp; [done|done|done|done|exact Ha| |]].
  - intros [] l' h'. apply Hpost.
  - simpl. intros y l' h' Hp. destruct (fatal y); [|destruct Hp as [Hc Hp]; split; [done|by apply Hpost]].
    destruct Hp as (H1 & H2 & H3 & _). split; [done|by apply (steady_weaken _ _ _ _ Hfam)].
  - intros h' c k r Hsub. apply HI; [done|]. by left.
  - intros before g after h' c k r Heq Hsub Hdone. apply HI; [done|]. right.
    apply (f_equal reverse) in Heq. rewrite reverse_involutive, reverse_app, reverse_cons, Ht, <- app_assoc in Heq.
    apply fmap_app_inv in Heq as (ps1 & ps2 & Hb & Hr & Hps). destruct ps2 as [|p ps2]; [done|]. injection Hr as Hg Hr. exists ps1, p, ps2. split_and!; [done|done|].
    intros q c' oc' Hq [Hc' Hnl] Hof. destruct (Hdone (ps_fiber q) c' oc') as [?|?]; [|done..]. rewrite <- elem_of_reverse, Hr. by apply list_elem_of_fmap_2.
Qed.

Lemma ready_steady F (l l' : St) : ready l -> wf l' -> steady F l l' -> (forall s, mg_active l = Some s -> ~ F (as_fiber s)) -> ready l'.
Proof.
  intros [Hw Ha] Hw' Hst HF. split; [done|]. intros s Hs. rewrite (sd_active _ _ _ Hst) in Hs. destruct (Ha s Hs) as (Hn & fb & Hf & Ho & Ht).
  split; [by intros Hn'%(sd_nested _ _ _ Hst)|]. destruct (sd_fibers _ _ _ Hst _ fb (HF s Hs) Hf) as (fb' & new & Hf' & Hs' & _ & He & Hnew & _). exists fb'. unfold is_open in *.
  rewrite (targets_app _ _ _ He), (calls_no_targets new Hnew), app_nil_r. split_and!; [done|congruence|done].
Qed.

(** The calls a manager still has to make *)
Definition owning (l : St) (c : nat) (oc : OwnedCall) : Prop := mg_calls l !! c = Some oc /\ held l c oc.

Lemma retiring_mono s (H H' : nat -> OwnedCall -> Prop) h oc : (forall c oc, H' c oc -> H c oc) -> retiring s H h oc -> retiring s H' h oc.
Proof. intros Hi [?|(b & p & a & Hp & Ho & Hq)]; [by left|right]. exists b, p, a. split_and!; [done|done|]. eauto. Qed.

Lemma owning_prefix (l l' : St) c oc : mg_calls l `prefix_of` mg_calls l' -> owning l c oc -> mg_calls l' !! c = Some oc /\ ~ unheld l c oc.
Proof. intros Hp [Hc Hh]. split; [by eapply prefix_lookup_Some|]. by intros [_ Hn]. Qed.

(** ** Deactivation *)
Definition deactivate_guard (l : St) (h : list ev) (e : ev) : Prop :=
  match projT1 e with
  | QDispose c oc => exists s, mg_active l = Some s /\ retiring s (owning l) h oc
  | _ => True
  end.

Lemma deactivate_wp (l : St) : ready l ->
  mwp (deactivate_guard l) deactivate l []
    (fun _ l' h' => match mg_active l with None => l' = l | Some s => retired s (unheld l) (set_active None l) [] l' h' end)
    (fun y l' h' => exists s, mg_active l = Some s /\
       if fatal y then partly_retired s (set_active None l) l' else is_cleanup y /\ retired s (unheld l) (set_active None l) [] l' h').
Proof.
  intros Hr. unfold deactivate. apply mwp_bind, mwp_gets. destruct (mg_active l) as [s|] eqn:Hs; [|done].
  apply mwp_bind, mwp_update. destruct (rd_active _ Hr s Hs) as (Hn & Hf). eapply mwp_mono; [| |apply close_set_wp].
  - intros [] l' h' Hp. exact Hp.
  - intros y l' h' Hp. exists s. split; [done|exact Hp].
  - apply wf_active, Hr.
  - exact (accounted_start l).
  - done.
  - done.
  - intros h' c oc r _ Hre. exists s. split; [done|]. eapply retiring_mono; [|exact Hre]. intros c' oc'. by apply owning_prefix.
Qed.

Lemma partly_retires s lost (l : St) h l' h' : retired s lost l h l' h' -> partly_retired s l l'.
Proof. by intros [_ Hw Hst _ _]. Qed.

Lemma ready_deactivated s (l l' : St) : ready l -> partly_retired s (set_active None l) l' -> ready l'.
Proof. intros Hr [Hw Hst]. eapply (ready_steady _ (set_active None l)); [|done|done|done]. split; [apply wf_active, Hr|done]. Qed.

(** ** Reloading *)
Definition published (replaces : gset string) (h : list ev) : Prop :=
  exists rs acts hs, (QPublish rs replaces ~> (acts, inr hs)) ∈ h /\ length hs = length rs.

Definition reload_guard plan (l : St) (h : list ev) (e : ev) : Prop :=
  guard plan (length (mg_fibers l)) h e \/
  match projT1 e with
  | QDispose c oc => exists s, mg_active l = Some s /\ published (activation_ids s) h /\ retiring s (owning l) h oc
  | _ => False
  end.

Definition replacing (l : St) : gset string := match mg_active l with None => ∅ | Some s => activation_ids s end.

(** The new set [s] is installed; [h1] is what happened until then. *)
Definition installed plan (l : St) (s : ActiveSet) (l2 : St) (h1 : list ev) : Prop :=
  exists l1, built plan l (unheld l) (length (mg_fibers l)) (replacing l) s l1 h1 /\ l2 = set_active (Some s) l1.

Lemma built_published plan (l : St) lost af replaces s l1 h : built plan l lost af replaces s l1 h -> published replaces h.
Proof. intros Hb. destruct (bt_published _ _ _ _ _ _ _ _ Hb) as (acts & hs & pending & Hin & Hlen & _). exists pending.*2, acts, hs. by rewrite length_fmap. Qed.

Lemma published_mono r h h' : h ⊆ h' -> published r h -> published r h'.
Proof. intros Hs (rs & acts & hs & Hin & Hl). exists rs, acts, hs. split; [by apply Hs|done]. Qed.

Lemma reload_wp plan (l : St) : ready l ->
  mwp (reload_guard plan l) (reload attestation launchers plan) l []
    (fun _ l' h' => exists s l2 h1, installed plan l s l2 h1 /\
       match mg_active l with None => l' = l2 /\ h' = h1 | Some p => retired p (unheld l) l2 h1 l' h' end)
    (fun y l' h' => failed l (unheld l) (length (mg_fibers l)) y l' h' \/
       exists p s l2 h1, mg_active l = Some p /\ installed plan l s l2 h1 /\
         if fatal y then partly_retired p l2 l' else is_cleanup y /\ retired p (unheld l) l2 h1 l' h').
Proof.
  intros Hr. unfold reload. apply mwp_bind, mwp_gets, mwp_bind. eapply mwp_mono; [| |eapply mwp_weaken; [|by apply build_wp]]; [| |intros h e He; by left].
  2: { intros y l' h' Hy. by left. }
  intros s l1 h1 Hb. fold (replacing l) in Hb. apply mwp_bind, mwp_update. assert (Hi : installed plan l s (set_active (Some s) l1) h1) by (by exists l1).
  destruct (mg_active l) as [p|] eqn:Hp; [|by exists s, (set_active (Some s) l1), h1].
  destruct (rd_active _ Hr p Hp) as (Hn & fb & Hf & Ho & Ht). assert (Hlt : as_fiber p < length (mg_fibers l)) by (by eapply lookup_lt_Some).
  eapply mwp_mono; [| |apply close_set_wp].
  - intros [] l' h' Hre. exists s, (set_active (Some s) l1), h1. split; [done|exact Hre].
  - intros y l' h' Hre. right. exists p, s, (set_active (Some s) l1), h1. split_and!; [done|done|exact Hre].
  - apply wf_active, Hb.
  - apply Hb.
  - intros Hn'. apply Hn. exact (nested_kept _ _ l1 _ (bt_wf _ _ _ _ _ _ _ _ Hb) (le_n _) Hlt (bt_kept _ _ _ _ _ _ _ _ Hb) Hn').
  - destruct (kp_fibers _ _ _ (bt_kept _ _ _ _ _ _ _ _ Hb) _ fb Hlt Hf) as (fb' & new & Hf' & Hs' & _ & He & Hnew & _). exists fb'. unfold is_open in *.
    rewrite (targets_app _ _ _ He), (calls_no_targets new Hnew), app_nil_r. split_and!; [done|congruence|done].
  - intros h' c oc r Hsub Hre. right. exists p. split_and!; [done| |].
    + eapply published_mono; [exact Hsub|]. pose proof (built_published _ _ _ _ _ _ _ _ Hb) as Hpub. unfold replacing in Hpub. by rewrite Hp in Hpub.
    + eapply retiring_mono; [|exact Hre]. intros c' oc'. apply owning_prefix, (kp_calls _ _ _ (bt_kept _ _ _ _ _ _ _ _ Hb)).
Qed.

(** ** Histories of a manager *)
Inductive op : Type := Activate (plan : PluginPlan) | Reload (plan : PluginPlan) | Deactivate.

Definition transition (o : op) : M (V := V) unit :=
  match o with
  | Activate plan => activate attestation launchers plan
  | Reload plan => reload attestation launchers plan
  | Deactivate => deactivate
  end.

(** Between the transitions, plugins act. *)
Inductive reachable : St -> Prop :=
| reach_start : reachable start
| reach_acts l acts : reachable l -> reachable (performs l acts)
| reach_transition l o t l' r : reachable l -> run_to (transition o l) t (Done (l', r)) -> reachable l'.

Lemma ready_installed plan (l : St) s l2 h : installed plan l s l2 h -> ready l2.
Proof. intros (l1 & Hb & ->). by eapply ready_built. Qed.

(** The previous set's fibers are older than the new ones. *)
Lemma installed_newer plan (l : St) s l2 h p f : ready l -> mg_active l = Some p -> installed plan l s l2 h ->
  f = as_fiber p \/ f ∈ ps_fiber <$> as_plugins p -> f < as_fiber s.
Proof.
  intros Hr Hp (l1 & Hb & _) Hf. rewrite (bt_fiber _ _ _ _ _ _ _ _ Hb). destruct (rd_active _ Hr p Hp) as (_ & fb & Hfb & _ & Ht).
  destruct Hf as [->|Hf]; [by eapply lookup_lt_Some|]. rewrite <- Ht in Hf. destruct (wf_nested _ (rd_wf _ Hr) _ _ _ Hfb Hf) as (fg & Hfg & _). by eapply lookup_lt_Some.
Qed.

Lemma ready_replaced plan (l : St) p s l2 h l' : ready l -> mg_active l = Some p -> installed plan l s l2 h -> partly_retired p l2 l' ->
  ready l' /\ mg_active l' = Some s.
Proof.
  intros Hr Hp Hi [Hw Hst]. assert (Hs2 : mg_active l2 = Some s) by (by destruct Hi as (l1 & _ & ->)). split; [|by rewrite (sd_active _ _ _ Hst)].
  eapply (ready_steady _ l2); [by eapply ready_installed|done|done|]. intros s' Hs' Hf. assert (s' = s) as -> by congruence.
  pose proof (installed_newer _ _ _ _ _ _ _ Hr Hp Hi Hf). lia.
Qed.

Lemma reachable_ready (l : St) : reachable l -> ready l.
Proof.
  induction 1 as [|l acts _ IH|l o t l' r _ IH Hrun]; [apply ready_start|by apply ready_performs|].
  destruct o as [plan|plan|]; simpl in Hrun.
  - destruct (mwp_sound _ _ _ _ _ _ _ _ (activation_wp plan l IH) Hrun) as [_ Hr]. destruct r as [y|u]; [by eapply ready_failed|].
    destruct Hr as (s & l1 & Hb & ->). by eapply ready_built.
  - destruct (mwp_sound _ _ _ _ _ _ _ _ (reload_wp plan l IH) Hrun) as [_ Hr]. destruct r as [y|u].
    + destruct Hr as [Hr|(p & s & l2 & h1 & Hp & Hi & Hr)]; [by eapply ready_failed|]. eapply ready_replaced; [done..|].
      destruct (fatal y); [done|]. by eapply partly_retires, (proj2 Hr).
    + destruct Hr as (s & l2 & h1 & Hi & Hr). destruct (mg_active l) as [p|] eqn:Hp; [|destruct Hr as [-> _]; by eapply ready_installed].
      eapply ready_replaced; [done..|]. by eapply partly_retires.
  - destruct (mwp_sound _ _ _ _ _ _ _ _ (deactivate_wp l IH) Hrun) as [_ Hr]. destruct r as [y|u].
    + destruct Hr as (s & Hs & Hr). eapply ready_deactivated; [done|]. destruct (fatal y); [done|]. by eapply partly_retires, (proj2 Hr).
    + destruct (mg_active l) as [s|]; [|by subst]. eapply ready_deactivated; [done|]. by eapply partly_retires.
Qed.

(** ** What callers see *)

(** A set is in service: its fibers are open. *)
Definition serving (l : St) (s : ActiveSet) : Prop :=
  forall f, f = as_fiber s \/ f ∈ ps_fiber <$> as_plugins s -> exists fb, mg_fibers l !! f = Some fb /\ Fiber.pf_state fb = Fiber.OPEN.

Lemma ready_serving (l : St) s : ready l -> mg_active l = Some s -> serving l s.
Proof.
  intros Hr Hs f Hf. destruct (rd_active _ Hr s Hs) as (_ & fb & Hfb & Ho & Ht). destruct Hf as [->|Hf]; [by exists fb|].
  rewrite <- Ht in Hf. destruct (wf_nested _ (rd_wf _ Hr) _ _ _ Hfb Hf) as (fg & Hfg & Hog & _). by exists fg.
Qed.

(** A failed build left no trace. *)
Record withdrawn (l l' : St) (t : list ev) : Prop := MkWithdrawn {
  wd_active : mg_active l' = mg_active l;
  wd_older : forall f fb, mg_fibers l !! f = Some fb -> exists fb', mg_fibers l' !! f = Some fb' /\ Fiber.pf_state fb' = Fiber.pf_state fb;
  wd_newer : forall f fb, length (mg_fibers l) <= f -> mg_fibers l' !! f = Some fb -> Fiber.pf_state fb = Fiber.CLOSED;
  wd_given : forall e oc, e ∈ t -> gives e oc -> exists c, disposed t c oc;
  wd_unpublished : forall e hs, e ∈ t -> ~ accepted e hs;
}.

Lemma guard_given plan n (h : list ev) (e : ev) oc : guard plan n h e -> gives e oc -> n < oc_fiber oc.
Proof. destruct e as [q a]. unfold guard. destruct q; simpl; try done; [intros ? [_ ->]..|intros [? _] [_ ->]]; done. Qed.

Lemma undone_withdrawn (l l' : St) t : ready l -> undone l (unheld l) (length (mg_fibers l)) l' (reverse t) ->
  (forall t1 e t2 oc, t = t1 ++ e :: t2 -> gives e oc -> length (mg_fibers l) < oc_fiber oc) -> withdrawn l l' t.
Proof.
  intros Hr [Hw Hk Ha Hc Hq Hu] Hg. split; [apply Hk| |done| |].
  - intros f fb Hf. destruct (kp_fibers _ _ _ Hk f fb) as (fb' & new & Hf' & Hs & _); [by eapply lookup_lt_Some|done|]. by exists fb'.
  - intros e oc He Hge. pose proof He as (t1 & t2 & Ht)%list_elem_of_split. pose proof (Hg _ _ _ _ Ht Hge) as Hlt.
    destruct (Hq e oc) as [Hoc|[=]]; [by rewrite elem_of_reverse|done|]. apply list_elem_of_lookup in Hoc as [c Hoc]. exists c.
    destruct (Ha c oc Hoc) as [(fb & x & Hf & Ho & _)|[[r Hd]|[Hold _]]].
    + pose proof (Hc _ fb (Nat.lt_le_incl _ _ Hlt) Hf) as Hcl. unfold is_open in Ho. congruence.
    + exists r. by rewrite elem_of_reverse in Hd.
    + destruct (wf_known _ (rd_wf _ Hr) _ _ Hold) as [fb Hf]. apply lookup_lt_Some in Hf. lia.
  - intros e hs He. apply Hu. by rewrite elem_of_reverse.
Qed.

(** The set of [plan] is in service, and everything that [p] still owned was disposed of. *)
Definition swapped plan (l : St) (p : ActiveSet) (l' : St) (t : list ev) : Prop :=
  (exists s, mg_active l' = Some s /\ as_plan s = plan /\ ps_source <$> as_plugins s = pp_sources plan /\ serving l' s) /\
  forall c oc, owning l c oc -> oc_fiber oc = as_fiber p \/ oc_fiber oc ∈ ps_fiber <$> as_plugins p -> disposed t c oc.

Lemma retired_disposes p (l l2 l' : St) h t c oc : mg_calls l `prefix_of` mg_calls l2 -> retired p (unheld l) l2 h l' (reverse t) -> owning l c oc ->
  oc_fiber oc = as_fiber p \/ oc_fiber oc ∈ ps_fiber <$> as_plugins p -> disposed t c oc.
Proof.
  intros Hpre [_ _ Hst Hcl Ha] [Hc Hh] Hf. assert (Hc' : mg_calls l' !! c = Some oc).
  { eapply prefix_lookup_Some; [exact Hc|]. etransitivity; [exact Hpre|apply Hst]. }
  destruct (Ha c oc Hc') as [(fb & e & Hfb & Ho & _)|[[r Hd]|[_ Hn]]]; [|exists r; by rewrite elem_of_reverse in Hd|done].
  destruct (Hcl _ Hf) as (fb' & Hfb' & Hcl'). unfold is_open in Ho. congruence.
Qed.

Lemma installed_swaps plan (l : St) p s l2 h l' t : ready l -> mg_active l = Some p -> installed plan l s l2 h -> retired p (unheld l) l2 h l' (reverse t) ->
  swapped plan l p l' t.
Proof.
  intros Hr Hp Hi Hre. destruct (ready_replaced _ _ _ _ _ _ _ Hr Hp Hi (partly_retires _ _ _ _ _ _ Hre)) as [Hr' Hs].
  destruct Hi as (l1 & Hb & ->). split.
  - exists s. split_and!; [done|apply Hb|apply Hb|by apply ready_serving].
  - intros c oc. eapply retired_disposes; [|exact Hre]. apply (kp_calls _ _ _ (bt_kept _ _ _ _ _ _ _ _ Hb)).
Qed.

(** What the planner promised, kept by the manager *)
Lemma injected_as_planned `{Packaging} harness_version att sources plan h h' f bs : PluginGraph.plan harness_version att sources = inr plan ->
  injected plan h f bs -> h ⊆ h' ->
  exists s rs, s ∈ sources /\ loaded h' f s /\ rr_requirement <$> rs = pm_requires (vs_manifest s) /\
    Forall (fun r => let service := rq_service (rr_requirement r) in
      match rr_provider_plugin_id r with
      | None => rq_optional (rr_requirement r) = true /\ dget service bs = Some None
      | Some q => exists version value s' g, dget service bs = Some (Some (MkProviderBinding (V := V) service version q value)) /\
          accepts (rr_requirement r) version = Ok true /\ s' ∈ sources /\ plugin_id s' = q /\ loaded h' g s' /\ exported_by h' g service value
      end) rs.
Proof.
  intros Hplan (dn & s & rest & rs & Hsrc & Hl & Hrs & Hbs & Hall) Hsub. destruct (plan_bindings _ _ _ _ _ _ _ Hplan Hsrc) as (rs' & Hrs' & Hreq & Hok).
  assert (rs' = rs) as -> by congruence. destruct (plan_laid_out _ _ _ _ Hplan) as (l & _ & _ & order & _ & Hperm & Hids & _ & _ & _ & Hall' & Hps & _).
  assert (Hin : forall s', s' ∈ dn ++ s :: rest -> s' ∈ sources) by (intros s' Hs'; rewrite <- Hperm, <- (ordered_perm l order Hids Hall'), <- Hps; by rewrite Hsrc).
  assert (Hdn : forall s', s' ∈ dn -> s' ∈ sources) by (intros s' Hs'; apply Hin; set_solver).
  exists s, rs. split_and!; [apply Hin; set_solver|by eapply loaded_mono|done|]. apply Forall_forall. intros r Hr. rewrite Forall_forall in Hok. pose proof (Hok r Hr) as Hokr.
  destruct (Hall r Hr) as [b Hb]. destruct (Hbs _ b Hb) as (r' & Hr' & Heq & Hbound). pose proof (Hok r' Hr') as Hokr'. unfold bound in Hbound. rewrite Heq in Hbound, Hokr'. simpl.
  destruct (rr_provider_plugin_id r) as [q|], (rr_provider_plugin_id r') as [q'|].
  - destruct Hokr as (s1 & pv1 & Hs1 & <- & Hpv1 & Hsv1 & Hacc). destruct Hbound as ([sv ver id v] & s2 & g & -> & Hsb & Hs2 & Hid & Hpv2 & Hl2 & Hx). simpl in *. subst sv id.
    destruct (plan_providers_unique _ _ _ _ s1 s2 pv1 _ Hplan (Hdn _ Hs1) (Hdn _ Hs2) Hpv1 Hpv2 Hsv1) as [-> Hv].
    exists ver, v, s2, g. simpl in Hv. rewrite Hv in Hacc. split_and!; [done|done|by apply Hdn|done|by eapply loaded_mono|by eapply exported_mono].
  - exfalso. destruct Hokr as (s1 & pv1 & Hs1 & _ & Hpv1 & Hsv1 & _). destruct Hokr' as [_ Hno]. exact (Hno s1 pv1 (Hdn _ Hs1) Hpv1 Hsv1).
  - exfalso. destruct Hokr' as (s1 & pv1 & Hs1 & _ & Hpv1 & Hsv1 & _). destruct Hokr as [_ Hno]. exact (Hno s1 pv1 (Hdn _ Hs1) Hpv1 Hsv1).
  - split; [apply Hokr|]. by rewrite Hb, Hbound.
Qed.

(** ** Properties *)

(** C10. A failed activation leaves nothing behind: unless the process is being
    interrupted, it raises a lifecycle error, what was active stays active with its
    fibers as they were, every fiber the attempt made is closed, every runtime and
    plugin it obtained has been closed, and none of its contributions is published. *)
Theorem failed_activations_leave_nothing plan l t l' y :
  reachable l -> run_to (activate attestation launchers plan l) t (Done (l', inl y)) -> fatal y = false ->
  is_lifecycle y = true /\ withdrawn l l' t.
Proof.
  intros Hl%reachable_ready Hrun Hy. pose proof (activation_wp plan l Hl) as Hwp. pose proof (mwp_guards _ _ _ _ _ _ _ Hwp Hrun) as Hg.
  destruct (mwp_sound _ _ _ _ _ _ _ _ Hwp Hrun) as [_ Hf]. unfold failed in Hf. rewrite Hy in Hf. destruct Hf as [Hlc Hu]. split; [done|].
  apply undone_withdrawn; [done|done|]. intros t1 e t2 oc Ht. exact (guard_given _ _ _ _ _ (Hg t1 e t2 Ht)).
Qed.

(** C11. A reload either swaps the sets or changes nothing: if it returns, the new
    set is in service and everything the previous one still owned has been disposed
    of; if it raises (and the process is not being interrupted), either the build
    failed and was withdrawn with the previous set still in service, or the sets
    were swapped and only disposers of the previous one failed. *)
Theorem reload_swaps_or_withdraws plan l p t l' r :
  reachable l -> mg_active l = Some p -> run_to (reload attestation launchers plan l) t (Done (l', r)) ->
  match r with
  | inr _ => swapped plan l p l' t
  | inl y => fatal y = false ->
      (is_lifecycle y = true /\ withdrawn l l' t /\ serving l' p) \/ (is_cleanup y /\ swapped plan l p l' t)
  end.
Proof.
  intros Hreach Hp Hrun. pose proof (reachable_ready l Hreach) as Hl. pose proof (reload_wp plan l Hl) as Hwp. pose proof (mwp_guards _ _ _ _ _ _ _ Hwp Hrun) as Hg.
  pose proof (reachable_ready l' (reach_transition l (Reload plan) t l' r Hreach Hrun)) as Hl'. destruct (mwp_sound _ _ _ _ _ _ _ _ Hwp Hrun) as [_ Hr]. destruct r as [y|u].
  - intros Hy. destruct Hr as [Hf|(p' & s & l2 & h1 & Hp' & Hi & Hr)].
    + unfold failed in Hf. rewrite Hy in Hf. destruct Hf as [Hlc Hu]. assert (Hwd : withdrawn l l' t).
      { apply undone_withdrawn; [done|done|]. intros t1 e t2 oc Ht Hge. destruct (Hg t1 e t2 Ht) as [Hgu|Hno]; [by eapply guard_given|].
        destruct e as [q a]. destruct q; simpl in Hno, Hge; done. }
      left. split_and!; [done|done|]. apply ready_serving; [done|]. by rewrite (wd_active _ _ _ Hwd).
    + assert (p' = p) as -> by congruence. rewrite Hy in Hr. right. split; [apply Hr|]. eapply installed_swaps; [done..|apply Hr].
  - destruct Hr as (s & l2 & h1 & Hi & Hr). rewrite Hp in Hr. by eapply installed_swaps.
Qed.

(** The previous set is retired only after the new one took its place: before
    anything of an older fiber is disposed of, the registry accepted a publication
    that replaces exactly the activations of the previous set; and a plugin's
    effects are disposed of only once all its consumers' are, even in a run that
    is cut short. *)
Theorem reload_publishes_before_it_retires plan l t o t1 c oc a t2 :
  reachable l -> run_to (reload attestation launchers plan l) t o -> t = t1 ++ (QDispose c oc ~> a) :: t2 ->
  oc_fiber oc < length (mg_fibers l) ->
  exists p, mg_active l = Some p /\ published (activation_ids p) (reverse t1) /\ retiring p (owning l) (reverse t1) oc.
Proof.
  intros Hl%reachable_ready Hrun Ht Hlt. destruct (mwp_guards _ _ _ _ _ _ _ (reload_wp plan l Hl) Hrun _ _ _ Ht) as [Hg|Hg]; [|exact Hg].
  unfold guard in Hg. simpl in Hg. lia.
Qed.
End Build.

(** Deactivation retires consumers before providers, and everything: nothing is
    active afterwards, whatever it raises; a plugin's effects are disposed of only
    once those of all later plugins are; and unless the process is being
    interrupted, everything the set still owned has been disposed of and only
    cleanup errors are raised. *)
Theorem deactivate_retires_everything attestation launchers l s t l' r :
  reachable attestation launchers l -> mg_active l = Some s -> run_to (deactivate l) t (Done (l', r)) ->
  mg_active l' = None /\
  (forall t1 c oc a t2, t = t1 ++ (QDispose c oc ~> a) :: t2 -> retiring s (owning l) (reverse t1) oc) /\
  match r with inl y => fatal y = false -> is_cleanup y | inr _ => True end /\
  (match r with inl y => fatal y = false | inr _ => True end ->
   forall c oc, owning l c oc -> oc_fiber oc = as_fiber s \/ oc_fiber oc ∈ ps_fiber <$> as_plugins s -> disposed t c oc).
Proof.
  intros Hl%reachable_ready Hs Hrun. pose proof (deactivate_wp l Hl) as Hwp. pose proof (mwp_guards _ _ _ _ _ _ _ Hwp Hrun) as Hg.
  destruct (mwp_sound _ _ _ _ _ _ _ _ Hwp Hrun) as [_ Hr].
  assert (Hpart : partly_retired s (set_active None l) l' /\ match r with inl y => fatal y = false -> is_cleanup y | inr _ => True end /\
    (match r with inl y => fatal y = false | inr _ => True end -> retired s (unheld l) (set_active None l) [] l' (reverse t))).
  { destruct r as [y|u]; [|rewrite Hs in Hr; split_and!; [by eapply partly_retires|done|done]]. destruct Hr as (s' & Hs' & Hr). assert (s' = s) as -> by congruence.
    destruct (fatal y); [by split_and!|]. destruct Hr as [Hc Hr]. split_and!; [by eapply partly_retires|done|done]. }
  destruct Hpart as ([_ Hst] & Hc & Hre). split_and!; [by rewrite (sd_active _ _ _ Hst)| |done|].
  - intros t1 c oc a t2 Ht. destruct (Hg _ _ _ Ht) as (s' & Hs' & Hret). by assert (s' = s) as -> by congruence.
  - intros Hr' c oc. by apply (retired_disposes s l (set_active None l) l' []), Hre.
Qed.

(** Plugins are prepared with exactly what was planned for them: whenever a plugin
    is prepared, it was loaded from a source of the plan, every requirement of its
    manifest is bound as planned: to a value that the planned provider itself
    exported earlier, under a version the requirement accepts, or to nothing if the
    requirement is optional and unprovided. *)
Theorem plugins_are_prepared_as_planned `{Packaging} harness_version att sources plan attestation launchers l t o t1 f c bs a t2 :
  PluginGraph.plan harness_version att sources = inr plan -> reachable attestation launchers l ->
  run_to (activate attestation launchers plan l) t o -> t = t1 ++ (QPrepare f c bs ~> a) :: t2 ->
  exists s rs, s ∈ sources /\ loaded t1 f s /\ rr_requirement <$> rs = pm_requires (vs_manifest s) /\
    Forall (fun r => let service := rq_service (rr_requirement r) in
      match rr_provider_plugin_id r with
      | None => rq_optional (rr_requirement r) = true /\ dget service bs = Some None
      | Some q => exists version value s' g, dget service bs = Some (Some (MkProviderBinding service version q value)) /\
          accepts (rr_requirement r) version = Ok true /\ s' ∈ sources /\ plugin_id s' = q /\ loaded t1 g s' /\ exported_by t1 g service value
      end) rs.
Proof.
  intros Hplan Hl%reachable_ready Hrun Ht. pose proof (mwp_guards _ _ _ _ _ _ _ (activation_wp attestation launchers plan l Hl) Hrun _ _ _ Ht) as [_ Hi].
  simpl in Hi. eapply injected_as_planned; [done|exact Hi|]. intros e. by rewrite elem_of_reverse.
Qed.
End Transitions.

(** ** A manager with three plugins *)
Abbreviation demo_state := (@State nat).
Abbreviation demo_ans := (@ans nat).

(** "pg" exports its fiber; "web" fails to activate if told to. *)
Definition demo_env (fails : bool) (q : @question nat) (n : nat) : demo_ans q * nat :=
  match q return demo_ans q * nat with
  | QAssertCurrent _ => (None, n)
  | QUuid => ("u", n)
  | QLoad _ _ | QLaunch _ _ _ _ | QPrepare _ _ _ => (([], inr true), n)
  | QExports f => (([], inr (Some (if decide (Nat.modulo f 4 = 2) then [("db.core", f)] else []))), n)
  | QActivate f c => (([ActOwn c "listener" f], if fails && bool_decide (Nat.modulo f 4 = 3) then Some (Exc OtherException) else None), n)
  | QPublish _ _ => (([], inr []), n)
  | QRevoke _ | QDispose _ _ => (([], None), n)
  | QClosed _ => ([], n)
  end.

Definition demo_launchers : list TrustMode := [ISOLATED_WORKER].
Definition demo_play (fails : bool) (o : op) (l : demo_state) := interp (demo_env fails) (transition 7 demo_launchers o l) 0.
Definition demo_trace (fails : bool) (o : op) (l : demo_state) := (demo_play fails o l).1.1.
Definition demo_after (fails : bool) (o : op) (l : demo_state) : demo_state :=
  match (demo_play fails o l).1.2 with Done (l', _) => l' | _ => l end.

Lemma demo_transition_runs fails o l : run_to (transition 7 demo_launchers o l) (demo_trace fails o l) (demo_play fails o l).1.2.
Proof. apply interp_run_to. Qed.

Definition demo_active : demo_state := demo_after false (Activate demo_plan) start.

Lemma demo_activates : (demo_play false (Activate demo_plan) start).1.2 = Done (demo_active, inr tt).
Proof. vm_compute. reflexivity. Qed.

Lemma demo_active_reachable : reachable 7 demo_launchers demo_active.
Proof.
  pose proof (demo_transition_runs false (Activate demo_plan) start) as Hr. rewrite demo_activates in Hr. exact (reach_transition _ _ _ _ _ _ _ (reach_start _ _) Hr).
Qed.

Lemma demo_has_set : exists p, mg_active demo_active = Some p /\ as_fiber p = 0 /\ (ps_fiber <$> as_plugins p) = [1; 2; 3].
Proof. vm_compute. eexists. split_and!; reflexivity. Qed.

Definition demo_failed : demo_state := demo_after true (Activate demo_plan) start.

Lemma demo_activation_fails : (demo_play true (Activate demo_plan) start).1.2 = Done (demo_failed, inl (PluginLifecycleError ACTIVATION_FAILED)).
Proof. vm_compute. reflexivity. Qed.

Lemma failed_activations_leave_nothing_witness : withdrawn start demo_failed (demo_trace true (Activate demo_plan) start).
Proof.
  pose proof (demo_transition_runs true (Activate demo_plan) start) as Hr. rewrite demo_activation_fails in Hr.
  exact (proj2 (failed_activations_leave_nothing 7 demo_launchers demo_plan start _ _ _ (reach_start _ _) Hr eq_refl)).
Defined.

Definition demo_reloaded : demo_state := demo_after false (Reload demo_plan) demo_active.

Lemma demo_reloads : (demo_play false (Reload demo_plan) demo_active).1.2 = Done (demo_reloaded, inr tt).
Proof. vm_compute. reflexivity. Qed.

Lemma reload_swaps_or_withdraws_witness :
  exists p, mg_active demo_active = Some p /\ swapped demo_plan demo_active p demo_reloaded (demo_trace false (Reload demo_plan) demo_active).
Proof.
  pose proof (demo_transition_runs false (Reload demo_plan) demo_active) as Hr. rewrite demo_reloads in Hr. destruct demo_has_set as (p & Hp & _).
  exact (ex_intro _ p (conj Hp (reload_swaps_or_withdraws 7 demo_launchers demo_plan demo_active p _ _ _ demo_active_reachable Hp Hr))).
Defined.

Definition is_disposal (e : event demo_ans) : option (nat * OwnedCall) := match projT1 e with QDispose c oc => Some (c, oc) | _ => None end.

Lemma disposal_is e c oc : is_disposal e = Some (c, oc) -> exists a, e = QDispose c oc ~> a.
Proof. destruct e as [q a]. destruct q; simpl; try done. intros [= -> ->]. by exists a. Qed.

Lemma demo_retires : exists i e c oc, demo_trace false (Reload demo_plan) demo_active !! i = Some e /\ is_disposal e = Some (c, oc) /\
  oc_fiber oc < length (mg_fibers demo_active).
Proof. exists 23. vm_compute. eexists _, _, _. split_and!; [reflexivity..|]. repeat constructor. Qed.

Lemma reload_publishes_before_it_retires_witness :
  exists i p, mg_active demo_active = Some p /\ published (activation_ids p) (reverse (take i (demo_trace false (Reload demo_plan) demo_active))).
Proof.
  destruct demo_retires as (i & e & c & oc & Hi & (a & ->)%disposal_is & Hlt).
  destruct (reload_publishes_before_it_retires 7 demo_launchers demo_plan demo_active _ _ _ _ _ _ _ demo_active_reachable
    (demo_transition_runs false (Reload demo_plan) demo_active) (eq_sym (take_drop_middle _ _ _ Hi)) Hlt) as (p & Hp & Hpub & _).
  exact (ex_intro _ i (ex_intro _ p (conj Hp Hpub))).
Defined.

Definition demo_deactivated : demo_state := demo_after false Deactivate demo_active.

Lemma demo_deactivates : (demo_play false Deactivate demo_active).1.2 = Done (demo_deactivated, inr tt).
Proof. vm_compute. reflexivity. Qed.

Lemma deactivate_retires_everything_witness : mg_active demo_deactivated = None.
Proof.
  pose proof (demo_transition_runs false Deactivate demo_active) as Hr. rewrite demo_deactivates in Hr. destruct demo_has_set as (p & Hp & _).
  exact (proj1 (deactivate_retires_everything 7 demo_launchers demo_active p _ _ _ demo_active_reachable Hp Hr)).
Defined.

Definition is_prepare (e : event demo_ans) : option (nat * nat * dict string (option (ProviderBinding (V := nat)))) :=
  match projT1 e with QPrepare f c bs => Some (f, c, bs) | _ => None end.

Lemma prepare_is e f c bs : is_prepare e = Some (f, c, bs) -> exists a, e = QPrepare f c bs ~> a.
Proof. destruct e as [q a]. destruct q; simpl; try done. intros [= -> -> ->]. by exists a. Qed.

Lemma demo_prepares_web : exists i e c, demo_trace false (Activate demo_plan) start !! i = Some e /\
  is_prepare e = Some (3, c, [("db.core", Some (MkProviderBinding "db.core" "3.1" "pg" 2)); ("trace", None)]).
Proof. exists 16. vm_compute. eexists _, _. split; reflexivity. Qed.

Lemma plugins_are_prepared_as_planned_witness : exists i s, s ∈ [demo_web; demo_pg; demo_log] /\
  loaded (take i (demo_trace false (Activate demo_plan) start)) 3 s.
Proof.
  destruct demo_prepares_web as (i & e & c & Hi & (a & ->)%prepare_is).
  destruct (@plugins_are_prepared_as_planned nat demo_packaging demo_harness 7 [demo_web; demo_pg; demo_log] demo_plan 7 demo_launchers start _ _ _ _ _ _ _ _ demo_planned
    (reach_start _ _) (demo_transition_runs false (Activate demo_plan) start) (eq_sym (take_drop_middle _ _ _ Hi))) as (s & rs & Hs & Hl & _).
  exact (ex_intro _ i (ex_intro _ s (conj Hs Hl))).
Defined.

(** ** An interrupt that is lost

    A bare [raise] in the [finally] block re-raises the cleanup error. *)
Lemma interrupts_are_replaced_by_cleanup_errors :
  let env (q : @question nat) (n : nat) : demo_ans q * nat :=
    match q return demo_ans q * nat with
    | QActivate _ _ => (([], Some KeyboardInterrupt), n)
    | QDispose _ _ => (([], Some (Exc OtherException)), n)
    | q => demo_env false q n
    end in
  match (interp env (activate 7 demo_launchers demo_plan start) 0).1.2 with
  | Done (_, inl y) => is_cleanup y
  | _ => False
  end.
Proof. vm_compute. eexists _, _. reflexivity. Qed.
End PluginTransitions.
