(* ===== verification/Bundle.v ===== *)
(** * Bundle declarations and planning ([runtime/descriptor.py], [runtime/bundle.py])

    [resolve_bundle_plan] selects the bundles a product needs by a depth-first
    visit, then checks capabilities, conflicts and providers.  The visit is a
    function on its explicit state with fuel for the depth of the recursion;
    [visit_total] shows that one more than the catalogue is enough. *)
From S2P Require Import Prelude PyText PluginModels Effects.
Open Scope string_scope.
Open Scope list_scope.

Section Descriptor.
Context `{Packaging}.

(** ** Declarations *)

(** [_component_id] and [_resource_set] *)
Definition component_id (value : string) : res string := require COMPONENT_ID value else ValueError ;; Ok value.
Definition resource_set (values : gset string) : res (gset string) :=
  require forallb NAME (elements values) else ValueError ;; Ok values.

Record BundleRequirement : Type := MkBundleRequirement { br_bundle_id : string; br_version : string; br_optional : bool }.
#[global] Instance BundleRequirement_eq_dec : EqDecision BundleRequirement.
Proof. solve_decision. Defined.

Definition bundle_requirement (r : BundleRequirement) : res BundleRequirement :=
  let! _ := component_id (br_bundle_id r) in
  let! _ := version_specifier (br_version r) true in Ok r.

(** [BundleRequirement.accepts] on a [Version] *)
Definition requirement_accepts (r : BundleRequirement) (v : version) : bool := spec_contains (br_version r) v.

Record BundleConflict : Type := MkBundleConflict { bc_bundle_id : string; bc_version : string }.

Definition bundle_conflict (c : BundleConflict) : res BundleConflict :=
  let! _ := component_id (bc_bundle_id c) in
  let! _ := version_specifier (bc_version c) true in Ok c.

(** [BundleConflict.matches] on a [Version] *)
Definition conflict_matches (c : BundleConflict) (v : version) : bool := spec_contains (bc_version c) v.

Record BundleManifest : Type := MkBundleManifest {
  bm_bundle_id : string;
  bm_version : string;
  bm_harness_api : string;
  bm_requires : list BundleRequirement;
  bm_conflicts : list BundleConflict;
  bm_provides : gset string;
  bm_capabilities : gset string;
}.

Definition bundle_manifest (m : BundleManifest) : res BundleManifest :=
  let! _ := component_id (bm_bundle_id m) in
  let! _ := canonical_version (bm_version m) in
  let! _ := version_specifier (bm_harness_api m) false in
  let! _ := resource_set (bm_provides m) in
  let! _ := resource_set (bm_capabilities m) in
  let dependency_ids := br_bundle_id <$> bm_requires m in
  let conflict_ids := bc_bundle_id <$> bm_conflicts m in
  require bool_decide (NoDup dependency_ids) else ValueError ;;
  require bool_decide (NoDup conflict_ids) else ValueError ;;
  require bool_decide (bm_bundle_id m ∉ dependency_ids) else ValueError ;;
  require bool_decide (bm_bundle_id m ∉ conflict_ids) else ValueError ;;
  Ok m.

(** [ProductDescriptor]; the configuration class is an object identity with the
    two facts [validate_config_model] asks of it. *)
Record ConfigModel : Type := MkConfigModel { cm_id : nat; cm_is_model : bool; cm_forbids_extra : bool }.
#[global] Instance ConfigModel_eq_dec : EqDecision ConfigModel.
Proof. solve_decision. Defined.

Record ProductDescriptor : Type := MkProductDescriptor {
  pd_product_id : string;
  pd_version : string;
  pd_harness_api : string;
  pd_bundles : list BundleRequirement;
  pd_capabilities : gset string;
  pd_config_model : ConfigModel;
}.
#[global] Instance ProductDescriptor_eq_dec : EqDecision ProductDescriptor.
Proof. solve_decision. Defined.

Definition product_descriptor (d : ProductDescriptor) : res ProductDescriptor :=
  let! _ := component_id (pd_product_id d) in
  let! _ := canonical_version (pd_version d) in
  let! _ := version_specifier (pd_harness_api d) false in
  let! _ := resource_set (pd_capabilities d) in
  require cm_is_model (pd_config_model d) else TypeError ;;
  require cm_forbids_extra (pd_config_model d) else ValueError ;;
  require bool_decide (NoDup (br_bundle_id <$> pd_bundles d)) else ValueError ;;
  Ok d.

(** ** Planning *)

(** [BundleResolutionCode] *)
Inductive BundleResolutionCode : Type :=
| DUPLICATE | MISSING | VERSION_MISMATCH | HARNESS_API | CONFLICT | CYCLE | PROVIDER_CONFLICT
| CAPABILITY_UNDECLARED | INVALID_BUNDLE.

(** What planning can end in: a [BundleResolutionError] with the identifiers of its
    detail, or an exception of a library call *)
Inductive resolution_error : Type :=
| Resolution (code : BundleResolutionCode) (detail : list string)
| Library (e : exn).

Definition resolved (A : Type) : Type := resolution_error + A.

(** A [Bundle]: its manifest and the identity of its [install] *)
Record Bundle : Type := MkBundle { bu_manifest : BundleManifest; bu_install : nat }.

Definition bundle_id (b : Bundle) : string := bm_bundle_id (bu_manifest b).

Definition manifest_version (m : BundleManifest) : resolved version :=
  match parse_version (bm_version m) with Some v => inr v | None => inl (Library ValueError) end.

(** The catalogue; an item that is not a bundle is [None]. *)
Definition add_to_catalog (catalog : dict string Bundle) (item : option Bundle) : resolved (dict string Bundle) :=
  match item with
  | None => inl (Resolution INVALID_BUNDLE [])
  | Some b =>
      match dget (bundle_id b) catalog with
      | Some _ => inl (Resolution DUPLICATE [bundle_id b])
      | None => inr (dset (bundle_id b) b catalog)
      end
  end.

(** The variables the nested function [visit] shares with its caller *)
Record Visit : Type := MkVisit {
  v_selected : dict string Bundle;
  v_visiting : list string;
  v_resolved : gset string;
  v_order : list Bundle;
}.

Section Resolve.
Context (runtime_version : version) (catalog : dict string Bundle).

Fixpoint visit (fuel : nat) (st : Visit) (req : BundleRequirement) (source : string) : resolved Visit :=
  match fuel with
  | O => inl (Library OutOfFuel)
  | S fuel =>
      match dget (br_bundle_id req) catalog with
      | None => if br_optional req then inr st else inl (Resolution MISSING [source; br_bundle_id req])
      | Some b =>
          let m := bu_manifest b in
          try! v := manifest_version m in
          if negb (requirement_accepts req v) then inl (Resolution VERSION_MISMATCH [source; br_bundle_id req])
          else if negb (spec_contains (bm_harness_api m) runtime_version) then inl (Resolution HARNESS_API [bm_bundle_id m])
          else match list_find (fun id => id = bm_bundle_id m) (v_visiting st) with
               | Some (start, _) => inl (Resolution CYCLE (drop start (v_visiting st) ++ [bm_bundle_id m]))
               | None =>
                   if decide (bm_bundle_id m ∈ v_resolved st) then inr st
                   else
                     let st := MkVisit (dset (bm_bundle_id m) b (v_selected st)) (v_visiting st ++ [bm_bundle_id m])
                                 (v_resolved st) (v_order st) in
                     try! st := efold (fun st dep => visit fuel st dep (bm_bundle_id m)) st (bm_requires m) in
                     inr (MkVisit (v_selected st) (take (length (v_visiting st) - 1) (v_visiting st))
                            ({[ bm_bundle_id m ]} ∪ v_resolved st) (v_order st ++ [b]))
               end
      end
  end.

(** Capabilities and conflicts of one selected bundle *)
Definition check_conflict (m : BundleManifest) (selected : dict string Bundle) (_ : unit) (c : BundleConflict) : resolved unit :=
  match dget (bc_bundle_id c) selected with
  | None => inr tt
  | Some target =>
      try! v := manifest_version (bu_manifest target) in
      if conflict_matches c v then inl (Resolution CONFLICT [bm_bundle_id m; bc_bundle_id c]) else inr tt
  end.

Definition check_bundle (product : ProductDescriptor) (selected : dict string Bundle) (_ : unit) (b : Bundle) : resolved unit :=
  let m := bu_manifest b in
  if decide (bm_capabilities m ⊆ pd_capabilities product) then efold (check_conflict m selected) tt (bm_conflicts m)
  else inl (Resolution CAPABILITY_UNDECLARED (bm_bundle_id m :: merge_sort String.le (elements (bm_capabilities m ∖ pd_capabilities product)))).

(** [provider_owner] *)
Definition claim_service (b : Bundle) (owner : dict string string) (service : string) : resolved (dict string string) :=
  match dget service owner with
  | Some previous => inl (Resolution PROVIDER_CONFLICT [service; previous; bundle_id b])
  | None => inr (dset service (bundle_id b) owner)
  end.

Definition claim_services (owner : dict string string) (b : Bundle) : resolved (dict string string) :=
  efold (claim_service b) owner (merge_sort String.le (elements (bm_provides (bu_manifest b)))).
End Resolve.

Record BundlePlan : Type := MkBundlePlan {
  bp_product : ProductDescriptor;
  bp_harness_version : version;
  bp_bundles : list Bundle;
}.

(** [BundlePlan.bundle_ids] *)
Definition bundle_ids (p : BundlePlan) : list string := bundle_id <$> bp_bundles p.

(** [harness_version] is text or a parsed [Version]. *)
Definition harness_of (h : string + version) : resolved version :=
  match h with
  | inr v => inr v
  | inl s => match parse_version s with Some v => inr v | None => inl (Resolution VERSION_MISMATCH [s]) end
  end.

(** From the catalogue on: visit the product's requirements, then check *)
Definition plan_from (product : ProductDescriptor) (runtime_version : version) (catalog : dict string Bundle) : resolved BundlePlan :=
  try! st := efold (fun st req => visit runtime_version catalog (S (length catalog)) st req (pd_product_id product))
              (MkVisit [] [] ∅ []) (pd_bundles product) in
  try! _ := efold (check_bundle product (v_selected st)) tt (v_order st) in
  try! _ := efold claim_services [] (v_order st) in
  inr (MkBundlePlan product runtime_version (v_order st)).

Definition resolve_bundle_plan (product : ProductDescriptor) (available : list (option Bundle)) (harness : string + version) :
    resolved BundlePlan :=
  try! runtime_version := harness_of harness in
  if negb (spec_contains (pd_harness_api product) runtime_version) then inl (Resolution HARNESS_API [pd_product_id product])
  else
    try! catalog := efold add_to_catalog [] available in
    plan_from product runtime_version catalog.

(** ** The depth-first visit *)
Section VisitProofs.
Context (runtime_version : version) (catalog : dict string Bundle).
Context (Hcat : forall k b, dget k catalog = Some b -> bundle_id b = k).

(** [dep] is satisfied by the bundles listed [before], or optional and absent. *)
Definition satisfied (before : list string) (dep : BundleRequirement) : Prop :=
  (br_bundle_id dep ∈ before /\ exists b v, dget (br_bundle_id dep) catalog = Some b /\
     manifest_version (bu_manifest b) = inr v /\ requirement_accepts dep v = true) \/
  (br_optional dep = true /\ dget (br_bundle_id dep) catalog = None).

Definition edge (x y : string) : Prop :=
  exists b dep, dget x catalog = Some b /\ dep ∈ bm_requires (bu_manifest b) /\ br_bundle_id dep = y.

Fixpoint path (l : list string) : Prop :=
  match l with
  | x :: (y :: _) as l => edge x y /\ path l
  | _ => True
  end.

Record visit_inv (st : Visit) : Prop := MkVisitInv {
  vi_resolved : forall x, x ∈ v_resolved st <-> x ∈ bundle_id <$> v_order st;
  vi_nodup : NoDup ((bundle_id <$> v_order st) ++ v_visiting st);
  vi_visiting : Forall (fun x => is_Some (dget x catalog)) (v_visiting st);
  vi_order : Forall (fun b => dget (bundle_id b) catalog = Some b /\ spec_contains (bm_harness_api (bu_manifest b)) runtime_version = true) (v_order st);
  vi_selected : forall x b, dget x (v_selected st) = Some b <->
    dget x catalog = Some b /\ x ∈ (bundle_id <$> v_order st) ++ v_visiting st;
  vi_topo : forall l1 b l2, v_order st = l1 ++ b :: l2 -> Forall (satisfied (bundle_id <$> l1)) (bm_requires (bu_manifest b));
  vi_path : path (v_visiting st);
}.

Lemma satisfied_mono before before' dep : before ⊆ before' -> satisfied before dep -> satisfied before' dep.
Proof. intros Hsub [[Hin Hb]|?]; [left|by right]. split; [by apply Hsub|done]. Qed.

Lemma path_snoc l x y : path (l ++ [x]) -> edge x y -> path ((l ++ [x]) ++ [y]).
Proof.
  induction l as [|z l IH]; [by split|]. intros Hp Hxy. destruct l as [|w l]; simpl in *; [tauto|]. destruct Hp as [Hzw Hp]. split; [done|by apply IH].
Qed.

(** The request comes from the bundle being visited. *)
Definition requested (st : Visit) (req : BundleRequirement) : Prop :=
  forall s, last (v_visiting st) = Some s -> exists b, dget s catalog = Some b /\ req ∈ bm_requires (bu_manifest b).

Lemma enter_inv st b :
  visit_inv st -> dget (bundle_id b) catalog = Some b -> bundle_id b ∉ v_visiting st -> bundle_id b ∉ v_resolved st ->
  path (v_visiting st ++ [bundle_id b]) ->
  visit_inv (MkVisit (dset (bundle_id b) b (v_selected st)) (v_visiting st ++ [bundle_id b]) (v_resolved st) (v_order st)).
Proof.
  intros [Hres Hnd Hvis Hord Hsel Htopo Hpath] Hb Hnv Hnr Hp. rewrite Hres in Hnr. split; simpl; try done.
  - rewrite app_assoc. apply NoDup_app. split_and!; [done| |apply NoDup_singleton]. intros x Hx ->%list_elem_of_singleton. set_solver.
  - apply Forall_app. split; [done|]. constructor; [by exists b|constructor].
  - intros x b'. rewrite dget_dset, app_assoc, elem_of_app, list_elem_of_singleton. case_decide as Hx.
    + subst x. split; [intros [= <-]; tauto|]. intros [Hd _]. congruence.
    + rewrite Hsel. tauto.
Qed.

Lemma requested_path st b req : visit_inv st -> br_bundle_id req = bundle_id b -> requested st req -> path (v_visiting st ++ [bundle_id b]).
Proof.
  intros Hinv Hreq Hr. pose proof (vi_path _ Hinv) as Hp. unfold requested in Hr.
  destruct (v_visiting st) as [|s l] using rev_ind; [done|]. rewrite last_snoc in Hr.
  destruct (Hr s eq_refl) as (b' & Hb' & Hin). apply path_snoc; [done|]. by exists b', req.
Qed.

(** What a visit leaves *)
Definition visited (st : Visit) (req : BundleRequirement) (st' : Visit) : Prop :=
  visit_inv st' /\ v_visiting st' = v_visiting st /\
  (exists new, v_order st' = v_order st ++ new /\ Forall (fun b => rtc edge (br_bundle_id req) (bundle_id b)) new) /\
  satisfied (bundle_id <$> v_order st') req.

Lemma path_prefix l x : path (l ++ [x]) -> path l.
Proof. induction l as [|y l IH]; [done|]. destruct l as [|z l]; simpl in *; [done|]. intros [Hyz Hp]. split; [done|by apply IH]. Qed.

(** The bundle whose dependencies have all been visited is appended. *)
Lemma leave_inv st b visiting :
  visit_inv st -> v_visiting st = visiting ++ [bundle_id b] -> dget (bundle_id b) catalog = Some b ->
  spec_contains (bm_harness_api (bu_manifest b)) runtime_version = true ->
  Forall (satisfied (bundle_id <$> v_order st)) (bm_requires (bu_manifest b)) ->
  visit_inv (MkVisit (v_selected st) visiting ({[ bundle_id b ]} ∪ v_resolved st) (v_order st ++ [b])).
Proof.
  intros [Hres Hnd Hvis Hord Hsel Htopo Hpath] Hv Hb Hapi Hdeps. rewrite Hv in *.
  assert (Hperm : (bundle_id <$> v_order st ++ [b]) ++ visiting ≡ₚ (bundle_id <$> v_order st) ++ visiting ++ [bundle_id b]).
  { rewrite fmap_app, <- app_assoc. apply Permutation_app_head. simpl. by rewrite Permutation_cons_append. }
  split; simpl.
  - intros x. rewrite elem_of_union, elem_of_singleton, Hres, fmap_app, elem_of_app. set_solver.
  - by rewrite Hperm.
  - by apply Forall_app in Hvis as [? _].
  - apply Forall_app. split; [done|]. by constructor.
  - intros x b'. rewrite Hperm. apply Hsel.
  - intros l1 b' l2 Heq. destruct l2 as [|z l2 _] using rev_ind.
    + apply app_inj_tail in Heq as [<- <-]. done.
    + rewrite app_comm_cons, app_assoc in Heq. apply app_inj_tail in Heq as [Heq _]. by eapply Htopo.
  - by eapply path_prefix.
Qed.

(** The loop over the dependencies of [b], which sits on top of [visiting] *)
Definition deps_visited (visiting : list string) (order : list Bundle) (b : Bundle) (done : list BundleRequirement) (s : Visit) : Prop :=
  visit_inv s /\ v_visiting s = visiting ++ [bundle_id b] /\
  (exists new, v_order s = order ++ new /\ Forall (fun b' => rtc edge (bundle_id b) (bundle_id b')) new) /\
  Forall (satisfied (bundle_id <$> v_order s)) done.

Lemma deps_requested visiting order b done dep rest s :
  deps_visited visiting order b done s -> dget (bundle_id b) catalog = Some b ->
  bm_requires (bu_manifest b) = done ++ dep :: rest -> requested s dep.
Proof.
  intros (_ & Hv & _) Hb Hd x Hl. rewrite Hv, last_snoc in Hl. simplify_eq. exists b. split; [done|]. rewrite Hd. set_solver.
Qed.

Lemma deps_loop (f : Visit -> BundleRequirement -> resolved Visit) st0 visiting b done rest s :
  (forall st req st', visit_inv st -> requested st req -> f st req = inr st' -> visited st req st') ->
  visit_inv st0 -> v_visiting st0 = visiting ++ [bundle_id b] -> dget (bundle_id b) catalog = Some b ->
  bm_requires (bu_manifest b) = done ++ rest -> efold f st0 done = inr s -> deps_visited visiting (v_order st0) b done s.
Proof.
  intros Hf Hinv0 Hv0 Hb Hsplit. apply (efold_ind (deps_visited visiting (v_order st0) b)).
  { split_and!; [done|done|exists []; by rewrite app_nil_r|constructor]. }
  intros d1 dep r1 s1 s2 Hd HI Hvisit. pose proof HI as (Hi1 & Hv1 & (new & Hnew & Hreach) & Hs1).
  apply Hf in Hvisit as (Hi2 & Hv2 & (new2 & Hnew2 & Hreach2) & Hs2); [|done|].
  - split_and!; [done|by rewrite Hv2| |].
    { exists (new ++ new2). split; [by rewrite Hnew2, Hnew, app_assoc|]. apply Forall_app. split; [done|].
      eapply Forall_impl; [exact Hreach2|]. intros b' Hb'. eapply rtc_l; [|exact Hb']. exists b, dep. split_and!; [done| |done].
      rewrite Hsplit, Hd. set_solver. }
    apply Forall_app. split; [|by constructor]. eapply Forall_impl; [exact Hs1|]. intros d. apply satisfied_mono. rewrite Hnew2, fmap_app. set_solver.
  - eapply deps_requested; [exact HI|done|]. rewrite Hsplit, Hd, <- app_assoc. done.
Qed.

Lemma visit_ok fuel st req source st' :
  visit_inv st -> requested st req -> visit runtime_version catalog fuel st req source = inr st' -> visited st req st'.
Proof.
  revert st req source st'. induction fuel as [|fuel IH]; intros st req source st' Hinv Hreq Hv; cbn [visit] in Hv; [done|].
  destruct (dget (br_bundle_id req) catalog) as [b|] eqn:Hb.
  2:{ destruct (br_optional req) eqn:Ho; simplify_eq. split_and!; [done..|exists []; by rewrite app_nil_r|by right]. }
  pose proof (Hcat _ _ Hb) as Hid. apply ebind_inr in Hv as (v & Hver & Hv).
  destruct (requirement_accepts req v) eqn:Hacc; simpl in Hv; [|done].
  destruct (spec_contains (bm_harness_api (bu_manifest b)) runtime_version) eqn:Hapi; simpl in Hv; [|done].
  fold (bundle_id b) in Hv. rewrite <- Hid in Hb.
  assert (Hsat : forall before, bundle_id b ∈ before -> satisfied before req).
  { intros before Hin. left. rewrite Hid in Hin, Hb. split; [done|]. by exists b, v. }
  destruct (list_find _ (v_visiting st)) as [[start ?]|] eqn:Hf; [done|].
  assert (Hnv : bundle_id b ∉ v_visiting st). { intros Hin. apply list_find_None in Hf. rewrite Forall_forall in Hf. by apply (Hf _ Hin). }
  destruct (decide (bundle_id b ∈ v_resolved st)) as [Hr|Hr].
  { simplify_eq. split_and!; [done..|exists []; by rewrite app_nil_r|]. apply Hsat. by apply (vi_resolved _ Hinv). }
  apply ebind_inr in Hv as (st1 & Hfold & [= <-]).
  pose proof (enter_inv st b Hinv Hb Hnv Hr (requested_path st b req Hinv (eq_sym Hid) Hreq)) as Hinv0.
  apply (deps_loop _ _ (v_visiting st) b _ []) in Hfold as (Hi1 & Hv1 & (new & Hnew & Hreach) & Hs1);
    [|intros ???; apply IH|done|done|done|by rewrite app_nil_r].
  assert (Htake : take (length (v_visiting st1) - 1) (v_visiting st1) = v_visiting st).
  { rewrite Hv1, length_app. simpl. rewrite take_app_le by lia. apply take_ge. lia. }
  rewrite Htake. split_and!.
  - by apply leave_inv.
  - done.
  - exists (new ++ [b]). simpl. split; [by rewrite Hnew, app_assoc|]. rewrite <- Hid. apply Forall_app. split; [done|].
    constructor; [apply rtc_refl|constructor].
  - apply Hsat. simpl. rewrite fmap_app. set_solver.
Qed.

Lemma visit_shape fuel st req source e : visit_inv st -> requested st req ->
  visit runtime_version catalog (S fuel) st req source = inl e ->
  (e <> Library OutOfFuel /\ forall c, e <> Resolution CYCLE c) \/
  (exists b, br_bundle_id req = bundle_id b /\ bundle_id b ∈ v_visiting st /\ exists c, e = Resolution CYCLE c) \/
  exists b prior dep rest s1, br_bundle_id req = bundle_id b /\ dget (bundle_id b) catalog = Some b /\ visit_inv s1 /\ requested s1 dep /\
    v_visiting s1 = v_visiting st ++ [bundle_id b] /\ bm_requires (bu_manifest b) = prior ++ dep :: rest /\
    visit runtime_version catalog fuel s1 dep (bundle_id b) = inl e.
Proof.
  intros Hinv Hreq Hv. cbn [visit] in Hv. destruct (dget (br_bundle_id req) catalog) as [b|] eqn:Hb.
  2:{ left. destruct (br_optional req); by simplify_eq. }
  pose proof (Hcat _ _ Hb) as Hid. rewrite <- Hid in Hb. unfold manifest_version in Hv.
  destruct (parse_version (bm_version (bu_manifest b))) as [v|]; simpl in Hv; [|left; by simplify_eq].
  destruct (requirement_accepts req v) eqn:Hacc; simpl in Hv; [|left; by simplify_eq].
  destruct (spec_contains (bm_harness_api (bu_manifest b)) runtime_version) eqn:Hapi; simpl in Hv; [|left; by simplify_eq].
  fold (bundle_id b) in Hv. right. destruct (list_find _ (v_visiting st)) as [[start x]|] eqn:Hf.
  { left. exists b. apply list_find_Some in Hf as (Hlk & -> & _). split_and!; [done|by eapply list_elem_of_lookup_2|]. simplify_eq. eauto. }
  assert (Hnv : bundle_id b ∉ v_visiting st). { intros Hin. apply list_find_None in Hf. rewrite Forall_forall in Hf. by apply (Hf _ Hin). }
  right. destruct (decide (bundle_id b ∈ v_resolved st)) as [Hr|Hr]; [done|]. apply ebind_inl in Hv as [Hv|(? & _ & ?)]; [|done].
  pose proof (enter_inv st b Hinv Hb Hnv Hr (requested_path st b req Hinv (eq_sym Hid) Hreq)) as Hinv0.
  apply efold_inl in Hv as (prior & dep & rest & s1 & Hsplit & Hdone & He).
  apply (deps_loop _ _ (v_visiting st) b _ (dep :: rest)) in Hdone as HI; [|intros ???; apply visit_ok|done|done|done|done].
  exists b, prior, dep, rest, s1. pose proof HI as (Hi1 & Hv1 & _). split_and!; try done. by eapply deps_requested.
Qed.

Lemma visiting_bound st : visit_inv st -> (length (v_visiting st) <= length catalog)%nat.
Proof.
  intros Hinv. rewrite <- (length_fmap fst catalog). apply submseteq_length, NoDup_submseteq.
  - pose proof (vi_nodup _ Hinv) as Hnd. by apply NoDup_app in Hnd as (_ & _ & ?).
  - intros x Hx. pose proof (vi_visiting _ Hinv) as Hv. rewrite Forall_forall in Hv. destruct (Hv x Hx) as [b Hb%dget_elem].
    apply list_elem_of_fmap. by exists (x, b).
Qed.

Lemma visit_total fuel st req source : visit_inv st -> requested st req -> (length catalog < fuel + length (v_visiting st))%nat ->
  visit runtime_version catalog fuel st req source <> inl (Library OutOfFuel).
Proof.
  revert st req source. induction fuel as [|fuel IH]; intros st req source Hinv Hreq Hf Hv.
  { apply visiting_bound in Hinv. lia. }
  destruct (visit_shape _ _ _ _ _ Hinv Hreq Hv) as [[? _]|[(b & _ & _ & c & [=])|(b & prior & dep & rest & s1 & _ & _ & Hi & Hr & Hvis & _ & He)]]; [done|].
  revert He. apply IH; [done|done|]. rewrite Hvis, length_app. simpl. lia.
Qed.

Lemma path_tc l1 x l2 y : path (l1 ++ x :: l2 ++ [y]) -> tc edge x y.
Proof.
  induction l1 as [|z l1 IH].
  - revert x. induction l2 as [|w l2 IH2]; intros x; simpl; [intros [? _]; by constructor|]. intros [Hxw Hp]. eapply tc_l; [done|by apply IH2].
  - intros Hp. apply IH. destruct l1; simpl in *; tauto.
Qed.

(** The error CYCLE is only ever raised for a cycle. *)
Lemma visit_cycle fuel st req source c : visit_inv st -> requested st req ->
  visit runtime_version catalog fuel st req source = inl (Resolution CYCLE c) -> exists x, tc edge x x.
Proof.
  revert st req source. induction fuel as [|fuel IH]; intros st req source Hinv Hreq Hv; [done|].
  destruct (visit_shape _ _ _ _ _ Hinv Hreq Hv) as [[_ Hc]|[(b & Hid & Hin & _)|(b & prior & dep & rest & s1 & _ & _ & Hi & Hr & _ & _ & He)]].
  - by destruct (Hc c).
  - exists (bundle_id b). pose proof (requested_path st b req Hinv Hid Hreq) as Hp. apply list_elem_of_split in Hin as (l1 & l2 & Heq).
    rewrite Heq, <- app_assoc in Hp. by eapply path_tc.
  - by eapply IH.
Qed.
End VisitProofs.

(** ** The whole plan *)
Lemma catalog_Ok available catalog : efold add_to_catalog [] available = inr catalog ->
  forall k b, dget k catalog = Some b <-> Some b ∈ available /\ bundle_id b = k.
Proof.
  apply (efold_ind (fun items d => forall k b, dget k d = Some b <-> Some b ∈ items /\ bundle_id b = k)); [set_solver|].
  intros items [b0|] rest d1 d2 _ IH Hadd; simpl in Hadd; [|done]. destruct (dget (bundle_id b0) d1) as [|] eqn:Hd; simplify_eq.
  intros k b. rewrite dget_dset, elem_of_app, list_elem_of_singleton. case_decide as Hk.
  - subst k. split; [intros [= <-]; auto|]. intros [[Hin|[= ->]] Hid]; [|done]. exfalso.
    assert (Hx : dget (bundle_id b) d1 = Some b) by (by apply IH). rewrite Hid in Hx. congruence.
  - rewrite IH. split; [tauto|]. intros [[Hin|[= ->]] Hid]; [tauto|congruence].
Qed.

(** [dep] is met by a bundle of [before], or is optional and not available. *)
Definition met (available : list (option Bundle)) (before : list Bundle) (dep : BundleRequirement) : Prop :=
  (exists b v, b ∈ before /\ bundle_id b = br_bundle_id dep /\ parse_version (bm_version (bu_manifest b)) = Some v /\ requirement_accepts dep v = true) \/
  (br_optional dep = true /\ forall b, Some b ∈ available -> bundle_id b <> br_bundle_id dep).

(** [x] requires [y], both available *)
Definition requires_bundle (available : list (option Bundle)) (x y : string) : Prop :=
  exists b dep, Some b ∈ available /\ bundle_id b = x /\ dep ∈ bm_requires (bu_manifest b) /\ br_bundle_id dep = y.

Lemma manifest_version_Ok m v : manifest_version m = inr v <-> parse_version (bm_version m) = Some v.
Proof. unfold manifest_version. destruct (parse_version (bm_version m)); naive_solver. Qed.

Lemma satisfied_met available catalog before dep :
  efold add_to_catalog [] available = inr catalog -> Forall (fun b => dget (bundle_id b) catalog = Some b) before ->
  satisfied catalog (bundle_id <$> before) dep -> met available before dep.
Proof.
  intros Hc Hb [[Hin (b & v & Hd & Hv & Ha)]|[Ho Hn]].
  - left. apply list_elem_of_fmap in Hin as (b' & Hid & Hb'). rewrite Forall_forall in Hb. specialize (Hb b' Hb').
    rewrite Hid in Hd. assert (b' = b) as -> by congruence. exists b, v. apply manifest_version_Ok in Hv. done.
  - right. split; [done|]. intros b Hav Hid. assert (Hd : dget (br_bundle_id dep) catalog = Some b) by (by apply (catalog_Ok _ _ Hc)). congruence.
Qed.

Lemma edge_requires available catalog x y : efold add_to_catalog [] available = inr catalog ->
  edge catalog x y -> requires_bundle available x y.
Proof. intros Hc (b & dep & Hd & Hin & Hy). apply (catalog_Ok _ _ Hc) in Hd as [? ?]. by exists b, dep. Qed.

(** The loop over the product's own requirements *)
Definition selected_for (runtime_version : version) (catalog : dict string Bundle) (done : list BundleRequirement) (st : Visit) : Prop :=
  visit_inv runtime_version catalog st /\ v_visiting st = [] /\
  Forall (satisfied catalog (bundle_id <$> v_order st)) done /\
  Forall (fun b => exists req, req ∈ done /\ rtc (edge catalog) (br_bundle_id req) (bundle_id b)) (v_order st).

Lemma empty_visit_inv runtime_version catalog : visit_inv runtime_version catalog (MkVisit [] [] ∅ []).
Proof. split; simpl; [set_solver|constructor|constructor|constructor|set_solver|by intros [|]|done]. Qed.

Lemma product_loop runtime_version available catalog fuel source reqs st :
  efold add_to_catalog [] available = inr catalog ->
  efold (fun st req => visit runtime_version catalog fuel st req source) (MkVisit [] [] ∅ []) reqs = inr st ->
  selected_for runtime_version catalog reqs st.
Proof.
  intros Hc. apply (efold_ind (selected_for runtime_version catalog)).
  { split_and!; [apply empty_visit_inv|done|constructor|constructor]. }
  intros done req rest s1 s2 _ (Hi & Hv & Hs & Hr) Hvisit.
  apply visit_ok in Hvisit as (Hi2 & Hv2 & (new & Hnew & Hreach) & Hs2); [|intros k b Hd; by apply (catalog_Ok _ _ Hc) in Hd as [_ ?]|done|].
  2:{ intros x. by rewrite Hv. }
  split_and!; [done|by rewrite Hv2| |].
  - apply Forall_app. split; [|by constructor]. eapply Forall_impl; [exact Hs|]. intros d. apply satisfied_mono. rewrite Hnew, fmap_app. set_solver.
  - rewrite Hnew. apply Forall_app. split; (eapply Forall_impl; [eassumption|]); [intros b (r & Hin & ?)|intros b Hb]; [exists r|exists req]; set_solver.
Qed.

Lemma check_bundles_Ok product selected order u :
  efold (check_bundle product selected) tt order = inr u ->
  Forall (fun b => bm_capabilities (bu_manifest b) ⊆ pd_capabilities product /\
    forall c target, c ∈ bm_conflicts (bu_manifest b) -> dget (bc_bundle_id c) selected = Some target ->
      exists v, parse_version (bm_version (bu_manifest target)) = Some v /\ conflict_matches c v = false) order.
Proof.
  apply (efold_ind (fun done _ => Forall _ done)); [constructor|]. intros done b rest u1 u2 _ IH Hb. apply Forall_app. split; [done|].
  constructor; [|constructor]. unfold check_bundle in Hb. case_decide as Hcap; [|done]. split; [done|]. revert Hb.
  intros Hb. pose (I := fun (cs : list BundleConflict) (_ : unit) => forall c target, c ∈ cs -> dget (bc_bundle_id c) selected = Some target ->
      exists v, parse_version (bm_version (bu_manifest target)) = Some v /\ conflict_matches c v = false).
  cut (I (bm_conflicts (bu_manifest b)) u2); [done|]. revert Hb. apply (efold_ind I); [by intros c target ?%not_elem_of_nil|].
  intros cs c rest' v1 v2 _ IHc Hcheck c' target [Hin| ->%list_elem_of_singleton]%elem_of_app Hd; [by eapply IHc|].
  unfold check_conflict in Hcheck. rewrite Hd in Hcheck. apply ebind_inr in Hcheck as (v & Hv & Hm). apply manifest_version_Ok in Hv.
  exists v. split; [done|]. by destruct (conflict_matches c v).
Qed.

Lemma claim_services_Ok order owners :
  efold claim_services [] order = inr owners ->
  forall i j b b', order !! i = Some b -> order !! j = Some b' -> i <> j -> bm_provides (bu_manifest b) ## bm_provides (bu_manifest b').
Proof.
  pose (J := fun (done : list Bundle) (d : dict string string) =>
    (forall b s, b ∈ done -> s ∈ bm_provides (bu_manifest b) -> is_Some (dget s d)) /\
    (forall i j b b', done !! i = Some b -> done !! j = Some b' -> i <> j -> bm_provides (bu_manifest b) ## bm_provides (bu_manifest b'))).
  intros Hc. cut (J order owners); [by intros [_ ?]|]. revert Hc. apply (efold_ind J).
  { split; [by intros b s ?%not_elem_of_nil|by intros [] j b b']. }
  intros done b rest d1 d2 _ [Hcov Hdis] Hclaim. unfold claim_services in Hclaim.
  pose (I := fun (ss : list string) (d : dict string string) =>
    (forall s, s ∈ ss -> dget s d1 = None /\ is_Some (dget s d)) /\ (forall s, is_Some (dget s d1) -> is_Some (dget s d))).
  assert (HI : I (merge_sort String.le (elements (bm_provides (bu_manifest b)))) d2).
  { revert Hclaim. apply (efold_ind I); [split; [by intros s ?%not_elem_of_nil|done]|].
    intros ss s rest' e1 e2 _ [Hn Hk] Hs. unfold claim_service in Hs. destruct (dget s e1) eqn:He; simplify_eq. split.
    - intros s' [Hin| ->%list_elem_of_singleton]%elem_of_app; rewrite dget_dset.
      + destruct (Hn s' Hin). case_decide; eauto.
      + rewrite decide_True by done. split; [|eauto]. destruct (dget s d1) eqn:Hd; [|done]. destruct (Hk s); [eauto|congruence].
    - intros s' Hs'. rewrite dget_dset. case_decide; eauto. }
  destruct HI as [Hnew Hkeep].
  assert (Hb : forall s, s ∈ bm_provides (bu_manifest b) -> dget s d1 = None /\ is_Some (dget s d2)).
  { intros s Hs. apply Hnew. rewrite merge_sort_Permutation. by apply elem_of_elements. }
  assert (Hfresh : forall b', b' ∈ done -> bm_provides (bu_manifest b') ## bm_provides (bu_manifest b)).
  { intros b' Hin s Hs1 Hs2. destruct (Hb s Hs2) as [Hnone _]. destruct (Hcov b' s Hin Hs1). congruence. }
  split.
  - intros b' s [Hin| ->%list_elem_of_singleton]%elem_of_app Hs; [by apply Hkeep, (Hcov b')|by apply Hb].
  - intros i j b1 b2 [Hi|[Hi1 Hi2]]%lookup_app_Some [Hj|[Hj1 Hj2]]%lookup_app_Some Hne;
      repeat match goal with Hx : [_] !! _ = Some _ |- _ => apply list_lookup_singleton_Some in Hx as [? <-] end.
    + by eapply Hdis.
    + apply Hfresh. by eapply list_elem_of_lookup_2.
    + symmetry. apply Hfresh. by eapply list_elem_of_lookup_2.
    + lia.
Qed.

(** The stages of [resolve_bundle_plan] up to the selection *)
Lemma resolve_stages product available harness r : resolve_bundle_plan product available harness = r ->
  (exists e, r = inl e /\ e <> Library OutOfFuel /\ forall c, e <> Resolution CYCLE c) \/
  exists rv catalog, efold add_to_catalog [] available = inr catalog /\ plan_from product rv catalog = r.
Proof.
  intros <-. unfold resolve_bundle_plan, harness_of.
  assert (Hrv : forall rv, let r := (if negb (spec_contains (pd_harness_api product) rv) then inl (Resolution HARNESS_API [pd_product_id product]) else
      try! catalog := efold add_to_catalog [] available in plan_from product rv catalog) in
    (exists e, r = inl e /\ e <> Library OutOfFuel /\ forall c, e <> Resolution CYCLE c) \/
    exists rv catalog, efold add_to_catalog [] available = inr catalog /\ plan_from product rv catalog = r).
  { intros rv. destruct (spec_contains (pd_harness_api product) rv); simpl; [|left; eexists; split; [done|split; done]].
    destruct (efold add_to_catalog [] available) as [e|catalog] eqn:Hc; simpl.
    - left. exists e. split; [done|]. apply efold_inl in Hc as (_ & item & _ & d & _ & _ & Ha). unfold add_to_catalog in Ha.
      split; [intros ->|intros c ->]; by repeat case_match.
    - right. exists rv, catalog. split; [done|]. reflexivity. }
  destruct harness as [s|rv]; [destruct (parse_version s) as [rv|]|]; simpl; [apply Hrv| |apply Hrv].
  left. eexists. split; [done|split; done].
Qed.

(** Errors after the selection are neither cycles nor exhausted fuel. *)
Lemma checks_fail_otherwise product selected order rv e :
  (try! _ := efold (check_bundle product selected) tt order in
   try! _ := efold claim_services [] order in inr (MkBundlePlan product rv order)) = inl e ->
  e <> Library OutOfFuel /\ forall c, e <> Resolution CYCLE c.
Proof.
  intros [He|(u & _ & [He|(o & _ & [=])]%ebind_inl)]%ebind_inl.
  - apply efold_inl in He as (_ & b & _ & u & _ & _ & He). unfold check_bundle in He. case_decide; [|by simplify_eq].
    apply efold_inl in He as (_ & c & _ & u' & _ & _ & He). unfold check_conflict, manifest_version in He.
    destruct (dget (bc_bundle_id c) selected) as [target|]; [|done].
    destruct (parse_version (bm_version (bu_manifest target))); simpl in He; [case_match|]; by simplify_eq.
  - apply efold_inl in He as (_ & b & _ & d & _ & _ & He). apply efold_inl in He as (_ & s & _ & d' & _ & _ & He).
    unfold claim_service in He. repeat case_match; by simplify_eq.
Qed.

(** ** Properties *)

(** A bundle plan is a sound selection: its bundles are distinct available
    bundles that support the harness, stay within the product's capabilities, do
    not conflict and provide no service twice; every dependency of a bundle comes
    before it in a version it accepts, or is optional and unavailable; the same
    holds of the product's own requirements; and nothing is selected that the
    product does not need. *)
Theorem bundle_plan_is_sound product available harness p :
  resolve_bundle_plan product available harness = inr p ->
  NoDup (bundle_ids p) /\
  Forall (fun b => Some b ∈ available /\ spec_contains (bm_harness_api (bu_manifest b)) (bp_harness_version p) = true /\
    bm_capabilities (bu_manifest b) ⊆ pd_capabilities product /\
    exists req, req ∈ pd_bundles product /\ rtc (requires_bundle available) (br_bundle_id req) (bundle_id b)) (bp_bundles p) /\
  (forall before b after, bp_bundles p = before ++ b :: after -> Forall (met available before) (bm_requires (bu_manifest b))) /\
  Forall (met available (bp_bundles p)) (pd_bundles product) /\
  (forall b b' c, b ∈ bp_bundles p -> b' ∈ bp_bundles p -> c ∈ bm_conflicts (bu_manifest b) -> bc_bundle_id c = bundle_id b' ->
     exists v, parse_version (bm_version (bu_manifest b')) = Some v /\ conflict_matches c v = false) /\
  (forall i j b b', bp_bundles p !! i = Some b -> bp_bundles p !! j = Some b' -> i <> j ->
     bm_provides (bu_manifest b) ## bm_provides (bu_manifest b')).
Proof.
  intros Hp. destruct (resolve_stages _ _ _ _ Hp) as [(e & [=] & _)|(rv & catalog & Hc & Hr)].
  unfold plan_from in Hr. apply ebind_inr in Hr as (st & Hst & Hr). apply ebind_inr in Hr as (u & Hchk & Hr). apply ebind_inr in Hr as (o & Hown & [= <-]).
  destruct (product_loop _ _ _ _ _ _ _ Hc Hst) as (Hinv & Hvis & Hsat & Hreach). cbn [bp_bundles bp_harness_version bundle_ids].
  pose proof (vi_order _ _ _ Hinv) as Hord. pose proof (vi_nodup _ _ _ Hinv) as Hnd. rewrite Hvis, app_nil_r in Hnd.
  pose proof (check_bundles_Ok _ _ _ _ Hchk) as Hb. rewrite Forall_forall in Hord, Hreach, Hb.
  assert (Hget : forall l, l ⊆ v_order st -> Forall (fun b => dget (bundle_id b) catalog = Some b) l).
  { intros l Hl. apply Forall_forall. intros b Hin. by apply Hord, Hl. }
  split_and!.
  - done.
  - apply Forall_forall. intros b Hin. destruct (Hord b Hin) as [Hd Hapi]. split_and!; [by apply (catalog_Ok _ _ Hc) in Hd as [? _]|done|by apply Hb|].
    destruct (Hreach b Hin) as (req & Hreq & Hrtc). exists req. split; [done|].
    revert Hrtc. generalize (br_bundle_id req) (bundle_id b). clear -Hc. intros x y Hxy.
    induction Hxy as [|x y z Hxy _ IH]; [apply rtc_refl|]. eapply rtc_l; [by eapply edge_requires|done].
  - intros before b after Heq. eapply Forall_impl; [by eapply (vi_topo _ _ _ Hinv)|]. intros d. eapply satisfied_met; [done|].
    apply Hget. rewrite Heq. set_solver.
  - eapply Forall_impl; [exact Hsat|]. intros d. eapply satisfied_met; [done|]. by apply Hget.
  - intros b b' c Hin Hin' Hcf Hid. apply (proj2 (Hb b Hin) c b' Hcf). apply (vi_selected _ _ _ Hinv). rewrite Hid.
    split; [by apply Hord|]. rewrite Hvis, app_nil_r. by apply list_elem_of_fmap_2.
  - by eapply claim_services_Ok.
Qed.

(** Planning always ends in a verdict: the depth of the visit never exceeds
    the catalogue, and CYCLE is raised only if some available bundle requires
    itself through others. *)
Theorem bundle_planning_is_decisive product available harness :
  resolve_bundle_plan product available harness <> inl (Library OutOfFuel) /\
  (forall c, resolve_bundle_plan product available harness = inl (Resolution CYCLE c) -> exists x, tc (requires_bundle available) x x).
Proof.
  assert (Herr : forall e, resolve_bundle_plan product available harness = inl e ->
    e <> Library OutOfFuel /\ forall c, e = Resolution CYCLE c -> exists x, tc (requires_bundle available) x x).
  { intros e Hp. destruct (resolve_stages _ _ _ _ Hp) as [(e' & [= <-] & Hf & Hc)|(rv & catalog & Hc & Hr)].
    { split; [done|]. intros c ->. by destruct (Hc c). }
    unfold plan_from in Hr. apply ebind_inl in Hr as [Hr|(st & _ & Hr)].
    2:{ apply checks_fail_otherwise in Hr as [Hf Hn]. split; [done|]. intros c ->. by destruct (Hn c). }
    apply efold_inl in Hr as (done & req & rest & st & _ & Hdone & Hv).
    destruct (product_loop _ _ _ _ _ _ _ Hc Hdone) as (Hinv & Hvis & _ & _).
    assert (Hcat : forall k b, dget k catalog = Some b -> bundle_id b = k) by (intros k b Hd; by apply (catalog_Ok _ _ Hc) in Hd as [_ ?]).
    assert (Hreq : requested catalog st req) by (intros x; by rewrite Hvis).
    split.
    - intros ->. revert Hv. apply visit_total; [done..|]. rewrite Hvis. simpl. lia.
    - intros c ->. apply visit_cycle in Hv as [x Hx]; [|done..]. exists x.
      assert (Hsub : forall a b, tc (edge catalog) a b -> tc (requires_bundle available) a b).
      { intros a b Hab. induction Hab; [constructor; by eapply edge_requires|eapply tc_l; [by eapply edge_requires|done]]. }
      by apply Hsub. }
  destruct (resolve_bundle_plan product available harness) as [e|p]; [|split; [done|by intros c [=]]].
  destruct (Herr e eq_refl) as [Hf Hc]. split; [by intros [= ->]|]. intros c [= ->]. by eapply Hc.
Qed.
End Descriptor.

(** ** Witnesses: a product with a web bundle that needs a database *)
#[local] Instance text_packaging : Packaging := {|
  version := string;
  parse_version := Some;
  version_str := fun v => v;
  version_leb := fun v w => bool_decide (String.le v w);
  spec_valid := fun _ => true;
  spec_contains := fun spec v => bool_decide (spec = "" \/ spec = v);
  word_char := fun l => match l with c :: r => if is_alnum c then Some r else None | [] => None end;
|}.

Definition sample_bundle (id : string) (requires : list BundleRequirement) : Bundle :=
  MkBundle (MkBundleManifest id "1.0" "" requires [] ∅ ∅) 0.

Definition sample_web : Bundle := sample_bundle "web" [MkBundleRequirement "db" "1.0" false; MkBundleRequirement "trace" "" true].
Definition sample_db : Bundle := sample_bundle "db" [].
Definition sample_loop : Bundle := sample_bundle "loop" [MkBundleRequirement "loop" "" false].

Definition sample_product (id : string) : ProductDescriptor :=
  MkProductDescriptor "shop" "1.0" "" [MkBundleRequirement id "" false] ∅ (MkConfigModel 0 true true).

Definition sample_version : @version text_packaging := "2.0".

Lemma sample_planned :
  resolve_bundle_plan (sample_product "web") [Some sample_web; Some sample_db] (inr sample_version) =
  inr (MkBundlePlan (sample_product "web") sample_version [sample_db; sample_web]).
Proof. vm_compute. reflexivity. Qed.

Lemma bundle_plan_is_sound_witness :
  NoDup ["db"; "web"] /\
  Forall (met [Some sample_web; Some sample_db] [sample_db; sample_web]) (pd_bundles (sample_product "web")).
Proof.
  destruct (bundle_plan_is_sound _ _ _ _ sample_planned) as (Hn & _ & _ & Hm & _). exact (conj Hn Hm).
Defined.

Lemma bundle_planning_is_decisive_witness :
  resolve_bundle_plan (sample_product "loop") [Some sample_loop] (inr sample_version) = inl (Resolution CYCLE ["loop"; "loop"]) /\
  exists x, tc (requires_bundle [Some sample_loop]) x x.
Proof.
  assert (Hp : resolve_bundle_plan (sample_product "loop") [Some sample_loop] (inr sample_version) = inl (Resolution CYCLE ["loop"; "loop"]))
    by (vm_compute; reflexivity).
  exact (conj Hp (proj2 (bundle_planning_is_decisive _ _ _) _ Hp)).
Defined.
