(* ===== verification/CustomerBundle.v ===== *)
(** * Customer bundles ([runtime/customer_bundle.py])

    A customer bundle selects products of a catalogue and declares which facts
    may flow between them.  [resolve_customer_bundle] turns it into a plan; the
    plan validates itself against its manifest whenever it is built, and keeps
    trusted copies next to the public ones, whose nested dictionaries and lists
    anybody may mutate.  Deep copies are equal values; a mutation replaces the
    contents of a public copy. *)
From S2P Require Import Prelude PyText PluginModels Effects Bundle.
Open Scope string_scope.
Open Scope list_scope.

(** ** Product configuration

    Configuration models belong to the products.  [raw] is what a manifest holds,
    [raw_eq] Python's [==] on it, [parse_config] the model's [model_validate], and
    [same_dump] says that two configurations dump, to equal values. *)
Inductive parsed (A : Type) : Type :=
| Parsed (a : A)
| Invalid  (** [ValidationError] *)
| Broken (e : exn).
Arguments Parsed {A} a.
Arguments Invalid {A}.
Arguments Broken {A} e.

Class ConfigModels : Type := {
  raw : Type;
  raw_eq : raw -> raw -> bool;
  config : Type;
  config_class : config -> nat;
  parse_config : ConfigModel -> raw -> parsed config;
  same_dump : config -> config -> bool;
}.

Section CustomerBundle.
Context `{Packaging} `{ConfigModels}.

(** ** Declarations *)

(** [_IDENTIFIER] is the expression of component ids; [_PREDICATE] allows [:] too. *)
Definition PREDICATE (s : string) : bool := dotted_name "._:-" s.

Record CustomerProductSelection : Type := MkSelection { sl_product_id : string; sl_version : string; sl_config : raw }.

Definition customer_product_selection (s : CustomerProductSelection) : res CustomerProductSelection :=
  let! _ := component_id (sl_product_id s) in
  let! _ := version_specifier (sl_version s) false in Ok s.

(** A specifier of an unvalidated object may be malformed. *)
Definition in_specifier (spec : string) (v : version) : res bool :=
  require spec_valid spec else ValueError ;; Ok (spec_contains spec v).

Inductive Customer360Mode : Type := ISOLATED | CURATED.
#[global] Instance Customer360Mode_eq_dec : EqDecision Customer360Mode.
Proof. solve_decision. Defined.

Record Customer360SharingRule : Type := MkRule { ru_producer : string; ru_consumer : string; ru_predicates : list string }.
#[global] Instance Customer360SharingRule_eq_dec : EqDecision Customer360SharingRule.
Proof. solve_decision. Defined.

Definition customer360_sharing_rule (r : Customer360SharingRule) : res Customer360SharingRule :=
  let! _ := component_id (ru_producer r) in
  let! _ := component_id (ru_consumer r) in
  require negb (bool_decide (ru_predicates r = [])) else ValueError ;;
  require forallb (fun v => bool_decide (PyText.strip v = v) && PREDICATE v) (ru_predicates r) else ValueError ;;
  require bool_decide (NoDup (ru_predicates r)) else ValueError ;;
  require negb (bool_decide (ru_producer r = ru_consumer r)) else ValueError ;;
  Ok r.

Record Customer360SharingManifest : Type := MkSharing { sh_mode : Customer360Mode; sh_rules : list Customer360SharingRule }.

Definition customer360_sharing_manifest (m : Customer360SharingManifest) : res Customer360SharingManifest :=
  let! _ := map_res customer360_sharing_rule (sh_rules m) in
  require bool_decide (sh_mode m = ISOLATED -> sh_rules m = []) else ValueError ;;
  require bool_decide (sh_mode m = CURATED -> sh_rules m <> []) else ValueError ;;
  Ok m.

Record CustomerBundleManifest : Type := MkCustomerBundleManifest {
  cm_schema_version : string;
  cm_customer_bundle_id : string;
  cm_version : string;
  cm_harness_api : string;
  cm_products : list CustomerProductSelection;
  cm_customer360 : Customer360SharingManifest;
}.

(** [validate_product_graph]: the loop over the sharing rules *)
Definition check_edge (selected : list string) (edges : list (string * string)) (r : Customer360SharingRule) :
    exn + list (string * string) :=
  if decide (ru_producer r ∉ selected \/ ru_consumer r ∉ selected) then inl ValueError
  else if decide ((ru_producer r, ru_consumer r) ∈ edges) then inl ValueError
  else inr (edges ++ [(ru_producer r, ru_consumer r)]).

Definition validate_product_graph (m : CustomerBundleManifest) : res unit :=
  let selected := sl_product_id <$> cm_products m in
  require negb (bool_decide (selected = [])) else ValueError ;;
  require bool_decide (NoDup selected) else ValueError ;;
  match efold (check_edge selected) [] (sh_rules (cm_customer360 m)) with inl e => Raise e | inr _ => Ok tt end.

Definition customer_bundle_manifest (m : CustomerBundleManifest) : res CustomerBundleManifest :=
  require bool_decide (cm_schema_version m = "1") else ValueError ;;
  let! _ := component_id (cm_customer_bundle_id m) in
  let! _ := canonical_version (cm_version m) in
  let! _ := version_specifier (cm_harness_api m) false in
  let! _ := map_res customer_product_selection (cm_products m) in
  let! _ := customer360_sharing_manifest (cm_customer360 m) in
  let! _ := validate_product_graph m in
  Ok m.

(** ** The catalogue *)
Inductive CustomerBundleResolutionCode : Type :=
| INVALID_CATALOG | DUPLICATE_CATALOG_PRODUCT | INVALID_HARNESS_VERSION | BUNDLE_HARNESS_API_MISMATCH
| UNKNOWN_PRODUCT | PRODUCT_VERSION_MISMATCH | PRODUCT_HARNESS_API_MISMATCH | CONFIG_INVALID.

(** A [CustomerBundleResolutionError] with the identifiers of its detail, or another exception *)
Inductive customer_error : Type :=
| CustomerResolution (code : CustomerBundleResolutionCode) (detail : list string)
| CustomerFailure (e : exn).

Definition of_res {A : Type} (r : res A) : customer_error + A :=
  match r with Ok a => inr a | Raise e => inl (CustomerFailure e) end.

Definition index_descriptor (indexed : dict string ProductDescriptor) (item : option ProductDescriptor) :
    customer_error + dict string ProductDescriptor :=
  match item with
  | None => inl (CustomerResolution INVALID_CATALOG [])
  | Some d =>
      match dget (pd_product_id d) indexed with
      | Some _ => inl (CustomerResolution DUPLICATE_CATALOG_PRODUCT [pd_product_id d])
      | None => inr (dset (pd_product_id d) d indexed)
      end
  end.

(** [ProductCatalog.__init__]; an item that is no descriptor is [None]. *)
Definition product_catalog (items : list (option ProductDescriptor)) : customer_error + dict string ProductDescriptor :=
  try! indexed := efold index_descriptor [] items in inr (sort_by fst indexed).

Definition catalog_get (catalog : dict string ProductDescriptor) (product_id : string) : option ProductDescriptor :=
  dget product_id catalog.

(** ** Resolved products *)
Record ResolvedCustomerProduct : Type := MkResolvedProduct {
  rp_selection : CustomerProductSelection;
  rp_descriptor : ProductDescriptor;
  rp_config : config;
  rp_trusted_selection : CustomerProductSelection;
  rp_trusted_config : config;
}.

(** [__post_init__]: public copies next to the trusted ones *)
Definition resolved_customer_product (s : CustomerProductSelection) (d : ProductDescriptor) (c : config) : ResolvedCustomerProduct :=
  MkResolvedProduct s d c s c.

Definition product_snapshot (p : ResolvedCustomerProduct) : ResolvedCustomerProduct :=
  resolved_customer_product (rp_trusted_selection p) (rp_descriptor p) (rp_trusted_config p).

Definition config_snapshot (p : ResolvedCustomerProduct) : config := rp_trusted_config p.

(** The property [product_id] *)
Definition rp_product_id (p : ResolvedCustomerProduct) : string := pd_product_id (rp_descriptor p).

Record Customer360SharingPlan : Type := MkSharingPlan { sp_mode : Customer360Mode; sp_rules : list Customer360SharingRule }.
#[global] Instance Customer360SharingPlan_eq_dec : EqDecision Customer360SharingPlan.
Proof. solve_decision. Defined.

(** [Customer360SharingPlan.enabled] *)
Definition sharing_enabled (p : Customer360SharingPlan) : bool := bool_decide (sp_mode p = CURATED).

(** Tuples of strings in lexicographic order; the sort key of a rule is the tuple
    of its producer, its consumer and its sorted predicates. *)
Fixpoint strings_leb (a b : list string) : bool :=
  match a, b with
  | [], _ => true
  | _ :: _, [] => false
  | x :: a, y :: b => if decide (x = y) then strings_leb a b else bool_decide (String.le x y)
  end.

Definition rule_key (r : Customer360SharingRule) : list string :=
  ru_producer r :: ru_consumer r :: merge_sort String.le (ru_predicates r).
Definition rule_le (a b : Customer360SharingRule) : Prop := strings_leb (rule_key a) (rule_key b) = true.
#[global] Instance rule_le_dec : RelDecision rule_le.
Proof. intros a b. unfold rule_le. apply _. Defined.

(** [_sharing_plan_from_manifest] *)
Definition sharing_plan_from_manifest (m : CustomerBundleManifest) : Customer360SharingPlan :=
  MkSharingPlan (sh_mode (cm_customer360 m))
    ((fun r => MkRule (ru_producer r) (ru_consumer r) (merge_sort String.le (ru_predicates r)))
       <$> merge_sort rule_le (sh_rules (cm_customer360 m))).

(** ** Plans *)
Record CustomerBundlePlan : Type := MkCustomerBundlePlan {
  cp_manifest : CustomerBundleManifest;
  cp_harness_version : version;
  cp_products : list ResolvedCustomerProduct;
  cp_sharing : Customer360SharingPlan;
  cp_trusted_manifest : CustomerBundleManifest;
}.

(** [_validated_manifest_snapshot] *)
Definition validated_manifest_snapshot (m : CustomerBundleManifest) : res CustomerBundleManifest :=
  match customer_bundle_manifest m with Ok m => Ok m | Raise _ => Raise ValueError end.

(** [_validated_descriptor_snapshot]; the nested requirements are validated too. *)
Definition validated_descriptor_snapshot (d : ProductDescriptor) : res ProductDescriptor :=
  match (let! _ := map_res bundle_requirement (pd_bundles d) in product_descriptor d) with
  | Ok d => Ok d
  | Raise _ => Raise ValueError
  end.

(** [_equivalent_config] *)
Definition equivalent_config (actual expected : config) : bool :=
  bool_decide (config_class actual = config_class expected) && same_dump actual expected.

(** [==] on selections *)
Definition selection_eq (a b : CustomerProductSelection) : bool :=
  bool_decide (sl_product_id a = sl_product_id b) && bool_decide (sl_version a = sl_version b) && raw_eq (sl_config a) (sl_config b).

(** [ProductDescriptor.parsed_version] *)
Definition descriptor_version (d : ProductDescriptor) : res version :=
  match parse_version (pd_version d) with Some v => Ok v | None => Raise ValueError end.

(** One round of the loop that builds [canonical_products] *)
Definition canonical_product (selections : dict string CustomerProductSelection) (harness : version) (p : ResolvedCustomerProduct) :
    res ResolvedCustomerProduct :=
  match dget (sl_product_id (rp_selection p)) selections with
  | None => Raise KeyError
  | Some selection =>
      require selection_eq (rp_selection p) selection else ValueError ;;
      let! descriptor := validated_descriptor_snapshot (rp_descriptor p) in
      require bool_decide (pd_product_id descriptor = sl_product_id selection) else ValueError ;;
      let! v := descriptor_version descriptor in
      require spec_contains (sl_version selection) v else ValueError ;;
      require spec_contains (pd_harness_api descriptor) harness else ValueError ;;
      match parse_config (pd_config_model descriptor) (sl_config selection) with
      | Invalid => Raise ValueError
      | Broken e => if decide (e = TypeError) then Raise ValueError else Raise e
      | Parsed c =>
          require equivalent_config (config_snapshot p) c else ValueError ;;
          Ok (resolved_customer_product selection descriptor c)
      end
  end.

(** [CustomerBundlePlan.__post_init__] *)
Definition customer_bundle_plan (manifest : CustomerBundleManifest) (harness : version)
    (products : list ResolvedCustomerProduct) (sharing : Customer360SharingPlan) : res CustomerBundlePlan :=
  let! trusted := validated_manifest_snapshot manifest in
  require spec_contains (cm_harness_api trusted) harness else ValueError ;;
  let selections := foldl (fun d s => dset (sl_product_id s) s d) [] (cm_products trusted) in
  let supplied := product_snapshot <$> products in
  require forallb (fun p => bool_decide (rp_product_id p = sl_product_id (rp_selection p))) supplied else ValueError ;;
  let supplied_ids := (fun p => sl_product_id (rp_selection p)) <$> supplied in
  require bool_decide (NoDup supplied_ids) else ValueError ;;
  require bool_decide (list_to_set supplied_ids =@{gset string} list_to_set selections.*1) else ValueError ;;
  let! canonical := map_res (canonical_product selections harness) (sort_by (fun p => sl_product_id (rp_selection p)) supplied) in
  require bool_decide (sharing = sharing_plan_from_manifest trusted) else ValueError ;;
  Ok (MkCustomerBundlePlan trusted harness canonical sharing trusted).

(** [CustomerBundlePlan._snapshot] *)
Definition plan_snapshot (p : CustomerBundlePlan) : res CustomerBundlePlan :=
  customer_bundle_plan (cp_trusted_manifest p) (cp_harness_version p) (product_snapshot <$> cp_products p) (cp_sharing p).

(** [CustomerBundlePlan.product_ids] *)
Definition product_ids (p : CustomerBundlePlan) : list string := rp_product_id <$> cp_products p.

(** One round of the loop of [resolve_customer_bundle] *)
Definition resolve_product (catalog : dict string ProductDescriptor) (runtime_version : version)
    (resolved : list ResolvedCustomerProduct) (s : CustomerProductSelection) : customer_error + list ResolvedCustomerProduct :=
  match catalog_get catalog (sl_product_id s) with
  | None => inl (CustomerResolution UNKNOWN_PRODUCT [sl_product_id s])
  | Some d =>
      try! v := of_res (descriptor_version d) in
      try! ok := of_res (in_specifier (sl_version s) v) in
      if negb ok then inl (CustomerResolution PRODUCT_VERSION_MISMATCH [sl_product_id s]) else
      try! ok := of_res (in_specifier (pd_harness_api d) runtime_version) in
      if negb ok then inl (CustomerResolution PRODUCT_HARNESS_API_MISMATCH [sl_product_id s]) else
      match parse_config (pd_config_model d) (sl_config s) with
      | Invalid => inl (CustomerResolution CONFIG_INVALID [sl_product_id s])
      | Broken e => inl (CustomerFailure e)
      | Parsed c => inr (resolved ++ [resolved_customer_product s d c])
      end
  end.

(** The manifest comes as an instance, copied without validation, or as a raw
    mapping, which is validated. *)
Inductive manifest_arg : Type :=
| Instance_ (m : CustomerBundleManifest)
| Mapping (m : CustomerBundleManifest).

Definition customer_harness (h : string + version) : customer_error + version :=
  match h with
  | inr v => inr v
  | inl s => match parse_version s with Some v => inr v | None => inl (CustomerResolution INVALID_HARNESS_VERSION [s]) end
  end.

Definition resolve_customer_bundle (manifest : manifest_arg) (catalog : dict string ProductDescriptor) (harness : string + version) :
    customer_error + CustomerBundlePlan :=
  try! parsed_manifest := match manifest with
                          | Instance_ m => inr m
                          | Mapping m => of_res (customer_bundle_manifest m)
                          end in
  try! runtime_version := customer_harness harness in
  try! ok := of_res (in_specifier (cm_harness_api parsed_manifest) runtime_version) in
  if negb ok then inl (CustomerResolution BUNDLE_HARNESS_API_MISMATCH [cm_customer_bundle_id parsed_manifest]) else
  try! resolved := efold (resolve_product catalog runtime_version) [] (sort_by sl_product_id (cm_products parsed_manifest)) in
  of_res (customer_bundle_plan parsed_manifest runtime_version resolved (sharing_plan_from_manifest parsed_manifest)).

(** ** Validators return what they are given *)
Lemma customer_bundle_manifest_same m m' : customer_bundle_manifest m = Ok m' -> m' = m.
Proof. unfold customer_bundle_manifest. intros Hm. by py_simpl. Qed.

Lemma validated_manifest_same m m' : validated_manifest_snapshot m = Ok m' -> m' = m /\ customer_bundle_manifest m = Ok m.
Proof.
  unfold validated_manifest_snapshot. destruct (customer_bundle_manifest m) as [m1|] eqn:Hm; [|done].
  intros [= <-]. by rewrite (customer_bundle_manifest_same _ _ Hm) in *.
Qed.

Lemma validated_descriptor_same d d' : validated_descriptor_snapshot d = Ok d' -> d' = d.
Proof.
  unfold validated_descriptor_snapshot, product_descriptor. destruct (res_bind _ _) as [d1|] eqn:Hd; [|done]. intros [= <-]. by py_simpl.
Qed.

(** ** What a valid manifest satisfies *)
Lemma manifest_products_distinct m : customer_bundle_manifest m = Ok m -> NoDup (sl_product_id <$> cm_products m).
Proof. unfold customer_bundle_manifest, validate_product_graph. intros Hm. by py_simpl. Qed.

Lemma manifest_rules m : customer_bundle_manifest m = Ok m ->
  NoDup ((fun r => (ru_producer r, ru_consumer r)) <$> sh_rules (cm_customer360 m)) /\
  Forall (fun r => ru_producer r ∈ (sl_product_id <$> cm_products m) /\ ru_consumer r ∈ (sl_product_id <$> cm_products m) /\
    ru_producer r <> ru_consumer r /\ ru_predicates r <> []) (sh_rules (cm_customer360 m)) /\
  (sh_mode (cm_customer360 m) = ISOLATED -> sh_rules (cm_customer360 m) = []).
Proof.
  unfold customer_bundle_manifest, validate_product_graph, customer360_sharing_manifest. intros Hm. py_simpl.
  destruct (efold _ _ _) as [|edges] eqn:He; [done|]. set (rules := sh_rules (cm_customer360 m)) in *.
  assert (Hedges : edges = ((fun r => (ru_producer r, ru_consumer r)) <$> rules) /\ NoDup edges /\
    Forall (fun r => ru_producer r ∈ (sl_product_id <$> cm_products m) /\ ru_consumer r ∈ (sl_product_id <$> cm_products m)) rules).
  { revert He. apply (efold_ind (fun dn es => es = ((fun r => (ru_producer r, ru_consumer r)) <$> dn) /\ NoDup es /\
      Forall (fun r => ru_producer r ∈ (sl_product_id <$> cm_products m) /\ ru_consumer r ∈ (sl_product_id <$> cm_products m)) dn));
      [by repeat constructor|]. intros dn r rest e1 e2 _ (-> & Hnd & Hf). unfold check_edge.
    case_decide as Hsel; [done|]. case_decide as Hin; [done|]. intros [= <-]. rewrite fmap_app, Forall_app. split_and!; [done| |done|].
    - apply NoDup_app. split_and!; [done| |apply NoDup_singleton]. intros x Hx ->%list_elem_of_singleton. done.
    - repeat constructor; [destruct (decide (ru_producer r ∈ (sl_product_id <$> cm_products m)))|
        destruct (decide (ru_consumer r ∈ (sl_product_id <$> cm_products m)))]; try done; exfalso; apply Hsel; auto. }
  destruct Hedges as (-> & Hnd & Hf). split_and!; [done| |done]. apply Forall_forall. intros r Hr.
  rewrite Forall_forall in Hf. destruct (Hf r Hr) as [Hp Hc].
  match goal with Hx : map_res customer360_sharing_rule _ = Ok _ |- _ => apply map_res_Ok in Hx; rename Hx into Hmap end.
  apply list_elem_of_lookup in Hr as [i Hi]. destruct (Forall2_lookup_l _ _ _ _ _ Hmap Hi) as (r' & _ & Hr').
  unfold customer360_sharing_rule in Hr'. by py_simpl.
Qed.

(** ** The loop over the selections *)
Definition resolves (catalog : dict string ProductDescriptor) (rv : version) (s : CustomerProductSelection) (p : ResolvedCustomerProduct) : Prop :=
  exists d c v, p = resolved_customer_product s d c /\ catalog_get catalog (sl_product_id s) = Some d /\
    parse_version (pd_version d) = Some v /\ spec_contains (sl_version s) v = true /\
    spec_contains (pd_harness_api d) rv = true /\ parse_config (pd_config_model d) (sl_config s) = Parsed c.

Lemma of_res_inr {A : Type} (r : res A) a : of_res r = inr a <-> r = Ok a.
Proof. destruct r; simpl; naive_solver. Qed.

Lemma resolve_product_Ok catalog rv rs s rs' :
  resolve_product catalog rv rs s = inr rs' -> exists p, rs' = rs ++ [p] /\ resolves catalog rv s p.
Proof.
  unfold resolve_product. destruct (catalog_get catalog (sl_product_id s)) as [d|] eqn:Hd; [|done].
  intros (v & Hv%of_res_inr & Hx)%ebind_inr. apply ebind_inr in Hx as (ok1 & Hok1%of_res_inr & Hx). destruct ok1; [simpl in Hx|done].
  apply ebind_inr in Hx as (ok2 & Hok2%of_res_inr & Hx). destruct ok2; [simpl in Hx|done].
  destruct (parse_config _ _) as [c| |] eqn:Hc; [|done..]. injection Hx as <-.
  unfold in_specifier, descriptor_version in *. py_simpl. destruct (parse_version (pd_version d)) as [v'|] eqn:Hv'; [|done]. py_simpl.
  eexists. split; [done|]. by exists d, c, v.
Qed.

Lemma resolve_loop catalog rv l r : efold (resolve_product catalog rv) [] l = inr r -> Forall2 (resolves catalog rv) l r.
Proof.
  apply (efold_ind (fun dn acc => Forall2 (resolves catalog rv) dn acc)); [constructor|].
  intros dn s rest a1 a2 _ Hf (p & -> & Hp)%resolve_product_Ok. apply Forall2_app; [done|]. by repeat constructor.
Qed.

Lemma resolves_ids catalog rv l r : Forall2 (resolves catalog rv) l r ->
  (fun p => sl_product_id (rp_selection p)) <$> r = sl_product_id <$> l /\ product_snapshot <$> r = r.
Proof.
  induction 1 as [|s p l r (d & c & v & -> & _) _ [IH1 IH2]]; csimpl; [done|]. by rewrite IH1, IH2.
Qed.

(** A resolved product is its own canonical form. *)
Lemma canonical_fixed catalog rv hv selections s p q :
  resolves catalog rv s p -> dget (sl_product_id s) selections = Some s -> canonical_product selections hv p = Ok q -> q = p.
Proof.
  intros (d & c & v & -> & _ & _ & _ & _ & Hc) Hs. unfold canonical_product. simpl. rewrite Hs. intros Hq. py_simpl.
  match goal with Hx : validated_descriptor_snapshot _ = Ok _ |- _ => apply validated_descriptor_same in Hx as -> end.
  rewrite Hc in *. by py_simpl.
Qed.

Lemma plan_of_resolved catalog rv m r sh p :
  Forall2 (resolves catalog rv) (sort_by sl_product_id (cm_products m)) r ->
  customer_bundle_plan m rv r sh = Ok p ->
  customer_bundle_manifest m = Ok m /\ spec_contains (cm_harness_api m) rv = true /\ sh = sharing_plan_from_manifest m /\
  p = MkCustomerBundlePlan m rv r sh m.
Proof.
  intros Hr Hp. unfold customer_bundle_plan in Hp. apply res_bind_Ok in Hp as (m' & [-> Hm]%validated_manifest_same & Hp).
  py_simpl. match goal with Hx : map_res _ _ = Ok _ |- _ => apply map_res_Ok in Hx; rename Hx into Hmap end.
  destruct (resolves_ids _ _ _ _ Hr) as [Hids Hsnap]. rewrite Hsnap in Hmap.
  pose proof (manifest_products_distinct _ Hm) as Hnd. pose proof (sort_by_perm sl_product_id (cm_products m)) as Hperm.
  assert (Hsorted : sort_by (fun q => sl_product_id (rp_selection q)) r = r).
  { apply sort_by_fixed; [by rewrite Hids, Hperm|]. pose proof (sort_by_sorted sl_product_id (cm_products m)) as Hs.
    clear -Hr Hs. induction Hr as [|s q l r (d & c & v & -> & _) Hr IH]; constructor.
    - apply IH. by inversion Hs.
    - apply StronglySorted_inv in Hs as [_ Hs]. clear -Hr Hs. induction Hr as [|s' q' l r (d' & c' & v' & -> & _) Hr IH]; constructor.
      + by apply Forall_inv in Hs.
      + apply IH. by apply Forall_inv_tail in Hs. }
  rewrite Hsorted in Hmap. split_and!; [done..|]. f_equal. apply list_eq_Forall2.
  apply Forall2_same_length_lookup_2; [symmetry; by eapply Forall2_length|]. intros i q q' Hq Hq'.
  destruct (Forall2_lookup_r _ _ _ _ _ Hmap Hq) as (q1 & Hq1 & Hcan). simplify_eq.
  destruct (Forall2_lookup_r _ _ _ _ _ Hr Hq') as (s & Hs & Hres).
  eapply canonical_fixed; [done| |done]. apply (dget_foldl_dset sl_product_id (fun s => s)); [done|]. rewrite <- Hperm. by eapply list_elem_of_lookup_2.
Qed.

Lemma resolution_stages manifest catalog harness p :
  resolve_customer_bundle manifest catalog harness = inr p ->
  exists m rv r, (manifest = Instance_ m \/ manifest = Mapping m) /\ customer_bundle_manifest m = Ok m /\
    spec_contains (cm_harness_api m) rv = true /\ Forall2 (resolves catalog rv) (sort_by sl_product_id (cm_products m)) r /\
    p = MkCustomerBundlePlan m rv r (sharing_plan_from_manifest m) m /\
    customer_bundle_plan m rv r (sharing_plan_from_manifest m) = Ok p.
Proof.
  unfold resolve_customer_bundle. intros (m & Hm & Hx)%ebind_inr. apply ebind_inr in Hx as (rv & _ & Hx).
  apply ebind_inr in Hx as (ok & _ & Hx). destruct ok; [simpl in Hx|done].
  apply ebind_inr in Hx as (r & Hr%resolve_loop & Hp%of_res_inr).
  destruct (plan_of_resolved _ _ _ _ _ _ Hr Hp) as (Hv & Hh & _ & Hpe). exists m, rv, r. split_and!; try done.
  destruct manifest as [m1|m1]; [left; congruence|right]. apply of_res_inr in Hm. by rewrite (customer_bundle_manifest_same _ _ Hm).
Qed.

(** The products of any plan are distinct. *)
Lemma plan_ids_distinct m rv products sh p : customer_bundle_plan m rv products sh = Ok p -> NoDup (product_ids p).
Proof.
  unfold customer_bundle_plan, product_ids. intros Hp. py_simpl.
  match goal with Hx : map_res _ _ = Ok _ |- _ => apply map_res_Ok in Hx; rename Hx into Hmap end.
  match goal with Hx : NoDup _ |- _ => rename Hx into Hnd end.
  cut (forall l r, Forall2 (fun q q' => canonical_product (foldl (fun d s => dset (sl_product_id s) s d) [] (cm_products x)) rv q = Ok q') l r ->
    rp_product_id <$> r = (fun q => sl_product_id (rp_selection q)) <$> l).
  { intros Hids. rewrite (Hids _ _ Hmap). by rewrite sort_by_perm. }
  clear. induction 1 as [|q q' l r Hq _ IH]; [done|]. csimpl. rewrite IH. f_equal. unfold canonical_product in Hq.
  destruct (dget _ _) as [s|]; [|done]. unfold selection_eq in Hq. py_simpl. destruct (parse_config _ _); [|done|by case_decide]. py_simpl.
  unfold rp_product_id. simpl. congruence.
Qed.

(** ** Mutations

    Whoever holds a plan can mutate the nested values of its public copies: the
    raw configurations of the manifest and of the selections, and the parsed
    configurations.  Everything else of these objects is frozen. *)
Definition mutated_selection (s s' : CustomerProductSelection) : Prop :=
  sl_product_id s' = sl_product_id s /\ sl_version s' = sl_version s.

Definition mutated_product (p p' : ResolvedCustomerProduct) : Prop :=
  mutated_selection (rp_selection p) (rp_selection p') /\ rp_descriptor p' = rp_descriptor p /\
  rp_trusted_selection p' = rp_trusted_selection p /\ rp_trusted_config p' = rp_trusted_config p.

Definition mutated_plan (p p' : CustomerBundlePlan) : Prop :=
  cp_harness_version p' = cp_harness_version p /\ cp_sharing p' = cp_sharing p /\
  cp_trusted_manifest p' = cp_trusted_manifest p /\ Forall2 mutated_product (cp_products p) (cp_products p').

Lemma mutated_snapshots ps ps' : Forall2 mutated_product ps ps' -> product_snapshot <$> ps' = product_snapshot <$> ps.
Proof.
  induction 1 as [|p p' ps ps' (_ & Hd & Hs & Hc) _ IH]; [done|]. csimpl. rewrite IH. unfold product_snapshot. by rewrite Hd, Hs, Hc.
Qed.

(** ** Properties *)

(** A resolved customer bundle is what its manifest says, even if the manifest
    object was forged around its validators: the plan holds one product per
    selection, in the order of their ids, each with the catalogue's descriptor in a
    version the selection accepts, supporting the harness, and configured by the
    product's own model from the selection's raw configuration; sharing is denied
    unless curated, and every rule of the plan connects two distinct selected
    products and stems from a rule of the manifest, with the same predicates. *)
Theorem customer_plan_is_sound manifest catalog harness p :
  resolve_customer_bundle manifest catalog harness = inr p ->
  let m := cp_manifest p in
  (manifest = Instance_ m \/ manifest = Mapping m) /\ customer_bundle_manifest m = Ok m /\
  spec_contains (cm_harness_api m) (cp_harness_version p) = true /\
  NoDup (rp_selection <$> cp_products p) /\ rp_selection <$> cp_products p ≡ₚ cm_products m /\
  StronglySorted (by_key (fun q => sl_product_id (rp_selection q))) (cp_products p) /\
  Forall (fun q => resolves catalog (cp_harness_version p) (rp_selection q) q) (cp_products p) /\
  (sp_mode (cp_sharing p) = ISOLATED -> sp_rules (cp_sharing p) = []) /\
  Forall (fun r => ru_producer r <> ru_consumer r /\
    ru_producer r ∈ (sl_product_id <$> cm_products m) /\ ru_consumer r ∈ (sl_product_id <$> cm_products m) /\
    exists r0, r0 ∈ sh_rules (cm_customer360 m) /\ ru_producer r0 = ru_producer r /\ ru_consumer r0 = ru_consumer r /\
      ru_predicates r0 ≡ₚ ru_predicates r) (sp_rules (cp_sharing p)).
Proof.
  intros (m & rv & r & Harg & Hm & Hh & Hr & -> & _)%resolution_stages. cbn [cp_manifest cp_harness_version cp_products cp_sharing].
  assert (Hsel : rp_selection <$> r = sort_by sl_product_id (cm_products m)).
  { clear -Hr. induction Hr as [|s q l r (d & c & v & -> & _) _ IH]; csimpl; [done|]. by rewrite IH. }
  pose proof (sort_by_perm sl_product_id (cm_products m)) as Hperm. destruct (manifest_rules _ Hm) as (_ & Hrules & Hiso).
  split_and!; try done.
  - rewrite Hsel, Hperm. eapply NoDup_fmap_1. by apply manifest_products_distinct.
  - by rewrite Hsel.
  - pose proof (sort_by_sorted sl_product_id (cm_products m)) as Hs. rewrite <- Hsel in Hs. clear -Hs.
    induction r as [|q r IH]; constructor; apply StronglySorted_inv in Hs as [Hs Hf]; [by apply IH|].
    exact (proj1 (Forall_fmap rp_selection _ r) Hf).
  - clear -Hr. induction Hr as [|s q l r Hq _ IH]; constructor; [|done]. by destruct Hq as (d & c & v & -> & Hq); exists d, c, v.
  - intros Hmode. unfold sharing_plan_from_manifest in *. simpl in *. by rewrite Hiso.
  - apply Forall_fmap, Forall_forall. intros r0 Hr0. rewrite merge_sort_Permutation in Hr0. rewrite Forall_forall in Hrules.
    destruct (Hrules r0 Hr0) as (Hp & Hc & Hne & _). simpl. split_and!; [done..|]. exists r0. split_and!; [done..|].
    by rewrite merge_sort_Permutation.
Qed.

(** The activation boundary is immune to mutations of a resolved plan: whatever
    anybody does to the nested values of its public copies, [_snapshot] succeeds
    and gives back exactly the plan that was resolved. *)
Theorem plan_snapshots_resist_mutation manifest catalog harness p p' :
  resolve_customer_bundle manifest catalog harness = inr p -> mutated_plan p p' -> plan_snapshot p' = Ok p.
Proof.
  intros (m & rv & r & _ & _ & _ & Hr & -> & Hp)%resolution_stages (Hh & Hs & Ht & Hps). unfold plan_snapshot.
  rewrite Hh, Hs, Ht, (mutated_snapshots _ _ Hps). cbn [cp_harness_version cp_sharing cp_trusted_manifest cp_products].
  by rewrite (proj2 (resolves_ids _ _ _ _ Hr)).
Qed.
End CustomerBundle.

(** ** Witnesses: a shop and a crm, sharing one predicate *)
#[local] Instance plain_packaging : Packaging := {|
  version := string;
  parse_version := Some;
  version_str := fun v => v;
  version_leb := fun v w => bool_decide (String.le v w);
  spec_valid := fun _ => true;
  spec_contains := fun spec v => bool_decide (spec = "any" \/ spec = v);
  word_char := fun l => match l with c :: r => if is_alnum c then Some r else None | [] => None end;
|}.

#[local] Instance plain_configs : ConfigModels := {|
  raw := nat;
  raw_eq := fun a b => bool_decide (a = b);
  config := nat;
  config_class := fun _ => 0%nat;
  parse_config := fun _ n => Parsed n;
  same_dump := fun a b => bool_decide (a = b);
|}.

Definition sample_descriptor (id : string) : ProductDescriptor := MkProductDescriptor id "1.0" "any" [] ∅ (MkConfigModel 0 true true).
Definition sample_selection (id : string) (c : nat) : CustomerProductSelection := MkSelection id "1.0" c.
Definition sample_manifest : CustomerBundleManifest := MkCustomerBundleManifest "1" "acme" "1.0" "any"
  [sample_selection "shop" 7; sample_selection "crm" 8] (MkSharing CURATED [MkRule "shop" "crm" ["name"; "email"]]).
Definition sample_catalog : dict string ProductDescriptor :=
  [("crm", sample_descriptor "crm"); ("shop", sample_descriptor "shop")].
Definition sample_harness : @version plain_packaging := "2.0".

Definition sample_resolved (id : string) (c : nat) : ResolvedCustomerProduct :=
  resolved_customer_product (sample_selection id c) (sample_descriptor id) c.
Definition sample_plan : CustomerBundlePlan := MkCustomerBundlePlan sample_manifest sample_harness
  [sample_resolved "crm" 8; sample_resolved "shop" 7] (MkSharingPlan CURATED [MkRule "shop" "crm" ["email"; "name"]]) sample_manifest.

Lemma sample_resolves : resolve_customer_bundle (Instance_ sample_manifest) sample_catalog (inr sample_harness) = inr sample_plan.
Proof. vm_compute. reflexivity. Qed.

Lemma customer_plan_is_sound_witness :
  customer_bundle_manifest sample_manifest = Ok sample_manifest /\ rp_selection <$> cp_products sample_plan ≡ₚ cm_products sample_manifest.
Proof. destruct (customer_plan_is_sound _ _ _ _ sample_resolves) as (_ & Hm & _ & _ & Hp & _). exact (conj Hm Hp). Defined.

(** The crm's public configuration and raw configuration are overwritten. *)
Definition sample_mutated : CustomerBundlePlan := MkCustomerBundlePlan sample_manifest sample_harness
  [MkResolvedProduct (sample_selection "crm" 99) (sample_descriptor "crm") 66%nat (sample_selection "crm" 8) 8%nat; sample_resolved "shop" 7]
  (MkSharingPlan CURATED [MkRule "shop" "crm" ["email"; "name"]]) sample_manifest.

Lemma plan_snapshots_resist_mutation_witness : plan_snapshot sample_mutated = Ok sample_plan.
Proof.
  apply (plan_snapshots_resist_mutation _ _ _ _ _ sample_resolves). repeat split. repeat constructor.
Defined.
