(* ===== verification/Activation.v ===== *)
(** * Activation of a customer bundle ([runtime/kernel.py], [runtime/bundle.py])

    [activate_customer_bundle] prepares every product, validates what came back,
    resolves the bundles, builds the tenant and product scopes, installs bundles
    and products, and publishes the activation; any exception rolls everything
    back.  [install_bundle_plan] is the transaction it uses for bundles.  Both are
    programs ([Prog]) whose questions go to product code, to effect scopes and to
    the kernel's slots; an answer may be any exception, a cancellation included.
    The local variables the [except] clause reads are explicit, so a raise carries
    their current values. *)
From S2P Require Import Prelude PyText Prog Tasks Scopes PluginModels Effects Bundle CustomerBundle.
Open Scope string_scope.
Open Scope list_scope.

Module Activation.
Import Tasks.

(** ** Exceptions *)
Inductive CustomerBundleActivationCode : Type :=
| INVALID_PLAN | INVALID_SCOPE | ACTIVATION_CONFLICT | KERNEL_CLOSED | INVALID_ACTIVATOR | DUPLICATE_ACTIVATOR
| MISSING_ACTIVATOR | EXTRA_ACTIVATOR | DESCRIPTOR_MISMATCH | PREPARE_FAILED | INVALID_PREPARED_PRODUCT
| CONFIG_MISMATCH | BUNDLE_RESOLUTION_FAILED | BUNDLE_INSTALL_FAILED | INVALID_BINDING | PROFILE_REQUIRED
| PROFILE_INSTANCE_REUSED | CUSTOMER360_INVALID | POLICY_CONFIGURATION_FAILED | INSTALL_FAILED
| TOOL_CAPABILITY_UNDECLARED | INVALID_RUN_REQUEST | RUN_SCOPE_MISMATCH | WORKFLOW_UNAVAILABLE | ACTIVATION_CLOSED.
#[global] Instance CustomerBundleActivationCode_eq_dec : EqDecision CustomerBundleActivationCode.
Proof. solve_decision. Defined.

(** [BundleInstallError] and [CustomerBundleActivationError] carry their causes;
    [Plain] is everything else. *)
Inductive kexc : Type :=
| Plain (x : exc)
| Planning (e : resolution_error)
| BundleInstallError (cause : kexc) (cleanup : exc)
| ActivationError (code : CustomerBundleActivationCode) (detail : list string) (cause : option kexc) (cleanup : option exc).

(** [except (KeyboardInterrupt, SystemExit, asyncio.CancelledError): raise] *)
Definition passes (x : kexc) : bool :=
  match x with
  | Plain KeyboardInterrupt | Plain SystemExit | Plain (Exc CancelledError) => true
  | _ => false
  end.

(** [except EffectCleanupError as cleanup] *)
Definition cleanup_of (x : kexc) : option exc :=
  match x with
  | Plain (EffectCleanupError n fs) => Some (EffectCleanupError n fs)
  | _ => None
  end.

(** [CustomerBundleActivationError.with_cleanup] *)
Definition with_cleanup (x : kexc) (cleanup : exc) : kexc :=
  match x with
  | ActivationError code detail cause _ => ActivationError code detail cause (Some cleanup)
  | _ => x
  end.

(** [except (KeyboardInterrupt, SystemExit, CancelledError): raise
     except BaseException as exc: raise CustomerBundleActivationError(code, ...)] *)
Definition wrapped (code : CustomerBundleActivationCode) (detail : list string) (x : kexc) : kexc :=
  if passes x then x else ActivationError code detail (Some x) None.

(** ** Sharing policies *)

(** The arguments of one call of [configure_policy] *)
Record SharingPolicy : Type := MkSharingPolicy {
  po_scope : RequestScope;
  po_publish_enabled : bool;
  po_consume_enabled : bool;
  po_publish_predicates : gset string;
  po_consume_predicates : gset string;
  po_publish_to : gset string;
  po_consume_from : gset string;
  po_publish_rules : dict string (gset string);
  po_consume_rules : dict string (gset string);
}.

(** [flows[a].setdefault(b, set()).update(predicates)] *)
Definition add_flow (a b : string) (predicates : list string) (flows : dict string (dict string (gset string))) :
    exn + dict string (dict string (gset string)) :=
  match dget a flows with
  | None => inl KeyError
  | Some peers => inr (dset a (dset b (default ∅ (dget b peers) ∪ list_to_set predicates) peers) flows)
  end.

Definition flows_of (product_ids : list string) (rules : list Customer360SharingRule) (from to : Customer360SharingRule -> string) :
    exn + dict string (dict string (gset string)) :=
  efold (fun d r => add_flow (from r) (to r) (ru_predicates r) d) ((fun i => (i, [])) <$> product_ids) rules.

Definition all_predicates (peers : dict string (gset string)) : gset string := ⋃ peers.*2.

Definition non_empty_set (s : gset string) : bool := negb (bool_decide (s = ∅)).

(** One round of [_configure_sharing_policies], for a product with its two maps *)
Definition sharing_policy (scope : RequestScope) (outgoing incoming : dict string (gset string)) : SharingPolicy :=
  let publish_to := list_to_set outgoing.*1 in
  let consume_from := list_to_set incoming.*1 in
  MkSharingPolicy scope
    (non_empty_set publish_to && non_empty_set (all_predicates outgoing))
    (non_empty_set consume_from && non_empty_set (all_predicates incoming))
    (all_predicates outgoing) (all_predicates incoming) publish_to consume_from outgoing incoming.

(** The kernel's own request scope for a product *)
Definition policy_scope (path : ScopePath) (product_id bundle_id : string) : res RequestScope :=
  request_scope (MkRequestScope path "suiteharness-kernel" "internal" {[ "memory.sharing.admin" ]} "customer360-policy"
    ("activate-" +:+ product_id) ("bundle-" +:+ bundle_id) None).

Section Program.
Context `{Packaging} `{ConfigModels} {C V : Type} `{EqDecision C} `{EqDecision V} (isinstance : V -> C -> res bool).
(** Configuration models: [==], and [isinstance(config, config_model)] *)
Context (config_eq : config -> config -> bool) (config_isinstance : config -> ConfigModel -> bool).
(** The contracts of the two keys of [memory/services.py] the kernel uses *)
Context (profile_contract customer360_contract : C).

Definition PROFILE_PROVIDER : ServiceKey C := MkServiceKey "memory.profile" profile_contract PRODUCT ∅.
Definition CUSTOMER360_PROVIDER : ServiceKey C := MkServiceKey "memory.customer360" customer360_contract TENANT ∅.

(** [PreparedProduct]; callables are named by numbers. *)
Record PreparedProduct : Type := MkPreparedProduct {
  pr_descriptor : ProductDescriptor;
  pr_config : config;
  pr_bindings : list (ServiceKey C * V);
  pr_install : option nat;
  pr_cleanup : option nat;
  pr_bundles : list (option Bundle);
}.

Record ProductActivator : Type := MkProductActivator { ac_descriptor : ProductDescriptor; ac_prepare : nat }.

(** What the [Customer360] factory returned: the object, whether it has a callable
    [close], and whether it is a [Customer360Provider] *)
Record Provided360 : Type := MkProvided360 { pv_value : V; pv_has_close : bool; pv_is_provider : bool }.

(** The disposers the kernel registers *)
Inductive owned : Type :=
| PreparedCleanup (callable : nat)
| CloseCustomer360 (provider : V)
| ReleaseGrants (activation_id : nat)
| DrainRuns (product_id : string).

(** [ActivatedCustomerBundle], less the collaborators; scopes are named by numbers. *)
Record Activated : Type := MkActivated {
  av_plan : CustomerBundlePlan;
  av_tenant : nat;
  av_products : dict string nat;
  av_activation_id : nat;
}.

(** ** Questions *)
Inductive question : Type :=
| QReserve (tenant_id : string)
| QPrepare (product : ResolvedCustomerProduct) (prepare : nat)
| QCopyConfig (item : PreparedProduct)
| QReadConfig (product : ResolvedCustomerProduct)
| QRegister (tenant_id product_id : string) (provider : V)
| QFactory (profiles : dict string V)
| QChild (parent : nat) (name : string)
| QOwn (scope : nat) (label : string) (dispose : owned)
| QBind (tenant_id : string) (products : list string) (activation_id : nat)
| QRelease (activation_id : nat)
| QPolicy (policy : SharingPolicy)
| QInstallBundle (b : Bundle) (scope : nat)
| QInstall (product_id : string) (install scope : nat)
| QClose (scope : nat)
| QCleanup (name : string) (disposers : list (string * owned))
| QPublish (tenant_id : string) (a : Activated)
| QFinish (tenant_id : string) (activation_id : nat) (cleanup : option exc).

(** [QReadConfig] reads the public copy of a product's configuration, which the
    activators could reach; everything else returns or raises. *)
Definition ans (q : question) : Type :=
  match q with
  | QReserve _ => kexc + nat
  | QPrepare _ _ => kexc + option PreparedProduct
  | QCopyConfig _ => kexc + config
  | QReadConfig _ => config
  | QFactory _ => kexc + Provided360
  | QChild _ _ => kexc + nat
  | _ => option kexc
  end%type.

(** ** Programs that raise, and the locals the handler reads *)
Record locals : Type := MkLocals {
  lo_tenant : option nat;
  lo_staged : list (string * owned);
}.

Definition M (A : Type) : Type := task ans locals kexc A.

Definition reserve t : M nat := fun l => Call (QReserve t) (fun a => Ret (l, a)).
Definition prepare p n : M (option PreparedProduct) := fun l => Call (QPrepare p n) (fun a => Ret (l, a)).
Definition copy_config i : M config := fun l => Call (QCopyConfig i) (fun a => Ret (l, a)).
Definition read_config p : M config := fun l => Call (QReadConfig p) (fun a => Ret (l, inr a)).
Definition register t p v : M unit := fun l => Call (QRegister t p v) (fun a => Ret (l, raised a)).
Definition factory d : M Provided360 := fun l => Call (QFactory d) (fun a => Ret (l, a)).
Definition child s n : M nat := fun l => Call (QChild s n) (fun a => Ret (l, a)).
Definition own s n d : M unit := fun l => Call (QOwn s n d) (fun a => Ret (l, raised a)).
Definition bind_activation t ps i : M unit := fun l => Call (QBind t ps i) (fun a => Ret (l, raised a)).
Definition release_activation i : M unit := fun l => Call (QRelease i) (fun a => Ret (l, raised a)).
Definition configure_policy c : M unit := fun l => Call (QPolicy c) (fun a => Ret (l, raised a)).
Definition install_bundle b s : M unit := fun l => Call (QInstallBundle b s) (fun a => Ret (l, raised a)).
Definition install_product p n s : M unit := fun l => Call (QInstall p n s) (fun a => Ret (l, raised a)).
Definition close_scope s : M unit := fun l => Call (QClose s) (fun a => Ret (l, raised a)).
Definition close_fresh n ds : M unit := fun l => Call (QCleanup n ds) (fun a => Ret (l, raised a)).
Definition publish t a : M unit := fun l => Call (QPublish t a) (fun r => Ret (l, raised r)).
Definition finish_close t i c : M unit := fun l => Call (QFinish t i c) (fun a => Ret (l, raised a)).

Definition py {A : Type} (r : res A) : kexc + A := match r with Raise e => inl (Plain (Exc e)) | Ok a => inr a end.

(** ** [install_bundle_plan] *)
Definition install_in (transaction : nat) (_ : unit) (b : Bundle) : M unit :=
  do s <- child transaction ("bundle:" +:+ bundle_id b) in install_bundle b s.

(** The [except] clause: a cleanup error is reported with the cause *)
Definition roll_back (transaction : nat) (x : kexc) : M nat :=
  do _ <- rethrow (close_scope transaction) (fun y =>
            match cleanup_of y with Some cleanup => BundleInstallError x cleanup | None => y end) in
  raise x.

Definition install_bundle_plan (plan : BundlePlan) (path : ScopePath) (product : nat) (c : config) : M nat :=
  if decide (path_product_id path <> Some (pd_product_id (bp_product plan))) then raise (Plain (Exc ValueError))
  else if negb (config_isinstance c (pd_config_model (bp_product plan))) then raise (Plain (Exc TypeError))
  else
    do transaction <- child product ("bundles:" +:+ pd_product_id (bp_product plan)) in
    mcatch (do _ <- foreach (install_in transaction) tt (bp_bundles plan) in ret transaction) (roll_back transaction).

(** ** [_validate_activators] *)
Definition index_activator (indexed : dict string ProductActivator) (item : option ProductActivator) :
    kexc + dict string ProductActivator :=
  match item with
  | None => inl (ActivationError INVALID_ACTIVATOR [] None None)
  | Some a =>
      match dget (pd_product_id (ac_descriptor a)) indexed with
      | Some _ => inl (ActivationError DUPLICATE_ACTIVATOR [pd_product_id (ac_descriptor a)] None None)
      | None => inr (dset (pd_product_id (ac_descriptor a)) a indexed)
      end
  end.

Definition check_descriptor (indexed : dict string ProductActivator) (_ : unit) (p : ResolvedCustomerProduct) : kexc + unit :=
  match dget (rp_product_id p) indexed with
  | None => inl (Plain (Exc KeyError))
  | Some a =>
      if decide (ac_descriptor a = rp_descriptor p) then inr tt
      else inl (ActivationError DESCRIPTOR_MISMATCH [rp_product_id p] None None)
  end.

(** The iterable itself may raise when it is consumed. *)
Definition validate_activators (plan : CustomerBundlePlan) (activators : kexc + list (option ProductActivator)) :
    kexc + dict string ProductActivator :=
  try! supplied := match activators with
                   | inl x => inl (wrapped INVALID_ACTIVATOR [] x)
                   | inr l => inr l
                   end in
  try! indexed := efold index_activator [] supplied in
  let expected : gset string := list_to_set (product_ids plan) in
  let actual : gset string := list_to_set indexed.*1 in
  let missing := merge_sort String.le (elements (expected ∖ actual)) in
  let extra := merge_sort String.le (elements (actual ∖ expected)) in
  if decide (missing <> []) then inl (ActivationError MISSING_ACTIVATOR missing None None)
  else if decide (extra <> []) then inl (ActivationError EXTRA_ACTIVATOR extra None None)
  else
    try! _ := efold (check_descriptor indexed) tt (cp_products plan) in
    inr indexed.

(** ** Preparation *)
Definition stage (label : string) (d : owned) (l : locals) : locals := MkLocals (lo_tenant l) (lo_staged l ++ [(label, d)]).
Definition unstage (label : string) (l : locals) : locals :=
  MkLocals (lo_tenant l) (filter (fun i => i.1 <> label) (lo_staged l)).

Definition prepared_label (product_id : string) : string := "prepared:" +:+ product_id.

Definition prepare_one (activators : dict string ProductActivator) (prepared : list (ResolvedCustomerProduct * PreparedProduct))
    (p : ResolvedCustomerProduct) : M (list (ResolvedCustomerProduct * PreparedProduct)) :=
  match dget (rp_product_id p) activators with
  | None => raise (Plain (Exc KeyError))
  | Some a =>
      do returned <- rethrow (prepare p (ac_prepare a)) (wrapped PREPARE_FAILED [rp_product_id p]) in
      match returned with
      | None => raise (ActivationError INVALID_PREPARED_PRODUCT [rp_product_id p] None None)
      | Some item =>
          do _ <- match pr_cleanup item with
                  | Some n => update (stage (prepared_label (rp_product_id p)) (PreparedCleanup n))
                  | None => ret tt
                  end in
          do c <- rethrow (copy_config item) (wrapped INVALID_PREPARED_PRODUCT [rp_product_id p]) in
          ret (prepared ++ [(p, MkPreparedProduct (pr_descriptor item) c (pr_bindings item) (pr_install item)
                                  (pr_cleanup item) (pr_bundles item))])
      end
  end.

(** ** [_validate_prepared] *)
Definition same_config (a expected : config) : bool :=
  bool_decide (config_class a = config_class expected) && config_eq a expected.

(** [except (ServiceBindingError, TypeError)] *)
Definition binding_checked {A : Type} (detail : list string) (r : res A) : kexc + A :=
  match r with
  | Ok a => inr a
  | Raise e =>
      if decide (e = ServiceBindingError \/ e = TypeError) then inl (ActivationError INVALID_BINDING detail (Some (Plain (Exc e))) None)
      else inl (Plain (Exc e))
  end.

(** [provider_owners] and [profiles]; objects are compared by identity. *)
Record Profiles : Type := MkProfiles { pf_owners : dict V string; pf_profiles : dict string V }.

Definition validate_one (tenant_bindings : ServiceBindings C V) (expected_configs : dict string config) (st : Profiles)
    (ri : ResolvedCustomerProduct * PreparedProduct) : M Profiles :=
  let '(p, item) := ri in
  let pid := rp_product_id p in
  if decide (pr_descriptor item <> rp_descriptor p) then raise (ActivationError DESCRIPTOR_MISMATCH [pid] None None)
  else match dget pid expected_configs with
  | None => raise (Plain (Exc KeyError))
  | Some expected =>
      do current <- read_config p in
      if negb (same_config current expected && same_config (pr_config item) expected)
      then raise (ActivationError CONFIG_MISMATCH [pid] None None)
      else
        do bindings <- of_sum (binding_checked [pid] (derive isinstance tenant_bindings PRODUCT (pr_bindings item))) in
        if negb (sb_contains bindings PROFILE_PROVIDER) then raise (ActivationError PROFILE_REQUIRED [pid] None None)
        else
          do profile <- of_sum (py (sb_resolve bindings PROFILE_PROVIDER)) in
          match dget profile (pf_owners st) with
          | Some previous => raise (ActivationError PROFILE_INSTANCE_REUSED [previous; pid] None None)
          | None => ret (MkProfiles (dset profile pid (pf_owners st)) (dset pid profile (pf_profiles st)))
          end
  end.

Definition resolve_bundles (harness : version) (plans : dict string BundlePlan) (ri : ResolvedCustomerProduct * PreparedProduct) :
    M (dict string BundlePlan) :=
  match resolve_bundle_plan (rp_descriptor ri.1) (pr_bundles ri.2) (inr harness) with
  | inl e => raise (ActivationError BUNDLE_RESOLUTION_FAILED [rp_product_id ri.1] (Some (Planning e)) None)
  | inr plan => ret (dset (rp_product_id ri.1) plan plans)
  end.

(** ** [Customer360] *)
Definition make_customer360 (tenant_id : string) (plan : CustomerBundlePlan) (profiles : dict string V) : M (option Provided360) :=
  if sharing_enabled (cp_sharing plan) then
    do _ <- foreach (fun _ pv => register tenant_id pv.1 pv.2) tt profiles in
    do c <- rethrow (factory profiles) (wrapped CUSTOMER360_INVALID []) in
    do _ <- (if pv_has_close c then update (stage "customer360" (CloseCustomer360 (pv_value c))) else ret tt) in
    if pv_is_provider c then ret (Some c) else raise (ActivationError CUSTOMER360_INVALID [] None None)
  else ret None.

Definition tenant_values (c : option Provided360) : list (ServiceKey C * V) :=
  match c with Some c => [(CUSTOMER360_PROVIDER, pv_value c)] | None => [] end.

(** The bindings are checked again against the final tenant layer. *)
Definition check_bindings (root : ServiceBindings C V) (values : list (ServiceKey C * V))
    (prepared : list (ResolvedCustomerProduct * PreparedProduct)) : kexc + unit :=
  binding_checked [] (
    let! tb := derive isinstance root TENANT values in
    for_each (fun ri => let! _ := derive isinstance tb PRODUCT (pr_bindings ri.2) in Ok tt) prepared).

(** ** Scopes *)

(** [RootContext.tenant], assigned to [tenant] *)
Definition open_tenant (root : nat) (root_bindings : ServiceBindings C V) (tenant_id : string) (values : list (ServiceKey C * V)) :
    M (nat * ServiceBindings C V) :=
  do _ <- of_sum (py (tenant_path tenant_id)) in
  do tb <- of_sum (py (derive isinstance root_bindings TENANT values)) in
  do t <- child root ("tenant:" +:+ tenant_id) in
  do _ <- update (fun l => MkLocals (Some t) (lo_staged l)) in
  ret (t, tb).

(** The provider's [close] moves from the staged disposers to the tenant scope. *)
Definition own_customer360 (t : nat) (c : option Provided360) : M unit :=
  match c with
  | None => ret tt
  | Some c =>
      if pv_has_close c then
        do _ <- own t "customer360" (CloseCustomer360 (pv_value c)) in
        update (unstage "customer360")
      else raise (Plain (Exc OtherException))
  end.

Definition bind_grants (t : nat) (tenant_id : string) (plan : CustomerBundlePlan) (activation_id : nat) : M unit :=
  mcatch
    (do _ <- bind_activation tenant_id (product_ids plan) activation_id in
     own t "capability-grants" (ReleaseGrants activation_id))
    (fun x => if passes x then raise x else
       do _ <- release_activation activation_id in
       raise (ActivationError INSTALL_FAILED [tenant_id] (Some x) None)).

(** [TenantScope.product]; the prepared cleanup moves to the product scope. *)
Definition open_product (t : nat) (tb : ServiceBindings C V) (tenant_id : string) (products : dict string nat)
    (ri : ResolvedCustomerProduct * PreparedProduct) : M (dict string nat) :=
  let pid := rp_product_id ri.1 in
  do _ <- of_sum (py (product_path tenant_id pid)) in
  do _ <- of_sum (py (derive isinstance tb PRODUCT (pr_bindings ri.2))) in
  do s <- child t ("product:" +:+ pid) in
  do _ <- match pr_cleanup ri.2 with
          | Some n =>
              do _ <- own s (prepared_label pid) (PreparedCleanup n) in
              update (unstage (prepared_label pid))
          | None => ret tt
          end in
  ret (dset pid s products).

(** ** Policies and installation *)
Definition configure_one (tenant_id : string) (plan : CustomerBundlePlan) (outgoing incoming : dict string (dict string (gset string)))
    (_ : unit) (pid : string) : M unit :=
  do path <- of_sum (py (product_path tenant_id pid)) in
  do scope <- of_sum (py (policy_scope path pid (cm_customer_bundle_id (cp_manifest plan)))) in
  configure_policy (sharing_policy scope (default [] (dget pid outgoing)) (default [] (dget pid incoming))).

Definition sum_exn {A : Type} (r : exn + A) : kexc + A := match r with inl e => inl (Plain (Exc e)) | inr a => inr a end.

Definition configure_sharing_policies (tenant_id : string) (plan : CustomerBundlePlan) : M unit :=
  do outgoing <- of_sum (sum_exn (flows_of (product_ids plan) (sp_rules (cp_sharing plan)) ru_producer ru_consumer)) in
  do incoming <- of_sum (sum_exn (flows_of (product_ids plan) (sp_rules (cp_sharing plan)) ru_consumer ru_producer)) in
  foreach (configure_one tenant_id plan outgoing incoming) tt (product_ids plan).

(** [d[key]] *)
Definition item_of {A : Type} (k : string) (d : dict string A) : kexc + A :=
  match dget k d with Some a => inr a | None => inl (Plain (Exc KeyError)) end.

Definition install_bundles_of (tenant_id : string) (products : dict string nat) (plans : dict string BundlePlan) (_ : unit)
    (ri : ResolvedCustomerProduct * PreparedProduct) : M unit :=
  let pid := rp_product_id ri.1 in
  do product <- of_sum (item_of pid products) in
  do plan <- of_sum (item_of pid plans) in
  do path <- of_sum (py (product_path tenant_id pid)) in
  do _ <- rethrow (install_bundle_plan plan path product (config_snapshot ri.1)) (wrapped BUNDLE_INSTALL_FAILED (pid :: bundle_ids plan)) in
  ret tt.

(** [except CustomerBundleActivationError: raise] comes first. *)
Definition install_failure (pid : string) (x : kexc) : kexc :=
  match x with ActivationError _ _ _ _ => x | _ => wrapped INSTALL_FAILED [pid] x end.

Definition run_installer (products : dict string nat) (_ : unit) (ri : ResolvedCustomerProduct * PreparedProduct) : M unit :=
  let pid := rp_product_id ri.1 in
  match pr_install ri.2 with
  | None => ret tt
  | Some n =>
      do product <- of_sum (item_of pid products) in
      do s <- child product ("activator:" +:+ pid) in
      rethrow (install_product pid n s) (install_failure pid)
  end.

(** ** The [try] block *)
Definition stage_products (plan : CustomerBundlePlan) (activators : dict string ProductActivator) (root_bindings : ServiceBindings C V) :
    M (list (ResolvedCustomerProduct * PreparedProduct) * Profiles * dict string BundlePlan) :=
  let expected_configs := foldl (fun d p => dset (rp_product_id p) (config_snapshot p) d) [] (cp_products plan) in
  do prepared <- foreach (prepare_one activators) [] (cp_products plan) in
  do base <- of_sum (py (derive isinstance root_bindings TENANT [])) in
  do profiles <- foreach (validate_one base expected_configs) (MkProfiles [] []) prepared in
  do plans <- foreach (resolve_bundles (cp_harness_version plan)) [] prepared in
  ret (prepared, profiles, plans).

Definition open_scopes (root : nat) (root_bindings : ServiceBindings C V) (tenant_id : string) (plan : CustomerBundlePlan)
    (activation_id : nat) (prepared : list (ResolvedCustomerProduct * PreparedProduct)) (profiles : Profiles) :
    M (nat * option Provided360 * dict string nat) :=
  do customer360 <- make_customer360 tenant_id plan (pf_profiles profiles) in
  do _ <- of_sum (check_bindings root_bindings (tenant_values customer360) prepared) in
  do (t, tb) <- open_tenant root root_bindings tenant_id (tenant_values customer360) in
  do _ <- own_customer360 t customer360 in
  do _ <- bind_grants t tenant_id plan activation_id in
  do products <- foreach (open_product t tb tenant_id) [] prepared in
  ret (t, customer360, products).

Definition install_all (tenant_id : string) (plan : CustomerBundlePlan) (prepared : list (ResolvedCustomerProduct * PreparedProduct))
    (plans : dict string BundlePlan) (customer360 : option Provided360) (products : dict string nat) : M unit :=
  do _ <- match customer360 with
          | Some _ => rethrow (configure_sharing_policies tenant_id plan) (wrapped POLICY_CONFIGURATION_FAILED [])
          | None => ret tt
          end in
  do _ <- foreach (install_bundles_of tenant_id products plans) tt prepared in
  do _ <- foreach (run_installer products) tt prepared in
  foreach (fun _ ps => own ps.2 "execution-runs:drain" (DrainRuns ps.1)) tt products.

Definition activation_body (root : nat) (root_bindings : ServiceBindings C V) (tenant_id : string) (plan : CustomerBundlePlan)
    (activators : dict string ProductActivator) (activation_id : nat) : M Activated :=
  do (prepared, profiles, plans) <- stage_products plan activators root_bindings in
  do (t, customer360, products) <- open_scopes root root_bindings tenant_id plan activation_id prepared profiles in
  do _ <- install_all tenant_id plan prepared plans customer360 products in
  do final <- of_sum (py (plan_snapshot plan)) in
  let a := MkActivated final t products activation_id in
  do _ <- publish tenant_id a in
  ret a.

(** ** The [except BaseException] clause *)

(** [try: m except EffectCleanupError as e: return e] *)
Definition cleanup_error_of (m : M unit) : M (option exc) :=
  mcatch (do _ <- m in ret None) (fun x => match cleanup_of x with Some c => ret (Some c) | None => raise x end).

(** [_cleanup_staged] *)
Definition cleanup_staged (tenant_id : string) (disposers : list (string * owned)) : M (option exc) :=
  match disposers with
  | [] => ret None
  | _ => cleanup_error_of (close_fresh ("staged:" +:+ tenant_id) disposers)
  end.

Definition failures_in (x : exc) : list failure :=
  match x with EffectCleanupError _ fs => fs | _ => [] end.

(** [_merge_cleanup] *)
Definition merge_cleanup (errors : list exc) (tenant_id : string) : option exc :=
  match errors with
  | [] => None
  | [e] => Some e
  | _ => Some (EffectCleanupError ("activation:" +:+ tenant_id) (errors ≫= failures_in))
  end.

Definition failure_of (x : kexc) (cleanup : option exc) : kexc :=
  if passes x then x
  else
    let failure := match x with ActivationError _ _ _ _ => x | _ => ActivationError INSTALL_FAILED [] (Some x) None end in
    match cleanup with Some c => with_cleanup failure c | None => failure end.

Definition roll_back_activation (tenant_id : string) (activation_id : nat) (x : kexc) : M Activated := fun l =>
  (do closed <- match lo_tenant l with Some t => cleanup_error_of (close_scope t) | None => ret None end in
   do staged <- cleanup_staged tenant_id (lo_staged l) in
   let cleanup := merge_cleanup (option_list closed ++ option_list staged) tenant_id in
   do _ <- finish_close tenant_id activation_id cleanup in
   raise (failure_of x cleanup)) l.

(** ** [activate_customer_bundle] *)
Definition first_scope (tenant_id : string) (plan : CustomerBundlePlan) : kexc + unit :=
  match product_ids plan with
  | [] => inl (ActivationError INVALID_SCOPE [tenant_id] None None)
  | pid :: _ =>
      match product_path tenant_id pid with
      | Ok _ => inr tt
      | Raise e => inl (ActivationError INVALID_SCOPE [tenant_id] (Some (Plain (Exc e))) None)
      end
  end.

(** The checks before the reservation *)
Definition accepted_arguments (tenant_id : string) (plan : CustomerBundlePlan) (activators : kexc + list (option ProductActivator)) :
    kexc + (CustomerBundlePlan * dict string ProductActivator) :=
  try! plan := match plan_snapshot plan with
               | Ok p => inr p
               | Raise e => inl (ActivationError INVALID_PLAN [] (Some (Plain (Exc e))) None)
               end in
  try! _ := first_scope tenant_id plan in
  try! indexed := validate_activators plan activators in
  inr (plan, indexed).

Definition activate_customer_bundle (root : nat) (root_bindings : ServiceBindings C V) (tenant_id : string)
    (plan : CustomerBundlePlan) (activators : kexc + list (option ProductActivator)) : M Activated :=
  do (plan, indexed) <- of_sum (accepted_arguments tenant_id plan activators) in
  do activation_id <- reserve tenant_id in
  mcatch (activation_body root root_bindings tenant_id plan indexed activation_id) (roll_back_activation tenant_id activation_id).
End Program.
End Activation.
