(* ===== verification/ActivationProps.v ===== *)
(** * What every activation satisfies

    The properties of [activate_customer_bundle], proved in the calculus of [Tasks]
    against arbitrary product code, scopes and kernel slots. *)
From S2P Require Import Prelude PyText Prog Tasks Scopes PluginModels Effects Bundle CustomerBundle Activation.
Open Scope string_scope.
Open Scope list_scope.

Module ActivationProps.
Import Tasks Activation.

Section Properties.
Context `{Packaging} `{ConfigModels} {C V : Type} `{EqDecision C} `{EqDecision V} (isinstance : V -> C -> res bool).
Context (config_eq : config -> config -> bool) (config_isinstance : config -> ConfigModel -> bool).
Context (profile_contract customer360_contract : C).
Context (root : nat) (root_bindings : ServiceBindings C V) (tenant_id : string).
Abbreviation ev := (event (@ans _ _ C V)).
Abbreviation act := (@M _ _ C V).
Abbreviation item := (PreparedProduct (C := C) (V := V)).

(** ** What is held where

    [opened h t]: [t] is the tenant scope; [held h label d]: the disposer [d] was
    accepted by the tenant scope or by a child of it. *)
Definition opened (h : list ev) (t : nat) : Prop := (QChild root ("tenant:" +:+ tenant_id) ~> inr t) ∈ h.
Definition below (h : list ev) (s : nat) : Prop := exists t, opened h t /\ (s = t \/ exists n, (QChild t n ~> inr s) ∈ h).
Definition held (h : list ev) (label : string) (d : owned) : Prop := exists s, below h s /\ (QOwn s label d ~> None) ∈ h.

Lemma opened_mono h h' t : h ⊆ h' -> opened h t -> opened h' t.
Proof. intros Hs Ho. by apply Hs. Qed.

Lemma below_mono h h' s : h ⊆ h' -> below h s -> below h' s.
Proof. intros Hs (t & Ho & Hb). exists t. split; [by apply Hs|]. destruct Hb as [->|[n Hn]]; [by left|right]. exists n. by apply Hs. Qed.

Lemma held_mono h h' label d : h ⊆ h' -> held h label d -> held h' label d.
Proof. intros Hs (s & Hb & Ho). exists s. split; [by eapply below_mono|by apply Hs]. Qed.

(** The product and the result of a successful preparation *)
Definition as_prepared (e : ev) : option (ResolvedCustomerProduct * item) :=
  let 'existT q a := e in
  match q return ans q -> option (ResolvedCustomerProduct * item) with
  | QPrepare p _ => fun a => match a with inr (Some i) => Some (p, i) | _ => None end
  | _ => fun _ => None
  end a.

Definition as_provided (e : ev) : option (Provided360 (V := V)) :=
  let 'existT q a := e in
  match q return ans q -> option Provided360 with
  | QFactory _ => fun a => match a with inr c => Some c | _ => None end
  | _ => fun _ => None
  end a.

(** The release of the grants is held, or was asked for, unless a cancellation hit
    the registration itself. *)
Definition grants_released (aid : nat) (h : list ev) : Prop :=
  held h "capability-grants" (ReleaseGrants aid) \/ (exists r, (QRelease aid ~> r) ∈ h) \/
  exists s x, (QOwn s "capability-grants" (ReleaseGrants aid) ~> Some x) ∈ h /\ passes x = true.

Lemma grants_released_mono aid h h' : h ⊆ h' -> grants_released aid h -> grants_released aid h'.
Proof.
  intros Hs [Hh|[[r Hr]|(s & x & Hx & Hp)]]; [left; by eapply held_mono|right; left; exists r; by apply Hs|right; right].
  exists s, x. split; [by apply Hs|done].
Qed.

(** The kernel's obligations: whatever product code handed over is staged, or held
    by the tenant's tree. *)
Record tracked (aid : nat) (h : list ev) (l : locals) : Prop := MkTracked {
  tr_tenant : forall t, opened h t -> lo_tenant l = Some t;
  tr_prepared : forall p n (i : item) k, (QPrepare p n ~> inr (Some i)) ∈ h -> pr_cleanup i = Some k ->
    (prepared_label (rp_product_id p), PreparedCleanup k) ∈ lo_staged l \/ held h (prepared_label (rp_product_id p)) (PreparedCleanup k);
  tr_customer360 : forall d c, (QFactory d ~> inr c) ∈ h -> pv_has_close c = true ->
    ("customer360", CloseCustomer360 (pv_value c)) ∈ lo_staged l \/ held h "customer360" (CloseCustomer360 (pv_value c));
  tr_grants : forall t ps, (QBind t ps aid ~> None) ∈ h -> grants_released aid h;
}.

(** Events that create no obligation *)
Definition calm (e : ev) : Prop :=
  let 'existT q a := e in
  match q return ans q -> Prop with
  | QPrepare _ _ => fun a => match a with inr (Some _) => False | _ => True end
  | QFactory _ => fun a => match a with inr _ => False | _ => True end
  | QBind _ _ _ => fun a => match a with None => False | _ => True end
  | QChild _ n => fun a => match a with inr _ => n <> "tenant:" +:+ tenant_id | _ => True end
  | _ => fun _ => True
  end a.

Lemma tracked_calm aid new h l : Forall calm new -> tracked aid h l -> tracked aid (new ++ h) l.
Proof.
  intros Hc [Ht Hp Hf Hg]. rewrite Forall_forall in Hc. assert (Hs : h ⊆ new ++ h) by set_solver. split.
  - intros t [Hn|Ho]%elem_of_app; [by destruct (Hc _ Hn)|auto].
  - intros p n i k [Hn|Ho]%elem_of_app Hk; [by destruct (Hc _ Hn)|]. destruct (Hp p n i k Ho Hk); [by left|right]. by eapply held_mono.
  - intros d c [Hn|Ho]%elem_of_app Hk; [by destruct (Hc _ Hn)|]. destruct (Hf d c Ho Hk); [by left|right]. by eapply held_mono.
  - intros t ps [Hn|Ho]%elem_of_app; [by destruct (Hc _ Hn)|]. eapply grants_released_mono; [exact Hs|by eapply Hg].
Qed.

Lemma tracked_calm1 aid e h l : calm e -> tracked aid h l -> tracked aid (e :: h) l.
Proof. intros Hc. apply (tracked_calm aid [e]). by repeat constructor. Qed.

(** More staged disposers never hurt. *)
Lemma tracked_stage aid h l label d : tracked aid h l -> tracked aid h (stage label d l).
Proof.
  intros [Ht Hp Hf Hg]. split; [done| | |done].
  - intros p n i k Hi Hk. destruct (Hp p n i k Hi Hk); [left|by right]. simpl. set_solver.
  - intros d' c Hi Hk. destruct (Hf d' c Hi Hk); [left|by right]. simpl. set_solver.
Qed.

(** A label whose staged disposers are all held can be dropped. *)
Lemma tracked_unstage aid h l label :
  (forall d, (label, d) ∈ lo_staged l -> held h label d) -> tracked aid h l -> tracked aid h (unstage label l).
Proof.
  intros Hd [Ht Hp Hf Hg]. split; [done| | |done].
  - intros p n i k Hi Hk. destruct (Hp p n i k Hi Hk) as [Hin|?]; [|by right].
    destruct (decide (prepared_label (rp_product_id p) = label)) as [Hl|Hl].
    + right. rewrite Hl in *. by apply Hd.
    + left. simpl. by apply list_elem_of_filter.
  - intros d' c Hi Hk. destruct (Hf d' c Hi Hk) as [Hin|?]; [|by right].
    destruct (decide ("customer360" = label)) as [Hl|Hl].
    + right. rewrite Hl in *. by apply Hd.
    + left. simpl. by apply list_elem_of_filter.
Qed.

(** ** Staging *)
Context (plan : CustomerBundlePlan) (aid : nat).
Abbreviation prepared_list := (list (ResolvedCustomerProduct * item)).

(** Questions that make something visible outside the kernel, or need validated products *)
Definition visible (e : ev) : Prop :=
  match projT1 e with
  | QRegister _ _ _ | QFactory _ | QChild _ _ | QOwn _ _ _ | QBind _ _ _ | QPolicy _ | QInstallBundle _ _ | QInstall _ _ _
  | QPublish _ _ => True
  | _ => False
  end.

Definition installs (e : ev) : Prop := match projT1 e with QInstall _ _ _ | QPublish _ _ => True | _ => False end.

(** What was returned by [prepare] and what every check said of it *)
Definition ready (h : list ev) (p : ResolvedCustomerProduct) : Prop :=
  exists n i c base b bp, (QPrepare p n ~> inr (Some i)) ∈ h /\ pr_descriptor i = rp_descriptor p /\
    (QReadConfig p ~> c) ∈ h /\ same_config config_eq c (config_snapshot p) = true /\
    derive isinstance root_bindings TENANT [] = Ok base /\ derive isinstance base PRODUCT (pr_bindings i) = Ok b /\
    sb_contains b (PROFILE_PROVIDER profile_contract) = true /\
    resolve_bundle_plan (rp_descriptor p) (pr_bundles i) (inr (cp_harness_version plan)) = inr bp.

(** All bundles of the product's plan are installed *)
Definition bundled (h : list ev) (p : ResolvedCustomerProduct) : Prop :=
  exists n i bp, (QPrepare p n ~> inr (Some i)) ∈ h /\
    resolve_bundle_plan (rp_descriptor p) (pr_bundles i) (inr (cp_harness_version plan)) = inr bp /\
    Forall (fun b => exists s, (QInstallBundle b s ~> None) ∈ h) (bp_bundles bp).

Definition guarded (h : list ev) (e : ev) : Prop :=
  (visible e -> Forall (ready h) (cp_products plan)) /\ (installs e -> Forall (bundled h) (cp_products plan)).

Lemma ready_mono h h' p : h ⊆ h' -> ready h p -> ready h' p.
Proof.
  intros Hs (n & i & c & base & b & bp & Hp & Hd & Hr & Hrest). exists n, i, c, base, b, bp.
  split; [by apply Hs|]. split; [done|]. split; [by apply Hs|done].
Qed.

Lemma bundled_mono h h' p : h ⊆ h' -> bundled h p -> bundled h' p.
Proof.
  intros Hs (n & i & bp & Hp & Hr & Hb). exists n, i, bp. split; [by apply Hs|]. split; [done|].
  eapply Forall_impl; [exact Hb|]. intros b [s Hi]. exists s. by apply Hs.
Qed.

Definition copied (i : item) (c : config) : item :=
  MkPreparedProduct (pr_descriptor i) c (pr_bindings i) (pr_install i) (pr_cleanup i) (pr_bundles i).

Definition prep (h : list ev) (ri : ResolvedCustomerProduct * item) : Prop :=
  exists n i c, (QPrepare ri.1 n ~> inr (Some i)) ∈ h /\ ri.2 = copied i c.

Lemma prep_mono h h' ri : h ⊆ h' -> prep h ri -> prep h' ri.
Proof. intros Hs (n & i & c & Hp & Hc). exists n, i, c. split; [by apply Hs|done]. Qed.

(** The staged disposers are the cleanups of prepared products and the [close] of
    the provider [c]. *)
Definition staged_from (prepared : prepared_list) (c : option Provided360) (l : locals (V := V)) : Prop :=
  forall label d, (label, d) ∈ lo_staged l ->
    (exists ri n, ri ∈ prepared /\ label = prepared_label (rp_product_id ri.1) /\ pr_cleanup ri.2 = Some n /\ d = PreparedCleanup n) \/
    exists v, c = Some v /\ label = "customer360" /\ d = CloseCustomer360 (pv_value v).

Lemma prepared_label_inj q q' : prepared_label q = prepared_label q' -> q = q'.
Proof. by intros [=]. Qed.

Lemma staged_from_app prepared ri c l : staged_from prepared c l -> staged_from (prepared ++ [ri]) c l.
Proof.
  intros Hs label d Hd. destruct (Hs label d Hd) as [(ri' & n & Hin & Hrest)|?]; [left|by right]. exists ri', n. split; [set_solver|done].
Qed.

Lemma staged_from_stage prepared ri c l n : staged_from prepared c l -> pr_cleanup ri.2 = Some n ->
  staged_from (prepared ++ [ri]) c (stage (prepared_label (rp_product_id ri.1)) (PreparedCleanup n) l).
Proof.
  intros Hs Hc label d [Hd|Hd]%elem_of_app; [by apply (staged_from_app prepared ri c l Hs)|].
  apply list_elem_of_singleton in Hd. injection Hd as Hq Hd. left. exists ri, n. split_and!; [set_solver|done..].
Qed.

Lemma staged_from_unstage prepared c l label : staged_from prepared c l -> staged_from prepared c (unstage label l).
Proof. intros Hs label' d Hd. apply list_elem_of_filter in Hd as [_ Hd]. by apply Hs. Qed.

Definition failing : kexc -> locals -> list ev -> Prop := fun _ l h => tracked aid h l.

Lemma prepare_one_wp activators prepared p l h :
  tracked aid h l -> lo_tenant l = None -> staged_from prepared None l ->
  mwp guarded (prepare_one activators prepared p) l h
    (fun r l' h' => exists ri, r = prepared ++ [ri] /\ ri.1 = p /\ prep h' ri /\ h ⊆ h' /\ tracked aid h' l' /\ lo_tenant l' = None /\ staged_from r None l')
    failing.
Proof.
  intros Ht Hn Hs. unfold prepare_one. destruct (dget (rp_product_id p) activators) as [a|]; [|exact Ht].
  apply mwp_bind, mwp_rethrow, mwp_ask. intros r. split; [by split|]. destruct r as [x|[i|]]; [by apply tracked_calm1| |by apply tracked_calm1].
  set (h1 := (QPrepare p (ac_prepare a) ~> inr (Some i)) :: h).
  set (l1 := match pr_cleanup i with Some n => stage (prepared_label (rp_product_id p)) (PreparedCleanup n) l | None => l end).
  assert (Hs1 : h ⊆ h1) by set_solver.
  assert (Hstep : mwp guarded (match pr_cleanup i with
      | Some n => update (stage (prepared_label (rp_product_id p)) (PreparedCleanup n)) | None => ret () end) l h1
      (fun _ l' h' => l' = l1 /\ h' = h1) failing) by (unfold l1; destruct (pr_cleanup i); by split).
  assert (Ht1 : tracked aid h1 l1).
  { destruct Ht as [Ha Hb Hc Hd]. assert (Hin : forall e, e ∈ h1 -> e = (QPrepare p (ac_prepare a) ~> inr (Some i)) \/ e ∈ h) by set_solver. split.
    - intros t [Ho|Ho]%Hin; [done|]. unfold l1. destruct (pr_cleanup i); by apply Ha.
    - intros p' n' i' k [Ho|Ho]%Hin Hk.
      + apply (f_equal as_prepared) in Ho. simpl in Ho. simplify_eq. left. unfold l1. rewrite Hk. simpl. set_solver.
      + destruct (Hb p' n' i' k Ho Hk) as [Hin'|Hh]; [left|right; by eapply held_mono]. unfold l1. destruct (pr_cleanup i); [simpl; set_solver|done].
    - intros d c [Ho|Ho]%Hin Hk; [done|].
      destruct (Hc d c Ho Hk) as [Hin'|Hh]; [left|right; by eapply held_mono]. unfold l1. destruct (pr_cleanup i); [simpl; set_solver|done].
    - intros t ps [Ho|Ho]%Hin; [done|]. eapply grants_released_mono; [exact Hs1|by eapply Hd]. }
  assert (Hn1 : lo_tenant l1 = None) by (unfold l1; by destruct (pr_cleanup i)).
  apply mwp_bind. refine (mwp_mono _ _ _ _ _ _ _ _ _ _ Hstep); [|auto]. intros _ l' h' [-> ->].
  apply mwp_bind, mwp_rethrow, mwp_ask. intros r. split; [by split|]. destruct r as [x|c]; [by apply tracked_calm1|].
  exists (p, copied i c). split_and!; [done..| | |by apply tracked_calm1|done|].
  - exists (ac_prepare a), i, c. split; [|done]. right. left.
  - set_solver.
  - change (staged_from (prepared ++ [(p, copied i c)]) None l1). unfold l1. destruct (pr_cleanup i) as [n|] eqn:Hc.
    + by apply (staged_from_stage prepared (p, copied i c)).
    + by apply staged_from_app.
Qed.

Context (Hdistinct : NoDup (rp_product_id <$> cp_products plan)).

Definition pid (ri : ResolvedCustomerProduct * item) : string := rp_product_id ri.1.

Lemma pids_distinct (prepared : prepared_list) : prepared.*1 = cp_products plan -> NoDup (pid <$> prepared).
Proof. intros Hp. change (NoDup ((rp_product_id ∘ fst) <$> prepared)). by rewrite list_fmap_compose, Hp. Qed.

Lemma pid_fresh (prepared dn rest : prepared_list) ri ri' :
  prepared.*1 = cp_products plan -> prepared = dn ++ ri :: rest -> ri' ∈ dn -> pid ri' <> pid ri.
Proof.
  intros Hp%pids_distinct -> Hin Heq. rewrite fmap_app, fmap_cons in Hp. apply NoDup_app in Hp as (_ & Hd & _).
  apply (Hd (pid ri')); [by apply list_elem_of_fmap_2|]. rewrite Heq. by left.
Qed.

(** What validation finds of one prepared product *)
Definition valid (base : ServiceBindings C V) (h : list ev) (ri : ResolvedCustomerProduct * item) : Prop :=
  pr_descriptor ri.2 = rp_descriptor ri.1 /\
  (exists c, (QReadConfig ri.1 ~> c) ∈ h /\ same_config config_eq c (config_snapshot ri.1) = true) /\
  exists b, derive isinstance base PRODUCT (pr_bindings ri.2) = Ok b /\ sb_contains b (PROFILE_PROVIDER profile_contract) = true.

Lemma valid_mono base h h' ri : h ⊆ h' -> valid base h ri -> valid base h' ri.
Proof. intros Hs (Hd & (c & Hc & He) & Hb). split_and!; [done| |done]. exists c. split; [by apply Hs|done]. Qed.

Lemma validate_one_wp base st ri l h : ri.1 ∈ cp_products plan -> tracked aid h l ->
  mwp guarded (validate_one isinstance config_eq profile_contract base
      (foldl (fun d p => dset (rp_product_id p) (config_snapshot p) d) [] (cp_products plan)) st ri) l h
    (fun _ l' h' => l' = l /\ h ⊆ h' /\ tracked aid h' l' /\ valid base h' ri) failing.
Proof.
  intros Hin Ht. destruct ri as [p i]. unfold validate_one. simpl in Hin. case_decide as Hd; [exact Ht|].
  rewrite (dget_foldl_dset rp_product_id config_snapshot) by done.
  apply mwp_bind, mwp_ask. intros c. split; [by split|]. set (h1 := (QReadConfig p ~> c) :: h).
  assert (Ht1 : tracked aid h1 l) by (by apply tracked_calm1).
  destruct (same_config config_eq c (config_snapshot p) && _) eqn:Hc; [simpl|exact Ht1]. apply andb_true_iff in Hc as [Hc _].
  apply mwp_bind, mwp_of_sum; [|by intros]. intros b Hb. destruct (sb_contains b _) eqn:Hp; [simpl|exact Ht1].
  apply mwp_bind, mwp_of_sum; [|by intros]. intros profile _. destruct (dget profile (pf_owners st)); [exact Ht1|].
  split_and!; [done|set_solver|done|]. split_and!; [by destruct (decide (pr_descriptor i = rp_descriptor p))| |].
  - exists c. split; [by left|done].
  - exists b. split; [|done]. simpl. unfold binding_checked in Hb. destruct (derive _ _ _ _) as [b'|e]; [|by case_decide]. congruence.
Qed.

Record staging (prepared : prepared_list) (plans : dict string BundlePlan) (l : locals) (h : list ev) : Prop := MkStaging {
  sg_products : prepared.*1 = cp_products plan;
  sg_prep : Forall (prep h) prepared;
  sg_ready : Forall (ready h) (cp_products plan);
  sg_plans : Forall (fun ri => exists bp, resolve_bundle_plan (rp_descriptor ri.1) (pr_bundles ri.2) (inr (cp_harness_version plan)) = inr bp /\
    dget (pid ri) plans = Some bp) prepared;
  sg_tracked : tracked aid h l;
  sg_tenant : lo_tenant l = None;
  sg_staged : staged_from prepared None l;
}.

Lemma stage_products_wp activators l h : tracked aid h l -> lo_tenant l = None -> lo_staged l = [] ->
  mwp guarded (stage_products isinstance config_eq profile_contract plan activators root_bindings) l h
    (fun r l' h' => h ⊆ h' /\ staging r.1.1 r.2 l' h') failing.
Proof.
  intros Ht Hn Hs. unfold stage_products. apply mwp_bind.
  apply (mwp_foreach _ (fun dn prepared l' h' => prepared.*1 = dn /\ Forall (prep h') prepared /\ h ⊆ h' /\ tracked aid h' l' /\
    lo_tenant l' = None /\ staged_from prepared None l')).
  { split_and!; try done. intros q d. by rewrite Hs, elem_of_nil. }
  { intros dn p rest prepared l1 h1 _ (Hp & Hprep & Hsub & Ht1 & Hn1 & Hs1).
    refine (mwp_mono _ _ _ _ _ _ _ _ _ _ (prepare_one_wp activators prepared p l1 h1 Ht1 Hn1 Hs1)); [|auto].
    intros r l2 h2 (ri & -> & Hri & Hpr & Hsub2 & Ht2 & Hn2 & Hs2). split_and!; [by rewrite fmap_app, Hp; simpl; rewrite Hri| |by etransitivity|done..].
    apply Forall_app. split; [|by apply Forall_singleton]. eapply Forall_impl; [exact Hprep|]. intros x. by apply prep_mono. }
  intros prepared l1 h1 (Hp & Hprep & Hsub & Ht1 & Hn1 & Hs1).
  apply mwp_bind, mwp_of_sum; [|by intros]. intros base Hbase. apply mwp_bind.
  apply (mwp_foreach _ (fun dn _ l' h' => l' = l1 /\ h1 ⊆ h' /\ tracked aid h' l' /\ Forall (valid base h') dn)).
  { by split_and!. }
  { intros dn ri rest st l2 h2 Heq (-> & Hsub2 & Ht2 & Hv). eapply mwp_mono; [| |apply validate_one_wp; [|done]].
    - intros _ l3 h3 (-> & Hsub3 & Ht3 & Hv3). split_and!; [done|by etransitivity|done|]. apply Forall_app. split; [|by apply Forall_singleton].
      eapply Forall_impl; [exact Hv|]. intros x. by apply valid_mono.
    - auto.
    - rewrite <- Hp, Heq. apply list_elem_of_fmap_2. set_solver. }
  intros profiles l2 h2 (-> & Hsub2 & Ht2 & Hv). apply mwp_bind.
  apply (mwp_foreach _ (fun dn plans l' h' => l' = l1 /\ h' = h2 /\
    Forall (fun ri => exists bp, resolve_bundle_plan (rp_descriptor ri.1) (pr_bundles ri.2) (inr (cp_harness_version plan)) = inr bp /\
      dget (pid ri) plans = Some bp) dn)).
  { by split_and!. }
  { intros dn ri rest plans l3 h3 Heq (-> & -> & Hf). unfold resolve_bundles.
    destruct (resolve_bundle_plan _ _ _) as [e|bp] eqn:Hbp; [exact Ht2|]. split_and!; [done..|]. apply Forall_app. split.
    - apply Forall_forall. intros ri' Hin. rewrite Forall_forall in Hf. destruct (Hf ri' Hin) as (bp' & Hbp' & Hd). exists bp'.
      split; [done|]. rewrite dget_dset, decide_False; [done|]. by eapply pid_fresh.
    - apply Forall_singleton. exists bp. split; [done|]. by rewrite dget_dset, decide_True. }
  intros plans l3 h3 (-> & -> & Hplans). split; [by etransitivity|]. simpl.
  assert (Hprep2 : Forall (prep h2) prepared) by (eapply Forall_impl; [exact Hprep|]; intros x; by apply prep_mono).
  split; try done. rewrite <- Hp. apply Forall_fmap, Forall_forall. intros ri Hin. rewrite Forall_forall in Hprep2, Hv, Hplans.
  destruct (Hprep2 ri Hin) as (n & i & c & Hq & Hi), (Hv ri Hin) as (Hd & (c' & Hc' & He) & b & Hb & Hpf), (Hplans ri Hin) as (bp & Hbp & _).
  rewrite Hi in *. exists n, i, c', base, b, bp. split_and!; try done. unfold py in Hbase. destruct (derive isinstance root_bindings TENANT []); congruence.
Qed.

(** ** Scopes *)
Definition as_child (e : ev) : option (nat * string * nat) :=
  let 'existT q a := e in
  match q return ans q -> option (nat * string * nat) with
  | QChild s n => fun a => match a with inr c => Some (s, n, c) | _ => None end
  | _ => fun _ => None
  end a.

Section Scoped.
Context (prepared : prepared_list) (plans : dict string BundlePlan) (l0 : locals) (h0 : list ev) (Hstaging : staging prepared plans l0 h0).

Lemma guarded_visible h e : h0 ⊆ h -> ~ installs e -> guarded h e.
Proof.
  intros Hs Hi. split; [|done]. intros _. eapply Forall_impl; [exact (sg_ready _ _ _ _ Hstaging)|]. intros p. by apply ready_mono.
Qed.

Lemma make_customer360_wp profiles :
  mwp guarded (make_customer360 tenant_id plan profiles) l0 h0
    (fun c l h => h0 ⊆ h /\ tracked aid h l /\ lo_tenant l = None /\ staged_from prepared c l) failing.
Proof.
  destruct Hstaging as [_ _ _ _ Ht Hn Hs]. unfold make_customer360. destruct (sharing_enabled (cp_sharing plan)); [|by split_and!].
  apply mwp_bind. apply (mwp_foreach _ (fun _ _ l h => l = l0 /\ h0 ⊆ h /\ tracked aid h l)); [by split_and!| |].
  { intros dn pv rest _ l h _ (-> & Hsub & Ht1). apply mwp_ask. intros a. split; [by apply guarded_visible; [|intros []]|].
    assert (Ht2 : tracked aid ((QRegister tenant_id pv.1 pv.2 ~> a) :: h) l0) by (by apply tracked_calm1).
    destruct a; simpl; [exact Ht2|]. split_and!; [done|set_solver|done]. }
  intros _ l h (-> & Hsub & Ht1). apply mwp_bind, mwp_rethrow, mwp_ask. intros a. split; [by apply guarded_visible; [|intros []]|].
  destruct a as [x|c]; [by apply tracked_calm1|]. set (h1 := (QFactory profiles ~> inr c) :: h).
  set (l1 := if pv_has_close c then stage "customer360" (CloseCustomer360 (pv_value c)) l0 else l0). assert (Hs1 : h ⊆ h1) by set_solver.
  assert (Hin : forall e, e ∈ h1 -> e = (QFactory profiles ~> inr c) \/ e ∈ h) by set_solver.
  assert (Hold : forall x, x ∈ lo_staged l0 -> x ∈ lo_staged l1) by (unfold l1; destruct (pv_has_close c); simpl; set_solver).
  assert (Ht2 : tracked aid h1 l1).
  { destruct Ht1 as [Ha Hb Hc Hd]. split.
    - intros t [Ho|Ho]%Hin; [done|]. unfold l1. destruct (pv_has_close c); by apply Ha.
    - intros p n i k [Ho|Ho]%Hin Hk; [done|]. destruct (Hb p n i k Ho Hk); [left; by apply Hold|right; by eapply held_mono].
    - intros d c' [Ho|Ho]%Hin Hk.
      + apply (f_equal as_provided) in Ho. simpl in Ho. simplify_eq. left. unfold l1. rewrite Hk. simpl. set_solver.
      + destruct (Hc d c' Ho Hk); [left; by apply Hold|right; by eapply held_mono].
    - intros t ps [Ho|Ho]%Hin; [done|]. eapply grants_released_mono; [exact Hs1|by eapply Hd]. }
  apply mwp_bind. apply (mwp_mono _ _ _ _ (fun _ l' h' => l' = l1 /\ h' = h1) _ failing); [|auto|unfold l1; destruct (pv_has_close c); by split].
  intros _ l' h' [-> ->]. destruct (pv_is_provider c); [|exact Ht2]. split_and!; [set_solver|exact Ht2|unfold l1; by destruct (pv_has_close c)|].
  intros label d Hd. unfold l1 in Hd. assert (Hkeep : (label, d) ∈ lo_staged l0 -> (exists ri n, ri ∈ prepared /\
    label = prepared_label (rp_product_id ri.1) /\ pr_cleanup ri.2 = Some n /\ d = PreparedCleanup n) \/
    exists v, Some c = Some v /\ label = "customer360" /\ d = CloseCustomer360 (pv_value v)).
  { intros Hx. destruct (Hs label d Hx) as [?|(v & [=] & _)]. by left. }
  destruct (pv_has_close c); [|by apply Hkeep]. simpl in Hd. apply elem_of_app in Hd as [Hd|Hd]; [by apply Hkeep|].
  apply list_elem_of_singleton in Hd. injection Hd as Hl He. right. by exists c.
Qed.

(** The tenant scope becomes the [tenant] of the handler in the same step. *)
Lemma open_tenant_wp values c l h : h0 ⊆ h -> tracked aid h l -> lo_tenant l = None -> staged_from prepared c l ->
  mwp guarded (open_tenant isinstance root root_bindings tenant_id values) l h
    (fun r l' h' => h ⊆ h' /\ tracked aid h' l' /\ lo_tenant l' = Some r.1 /\ opened h' r.1 /\ staged_from prepared c l') failing.
Proof.
  intros Hsub Ht Hn Hs. unfold open_tenant. apply mwp_bind, mwp_of_sum; [|by intros]. intros _ _.
  apply mwp_bind, mwp_of_sum; [|by intros]. intros tb _. apply mwp_bind, mwp_ask. intros a. split; [by apply guarded_visible; [|intros []]|].
  destruct a as [x|t]; [by apply tracked_calm1|]. set (h1 := (QChild root ("tenant:" +:+ tenant_id) ~> inr t) :: h).
  assert (Hs1 : h ⊆ h1) by set_solver. assert (Hin : forall e, e ∈ h1 -> e = (QChild root ("tenant:" +:+ tenant_id) ~> inr t) \/ e ∈ h) by set_solver.
  split_and!; [done| |done|by left|done]. destruct Ht as [Ha Hb Hc Hd]. split; simpl.
  - intros t' [Ho|Ho]%Hin; [apply (f_equal as_child) in Ho; simpl in Ho; congruence|]. apply Ha in Ho. congruence.
  - intros p n i k [Ho|Ho]%Hin Hk; [done|]. destruct (Hb p n i k Ho Hk); [by left|right; by eapply held_mono].
  - intros d c' [Ho|Ho]%Hin Hk; [done|]. destruct (Hc d c' Ho Hk); [by left|right; by eapply held_mono].
  - intros t' ps [Ho|Ho]%Hin; [done|]. eapply grants_released_mono; [exact Hs1|by eapply Hd].
Qed.

Lemma own_customer360_wp t c l h : h0 ⊆ h -> tracked aid h l -> lo_tenant l = Some t -> opened h t -> staged_from prepared c l ->
  mwp guarded (own_customer360 t c) l h
    (fun _ l' h' => h ⊆ h' /\ tracked aid h' l' /\ lo_tenant l' = Some t /\ opened h' t /\ staged_from prepared None l') failing.
Proof.
  intros Hsub Ht Hn Ho Hs. destruct c as [c|]; [|by split_and!]. simpl. destruct (pv_has_close c); [|exact Ht].
  apply mwp_bind, mwp_ask. intros a. split; [by apply guarded_visible; [|intros []]|].
  set (h1 := (QOwn t "customer360" (CloseCustomer360 (pv_value c)) ~> a) :: h).
  assert (Ht1 : tracked aid h1 l) by (by apply tracked_calm1). destruct a as [x|]; [exact Ht1|].
  assert (Ho1 : opened h1 t) by (by right). split_and!; [set_solver| |done|done|].
  - apply tracked_unstage; [|done]. intros d Hd. exists t. split; [exists t; auto|].
    destruct (Hs "customer360" d Hd) as [(ri & n & _ & [=] & _)|(v & [= <-] & _ & ->)]. by left.
  - intros label d Hd. apply list_elem_of_filter in Hd as [Hl Hd]. simpl in Hl.
    destruct (Hs label d Hd) as [?|(v & _ & -> & _)]; [by left|done].
Qed.

(** After [bind_activation] returned, everything but its release is tracked. *)
Lemma tracked_bound t h l ps new : Forall calm new -> tracked aid h l -> grants_released aid (new ++ (QBind t ps aid ~> None) :: h) ->
  tracked aid (new ++ (QBind t ps aid ~> None) :: h) l.
Proof.
  intros Hnew Ht Hg. destruct (tracked_calm aid new h l Hnew Ht) as [Ha Hb Hc _].
  assert (Hs : new ++ h ⊆ new ++ (QBind t ps aid ~> None) :: h) by set_solver.
  assert (Hin : forall e, e ∈ new ++ (QBind t ps aid ~> None) :: h -> e = (QBind t ps aid ~> None) \/ e ∈ new ++ h) by set_solver.
  split; [| | |done].
  - intros t' [Ho|Ho]%Hin; [done|by apply Ha].
  - intros p n i k [Ho|Ho]%Hin Hk; [done|]. destruct (Hb p n i k Ho Hk); [by left|right; by eapply held_mono].
  - intros d c' [Ho|Ho]%Hin Hk; [done|]. destruct (Hc d c' Ho Hk); [by left|right; by eapply held_mono].
Qed.

Lemma bind_grants_wp t l h : h0 ⊆ h -> tracked aid h l -> opened h t ->
  mwp guarded (bind_grants t tenant_id plan aid) l h (fun _ l' h' => l' = l /\ h ⊆ h' /\ tracked aid h' l') failing.
Proof.
  intros Hsub Ht Ho. unfold bind_grants. apply mwp_catch, mwp_bind, mwp_ask. intros a. split; [by apply guarded_visible; [|intros []]|].
  assert (Hfail : forall x h1, h ⊆ h1 -> (passes x = true -> tracked aid h1 l) ->
      (forall r, tracked aid ((QRelease aid ~> r) :: h1) l) ->
      mwp guarded (if passes x then raise x else mbind (release_activation aid) (fun _ =>
        raise (A := unit) (ActivationError INSTALL_FAILED [tenant_id] (Some x) None))) l h1 (fun _ l' h' => l' = l /\ h ⊆ h' /\ tracked aid h' l') failing).
  { intros x h1 Hs1 Hp Hr. destruct (passes x); [by apply Hp|]. apply mwp_bind, mwp_ask. intros r. split; [by split|].
    destruct r; exact (Hr _). }
  destruct a as [x|]; simpl.
  - assert (Ht1 : tracked aid ((QBind tenant_id (product_ids plan) aid ~> Some x) :: h) l) by (by apply tracked_calm1).
    apply Hfail; [set_solver|done|]. intros r. by apply tracked_calm1.
  - apply mwp_ask. intros a. split; [apply guarded_visible; [set_solver|by intros []]|].
    set (e := QOwn t "capability-grants" (ReleaseGrants aid) ~> a). destruct a as [x|]; simpl.
    + apply Hfail; [set_solver| |].
      * intros Hp. apply (tracked_bound _ _ _ _ [e]); [by apply Forall_singleton|done|]. right. right. exists t, x. split; [by left|done].
      * intros r. apply (tracked_bound _ _ _ _ [QRelease aid ~> r; e]); [by repeat constructor|done|]. right. left. exists r. by left.
    + split_and!; [done|set_solver|]. apply (tracked_bound _ _ _ _ [e]); [by apply Forall_singleton|done|]. left. exists t. split; [|by left].
      exists t. split; [|by left]. unfold opened in *. set_solver.
Qed.


(** The scope of a product, and its prepared cleanup in it *)
Definition placed (t : nat) (products : dict string nat) (h : list ev) (ri : ResolvedCustomerProduct * item) : Prop :=
  exists s, dget (pid ri) products = Some s /\ (QChild t ("product:" +:+ pid ri) ~> inr s) ∈ h /\
    forall n, pr_cleanup ri.2 = Some n -> (QOwn s (prepared_label (pid ri)) (PreparedCleanup n) ~> None) ∈ h.

Lemma placed_mono t products h h' ri : h ⊆ h' -> placed t products h ri -> placed t products h' ri.
Proof. intros Hs (s & Hd & Hc & Ho). exists s. split_and!; [done|by apply Hs|]. intros n Hn. by apply Hs, Ho. Qed.

Definition scopes_open (t : nat) (l : locals) (h : list ev) : Prop :=
  h0 ⊆ h /\ tracked aid h l /\ lo_tenant l = Some t /\ opened h t /\ staged_from prepared None l.

Lemma open_product_wp t tb products ri l h : ri ∈ prepared -> scopes_open t l h ->
  mwp guarded (open_product isinstance t tb tenant_id products ri) l h
    (fun r l' h' => h ⊆ h' /\ scopes_open t l' h' /\ exists s, r = dset (pid ri) s products /\ placed t r h' ri) failing.
Proof.
  intros Hri (Hsub & Ht & Hl & Ho & Hs). unfold open_product. change (rp_product_id ri.1) with (pid ri).
  apply mwp_bind, mwp_of_sum; [|by intros]. intros _ _. apply mwp_bind, mwp_of_sum; [|by intros]. intros _ _.
  apply mwp_bind, mwp_ask. intros a. split; [by apply guarded_visible; [|intros []]|].
  set (h1 := (QChild t ("product:" +:+ pid ri) ~> a) :: h).
  assert (Ht1 : tracked aid h1 l) by (apply tracked_calm1; [by destruct a|done]). destruct a as [x|s]; [exact Ht1|].
  assert (Ho1 : opened h1 t) by (by right). assert (Hb : below h1 s) by (exists t; split; [done|]; right; eexists; by left).
  assert (Hget : dget (pid ri) (dset (pid ri) s products) = Some s) by (by rewrite dget_dset, decide_True).
  apply mwp_bind. destruct (pr_cleanup ri.2) as [n|] eqn:Hn.
  - apply mwp_bind, mwp_ask. intros a. split; [apply guarded_visible; [set_solver|by intros []]|].
    set (h2 := (QOwn s (prepared_label (pid ri)) (PreparedCleanup n) ~> a) :: h1).
    assert (Ht2 : tracked aid h2 l) by (by apply tracked_calm1). destruct a as [x|]; [exact Ht2|].
    assert (Hs2 : h1 ⊆ h2) by set_solver. split; [set_solver|]. split.
    + split_and!; [set_solver| |done|by right|by apply staged_from_unstage]. apply tracked_unstage; [|done]. intros d Hd.
      destruct (Hs _ _ Hd) as [(ri' & n' & Hin & Hl' & Hn' & ->)|(v & _ & [=] & _)]. exists s. split; [by eapply below_mono|].
      apply prepared_label_inj in Hl'. assert (ri' = ri) as ->; [|rewrite Hn in Hn'; injection Hn' as <-; by left].
      apply list_elem_of_lookup in Hin as [j Hj], Hri as [k Hk]. assert (j = k) as ->; [|congruence].
      eapply (NoDup_lookup _ j k); [exact (pids_distinct prepared (sg_products _ _ _ _ Hstaging))|by rewrite list_lookup_fmap, Hj|].
      rewrite list_lookup_fmap, Hk. simpl. by f_equal.
    + exists s. split; [done|]. exists s. split_and!; [done|right; by left|]. intros n' Hn'. simplify_eq. by left.
  - split; [set_solver|]. split; [by split_and!; [set_solver|..]|]. exists s. split; [done|]. exists s. split_and!; [done|by left|].
    intros n' Hn'. congruence.
Qed.

Lemma open_scopes_wp profiles :
  mwp guarded (open_scopes isinstance customer360_contract root root_bindings tenant_id plan aid prepared profiles) l0 h0
    (fun r l h => scopes_open r.1.1 l h /\ Forall (placed r.1.1 r.2 h) prepared /\ r.2.*1 = pid <$> prepared) failing.
Proof.
  unfold open_scopes. apply mwp_bind. refine (mwp_mono _ _ _ _ _ _ _ _ _ _ (make_customer360_wp _)); [|auto].
  intros c l1 h1 (Hs1 & Ht1 & Hn1 & Hf1). apply mwp_bind, mwp_of_sum; [|by intros]. intros _ _. apply mwp_bind.
  eapply mwp_mono; [| |by apply (open_tenant_wp _ c)]; [|auto]. intros [t tb] l2 h2 (Hs2 & Ht2 & Hn2 & Ho2 & Hf2). simpl in *. apply mwp_bind.
  eapply mwp_mono; [| |apply (own_customer360_wp t c); [by etransitivity|done..]]; [|auto].
  intros _ l3 h3 (Hs3 & Ht3 & Hn3 & Ho3 & Hf3). apply mwp_bind.
  assert (Hh3 : h0 ⊆ h3) by (by do 2 (etransitivity; [eassumption|])).
  eapply mwp_mono; [| |apply (bind_grants_wp t); done]; [|auto]. intros _ l4 h4 (-> & Hs4 & Ht4). apply mwp_bind.
  apply (mwp_foreach _ (fun dn products l h => scopes_open t l h /\ Forall (placed t products h) dn /\ products.*1 = pid <$> dn)).
  - split; [|done]. split_and!; [by etransitivity|done..|by apply Hs4|done].
  - intros dn ri rest products l h Heq (Hsc & Hpl & Hkeys). eapply mwp_mono; [| |apply open_product_wp; [rewrite Heq; set_solver|done]]; [|auto].
    intros r l' h' (Hsub' & Hsc' & s & -> & Hp'). split; [done|]. split.
    + apply Forall_app. split; [|by apply Forall_singleton]. apply Forall_forall. intros ri' Hin. rewrite Forall_forall in Hpl.
      destruct (Hpl ri' Hin) as (s' & Hd & Hc & Ho). exists s'. split_and!; [|by apply Hsub'|intros n Hn; by apply Hsub', Ho].
      rewrite dget_dset, decide_False; [done|]. eapply pid_fresh; [exact (sg_products _ _ _ _ Hstaging)|exact Heq|done].
    + rewrite dset_keys, Hkeys, fmap_app, decide_False; [done|]. intros (ri' & Heq' & Hin)%list_elem_of_fmap.
      eapply pid_fresh; [exact (sg_products _ _ _ _ Hstaging)|exact Heq|exact Hin|done].
  - intros products l h (Hsc & Hpl & Hkeys). by split_and!.
Qed.

(** ** Installation *)

(** A question that creates no obligation and installs no product *)
Lemma ask_steady {A : Type} q (f : ans q -> kexc + A) l h (R : A -> locals -> list ev -> Prop) :
  (forall a, calm (q ~> a)) -> (forall a, ~ installs (q ~> a)) -> h0 ⊆ h -> tracked aid h l ->
  (forall a v, f a = inr v -> tracked aid ((q ~> a) :: h) l -> R v l ((q ~> a) :: h)) ->
  mwp guarded (fun l => Call q (fun a => Ret (l, f a))) l h R failing.
Proof.
  intros Hc Hi Hsub Ht HR. apply mwp_ask. intros a. split; [by apply guarded_visible|].
  assert (Ht1 : tracked aid ((q ~> a) :: h) l) by (by apply tracked_calm1). destruct (f a) as [x|v] eqn:Hf; [exact Ht1|by apply HR].
Qed.

Definition steady (l : locals) (h : list ev) (l' : locals) (h' : list ev) : Prop := l' = l /\ h ⊆ h' /\ tracked aid h' l'.

Lemma steady_step l h l' h' e : steady l h l' h' -> tracked aid (e :: h') l' -> steady l h l' (e :: h').
Proof. intros (-> & Hs & _) Ht. split_and!; [done|set_solver|done]. Qed.

Lemma configure_wp l h : h0 ⊆ h -> tracked aid h l ->
  mwp guarded (configure_sharing_policies tenant_id plan) l h (fun _ => steady l h) failing.
Proof.
  intros Hsub Ht. unfold configure_sharing_policies. apply mwp_bind, mwp_of_sum; [|by intros]. intros outgoing _.
  apply mwp_bind, mwp_of_sum; [|by intros]. intros incoming _.
  apply (mwp_foreach _ (fun _ _ => steady l h)); [by split_and!| |done]. intros dn q rest u l' h' _ Hst. pose proof Hst as (-> & Hs & Ht').
  unfold configure_one. apply mwp_bind, mwp_of_sum; [|by intros]. intros path _. apply mwp_bind, mwp_of_sum; [|by intros]. intros scope _.
  apply ask_steady; [done|by intros a []|by etransitivity|done|]. intros a v _ Ht2. by apply steady_step.
Qed.

Definition all_installed (h : list ev) (bs : list Bundle) : Prop := Forall (fun b => exists s, (QInstallBundle b s ~> None) ∈ h) bs.

Lemma all_installed_mono h h' bs : h ⊆ h' -> all_installed h bs -> all_installed h' bs.
Proof. intros Hs Hb. eapply Forall_impl; [exact Hb|]. intros b [s Hi]. exists s. by apply Hs. Qed.

Lemma child_calm s n a : n <> "tenant:" +:+ tenant_id -> calm (QChild s n ~> a).
Proof. by destruct a. Qed.

Lemma install_bundle_plan_wp bp path product c l h : h0 ⊆ h -> tracked aid h l ->
  mwp guarded (install_bundle_plan config_isinstance bp path product c) l h
    (fun _ l' h' => steady l h l' h' /\ all_installed h' (bp_bundles bp)) failing.
Proof.
  intros Hsub Ht. unfold install_bundle_plan. case_decide; [exact Ht|]. destruct (config_isinstance c _); [simpl|exact Ht].
  apply mwp_bind, ask_steady; [intros a; by apply child_calm|by intros a []|done..|]. intros a tr _ Ht1.
  set (h1 := (QChild product ("bundles:" +:+ pd_product_id (bp_product bp)) ~> a) :: h) in *. assert (Hs1 : h ⊆ h1) by set_solver.
  apply mwp_catch, mwp_bind.
  apply (mwp_foreach _ (fun dn _ l' h' => steady l h1 l' h' /\ all_installed h' dn)).
  - split; [by split_and!|constructor].
  - intros dn b rest u l' h' _ [Hst Hall]. pose proof Hst as (-> & Hs & Ht'). unfold install_in. apply mwp_bind, mwp_ask.
    assert (Hfail : forall (x : kexc) h2, tracked aid h2 l -> mwp guarded (roll_back tr x) l h2
      (fun _ l' h' => steady l h l' h' /\ all_installed h' (bp_bundles bp)) failing).
    { intros x h2 Ht2. unfold roll_back. apply mwp_bind, mwp_rethrow, mwp_ask. intros r. split; [by split|]. destruct r; by apply tracked_calm1. }
    intros a1. split; [apply guarded_visible; [by do 2 (etransitivity; [eassumption|])|by intros []]|].
    set (h2 := (QChild tr ("bundle:" +:+ bundle_id b) ~> a1) :: h').
    assert (Ht2 : tracked aid h2 l) by (apply tracked_calm1; [by apply child_calm|done]). assert (Hs2 : h' ⊆ h2) by set_solver.
    destruct a1 as [x|s]; [by apply Hfail|]. apply mwp_ask. intros a2. split.
    { apply guarded_visible; [by do 3 (etransitivity; [eassumption|])|by intros []]. }
    assert (Ht3 : tracked aid ((QInstallBundle b s ~> a2) :: h2) l) by (by apply tracked_calm1).
    destruct a2 as [x|]; [by apply Hfail|]. split; [split_and!; [done|set_solver|done]|]. apply Forall_app. split.
    + eapply all_installed_mono; [|exact Hall]. set_solver.
    + apply Forall_singleton. exists s. by left.
  - intros _ l' h' [(-> & Hs & Ht') Hall]. split; [|done]. split_and!; [done|by etransitivity|done].
Qed.

Lemma steady_trans l h l1 h1 l2 h2 : steady l h l1 h1 -> steady l1 h1 l2 h2 -> steady l h l2 h2.
Proof. intros (-> & Hs & _) (-> & Hs' & Ht). split_and!; [done|by etransitivity|done]. Qed.

Lemma install_bundles_wp products l h : h0 ⊆ h -> tracked aid h l ->
  mwp guarded (foreach (install_bundles_of config_isinstance tenant_id products plans) tt prepared) l h
    (fun _ l' h' => steady l h l' h' /\ Forall (bundled h') (cp_products plan)) failing.
Proof.
  intros Hsub Ht. apply (mwp_foreach _ (fun dn _ l' h' => steady l h l' h' /\ Forall (fun ri => bundled h' ri.1) dn)).
  - split; [by split_and!|constructor].
  - intros dn ri rest u l' h' Heq [Hst Hall]. pose proof Hst as (-> & Hs & Ht'). unfold install_bundles_of.
    apply mwp_bind, mwp_of_sum; [|by intros]. intros product _. apply mwp_bind, mwp_of_sum; [|by intros]. intros bp Hbp.
    apply mwp_bind, mwp_of_sum; [|by intros]. intros path _. apply mwp_bind, mwp_rethrow.
    eapply mwp_mono; [| |apply install_bundle_plan_wp; [by etransitivity|done]]; [|auto].
    intros tr l2 h2 [Hst2 Hins]. pose proof Hst2 as (-> & Hs2 & Ht2). split; [by eapply steady_trans|]. apply Forall_app. split.
    + eapply Forall_impl; [exact Hall|]. intros ri'. by apply bundled_mono.
    + apply Forall_singleton. assert (Hin : ri ∈ prepared) by (rewrite Heq; set_solver).
      destruct (proj1 (Forall_forall _ _) (sg_prep _ _ _ _ Hstaging) ri Hin) as (n & i & c & Hq & Hi).
      destruct (proj1 (Forall_forall _ _) (sg_plans _ _ _ _ Hstaging) ri Hin) as (bp' & Hr & Hd).
      unfold item_of in Hbp. change (rp_product_id ri.1) with (pid ri) in Hbp. rewrite Hd in Hbp. injection Hbp as <-.
      exists n, i, bp'. split; [by apply Hs2, Hs, Hsub|]. rewrite Hi in Hr. by split.
  - intros u l' h' [Hst Hall]. split; [done|]. rewrite <- (sg_products _ _ _ _ Hstaging). by apply Forall_fmap.
Qed.

Definition installed (h : list ev) (ri : ResolvedCustomerProduct * item) : Prop :=
  forall n, pr_install ri.2 = Some n -> exists s, (QInstall (pid ri) n s ~> None) ∈ h.

Lemma run_installers_wp products l h : h0 ⊆ h -> tracked aid h l -> Forall (bundled h) (cp_products plan) ->
  mwp guarded (foreach (run_installer products) tt prepared) l h
    (fun _ l' h' => steady l h l' h' /\ Forall (installed h') prepared) failing.
Proof.
  intros Hsub Ht Hb. apply (mwp_foreach _ (fun dn _ l' h' => steady l h l' h' /\ Forall (installed h') dn)).
  - split; [by split_and!|constructor].
  - intros dn ri rest u l' h' _ [Hst Hall]. pose proof Hst as (-> & Hs & Ht'). unfold run_installer.
    assert (Hkeep : forall h2, h' ⊆ h2 -> Forall (installed h2) dn).
    { intros h2 Hs2. eapply Forall_impl; [exact Hall|]. intros ri' Hi n Hn. destruct (Hi n Hn) as [s Hin]. exists s. by apply Hs2. }
    destruct (pr_install ri.2) as [n|] eqn:Hn.
    2:{ split; [done|]. apply Forall_app. split; [by apply Hkeep|]. apply Forall_singleton. intros n Hn'. congruence. }
    apply mwp_bind, mwp_of_sum; [|by intros]. intros product _.
    apply mwp_bind, ask_steady; [intros a; by apply child_calm|by intros a []|by etransitivity|done|]. intros a s _ Ht1.
    set (h1 := (QChild product _ ~> a) :: h') in *. apply mwp_rethrow, mwp_ask. intros a1.
    assert (Hs1 : h ⊆ h1) by set_solver. split.
    { split; intros _.
      - eapply Forall_impl; [exact (sg_ready _ _ _ _ Hstaging)|]. intros p. apply ready_mono. by etransitivity.
      - eapply Forall_impl; [exact Hb|]. intros p. by apply bundled_mono. }
    assert (Ht2 : tracked aid ((QInstall (rp_product_id ri.1) n s ~> a1) :: h1) l) by (by apply tracked_calm1).
    destruct a1 as [x|]; [exact Ht2|]. split; [split_and!; [done|set_solver|done]|]. apply Forall_app. split; [apply Hkeep; set_solver|].
    apply Forall_singleton. intros n' Hn'. rewrite Hn in Hn'. injection Hn' as <-. exists s. by left.
  - done.
Qed.

Definition drained (h : list ev) (ps : string * nat) : Prop := (QOwn ps.2 "execution-runs:drain" (DrainRuns ps.1) ~> None) ∈ h.

Lemma install_all_wp customer360 products l h : h0 ⊆ h -> tracked aid h l ->
  mwp guarded (install_all config_isinstance tenant_id plan prepared plans customer360 products) l h
    (fun _ l' h' => steady l h l' h' /\ Forall (bundled h') (cp_products plan) /\ Forall (installed h') prepared /\ Forall (drained h') products)
    failing.
Proof.
  intros Hsub Ht. unfold install_all. apply mwp_bind.
  apply (mwp_mono _ _ _ _ (fun _ => steady l h) _ failing); [|auto|].
  2:{ destruct customer360; [|by split_and!]. apply mwp_rethrow. eapply mwp_mono; [| |by apply configure_wp]; auto. }
  intros _ l1 h1 (-> & Hs1 & Ht1). assert (Hh1 : h0 ⊆ h1) by (by etransitivity). apply mwp_bind.
  eapply mwp_mono; [| |by apply install_bundles_wp]; [|auto]. intros _ l2 h2 [(-> & Hs2 & Ht2) Hb2].
  assert (Hh2 : h0 ⊆ h2) by (by etransitivity). apply mwp_bind.
  eapply mwp_mono; [| |by apply run_installers_wp]; [|auto]. intros _ l3 h3 [(-> & Hs3 & Ht3) Hi3].
  assert (Hh3 : h0 ⊆ h3) by (by etransitivity).
  apply (mwp_foreach _ (fun dn _ l' h' => steady l h3 l' h' /\ Forall (drained h') dn)).
  - split; [by split_and!|constructor].
  - intros dn ps rest u l' h' _ [Hst Hall]. pose proof Hst as (-> & Hs & Ht').
    apply ask_steady; [done|by intros a []|by etransitivity|done|]. intros a v Ha Ht4. split; [by apply steady_step|].
    apply Forall_app. split; [eapply Forall_impl; [exact Hall|]; intros ps' Hd; unfold drained in *; set_solver|].
    apply Forall_singleton. destruct a; [done|]. by left.
  - intros u l' h' [(-> & Hs & Ht') Hd]. assert (Hs' : h2 ⊆ h') by (by etransitivity). split; [split_and!; [done|set_solver|done]|split_and!; [| |done]].
    + eapply Forall_impl; [exact Hb2|]. intros p. by apply bundled_mono.
    + eapply Forall_impl; [exact Hi3|]. intros ri Hi n Hn. destruct (Hi n Hn) as [s Hin]. exists s. by apply Hs.
Qed.
End Scoped.

(** ** The [try] block *)

(** What a published activation rests on *)
Record complete (a : Activated) (h : list ev) : Prop := MkComplete {
  co_plan : plan_snapshot plan = Ok (av_plan a);
  co_tenant : opened h (av_tenant a);
  co_activation : av_activation_id a = aid;
  co_bundles : Forall (bundled h) (cp_products plan);
  co_drained : Forall (drained h) (av_products a);
  co_products : (av_products a).*1 = product_ids plan;
  co_prepared : exists prepared, prepared.*1 = cp_products plan /\ Forall (prep h) prepared /\
    Forall (placed (av_tenant a) (av_products a) h) prepared /\ Forall (installed h) prepared;
}.

Lemma activation_body_wp activators l h : tracked aid h l -> lo_tenant l = None -> lo_staged l = [] ->
  mwp guarded (activation_body isinstance config_eq config_isinstance profile_contract customer360_contract root root_bindings tenant_id plan activators aid) l h
    (fun a _ h' => exists h1, h' = (QPublish tenant_id a ~> None) :: h1 /\ complete a h1) failing.
Proof.
  intros Ht Hn Hs. unfold activation_body. apply mwp_bind.
  eapply mwp_mono; [| |by apply stage_products_wp]; [|auto]. intros [[prepared profiles] plans] l0 h0 [_ Hst]. simpl in Hst.
  apply mwp_bind. refine (mwp_mono _ _ _ _ _ _ _ _ _ _ (open_scopes_wp prepared plans l0 h0 Hst profiles)); [|auto].
  intros [[t c] products] l1 h1 ((Hs1 & Ht1 & Hl1 & Ho1 & Hf1) & Hpl & Hkeys). simpl in *.
  apply mwp_bind. refine (mwp_mono _ _ _ _ _ _ _ _ _ _ (install_all_wp prepared plans l0 h0 Hst c products l1 h1 Hs1 Ht1)); [|auto].
  intros _ l2 h2 ((-> & Hs2 & Ht2) & Hb & Hi & Hd). apply mwp_bind, mwp_of_sum; [|by intros]. intros final Hfinal.
  assert (Hsub : h0 ⊆ h2) by (by etransitivity). apply mwp_bind, mwp_ask. intros a. split.
  { split; intros _; [|done]. eapply Forall_impl; [exact (sg_ready _ _ _ _ Hst)|]. intros p. by apply ready_mono. }
  destruct a as [x|]; [by apply tracked_calm1|]. exists h2. split; [done|]. split; simpl; try done.
  - unfold py in Hfinal. destruct (plan_snapshot plan); congruence.
  - by apply Hs2.
  - rewrite Hkeys. unfold product_ids. rewrite <- (sg_products _ _ _ _ Hst). by rewrite <- list_fmap_compose.
  - exists prepared. split_and!; [exact (sg_products _ _ _ _ Hst)| | |done].
    + eapply Forall_impl; [exact (sg_prep _ _ _ _ Hst)|]. intros ri. by apply prep_mono.
    + eapply Forall_impl; [exact Hpl|]. intros ri. by apply placed_mono.
Qed.

(** ** The [except] clause *)

(** A close came back and reported the cleanup error [c], if any. *)
Definition came_back (r : option kexc) (c : option exc) : Prop :=
  match r with None => c = None | Some x => c <> None /\ cleanup_of x = c end.

Lemma cleanup_error_of_wp (ask : act unit) (mk : option kexc -> ev) l h :
  (forall R E, (forall a, match a with None => R tt l (mk a :: h) | Some x => E x l (mk a :: h) end) -> mwp guarded ask l h R E) ->
  mwp guarded (cleanup_error_of ask) l h
    (fun c l' h' => l' = l /\ exists a, h' = mk a :: h /\ came_back a c) (fun y _ h' => h' = mk (Some y) :: h).
Proof.
  intros Hask. unfold cleanup_error_of. apply mwp_catch, mwp_bind, Hask. intros [x|].
  - destruct (cleanup_of x) as [c|] eqn:Hc; [|done]. split; [done|]. by exists (Some x).
  - split; [done|]. by exists None.
Qed.

(** What the handler leaves, having started from [l] after [h] with the exception
    [x] and come back with [y]: it was interrupted in one of its own awaits, or
    it closed the tenant, closed the staged disposers and released the slot. *)
Definition interrupted (h : list ev) (y : kexc) (h' : list ev) : Prop :=
  exists h1 e, h' = e :: h1 /\ h ⊆ h1 /\
    ((exists s, e = (QClose s ~> Some y)) \/ (exists n ds, e = (QCleanup n ds ~> Some y)) \/ exists c, e = (QFinish tenant_id aid c ~> Some y)).

Definition closing (e : ev) : Prop := match projT1 e with QClose _ | QCleanup _ _ => True | _ => False end.

(** [h'] adds only closes to [h]. *)
Definition adds_closes (h h' : list ev) : Prop := h ⊆ h' /\ forall e, e ∈ h' -> e ∈ h \/ closing e.

Lemma adds_close h h' e : adds_closes h h' -> closing e -> adds_closes h (e :: h').
Proof. intros [Hs Hn] He. split; [set_solver|]. intros e' [->|Hin]%elem_of_cons; [by right|by apply Hn]. Qed.

Definition released (x : kexc) (l : locals) (h : list ev) (y : kexc) (h' : list ev) : Prop :=
  exists h1 c1 c2, let cleanup := merge_cleanup (option_list c1 ++ option_list c2) tenant_id in
    h' = (QFinish tenant_id aid cleanup ~> None) :: h1 /\ adds_closes h h1 /\ y = failure_of x cleanup /\
    match lo_tenant l with None => c1 = None | Some t => exists r, (QClose t ~> r) ∈ h1 /\ came_back r c1 end /\
    match lo_staged l with
    | [] => c2 = None
    | ds => exists r, (QCleanup ("staged:" +:+ tenant_id) ds ~> r) ∈ h1 /\ came_back r c2
    end.

Lemma roll_back_activation_wp x l h :
  mwp guarded (roll_back_activation tenant_id aid x) l h (fun _ _ _ => False)
    (fun y _ h' => interrupted h y h' \/ released x l h y h').
Proof.
  unfold roll_back_activation, mwp.
  change (mwp guarded (mbind (match lo_tenant l with Some t => cleanup_error_of (close_scope t) | None => ret None end) (fun closed =>
    mbind (cleanup_staged tenant_id (lo_staged l)) (fun staged =>
      mbind (finish_close tenant_id aid (merge_cleanup (option_list closed ++ option_list staged) tenant_id)) (fun _ =>
        raise (A := Activated) (failure_of x (merge_cleanup (option_list closed ++ option_list staged) tenant_id)))))) l h (fun _ _ _ => False)
    (fun y _ h' => interrupted h y h' \/ released x l h y h')).
  apply mwp_bind. apply (mwp_mono _ _ _ _ (fun c1 l1 h1 => l1 = l /\ adds_closes h h1 /\
    match lo_tenant l with None => c1 = None | Some t => exists r, (QClose t ~> r) ∈ h1 /\ came_back r c1 end) _ (fun y _ h' => interrupted h y h'));
    [|auto|].
  2:{ assert (Hrefl : adds_closes h h) by (split; [done|by left]). destruct (lo_tenant l) as [t|]; [|by split_and!].
      eapply mwp_mono; [| |apply (cleanup_error_of_wp (close_scope t) (existT (QClose t)))].
      - intros c1 l1 h1 (-> & a & -> & Ha). split_and!; [done|by apply adds_close|]. exists a. split; [by left|done].
      - intros y l1 h1 ->. exists h, (QClose t ~> Some y). split_and!; [done..|]. left. by exists t.
      - intros R E HRE. apply mwp_ask. intros a. split; [by split|]. specialize (HRE a). by destruct a. }
  intros c1 l1 h1 (-> & Hn1 & Hc1). pose proof Hn1 as [Hs1 _]. apply mwp_bind. apply (mwp_mono _ _ _ _ (fun c2 l2 h2 => l2 = l /\ h1 ⊆ h2 /\ adds_closes h h2 /\
    match lo_staged l with [] => c2 = None | ds => exists r, (QCleanup ("staged:" +:+ tenant_id) ds ~> r) ∈ h2 /\ came_back r c2 end) _
    (fun y _ h' => interrupted h y h')); [|auto|].
  2:{ unfold cleanup_staged. destruct (lo_staged l) as [|d ds]; [by split_and!|].
      eapply mwp_mono; [| |apply (cleanup_error_of_wp _ (existT (QCleanup ("staged:" +:+ tenant_id) (d :: ds))))].
      - intros c2 l2 h2 (-> & a & -> & Ha). split_and!; [done|set_solver|by apply adds_close|]. exists a. split; [by left|done].
      - intros y l2 h2 ->. exists h1. eexists. split_and!; [done..|]. right. left. by eexists _, _.
      - intros R E HRE. apply mwp_ask. intros a. split; [by split|]. specialize (HRE a). by destruct a. }
  intros c2 l2 h2 (-> & Hs2 & Hn2 & Hc2). apply mwp_bind, mwp_ask. intros a. split; [by split|]. destruct a as [y|].
  - left. exists h2. eexists. split_and!; [done|by etransitivity|]. right. right. by eexists.
  - right. exists h2, c1, c2. split_and!; [done..| |done]. destruct (lo_tenant l); [|done].
    destruct Hc1 as (r & Hr & Hcb). exists r. split; [by apply Hs2|done].
Qed.
End Properties.

Section Theorems.
Context `{Packaging} `{ConfigModels} {C V : Type} `{EqDecision C} `{EqDecision V} (isinstance : V -> C -> res bool).
Context (config_eq : config -> config -> bool) (config_isinstance : config -> ConfigModel -> bool).
Context (profile_contract customer360_contract : C).
Context (root : nat) (root_bindings : ServiceBindings C V) (tenant_id : string).
Abbreviation ev := (event (@ans _ _ C V)).
Abbreviation activation := (activate_customer_bundle isinstance config_eq config_isinstance profile_contract customer360_contract
  root root_bindings tenant_id).
Abbreviation guard_of := (guarded isinstance config_eq profile_contract root_bindings).

Definition start : locals (V := V) := MkLocals None [].

(** The plan an activation works on is the trusted snapshot. *)
Lemma accepted_plan plan0 activators plan (indexed : dict string ProductActivator) :
  accepted_arguments tenant_id plan0 activators = inr (plan, indexed) ->
  plan_snapshot plan0 = Ok plan /\ NoDup (rp_product_id <$> cp_products plan).
Proof.
  unfold accepted_arguments. destruct (plan_snapshot plan0) as [p|] eqn:Hp; [|done]. simpl. destruct (first_scope tenant_id p); [done|]. simpl.
  destruct (validate_activators p activators); [done|]. intros [= <- _]. split; [done|]. by eapply plan_ids_distinct.
Qed.

Lemma activate_wp plan0 activators plan indexed : accepted_arguments tenant_id plan0 activators = inr (plan, indexed) ->
  mwp (guard_of plan) (activation plan0 activators) start []
    (fun a _ h => exists aid h1, h = (QPublish tenant_id a ~> None) :: h1 /\ (QReserve tenant_id ~> inr aid) ∈ h1 /\
       complete root tenant_id plan aid a h1)
    (fun y _ h => h = [QReserve tenant_id ~> inl y] \/ exists aid x l1 h1, (QReserve tenant_id ~> inr aid) ∈ h1 /\
       tracked root tenant_id aid h1 l1 /\ (interrupted tenant_id aid h1 y h \/ released tenant_id aid x l1 h1 y h)).
Proof.
  intros Hacc. destruct (accepted_plan _ _ _ _ Hacc) as [_ Hnd]. unfold activate_customer_bundle. apply mwp_bind, mwp_of_sum; rewrite Hacc; [|done].
  intros [plan' indexed'] [= <- <-]. apply mwp_bind, mwp_ask. intros [y|aid]; (split; [by split|]); [by left|].
  apply mwp_catch. set (h0 := [QReserve tenant_id ~> inr aid] : list ev).
  assert (Ht : tracked (C := C) root tenant_id aid h0 start).
  { split; [intros t [Ho|Ho%not_elem_of_nil]%elem_of_cons|intros p n i k [Ho|Ho%not_elem_of_nil]%elem_of_cons|
      intros d c [Ho|Ho%not_elem_of_nil]%elem_of_cons|intros t ps [Ho|Ho%not_elem_of_nil]%elem_of_cons]; done. }
  pose proof (activation_body_wp isinstance config_eq config_isinstance profile_contract customer360_contract root root_bindings tenant_id plan aid Hnd
    indexed start h0 Ht eq_refl eq_refl) as Hbody. apply mwp_grows in Hbody.
  refine (mwp_mono _ _ _ _ _ _ _ _ _ _ Hbody).
  - intros a l h [(h1 & -> & Hc) Hs]. exists aid, h1. split_and!; [done| |done].
    assert (Hin : (QReserve tenant_id ~> inr aid) ∈ (QPublish tenant_id a ~> None) :: h1) by (apply Hs; by left).
    by apply elem_of_cons in Hin as [Hin|Hin].
  - intros x l1 h1 [Ht1 Hs].
    refine (mwp_mono _ _ _ _ _ _ _ _ _ _ (roll_back_activation_wp isinstance config_eq profile_contract root_bindings tenant_id plan aid Hnd x l1 h1)); [by intros ? ? ? []|]. intros y l2 h2 Hr. right. exists aid, x, l1, h1.
    split_and!; [apply Hs; by left|done..].
Qed.

(** ** From histories to traces *)
Lemma subseteq_reverse {A : Type} (l : list A) : reverse l ⊆ l.
Proof. intros x. by rewrite elem_of_reverse. Qed.

Lemma refused_asks_nothing plan0 activators t o x :
  accepted_arguments tenant_id plan0 activators = inl x -> run_to (activation plan0 activators start) t o -> t = [].
Proof.
  intros Hacc. unfold activate_customer_bundle, mbind. rewrite Hacc. intros [-> _]. done.
Qed.

Lemma merge_cleanup_None c1 c2 : merge_cleanup (option_list c1 ++ option_list c2) tenant_id = None -> c1 = None /\ c2 = None.
Proof. by destruct c1, c2. Qed.

(** The close came back; with an error only if the rollback reports one. *)
Definition returned (cleanup : option exc) (r : option kexc) : Prop :=
  r = None \/ cleanup <> None /\ exists x c, r = Some x /\ cleanup_of x = Some c.

Lemma came_back_returned r c cleanup : came_back r c -> (cleanup = None -> c = None) -> returned cleanup r.
Proof.
  destruct r as [x|]; [|by left]. intros [Hc Hx] Hn. right. split; [by intros ->%Hn|]. destruct c as [c|]; [|done]. eauto.
Qed.

(** [d] was among the staged disposers that the rollback closed. *)
Definition swept (t : list ev) (cleanup : option exc) (label : string) (d : owned) : Prop :=
  exists ds r, (QCleanup ("staged:" +:+ tenant_id) ds ~> r) ∈ t /\ (label, d) ∈ ds /\ returned cleanup r.

Record rolled_back (aid : nat) (cleanup : option exc) (t : list ev) : Prop := MkRolledBack {
  rb_tenant : forall s, opened root tenant_id t s -> exists r, (QClose s ~> r) ∈ t /\ returned cleanup r;
  rb_prepared : forall p n i k, (QPrepare p n ~> inr (Some i)) ∈ t -> pr_cleanup i = Some k ->
    held root tenant_id t (prepared_label (rp_product_id p)) (PreparedCleanup k) \/ swept t cleanup (prepared_label (rp_product_id p)) (PreparedCleanup k);
  rb_customer360 : forall d c, (QFactory d ~> inr c) ∈ t -> pv_has_close c = true ->
    held root tenant_id t "customer360" (CloseCustomer360 (pv_value c)) \/ swept t cleanup "customer360" (CloseCustomer360 (pv_value c));
  rb_grants : forall t' ps, (QBind t' ps aid ~> None) ∈ t -> grants_released root tenant_id aid t;
}.

Lemma released_rolled_back aid x l h y h' : tracked root tenant_id aid h l -> released tenant_id aid x l h y h' ->
  exists h1 cleanup, h' = (QFinish tenant_id aid cleanup ~> None) :: h1 /\ h ⊆ h1 /\ rolled_back aid cleanup h1.
Proof.
  intros [Ht Hp Hf Hg] (h1 & c1 & c2 & Hh' & [Hs Hnew] & _ & Hten & Hst). set (cleanup := merge_cleanup _ tenant_id) in *.
  exists h1, cleanup. split_and!; [done..|].
  assert (Hold : forall e, e ∈ h1 -> (closing e -> False) -> e ∈ h) by (intros e He Hk; by destruct (Hnew e He)).
  assert (Hsw : forall label d, (label, d) ∈ lo_staged l -> swept h1 cleanup label d).
  { intros label d Hin. destruct (lo_staged l) as [|d0 ds]; [by apply not_elem_of_nil in Hin|]. destruct Hst as (r & Hr & Hcb).
    exists (d0 :: ds), r. split_and!; [done..|]. eapply came_back_returned; [done|]. by intros [_ ?]%merge_cleanup_None. }
  split.
  - intros s Ho. assert (Ho' : opened root tenant_id h s) by (by apply Hold; [|intros []]). rewrite (Ht s Ho') in Hten. destruct Hten as (r & Hr & Hcb).
    exists r. split; [done|]. eapply came_back_returned; [done|]. by intros [? _]%merge_cleanup_None.
  - intros p n i k Hi Hk. destruct (Hp p n i k) as [Hin|Hh]; [by apply Hold; [|intros []]|done|right; by apply Hsw|left; by eapply held_mono].
  - intros d c Hi Hk. destruct (Hf d c) as [Hin|Hh]; [by apply Hold; [|intros []]|done|right; by apply Hsw|left; by eapply held_mono].
  - intros t' ps Hb. eapply grants_released_mono; [exact Hs|]. eapply Hg. by apply Hold; [|intros []].
Qed.

Lemma rolled_back_trace aid cleanup (t : list ev) : rolled_back aid cleanup (reverse t) -> rolled_back aid cleanup t.
Proof.
  intros [Ha Hb Hc Hd]. pose proof (subseteq_reverse t) as Hs. assert (Hr : forall e, e ∈ t -> e ∈ reverse t) by (intros e; by rewrite elem_of_reverse).
  assert (Hsw : forall label d, swept (reverse t) cleanup label d -> swept t cleanup label d).
  { intros label d (ds & r & Hin & Hrest). exists ds, r. split; [by apply Hs|done]. }
  split.
  - intros s Ho. destruct (Ha s) as (r & Hin & Hret); [by apply Hr|]. exists r. split; [by apply Hs|done].
  - intros p n i k Hi Hk. destruct (Hb p n i k (Hr _ Hi) Hk); [left; by eapply held_mono|right; by apply Hsw].
  - intros d c Hi Hk. destruct (Hc d c (Hr _ Hi) Hk); [left; by eapply held_mono|right; by apply Hsw].
  - intros t' ps Hi. eapply grants_released_mono; [exact Hs|]. by eapply Hd, Hr.
Qed.

Lemma complete_trace plan aid a (t : list ev) : complete root tenant_id plan aid a (reverse t) -> complete root tenant_id plan aid a t.
Proof.
  intros [Ha Hb Hc Hd He Hf (prepared & Hp & Hprep & Hpl & Hi)]. pose proof (subseteq_reverse t) as Hs. split; try done.
  - by apply Hs.
  - eapply Forall_impl; [exact Hd|]. intros p. by apply bundled_mono.
  - eapply Forall_impl; [exact He|]. intros ps. by apply Hs.
  - exists prepared. split_and!; [done| | |].
    + eapply Forall_impl; [exact Hprep|]. intros ri. by apply prep_mono.
    + eapply Forall_impl; [exact Hpl|]. intros ri. by apply placed_mono.
    + eapply Forall_impl; [exact Hi|]. intros ri Hin n Hn. destruct (Hin n Hn) as [s Hs']. exists s. by apply Hs.
Qed.

(** ** Properties *)

(** C9. Activation validates everything before anything becomes visible, whatever
    product code, scopes and stores answer: when a scope is opened, a disposer
    registered, grants bound, a policy configured or anything installed or
    published, every product of the trusted plan has been prepared, with the
    planned descriptor and configuration, valid bindings, a private profile
    provider and resolvable bundles; and when a product installs, or the
    activation is published, all bundles of all products are installed. *)
Theorem activation_stages_before_it_installs plan0 activators t o t1 e t2 :
  run_to (activation plan0 activators start) t o -> t = t1 ++ e :: t2 ->
  exists plan, plan_snapshot plan0 = Ok plan /\
    (visible e -> Forall (ready isinstance config_eq profile_contract root_bindings plan t1) (cp_products plan)) /\
    (installs e -> Forall (bundled plan t1) (cp_products plan)).
Proof.
  intros Hrun Ht. destruct (accepted_arguments tenant_id plan0 activators) as [x|[plan indexed]] eqn:Hacc.
  { rewrite (refused_asks_nothing _ _ _ _ _ Hacc Hrun) in Ht. by destruct t1. }
  destruct (accepted_plan _ _ _ _ Hacc) as [Hp _]. exists plan. split; [done|].
  destruct (wp_sound _ _ _ _ _ _ _ (activate_wp _ _ _ _ Hacc) Hrun) as [Hi _]. destruct (Hi t1 e t2 Ht) as [Hv Hb].
  rewrite app_nil_r in Hv, Hb. pose proof (subseteq_reverse t1) as Hs. split; intros Hx.
  - eapply Forall_impl; [by apply Hv|]. intros p. by apply ready_mono.
  - eapply Forall_impl; [by apply Hb|]. intros p. by apply bundled_mono.
Qed.

(** A failed activation is rolled back: if [activate_customer_bundle] raises
    after the tenant's slot was reserved, its last act is to release exactly that
    slot, after the tenant scope, if opened, has been closed; every cleanup that
    product code handed over, and the [close] of the Customer360 provider, is
    owned by the tenant's tree or was run by the rollback itself; bound grants are
    released; and the slot is released without an error only if all of these
    closes came back without one.  The exceptions: the reservation itself failed,
    or the rollback was interrupted in one of its awaits, whose exception is then
    the one that is raised. *)
Theorem failed_activation_is_rolled_back plan0 activators t l x :
  run_to (activation plan0 activators start) t (Done (l, inl x)) ->
  t = [] \/ t = [QReserve tenant_id ~> inl x] \/
  (exists t1 e, t = t1 ++ [e] /\ ((exists s, e = (QClose s ~> Some x)) \/ (exists n ds, e = (QCleanup n ds ~> Some x)) \/
     exists aid c, e = (QFinish tenant_id aid c ~> Some x))) \/
  exists aid cleanup t1, t = t1 ++ [QFinish tenant_id aid cleanup ~> None] /\ (QReserve tenant_id ~> inr aid) ∈ t1 /\ rolled_back aid cleanup t1.
Proof.
  intros Hrun. destruct (accepted_arguments tenant_id plan0 activators) as [x'|[plan indexed]] eqn:Hacc.
  { left. by eapply refused_asks_nothing. }
  destruct (mwp_sound _ _ _ _ _ _ _ _ (activate_wp _ _ _ _ Hacc) Hrun) as [_ Hend]. right.
  assert (Hlast : forall e h, reverse t = e :: h -> t = reverse h ++ [e]) by (intros e h Hr; by rewrite <- (reverse_involutive t), Hr, reverse_cons).
  destruct Hend as [Hr|(aid & x0 & l1 & h1 & Hres & Htr & [Hint|Hrel])].
  - left. by apply Hlast in Hr.
  - right. left. destruct Hint as (h2 & e & Hr & _ & He). exists (reverse h2), e. split; [by apply Hlast|].
    destruct He as [He|[He|[c He]]]; [by left|right; by left|right; right; by exists aid, c].
  - right. right. destruct (released_rolled_back _ _ _ _ _ _ Htr Hrel) as (h2 & cleanup & Hr & Hs & Hrb).
    exists aid, cleanup, (reverse h2). split_and!; [by apply Hlast|rewrite elem_of_reverse; by apply Hs|].
    apply rolled_back_trace. by rewrite reverse_involutive.
Qed.

(** A published activation is complete: if [activate_customer_bundle] returns,
    publishing is its last act, under the slot it reserved, and by then every
    product of the trusted plan has its own scope below the tenant's, holding the
    cleanup it was prepared with and the drain of its runs; all bundles are
    installed and every installer has returned. *)
Theorem published_activation_is_complete plan0 activators t l a :
  run_to (activation plan0 activators start) t (Done (l, inr a)) ->
  exists plan aid t1, plan_snapshot plan0 = Ok plan /\ t = t1 ++ [QPublish tenant_id a ~> None] /\
    (QReserve tenant_id ~> inr aid) ∈ t1 /\ complete root tenant_id plan aid a t1.
Proof.
  intros Hrun. destruct (accepted_arguments tenant_id plan0 activators) as [x'|[plan indexed]] eqn:Hacc.
  { unfold activate_customer_bundle, mbind in Hrun. rewrite Hacc in Hrun. by destruct Hrun as [_ [[=]|[=]]]. }
  destruct (accepted_plan _ _ _ _ Hacc) as [Hp _].
  destruct (mwp_sound _ _ _ _ _ _ _ _ (activate_wp _ _ _ _ Hacc) Hrun) as [_ (aid & h1 & Hr & Hres & Hc)].
  exists plan, aid, (reverse h1). split_and!; [done| |by rewrite elem_of_reverse|].
  - by rewrite <- (reverse_involutive t), Hr, reverse_cons.
  - apply complete_trace. by rewrite reverse_involutive.
Qed.
End Theorems.

(** ** One product, activated and failing to install *)
#[local] Existing Instance plain_packaging.
#[local] Existing Instance plain_configs.

Definition demo_manifest : CustomerBundleManifest := MkCustomerBundleManifest "1" "b" "1" "any" [MkSelection "a" "1" 7%nat] (MkSharing ISOLATED []).
Definition demo_descriptor : ProductDescriptor := MkProductDescriptor "a" "1" "any" [] ∅ (MkConfigModel 0 true true).
Definition demo_plan : CustomerBundlePlan := MkCustomerBundlePlan demo_manifest "2"
  [resolved_customer_product (MkSelection "a" "1" 7%nat) demo_descriptor 7%nat] (MkSharingPlan ISOLATED []) demo_manifest.

Definition demo_item (p : ResolvedCustomerProduct) : PreparedProduct :=
  MkPreparedProduct (rp_descriptor p) (rp_config p) [(PROFILE_PROVIDER true, String.length (rp_product_id p))] (Some 1%nat) (Some 5%nat) [].

(** Everything succeeds, except the installers when [failing] *)
Definition demo_env (failing : bool) (q : question (C := bool) (V := nat)) (n : nat) : ans q * nat :=
  match q return ans q * nat with
  | QReserve _ => (inr 3%nat, n)
  | QPrepare p _ => (inr (Some (demo_item p)), n)
  | QCopyConfig i => (inr (pr_config i), n)
  | QReadConfig p => (rp_config p, n)
  | QFactory _ => (inr (MkProvided360 9%nat true true), n)
  | QChild _ _ => (inr n, S n)
  | QInstall _ _ _ => (if failing then Some (Plain (Exc ValueError)) else None, n)
  | _ => (None, n)
  end.

Abbreviation demo_program := (activate_customer_bundle (fun (_ : nat) (_ : bool) => Ok true) Nat.eqb (fun _ _ => true)
  true false 0 (Layer ROOT ∅ None) "t" demo_plan (inr [Some (MkProductActivator demo_descriptor 1)]) start).

Definition demo_run (failing : bool) := interp (demo_env failing) demo_program 10%nat.
Definition demo_trace (failing : bool) : list (event (ans (C := bool) (V := nat))) := (demo_run failing).1.1.
Definition demo_outcome (failing : bool) := (demo_run failing).1.2.

Definition demo_locals : locals (V := nat) := MkLocals (Some 10%nat) [].
Definition demo_failure : kexc := ActivationError INSTALL_FAILED ["a"] (Some (Plain (Exc ValueError))) None.
Definition demo_activated : Activated := MkActivated demo_plan 10 [("a", 11%nat)] 3.

Lemma demo_runs failing : run_to demo_program (demo_trace failing) (demo_outcome failing).
Proof. apply interp_run_to. Qed.

Lemma demo_fails : demo_outcome true = Done (demo_locals, inl demo_failure).
Proof. vm_cast_no_check (@eq_refl (Prog.outcome (locals (V := nat) * (kexc + Activated))) (Done (demo_locals, inl demo_failure))). Qed.

Lemma demo_succeeds : demo_outcome false = Done (demo_locals, inr demo_activated).
Proof. vm_cast_no_check (@eq_refl (Prog.outcome (locals (V := nat) * (kexc + Activated))) (Done (demo_locals, inr demo_activated))). Qed.

Definition demo_event : event (ans (C := bool) (V := nat)) := QChild 0 "tenant:t" ~> inr 10%nat.

Lemma demo_at : demo_trace false !! 4%nat = Some demo_event.
Proof. vm_cast_no_check (eq_refl (Some demo_event)). Qed.

Lemma activation_stages_before_it_installs_witness :
  exists plan, plan_snapshot demo_plan = Ok plan /\
    Forall (ready (fun (_ : nat) (_ : bool) => Ok true) Nat.eqb true (Layer ROOT ∅ None) plan (take 4 (demo_trace false))) (cp_products plan).
Proof.
  destruct (activation_stages_before_it_installs _ _ _ _ _ _ _ _ _ _ _ _ _ _ _ (demo_runs false)
    (eq_sym (take_drop_middle _ _ _ demo_at))) as (plan & Hp & Hv & _).
  exact (ex_intro _ plan (conj Hp (Hv I))).
Defined.

Definition demo_last : event (ans (C := bool) (V := nat)) := QFinish "t" 3 None ~> None.

Definition releases (e : event (ans (C := bool) (V := nat))) : bool :=
  match projT1 e as q return ans q -> bool with
  | QFinish _ _ _ => fun a => match a with None => true | Some _ => false end
  | _ => fun _ => false
  end (projT2 e).

Lemma demo_released : last (demo_trace true) = Some demo_last.
Proof. vm_cast_no_check (eq_refl (Some demo_last)). Qed.

(** The trace ends by releasing the slot, after everything was undone. *)
Lemma failed_activation_is_rolled_back_witness :
  exists aid cleanup t1, demo_trace true = t1 ++ [QFinish "t" aid cleanup ~> None] /\ rolled_back 0 "t" aid cleanup t1.
Proof.
  pose proof (demo_runs true) as Hr. rewrite demo_fails in Hr. pose proof demo_released as Hl.
  destruct (failed_activation_is_rolled_back _ _ _ _ _ _ _ _ _ _ _ _ _ Hr) as [Ht|[Ht|[(t1 & e & Ht & He)|(aid & c & t1 & Ht & _ & Hb)]]].
  - exfalso. rewrite Ht in Hl. discriminate Hl.
  - exfalso. rewrite Ht in Hl. discriminate Hl.
  - exfalso. rewrite Ht, last_snoc in Hl. apply (f_equal (fmap releases)) in Hl.
    destruct He as [(s & ->)|[(n & ds & ->)|(aid & c & ->)]]; discriminate Hl.
  - exact (ex_intro _ aid (ex_intro _ c (ex_intro _ t1 (conj Ht Hb)))).
Defined.

Lemma published_activation_is_complete_witness :
  exists plan aid t1, plan_snapshot demo_plan = Ok plan /\ demo_trace false = t1 ++ [QPublish "t" demo_activated ~> None] /\
    complete 0 "t" plan aid demo_activated t1.
Proof.
  pose proof (demo_runs false) as Hr. rewrite demo_succeeds in Hr.
  destruct (published_activation_is_complete _ _ _ _ _ _ _ _ _ _ _ _ _ Hr) as (plan & aid & t1 & Hp & Ht & _ & Hc).
  exact (ex_intro _ plan (ex_intro _ aid (ex_intro _ t1 (conj Hp (conj Ht Hc))))).
Defined.
End ActivationProps.
