(* ===== verification/Kernel.v ===== *)
(** * The kernel's activation slots and run leases ([runtime/kernel.py])

    A tenant has at most one customer bundle.  The kernel keeps a slot per tenant
    from the reservation to the release, and a quarantine of tenants whose cleanup
    was incomplete.  Every critical section under [self._lock] is one transition;
    activations, closes of active bundles and closes of the kernel interleave
    freely between them.  Slot objects outlive their place in the table, because
    a closing kernel keeps waiting for those it has seen. *)
From S2P Require Import Prelude PyText Scopes PluginModels Effects Bundle CustomerBundle Activation.
Open Scope string_scope.
Open Scope list_scope.

Module Kernel.
Import Activation.

Section Slots.
Context {A : Type}.

(** [_ActivationSlot] *)
Record Slot : Type := MkSlot {
  sl_activation_id : nat;
  sl_activation : option A;
  sl_ready : bool;
}.

(** [HarnessKernel], its own state: slots by tenant (as indices of slot objects),
    all slot objects made so far, the quarantine, and [_closed] *)
Record HarnessKernel : Type := MkKernel {
  k_slots : dict string nat;
  k_objects : list Slot;
  k_poisoned : dict string exc;
  k_closed : bool;
}.

Definition new_kernel : HarnessKernel := MkKernel [] [] [] false.

(** [_reserve]; [token] is what [secrets.token_hex] returned. *)
Definition reserve (root_closed : bool) (tenant_id : string) (token : nat) (k : HarnessKernel) : kexc + HarnessKernel :=
  if k_closed k || root_closed then inl (ActivationError KERNEL_CLOSED [] None None)
  else match dget tenant_id (k_poisoned k) with
  | Some _ => inl (ActivationError ACTIVATION_CONFLICT [tenant_id; "poisoned"] None None)
  | None =>
      match dget tenant_id (k_slots k) with
      | Some _ => inl (ActivationError ACTIVATION_CONFLICT [tenant_id] None None)
      | None => inr (MkKernel (dset tenant_id (length (k_objects k)) (k_slots k)) (k_objects k ++ [MkSlot token None false])
                       (k_poisoned k) (k_closed k))
      end
  end.

(** The slot object of a tenant, if it belongs to the activation *)
Definition owned_slot (tenant_id : string) (token : nat) (k : HarnessKernel) : option (nat * Slot) :=
  match dget tenant_id (k_slots k) with
  | None => None
  | Some i =>
      match k_objects k !! i with
      | None => None
      | Some s => if decide (sl_activation_id s = token) then Some (i, s) else None
      end
  end.

(** The end of [activate_customer_bundle]: the activation is published. *)
Definition publish (tenant_id : string) (token : nat) (a : A) (k : HarnessKernel) : kexc + HarnessKernel :=
  match owned_slot tenant_id token k with
  | None => inl (Plain (Exc RuntimeError))
  | Some (i, s) => inr (MkKernel (k_slots k) (<[ i := MkSlot (sl_activation_id s) (Some a) true ]> (k_objects k)) (k_poisoned k) (k_closed k))
  end.

(** [_finish_close] *)
Definition finish_close (tenant_id : string) (token : nat) (cleanup : option exc) (k : HarnessKernel) : HarnessKernel :=
  match owned_slot tenant_id token k with
  | None => k
  | Some (i, s) =>
      MkKernel (dpop tenant_id (k_slots k)) (<[ i := MkSlot (sl_activation_id s) (sl_activation s) true ]> (k_objects k))
        (match cleanup with Some c => dset tenant_id c (k_poisoned k) | None => k_poisoned k end) (k_closed k)
  end.

(** [active] *)
Definition active (tenant_id : string) (k : HarnessKernel) : option A :=
  match dget tenant_id (k_slots k) with
  | None => None
  | Some i => match k_objects k !! i with Some s => sl_activation s | None => None end
  end.

(** [close], its critical section *)
Definition close_begin (k : HarnessKernel) : HarnessKernel * dict string nat :=
  (MkKernel (k_slots k) (k_objects k) (k_poisoned k) true, k_slots k).

Definition slot_ready (k : HarnessKernel) (i : nat) : bool :=
  match k_objects k !! i with Some s => sl_ready s | None => true end.

(** ** Interleaved calls *)

(** A call in progress.  [Activating]: [activate_customer_bundle] from the
    reservation to the publication or to the end of its rollback.  [Waiting]:
    [close] of the kernel, gathering the [ready] events of the slots it saw.
    [Releasing]: [close] after the root tree came back with [cleanup], releasing
    the slots one by one. *)
Inductive caller : Type :=
| Activating (tenant_id : string) (token : nat)
| Waiting (slots : dict string nat)
| Releasing (slots : dict string nat) (cleanup : option exc)
| Returned.

(** [pub] lists the published activations: anybody holding one may close it, at any
    time and repeatedly. *)
Record system : Type := MkSystem {
  y_kernel : HarnessKernel;
  y_calls : list caller;
  y_pub : list (string * nat);
}.

Inductive action : Type :=
| DoReserve (root_closed : bool) (tenant_id : string) (token : nat)
| DoPublish (call : nat) (a : A)
| DoRollBack (call : nat) (cleanup : option exc)
| DoClose (tenant_id : string) (token : nat) (cleanup : option exc)
| DoKernelClose
| DoGathered (call : nat) (cleanup : option exc)
| DoRelease (call : nat).

Definition start : system := MkSystem new_kernel [] [].

(** [None]: the action cannot happen.  Tokens do not repeat. *)
Definition act (y : system) (a : action) : option system :=
  let k := y_kernel y in
  match a with
  | DoReserve root_closed tenant_id token =>
      if decide (token ∈ sl_activation_id <$> k_objects k) then None
      else match reserve root_closed tenant_id token k with
           | inl _ => Some y
           | inr k' => Some (MkSystem k' (y_calls y ++ [Activating tenant_id token]) (y_pub y))
           end
  | DoPublish c a =>
      match y_calls y !! c with
      | Some (Activating tenant_id token) =>
          match publish tenant_id token a k with
          | inl _ => Some y
          | inr k' => Some (MkSystem k' (<[ c := Returned ]> (y_calls y)) (y_pub y ++ [(tenant_id, token)]))
          end
      | _ => None
      end
  | DoRollBack c cleanup =>
      match y_calls y !! c with
      | Some (Activating tenant_id token) =>
          Some (MkSystem (finish_close tenant_id token cleanup k) (<[ c := Returned ]> (y_calls y)) (y_pub y))
      | _ => None
      end
  | DoClose tenant_id token cleanup =>
      if decide ((tenant_id, token) ∈ y_pub y) then Some (MkSystem (finish_close tenant_id token cleanup k) (y_calls y) (y_pub y)) else None
  | DoKernelClose => let (k', slots) := close_begin k in Some (MkSystem k' (y_calls y ++ [Waiting slots]) (y_pub y))
  | DoGathered c cleanup =>
      match y_calls y !! c with
      | Some (Waiting slots) =>
          if forallb (fun ti => slot_ready k ti.2) slots then Some (MkSystem k (<[ c := Releasing slots cleanup ]> (y_calls y)) (y_pub y)) else None
      | _ => None
      end
  | DoRelease c =>
      match y_calls y !! c with
      | Some (Releasing [] _) => Some (MkSystem k (<[ c := Returned ]> (y_calls y)) (y_pub y))
      | Some (Releasing ((tenant_id, i) :: slots) cleanup) =>
          match k_objects k !! i with
          | Some s => Some (MkSystem (finish_close tenant_id (sl_activation_id s) cleanup k) (<[ c := Releasing slots cleanup ]> (y_calls y)) (y_pub y))
          | None => None
          end
      | _ => None
      end
  end.

Inductive reachable : system -> Prop :=
| reachable_start : reachable start
| reachable_act y a y' : reachable y -> act y a = Some y' -> reachable y'.

(** ** The invariant *)
Definition token_at (k : HarnessKernel) (i a : nat) (r : bool) : Prop :=
  exists s, k_objects k !! i = Some s /\ sl_activation_id s = a /\ sl_ready s = r.

Record inv (k : HarnessKernel) (calls : list caller) (pub : list (string * nat)) : Prop := MkInv {
  iv_tokens : NoDup (sl_activation_id <$> k_objects k);
  iv_keys : NoDup (k_slots k).*1;
  iv_slots : forall t i, dget t (k_slots k) = Some i -> exists a r, token_at k i a r;
  iv_distinct : forall t t' i, dget t (k_slots k) = Some i -> dget t' (k_slots k) = Some i -> t = t';
  iv_unready : forall i a, token_at k i a false -> exists t c, dget t (k_slots k) = Some i /\ calls !! c = Some (Activating t a);
  iv_activating : forall c t a, calls !! c = Some (Activating t a) -> exists i, dget t (k_slots k) = Some i /\ token_at k i a false;
  iv_calls : forall c c' t t' a, calls !! c = Some (Activating t a) -> calls !! c' = Some (Activating t' a) -> c = c';
  iv_pub : forall t a, (t, a) ∈ pub -> exists i, token_at k i a true;
  iv_waiting : forall c slots ti, calls !! c = Some (Waiting slots) -> ti ∈ slots -> (ti.2 < length (k_objects k))%nat;
  iv_releasing : forall c slots cleanup ti, calls !! c = Some (Releasing slots cleanup) -> ti ∈ slots -> exists a, token_at k ti.2 a true;
  iv_poison : forall t e, dget t (k_poisoned k) = Some e -> dget t (k_slots k) = None;
  iv_inactive : forall i s, k_objects k !! i = Some s -> sl_ready s = false -> sl_activation s = None;
}.

Lemma token_unique k i j a r r' : NoDup (sl_activation_id <$> k_objects k) -> token_at k i a r -> token_at k j a r' -> i = j /\ r = r'.
Proof.
  intros Hnd (s & Hi & Ha & Hr) (s' & Hj & Ha' & Hr'). assert (i = j) as ->; [|naive_solver].
  eapply NoDup_lookup; [exact Hnd| |]; rewrite list_lookup_fmap; [by rewrite Hi|rewrite Hj; simpl; congruence].
Qed.

(** Marking a slot object ready *)
Definition marked (k k' : HarnessKernel) (i : nat) : Prop :=
  length (k_objects k') = length (k_objects k) /\
  (forall j a r, j <> i -> token_at k' j a r <-> token_at k j a r) /\
  (forall a, (exists r, token_at k i a r) <-> token_at k' i a true) /\ (forall a, ~ token_at k' i a false).

Lemma insert_marked k k' i s s' : k_objects k !! i = Some s -> k_objects k' = <[ i := s' ]> (k_objects k) ->
  sl_activation_id s' = sl_activation_id s -> sl_ready s' = true -> marked k k' i.
Proof.
  intros Hi Hk Ha Hr. pose proof (lookup_lt_Some _ _ _ Hi) as Hlt. unfold marked, token_at. rewrite Hk. split_and!.
  - by rewrite length_insert.
  - intros j a r Hj. by rewrite list_lookup_insert_ne.
  - intros a. rewrite list_lookup_insert_eq by done. split; [intros (r & s0 & Hs0 & <- & _); exists s'; by simplify_eq|].
    intros (s0 & [= <-] & <- & _). exists (sl_ready s), s. by rewrite Ha.
  - intros a (s0 & Hs0 & _ & Hr0). rewrite list_lookup_insert_eq in Hs0 by done. congruence.
Qed.

Lemma insert_tokens k i s s' : k_objects k !! i = Some s -> sl_activation_id s' = sl_activation_id s ->
  sl_activation_id <$> <[ i := s' ]> (k_objects k) = sl_activation_id <$> k_objects k.
Proof. intros Hi Ha. rewrite list_fmap_insert, Ha. apply list_insert_id. by rewrite list_lookup_fmap, Hi. Qed.

(** How calls may change when the activation [a] ends *)
Record ends (a : nat) (calls calls' : list caller) : Prop := MkEnds {
  en_old : forall c t a', calls' !! c = Some (Activating t a') -> calls !! c = Some (Activating t a') /\ a' <> a;
  en_keep : forall c t a', calls !! c = Some (Activating t a') -> a' <> a -> calls' !! c = Some (Activating t a');
  en_waiting : forall c slots, calls' !! c = Some (Waiting slots) -> calls !! c = Some (Waiting slots);
  en_releasing : forall c slots cleanup, calls' !! c = Some (Releasing slots cleanup) ->
    exists slots', calls !! c = Some (Releasing slots' cleanup) /\ slots ⊆ slots';
}.

(** The step all releases and the publication share: the object of [a] becomes
    ready, its slot stays or goes. *)
Lemma inv_mark k k' calls calls' pub pub' i a t :
  inv k calls pub -> dget t (k_slots k) = Some i -> (exists r, token_at k i a r) -> marked k k' i -> ends a calls calls' ->
  sl_activation_id <$> k_objects k' = sl_activation_id <$> k_objects k ->
  (k_slots k' = k_slots k \/ k_slots k' = dpop t (k_slots k)) ->
  (forall t' a', (t', a') ∈ pub' -> (t', a') ∈ pub \/ a' = a) ->
  (forall t' e, dget t' (k_poisoned k') = Some e -> dget t' (k_poisoned k) = Some e \/ (t' = t /\ k_slots k' = dpop t (k_slots k))) ->
  (forall j s, j <> i -> k_objects k' !! j = Some s -> k_objects k !! j = Some s) ->
  inv k' calls' pub'.
Proof.
  intros Hinv Ht [r0 Ha] (Hlen & Hj & Hi & Hni) [Ho Hk Hw Hr] Htok Hsl Hpub Hpo Hobj. pose proof (iv_tokens _ _ _ Hinv) as Hnd.
  assert (Hup : forall j b r, token_at k j b r -> token_at k' j b r \/ (j = i /\ token_at k' j b true)).
  { intros j b r Hb. destruct (decide (j = i)) as [->|Hne]; [right; split; [done|]; apply Hi; by exists r|left; by apply Hj]. }
  assert (Hready : forall j b, token_at k j b true -> token_at k' j b true) by (intros j b Hb; destruct (Hup j b true Hb) as [?|[_ ?]]; done).
  assert (Hget : forall t' j, dget t' (k_slots k') = Some j -> dget t' (k_slots k) = Some j).
  { intros t' j. destruct Hsl as [->| ->]; [done|]. rewrite dget_dpop by exact (iv_keys _ _ _ Hinv). by case_decide. }
  assert (Hother : forall t' j, dget t' (k_slots k) = Some j -> j <> i -> dget t' (k_slots k') = Some j).
  { intros t' j Hd Hne. destruct Hsl as [->| ->]; [done|]. rewrite dget_dpop by exact (iv_keys _ _ _ Hinv). case_decide; [congruence|done]. }
  split.
  - by rewrite Htok.
  - destruct Hsl as [->| ->]; [exact (iv_keys _ _ _ Hinv)|apply dpop_NoDup, (iv_keys _ _ _ Hinv)].
  - intros t' j Hd%Hget. destruct (iv_slots _ _ _ Hinv t' j Hd) as (b & r & Hb). destruct (Hup j b r Hb) as [?|[_ ?]]; eauto.
  - intros t1 t2 j H1%Hget H2%Hget. by eapply (iv_distinct _ _ _ Hinv).
  - intros j b Hb. destruct (decide (j = i)) as [->|Hne]; [by destruct (Hni b)|]. apply Hj in Hb as Hb'; [|done].
    destruct (iv_unready _ _ _ Hinv j b Hb') as (t' & c & Hd & Hc). exists t', c. split; [by apply Hother|]. apply Hk; [done|].
    intros ->. destruct (token_unique k j i a false r0 Hnd Hb' Ha). done.
  - intros c t' b Hc. destruct (Ho c t' b Hc) as [Hc' Hba]. destruct (iv_activating _ _ _ Hinv c t' b Hc') as (j & Hd & Hb).
    assert (Hne : j <> i). { intros ->. destruct Hb as (s & Hs & Hsa & _), Ha as (s0 & Hs0 & Hsa0 & _). simplify_eq. }
    exists j. split; [by apply Hother|by apply Hj].
  - intros c c' t1 t2 b [H1 _]%Ho [H2 _]%Ho. by eapply (iv_calls _ _ _ Hinv).
  - intros t' b [Hin| ->]%Hpub; [|exists i; apply Hi; by exists r0]. destruct (iv_pub _ _ _ Hinv t' b Hin) as [j Hb]. exists j. by apply Hready.
  - intros c slots ti Hc%Hw Hin. rewrite Hlen. by eapply (iv_waiting _ _ _ Hinv).
  - intros c slots cl ti (slots' & Hc & Hs)%Hr Hin. destruct (iv_releasing _ _ _ Hinv c slots' cl ti Hc) as [b Hb]; [by apply Hs|].
    exists b. by apply Hready.
  - intros t' e [He|[-> Hpop]]%Hpo.
    + destruct (dget t' (k_slots k')) as [j|] eqn:Hd; [|done]. apply Hget in Hd. by rewrite (iv_poison _ _ _ Hinv t' e He) in Hd.
    + rewrite Hpop, dget_dpop by exact (iv_keys _ _ _ Hinv). by rewrite decide_True.
  - intros j s Hs Hrs. destruct (decide (j = i)) as [->|Hne]; [exfalso; apply (Hni (sl_activation_id s)); by exists s|].
    by eapply (iv_inactive _ _ _ Hinv), Hrs; apply Hobj.
Qed.

Lemma owned_slot_Some t a k i s : owned_slot t a k = Some (i, s) ->
  dget t (k_slots k) = Some i /\ k_objects k !! i = Some s /\ sl_activation_id s = a.
Proof.
  unfold owned_slot. destruct (dget t (k_slots k)) as [j|] eqn:Hd; [|done]. destruct (k_objects k !! j) as [s'|] eqn:Hs; [|done].
  case_decide; [|done]. intros [= <- <-]. done.
Qed.

Lemma activating_owned k calls pub c t a : inv k calls pub -> calls !! c = Some (Activating t a) ->
  exists i s, owned_slot t a k = Some (i, s) /\ sl_ready s = false.
Proof.
  intros Hinv Hc. destruct (iv_activating _ _ _ Hinv c t a Hc) as (i & Hd & s & Hs & Ha & Hr). exists i, s.
  unfold owned_slot. rewrite Hd, Hs, decide_True by done. done.
Qed.

Lemma inv_calls k calls calls' pub a : inv k calls pub -> ends a calls calls' -> (forall c t, calls !! c <> Some (Activating t a)) ->
  inv k calls' pub.
Proof.
  intros Hinv [Ho Hk Hw Hr] Hn. split; try apply Hinv.
  - intros i b Hb. destruct (iv_unready _ _ _ Hinv i b Hb) as (t & c & Hd & Hc). exists t, c. split; [done|]. apply Hk; [done|].
    intros ->. by eapply Hn.
  - intros c t b [Hc _]%Ho. by eapply (iv_activating _ _ _ Hinv).
  - intros c c' t t' b [H1 _]%Ho [H2 _]%Ho. by eapply (iv_calls _ _ _ Hinv).
  - intros c slots ti Hc%Hw. by eapply (iv_waiting _ _ _ Hinv).
  - intros c slots cl ti (slots' & Hc & Hs)%Hr Hin. eapply (iv_releasing _ _ _ Hinv); [exact Hc|by apply Hs].
Qed.

Lemma inv_finish k calls calls' pub t a cleanup : inv k calls pub -> ends a calls calls' ->
  (owned_slot t a k = None -> forall c t', calls !! c <> Some (Activating t' a)) -> inv (finish_close t a cleanup k) calls' pub.
Proof.
  intros Hinv He Hn. unfold finish_close. destruct (owned_slot t a k) as [[i s]|] eqn:Hos; [|by eapply inv_calls; auto].
  apply owned_slot_Some in Hos as (Hd & Hs & Ha). eapply (inv_mark k _ calls calls' pub pub i a t); try done.
  - exists (sl_ready s), s. done.
  - by eapply insert_marked.
  - by eapply insert_tokens.
  - by right.
  - auto.
  - simpl. intros t' e. destruct cleanup as [c|]; [|by left]. rewrite dget_dset. case_decide as Ht; [by right|by left].
  - simpl. intros j s' Hj. by rewrite list_lookup_insert_ne.
Qed.

(** An activation that is published or gone is not in progress any more. *)
Lemma ready_not_activating k calls pub i a c t : inv k calls pub -> token_at k i a true -> calls !! c <> Some (Activating t a).
Proof.
  intros Hinv Ht Hc. destruct (iv_activating _ _ _ Hinv c t a Hc) as (j & _ & Hj).
  by destruct (token_unique k j i a false true (iv_tokens _ _ _ Hinv) Hj Ht).
Qed.

Lemma ends_refl k calls pub i a : inv k calls pub -> token_at k i a true -> ends a calls calls.
Proof.
  intros Hinv Ht. split; [|done..|eauto]. intros c t a' Hc. split; [done|]. intros ->. by eapply ready_not_activating.
Qed.

Lemma ends_insert a calls c x : ends a calls calls -> (forall t b, x <> Activating t b) ->
  (forall slots, x = Waiting slots -> calls !! c = Some x) ->
  (forall slots cleanup, x = Releasing slots cleanup -> exists slots', calls !! c = Some (Releasing slots' cleanup) /\ slots ⊆ slots') ->
  (forall t b, calls !! c <> Some (Activating t b)) -> ends a calls (<[ c := x ]> calls).
Proof.
  intros [Ho Hk Hw Hr] Hx Hxw Hxr Hc. assert (Hin : forall c' y, <[ c := x ]> calls !! c' = Some y -> (c' = c /\ y = x) \/ (c' <> c /\ calls !! c' = Some y)).
  { intros c' y Hy. destruct (decide (c' = c)) as [->|Hne]; [left|right; by rewrite list_lookup_insert_ne in Hy].
    apply list_lookup_insert_Some in Hy as [(_ & <- & _)|[? _]]; done. }
  split.
  - intros c' t b [[-> Hy]|[Hne Hy]]%Hin; [by destruct (Hx t b)|by apply Ho].
  - intros c' t b Hy Hb. rewrite list_lookup_insert_ne; [done|]. intros ->. by eapply Hc.
  - intros c' slots [[-> Hy]|[_ Hy]]%Hin; [rewrite Hy; by eapply Hxw|done].
  - intros c' slots cl [[-> Hy]|[_ Hy]]%Hin; [by eapply Hxr|eauto].
Qed.

(** The call [c] of the activation [a] itself comes to its end. *)
Lemma ends_own k calls pub c t a : inv k calls pub -> calls !! c = Some (Activating t a) -> ends a calls (<[ c := Returned ]> calls).
Proof.
  intros Hinv Hc. assert (Hin : forall c' y, <[ c := Returned ]> calls !! c' = Some y -> y = Returned \/ (c' <> c /\ calls !! c' = Some y)).
  { intros c' y Hy. destruct (decide (c' = c)) as [->|Hne]; [left|right; by rewrite list_lookup_insert_ne in Hy].
    apply list_lookup_insert_Some in Hy as [(_ & <- & _)|[? _]]; done. }
  split.
  - intros c' t' b [[=]|[Hne Hy]]%Hin. split; [done|]. intros ->. apply Hne. by eapply (iv_calls _ _ _ Hinv).
  - intros c' t' b Hy Hb. rewrite list_lookup_insert_ne; [done|]. intros ->. congruence.
  - by intros c' slots [[=]|[_ Hy]]%Hin.
  - intros c' slots cl [[=]|[_ Hy]]%Hin. eauto.
Qed.

Lemma snoc_lookup {B : Type} (l : list B) x c y : (l ++ [x]) !! c = Some y -> l !! c = Some y \/ (c = length l /\ y = x).
Proof. intros [?|[-> [= ->]]]%lookup_snoc_Some; [left; naive_solver|by right]. Qed.

Lemma inv_reserve k calls pub rc t token k' : inv k calls pub -> token ∉ sl_activation_id <$> k_objects k ->
  reserve rc t token k = inr k' -> inv k' (calls ++ [Activating t token]) pub.
Proof.
  intros Hinv Hfresh. unfold reserve. destruct (k_closed k || rc); [done|]. destruct (dget t (k_poisoned k)) eqn:Hp; [done|].
  destruct (dget t (k_slots k)) eqn:Hd; [done|]. intros [= <-]. set (n := length (k_objects k)).
  assert (Hlen : (length (k_objects k ++ [MkSlot token None false]) = S n)%nat) by (rewrite length_app; simpl; unfold n; lia).
  assert (Hin : forall j s, (k_objects k ++ [MkSlot token None false]) !! j = Some s -> k_objects k !! j = Some s \/ (j = n /\ s = MkSlot token None false)).
  { intros j s. apply snoc_lookup. }
  assert (Hup : forall j b r, token_at k j b r -> token_at (MkKernel (dset t n (k_slots k)) (k_objects k ++ [MkSlot token None false]) (k_poisoned k) (k_closed k)) j b r).
  { intros j b r (s & Hs & Hrest). exists s. split; [by apply lookup_app_l_Some|done]. }
  assert (Hnew : token_at (MkKernel (dset t n (k_slots k)) (k_objects k ++ [MkSlot token None false]) (k_poisoned k) (k_closed k)) n token false).
  { eexists. split; [by apply list_lookup_middle|done]. }
  assert (Hslots : forall t' j, dget t' (k_slots k) = Some j -> (j < n)%nat).
  { intros t' j Hj. destruct (iv_slots _ _ _ Hinv t' j Hj) as (b & r & s & Hs & _). by apply lookup_lt_Some in Hs. }
  assert (Hcall : forall c x, (calls ++ [Activating t token]) !! c = Some x -> calls !! c = Some x \/ (c = length calls /\ x = Activating t token)) by (intros c x; apply snoc_lookup).
  split; simpl.
  - rewrite fmap_app. apply NoDup_app. split_and!; [exact (iv_tokens _ _ _ Hinv)| |apply NoDup_singleton]. intros x Hx ->%list_elem_of_singleton. done.
  - apply dset_NoDup, (iv_keys _ _ _ Hinv).
  - intros t' j. rewrite dget_dset. case_decide as Ht; [intros [= <-]; eauto|]. intros Hj. destruct (iv_slots _ _ _ Hinv t' j Hj) as (b & r & Hb). eauto.
  - intros t1 t2 j. rewrite !dget_dset. do 2 case_decide; subst; try done; intros H1 H2; simplify_eq.
    + apply Hslots in H2. lia.
    + apply Hslots in H1. lia.
    + by eapply (iv_distinct _ _ _ Hinv).
  - intros j b (s & [Hs|[-> ->]]%Hin & Hb & Hr); simpl in *.
    + destruct (iv_unready _ _ _ Hinv j b) as (t' & c & Hd' & Hc); [by exists s|]. exists t', c. split; [|by apply lookup_app_l_Some].
      rewrite dget_dset, decide_False; [done|congruence].
    + exists t, (length calls). rewrite dget_dset, decide_True by done. subst b. split; [done|by apply list_lookup_middle].
  - intros c t' b [Hc|[-> [= -> ->]]]%Hcall.
    + destruct (iv_activating _ _ _ Hinv c t' b Hc) as (j & Hj & Hb). exists j. split; [|by apply Hup]. rewrite dget_dset, decide_False; [done|congruence].
    + exists n. by rewrite dget_dset, decide_True.
  - assert (Hno : forall c t', calls !! c <> Some (Activating t' token)).
    { intros c t' Hc. destruct (iv_activating _ _ _ Hinv c t' token Hc) as (j & _ & s & Hs & Ha & _). apply Hfresh. rewrite <- Ha.
      apply list_elem_of_fmap_2. by eapply list_elem_of_lookup_2. }
    intros c c' t1 t2 b [H1|[-> [= -> ->]]]%Hcall [H2|[-> E2]]%Hcall; simplify_eq; [by eapply (iv_calls _ _ _ Hinv)|by destruct (Hno c t1)|by destruct (Hno c' t2)|done].
  - intros t' b Hb. destruct (iv_pub _ _ _ Hinv t' b Hb) as [j Hj]. exists j. by apply Hup.
  - intros c slots ti [Hc|[_ [=]]]%Hcall Hti. rewrite Hlen. specialize (iv_waiting _ _ _ Hinv c slots ti Hc Hti). unfold n. lia.
  - intros c slots cl ti [Hc|[_ [=]]]%Hcall Hti. destruct (iv_releasing _ _ _ Hinv c slots cl ti Hc Hti) as [b Hb]. exists b. by apply Hup.
  - intros t' e He. rewrite dget_dset, decide_False; [by eapply (iv_poison _ _ _ Hinv)|]. intros ->. congruence.
  - intros j s [Hs|[-> ->]]%Hin Hr; [by eapply (iv_inactive _ _ _ Hinv)|done].
Qed.

Lemma inv_publish k calls pub c t a v k' : inv k calls pub -> calls !! c = Some (Activating t a) -> publish t a v k = inr k' ->
  inv k' (<[ c := Returned ]> calls) (pub ++ [(t, a)]).
Proof.
  intros Hinv Hc. unfold publish. destruct (owned_slot t a k) as [[i s]|] eqn:Hos; [|done]. intros [= <-].
  apply owned_slot_Some in Hos as (Hd & Hs & Ha). eapply (inv_mark k _ calls _ pub _ i a t); try done.
  - exists (sl_ready s), s. done.
  - by eapply insert_marked.
  - by eapply ends_own.
  - by eapply insert_tokens.
  - by left.
  - intros t' b [?|Hx]%elem_of_app; [by left|]. apply list_elem_of_singleton in Hx. right. congruence.
  - simpl. by left.
  - simpl. intros j s' Hj. by rewrite list_lookup_insert_ne.
Qed.

(** A call that is no activation moves on. *)
Lemma kernel_inv_insert k calls pub c x : inv k calls pub -> (forall t b, calls !! c <> Some (Activating t b)) -> (forall t b, x <> Activating t b) ->
  (forall slots, x <> Waiting slots) -> (forall slots cleanup ti, x = Releasing slots cleanup -> ti ∈ slots -> exists a, token_at k ti.2 a true) ->
  inv k (<[ c := x ]> calls) pub.
Proof.
  intros Hinv Hc Hxa Hxw Hxr.
  assert (Hcall : forall c' y, <[ c := x ]> calls !! c' = Some y -> y = x \/ calls !! c' = Some y).
  { intros c' y Hy. destruct (decide (c' = c)) as [->|Hne]; [left|right; by rewrite list_lookup_insert_ne in Hy].
    apply list_lookup_insert_Some in Hy as [(_ & <- & _)|[? _]]; done. }
  split; try apply Hinv.
  - intros i b Hb. destruct (iv_unready _ _ _ Hinv i b Hb) as (t & c' & Hd & Hc'). exists t, c'. split; [done|].
    rewrite list_lookup_insert_ne; [done|]. intros ->. by eapply Hc.
  - intros c' t b [Hy|Hc']%Hcall; [by destruct (Hxa t b)|]. by eapply (iv_activating _ _ _ Hinv).
  - intros c1 c2 t t' b [Hy|H1]%Hcall [Hy'|H2]%Hcall; try (by destruct (Hxa t b)) || (by destruct (Hxa t' b)). by eapply (iv_calls _ _ _ Hinv).
  - intros c' slots ti [Hy|Hc']%Hcall; [by destruct (Hxw slots)|]. by eapply (iv_waiting _ _ _ Hinv).
  - intros c' slots cl ti [Hy|Hc']%Hcall; [by eapply Hxr|]. by eapply (iv_releasing _ _ _ Hinv).
Qed.

Lemma inv_act y a y' : inv (y_kernel y) (y_calls y) (y_pub y) -> act y a = Some y' -> inv (y_kernel y') (y_calls y') (y_pub y').
Proof.
  intros Hinv. destruct y as [k calls pub]. simpl in *. destruct a as [rc t token|c v|c cl|t token cl| |c cl|c]; simpl.
  - case_decide as Hf; [done|]. destruct (reserve rc t token k) as [e|k'] eqn:Hr; intros [= <-]; [done|]. by eapply inv_reserve.
  - destruct (calls !! c) as [[t a| | |]|] eqn:Hc; try done. destruct (publish t a v k) as [e|k'] eqn:Hp; intros [= <-]; [done|]. by eapply inv_publish.
  - destruct (calls !! c) as [[t a| | |]|] eqn:Hc; try done. intros [= <-]. simpl. eapply inv_finish; [done|by eapply ends_own|].
    destruct (activating_owned _ _ _ _ _ _ Hinv Hc) as (i & s & Hos & _). congruence.
  - case_decide as Hp; [|done]. intros [= <-]. simpl. destruct (iv_pub _ _ _ Hinv t token Hp) as [i Hi].
    eapply inv_finish; [done|by eapply ends_refl|]. intros _ c t'. by eapply ready_not_activating.
  - intros [= <-]. simpl. assert (Hcall : forall c x, (calls ++ [Waiting (k_slots k)]) !! c = Some x -> calls !! c = Some x \/ x = Waiting (k_slots k)).
    { intros c x [?|[_ ?]]%snoc_lookup; auto. }
    assert (Hk : forall i b r, token_at (MkKernel (k_slots k) (k_objects k) (k_poisoned k) true) i b r <-> token_at k i b r) by done.
    split; simpl; try apply Hinv.
    + intros i b Hb%Hk. destruct (iv_unready _ _ _ Hinv i b Hb) as (t & c & Hd & Hc). exists t, c. split; [done|by apply lookup_app_l_Some].
    + intros c t b [Hc|[=]]%Hcall. by eapply (iv_activating _ _ _ Hinv).
    + intros c c' t t' b [H1|[=]]%Hcall [H2|[=]]%Hcall. by eapply (iv_calls _ _ _ Hinv).
    + intros c slots ti [Hc|[= ->]]%Hcall Hti; [by eapply (iv_waiting _ _ _ Hinv)|]. destruct ti as [t i]. simpl.
      apply (dget_Some _ _ _ (iv_keys _ _ _ Hinv)) in Hti. destruct (iv_slots _ _ _ Hinv t i Hti) as (b & r & s & Hs & _). by apply lookup_lt_Some in Hs.
    + intros c slots cl ti [Hc|[=]]%Hcall. by eapply (iv_releasing _ _ _ Hinv).
  - destruct (calls !! c) as [[|slots| |]|] eqn:Hc; try done. destruct (forallb _ slots) eqn:Hall; [|done]. intros [= <-]. simpl.
    apply kernel_inv_insert; [done|congruence|done..|]. intros slots' cl' ti [= <- <-] Hti.
    rewrite forallb_forall in Hall. specialize (Hall ti (proj1 (list_elem_of_In _ _) Hti)). unfold slot_ready in Hall.
    destruct (lookup_lt_is_Some_2 (k_objects k) ti.2) as [s Hs]; [by eapply (iv_waiting _ _ _ Hinv)|]. rewrite Hs in Hall.
    exists (sl_activation_id s), s. done.
  - destruct (calls !! c) as [[| |[|[t i] slots] cl|]|] eqn:Hc; try done.
    + intros [= <-]. by apply kernel_inv_insert; [|congruence|..].
    + destruct (k_objects k !! i) as [s|] eqn:Hs; [|done]. intros [= <-]. simpl.
      destruct (iv_releasing _ _ _ Hinv c ((t, i) :: slots) cl (t, i) Hc) as [b Hb]; [by left|]. simpl in Hb.
      assert (Hbs : b = sl_activation_id s) by (destruct Hb as (s' & Hs' & Ha' & _); congruence). subst b.
      eapply inv_finish; [done| |intros _ c' t'; by eapply ready_not_activating].
      apply ends_insert; [by eapply ends_refl|done..| |congruence]. intros slots' cl' [= <- <-]. exists ((t, i) :: slots). split; [done|set_solver].
Qed.

Lemma kernel_reachable_inv y : reachable y -> inv (y_kernel y) (y_calls y) (y_pub y).
Proof.
  induction 1 as [|y a y' _ IH Ha]; [|by eapply inv_act].
  split; simpl; try done; try constructor.
  - intros i a (s & Hs & _). simpl in Hs. by rewrite lookup_nil in Hs.
  - by intros t a ?%not_elem_of_nil.
Qed.

Definition step (y y' : system) : Prop := exists a, act y a = Some y'.

(** ** What never goes back *)
Lemma finish_close_mono t a cl (k : HarnessKernel) :
  k_closed (finish_close t a cl k) = k_closed k /\ forall t' e, dget t' (k_poisoned k) = Some e -> is_Some (dget t' (k_poisoned (finish_close t a cl k))).
Proof.
  unfold finish_close. destruct (owned_slot t a k) as [[i s]|]; simpl; [|eauto]. split; [done|]. intros t' e He.
  destruct cl as [c|]; [|eauto]. rewrite dget_dset. case_decide; eauto.
Qed.

Lemma act_mono y a y' : act y a = Some y' ->
  (k_closed (y_kernel y) = true -> k_closed (y_kernel y') = true /\
     forall c t b, y_calls y' !! c = Some (Activating t b) -> y_calls y !! c = Some (Activating t b)) /\
  (forall t e, dget t (k_poisoned (y_kernel y)) = Some e -> is_Some (dget t (k_poisoned (y_kernel y')))).
Proof.
  destruct y as [k calls pub]. simpl. assert (Hset : forall c x c' t b, (forall t b, x <> Activating t b) ->
      <[ c := x ]> calls !! c' = Some (Activating t b) -> calls !! c' = Some (Activating t b)).
  { intros c x c' t b Hx Hy. apply list_lookup_insert_Some in Hy as [(_ & Hy & _)|[_ Hy]]; [by destruct (Hx t b)|done]. }
  assert (Hsnoc : forall x c' t b, (forall t b, x <> Activating t b) -> (calls ++ [x]) !! c' = Some (Activating t b) -> calls !! c' = Some (Activating t b)).
  { intros x c' t b Hx [Hy|[_ Hy]]%snoc_lookup; [done|by destruct (Hx t b)]. }
  destruct a as [rc t token|c v|c cl|t token cl| |c cl|c]; simpl.
  - case_decide; [done|]. destruct (reserve rc t token k) as [e|k'] eqn:Hr; intros [= <-]; simpl; [eauto|].
    unfold reserve in Hr. destruct (k_closed k) eqn:Hcl; [done|]. split; [done|]. repeat case_match; simplify_eq; simpl; eauto.
  - destruct (calls !! c) as [[t a| | |]|] eqn:Hc; try done. unfold publish. destruct (owned_slot t a k) as [[i s]|]; intros [= <-]; simpl; [|eauto].
    split; [|eauto]. intros Hcl. split; [done|]. intros c' t' b. by apply Hset.
  - destruct (calls !! c) as [[t a| | |]|] eqn:Hc; try done. intros [= <-]. simpl. destruct (finish_close_mono t a cl k) as [-> Hp].
    split; [|done]. intros Hcl. split; [done|]. intros c' t' b. by apply Hset.
  - case_decide; [|done]. intros [= <-]. simpl. destruct (finish_close_mono t token cl k) as [-> Hp]. done.
  - intros [= <-]. simpl. split; [|eauto]. intros _. split; [done|]. intros c t b. by apply Hsnoc.
  - destruct (calls !! c) as [[|slots| |]|]; try done. case_match; [|done]. intros [= <-]. simpl. split; [|eauto]. intros Hcl. split; [done|].
    intros c' t b. by apply Hset.
  - destruct (calls !! c) as [[| |[|[t i] slots] cl|]|]; try done.
    + intros [= <-]. simpl. split; [|eauto]. intros Hcl. split; [done|]. intros c' t b. by apply Hset.
    + destruct (k_objects k !! i) as [s|]; [|done]. intros [= <-]. simpl. destruct (finish_close_mono t (sl_activation_id s) cl k) as [-> Hp].
      split; [|done]. intros Hcl. split; [done|]. intros c' t' b. by apply Hset.
Qed.

Lemma steps_mono y y' : rtc step y y' ->
  (k_closed (y_kernel y) = true -> k_closed (y_kernel y') = true /\
     forall c t b, y_calls y' !! c = Some (Activating t b) -> y_calls y !! c = Some (Activating t b)) /\
  (forall t, is_Some (dget t (k_poisoned (y_kernel y))) -> is_Some (dget t (k_poisoned (y_kernel y')))).
Proof.
  induction 1 as [y|y y1 y2 [a Ha] _ [IH1 IH2]]; [eauto|]. destruct (act_mono _ _ _ Ha) as [H1 H2]. split.
  - intros Hcl. destruct (H1 Hcl) as [Hcl1 Hc1]. destruct (IH1 Hcl1) as [Hcl2 Hc2]. eauto.
  - intros t [e He]. eauto.
Qed.

Lemma reachable_steps y y' : reachable y -> rtc step y y' -> reachable y'.
Proof. intros Hr. induction 1 as [|y y1 y2 [a Ha] _ IH]; [done|]. apply IH. by econstructor. Qed.

(** A closing kernel is closed to new activations. *)
Lemma waiting_closed y c slots : reachable y -> y_calls y !! c = Some (Waiting slots) -> k_closed (y_kernel y) = true.
Proof.
  intros Hr. revert c slots. induction Hr as [|y a y' Hr IH Ha]; [done|]. intros c slots Hc.
  destruct (k_closed (y_kernel y)) eqn:Hcl; [by apply (act_mono _ _ _ Ha)|].
  assert (Hno : forall c, y_calls y !! c <> Some (Waiting slots)) by (by intros c' Hc'%IH).
  assert (Hset : forall c0 x, (forall sl, x <> Waiting sl) -> <[ c0 := x ]> (y_calls y) !! c <> Some (Waiting slots)).
  { intros c0 x Hx Hy. apply list_lookup_insert_Some in Hy as [(_ & Hy & _)|[_ Hy]]; [by destruct (Hx slots)|by eapply Hno]. }
  destruct y as [k calls pub]. simpl in *. destruct a as [rc t token|c0 v|c0 cl|t token cl| |c0 cl|c0]; simpl in Ha.
  - case_decide; [done|]. destruct (reserve rc t token k) as [e|k']; simplify_eq; simpl in *; [by destruct (Hno c)|].
    apply snoc_lookup in Hc as [Hc|[_ [=]]]. by destruct (Hno c).
  - destruct (calls !! c0) as [[t a| | |]|]; try done. destruct (publish t a v k); simplify_eq; simpl in *; [by destruct (Hno c)|by destruct (Hset c0 Returned)].
  - destruct (calls !! c0) as [[t a| | |]|]; try done. simplify_eq. simpl in *. by destruct (Hset c0 Returned).
  - case_decide; [|done]. simplify_eq. simpl in *. by destruct (Hno c).
  - by simplify_eq.
  - destruct (calls !! c0) as [[|sl| |]|]; try done. case_match; simplify_eq. simpl in *. by destruct (Hset c0 (Releasing sl cl)).
  - destruct (calls !! c0) as [[| |[|[t i] sl] cl|]|]; try done.
    + simplify_eq. simpl in *. by destruct (Hset c0 Returned).
    + destruct (k_objects k !! i); simplify_eq. simpl in *. by destruct (Hset c0 (Releasing sl cl)).
Qed.

(** ** Properties *)

(** A tenant has one activation at a time, however calls interleave: while an
    activation is in progress its slot belongs to it and is not published, no other
    activation of the tenant is in progress, a new reservation is refused, and its
    publication succeeds, so the reservation never disappears under it. *)
Theorem tenants_have_one_activation (y : system) c t a : reachable y -> y_calls y !! c = Some (Activating t a) ->
  (forall c' a', y_calls y !! c' = Some (Activating t a') -> c' = c) /\ active t (y_kernel y) = None /\
  (forall rc token, exists x, reserve rc t token (y_kernel y) = inl x) /\
  (forall v, exists k', publish t a v (y_kernel y) = inr k' /\ active t k' = Some v).
Proof.
  intros Hr Hc. pose proof (kernel_reachable_inv y Hr) as Hinv. destruct (iv_activating _ _ _ Hinv c t a Hc) as (i & Hd & s & Hs & Ha & Hrd). split_and!.
  - intros c' a' Hc'. destruct (iv_activating _ _ _ Hinv c' t a' Hc') as (i' & Hd' & s' & Hs' & Ha' & _). simplify_eq.
    by eapply (iv_calls _ _ _ Hinv).
  - unfold active. rewrite Hd, Hs. by eapply (iv_inactive _ _ _ Hinv).
  - intros rc token. unfold reserve. rewrite Hd. repeat case_match; eauto.
  - intros v. unfold publish, owned_slot. rewrite Hd, Hs, decide_True by done. eexists. split; [done|]. unfold active. simpl. rewrite Hd.
    by rewrite list_lookup_insert_eq by (by eapply lookup_lt_Some).
Qed.

(** Quarantine is permanent: after a cleanup of a tenant's activation was
    incomplete, the tenant has no slot and no reservation of it ever succeeds
    again. *)
Theorem quarantine_is_permanent (y y' : system) t e : reachable y -> dget t (k_poisoned (y_kernel y)) = Some e -> rtc step y y' ->
  active t (y_kernel y') = None /\ (forall rc token, exists x, reserve rc t token (y_kernel y') = inl x) /\
  (forall c a, y_calls y' !! c <> Some (Activating t a)).
Proof.
  intros Hr He Hs. pose proof (kernel_reachable_inv y' (reachable_steps _ _ Hr Hs)) as Hinv.
  destruct (proj2 (steps_mono _ _ Hs) t) as [e' He']; [by exists e|]. pose proof (iv_poison _ _ _ Hinv t e' He') as Hd. split_and!.
  - unfold active. by rewrite Hd.
  - intros rc token. unfold reserve. rewrite He'. case_match; eauto.
  - intros c a Hc. destruct (iv_activating _ _ _ Hinv c t a Hc) as (i & Hi & _). congruence.
Qed.

(** Closing the kernel waits for staging only, and for nothing new: once [close]
    has begun, every activation in progress had begun before it, no reservation
    succeeds any more, and when none of them is in progress the awaited events are
    all set, whatever has been published, closed or rolled back meanwhile. *)
Theorem kernel_close_waits_for_staging_only (y y' : system) c slots : reachable y -> y_calls y !! c = Some (Waiting slots) -> rtc step y y' ->
  (forall c' t a, y_calls y' !! c' = Some (Activating t a) -> y_calls y !! c' = Some (Activating t a)) /\
  (forall rc t token, reserve rc t token (y_kernel y') = inl (ActivationError KERNEL_CLOSED [] None None)) /\
  ((forall c' t a, y_calls y' !! c' <> Some (Activating t a)) -> y_calls y' !! c = Some (Waiting slots) ->
     forall cleanup, is_Some (act y' (DoGathered c cleanup))).
Proof.
  intros Hr Hc Hs. pose proof (waiting_closed y c slots Hr Hc) as Hcl. destruct (proj1 (steps_mono _ _ Hs) Hcl) as [Hcl' Hact]. split_and!.
  - done.
  - intros rc t token. unfold reserve. by rewrite Hcl'.
  - intros Hno Hc' cleanup. pose proof (kernel_reachable_inv y' (reachable_steps _ _ Hr Hs)) as Hinv. simpl. rewrite Hc'.
    assert (Hall : forallb (fun ti => slot_ready (y_kernel y') ti.2) slots = true); [|rewrite Hall; eauto].
    apply forallb_forall. intros ti Hti. unfold slot_ready. destruct (k_objects (y_kernel y') !! ti.2) as [s|] eqn:Hso; [|done].
    destruct (sl_ready s) eqn:Hrd; [done|]. destruct (iv_unready _ _ _ Hinv ti.2 (sl_activation_id s)) as (t & c' & _ & Hc1); [by exists s|].
    by destruct (Hno c' t (sl_activation_id s)).
Qed.
End Slots.

(** ** Witnesses: one tenant *)
Definition demo_reserved : system (A := nat) := MkSystem (MkKernel [("t", 0%nat)] [MkSlot 7 None false] [] false) [Activating "t" 7] [].
Definition demo_error : exc := EffectCleanupError "tenant:t" [].
Definition demo_poisoned : system (A := nat) := MkSystem (MkKernel [] [MkSlot 7 None true] [("t", demo_error)] false) [Returned] [].
Definition demo_closing : system (A := nat) :=
  MkSystem (MkKernel [("t", 0%nat)] [MkSlot 7 None false] [] true) [Activating "t" 7; Waiting [("t", 0%nat)]] [].

Lemma demo_reserved_reachable : reachable demo_reserved.
Proof. apply (reachable_act start (DoReserve false "t" 7)); [constructor|reflexivity]. Qed.

Lemma demo_poisoned_reachable : reachable demo_poisoned.
Proof. apply (reachable_act demo_reserved (DoRollBack 0 (Some demo_error))); [apply demo_reserved_reachable|reflexivity]. Qed.

Lemma demo_kernel_closing_reachable : reachable demo_closing.
Proof. apply (reachable_act demo_reserved DoKernelClose); [apply demo_reserved_reachable|reflexivity]. Qed.

Lemma tenants_have_one_activation_witness :
  active "t" (y_kernel demo_reserved) = None /\ forall rc token, exists x, reserve rc "t" token (y_kernel demo_reserved) = inl x.
Proof.
  destruct (tenants_have_one_activation demo_reserved 0 "t" 7 demo_reserved_reachable eq_refl) as (_ & Ha & Hr & _). exact (conj Ha Hr).
Defined.

Lemma quarantine_is_permanent_witness : exists x, reserve false "t" 9 (y_kernel demo_poisoned) = inl x.
Proof.
  exact (proj1 (proj2 (quarantine_is_permanent demo_poisoned demo_poisoned "t" demo_error demo_poisoned_reachable eq_refl (rtc_refl _ _))) false 9%nat).
Defined.

Lemma kernel_close_waits_for_staging_only_witness :
  reserve false "u" 9 (y_kernel demo_closing) = inl (ActivationError KERNEL_CLOSED [] None None).
Proof.
  exact (proj1 (proj2 (kernel_close_waits_for_staging_only demo_closing demo_closing 1 [("t", 0%nat)] demo_kernel_closing_reachable eq_refl (rtc_refl _ _))) false "u" 9%nat).
Defined.
End Kernel.
