(* ===== verification/Hosting.v ===== *)
(** * Hosting an activated product ([runtime/kernel.py], [execution/in_memory.py])

    What an active product gets from the kernel: tools registered through
    [ProductActivationContext.register_tool], which an effect scope owns
    ([register_owned]); runs admitted by [ActivatedCustomerBundle] for its own
    scopes only; and the lease that keeps the product's resources alive while
    accepted runs are in flight ([_RunLease]). *)
From S2P Require Import Prelude PyText Json Scopes ExecModels Registry PluginModels Effects Bundle CustomerBundle Activation.
Open Scope string_scope.
Open Scope list_scope.

Module Hosting.
Import Activation.

(** ** Owned tool registrations *)
Section Tools.
Context {Handler : Type} (callable : Handler -> bool) (check_schema : list (string * json) -> bool).
Abbreviation registry := (Registry.InMemoryToolRegistry (Handler := Handler)).

(** [register_owned]; [close_ref] names the callable [registration.close]. *)
Definition register_owned (st : registry) (scope : ScopePath) (effects : Scope.EffectScope) (spec : ToolSpec) (handler : Handler)
    (registration_id : string) (close_ref : nat) : (exc + Registry.ToolRegistrationHandle) * registry * Scope.EffectScope :=
  match Registry.register callable check_schema st scope spec handler registration_id with
  | (Raise e, st) => (inl (Exc e), st, effects)
  | (Ok registration, st) =>
      match Scope.callback effects ("tool-registration:" +:+ kind_value (path_kind scope) +:+ ":" +:+ ts_name spec) (CallOf close_ref) with
      | inl x => (inl x, (Registry.close st registration).1, effects)
      | inr (effects, _) => (inr registration, st, effects)
      end
  end.

(** [ProductActivationContext.register_tool] *)
Definition register_tool (path : ScopePath) (declared : gset string) (st : registry) (effects : Scope.EffectScope) (spec : ToolSpec)
    (handler : Handler) (registration_id : string) (close_ref : nat) :
    (kexc + Registry.ToolRegistrationHandle) * registry * Scope.EffectScope :=
  let undeclared := ts_required_capabilities spec ∖ declared in
  if decide (undeclared <> ∅) then
    (inl (ActivationError TOOL_CAPABILITY_UNDECLARED (ts_name spec :: merge_sort String.le (elements undeclared)) None None), st, effects)
  else
    match register_owned st path effects spec handler registration_id close_ref with
    | (inl x, st, effects) => (inl (Plain x), st, effects)
    | (inr h, st, effects) => (inr h, st, effects)
    end.

Lemma close_undoes_register st scope spec handler i rid h st' :
  Registry.register_ callable check_schema st scope spec handler i false rid = (Ok h, st') -> (Registry.close st' h).1 = st.
Proof.
  intros (_ & _ & _ & _ & _ & Hnone & _ & -> & ->)%Registry.register_Ok. unfold Registry.close, Registry.unregister. simpl.
  rewrite Nat.eqb_refl, !bool_decide_eq_true_2 by done. simpl. rewrite lookup_insert_eq. simpl.
  rewrite bool_decide_eq_false_2 by (intros Hx; by apply Hx). simpl. rewrite delete_insert_id by done. by destruct st.
Qed.

Lemma callback_Ok effects label d effects' e : Scope.callback effects label d = inr (effects', e) ->
  Scope.es_state effects = Scope.OPEN /\ Scope.es_effects effects' = Scope.es_effects effects ++ [e] /\ oe_dispose e = d.
Proof.
  unfold Scope.callback. case_decide; [done|]. case_decide; [done|]. intros [= <- <-]. split; [|done].
  destruct (Scope.es_state effects) eqn:Hst; [done|exfalso; congruence..].
Qed.

(** A product's tools are declared, owned and undone as a whole: registering a
    tool either raises, leaving registry and scope exactly as they were, also if
    the scope has begun to close in between; or the tool's capabilities are among
    those the product declares, it is registered at the product's own path, the
    open scope owns the registration's [close], and running that [close] gives
    back the very registry there was before. *)
Theorem product_tools_are_declared_and_owned path declared (st : registry) effects spec handler rid close_ref :
  let '(r, st', effects') := register_tool path declared st effects spec handler rid close_ref in
  match r with
  | inl _ => st' = st /\ effects' = effects
  | inr h =>
      ts_required_capabilities spec ⊆ declared /\
      (exists entry, Registry.reg_items st' !! (path, ts_name spec) = Some entry /\ Registry.re_registration_id entry = rid /\
         Registry.rt_handler (Registry.re_item entry) = handler /\ Registry.re_protected entry = false) /\
      (exists e, Scope.es_effects effects' = Scope.es_effects effects ++ [e] /\ oe_dispose e = CallOf close_ref) /\
      Scope.es_state effects = Scope.OPEN /\ (Registry.close st' h).1 = st
  end.
Proof.
  unfold register_tool. case_decide as Hu; [done|]. unfold register_owned, Registry.register.
  destruct (scoped path (ts_name spec)) as [i|e]; [|done].
  destruct (Registry.register_ callable check_schema st path spec handler i false rid) as [[h|e] st'] eqn:Hr.
  2:{ apply Registry.register_Raise in Hr as ->. done. }
  pose proof (close_undoes_register _ _ _ _ _ _ _ _ Hr) as Hc. destruct (Scope.callback _ _ _) as [x|[effects' e]] eqn:Hcb; [done|].
  apply callback_Ok in Hcb as (Hop & He & Hd). apply Registry.register_Ok in Hr as (_ & _ & _ & _ & _ & _ & _ & -> & ->). split_and!; try done.
  - intros x Hx. destruct (decide (x ∈ declared)); [done|]. exfalso. set_solver.
  - eexists. simpl. rewrite lookup_insert_eq. done.
  - by exists e.
Qed.
End Tools.

(** ** Run leases *)

(** [_RunLease] *)
Record RunLease : Type := MkRunLease { le_active : Z; le_drained : bool }.

Definition new_lease : RunLease := MkRunLease 0 true.

(** [enter], given the states of the tenant and the product scope *)
Definition enter (tenant product : Scope.EffectScopeState) (l : RunLease) : bool * RunLease :=
  if decide (tenant <> Scope.OPEN \/ product <> Scope.OPEN) then (false, l)
  else (true, MkRunLease (le_active l + 1) false).

Definition leave (l : RunLease) : RunLease :=
  let active := (le_active l - 1)%Z in
  MkRunLease active (if decide (active = 0%Z) then true else le_drained l).

(** [_stream_validated] of any number of runs: a run that was let in leaves once, in
    its [finally]; [runs] are those inside. *)
Inductive lease_step : RunLease * list nat -> RunLease * list nat -> Prop :=
| lease_enter l runs tenant product run l' : run ∉ runs -> enter tenant product l = (true, l') -> lease_step (l, runs) (l', run :: runs)
| lease_refused l runs tenant product l' : enter tenant product l = (false, l') -> lease_step (l, runs) (l', runs)
| lease_leave l before run after : lease_step (l, before ++ run :: after) (leave l, before ++ after).

Definition lease_ok (lr : RunLease * list nat) : Prop :=
  le_active lr.1 = Z.of_nat (length lr.2) /\ le_drained lr.1 = bool_decide (lr.2 = []).

Lemma lease_counts lr : rtc lease_step (new_lease, []) lr -> lease_ok lr.
Proof.
  revert lr. apply rtc_ind_r; [done|].
  intros y z _ Hs Hok. destruct Hs as [l runs tn pr run l' _ He|l runs tn pr l' He|l before run after]; destruct Hok as [Ha Hd]; unfold lease_ok; simpl in *.
  - unfold enter in He. case_decide; [done|]. injection He as <-. simpl. split; [lia|done].
  - unfold enter in He. case_decide; [|done]. by injection He as <-.
  - rewrite length_app in *. simpl in *. split; [lia|]. case_decide as H0.
    + symmetry. apply bool_decide_eq_true_2. destruct before, after; simpl in *; [done|lia..].
    + rewrite Hd, !bool_decide_eq_false_2; [done| |by destruct before]. intros [-> ->]%app_eq_nil. simpl in *. lia.
Qed.

(** A product drains exactly when it is idle: in every interleaving of runs, the
    lease's event is set if and only if no accepted run is inside, so a [drain]
    returns only with nothing in flight and never waits for a run that left; and no
    run is accepted once the tenant's or the product's scope has begun to close. *)
Theorem leases_drain_when_idle lease runs : rtc lease_step (new_lease, []) (lease, runs) ->
  (le_drained lease = true <-> runs = []) /\
  (forall tenant product, (tenant <> Scope.OPEN \/ product <> Scope.OPEN) <-> enter tenant product lease = (false, lease)).
Proof.
  intros Hr. destruct (lease_counts _ Hr) as [_ Hd]. simpl in Hd. split; [rewrite Hd; apply bool_decide_eq_true|].
  intros tenant product. unfold enter. case_decide; [done|]. split; [done|]. by intros [=].
Qed.

(** ** Admission of runs *)

(** [path.kind is PRODUCT and path == product.path or
     path.kind is AGENT and path.parent() == product.path] *)
Definition belongs (path product : ScopePath) : bool :=
  (bool_decide (path_kind path = PRODUCT) && bool_decide (path = product)) ||
  (bool_decide (path_kind path = AGENT) &&
     match path_parent path with Ok (Some p) => bool_decide (p = product) | _ => false end).

Definition belongs_to (products : dict string ScopePath) (r : RequestScope) : bool :=
  match dget (rs_product_id r) products with Some product => belongs (rs_path r) product | None => false end.

(** [_stream_validated] up to the lease: the error code, or the run is admitted *)
Definition stream_guard (tenant : Scope.EffectScopeState) (tenant_id : string) (products : dict string ScopePath) (r : RequestScope) :
    CustomerBundleActivationCode + unit :=
  if decide (tenant <> Scope.OPEN) then inl ACTIVATION_CLOSED
  else if negb (bool_decide (rs_tenant_id r = tenant_id)) || negb (belongs_to products r) then inl RUN_SCOPE_MISMATCH
  else inr tt.

(** [ActivatedCustomerBundle.cancel] up to the call of the runner *)
Definition cancel_guard (closed : bool) (tenant_id : string) (products : dict string ScopePath) (r : RequestScope) : bool :=
  negb closed && bool_decide (rs_tenant_id r = tenant_id) && belongs_to products r.

(** The products of an activation, under the paths [TenantScope.product] gave them *)
Definition product_paths (tenant_id : string) (products : dict string ScopePath) : Prop :=
  forall pid path, dget pid products = Some path -> product_path tenant_id pid = Ok path.

Lemma belongs_scope tenant_id products r : product_paths tenant_id products -> valid_request r -> rs_tenant_id r = tenant_id ->
  belongs_to products r = true <-> is_Some (dget (rs_product_id r) products).
Proof.
  intros Hp Hv Ht. destruct (valid_request_ids r Hv) as (Htid & Hpid & _ & _ & Hk). unfold belongs_to.
  destruct (dget (rs_product_id r) products) as [path|] eqn:Hd; [|split; [done|by intros [? [=]]]].
  split; [eauto|intros _]. apply Hp in Hd as Hpath. destruct Hv as [Hvp _]. apply valid_path_inv in Hvp.
  unfold product_path, scope_path in Hpath. apply res_bind_Ok in Hpath as (u & Hpost & [= <-]).
  unfold belongs. apply orb_true_iff. destruct (path_kind (rs_path r)) eqn:Hkind; try done.
  - left. rewrite bool_decide_eq_true_2 by done. simpl. apply bool_decide_eq_true_2. destruct Hvp as (t & q & E & _).
    rewrite E in *. simpl in *. congruence.
  - right. rewrite bool_decide_eq_true_2 by done. simpl. unfold path_parent. rewrite Hkind, Htid, Hpid. unfold scope_path.
    rewrite Ht. unfold product_path in Hpost. destruct u. rewrite Hpost. simpl. by apply bool_decide_eq_true_2.
Qed.

(** An activation serves exactly its own scopes: an authenticated request is
    admitted to [stream] if and only if the activation is open, the request's
    tenant is the activation's, and its product is one of the activated ones;
    [cancel] reaches the runner for the same requests as long as the activation is
    not closed. *)
Theorem activations_serve_their_own_scopes tenant tenant_id products r :
  product_paths tenant_id products -> valid_request r ->
  (stream_guard tenant tenant_id products r = inr tt <->
     tenant = Scope.OPEN /\ rs_tenant_id r = tenant_id /\ is_Some (dget (rs_product_id r) products)) /\
  (forall closed, cancel_guard closed tenant_id products r = true <->
     closed = false /\ rs_tenant_id r = tenant_id /\ is_Some (dget (rs_product_id r) products)).
Proof.
  intros Hp Hv. pose proof (belongs_scope tenant_id products r Hp Hv) as Hb. split.
  - unfold stream_guard. case_decide as Hs; [split; [done|intros [-> _]; done]|]. assert (tenant = Scope.OPEN) as -> by (by destruct tenant).
    destruct (decide (rs_tenant_id r = tenant_id)) as [Ht|Ht].
    + rewrite bool_decide_eq_true_2 by done. simpl. specialize (Hb Ht). destruct (belongs_to products r); simpl.
      * split; [|done]. intros _. split_and!; [done..|]. by apply Hb.
      * split; [done|]. intros (_ & _ & Hx%Hb). done.
    + rewrite bool_decide_eq_false_2 by done. simpl. split; [done|]. intros (_ & ? & _). done.
  - intros closed. unfold cancel_guard. rewrite !andb_true_iff, negb_true_iff, bool_decide_eq_true. split.
    + intros [[-> Ht] Hbt]. split_and!; [done..|]. by apply Hb.
    + intros (-> & Ht & Hx). split_and!; [done..|]. by apply Hb.
Qed.

(** ** Witnesses: one run in and out, and a request of the shop's agent *)
Lemma leases_drain_when_idle_witness : le_drained (leave (MkRunLease 1 false)) = true <-> @nil nat = [].
Proof.
  apply (leases_drain_when_idle (leave (MkRunLease 1 false)) []).
  apply (rtc_l _ _ (MkRunLease 1 false, [4%nat])).
  - apply (lease_enter _ _ Scope.OPEN Scope.OPEN 4%nat); [apply not_elem_of_nil|reflexivity].
  - apply rtc_once. exact (lease_leave (MkRunLease 1 false) [] 4%nat []).
Defined.

Definition demo_path : ScopePath := MkScopePath PRODUCT (Some "acme") (Some "shop") None None.
Definition demo_request : RequestScope :=
  MkRequestScope (MkScopePath AGENT (Some "acme") (Some "shop") (Some "helper") (Some "s1")) "alice" "internal" ∅ "agent-run" "" "" None.

Lemma activations_serve_their_own_scopes_witness :
  stream_guard Scope.OPEN "acme" [("shop", demo_path)] demo_request = inr tt <->
  Scope.OPEN = Scope.OPEN /\ rs_tenant_id demo_request = "acme" /\ is_Some (dget (rs_product_id demo_request) [("shop", demo_path)]).
Proof.
  apply activations_serve_their_own_scopes.
  - intros pid path Hd. simpl in Hd. destruct (decide (pid = "shop")) as [Hp|Hp]; [|discriminate Hd]. rewrite Hp. injection Hd as Hd. rewrite <- Hd.
    vm_cast_no_check (eq_refl (Ok demo_path)).
  - split; vm_cast_no_check (eq_refl (Ok tt)).
Defined.
End Hosting.
