(* ===== verification/Memory.v ===== *)
(** * Private profile memory ([memory/models.py], [memory/in_memory.py])

    The vocabulary of memory, the argument checks and the idempotency records all
    providers share, [InMemoryProfileProvider] and [InMemoryProfileDirectory].
    Every method runs under the provider's lock and is one atomic step; a method
    that raises leaves the provider as it was.  Identifiers drawn from
    [id_factory] and readings of the clock are arguments; [deepcopy] is the
    identity on immutable values. *)
From S2P Require Import Prelude PyText Json ExecModels Scopes.
Open Scope string_scope.
Open Scope list_scope.
Open Scope Z_scope.

(** Python's [repr] of a string, used as a sort key only *)
Class StrRepr : Type := str_repr : string -> string.

Module Memory.

(** ** Roles and errors *)
Definition PRIVATE_READ : string := "memory.private.read".
Definition PRIVATE_WRITE : string := "memory.private.write".
Definition SHARE_PROPOSE : string := "memory.share.propose".
Definition SHARED_READ : string := "memory.shared.read".
Definition SHARING_ADMIN : string := "memory.sharing.admin".
Definition ENTITY_ADMIN : string := "memory.entity.admin".
Definition CURATOR : string := "memory.customer360.curate".

Inductive MemoryErrorCode : Type :=
| PERMISSION_DENIED | POLICY_DENIED | NOT_FOUND | ENTITY_ALIAS_NOT_FOUND | REVISION_CONFLICT
| IDEMPOTENCY_CONFLICT | INVALID_STATE | INVALID_ARGUMENT.
#[global] Instance MemoryErrorCode_eq_dec : EqDecision MemoryErrorCode.
Proof. solve_decision. Defined.

(** [MemoryCapabilityError], or another exception *)
Inductive merror : Type :=
| MemoryCapabilityError (code : MemoryErrorCode)
| Failure (e : exn).
#[global] Instance merror_eq_dec : EqDecision merror.
Proof. solve_decision. Defined.

Definition denied {A : Type} (code : MemoryErrorCode) : merror + A := inl (MemoryCapabilityError code).
Definition check (c : bool) (code : MemoryErrorCode) : merror + unit := if c then inr tt else denied code.

(** ** Spaces and private claims *)
Inductive SpaceKind : Type := PRODUCT_PRIVATE | CUSTOMER360_SHARED.
#[global] Instance SpaceKind_eq_dec : EqDecision SpaceKind.
Proof. solve_decision. Defined.

Record SpaceRef : Type := MkSpaceRef {
  sp_tenant_id : string;
  sp_kind : SpaceKind;
  sp_owner_product_id : option string;
}.
#[global] Instance SpaceRef_eq_dec : EqDecision SpaceRef.
Proof. solve_decision. Defined.

Definition space_ref (s : SpaceRef) : merror + SpaceRef :=
  if is_blank (sp_tenant_id s) then inl (Failure ValueError)
  else match sp_kind s, sp_owner_product_id s with
  | PRODUCT_PRIVATE, Some owner => if decide (owner = "") then inl (Failure ValueError) else inr s
  | PRODUCT_PRIVATE, None => inl (Failure ValueError)
  | CUSTOMER360_SHARED, Some _ => inl (Failure ValueError)
  | CUSTOMER360_SHARED, None => inr s
  end.

Definition private_space (scope : RequestScope) : merror + SpaceRef :=
  space_ref (MkSpaceRef (rs_tenant_id scope) PRODUCT_PRIVATE (Some (rs_product_id scope))).
Definition customer360_space (tenant_id : string) : merror + SpaceRef :=
  space_ref (MkSpaceRef tenant_id CUSTOMER360_SHARED None).

Inductive PrivateClaimStatus : Type := ASSERTED | CLAIM_RETRACTED.
#[global] Instance PrivateClaimStatus_eq_dec : EqDecision PrivateClaimStatus.
Proof. solve_decision. Defined.

Record PrivateClaim : Type := MkPrivateClaim {
  pc_claim_id : string;
  pc_space : SpaceRef;
  pc_local_subject_id : string;
  pc_predicate : string;
  pc_value : json;
  pc_source_ref : string;
  pc_created_by : string;
  pc_recorded_at : Z;
  pc_status : PrivateClaimStatus;
  pc_version : Z;
  pc_retraction_reason : string;
  pc_retracted_at : option Z;
}.
#[global] Instance PrivateClaim_eq_dec : EqDecision PrivateClaim.
Proof. solve_decision. Defined.

(** ** Argument checks *)

(** A string argument; [None] is a value that is not a [str]. *)
Abbreviation text_arg := (option string).

(** [_text] *)
Definition text (value : text_arg) : merror + string :=
  match value with
  | None => denied INVALID_ARGUMENT
  | Some value =>
      let clean := PyText.strip value in
      if decide (clean = "") then denied INVALID_ARGUMENT else inr clean
  end.

(** [_revision], [_boolean] *)
Definition revision (v : pyarg) : merror + Z :=
  match v with
  | AInt z => if z <? 0 then denied INVALID_ARGUMENT else inr z
  | _ => denied INVALID_ARGUMENT
  end.

Definition boolean (v : pyarg) : merror + bool :=
  match v with ABool b => inr b | _ => denied INVALID_ARGUMENT end.

(** What [_string_set] tells apart *)
Inductive strings_arg : Type :=
| OneString
| NotIterable
| Strings (values : list text_arg).

Definition string_set (values : strings_arg) : merror + gset string :=
  match values with
  | OneString | NotIterable => denied INVALID_ARGUMENT
  | Strings l => efold (fun acc v => try! s := text v in inr ({[ s ]} ∪ acc)) ∅ l
  end.

(** [_require], [_require_any] *)
Definition has_role (scope : RequestScope) (role : string) : bool := bool_decide (role ∈ rs_roles scope).
Definition require_role (scope : RequestScope) (role : string) : merror + unit := check (has_role scope role) PERMISSION_DENIED.
Definition require_any (scope : RequestScope) (roles : list string) : merror + unit :=
  check (existsb (has_role scope) roles) PERMISSION_DENIED.

(** ** Idempotency records *)

(** Tenant, product, operation, key *)
Abbreviation IdemKey := (string * string * string * string)%type.

Definition idem_key (scope : RequestScope) (operation : string) (idempotency_key : text_arg) : merror + IdemKey :=
  try! key := text idempotency_key in inr (rs_tenant_id scope, rs_product_id scope, operation, key).

(** [_replay]: [None] is [_MISSING]. *)
Definition replay {R : Type} (records : gmap IdemKey (string * R)) (key : IdemKey) (fingerprint : string) : merror + option R :=
  match records !! key with
  | None => inr None
  | Some (stored_fingerprint, result) =>
      if decide (stored_fingerprint = fingerprint) then inr (Some result) else denied IDEMPOTENCY_CONFLICT
  end.

Section Fingerprint.
Context `{Hashing} `{StrRepr}.

(** [_fingerprint]; [None] is a payload that does not serialize. *)
Definition fingerprint (payload : option json) : merror + string :=
  match payload with
  | None => denied INVALID_ARGUMENT
  | Some payload => inr (sha256_hex (canonical_text payload))
  end.

(** [_canonical] of a set of strings *)
Definition canonical_set (s : gset string) : json := JList (JStr <$> sort_by str_repr (elements s)).
End Fingerprint.

(** ** [InMemoryProfileProvider] *)
Record Profile : Type := MkProfile {
  pf_claims : gmap string PrivateClaim;
  pf_subject_claims : gmap (string * string * string) (list string);
  pf_idempotency : gmap IdemKey (string * PrivateClaim);
}.

Definition empty_profile : Profile := MkProfile ∅ ∅ ∅.

(** [_owns] *)
Definition owns (scope : RequestScope) (c : PrivateClaim) : bool :=
  bool_decide (sp_tenant_id (pc_space c) = rs_tenant_id scope)
  && bool_decide (sp_owner_product_id (pc_space c) = Some (rs_product_id scope)).

Section ProfileProvider.
Context `{Hashing}.

Definition assert_payload (local_subject_id predicate source_ref : string) (value : option json) : option json :=
  (fun v => JObj [("local_subject_id", JStr local_subject_id); ("predicate", JStr predicate); ("value", v);
                  ("source_ref", JStr source_ref)]) <$> value.

(** [value] is [None] when it is not JSON serializable. *)
Definition assert_claim (st : Profile) (scope : RequestScope) (local_subject_id predicate source_ref : text_arg) (value : option json)
    (idempotency_key : text_arg) (new_id : string) (now : Z) : merror + (PrivateClaim * Profile) :=
  try! _ := require_role scope PRIVATE_WRITE in
  try! local_subject_id := text local_subject_id in
  try! predicate := text predicate in
  try! source_ref := text source_ref in
  try! fp := fingerprint (assert_payload local_subject_id predicate source_ref value) in
  try! operation_key := idem_key scope "profile.assert_claim" idempotency_key in
  try! replayed := replay (pf_idempotency st) operation_key fp in
  match replayed, value with
  | Some c, _ => inr (c, st)
  | None, None => denied INVALID_ARGUMENT
  | None, Some value =>
      try! space := private_space scope in
      let c := MkPrivateClaim new_id space local_subject_id predicate value source_ref (rs_principal_id scope) now ASSERTED 1 "" None in
      let subject_key := (rs_tenant_id scope, rs_product_id scope, local_subject_id) in
      inr (c, MkProfile (<[ new_id := c ]> (pf_claims st))
                (<[ subject_key := default [] (pf_subject_claims st !! subject_key) ++ [new_id] ]> (pf_subject_claims st))
                (<[ operation_key := (fp, c) ]> (pf_idempotency st)))
  end.

(** Foreign claims are indistinguishable from missing ones. *)
Definition owned_claim (st : Profile) (scope : RequestScope) (claim_id : string) : merror + PrivateClaim :=
  match pf_claims st !! claim_id with
  | Some c => if owns scope c then inr c else denied NOT_FOUND
  | None => denied NOT_FOUND
  end.

Definition get_claim (st : Profile) (scope : RequestScope) (claim_id : text_arg) : merror + PrivateClaim :=
  try! _ := require_role scope PRIVATE_READ in
  try! claim_id := text claim_id in
  owned_claim st scope claim_id.

Definition list_claims (st : Profile) (scope : RequestScope) (local_subject_id : text_arg) (include_retracted : bool) :
    merror + list PrivateClaim :=
  try! _ := require_role scope PRIVATE_READ in
  try! local_subject_id := text local_subject_id in
  let ids := default [] (pf_subject_claims st !! (rs_tenant_id scope, rs_product_id scope, local_subject_id)) in
  efold (fun visible claim_id =>
    match pf_claims st !! claim_id with
    | None => inl (Failure KeyError)
    | Some c => inr (if include_retracted || bool_decide (pc_status c = ASSERTED) then visible ++ [c] else visible)
    end) [] ids.

(** [replace(claim, status=..., version=..., ...)] *)
Definition retracted (c : PrivateClaim) (reason : string) (now : Z) : PrivateClaim :=
  MkPrivateClaim (pc_claim_id c) (pc_space c) (pc_local_subject_id c) (pc_predicate c) (pc_value c) (pc_source_ref c)
    (pc_created_by c) (pc_recorded_at c) CLAIM_RETRACTED (pc_version c + 1) reason (Some now).

Definition retract_claim (st : Profile) (scope : RequestScope) (claim_id reason : text_arg) (idempotency_key : text_arg) (now : Z) :
    merror + (PrivateClaim * Profile) :=
  try! _ := require_role scope PRIVATE_WRITE in
  try! claim_id := text claim_id in
  try! reason := text reason in
  try! fp := fingerprint (Some (JObj [("claim_id", JStr claim_id); ("reason", JStr reason)])) in
  try! operation_key := idem_key scope "profile.retract_claim" idempotency_key in
  try! replayed := replay (pf_idempotency st) operation_key fp in
  match replayed with
  | Some c => inr (c, st)
  | None =>
      try! c := owned_claim st scope claim_id in
      try! _ := check (bool_decide (pc_status c = ASSERTED)) INVALID_STATE in
      let updated := retracted c reason now in
      inr (updated, MkProfile (<[ claim_id := updated ]> (pf_claims st)) (pf_subject_claims st)
                      (<[ operation_key := (fp, updated) ]> (pf_idempotency st)))
  end.
End ProfileProvider.

(** ** [InMemoryProfileDirectory]: providers by identity *)
Abbreviation Directory := (gmap (string * string) nat).

(** [is_provider] is [isinstance(provider, ProfileProvider)]. *)
Definition directory_register (d : Directory) (tenant_id product_id : text_arg) (provider : nat) (is_provider : bool) : merror + Directory :=
  try! tenant_id := text tenant_id in
  try! product_id := text product_id in
  if negb is_provider then inl (Failure TypeError)
  else match d !! (tenant_id, product_id) with
  | Some current => if decide (current = provider) then inr (<[ (tenant_id, product_id) := provider ]> d) else inl (Failure ValueError)
  | None => inr (<[ (tenant_id, product_id) := provider ]> d)
  end.

Definition directory_unregister (d : Directory) (tenant_id product_id : text_arg) : merror + (bool * Directory) :=
  try! tenant_id := text tenant_id in
  try! product_id := text product_id in
  inr (bool_decide (is_Some (d !! (tenant_id, product_id))), delete (tenant_id, product_id) d).

Definition directory_resolve (d : Directory) (scope : RequestScope) : merror + nat :=
  match d !! (rs_tenant_id scope, rs_product_id scope) with
  | Some provider => inr provider
  | None => denied NOT_FOUND
  end.
End Memory.
