(* ===== verification/Customer360.v ===== *)
(** * Customer360: curated sharing between products ([memory/in_memory.py])

    [SharingPolicy], the records of [memory/models.py] that Customer360 keeps, and
    every operation of [InMemoryCustomer360Provider].  A method body under the
    provider's lock is one atomic step.  [propose_share] and [withdraw_source] take
    the lock twice and read the private claim in between: they get the store of
    each critical section and the answer of the profile provider.  Clocks and
    identifier factories do not raise. *)
From S2P Require Import Prelude PyText Json ExecModels Scopes Memory.
Open Scope string_scope.
Open Scope list_scope.
Open Scope Z_scope.

Module Customer360.
Import Memory.

(** ** Policies *)
Record PeerPredicateRule : Type := MkPeerRule { pp_peer_product_id : string; pp_predicates : gset string }.
#[global] Instance PeerPredicateRule_eq_dec : EqDecision PeerPredicateRule.
Proof. solve_decision. Defined.

Record SharingPolicy : Type := MkPolicy {
  sy_tenant_id : string;
  sy_product_id : string;
  sy_publish_enabled : bool;
  sy_consume_enabled : bool;
  sy_publish_predicates : gset string;
  sy_consume_predicates : gset string;
  sy_publish_to_products : gset string;
  sy_consume_from_products : gset string;
  sy_publish_rules : list PeerPredicateRule;
  sy_consume_rules : list PeerPredicateRule;
  sy_revision : Z;
  sy_updated_by : string;
  sy_updated_at : option Z;
}.
#[global] Instance SharingPolicy_eq_dec : EqDecision SharingPolicy.
Proof. solve_decision. Defined.

Definition default_policy (tenant_id product_id : string) : SharingPolicy :=
  MkPolicy tenant_id product_id false false ∅ ∅ ∅ ∅ [] [] 0 "" None.

Definition publish_audience_for (p : SharingPolicy) (predicate : string) : gset string :=
  if negb (sy_publish_enabled p) then ∅
  else match sy_publish_rules p with
  | [] => if decide (predicate ∈ sy_publish_predicates p) then sy_publish_to_products p else ∅
  | rules => list_to_set (pp_peer_product_id <$> filter (fun r => predicate ∈ pp_predicates r) rules)
  end.

Definition can_consume_from (p : SharingPolicy) (source_product_id predicate : string) : bool :=
  if negb (sy_consume_enabled p) then false
  else match sy_consume_rules p with
  | [] => bool_decide (source_product_id ∈ sy_consume_from_products p) && bool_decide (predicate ∈ sy_consume_predicates p)
  | rules => existsb (fun r => bool_decide (pp_peer_product_id r = source_product_id) && bool_decide (predicate ∈ pp_predicates r)) rules
  end.

(** What [_peer_rules] tells apart *)
Inductive rules_arg : Type :=
| NotMapping
| Peers (items : list (text_arg * strings_arg)).

Definition peer_rule (acc : list PeerPredicateRule) (item : text_arg * strings_arg) : merror + list PeerPredicateRule :=
  try! peer := text item.1 in
  try! predicates := string_set item.2 in
  try! _ := check (negb (bool_decide (predicates = ∅))) INVALID_ARGUMENT in
  inr (acc ++ [MkPeerRule peer predicates]).

Definition peer_rules (values : rules_arg) : merror + list PeerPredicateRule :=
  match values with
  | NotMapping => denied INVALID_ARGUMENT
  | Peers items => try! rules := efold peer_rule [] items in inr (sort_by pp_peer_product_id rules)
  end.

(** [_flatten_rules] *)
Definition rule_peers (rules : list PeerPredicateRule) : gset string := list_to_set (pp_peer_product_id <$> rules).
Definition rule_predicates (rules : list PeerPredicateRule) : gset string := ⋃ (pp_predicates <$> rules).

(** ** The shared side *)
Record EntityAlias : Type := MkAlias {
  ea_tenant_id : string;
  ea_source_product_id : string;
  ea_local_subject_id : string;
  ea_entity_id : string;
  ea_revision : Z;
  ea_bound_by : string;
  ea_bound_at : Z;
}.

Inductive CandidateStatus : Type := PENDING | ACCEPTED | REJECTED | STALE | WITHDRAWN.
#[global] Instance CandidateStatus_eq_dec : EqDecision CandidateStatus.
Proof. solve_decision. Defined.

Record ShareCandidate : Type := MkCandidate {
  ca_candidate_id : string;
  ca_tenant_id : string;
  ca_entity_id : string;
  ca_source_space : SpaceRef;
  ca_source_claim_id : string;
  ca_source_claim_version : Z;
  ca_source_product_id : string;
  ca_source_ref : string;
  ca_predicate : string;
  ca_value : json;
  ca_audience : gset string;
  ca_policy_revision : Z;
  ca_status : CandidateStatus;
  ca_proposed_by : string;
  ca_proposed_at : Z;
  ca_decided_at : option Z;
}.

(** [replace(candidate, status=..., decided_at=...)] *)
Definition decided (c : ShareCandidate) (status : CandidateStatus) (now : Z) : ShareCandidate :=
  MkCandidate (ca_candidate_id c) (ca_tenant_id c) (ca_entity_id c) (ca_source_space c) (ca_source_claim_id c)
    (ca_source_claim_version c) (ca_source_product_id c) (ca_source_ref c) (ca_predicate c) (ca_value c) (ca_audience c)
    (ca_policy_revision c) status (ca_proposed_by c) (ca_proposed_at c) (Some now).

Record ProvenanceRef : Type := MkProvenance {
  pv_source_product_id : string;
  pv_source_claim_id : string;
  pv_source_claim_version : Z;
  pv_source_ref : string;
  pv_candidate_id : string;
  pv_policy_revision : Z;
}.

Inductive SharedClaimStatus : Type := SELECTED | RETRACTED.
#[global] Instance SharedClaimStatus_eq_dec : EqDecision SharedClaimStatus.
Proof. solve_decision. Defined.

Record SharedClaim : Type := MkShared {
  sd_claim_id : string;
  sd_space : SpaceRef;
  sd_entity_id : string;
  sd_predicate : string;
  sd_value : json;
  sd_audience : gset string;
  sd_provenance : list ProvenanceRef;
  sd_status : SharedClaimStatus;
  sd_created_at : Z;
  sd_retracted_at : option Z;
  sd_retraction_reason : string;
}.

Definition shared_retracted (c : SharedClaim) (reason : string) (now : Z) : SharedClaim :=
  MkShared (sd_claim_id c) (sd_space c) (sd_entity_id c) (sd_predicate c) (sd_value c) (sd_audience c) (sd_provenance c)
    RETRACTED (sd_created_at c) (Some now) reason.

Inductive CurationAction : Type := ACCEPT | REJECT.
#[global] Instance CurationAction_eq_dec : EqDecision CurationAction.
Proof. solve_decision. Defined.

Definition action_value (a : CurationAction) : string := match a with ACCEPT => "accept" | REJECT => "reject" end.

Record CurationDecision : Type := MkDecision {
  de_decision_id : string;
  de_candidate_id : string;
  de_action : CurationAction;
  de_reason : string;
  de_curator : string;
  de_previous_revision : Z;
  de_new_revision : Z;
  de_decided_at : Z;
}.

Record CurationResult : Type := MkCuration {
  cu_candidate : ShareCandidate;
  cu_decision : CurationDecision;
  cu_shared_claim : option SharedClaim;
  cu_entity_revision : Z;
}.

Record WithdrawalReceipt : Type := MkReceipt {
  wr_source_claim_id : string;
  wr_candidates_withdrawn : Z;
  wr_shared_claims_retracted : Z;
  wr_entity_revisions : list (string * Z);
}.

(** What the idempotency records remember *)
Inductive stored : Type :=
| StoredAlias (a : EntityAlias)
| StoredPolicy (p : SharingPolicy)
| StoredCandidate (c : ShareCandidate)
| StoredCuration (r : CurationResult)
| StoredReceipt (r : WithdrawalReceipt).

(** ** The provider's state *)
Record Store : Type := MkStore {
  c_aliases : gmap (string * string * string) EntityAlias;
  c_policies : gmap (string * string) SharingPolicy;
  c_candidates : dict string ShareCandidate;
  c_candidate_by_source : gmap (string * string * string * Z * Z) string;
  c_shared_claims : gmap string SharedClaim;
  c_shared_by_candidate : gmap string string;
  c_shared_by_entity : gmap (string * string) (list string);
  c_entity_revisions : gmap (string * string) Z;
  c_decisions : list CurationDecision;
  c_idempotency : gmap IdemKey (string * stored);
}.

Definition empty_store : Store := MkStore ∅ ∅ [] ∅ ∅ ∅ ∅ ∅ [] ∅.

(** [_remember] *)
Definition remember (key : IdemKey) (fp : string) (r : stored) (st : Store) : Store :=
  MkStore (c_aliases st) (c_policies st) (c_candidates st) (c_candidate_by_source st) (c_shared_claims st)
    (c_shared_by_candidate st) (c_shared_by_entity st) (c_entity_revisions st) (c_decisions st)
    (<[ key := (fp, r) ]> (c_idempotency st)).

(** [_policy] *)
Definition policy_of (st : Store) (tenant_id product_id : string) : SharingPolicy :=
  default (default_policy tenant_id product_id) (c_policies st !! (tenant_id, product_id)).

(** [_candidate_allowed] *)
Definition candidate_allowed (p : SharingPolicy) (c : ShareCandidate) : bool :=
  negb (bool_decide (ca_audience c = ∅)) && bool_decide (ca_audience c ⊆ publish_audience_for p (ca_predicate c)).

Definition revision_of (st : Store) (tenant_id entity_id : string) : Z :=
  default 0 (c_entity_revisions st !! (tenant_id, entity_id)).

(** ** Aliases *)
Section Provider.
Context `{Hashing} `{StrRepr}.

Definition bind_entity_alias (st : Store) (scope : RequestScope) (source_product_id local_subject_id entity_id : text_arg)
    (expected_revision : pyarg) (idempotency_key : text_arg) (now : Z) : merror + (stored * Store) :=
  try! _ := require_any scope [ENTITY_ADMIN; CURATOR] in
  try! source_product_id := text source_product_id in
  try! local_subject_id := text local_subject_id in
  try! entity_id := text entity_id in
  try! expected_revision := revision expected_revision in
  try! fp := fingerprint (Some (JObj [("source_product_id", JStr source_product_id); ("local_subject_id", JStr local_subject_id);
                                      ("entity_id", JStr entity_id); ("expected_revision", JInt expected_revision)])) in
  try! operation_key := idem_key scope "customer360.bind_entity_alias" idempotency_key in
  let alias_key := (rs_tenant_id scope, source_product_id, local_subject_id) in
  try! replayed := replay (c_idempotency st) operation_key fp in
  match replayed with
  | Some r => inr (r, st)
  | None =>
      let current_revision := match c_aliases st !! alias_key with Some a => ea_revision a | None => 0 end in
      try! _ := check (expected_revision =? current_revision) REVISION_CONFLICT in
      let alias := MkAlias (rs_tenant_id scope) source_product_id local_subject_id entity_id (current_revision + 1)
                     (rs_principal_id scope) now in
      inr (StoredAlias alias, remember operation_key fp (StoredAlias alias)
        (MkStore (<[ alias_key := alias ]> (c_aliases st)) (c_policies st) (c_candidates st) (c_candidate_by_source st)
          (c_shared_claims st) (c_shared_by_candidate st) (c_shared_by_entity st) (c_entity_revisions st) (c_decisions st)
          (c_idempotency st)))
  end.

Definition resolve_entity_alias (st : Store) (scope : RequestScope) (local_subject_id : text_arg) : merror + EntityAlias :=
  try! _ := require_role scope PRIVATE_READ in
  try! local_subject_id := text local_subject_id in
  match c_aliases st !! (rs_tenant_id scope, rs_product_id scope, local_subject_id) with
  | Some a => inr a
  | None => denied ENTITY_ALIAS_NOT_FOUND
  end.

(** ** Withdrawing *)

(** The locals of a withdrawal loop *)
Record Withdrawal : Type := MkWithdrawal {
  w_candidates : dict string ShareCandidate;
  w_shared : gmap string SharedClaim;
  w_withdrawn : Z;
  w_retracted : Z;
  w_touched : gset string;
}.

(** [candidate.status in {REJECTED, WITHDRAWN}] *)
Definition settled (s : CandidateStatus) : bool := match s with REJECTED | WITHDRAWN => true | _ => false end.

(** One round of the loop, for a candidate that [matches] *)
Definition withdraw_one (matches : ShareCandidate -> bool) (by_candidate : gmap string string) (reason : string) (now : Z)
    (w : Withdrawal) (item : string * ShareCandidate) : merror + Withdrawal :=
  let '(candidate_id, c) := item in
  if negb (matches c) || settled (ca_status c) then inr w
  else
    let candidates := dset candidate_id (decided c WITHDRAWN now) (w_candidates w) in
    match by_candidate !! candidate_id with
    | None => inr (MkWithdrawal candidates (w_shared w) (w_withdrawn w + 1) (w_retracted w) (w_touched w))
    | Some shared_id =>
        match w_shared w !! shared_id with
        | None => inl (Failure KeyError)
        | Some s =>
            if decide (sd_status s = SELECTED)
            then inr (MkWithdrawal candidates (<[ shared_id := shared_retracted s reason now ]> (w_shared w))
                        (w_withdrawn w + 1) (w_retracted w + 1) ({[ ca_entity_id c ]} ∪ w_touched w))
            else inr (MkWithdrawal candidates (w_shared w) (w_withdrawn w + 1) (w_retracted w) (w_touched w))
        end
    end.

Definition withdraw (st : Store) (matches : ShareCandidate -> bool) (reason : string) (now : Z) : merror + Withdrawal :=
  efold (withdraw_one matches (c_shared_by_candidate st) reason now)
    (MkWithdrawal (c_candidates st) (c_shared_claims st) 0 0 ∅) (c_candidates st).

(** [_bump_entities_locked] *)
Definition bump_one (tenant_id : string) (acc : gmap (string * string) Z * list (string * Z)) (entity_id : string) :
    gmap (string * string) Z * list (string * Z) :=
  let n := default 0 (acc.1 !! (tenant_id, entity_id)) + 1 in
  (<[ (tenant_id, entity_id) := n ]> acc.1, acc.2 ++ [(entity_id, n)]).

Definition bump_entities (revisions : gmap (string * string) Z) (tenant_id : string) (entity_ids : gset string) :
    gmap (string * string) Z * list (string * Z) :=
  foldl (bump_one tenant_id) (revisions, []) (merge_sort String.le (elements entity_ids)).

(** The store after a loop, with the touched entities bumped *)
Definition withdrawn_store (st : Store) (tenant_id : string) (w : Withdrawal) : Store :=
  MkStore (c_aliases st) (c_policies st) (w_candidates w) (c_candidate_by_source st) (w_shared w) (c_shared_by_candidate st)
    (c_shared_by_entity st) (bump_entities (c_entity_revisions st) tenant_id (w_touched w)).1 (c_decisions st) (c_idempotency st).

Definition of_product (tenant_id product_id : string) (c : ShareCandidate) : bool :=
  bool_decide (ca_tenant_id c = tenant_id) && bool_decide (ca_source_product_id c = product_id).

(** [_withdraw_product_locked] *)
Definition withdraw_product (st : Store) (tenant_id source_product_id reason : string) (now : Z) : merror + Store :=
  try! w := withdraw st (of_product tenant_id source_product_id) reason now in
  inr (withdrawn_store st tenant_id w).

(** ** Policies *)
Definition get_policy (st : Store) (scope : RequestScope) : SharingPolicy := policy_of st (rs_tenant_id scope) (rs_product_id scope).

(** The arguments of [configure_policy] *)
Record PolicyArgs : Type := MkPolicyArgs {
  pa_publish_enabled : pyarg;
  pa_consume_enabled : pyarg;
  pa_publish_predicates : strings_arg;
  pa_consume_predicates : strings_arg;
  pa_publish_to_products : strings_arg;
  pa_consume_from_products : strings_arg;
  pa_expected_revision : pyarg;
  pa_withdraw_existing : pyarg;
  pa_publish_rules : option rules_arg;
  pa_consume_rules : option rules_arg;
}.

(** ... and what is left of them after the checks *)
Record PolicyCommand : Type := MkPolicyCommand {
  cm_publish_enabled : bool;
  cm_consume_enabled : bool;
  cm_publish_predicates : gset string;
  cm_consume_predicates : gset string;
  cm_publish_to_products : gset string;
  cm_consume_from_products : gset string;
  cm_publish_rules : list PeerPredicateRule;
  cm_consume_rules : list PeerPredicateRule;
  cm_expected_revision : Z;
  cm_withdraw_existing : bool;
}.

(** One rule per peer, or the rules given *)
Definition exact_rules (rules : option rules_arg) (predicates peers : gset string) : merror + list PeerPredicateRule :=
  match rules with
  | None =>
      inr (if decide (predicates = ∅) then []
           else (fun peer => MkPeerRule peer predicates) <$> merge_sort String.le (elements peers))
  | Some values => peer_rules values
  end.

(** Given rules must match the flattened allowlists. *)
Definition check_flattened (rules : option rules_arg) (exact : list PeerPredicateRule) (predicates peers : gset string) : merror + unit :=
  match rules with
  | None => inr tt
  | Some _ => check (bool_decide (rule_peers exact = peers) && bool_decide (rule_predicates exact = predicates)) INVALID_ARGUMENT
  end.

Definition check_policy_args (a : PolicyArgs) : merror + PolicyCommand :=
  try! publish_enabled := boolean (pa_publish_enabled a) in
  try! consume_enabled := boolean (pa_consume_enabled a) in
  try! withdraw_existing := boolean (pa_withdraw_existing a) in
  try! expected_revision := revision (pa_expected_revision a) in
  try! publish_predicates := string_set (pa_publish_predicates a) in
  try! consume_predicates := string_set (pa_consume_predicates a) in
  try! publish_to_products := string_set (pa_publish_to_products a) in
  try! consume_from_products := string_set (pa_consume_from_products a) in
  try! exact_publish := exact_rules (pa_publish_rules a) publish_predicates publish_to_products in
  try! exact_consume := exact_rules (pa_consume_rules a) consume_predicates consume_from_products in
  try! _ := check_flattened (pa_publish_rules a) exact_publish publish_predicates publish_to_products in
  try! _ := check_flattened (pa_consume_rules a) exact_consume consume_predicates consume_from_products in
  inr (MkPolicyCommand publish_enabled consume_enabled publish_predicates consume_predicates publish_to_products
         consume_from_products exact_publish exact_consume expected_revision withdraw_existing).

(** [_canonical] of a tuple of rules *)
Definition rules_json (rules : list PeerPredicateRule) : json :=
  JList ((fun r => JObj [("peer_product_id", JStr (pp_peer_product_id r)); ("predicates", canonical_set (pp_predicates r))]) <$> rules).

Definition policy_payload (c : PolicyCommand) : json :=
  JObj [("publish_enabled", JBool (cm_publish_enabled c)); ("consume_enabled", JBool (cm_consume_enabled c));
        ("publish_predicates", canonical_set (cm_publish_predicates c)); ("consume_predicates", canonical_set (cm_consume_predicates c));
        ("publish_to_products", canonical_set (cm_publish_to_products c));
        ("consume_from_products", canonical_set (cm_consume_from_products c));
        ("publish_rules", rules_json (cm_publish_rules c)); ("consume_rules", rules_json (cm_consume_rules c));
        ("expected_revision", JInt (cm_expected_revision c)); ("withdraw_existing", JBool (cm_withdraw_existing c))].

Definition policy_from (scope : RequestScope) (c : PolicyCommand) (current_revision now : Z) : SharingPolicy :=
  MkPolicy (rs_tenant_id scope) (rs_product_id scope) (cm_publish_enabled c) (cm_consume_enabled c) (cm_publish_predicates c)
    (cm_consume_predicates c) (cm_publish_to_products c) (cm_consume_from_products c) (cm_publish_rules c) (cm_consume_rules c)
    (current_revision + 1) (rs_principal_id scope) (Some now).

(** [_invalidate_pending_locked]: assigning to a present key keeps its place *)
Definition invalidate_pending (p : SharingPolicy) (now : Z) (candidates : dict string ShareCandidate) : dict string ShareCandidate :=
  (fun item =>
     (item.1, if of_product (sy_tenant_id p) (sy_product_id p) item.2 && bool_decide (ca_status item.2 = PENDING)
                 && negb (candidate_allowed p item.2)
              then decided item.2 STALE now else item.2)) <$> candidates.

Definition set_policy (st : Store) (p : SharingPolicy) (now : Z) : Store :=
  MkStore (c_aliases st) (<[ (sy_tenant_id p, sy_product_id p) := p ]> (c_policies st)) (invalidate_pending p now (c_candidates st))
    (c_candidate_by_source st) (c_shared_claims st) (c_shared_by_candidate st) (c_shared_by_entity st) (c_entity_revisions st)
    (c_decisions st) (c_idempotency st).

(** The clock is read up to three times. *)
Definition configure_policy (st : Store) (scope : RequestScope) (args : PolicyArgs) (idempotency_key : text_arg) (now now' now'' : Z) :
    merror + (stored * Store) :=
  try! _ := require_role scope SHARING_ADMIN in
  try! c := check_policy_args args in
  try! fp := fingerprint (Some (policy_payload c)) in
  try! operation_key := idem_key scope "customer360.configure_policy" idempotency_key in
  try! replayed := replay (c_idempotency st) operation_key fp in
  match replayed with
  | Some r => inr (r, st)
  | None =>
      let current := policy_of st (rs_tenant_id scope) (rs_product_id scope) in
      try! _ := check (sy_revision current =? cm_expected_revision c) REVISION_CONFLICT in
      let p := policy_from scope c (sy_revision current) now in
      let st' := set_policy st p now' in
      try! st'' := (if cm_withdraw_existing c
                    then withdraw_product st' (rs_tenant_id scope) (rs_product_id scope) "sharing policy withdrew existing contributions" now''
                    else inr st') in
      inr (StoredPolicy p, remember operation_key fp (StoredPolicy p) st'')
  end.

(** The rules of a policy, as [disable_publishing] hands them back *)
Definition given_set (s : gset string) : strings_arg := Strings (Some <$> elements s).
Definition given_rules (rules : list PeerPredicateRule) : option rules_arg :=
  match rules with
  | [] => None
  | _ => Some (Peers ((fun r => (Some r.1, given_set r.2)) <$>
           foldl (fun d r => dset (pp_peer_product_id r) (pp_predicates r) d) [] rules))
  end.

Definition same_policy (p : SharingPolicy) (publish consume : bool) (expected_revision withdraw_existing : pyarg) : PolicyArgs :=
  MkPolicyArgs (ABool publish) (ABool consume) (given_set (sy_publish_predicates p)) (given_set (sy_consume_predicates p))
    (given_set (sy_publish_to_products p)) (given_set (sy_consume_from_products p)) expected_revision withdraw_existing
    (given_rules (sy_publish_rules p)) (given_rules (sy_consume_rules p)).

(** [get_policy] takes the lock on its own: [st0] is the store it saw. *)
Definition disable_publishing (st0 st : Store) (scope : RequestScope) (expected_revision : pyarg) (idempotency_key : text_arg)
    (withdraw_existing : pyarg) (now now' now'' : Z) : merror + (stored * Store) :=
  let current := get_policy st0 scope in
  configure_policy st scope (same_policy current false (sy_consume_enabled current) expected_revision withdraw_existing)
    idempotency_key now now' now''.

Definition disable_consumption (st0 st : Store) (scope : RequestScope) (expected_revision : pyarg) (idempotency_key : text_arg)
    (now now' now'' : Z) : merror + (stored * Store) :=
  let current := get_policy st0 scope in
  configure_policy st scope (same_policy current (sy_publish_enabled current) false expected_revision (ABool false))
    idempotency_key now now' now''.

(** ** Proposals *)

(** The second critical section of [propose_share] *)
Definition propose_commit (st : Store) (scope : RequestScope) (claim : PrivateClaim) (operation_key : IdemKey) (fp : string)
    (new_id : string) (now : Z) : merror + (stored * Store) :=
  try! replayed := replay (c_idempotency st) operation_key fp in
  match replayed with
  | Some r => inr (r, st)
  | None =>
      match c_aliases st !! (rs_tenant_id scope, rs_product_id scope, pc_local_subject_id claim) with
      | None => denied ENTITY_ALIAS_NOT_FOUND
      | Some alias =>
          let p := policy_of st (rs_tenant_id scope) (rs_product_id scope) in
          let audience := publish_audience_for p (pc_predicate claim) in
          try! _ := check (negb (bool_decide (audience = ∅))) POLICY_DENIED in
          let natural_key := (rs_tenant_id scope, rs_product_id scope, pc_claim_id claim, pc_version claim, sy_revision p) in
          match c_candidate_by_source st !! natural_key with
          | Some existing_id =>
              match dget existing_id (c_candidates st) with
              | None => inl (Failure KeyError)
              | Some c => inr (StoredCandidate c, remember operation_key fp (StoredCandidate c) st)
              end
          | None =>
              let c := MkCandidate new_id (rs_tenant_id scope) (ea_entity_id alias) (pc_space claim) (pc_claim_id claim)
                         (pc_version claim) (rs_product_id scope) (pc_source_ref claim) (pc_predicate claim) (pc_value claim)
                         audience (sy_revision p) PENDING (rs_principal_id scope) now None in
              inr (StoredCandidate c, remember operation_key fp (StoredCandidate c)
                (MkStore (c_aliases st) (c_policies st) (dset new_id c (c_candidates st))
                  (<[ natural_key := new_id ]> (c_candidate_by_source st)) (c_shared_claims st) (c_shared_by_candidate st)
                  (c_shared_by_entity st) (c_entity_revisions st) (c_decisions st) (c_idempotency st)))
          end
      end
  end.

(** [st0] and [st] are the stores of the two critical sections; [read] is what
    the profile provider answers in between. *)
Definition propose_share (st0 st : Store) (scope : RequestScope) (source_claim_id idempotency_key : text_arg)
    (read : string -> merror + PrivateClaim) (new_id : string) (now : Z) : merror + (stored * Store) :=
  try! _ := require_role scope SHARE_PROPOSE in
  try! source_claim_id := text source_claim_id in
  try! fp := fingerprint (Some (JObj [("source_claim_id", JStr source_claim_id)])) in
  try! operation_key := idem_key scope "customer360.propose_share" idempotency_key in
  try! replayed := replay (c_idempotency st0) operation_key fp in
  match replayed with
  | Some r => inr (r, st)
  | None =>
      try! claim := read source_claim_id in
      try! _ := check (bool_decide (pc_status claim = ASSERTED)) INVALID_STATE in
      propose_commit st scope claim operation_key fp new_id now
  end.

Definition get_candidate (st : Store) (scope : RequestScope) (candidate_id : text_arg) : merror + ShareCandidate :=
  try! candidate_id := text candidate_id in
  match dget candidate_id (c_candidates st) with
  | None => denied NOT_FOUND
  | Some c =>
      if decide (ca_tenant_id c <> rs_tenant_id scope) then denied NOT_FOUND
      else if negb (has_role scope CURATOR)
              && negb (bool_decide (ca_source_product_id c = rs_product_id scope) && has_role scope SHARE_PROPOSE)
      then denied NOT_FOUND
      else inr c
  end.

(** [sorted(..., key=lambda item: item.proposed_at)] *)
Definition proposed_before (a b : ShareCandidate) : Prop := ca_proposed_at a <= ca_proposed_at b.
#[global] Instance proposed_before_dec : RelDecision proposed_before.
Proof. intros a b. unfold proposed_before. apply _. Defined.

Definition list_candidates (st : Store) (scope : RequestScope) (status : option CandidateStatus) : merror + list ShareCandidate :=
  try! _ := require_any scope [CURATOR; SHARE_PROPOSE] in
  inr (merge_sort proposed_before
    (List.filter (fun c => bool_decide (ca_tenant_id c = rs_tenant_id scope)
       && (has_role scope CURATOR || bool_decide (ca_source_product_id c = rs_product_id scope))
       && match status with None => true | Some s => bool_decide (ca_status c = s) end) (c_candidates st).*2)).

(** ** Curation *)
Definition shared_from (claim_id : string) (space : SpaceRef) (c : ShareCandidate) (now : Z) : SharedClaim :=
  MkShared claim_id space (ca_entity_id c) (ca_predicate c) (ca_value c) (ca_audience c)
    [MkProvenance (ca_source_product_id c) (ca_source_claim_id c) (ca_source_claim_version c) (ca_source_ref c)
       (ca_candidate_id c) (ca_policy_revision c)] SELECTED now None "".

(** The commit of an accepted candidate *)
Definition accept (st : Store) (candidate_id : string) (s : SharedClaim) (revision_key : string * string) : Store :=
  MkStore (c_aliases st) (c_policies st) (c_candidates st) (c_candidate_by_source st)
    (<[ sd_claim_id s := s ]> (c_shared_claims st)) (<[ candidate_id := sd_claim_id s ]> (c_shared_by_candidate st))
    (<[ revision_key := default [] (c_shared_by_entity st !! revision_key) ++ [sd_claim_id s] ]> (c_shared_by_entity st))
    (c_entity_revisions st) (c_decisions st) (c_idempotency st).

Definition record_decision (st : Store) (candidate_id : string) (c : ShareCandidate) (d : CurationDecision) : Store :=
  MkStore (c_aliases st) (c_policies st) (dset candidate_id c (c_candidates st)) (c_candidate_by_source st) (c_shared_claims st)
    (c_shared_by_candidate st) (c_shared_by_entity st)
    (<[ (ca_tenant_id c, ca_entity_id c) := de_new_revision d ]> (c_entity_revisions st)) (c_decisions st ++ [d]) (c_idempotency st).

(** [action] is [None] when it is no [CurationAction]. *)
Definition curate (st : Store) (scope : RequestScope) (candidate_id : text_arg) (action : option CurationAction) (reason : text_arg)
    (expected_revision : pyarg) (idempotency_key : text_arg) (shared_id decision_id : string) (now : Z) : merror + (stored * Store) :=
  try! _ := require_role scope CURATOR in
  try! candidate_id := text candidate_id in
  try! reason := text reason in
  try! expected_revision := revision expected_revision in
  try! action := match action with Some a => inr a | None => denied INVALID_ARGUMENT end in
  try! fp := fingerprint (Some (JObj [("candidate_id", JStr candidate_id); ("action", JStr (action_value action));
                                      ("reason", JStr reason); ("expected_revision", JInt expected_revision)])) in
  try! operation_key := idem_key scope "customer360.curate" idempotency_key in
  try! replayed := replay (c_idempotency st) operation_key fp in
  match replayed, dget candidate_id (c_candidates st) with
  | Some r, _ => inr (r, st)
  | None, None => denied NOT_FOUND
  | None, Some c =>
      try! _ := check (bool_decide (ca_tenant_id c = rs_tenant_id scope)) NOT_FOUND in
      try! _ := check (bool_decide (ca_status c = PENDING)) INVALID_STATE in
      try! _ := check (negb (bool_decide (action = ACCEPT))
                       || candidate_allowed (policy_of st (ca_tenant_id c) (ca_source_product_id c)) c) POLICY_DENIED in
      let current_revision := revision_of st (ca_tenant_id c) (ca_entity_id c) in
      try! _ := check (current_revision =? expected_revision) REVISION_CONFLICT in
      let c' := decided c (match action with ACCEPT => ACCEPTED | REJECT => REJECTED end) now in
      let d := MkDecision decision_id candidate_id action reason (rs_principal_id scope) current_revision (current_revision + 1) now in
      try! s := match action with
                | ACCEPT => try! space := customer360_space (ca_tenant_id c) in inr (Some (shared_from shared_id space c now))
                | REJECT => inr None
                end in
      let st' := match s with Some s => accept st candidate_id s (ca_tenant_id c, ca_entity_id c) | None => st end in
      let r := StoredCuration (MkCuration c' d s (current_revision + 1)) in
      inr (r, remember operation_key fp r (record_decision st' candidate_id c' d))
  end.

(** ** Reading *)

(** [sorted(..., key=lambda item: (item.created_at, item.claim_id))] *)
Definition created_before (a b : SharedClaim) : Prop :=
  sd_created_at a < sd_created_at b \/ (sd_created_at a = sd_created_at b /\ String.le (sd_claim_id a) (sd_claim_id b)).
#[global] Instance created_before_dec : RelDecision created_before.
Proof. intros a b. unfold created_before. apply _. Defined.

Definition visible_to (p : SharingPolicy) (product_id : string) (s : SharedClaim) : bool :=
  bool_decide (sd_status s = SELECTED) && bool_decide (product_id ∈ sd_audience s)
  && existsb (fun pv => can_consume_from p (pv_source_product_id pv) (sd_predicate s)) (sd_provenance s).

Definition collect_visible (st : Store) (p : SharingPolicy) (product_id : string) (acc : list SharedClaim) (claim_id : string) :
    merror + list SharedClaim :=
  match c_shared_claims st !! claim_id with
  | None => inl (Failure KeyError)
  | Some s => inr (if visible_to p product_id s then acc ++ [s] else acc)
  end.

Definition read_shared (st : Store) (scope : RequestScope) (entity_id : text_arg) : merror + list SharedClaim :=
  try! _ := require_role scope SHARED_READ in
  try! entity_id := text entity_id in
  let p := policy_of st (rs_tenant_id scope) (rs_product_id scope) in
  try! _ := check (sy_consume_enabled p) POLICY_DENIED in
  try! visible := efold (collect_visible st p (rs_product_id scope)) []
                    (default [] (c_shared_by_entity st !! (rs_tenant_id scope, entity_id))) in
  inr (merge_sort created_before visible).

Definition entity_revision (st : Store) (scope : RequestScope) (entity_id : text_arg) : merror + Z :=
  try! _ := require_any scope [CURATOR; SHARED_READ] in
  try! entity_id := text entity_id in
  inr (revision_of st (rs_tenant_id scope) entity_id).

Definition list_decisions (st : Store) (scope : RequestScope) : merror + list CurationDecision :=
  try! _ := require_role scope CURATOR in
  let candidate_ids : gset string :=
    list_to_set (ca_candidate_id <$> List.filter (fun c => bool_decide (ca_tenant_id c = rs_tenant_id scope)) (c_candidates st).*2) in
  inr (List.filter (fun d => bool_decide (de_candidate_id d ∈ candidate_ids)) (c_decisions st)).

(** ** Withdrawing a source *)
Definition from_source (scope : RequestScope) (source_claim_id : string) (c : ShareCandidate) : bool :=
  of_product (rs_tenant_id scope) (rs_product_id scope) c && bool_decide (ca_source_claim_id c = source_claim_id).

(** The second critical section *)
Definition withdraw_commit (st : Store) (scope : RequestScope) (source_claim_id reason : string) (operation_key : IdemKey) (fp : string)
    (now : Z) : merror + (stored * Store) :=
  try! replayed := replay (c_idempotency st) operation_key fp in
  match replayed with
  | Some r => inr (r, st)
  | None =>
      try! w := withdraw st (from_source scope source_claim_id) reason now in
      let receipt := StoredReceipt (MkReceipt source_claim_id (w_withdrawn w) (w_retracted w)
                       (bump_entities (c_entity_revisions st) (rs_tenant_id scope) (w_touched w)).2) in
      inr (receipt, remember operation_key fp receipt (withdrawn_store st (rs_tenant_id scope) w))
  end.

Definition withdraw_source (st0 st : Store) (scope : RequestScope) (source_claim_id reason idempotency_key : text_arg)
    (read : string -> merror + PrivateClaim) (now : Z) : merror + (stored * Store) :=
  try! _ := require_role scope SHARE_PROPOSE in
  try! source_claim_id := text source_claim_id in
  try! reason := text reason in
  try! fp := fingerprint (Some (JObj [("source_claim_id", JStr source_claim_id); ("reason", JStr reason)])) in
  try! operation_key := idem_key scope "customer360.withdraw_source" idempotency_key in
  try! replayed := replay (c_idempotency st0) operation_key fp in
  match replayed with
  | Some r => inr (r, st)
  | None =>
      try! _ := read source_claim_id in
      withdraw_commit st scope source_claim_id reason operation_key fp now
  end.
End Provider.
End Customer360.
