(* ===== verification/Customer360Props.v ===== *)
(** * What every history of Customer360 satisfies

    Histories of interleaved operations of arbitrary callers over one provider,
    their invariant, and the sharing boundary: consent, withdrawal, isolation of
    tenants, optimistic concurrency and idempotency. *)
From S2P Require Import Prelude PyText Json ExecModels Scopes Memory Customer360.
Open Scope string_scope.
Open Scope list_scope.
Open Scope Z_scope.

Module Customer360Props.
Import Memory Customer360.

(** ** Dictionaries updated in place *)
Section DictFacts.
Context {V : Type}.

Lemma dset_middle (k : string) (v v0 : V) l1 l2 : k ∉ l1.*1 -> dset k v (l1 ++ (k, v0) :: l2) = l1 ++ (k, v) :: l2.
Proof.
  induction l1 as [|[k1 v1] l1 IH]; simpl; intros Hk.
  - by rewrite decide_True.
  - rewrite decide_False by set_solver. f_equal. apply IH. set_solver.
Qed.

Lemma dset_fst_present (k : string) (v v0 : V) d : dget k d = Some v0 -> (dset k v d).*1 = d.*1.
Proof. intros Hd%dget_elem. rewrite dset_keys, decide_True; [done|]. by apply (list_elem_of_fmap_2 fst) in Hd. Qed.

Lemma dget_fmap (f : string * V -> V) k (d : dict string V) :
  dget k ((fun i => (i.1, f i)) <$> d) = (fun v => f (k, v)) <$> dget k d.
Proof. induction d as [|[k1 v1] d IH]; simpl; [done|]. destruct (decide (k = k1)) as [->|]; done. Qed.

Lemma dset_elem (k k' : string) (v v' : V) d : NoDup d.*1 -> (k', v') ∈ dset k v d <-> (k' = k /\ v' = v) \/ (k' <> k /\ (k', v') ∈ d).
Proof.
  intros Hnd. pose proof (dset_NoDup k v d Hnd) as Hnd'. rewrite <- (dget_Some k' v' _ Hnd'), <- (dget_Some k' v' _ Hnd), dget_dset.
  destruct (decide (k' = k)); naive_solver.
Qed.
End DictFacts.

(** ** Withdrawal loops *)
Section Withdraw.
Context (matches : ShareCandidate -> bool) (by_candidate : gmap string string) (reason : string) (now : Z).

(** The candidates a loop withdraws *)
Definition takes (c : ShareCandidate) : bool := matches c && negb (settled (ca_status c)).
Definition withdrawn_candidate (c : ShareCandidate) : ShareCandidate := if takes c then decided c WITHDRAWN now else c.

(** The loop reaches shared claim [sid] from one of [items]. *)
Definition reaches (items : dict string ShareCandidate) (sid : string) : bool :=
  existsb (fun i => takes i.2 && bool_decide (by_candidate !! i.1 = Some sid)) items.

Definition withdrawn_shared (items : dict string ShareCandidate) (sid : string) (s : SharedClaim) : SharedClaim :=
  if reaches items sid && bool_decide (sd_status s = SELECTED) then shared_retracted s reason now else s.

(** What the loop has done after the candidates [done] *)
Record loop_inv (cs : dict string ShareCandidate) (shared : gmap string SharedClaim) (done : dict string ShareCandidate)
    (w : Withdrawal) : Prop := MkLoopInv {
  li_candidates : exists rest, cs = done ++ rest /\ w_candidates w = ((fun i => (i.1, withdrawn_candidate i.2)) <$> done) ++ rest;
  li_shared : forall sid, w_shared w !! sid = withdrawn_shared done sid <$> shared !! sid;
  li_count : w_withdrawn w = Z.of_nat (length (List.filter (fun i => takes i.2) done));
  li_touched : forall e, e ∈ w_touched w ->
    exists id c sid s, (id, c) ∈ done /\ takes c = true /\ ca_entity_id c = e /\ by_candidate !! id = Some sid /\ shared !! sid = Some s;
}.

Lemma reaches_app done i sid :
  reaches (done ++ [i]) sid = reaches done sid || (takes i.2 && bool_decide (by_candidate !! i.1 = Some sid)).
Proof. unfold reaches. rewrite existsb_app. simpl. by rewrite orb_false_r. Qed.

Lemma withdrawn_skip c : takes c = false -> withdrawn_candidate c = c.
Proof. unfold withdrawn_candidate. by intros ->. Qed.
Lemma withdrawn_take c : takes c = true -> withdrawn_candidate c = decided c WITHDRAWN now.
Proof. unfold withdrawn_candidate. by intros ->. Qed.

(** One more candidate, seen from a shared claim it does not lead to *)
Lemma shared_elsewhere done i sid s : takes i.2 && bool_decide (by_candidate !! i.1 = Some sid) = false ->
  withdrawn_shared (done ++ [i]) sid s = withdrawn_shared done sid s.
Proof. intros Hf. unfold withdrawn_shared. by rewrite reaches_app, Hf, orb_false_r. Qed.

Lemma shared_reached done i sid s : takes i.2 = true -> by_candidate !! i.1 = Some sid ->
  withdrawn_shared (done ++ [i]) sid s = if bool_decide (sd_status s = SELECTED) then shared_retracted s reason now else s.
Proof. intros Ht Hb. unfold withdrawn_shared. by rewrite reaches_app, Ht, bool_decide_eq_true_2, orb_true_r. Qed.

(** Reaching a claim again changes nothing: it is retracted already. *)
Lemma shared_again done i sid s : takes i.2 = true -> by_candidate !! i.1 = Some sid ->
  withdrawn_shared (done ++ [i]) sid s =
    if decide (sd_status (withdrawn_shared done sid s) = SELECTED)
    then shared_retracted (withdrawn_shared done sid s) reason now else withdrawn_shared done sid s.
Proof.
  intros Ht Hb. rewrite (shared_reached _ _ _ _ Ht Hb). unfold withdrawn_shared.
  destruct (reaches done sid), (decide (sd_status s = SELECTED)) as [Hs|Hs]; simpl;
    rewrite ?(bool_decide_eq_true_2 _ Hs), ?(bool_decide_eq_false_2 _ Hs); by repeat case_decide.
Qed.

Lemma loop_skip cs shared done id c rest w : cs = done ++ (id, c) :: rest -> takes c = false ->
  loop_inv cs shared done w -> loop_inv cs shared (done ++ [(id, c)]) w.
Proof.
  intros Hcs Hf [[rest' [Hrest Hc]] Hs Hn Ht].
  assert (rest' = (id, c) :: rest) as -> by (rewrite Hcs in Hrest; by apply app_inv_head in Hrest). split.
  - exists rest. split; [by rewrite Hcs, <- app_assoc|]. rewrite Hc, fmap_app, <- app_assoc. simpl. by rewrite withdrawn_skip.
  - intros sid. rewrite Hs. destruct (shared !! sid) as [s|]; [|done]. simpl. by rewrite shared_elsewhere by (by simpl; rewrite Hf).
  - rewrite Hn, List.filter_app. simpl. by rewrite Hf, app_nil_r.
  - intros e He. destruct (Ht e He) as (id' & c' & sid & s & Hin & Hr). exists id', c', sid, s. split; [set_solver|done].
Qed.

Lemma loop_take cs shared done id c rest w w' : NoDup cs.*1 -> cs = done ++ (id, c) :: rest -> takes c = true ->
  loop_inv cs shared done w ->
  w_candidates w' = dset id (decided c WITHDRAWN now) (w_candidates w) -> w_withdrawn w' = w_withdrawn w + 1 ->
  (forall sid, w_shared w' !! sid = withdrawn_shared (done ++ [(id, c)]) sid <$> shared !! sid) ->
  (forall e, e ∈ w_touched w' -> e ∈ w_touched w \/
     (e = ca_entity_id c /\ exists sid s, by_candidate !! id = Some sid /\ shared !! sid = Some s)) ->
  loop_inv cs shared (done ++ [(id, c)]) w'.
Proof.
  intros Hnd Hcs Htrue [[rest' [Hrest Hc]] Hs Hn Ht] Hc' Hn' Hs' Ht'.
  assert (rest' = (id, c) :: rest) as -> by (rewrite Hcs in Hrest; by apply app_inv_head in Hrest). split; [|done| |].
  - exists rest. split; [by rewrite Hcs, <- app_assoc|]. rewrite Hc', Hc, fmap_app, <- app_assoc. simpl. rewrite withdrawn_take by done.
    apply dset_middle. rewrite <- list_fmap_compose. rewrite Hcs, fmap_app in Hnd. apply NoDup_app in Hnd as (_ & Hd & _).
    intros Hx. apply (Hd id Hx). by left.
  - rewrite Hn', Hn, List.filter_app, length_app. simpl. rewrite Htrue. simpl. lia.
  - intros e [He|(-> & sid & s & Hb & Hsh)]%Ht'.
    + destruct (Ht e He) as (id' & c' & sid & s & Hin & Hr). exists id', c', sid, s. split; [set_solver|done].
    + exists id, c, sid, s. split_and!; [set_solver|done..].
Qed.

Lemma withdraw_round cs shared done i rest w w' : NoDup cs.*1 -> cs = done ++ i :: rest ->
  loop_inv cs shared done w -> withdraw_one matches by_candidate reason now w i = inr w' -> loop_inv cs shared (done ++ [i]) w'.
Proof.
  intros Hnd Hcs Hi Hw. destruct i as [id c]. pose proof (li_shared _ _ _ _ Hi) as Hs.
  unfold withdraw_one in Hw. destruct (negb (matches c) || settled (ca_status c)) eqn:Htk.
  { injection Hw as <-. eapply loop_skip; [done| |done]. unfold takes. by destruct (matches c), (settled (ca_status c)). }
  assert (Htrue : takes c = true) by (unfold takes; by destruct (matches c), (settled (ca_status c))).
  destruct (by_candidate !! id) as [sid0|] eqn:Hby.
  - destruct (w_shared w !! sid0) as [s0|] eqn:Hw0; [|done]. rewrite Hs in Hw0.
    destruct (shared !! sid0) as [s|] eqn:Hsh; [|done]. injection Hw0 as <-.
    assert (Hother : forall sid, sid <> sid0 -> withdrawn_shared done sid <$> shared !! sid =
                                            withdrawn_shared (done ++ [(id, c)]) sid <$> shared !! sid).
    { intros sid Hne. destruct (shared !! sid) as [s1|]; [|done]. simpl.
      by rewrite shared_elsewhere by (simpl; by rewrite Hby, bool_decide_eq_false_2, andb_false_r by congruence). }
    pose proof (shared_again done (id, c) sid0 s Htrue Hby) as Hag.
    destruct (decide (sd_status (withdrawn_shared done sid0 s) = SELECTED)) as [Hsel|Hsel]; injection Hw as <-;
      (eapply loop_take; [done..| |]); simpl.
    + intros sid. destruct (decide (sid = sid0)) as [->|Hne]; [rewrite lookup_insert_eq, Hsh; simpl; by rewrite Hag|].
      rewrite lookup_insert_ne, Hs by done. by apply Hother.
    + intros e [->%elem_of_singleton|He]%elem_of_union; [right; eauto|by left].
    + intros sid. rewrite Hs. destruct (decide (sid = sid0)) as [->|Hne]; [rewrite Hsh; simpl; by rewrite Hag|by apply Hother].
    + by left.
  - injection Hw as <-. eapply loop_take; [done..| |]; simpl; [|by left].
    intros sid. rewrite Hs. destruct (shared !! sid) as [s1|]; [|done]. simpl.
    by rewrite shared_elsewhere by (simpl; by rewrite Hby, bool_decide_eq_false_2, andb_false_r by congruence).
Qed.
End Withdraw.

(** What a whole loop does; it cannot fail where every shared claim is there *)
Lemma loop_start matches by_candidate reason now cs shared : loop_inv matches by_candidate reason now cs shared [] (MkWithdrawal cs shared 0 0 ∅).
Proof. split; simpl; [by exists cs|intros sid; by destruct (shared !! sid)|done|set_solver]. Qed.

Lemma withdraw_spec st matches reason now w : NoDup (c_candidates st).*1 -> withdraw st matches reason now = inr w ->
  loop_inv matches (c_shared_by_candidate st) reason now (c_candidates st) (c_shared_claims st) (c_candidates st) w.
Proof.
  intros Hnd Hw. unfold withdraw in Hw.
  refine (efold_ind (loop_inv matches (c_shared_by_candidate st) reason now (c_candidates st) (c_shared_claims st)) _ _ _ _ _ _ Hw).
  - apply loop_start.
  - intros done i rest a a' Hcs Hi Ha. by eapply withdraw_round.
Qed.

Lemma withdraw_total st matches reason now : NoDup (c_candidates st).*1 ->
  (forall id sid, c_shared_by_candidate st !! id = Some sid -> is_Some (c_shared_claims st !! sid)) ->
  exists w, withdraw st matches reason now = inr w.
Proof.
  intros Hnd Hsh. destruct (withdraw st matches reason now) as [x|w] eqn:Hw; [|by exists w]. exfalso.
  apply efold_inl in Hw as (done & [id c] & rest & w & Hcs & Hpre & Hone).
  assert (Hi : loop_inv matches (c_shared_by_candidate st) reason now (c_candidates st) (c_shared_claims st) done w).
  { refine (efold_ind (loop_inv matches (c_shared_by_candidate st) reason now (c_candidates st) (c_shared_claims st)) _ _ _ _ _ _ Hpre).
    - apply loop_start.
    - intros done' i' rest' a a' -> Hi Ha. eapply withdraw_round; [done|by rewrite Hcs, <- app_assoc|done..]. }
  unfold withdraw_one in Hone. destruct (negb _ || _); [done|]. destruct (c_shared_by_candidate st !! id) as [sid|] eqn:Hby; [|done].
  rewrite (li_shared _ _ _ _ _ _ _ _ Hi sid) in Hone. destruct (Hsh _ _ Hby) as [s Hs]. rewrite Hs in Hone. simpl in Hone. by case_decide.
Qed.

Definition withdrawn_items (matches : ShareCandidate -> bool) (now : Z) (cs : dict string ShareCandidate) : dict string ShareCandidate :=
  (fun i => (i.1, withdrawn_candidate matches now i.2)) <$> cs.

Lemma withdraw_candidates st matches reason now w : NoDup (c_candidates st).*1 -> withdraw st matches reason now = inr w ->
  w_candidates w = withdrawn_items matches now (c_candidates st).
Proof.
  intros Hnd Hw. destruct (li_candidates _ _ _ _ _ _ _ _ (withdraw_spec _ _ _ _ _ Hnd Hw)) as (rest & Hcs & ->).
  assert (rest = []) as ->; [|by rewrite app_nil_r]. by apply (app_inv_head (c_candidates st)); rewrite app_nil_r.
Qed.

(** [bump_entities] only raises revisions, and only of the given entities. *)
Lemma bump_spec tenant_id entity_ids revisions t e :
  let old := default 0 (revisions !! (t, e)) in
  let new := default 0 ((bump_entities revisions tenant_id entity_ids).1 !! (t, e)) in
  new = if decide (t = tenant_id /\ e ∈ entity_ids) then old + 1 else old.
Proof.
  unfold bump_entities. set (l := merge_sort String.le (elements entity_ids)).
  assert (Hl : forall x, x ∈ l <-> x ∈ entity_ids) by (intros x; unfold l; by rewrite merge_sort_Permutation, elem_of_elements).
  assert (Hnd : NoDup l) by (unfold l; rewrite merge_sort_Permutation; apply NoDup_elements).
  cut (forall rest acc, NoDup rest -> default 0 ((foldl (bump_one tenant_id) acc rest).1 !! (t, e)) =
         if decide (t = tenant_id /\ e ∈ rest) then default 0 (acc.1 !! (t, e)) + 1 else default 0 (acc.1 !! (t, e))).
  { intros Hc. cbv zeta. rewrite Hc by done. simpl. by repeat case_decide; rewrite ?Hl in *. }
  clear Hnd Hl. induction rest as [|x rest IH]; intros acc Hr; simpl; [by rewrite decide_False by set_solver|].
  apply NoDup_cons in Hr as [Hx Hr]. rewrite IH by done. simpl.
  destruct (decide ((tenant_id, x) = (t, e))) as [[= -> ->]|Hne].
  - rewrite lookup_insert_eq. simpl. rewrite decide_False by naive_solver. rewrite decide_True by set_solver. done.
  - rewrite lookup_insert_ne by done. by repeat case_decide; set_solver.
Qed.

(** ** Operations *)

(** Who got which result, newest first *)
Abbreviation log := (list (RequestScope * stored)).

Section Histories.
Context `{Hashing} `{StrRepr}.
(** What the profile provider lets a scope read *)
Context (readable : RequestScope -> string -> PrivateClaim -> Prop).

(** A call with its arguments, the identifiers it draws and the clock readings;
    [disable_publishing] and [disable_consumption] are calls of [configure_policy]. *)
Inductive op : Type :=
| OBind (scope : RequestScope) (source subject entity : text_arg) (expected : pyarg) (key : text_arg) (now : Z)
| OConfigure (scope : RequestScope) (args : PolicyArgs) (key : text_arg) (now now' now'' : Z)
| OPropose (st0 : Store) (scope : RequestScope) (claim_id key : text_arg) (read : string -> merror + PrivateClaim) (new_id : string) (now : Z)
| OCurate (scope : RequestScope) (candidate_id : text_arg) (action : option CurationAction) (reason : text_arg) (expected : pyarg)
    (key : text_arg) (shared_id decision_id : string) (now : Z)
| OWithdraw (st0 : Store) (scope : RequestScope) (claim_id reason key : text_arg) (read : string -> merror + PrivateClaim) (now : Z).

Definition op_scope (o : op) : RequestScope :=
  match o with
  | OBind scope _ _ _ _ _ _ | OConfigure scope _ _ _ _ _ | OPropose _ scope _ _ _ _ _
  | OCurate scope _ _ _ _ _ _ _ _ | OWithdraw _ scope _ _ _ _ _ => scope
  end.

Definition exec (o : op) (st : Store) : merror + (stored * Store) :=
  match o with
  | OBind scope source subject entity expected key now => bind_entity_alias st scope source subject entity expected key now
  | OConfigure scope args key now now' now'' => configure_policy st scope args key now now' now''
  | OPropose st0 scope claim_id key read new_id now => propose_share st0 st scope claim_id key read new_id now
  | OCurate scope cid action reason expected key shared_id decision_id now =>
      curate st scope cid action reason expected key shared_id decision_id now
  | OWithdraw st0 scope claim_id reason key read now => withdraw_source st0 st scope claim_id reason key read now
  end.

(** Drawn identifiers are fresh, the profile provider keeps its contract, and an
    earlier critical section saw no records that are not there any more. *)
Definition admissible (st : Store) (o : op) : Prop :=
  match o with
  | OBind _ _ _ _ _ _ _ | OConfigure _ _ _ _ _ _ => True
  | OPropose st0 scope _ _ read new_id _ =>
      c_idempotency st0 ⊆ c_idempotency st /\ new_id ∉ (c_candidates st).*1 /\ forall id c, read id = inr c -> readable scope id c
  | OCurate _ _ _ _ _ _ shared_id _ _ => c_shared_claims st !! shared_id = None
  | OWithdraw st0 _ _ _ _ _ _ => c_idempotency st0 ⊆ c_idempotency st
  end.

Inductive history : log -> Store -> Prop :=
| history_empty : history [] empty_store
| history_step l st o r st' : history l st -> admissible st o -> exec o st = inr (r, st') -> history ((op_scope o, r) :: l) st'.

(** ** What an operation commits, before its result is remembered *)
Definition alias_revision (st : Store) (a : EntityAlias) : Z :=
  match c_aliases st !! (ea_tenant_id a, ea_source_product_id a, ea_local_subject_id a) with Some b => ea_revision b | None => 0 end.

Definition set_alias (st : Store) (a : EntityAlias) : Store :=
  MkStore (<[ (ea_tenant_id a, ea_source_product_id a, ea_local_subject_id a) := a ]> (c_aliases st)) (c_policies st) (c_candidates st)
    (c_candidate_by_source st) (c_shared_claims st) (c_shared_by_candidate st) (c_shared_by_entity st) (c_entity_revisions st)
    (c_decisions st) (c_idempotency st).

Definition candidate_of (scope : RequestScope) (p : SharingPolicy) (a : EntityAlias) (claim : PrivateClaim) (new_id : string) (now : Z) :
    ShareCandidate :=
  MkCandidate new_id (rs_tenant_id scope) (ea_entity_id a) (pc_space claim) (pc_claim_id claim) (pc_version claim)
    (rs_product_id scope) (pc_source_ref claim) (pc_predicate claim) (pc_value claim) (publish_audience_for p (pc_predicate claim))
    (sy_revision p) PENDING (rs_principal_id scope) now None.

Definition source_key (c : ShareCandidate) : string * string * string * Z * Z :=
  (ca_tenant_id c, ca_source_product_id c, ca_source_claim_id c, ca_source_claim_version c, ca_policy_revision c).

Definition add_candidate (st : Store) (c : ShareCandidate) : Store :=
  MkStore (c_aliases st) (c_policies st) (dset (ca_candidate_id c) c (c_candidates st))
    (<[ source_key c := ca_candidate_id c ]> (c_candidate_by_source st)) (c_shared_claims st) (c_shared_by_candidate st)
    (c_shared_by_entity st) (c_entity_revisions st) (c_decisions st) (c_idempotency st).

Inductive commit (scope : RequestScope) (st : Store) : stored -> Store -> Prop :=
| commit_alias a :
    ea_tenant_id a = rs_tenant_id scope -> ea_revision a = alias_revision st a + 1 ->
    commit scope st (StoredAlias a) (set_alias st a)
| commit_policy c now now' now'' st' :
    has_role scope SHARING_ADMIN = true -> sy_revision (get_policy st scope) = cm_expected_revision c ->
    let p := policy_from scope c (sy_revision (get_policy st scope)) now in
    (if cm_withdraw_existing c
     then exists reason, withdraw_product (set_policy st p now') (rs_tenant_id scope) (rs_product_id scope) reason now'' = inr st'
     else st' = set_policy st p now') ->
    commit scope st (StoredPolicy p) st'
| commit_existing id c : dget id (c_candidates st) = Some c -> commit scope st (StoredCandidate c) st
| commit_candidate id claim a new_id now :
    has_role scope SHARE_PROPOSE = true -> readable scope id claim -> pc_status claim = ASSERTED ->
    c_aliases st !! (rs_tenant_id scope, rs_product_id scope, pc_local_subject_id claim) = Some a ->
    publish_audience_for (get_policy st scope) (pc_predicate claim) <> ∅ -> new_id ∉ (c_candidates st).*1 ->
    let c := candidate_of scope (get_policy st scope) a claim new_id now in
    c_candidate_by_source st !! source_key c = None ->
    commit scope st (StoredCandidate c) (add_candidate st c)
| commit_accept id c sid space decision_id reason now :
    has_role scope CURATOR = true -> dget id (c_candidates st) = Some c -> ca_tenant_id c = rs_tenant_id scope -> ca_status c = PENDING ->
    candidate_allowed (policy_of st (ca_tenant_id c) (ca_source_product_id c)) c = true ->
    customer360_space (ca_tenant_id c) = inr space -> c_shared_claims st !! sid = None ->
    let n := revision_of st (ca_tenant_id c) (ca_entity_id c) in
    let d := MkDecision decision_id id ACCEPT reason (rs_principal_id scope) n (n + 1) now in
    let s := shared_from sid space c now in
    commit scope st (StoredCuration (MkCuration (decided c ACCEPTED now) d (Some s) (n + 1)))
      (record_decision (accept st id s (ca_tenant_id c, ca_entity_id c)) id (decided c ACCEPTED now) d)
| commit_reject id c decision_id reason now :
    has_role scope CURATOR = true -> dget id (c_candidates st) = Some c -> ca_tenant_id c = rs_tenant_id scope -> ca_status c = PENDING ->
    let n := revision_of st (ca_tenant_id c) (ca_entity_id c) in
    let d := MkDecision decision_id id REJECT reason (rs_principal_id scope) n (n + 1) now in
    commit scope st (StoredCuration (MkCuration (decided c REJECTED now) d None (n + 1))) (record_decision st id (decided c REJECTED now) d)
| commit_withdraw claim_id reason now w revisions :
    has_role scope SHARE_PROPOSE = true -> withdraw st (from_source scope claim_id) reason now = inr w ->
    commit scope st (StoredReceipt (MkReceipt claim_id (w_withdrawn w) (w_retracted w) revisions)) (withdrawn_store st (rs_tenant_id scope) w).

(** A successful call found its result in the records, or committed. *)
Definition outcome_of (scope : RequestScope) (st : Store) (r : stored) (st' : Store) : Prop :=
  (st' = st /\ exists key fp, c_idempotency st !! key = Some (fp, r)) \/
  exists key fp st1, c_idempotency st !! key = None /\ key.1.1 = (rs_tenant_id scope, rs_product_id scope) /\
    commit scope st r st1 /\ st' = remember key fp r st1.

Lemma replay_inr {R : Type} (records : gmap IdemKey (string * R)) key fp r : replay records key fp = inr r ->
  match r with None => records !! key = None | Some x => records !! key = Some (fp, x) end.
Proof. unfold replay. destruct (records !! key) as [[fp' x]|]; [|by intros [= <-]]. case_decide; [|done]. intros [= <-]. by subst. Qed.

Lemma check_inr c code u : check c code = inr u -> c = true.
Proof. by destruct c. Qed.

Lemma idem_key_inr scope operation k key : idem_key scope operation k = inr key -> key.1.1 = (rs_tenant_id scope, rs_product_id scope).
Proof. unfold idem_key. intros (t & _ & [= <-])%ebind_inr. done. Qed.

Ltac peel :=
  repeat match goal with
  | H : ebind _ _ = inr _ |- _ => apply ebind_inr in H as (? & ? & H)
  | H : require_role _ _ = inr _ |- _ => apply check_inr in H
  | H : require_any _ _ = inr _ |- _ => apply check_inr in H
  | H : check _ _ = inr _ |- _ => apply check_inr in H
  | H : replay _ _ _ = inr ?x |- _ => apply replay_inr in H; destruct x; simplify_eq/=
  | H : idem_key _ _ _ = inr _ |- _ => apply idem_key_inr in H
  | H : inr _ = inr (_, _) |- _ => injection H as <- <-
  end.

Lemma bind_outcome st scope source subject entity expected key now r st' :
  bind_entity_alias st scope source subject entity expected key now = inr (r, st') -> outcome_of scope st r st'.
Proof.
  unfold bind_entity_alias. intros Hx. peel; [left; split; [done|by eexists _, _]|].
  right. eexists _, _, _. split_and!; [done|done| |done].
  apply (commit_alias _ _ (MkAlias (rs_tenant_id scope) _ _ _ _ _ _)); [done|]. unfold alias_revision. simpl.
  by destruct (c_aliases st !! _).
Qed.

Lemma configure_outcome st scope args key now now' now'' r st' :
  configure_policy st scope args key now now' now'' = inr (r, st') -> outcome_of scope st r st'.
Proof.
  unfold configure_policy. intros Hx. peel; [left; split; [done|by eexists _, _]|].
  right. eexists _, _, _. split_and!; [done|done| |done].
  eapply (commit_policy _ _ _ _ now' now''); [done|by apply Z.eqb_eq|].
  match goal with Hc : (if ?b then _ else _) = inr _ |- _ => destruct b; [by eexists|by simplify_eq/=] end.
Qed.

Lemma propose_outcome st0 st scope claim_id key read new_id now r st' :
  c_idempotency st0 ⊆ c_idempotency st -> new_id ∉ (c_candidates st).*1 -> (forall id c, read id = inr c -> readable scope id c) ->
  propose_share st0 st scope claim_id key read new_id now = inr (r, st') -> outcome_of scope st r st'.
Proof.
  unfold propose_share, propose_commit. intros Hsub Hfresh Hread Hx. peel.
  - left. split; [done|]. eexists _, _. by eapply lookup_weaken.
  - left. split; [done|by eexists _, _].
  - match goal with Hs : bool_decide (pc_status _ = _) = true |- _ => apply bool_decide_eq_true in Hs end.
    destruct (c_aliases st !! _) as [a|] eqn:Ha; [|done]. peel.
    match goal with Hn : negb _ = true |- _ => apply negb_true_iff, bool_decide_eq_false in Hn end.
    destruct (c_candidate_by_source st !! _) as [id'|] eqn:Hs.
    + destruct (dget id' (c_candidates st)) as [c|] eqn:Hc; [|done]. peel. right. eexists _, _, _.
      split_and!; [done|done|by eapply commit_existing|done].
    + peel. right. eexists _, _, _. split_and!; [done|done| |done].
      by eapply (commit_candidate _ _ _ _ a new_id now); [|by apply Hread|..].
Qed.

Lemma curate_outcome st scope cid action reason expected key sid did now r st' : c_shared_claims st !! sid = None ->
  curate st scope cid action reason expected key sid did now = inr (r, st') -> outcome_of scope st r st'.
Proof.
  unfold curate. intros Hfresh Hx. peel; [left; split; [done|by eexists _, _]|].
  destruct (dget _ (c_candidates st)) as [c|] eqn:Hc; [|done]. peel.
  repeat match goal with Hb : bool_decide _ = true |- _ => apply bool_decide_eq_true in Hb end.
  match goal with Hn : (_ =? _) = true |- _ => clear Hn end.
  destruct action as [[]|]; simplify_eq/=; peel; simplify_eq/=; right; eexists _, _, _; (split_and!; [done|done| |done]).
  - by apply commit_accept.
  - by apply commit_reject.
Qed.

Lemma withdraw_outcome st0 st scope claim_id reason key read now r st' : c_idempotency st0 ⊆ c_idempotency st ->
  withdraw_source st0 st scope claim_id reason key read now = inr (r, st') -> outcome_of scope st r st'.
Proof.
  unfold withdraw_source, withdraw_commit. intros Hsub Hx. peel.
  - left. split; [done|]. eexists _, _. by eapply lookup_weaken.
  - left. split; [done|by eexists _, _].
  - right. eexists _, _, _. split_and!; [done|done|by eapply commit_withdraw|done].
Qed.

Lemma exec_outcome st o r st' : admissible st o -> exec o st = inr (r, st') -> outcome_of (op_scope o) st r st'.
Proof.
  destruct o; simpl; intros Ha Hx.
  - by eapply bind_outcome.
  - by eapply configure_outcome.
  - destruct Ha as (? & ? & ?). by eapply propose_outcome.
  - by eapply curate_outcome.
  - by eapply withdraw_outcome.
Qed.

(** ** The invariant *)

(** Shared claim [s] is what candidate [c] was accepted as. *)
Record derived (c : ShareCandidate) (sid : string) (s : SharedClaim) : Prop := MkDerived {
  dv_id : sd_claim_id s = sid;
  dv_tenant : sp_tenant_id (sd_space s) = ca_tenant_id c;
  dv_entity : sd_entity_id s = ca_entity_id c;
  dv_predicate : sd_predicate s = ca_predicate c;
  dv_value : sd_value s = ca_value c;
  dv_audience : sd_audience s = ca_audience c;
  dv_provenance : exists version ref n,
    sd_provenance s = [MkProvenance (ca_source_product_id c) (ca_source_claim_id c) version ref (ca_candidate_id c) n];
  dv_status : sd_status s = SELECTED <-> ca_status c = ACCEPTED;
}.

(** The producer's policy the candidate was proposed under *)
Definition permitted (l : log) (c : ShareCandidate) : Prop :=
  exists scope p, (scope, StoredPolicy p) ∈ l /\ rs_tenant_id scope = ca_tenant_id c /\ rs_product_id scope = ca_source_product_id c /\
    has_role scope SHARING_ADMIN = true /\ sy_revision p = ca_policy_revision c /\ ca_audience c = publish_audience_for p (ca_predicate c).

(** The private claim its proposer could read *)
Definition proposed (c : ShareCandidate) : Prop :=
  exists scope id claim, readable scope id claim /\ has_role scope SHARE_PROPOSE = true /\ rs_tenant_id scope = ca_tenant_id c /\
    rs_product_id scope = ca_source_product_id c /\ pc_status claim = ASSERTED /\ pc_claim_id claim = ca_source_claim_id c /\
    pc_predicate claim = ca_predicate c /\ pc_value claim = ca_value c.

Definition consented (l : log) (c : ShareCandidate) : Prop := permitted l c /\ proposed c.

Definition curated (l : log) (tenant_id id : string) : Prop :=
  exists scope r, (scope, StoredCuration r) ∈ l /\ rs_tenant_id scope = tenant_id /\ has_role scope CURATOR = true /\
    de_candidate_id (cu_decision r) = id /\ de_action (cu_decision r) = ACCEPT.

Record inv (l : log) (st : Store) : Prop := MkInv {
  iv_nodup : NoDup (c_candidates st).*1;
  iv_ids : forall id c, (id, c) ∈ c_candidates st -> ca_candidate_id c = id;
  iv_pending : forall id c, (id, c) ∈ c_candidates st -> ca_status c = PENDING ->
    candidate_allowed (policy_of st (ca_tenant_id c) (ca_source_product_id c)) c = true;
  iv_shared : forall id sid, c_shared_by_candidate st !! id = Some sid ->
    exists c s, (id, c) ∈ c_candidates st /\ c_shared_claims st !! sid = Some s /\ derived c sid s /\
      (ca_status c = ACCEPTED \/ ca_status c = WITHDRAWN) /\ curated l (ca_tenant_id c) id;
  iv_origin : forall sid s, c_shared_claims st !! sid = Some s -> exists id, c_shared_by_candidate st !! id = Some sid;
  iv_entities : forall t e sid, sid ∈ default [] (c_shared_by_entity st !! (t, e)) ->
    exists s, c_shared_claims st !! sid = Some s /\ sp_tenant_id (sd_space s) = t /\ sd_entity_id s = e;
  iv_sources : forall k id, c_candidate_by_source st !! k = Some id -> exists c, (id, c) ∈ c_candidates st /\ source_key c = k;
  iv_policies : forall t q p, c_policies st !! (t, q) = Some p -> sy_tenant_id p = t /\ sy_product_id p = q /\
    exists scope, (scope, StoredPolicy p) ∈ l /\ rs_tenant_id scope = t /\ rs_product_id scope = q /\ has_role scope SHARING_ADMIN = true;
  iv_consent : forall id c, (id, c) ∈ c_candidates st -> consented l c;
}.

Lemma consented_mono l e c : consented l c -> consented (e :: l) c.
Proof. intros [(scope & p & Hin & Hr) Hp]. split; [|done]. exists scope, p. split; [by right|done]. Qed.
Lemma curated_mono l e t id : curated l t id -> curated (e :: l) t id.
Proof. intros (scope & r & Hin & Hr). exists scope, r. split; [by right|done]. Qed.

Lemma inv_log l e st : inv l st -> inv (e :: l) st.
Proof.
  intros [Hnd Hids Hpe Hsh Hor Hen Hso Hpo Hco]. split; try done.
  - intros id sid Hid. destruct (Hsh id sid Hid) as (c & s & Hc & Hs & Hd & Hst & Hcu). exists c, s. split_and!; [done..|by apply curated_mono].
  - intros t q p Hp. destruct (Hpo t q p Hp) as (Ht & Hq & scope & Hin & Hr). split_and!; [done..|]. exists scope. split; [by right|done].
  - intros id c Hc. apply consented_mono. by eapply Hco.
Qed.

Lemma inv_remember l key fp r st : inv l st -> inv l (remember key fp r st).
Proof. by intros [Hnd Hids Hpe Hsh Hor Hen Hso Hpo Hco]; split. Qed.

Lemma c360_inv_empty : inv [] empty_store.
Proof.
  split; simpl.
  - constructor.
  - intros id c Hc. by apply not_elem_of_nil in Hc.
  - intros id c Hc. by apply not_elem_of_nil in Hc.
  - intros id sid. by rewrite lookup_empty.
  - intros sid s. by rewrite lookup_empty.
  - intros t e sid. rewrite lookup_empty. simpl. by intros Hx%not_elem_of_nil.
  - intros k id. by rewrite lookup_empty.
  - intros t q p. by rewrite lookup_empty.
  - intros id c Hc. by apply not_elem_of_nil in Hc.
Qed.

Lemma inv_alias l st a : inv l st -> inv l (set_alias st a).
Proof. by intros [Hnd Hids Hpe Hsh Hor Hen Hso Hpo Hco]; split. Qed.

(** *** Candidates changed in place, keeping what they are *)
Definition same_candidate (c c' : ShareCandidate) : Prop :=
  exists status now, c' = c \/ c' = decided c status now.

Section InPlace.
Context (f : ShareCandidate -> ShareCandidate) (Hf : forall c, same_candidate c (f c)).

Lemma same_fields c : ca_candidate_id (f c) = ca_candidate_id c /\ ca_tenant_id (f c) = ca_tenant_id c /\
  ca_source_product_id (f c) = ca_source_product_id c /\ ca_entity_id (f c) = ca_entity_id c /\ ca_audience (f c) = ca_audience c /\
  ca_predicate (f c) = ca_predicate c /\ ca_value (f c) = ca_value c /\ ca_policy_revision (f c) = ca_policy_revision c /\
  ca_source_claim_id (f c) = ca_source_claim_id c /\ source_key (f c) = source_key c.
Proof. destruct (Hf c) as (status & now & [->| ->]); done. Qed.

Lemma same_consented l c : consented l c -> consented l (f c).
Proof. destruct (Hf c) as (status & now & [->| ->]); [done|]. exact id. Qed.

Lemma same_derived c sid s s' : derived c sid s -> (s' = s \/ exists reason now, s' = shared_retracted s reason now) ->
  (sd_status s' = SELECTED <-> ca_status (f c) = ACCEPTED) -> derived (f c) sid s'.
Proof.
  intros [Hi Ht He Hp Hv Ha Hpr Hs] Hs' Hst. destruct (same_fields c) as (Fi & Ft & Fp & Fe & Fa & Fpr & Fv & Fr & Fc & _).
  destruct Hs' as [->|(reason & now & ->)]; split; simpl; try congruence; try done; rewrite ?Fi, ?Fp, ?Fc; done.
Qed.

Lemma in_place_elem (cs : dict string ShareCandidate) id c' : (id, c') ∈ (fun i => (i.1, f i.2)) <$> cs <-> exists c, c' = f c /\ (id, c) ∈ cs.
Proof.
  rewrite list_elem_of_fmap. split.
  - intros ([id0 c] & [= -> ->] & Hin). by exists c.
  - intros (c & -> & Hin). by exists (id, c).
Qed.
End InPlace.

Definition policies_ok (l : log) (st : Store) : Prop :=
  forall t q p, c_policies st !! (t, q) = Some p -> sy_tenant_id p = t /\ sy_product_id p = q /\
    exists scope, (scope, StoredPolicy p) ∈ l /\ rs_tenant_id scope = t /\ rs_product_id scope = q /\ has_role scope SHARING_ADMIN = true.

Lemma inv_in_place l st st' f g : inv l st -> (forall c, same_candidate c (f c)) ->
  (forall sid s, g sid s = s \/ exists reason now, g sid s = shared_retracted s reason now) ->
  c_candidates st' = ((fun i => (i.1, f i.2)) <$> c_candidates st) ->
  (forall sid, c_shared_claims st' !! sid = g sid <$> c_shared_claims st !! sid) ->
  c_candidate_by_source st' = c_candidate_by_source st -> c_shared_by_candidate st' = c_shared_by_candidate st ->
  c_shared_by_entity st' = c_shared_by_entity st ->
  (forall id c, (id, c) ∈ c_candidates st -> ca_status (f c) = PENDING ->
     candidate_allowed (policy_of st' (ca_tenant_id c) (ca_source_product_id c)) c = true) ->
  (forall id c sid s, (id, c) ∈ c_candidates st -> c_shared_by_candidate st !! id = Some sid -> derived c sid s ->
     ca_status c = ACCEPTED \/ ca_status c = WITHDRAWN ->
     (sd_status (g sid s) = SELECTED <-> ca_status (f c) = ACCEPTED) /\ (ca_status (f c) = ACCEPTED \/ ca_status (f c) = WITHDRAWN)) ->
  policies_ok l st' -> inv l st'.
Proof.
  intros [Hnd Hids Hpe Hsh Hor Hen Hso Hpo Hco] Hf Hg Hcs Hsd Hbs Hbc Hbe Hpend Hstat Hpol.
  pose proof (same_fields f Hf) as Hfields.
  assert (Hret : forall sid s, sp_tenant_id (sd_space (g sid s)) = sp_tenant_id (sd_space s) /\ sd_entity_id (g sid s) = sd_entity_id s).
  { intros sid s. destruct (Hg sid s) as [->|(reason & now & ->)]; done. }
  split; rewrite ?Hcs, ?Hbs, ?Hbc, ?Hbe.
  - by rewrite <- list_fmap_compose.
  - intros id c' (c & -> & Hin)%in_place_elem. destruct (Hfields c) as (-> & _). by eapply Hids.
  - intros id c' (c & -> & Hin)%in_place_elem Hp. destruct (Hfields c) as (_ & -> & -> & _ & Ha & Hpr & _).
    unfold candidate_allowed. rewrite Ha, Hpr. by eapply Hpend.
  - intros id sid Hid. destruct (Hsh id sid Hid) as (c & s & Hin & Hs & Hd & Hst & Hcu).
    destruct (Hstat id c sid s Hin Hid Hd Hst) as [Hiff Hst']. exists (f c), (g sid s). split_and!.
    + apply in_place_elem. by exists c.
    + by rewrite Hsd, Hs.
    + by apply (same_derived f Hf c sid s).
    + done.
    + destruct (Hfields c) as (_ & -> & _). done.
  - intros sid s'. rewrite Hsd. destruct (c_shared_claims st !! sid) as [s|] eqn:Hs; [|done]. intros _. by eapply Hor.
  - intros t e sid Hin. destruct (Hen t e sid Hin) as (s & Hs & Ht & He). exists (g sid s). destruct (Hret sid s) as [-> ->].
    by rewrite Hsd, Hs.
  - intros k id Hk. destruct (Hso k id Hk) as (c & Hin & Hkey). exists (f c). split; [apply in_place_elem; by exists c|].
    destruct (Hfields c) as (_ & _ & _ & _ & _ & _ & _ & _ & _ & ->). done.
  - done.
  - intros id c' (c & -> & Hin)%in_place_elem. apply same_consented; [done|]. by eapply Hco.
Qed.

Lemma by_candidate_inj l st id1 id2 sid : inv l st -> c_shared_by_candidate st !! id1 = Some sid -> c_shared_by_candidate st !! id2 = Some sid ->
  id1 = id2.
Proof.
  intros Hi H1 H2. destruct (iv_shared _ _ Hi _ _ H1) as (c1 & s1 & Hc1 & Hs1 & Hd1 & _).
  destruct (iv_shared _ _ Hi _ _ H2) as (c2 & s2 & Hc2 & Hs2 & Hd2 & _). rewrite Hs1 in Hs2. injection Hs2 as ->.
  destruct (dv_provenance _ _ _ Hd1) as (v1 & r1 & n1 & P1), (dv_provenance _ _ _ Hd2) as (v2 & r2 & n2 & P2).
  rewrite P1 in P2. injection P2. intros. by rewrite <- (iv_ids _ _ Hi _ _ Hc1), <- (iv_ids _ _ Hi _ _ Hc2).
Qed.

Lemma candidate_unique l st id c1 c2 : inv l st -> (id, c1) ∈ c_candidates st -> (id, c2) ∈ c_candidates st -> c1 = c2.
Proof.
  intros Hi H1 H2. apply (dget_Some _ _ _ (iv_nodup _ _ Hi)) in H1. apply (dget_Some _ _ _ (iv_nodup _ _ Hi)) in H2. congruence.
Qed.

(** The loop reaches a shared claim exactly through its own candidate. *)
Lemma reaches_own l st matches id c sid : inv l st -> (id, c) ∈ c_candidates st -> c_shared_by_candidate st !! id = Some sid ->
  reaches matches (c_shared_by_candidate st) (c_candidates st) sid = takes matches c.
Proof.
  intros Hi Hin Hid. apply eq_bool_prop_intro. rewrite !Is_true_true. unfold reaches. rewrite existsb_exists. split.
  - intros ([id2 c2] & Hin2%list_elem_of_In & [Ht Hb%bool_decide_eq_true]%andb_true_iff).
    assert (id2 = id) as -> by (by eapply by_candidate_inj). by rewrite (candidate_unique _ _ _ _ _ Hi Hin Hin2).
  - intros Ht. exists (id, c). split; [by apply list_elem_of_In|]. simpl. by rewrite Ht, bool_decide_eq_true_2.
Qed.

Lemma same_withdrawn matches now c : same_candidate c (withdrawn_candidate matches now c).
Proof. unfold withdrawn_candidate. exists WITHDRAWN, now. case_match; [by right|by left]. Qed.

Lemma inv_withdraw l st matches reason now w tenant_id : inv l st -> withdraw st matches reason now = inr w -> inv l (withdrawn_store st tenant_id w).
Proof.
  intros Hi Hw. pose proof (iv_nodup _ _ Hi) as Hnd.
  eapply (inv_in_place l st _ (withdrawn_candidate matches now)
            (withdrawn_shared matches (c_shared_by_candidate st) reason now (c_candidates st))); try done.
  - apply same_withdrawn.
  - intros sid s. unfold withdrawn_shared. case_match; [right; by eexists _, _|by left].
  - simpl. by apply withdraw_candidates in Hw.
  - intros sid. simpl. apply (li_shared _ _ _ _ _ _ _ _ (withdraw_spec _ _ _ _ _ Hnd Hw)).
  - intros id c Hin Hp. apply (iv_pending _ _ Hi id); [done|]. unfold withdrawn_candidate in Hp. by case_match.
  - intros id c sid s Hin Hid Hd Hst. unfold withdrawn_shared, withdrawn_candidate. rewrite (reaches_own l st matches id c sid) by done.
    destruct (takes matches c); simpl; [|split; [apply (dv_status _ _ _ Hd)|done]].
    split; [|by right]. destruct (decide (sd_status s = SELECTED)) as [Hs|Hs].
    + rewrite bool_decide_eq_true_2 by done. done.
    + rewrite bool_decide_eq_false_2 by done. done.
  - exact (iv_policies _ _ Hi).
Qed.

Definition staled (p : SharingPolicy) (now : Z) (c : ShareCandidate) : ShareCandidate :=
  if of_product (sy_tenant_id p) (sy_product_id p) c && bool_decide (ca_status c = PENDING) && negb (candidate_allowed p c)
  then decided c STALE now else c.

Lemma same_staled p now c : same_candidate c (staled p now c).
Proof. unfold staled. exists STALE, now. case_match; [by right|by left]. Qed.

Lemma policy_of_set st p now t q : policy_of (set_policy st p now) t q =
  if decide ((t, q) = (sy_tenant_id p, sy_product_id p)) then p else policy_of st t q.
Proof.
  unfold policy_of. simpl. case_decide as Hd; [rewrite Hd; by rewrite lookup_insert_eq|by rewrite lookup_insert_ne].
Qed.

Lemma inv_set_policy l st scope p now : inv l st -> sy_tenant_id p = rs_tenant_id scope -> sy_product_id p = rs_product_id scope ->
  has_role scope SHARING_ADMIN = true -> inv ((scope, StoredPolicy p) :: l) (set_policy st p now).
Proof.
  intros Hi Ht Hq Hrole. apply (inv_log _ (scope, StoredPolicy p)) in Hi.
  eapply (inv_in_place _ st _ (staled p now) (fun _ s => s)); try done.
  - apply same_staled.
  - by left.
  - intros sid. simpl. by destruct (c_shared_claims st !! sid).
  - intros id c Hin Hp. rewrite policy_of_set. unfold staled in Hp. destruct (decide _) as [[= Hct Hcq]|Hne].
    + unfold of_product in Hp. rewrite (bool_decide_eq_true_2 (ca_tenant_id c = _)), (bool_decide_eq_true_2 (ca_source_product_id c = _)) in Hp by done.
      destruct (candidate_allowed p c); [done|]. rewrite andb_true_l, andb_true_r in Hp. by case_match; simplify_eq/=; case_bool_decide.
    + apply (iv_pending _ _ Hi id); [done|]. by case_match.
  - intros id c sid s Hin Hid Hd Hst. unfold staled.
    rewrite (bool_decide_eq_false_2 (ca_status c = PENDING)) by (by destruct Hst as [->| ->]).
    rewrite andb_false_r. simpl. split; [apply (dv_status _ _ _ Hd)|done].
  - intros t q p0. simpl. intros [[[= <- <-] <-]|[Hne Hp]]%lookup_insert_Some; [|by apply (iv_policies _ _ Hi)].
    split_and!; [done..|]. exists scope. split; [by left|done].
Qed.

Lemma inv_candidate l st scope c : inv l st -> ca_candidate_id c ∉ (c_candidates st).*1 -> ca_status c = PENDING ->
  candidate_allowed (policy_of st (ca_tenant_id c) (ca_source_product_id c)) c = true -> consented l c ->
  inv ((scope, StoredCandidate c) :: l) (add_candidate st c).
Proof.
  intros Hi Hfresh Hst Hal Hcons. apply (inv_log _ (scope, StoredCandidate c)) in Hi. apply (consented_mono _ (scope, StoredCandidate c)) in Hcons.
  destruct Hi as [Hnd Hids Hpe Hsh Hor Hen Hso Hpo Hco].
  assert (Hel : forall id c', (id, c') ∈ dset (ca_candidate_id c) c (c_candidates st) <->
                (id, c') ∈ c_candidates st \/ (id = ca_candidate_id c /\ c' = c)).
  { intros id c'. rewrite (dset_fresh _ _ _ Hfresh). rewrite elem_of_app, list_elem_of_singleton. naive_solver. }
  split; simpl; try done.
  - by apply dset_NoDup.
  - intros id c' [Hin|[-> ->]]%Hel; [by eapply Hids|done].
  - intros id c' [Hin|[-> ->]]%Hel; [by eapply Hpe|done].
  - intros id sid Hid. destruct (Hsh id sid Hid) as (c' & s & Hin & Hr). exists c', s. split; [apply Hel; by left|done].
  - intros k id [[<- <-]|[_ Hk]]%lookup_insert_Some.
    + exists c. split; [apply Hel; by right|done].
    + destruct (Hso k id Hk) as (c' & Hin & Hkey). exists c'. split; [apply Hel; by left|done].
  - intros id c' [Hin|[-> ->]]%Hel; [by eapply Hco|done].
Qed.

Definition decide_one (id : string) (status : CandidateStatus) (now : Z) (c : ShareCandidate) : ShareCandidate :=
  if decide (ca_candidate_id c = id) then decided c status now else c.

Lemma same_decide_one id status now c : same_candidate c (decide_one id status now c).
Proof. unfold decide_one. exists status, now. case_decide; [by right|by left]. Qed.

Lemma dset_decided l st id c status now : inv l st -> dget id (c_candidates st) = Some c ->
  dset id (decided c status now) (c_candidates st) = (fun i => (i.1, decide_one id status now i.2)) <$> c_candidates st.
Proof.
  intros Hi Hc. pose proof (iv_nodup _ _ Hi) as Hnd. pose proof (iv_ids _ _ Hi) as Hids.
  revert Hnd Hids Hc. generalize (c_candidates st). intros d. induction d as [|[k x] d IH]; intros Hnd Hids; simpl; [done|].
  apply NoDup_cons in Hnd as [Hk Hnd]. pose proof (Hids k x (list_elem_of_here _ _)) as Hx.
  assert (Hrest : forall id' c', (id', c') ∈ d -> ca_candidate_id c' = id') by (intros id' c' Hin; apply Hids; by right).
  destruct (decide (id = k)) as [<-|Hne].
  - intros [= ->]. unfold decide_one at 1. rewrite decide_True by done. f_equal. rewrite <- (list_fmap_id d) at 1.
    apply list_fmap_ext. intros i [id' c'] Hin%list_elem_of_lookup_2. simpl. f_equal. unfold decide_one. rewrite decide_False; [done|].
    rewrite (Hrest _ _ Hin). intros ->. apply Hk. by apply (list_elem_of_fmap_2 fst) in Hin.
  - intros Hd. unfold decide_one at 1. rewrite decide_False by (by rewrite Hx). f_equal. by apply IH.
Qed.

Lemma dget_in st l id c : inv l st -> dget id (c_candidates st) = Some c -> (id, c) ∈ c_candidates st /\ ca_candidate_id c = id.
Proof. intros Hi Hc%dget_elem. split; [done|]. by eapply (iv_ids _ _ Hi). Qed.

(** No shared claim leads back to a pending candidate. *)
Lemma pending_unshared l st id c : inv l st -> dget id (c_candidates st) = Some c -> ca_status c = PENDING -> c_shared_by_candidate st !! id = None.
Proof.
  intros Hi Hc Hp. destruct (c_shared_by_candidate st !! id) as [sid|] eqn:Hid; [|done]. exfalso.
  destruct (iv_shared _ _ Hi _ _ Hid) as (c' & s & Hin & _ & _ & Hst & _). apply (dget_Some _ _ _ (iv_nodup _ _ Hi)) in Hin.
  rewrite Hin in Hc. injection Hc as ->. destruct Hst; congruence.
Qed.

Lemma inv_decide l st id c status d : inv l st -> dget id (c_candidates st) = Some c -> ca_status c = PENDING -> status <> PENDING ->
  inv l (record_decision st id (decided c status (de_decided_at d)) d).
Proof.
  intros Hi Hc Hp Hne. pose proof (pending_unshared _ _ _ _ Hi Hc Hp) as Hun.
  eapply (inv_in_place l st _ (decide_one id status (de_decided_at d)) (fun _ s => s)); try done.
  - apply same_decide_one.
  - by left.
  - simpl. by eapply dset_decided.
  - intros sid. simpl. by destruct (c_shared_claims st !! sid).
  - intros id0 c0 Hin Hst. apply (iv_pending _ _ Hi id0); [done|]. unfold decide_one in Hst. by case_decide.
  - intros id0 c0 sid s Hin Hid Hd Hst. unfold decide_one. rewrite decide_False; [split; [apply (dv_status _ _ _ Hd)|done]|].
    rewrite (iv_ids _ _ Hi _ _ Hin). intros ->. congruence.
  - exact (iv_policies _ _ Hi).
Qed.

Lemma inv_accept l st scope id c sid space d : inv l st -> has_role scope CURATOR = true -> dget id (c_candidates st) = Some c ->
  ca_tenant_id c = rs_tenant_id scope -> ca_status c = PENDING -> sp_tenant_id space = ca_tenant_id c -> c_shared_claims st !! sid = None ->
  de_candidate_id d = id -> de_action d = ACCEPT ->
  let now := de_decided_at d in
  let s := shared_from sid space c now in
  let r := MkCuration (decided c ACCEPTED now) d (Some s) (de_new_revision d) in
  inv ((scope, StoredCuration r) :: l)
    (record_decision (accept st id s (ca_tenant_id c, ca_entity_id c)) id (decided c ACCEPTED now) d).
Proof.
  intros Hi Hrole Hc Hten Hp Hsp Hfresh Hdid Hact now s r. apply (inv_log _ (scope, StoredCuration r)) in Hi.
  assert (Hcur : curated ((scope, StoredCuration r) :: l) (ca_tenant_id c) id) by (exists scope, r; split_and!; [by left|done..]).
  pose proof (inv_decide _ _ _ _ ACCEPTED d Hi Hc Hp ltac:(done)) as [Hnd Hids Hpe Hsh Hor Hen Hso Hpo Hco].
  pose proof (pending_unshared _ _ _ _ Hi Hc Hp) as Hun. destruct (dget_in _ _ _ _ Hi Hc) as [Hin Hcid].
  split; try done.
  - simpl in *. intros id0 sid0 [[<- <-]|[Hne Hid]]%lookup_insert_Some.
    + exists (decided c ACCEPTED now), s. split_and!; [|by rewrite lookup_insert_eq|split; try done; by eexists _, _, _|by left|done].
      apply dset_elem; [apply (iv_nodup _ _ Hi)|by left].
    + destruct (Hsh id0 sid0 Hid) as (c0 & s0 & Hc0 & Hs0 & Hr). exists c0, s0. split_and!; try apply Hr; [done|].
      rewrite lookup_insert_ne by congruence. done.
  - simpl in *. intros sid0 s0 [[<- <-]|[Hne Hs0]]%lookup_insert_Some.
    + exists id. by rewrite lookup_insert_eq.
    + destruct (Hor sid0 s0 Hs0) as [id0 Hid0]. exists id0. rewrite lookup_insert_ne by congruence. done.
  - simpl in *. intros t e sid0. destruct (decide ((ca_tenant_id c, ca_entity_id c) = (t, e))) as [[= <- <-]|Hne].
    + rewrite lookup_insert_eq. simpl. intros [Hold| ->%list_elem_of_singleton]%elem_of_app.
      * destruct (Hen _ _ _ Hold) as (s0 & Hs0 & Hr). exists s0. rewrite lookup_insert_ne by congruence. done.
      * exists s. by rewrite lookup_insert_eq.
    + rewrite lookup_insert_ne by done. intros Hold. destruct (Hen _ _ _ Hold) as (s0 & Hs0 & Hr). exists s0.
      rewrite lookup_insert_ne by congruence. done.
Qed.

Lemma policy_found st t q predicate : publish_audience_for (policy_of st t q) predicate <> ∅ -> c_policies st !! (t, q) = Some (policy_of st t q).
Proof. unfold policy_of. by destruct (c_policies st !! (t, q)). Qed.

Lemma customer360_space_tenant t space : customer360_space t = inr space -> sp_tenant_id space = t.
Proof. unfold customer360_space, space_ref. simpl. destruct (is_blank t); [done|]. by intros [= <-]. Qed.

Lemma inv_commit l scope st r st' : inv l st -> commit scope st r st' -> inv ((scope, r) :: l) st'.
Proof.
  intros Hi Hc. destruct Hc as [a Ha Hr|c now now' now'' st' Hrole Hrev p Hst'|id c Hc|id claim a new_id now Hrole Hread Hst Ha Haud Hfresh c Hnat
    |id c sid space did reason now Hrole Hc Hten Hst Hal Hsp Hfresh n d s|id c did reason now Hrole Hc Hten Hst n d|cid reason now w revs Hrole Hw].
  - apply inv_log. by apply inv_alias.
  - pose proof (inv_set_policy l st scope p now' Hi eq_refl eq_refl Hrole) as Hp. destruct (cm_withdraw_existing c); [|by subst].
    destruct Hst' as [reason Hw]. unfold withdraw_product in Hw. apply ebind_inr in Hw as (w & Hw & [= <-]). by eapply inv_withdraw.
  - by apply inv_log.
  - pose proof (policy_found _ _ _ _ Haud) as Hpol. destruct (iv_policies _ _ Hi _ _ _ Hpol) as (_ & _ & sc & Hin & Ht & Hq & Hadm).
    apply inv_candidate; [done..| |].
    + unfold candidate_allowed. simpl. rewrite bool_decide_eq_false_2 by done. simpl. by rewrite bool_decide_eq_true_2.
    + split; [by exists sc, (get_policy st scope)|by exists scope, id, claim].
  - apply (inv_accept l st scope id c sid space d); try done. by apply customer360_space_tenant.
  - apply inv_log. by apply (inv_decide l st id c REJECTED d).
  - apply inv_log. by eapply inv_withdraw.
Qed.

Lemma history_inv l st : history l st -> inv l st.
Proof.
  induction 1 as [|l st o r st' Hh IH Ha Hx]; [apply c360_inv_empty|].
  destruct (exec_outcome _ _ _ _ Ha Hx) as [[-> _]|(key & fp & st1 & _ & _ & Hc & ->)]; [by apply inv_log|].
  apply inv_remember. by eapply inv_commit.
Qed.

(** ** Reading shared data *)
Lemma visible_elem st p q ids cs s : efold (collect_visible st p q) [] ids = inr cs -> s ∈ cs ->
  exists sid, sid ∈ ids /\ c_shared_claims st !! sid = Some s /\ visible_to p q s = true.
Proof.
  intros He. revert s. refine (efold_ind (fun done cs => forall s, s ∈ cs ->
    exists sid, sid ∈ done /\ c_shared_claims st !! sid = Some s /\ visible_to p q s = true) _ _ _ _ _ _ He).
  - intros s Hs. by apply not_elem_of_nil in Hs.
  - intros done sid rest a1 a2 _ IH Ha. unfold collect_visible in Ha. destruct (c_shared_claims st !! sid) as [s0|] eqn:Hs0; [|done].
    injection Ha as <-. intros s Hs. destruct (visible_to p q s0) eqn:Hv.
    + apply elem_of_app in Hs as [Hs| ->%list_elem_of_singleton].
      * destruct (IH s Hs) as (sid' & Hin & Hr). exists sid'. split; [set_solver|done].
      * exists sid. split_and!; [set_solver|done..].
    + destruct (IH s Hs) as (sid' & Hin & Hr). exists sid'. split; [set_solver|done].
Qed.

Lemma read_shared_elem st scope entity cs s : read_shared st scope entity = inr cs -> s ∈ cs ->
  exists e sid, text entity = inr e /\ sid ∈ default [] (c_shared_by_entity st !! (rs_tenant_id scope, e)) /\ c_shared_claims st !! sid = Some s /\
    visible_to (get_policy st scope) (rs_product_id scope) s = true.
Proof.
  unfold read_shared. intros Hr Hs. peel. injection Hr as <-. rewrite merge_sort_Permutation in Hs.
  destruct (visible_elem _ _ _ _ _ _ ltac:(done) Hs) as (sid & Hin & Hr & Hv). by eexists _, sid.
Qed.

Lemma visible_source l st sid s p q : inv l st -> c_shared_claims st !! sid = Some s -> visible_to p q s = true ->
  exists id c, (id, c) ∈ c_candidates st /\ ca_status c = ACCEPTED /\ derived c sid s /\ q ∈ ca_audience c /\
    can_consume_from p (ca_source_product_id c) (ca_predicate c) = true /\ curated l (ca_tenant_id c) id.
Proof.
  intros Hi Hs Hv. destruct (iv_origin _ _ Hi _ _ Hs) as [id Hid]. destruct (iv_shared _ _ Hi _ _ Hid) as (c & s' & Hin & Hs' & Hd & Hst & Hcu).
  rewrite Hs in Hs'. injection Hs' as <-. unfold visible_to in Hv. apply andb_true_iff in Hv as [[Hsel%bool_decide_eq_true Hq%bool_decide_eq_true]%andb_true_iff Hp].
  destruct (dv_provenance _ _ _ Hd) as (v & ref & n & Hpv). rewrite Hpv in Hp. simpl in Hp. rewrite orb_false_r, (dv_predicate _ _ _ Hd) in Hp.
  exists id, c. split_and!; try done; [by apply (dv_status _ _ _ Hd)|by rewrite <- (dv_audience _ _ _ Hd)].
Qed.

(** C33. Nothing is shared without consent on every side: in every history of
    interleaved calls, a claim that [read_shared] returns comes from an accepted
    candidate of the reader's own tenant; a curator of that tenant accepted it;
    the reader's product was in the audience its producer's policy allowed when it
    was proposed, a policy an administrator of the producer had configured; its
    proposer could read the asserted private claim whose value is shared; and the
    reader's current policy consumes this predicate from that producer. *)
Theorem shared_data_is_consented l st scope entity cs s :
  history l st -> read_shared st scope entity = inr cs -> s ∈ cs ->
  exists id c, (id, c) ∈ c_candidates st /\ ca_status c = ACCEPTED /\ derived c (sd_claim_id s) s /\ ca_tenant_id c = rs_tenant_id scope /\
    rs_product_id scope ∈ ca_audience c /\ consented l c /\ curated l (rs_tenant_id scope) id /\
    can_consume_from (get_policy st scope) (ca_source_product_id c) (ca_predicate c) = true.
Proof.
  intros Hi%history_inv Hr Hs. destruct (read_shared_elem _ _ _ _ _ Hr Hs) as (e & sid & _ & Hin & Hsid & Hv).
  destruct (iv_entities _ _ Hi _ _ _ Hin) as (s' & Hs' & Ht & _). rewrite Hsid in Hs'. injection Hs' as <-.
  destruct (visible_source _ _ _ _ _ _ Hi Hsid Hv) as (id & c & Hc & Hst & Hd & Hq & Hcan & Hcu).
  assert (ca_tenant_id c = rs_tenant_id scope) as Hten by (by rewrite <- (dv_tenant _ _ _ Hd)).
  exists id, c. rewrite <- Hten. split_and!; try done; [by rewrite (dv_id _ _ _ Hd)|by apply (iv_consent _ _ Hi id)].
Qed.

(** ** Failures *)

(** The computation raises nothing but memory errors with codes in [P]. *)
Definition documented {A : Type} (P : MemoryErrorCode -> Prop) (m : merror + A) : Prop :=
  forall x, m = inl x -> exists code, x = MemoryCapabilityError code /\ P code.

Lemma documented_ret {A : Type} P (a : A) : documented P (inr a).
Proof. by intros x. Qed.
Lemma documented_denied {A : Type} (P : MemoryErrorCode -> Prop) code : P code -> documented P (denied (A := A) code).
Proof. intros Hp x [= <-]. by eexists. Qed.
Lemma documented_bind {A B : Type} P (m : merror + A) (k : A -> merror + B) :
  documented P m -> (forall a, m = inr a -> documented P (k a)) -> documented P (ebind m k).
Proof. intros Hm Hk x [Hx|(a & Ha & Hx)]%ebind_inl; [by apply Hm|by eapply Hk]. Qed.
Lemma documented_check (P : MemoryErrorCode -> Prop) c code : (c = false -> P code) -> documented P (check c code).
Proof. intros Hp. destruct c; [apply documented_ret|apply documented_denied; by apply Hp]. Qed.
Lemma documented_text (P : MemoryErrorCode -> Prop) a : P INVALID_ARGUMENT -> documented P (text a).
Proof. intros Hp. destruct a as [v|]; simpl; [case_decide; [by apply documented_denied|apply documented_ret]|by apply documented_denied]. Qed.
Lemma documented_efold {A B : Type} P (f : A -> B -> merror + A) l : (forall a b, documented P (f a b)) -> forall a, documented P (efold f a l).
Proof. intros Hf. induction l as [|b l IH]; intros a; simpl; [apply documented_ret|]. apply documented_bind; [apply Hf|auto]. Qed.

Lemma documented_key (P : MemoryErrorCode -> Prop) scope operation k : P INVALID_ARGUMENT -> documented P (idem_key scope operation k).
Proof. intros Hp. apply documented_bind; [by apply documented_text|]. intros a _. apply documented_ret. Qed.
Lemma documented_replay {R : Type} (P : MemoryErrorCode -> Prop) (records : gmap IdemKey (string * R)) key fp :
  P IDEMPOTENCY_CONFLICT -> documented P (replay records key fp).
Proof.
  intros Hp. unfold replay. destruct (records !! key) as [[fp' x]|]; [|apply documented_ret].
  case_decide; [apply documented_ret|by apply documented_denied].
Qed.
Lemma documented_revision (P : MemoryErrorCode -> Prop) v : P INVALID_ARGUMENT -> documented P (revision v).
Proof. intros Hp. destruct v; simpl; try (by apply documented_denied). case_match; [by apply documented_denied|apply documented_ret]. Qed.
Lemma documented_boolean (P : MemoryErrorCode -> Prop) v : P INVALID_ARGUMENT -> documented P (boolean v).
Proof. intros Hp. destruct v; simpl; try (by apply documented_denied). apply documented_ret. Qed.
Lemma documented_strings (P : MemoryErrorCode -> Prop) v : P INVALID_ARGUMENT -> documented P (string_set v).
Proof.
  intros Hp. destruct v; simpl; try (by apply documented_denied). apply documented_efold. intros a b.
  apply documented_bind; [by apply documented_text|]. intros c _. apply documented_ret.
Qed.
Lemma documented_rules (P : MemoryErrorCode -> Prop) rules predicates peers : P INVALID_ARGUMENT -> documented P (exact_rules rules predicates peers).
Proof.
  intros Hp. destruct rules as [[|items]|]; simpl; [by apply documented_denied| |apply documented_ret].
  apply documented_bind; [|intros a _; apply documented_ret]. apply documented_efold. intros a b.
  apply documented_bind; [by apply documented_text|]. intros t _. apply documented_bind; [by apply documented_strings|]. intros ps _.
  apply documented_bind; [by apply documented_check|]. intros u _. apply documented_ret.
Qed.
Lemma documented_flattened (P : MemoryErrorCode -> Prop) rules exact predicates peers : P INVALID_ARGUMENT -> documented P (check_flattened rules exact predicates peers).
Proof. intros Hp. destruct rules; simpl; [by apply documented_check|apply documented_ret]. Qed.

(** Peel one operation: bind after bind, checks by their code *)
Ltac documented :=
  repeat match goal with
  | |- documented _ (ebind _ _) => apply documented_bind; [|intros ? ?]
  | |- documented _ (require_role _ _) => apply documented_check
  | |- documented _ (require_any _ _) => apply documented_check
  | |- documented _ (check _ _) => apply documented_check
  | |- documented _ (fingerprint _) => apply documented_ret
  | |- documented _ (match ?r with Some _ => _ | None => _ end) => destruct r eqn:?
  | |- documented _ (denied _) => apply documented_denied
  | |- documented _ _ => first [apply documented_ret | apply documented_text | apply documented_key | apply documented_replay
      | apply documented_revision | apply documented_boolean | apply documented_strings | apply documented_rules
      | apply documented_flattened]
  end; try done.

Lemma read_shared_documented l st scope entity : inv l st -> documented (fun _ => True) (read_shared st scope entity).
Proof.
  intros Hi. unfold read_shared. documented. intros x He. exfalso. apply efold_inl in He as (done & sid & rest & b & Hids & _ & Hb).
  match goal with Ht : text entity = inr ?e |- _ =>
    assert (Hin : sid ∈ default [] (c_shared_by_entity st !! (rs_tenant_id scope, e))) by (rewrite Hids; set_solver) end.
  destruct (iv_entities _ _ Hi _ _ _ Hin) as (s & Hs & _). unfold collect_visible in Hb. by rewrite Hs in Hb.
Qed.

Lemma withdraw_documented P l st matches reason now : inv l st -> documented P (withdraw st matches reason now).
Proof.
  intros Hi. destruct (withdraw_total st matches reason now (iv_nodup _ _ Hi)) as [w ->]; [|apply documented_ret].
  intros id sid Hid. destruct (iv_shared _ _ Hi _ _ Hid) as (c & s & _ & -> & _). done.
Qed.

(** Any memory error *)
Abbreviation any_code := (fun _ : MemoryErrorCode => True).

Lemma bind_documented st scope source subject entity expected key now :
  documented any_code (bind_entity_alias st scope source subject entity expected key now).
Proof. unfold bind_entity_alias. documented. Qed.

Lemma configure_documented l st scope args key now now' now'' : inv l st -> documented any_code (configure_policy st scope args key now now' now'').
Proof.
  intros Hi. unfold configure_policy, check_policy_args. documented.
  case_match; [|apply documented_ret]. apply documented_bind; [|intros w _; apply documented_ret].
  match goal with Hr : require_role scope _ = inr _ |- _ => apply check_inr in Hr end.
  eapply withdraw_documented. by apply (inv_set_policy l st scope).
Qed.

Lemma propose_documented l st0 st scope claim_id key read new_id now : inv l st -> (forall id, documented any_code (read id)) ->
  documented any_code (propose_share st0 st scope claim_id key read new_id now).
Proof.
  intros Hi Hread. unfold propose_share, propose_commit. documented.
  match goal with Hd : dget ?id _ = None, Hs : c_candidate_by_source st !! _ = Some ?id |- _ =>
    exfalso; destruct (iv_sources _ _ Hi _ _ Hs) as (c & Hin & _); apply (dget_Some _ _ _ (iv_nodup _ _ Hi)) in Hin; congruence end.
Qed.

Lemma curate_documented l st scope cid action reason expected key sid did now : inv l st -> is_blank (rs_tenant_id scope) = false ->
  documented (fun code => code <> POLICY_DENIED) (curate st scope cid action reason expected key sid did now).
Proof.
  intros Hi Hb. unfold curate. documented.
  - match goal with Hc : dget _ _ = Some ?c, Hs : check (bool_decide (ca_status ?c = PENDING)) _ = inr _ |- _ =>
      intros Hf; exfalso; apply check_inr, bool_decide_eq_true in Hs; apply dget_elem in Hc;
      pose proof (iv_pending _ _ Hi _ _ Hc Hs) as Hal; rewrite Hal, orb_true_r in Hf end. done.
  - destruct a3; documented. match goal with Ht : check (bool_decide (ca_tenant_id _ = _)) _ = inr _ |- _ => apply check_inr, bool_decide_eq_true in Ht as Ht' end.
    unfold customer360_space, space_ref. simpl. rewrite Ht', Hb. apply documented_ret.
Qed.

Lemma withdraw_source_documented l st0 st scope claim_id reason key read now : inv l st -> (forall id, documented any_code (read id)) ->
  documented any_code (withdraw_source st0 st scope claim_id reason key read now).
Proof.
  intros Hi Hread. unfold withdraw_source, withdraw_commit. documented. by eapply withdraw_documented.
Qed.

(** Only a profile provider's own failure passes through. *)
Definition reads_documented (o : op) : Prop :=
  match o with
  | OPropose _ _ _ _ read _ _ | OWithdraw _ _ _ _ _ read _ => forall id, documented any_code (read id)
  | _ => True
  end.

Lemma IDENTIFIER_not_blank s : IDENTIFIER s = true -> is_blank s = false.
Proof.
  unfold IDENTIFIER, head_then, is_blank. destruct (chars s) as [|a r] eqn:Hc; [done|]. intros [[Ha _]%andb_true_iff _]%andb_true_iff.
  rewrite string_length_chars, Hc. simpl.
  unfold is_alnum, is_lower, is_upper, is_digit, in_range in *. set (n := code a) in *.
  assert (Hn : (48 <= n <= 122)%Z) by lia.
  replace (((9 <=? n) && (n <=? 13)) || ((28 <=? n) && (n <=? 32)))%Z with false by lia.
  replace (n =? 194) with false by lia. replace (n =? 225) with false by lia. replace (n =? 226) with false by lia.
  replace (n =? 227) with false by lia. simpl. by destruct r as [|? [|? ?]].
Qed.

(** Operations fail as documented: in every reachable store, an operation of a
    valid scope raises nothing but a [MemoryCapabilityError], unless the profile
    provider itself failed: no dangling identifier is ever followed.  Pending
    candidates are always within their producer's current policy, so curation is
    never refused by policy; and reading raises memory errors only. *)
Theorem operations_fail_as_documented l st o x : history l st -> valid_request (op_scope o) -> reads_documented o -> exec o st = inl x ->
  exists code, x = MemoryCapabilityError code /\
    match o with OCurate _ _ _ _ _ _ _ _ _ => code <> POLICY_DENIED | _ => True end.
Proof.
  intros Hi%history_inv Hv Hr. revert x. change (documented (fun code => match o with OCurate _ _ _ _ _ _ _ _ _ => code <> POLICY_DENIED | _ => True end) (exec o st)).
  destruct o; simpl in *.
  - apply bind_documented.
  - by eapply configure_documented.
  - by eapply propose_documented.
  - eapply curate_documented; [done|]. apply IDENTIFIER_not_blank. by apply valid_request_ids in Hv as (_ & _ & ? & _).
  - by eapply withdraw_source_documented.
Qed.

(** ** Withdrawal *)

(** What of a store comes from one source claim of a product *)
Definition sourced (tenant_id product_id claim_id : string) (c : ShareCandidate) : Prop :=
  ca_tenant_id c = tenant_id /\ ca_source_product_id c = product_id /\ ca_source_claim_id c = claim_id.

Lemma from_source_spec scope claim_id c : from_source scope claim_id c = true <-> sourced (rs_tenant_id scope) (rs_product_id scope) claim_id c.
Proof. unfold from_source, of_product, sourced. rewrite !andb_true_iff, !bool_decide_eq_true. tauto. Qed.

Lemma withdrawn_settled matches now c : matches c = true -> settled (ca_status (withdrawn_candidate matches now c)) = true.
Proof. intros Hm. unfold withdrawn_candidate, takes. rewrite Hm. by destruct (settled (ca_status c)) eqn:Hs. Qed.

Lemma withdraw_fresh st0 st scope claim_id reason key read now r st' :
  (forall k, idem_key scope "customer360.withdraw_source" key = inr k -> c_idempotency st0 !! k = None /\ c_idempotency st !! k = None) ->
  withdraw_source st0 st scope claim_id reason key read now = inr (r, st') ->
  exists cid w rs fp k, text claim_id = inr cid /\ text reason = inr rs /\ withdraw st (from_source scope cid) rs now = inr w /\
    r = StoredReceipt (MkReceipt cid (w_withdrawn w) (w_retracted w) (bump_entities (c_entity_revisions st) (rs_tenant_id scope) (w_touched w)).2) /\
    st' = remember k fp r (withdrawn_store st (rs_tenant_id scope) w).
Proof.
  unfold withdraw_source, withdraw_commit. intros Hk Hx.
  apply ebind_inr in Hx as (u & _ & Hx). apply ebind_inr in Hx as (cid & Hcid & Hx). apply ebind_inr in Hx as (rs & Hrs & Hx).
  apply ebind_inr in Hx as (fp & Hfp & Hx). apply ebind_inr in Hx as (k & Hkey & Hx). destruct (Hk k Hkey) as [Hk0 Hk1].
  unfold replay in Hx. rewrite Hk0 in Hx. simpl in Hx. apply ebind_inr in Hx as (c & Hc & Hx). rewrite Hk1 in Hx. simpl in Hx.
  apply ebind_inr in Hx as (w & Hw & [= <- <-]). by exists cid, w, rs, fp, k.
Qed.

(** Withdrawing a source is complete and touches nothing else: after a fresh
    [withdraw_source], no product of the tenant reads a claim that came from the
    withdrawn one, and no candidate of it can be accepted any more; shared claims of
    other sources and other candidates are what they were; the receipt counts the
    candidates that were withdrawn. *)
Theorem withdrawal_is_complete l st0 st scope claim_id reason key read now r st' :
  history l st ->
  (forall k, idem_key scope "customer360.withdraw_source" key = inr k -> c_idempotency st0 !! k = None /\ c_idempotency st !! k = None) ->
  withdraw_source st0 st scope claim_id reason key read now = inr (r, st') ->
  exists cid, text claim_id = inr cid /\
    let from := sourced (rs_tenant_id scope) (rs_product_id scope) cid in
    (forall id c, (id, c) ∈ c_candidates st' -> from c -> settled (ca_status c) = true) /\
    (forall scope' entity cs s pv, rs_tenant_id scope' = rs_tenant_id scope -> read_shared st' scope' entity = inr cs -> s ∈ cs ->
       pv ∈ sd_provenance s -> pv_source_product_id pv = rs_product_id scope -> pv_source_claim_id pv = cid -> False) /\
    (forall id c, (id, c) ∈ c_candidates st -> ~ from c ->
       (id, c) ∈ c_candidates st' /\ forall sid, c_shared_by_candidate st !! id = Some sid -> c_shared_claims st' !! sid = c_shared_claims st !! sid) /\
    exists rec, r = StoredReceipt rec /\
      wr_candidates_withdrawn rec = Z.of_nat (length (List.filter (fun i => from_source scope cid i.2 && negb (settled (ca_status i.2))) (c_candidates st))).
Proof.
  intros Hi%history_inv Hk Hx. destruct (withdraw_fresh _ _ _ _ _ _ _ _ _ _ Hk Hx) as (cid & w & rs & fp & k & Hcid & Hrs & Hw & -> & ->).
  pose proof (withdraw_candidates _ _ _ _ _ (iv_nodup _ _ Hi) Hw) as Hcs. pose proof (withdraw_spec _ _ _ _ _ (iv_nodup _ _ Hi) Hw) as Hspec.
  pose proof (inv_withdraw _ _ _ _ _ _ (rs_tenant_id scope) Hi Hw) as Hi'.
  assert (Hset : forall id c, (id, c) ∈ w_candidates w -> sourced (rs_tenant_id scope) (rs_product_id scope) cid c -> settled (ca_status c) = true).
  { intros id c'. rewrite Hcs. intros (c & -> & Hin)%in_place_elem Hf. apply withdrawn_settled. apply from_source_spec.
    destruct (same_fields _ (same_withdrawn (from_source scope cid) now) c) as (_ & Ft & Fp & _ & _ & _ & _ & _ & Fc & _).
    unfold sourced in Hf. by rewrite Ft, Fp, Fc in Hf. }
  exists cid. split; [done|]. simpl. split_and!; [exact Hset| | |].
  - intros scope' entity cs s pv Ht Hr Hs Hpv Hpp Hpc.
    destruct (read_shared_elem _ _ _ _ _ Hr Hs) as (e & sid & _ & Hin & Hsid & Hv).
    destruct (iv_entities _ _ Hi' _ _ _ Hin) as (s' & Hs' & Hten & _). assert (s' = s) as -> by (simpl in *; congruence).
    destruct (visible_source _ _ _ _ _ _ Hi' Hsid Hv) as (id & c & Hc & Hst & Hd & _).
    destruct (dv_provenance _ _ _ Hd) as (v & ref & n & Hp). rewrite Hp in Hpv. apply list_elem_of_singleton in Hpv as ->.
    assert (settled (ca_status c) = true) as Hx'; [|by rewrite Hst in Hx'].
    apply (Hset id); [done|]. split_and!; [by rewrite <- (dv_tenant _ _ _ Hd), Hten|done|done].
  - intros id c Hin Hf. assert (Ht : takes (from_source scope cid) c = false).
    { unfold takes. destruct (from_source scope cid c) eqn:Hfs; [by apply from_source_spec in Hfs|done]. }
    split; [rewrite Hcs; apply in_place_elem; exists c; by rewrite withdrawn_skip|].
    intros sid Hid. rewrite (li_shared _ _ _ _ _ _ _ _ Hspec). destruct (c_shared_claims st !! sid) as [s|]; [|done]. simpl.
    unfold withdrawn_shared. by rewrite (reaches_own l st _ id c), Ht by done.
  - eexists. split; [done|]. simpl. apply (li_count _ _ _ _ _ _ _ _ Hspec).
Qed.

(** ** Isolation of tenants *)
Definition in_tenant (t : string) (c : ShareCandidate) : bool := bool_decide (ca_tenant_id c = t).
Definition candidates_of (t : string) (st : Store) : dict string ShareCandidate := List.filter (fun i => in_tenant t i.2) (c_candidates st).
Definition tenant_ids (t : string) (st : Store) : gset string :=
  list_to_set (ca_candidate_id <$> List.filter (in_tenant t) (c_candidates st).*2).
Definition decisions_of (t : string) (st : Store) : list CurationDecision :=
  List.filter (fun d => bool_decide (de_candidate_id d ∈ tenant_ids t st)) (c_decisions st).

(** Everything a tenant can see is as before. *)
Record untouched (t : string) (st st' : Store) : Prop := MkUntouched {
  un_aliases : forall q sub, c_aliases st' !! (t, q, sub) = c_aliases st !! (t, q, sub);
  un_policies : forall q, c_policies st' !! (t, q) = c_policies st !! (t, q);
  un_candidates : candidates_of t st' = candidates_of t st;
  un_entities : forall e, c_shared_by_entity st' !! (t, e) = c_shared_by_entity st !! (t, e);
  un_shared : forall e sid, sid ∈ default [] (c_shared_by_entity st !! (t, e)) -> c_shared_claims st' !! sid = c_shared_claims st !! sid;
  un_revisions : forall e, revision_of st' t e = revision_of st t e;
  un_decisions : decisions_of t st' = decisions_of t st;
}.

Lemma untouched_refl t st : untouched t st st.
Proof. by split. Qed.

Lemma untouched_trans t st1 st2 st3 : untouched t st1 st2 -> untouched t st2 st3 -> untouched t st1 st3.
Proof.
  intros [A1 P1 C1 E1 S1 R1 D1] [A2 P2 C2 E2 S2 R2 D2]. split.
  - intros q sub. by rewrite A2.
  - intros q. by rewrite P2.
  - by rewrite C2.
  - intros e. by rewrite E2.
  - intros e sid Hin. rewrite (S2 e) by (by rewrite E1). by apply (S1 e).
  - intros e. by rewrite R2.
  - by rewrite D2.
Qed.

Lemma filter_snd (P Q : ShareCandidate -> bool) (d : dict string ShareCandidate) :
  List.filter (fun c => P c && Q c) d.*2 = List.filter Q (List.filter (fun i => P i.2) d).*2.
Proof.
  induction d as [|[id c] d IH]; simpl; [done|]. destruct (P c); simpl; [|exact IH]. destruct (Q c); [f_equal|]; exact IH.
Qed.

Lemma dget_filter (P : ShareCandidate -> bool) id (d : dict string ShareCandidate) : NoDup d.*1 ->
  dget id (List.filter (fun i => P i.2) d) = match dget id d with Some c => if P c then Some c else None | None => None end.
Proof.
  induction d as [|[k c] d IH]; intros Hnd; simpl; [done|]. apply NoDup_cons in Hnd as [Hk Hnd].
  destruct (P c) eqn:HP; simpl; destruct (decide (id = k)) as [->|Hne]; rewrite ?HP; auto.
  rewrite IH by done. assert (dget k d = None) as ->; [|done]. by apply dget_None.
Qed.

Lemma tenant_ids_of t st : tenant_ids t st = list_to_set (ca_candidate_id <$> (candidates_of t st).*2).
Proof.
  unfold tenant_ids, candidates_of. do 2 f_equal. induction (c_candidates st) as [|[id c] d IH]; simpl; [done|].
  destruct (in_tenant t c); simpl; [f_equal|]; exact IH.
Qed.

(** Changes in place of other tenants' candidates *)
Lemma candidates_elsewhere t f (cs : dict string ShareCandidate) : (forall c, same_candidate c (f c)) -> (forall id c, (id, c) ∈ cs -> ca_tenant_id c = t -> f c = c) ->
  List.filter (fun i => in_tenant t i.2) ((fun i => (i.1, f i.2)) <$> cs) = List.filter (fun i => in_tenant t i.2) cs.
Proof.
  intros Hf Ht. induction cs as [|[id c] cs IH]; simpl; [done|].
  assert (in_tenant t (f c) = in_tenant t c) as -> by (unfold in_tenant; by destruct (same_fields f Hf c) as (_ & -> & _)).
  specialize (IH ltac:(intros id' c' Hin; apply (Ht id'); by right)).
  destruct (in_tenant t c) eqn:Hc; [|exact IH]. apply bool_decide_eq_true in Hc. rewrite (Ht id) by (done || by left). f_equal. exact IH.
Qed.

(** Tables that only changes of candidates and shared claims can leave alone *)
Lemma untouched_in_place t st st' f g : (forall c, same_candidate c (f c)) ->
  (forall id c, (id, c) ∈ c_candidates st -> ca_tenant_id c = t -> f c = c) ->
  c_candidates st' = ((fun i => (i.1, f i.2)) <$> c_candidates st) ->
  (forall sid, c_shared_claims st' !! sid = g sid <$> c_shared_claims st !! sid) ->
  (forall e sid s, sid ∈ default [] (c_shared_by_entity st !! (t, e)) -> c_shared_claims st !! sid = Some s -> g sid s = s) ->
  c_aliases st' = c_aliases st -> (forall q, c_policies st' !! (t, q) = c_policies st !! (t, q)) ->
  c_shared_by_entity st' = c_shared_by_entity st -> (forall e, revision_of st' t e = revision_of st t e) -> c_decisions st' = c_decisions st ->
  untouched t st st'.
Proof.
  intros Hf Ht Hcs Hsd Hg Ha Hp He Hr Hd.
  assert (Hc : candidates_of t st' = candidates_of t st) by (unfold candidates_of; rewrite Hcs; by apply candidates_elsewhere).
  split; rewrite ?Ha, ?He; try done.
  - intros e sid Hin. rewrite Hsd. destruct (c_shared_claims st !! sid) as [s|] eqn:Hs; [|done]. simpl. by rewrite (Hg e).
  - unfold decisions_of. by rewrite !tenant_ids_of, Hc, Hd.
Qed.

Lemma untouched_withdraw l st matches reason now w t' t : inv l st -> withdraw st matches reason now = inr w ->
  (forall c, matches c = true -> ca_tenant_id c = t') -> t <> t' -> untouched t st (withdrawn_store st t' w).
Proof.
  intros Hi Hw Hm Hne. pose proof (iv_nodup _ _ Hi) as Hnd. pose proof (withdraw_spec _ _ _ _ _ Hnd Hw) as Hspec.
  assert (Hskip : forall c, ca_tenant_id c = t -> takes matches c = false).
  { intros c Hc. unfold takes. destruct (matches c) eqn:Hmc; [|done]. exfalso. apply Hne. by rewrite <- (Hm c Hmc). }
  eapply (untouched_in_place t st _ (withdrawn_candidate matches now)
            (withdrawn_shared matches (c_shared_by_candidate st) reason now (c_candidates st))); try done.
  - apply same_withdrawn.
  - intros id c _ Hc. apply withdrawn_skip. by apply Hskip.
  - simpl. by apply withdraw_candidates in Hw.
  - apply (li_shared _ _ _ _ _ _ _ _ Hspec).
  - intros e sid s Hin Hs. destruct (iv_entities _ _ Hi _ _ _ Hin) as (s' & Hs' & Hten & _). rewrite Hs in Hs'. injection Hs' as <-.
    destruct (iv_origin _ _ Hi _ _ Hs) as [id Hid]. destruct (iv_shared _ _ Hi _ _ Hid) as (c & s' & Hc & Hs' & Hd & _).
    rewrite Hs in Hs'. injection Hs' as <-. unfold withdrawn_shared.
    rewrite (reaches_own l st matches id c sid), Hskip; [done|by rewrite <- (dv_tenant _ _ _ Hd)|done..].
  - intros e. unfold revision_of, withdrawn_store. simpl. rewrite bump_spec. rewrite decide_False; [done|]. by intros [? _].
Qed.

Lemma untouched_policy st p now t : sy_tenant_id p <> t -> untouched t st (set_policy st p now).
Proof.
  intros Hne. eapply (untouched_in_place t st _ (staled p now) (fun _ s => s)); try done.
  - apply same_staled.
  - intros id c _ Hc. unfold staled, of_product. by rewrite bool_decide_eq_false_2 by congruence.
  - intros sid. simpl. by destruct (c_shared_claims st !! sid).
  - intros q. simpl. by rewrite lookup_insert_ne by congruence.
Qed.

(** A decision on another tenant's candidate; [c_decisions] grows at its end. *)
Lemma untouched_decision l st id c status d t : inv l st -> dget id (c_candidates st) = Some c -> ca_tenant_id c <> t -> de_candidate_id d = id ->
  untouched t st (record_decision st id (decided c status (de_decided_at d)) d).
Proof.
  intros Hi Hc Hne Hd. destruct (dget_in _ _ _ _ Hi Hc) as [Hin Hcid]. set (st' := record_decision _ _ _ _).
  assert (Hcs : candidates_of t st' = candidates_of t st).
  { unfold candidates_of, st'. simpl. rewrite (dset_decided l st) by done. apply candidates_elsewhere; [apply same_decide_one|].
    intros id0 c0 Hin0 Ht. unfold decide_one. rewrite decide_False; [done|]. rewrite (iv_ids _ _ Hi _ _ Hin0). intros ->.
    apply Hne. by rewrite (candidate_unique _ _ _ _ _ Hi Hin Hin0). }
  split; try done.
  - intros e. unfold revision_of, st'. simpl. by rewrite lookup_insert_ne by congruence.
  - unfold decisions_of, st'. simpl. rewrite List.filter_app, !tenant_ids_of. fold st'. rewrite Hcs. simpl.
    rewrite bool_decide_eq_false_2; [by rewrite app_nil_r|]. rewrite Hd, elem_of_list_to_set, list_elem_of_fmap.
    intros (c0 & Hid0 & Hc0). apply list_elem_of_fmap in Hc0 as ([id1 c1] & -> & Hin1). simpl in *.
    unfold candidates_of in Hin1. apply list_elem_of_In, filter_In in Hin1 as [Hin1%list_elem_of_In Ht%bool_decide_eq_true]. simpl in *.
    pose proof (iv_ids _ _ Hi _ _ Hin1) as Hid1. assert (id1 = id) as -> by congruence.
    apply Hne. by rewrite (candidate_unique _ _ _ _ _ Hi Hin Hin1).
Qed.

Lemma untouched_accept l st id s t t' e : inv l st -> t <> t' -> c_shared_claims st !! sd_claim_id s = None -> untouched t st (accept st id s (t', e)).
Proof.
  intros Hi Hne Hfresh. split; try done.
  - intros e'. simpl. by rewrite lookup_insert_ne by congruence.
  - intros e' sid Hin. simpl. destruct (iv_entities _ _ Hi _ _ _ Hin) as (s' & Hs' & _). by rewrite lookup_insert_ne by congruence.
Qed.

Lemma untouched_commit l scope st r st' t : inv l st -> commit scope st r st' -> rs_tenant_id scope <> t -> untouched t st st'.
Proof.
  intros Hi Hc Hne. destruct Hc as [a Ha Hr|c now now' now'' st' Hrole Hrev p Hst'|id c Hc|id claim a new_id now Hrole Hread Hst Ha Haud Hfresh c Hnat
    |id c sid space did reason now Hrole Hc Hten Hst Hal Hsp Hfresh n d s|id c did reason now Hrole Hc Hten Hst n d|cid reason now w revs Hrole Hw].
  - split; try done. intros q sub. simpl. by rewrite lookup_insert_ne by congruence.
  - pose proof (inv_set_policy l st scope p now' Hi eq_refl eq_refl Hrole) as Hp. pose proof (untouched_policy st p now' t Hne) as Hu.
    destruct (cm_withdraw_existing c); [|by subst]. destruct Hst' as [reason Hw]. unfold withdraw_product in Hw.
    apply ebind_inr in Hw as (w & Hw & [= <-]). eapply untouched_trans; [exact Hu|]. eapply untouched_withdraw; [done..| |done].
    intros c' [Hc' _]%andb_true_iff. by apply bool_decide_eq_true in Hc'.
  - apply untouched_refl.
  - assert (Hcs : candidates_of t (add_candidate st c) = candidates_of t st).
    { unfold candidates_of. simpl. rewrite (dset_fresh _ _ _ Hfresh), List.filter_app. simpl. unfold in_tenant at 2. simpl.
      rewrite bool_decide_eq_false_2 by done. by rewrite app_nil_r. }
    split; try done. unfold decisions_of. by rewrite !tenant_ids_of, Hcs.
  - assert (Hne' : ca_tenant_id c <> t) by congruence.
    eapply untouched_trans; [by apply (untouched_decision l st id c ACCEPTED d)|].
    pose proof (inv_decide _ _ _ _ ACCEPTED d Hi Hc Hst ltac:(done)) as Hi'. by apply (untouched_accept l _ id s t (ca_tenant_id c) (ca_entity_id c) Hi').
  - by apply (untouched_decision l st id c REJECTED d); [..|congruence|].
  - eapply untouched_withdraw; [done..| |done]. intros c [[Hc _]%andb_true_iff _]%andb_true_iff. by apply bool_decide_eq_true in Hc.
Qed.

Lemma same_policy_of t st st' q : untouched t st st' -> policy_of st' t q = policy_of st t q.
Proof. intros Hu. unfold policy_of. by rewrite (un_policies _ _ _ Hu). Qed.

Lemma same_candidate_of t st st' scope id : NoDup (c_candidates st).*1 -> NoDup (c_candidates st').*1 -> rs_tenant_id scope = t ->
  untouched t st st' -> get_candidate st' scope id = get_candidate st scope id.
Proof.
  intros Hnd Hnd' <- Hu. unfold get_candidate. destruct (text id) as [x|cid]; [done|]. simpl.
  pose proof (f_equal (dget cid) (un_candidates _ _ _ Hu)) as Hd. unfold candidates_of in Hd. rewrite !dget_filter in Hd by done.
  unfold in_tenant in Hd.
  destruct (dget cid (c_candidates st')) as [c'|], (dget cid (c_candidates st)) as [c|]; repeat case_bool_decide; simplify_eq; try done;
    repeat (rewrite decide_True by done); done.
Qed.

Lemma same_listing t st st' scope status : rs_tenant_id scope = t -> untouched t st st' -> list_candidates st' scope status = list_candidates st scope status.
Proof.
  intros <- Hu. unfold list_candidates. destruct (require_any scope [CURATOR; SHARE_PROPOSE]) as [|u]; [done|]. simpl. f_equal. f_equal.
  pose proof (un_candidates _ _ _ Hu) as Hc. unfold candidates_of, in_tenant in Hc.
  assert (Hx : forall d : dict string ShareCandidate,
    List.filter (fun c => bool_decide (ca_tenant_id c = rs_tenant_id scope)
      && (has_role scope CURATOR || bool_decide (ca_source_product_id c = rs_product_id scope))
      && match status with None => true | Some s => bool_decide (ca_status c = s) end) d.*2 =
    List.filter (fun c => (has_role scope CURATOR || bool_decide (ca_source_product_id c = rs_product_id scope))
      && match status with None => true | Some s => bool_decide (ca_status c = s) end)
      (List.filter (fun i => bool_decide (ca_tenant_id i.2 = rs_tenant_id scope)) d).*2).
  { intros d. etransitivity; [|apply (filter_snd (in_tenant (rs_tenant_id scope)))].
    apply List.filter_ext. intros c. by rewrite andb_assoc. }
  by rewrite !Hx, Hc.
Qed.

Lemma same_reading t st st' scope entity : rs_tenant_id scope = t -> untouched t st st' -> read_shared st' scope entity = read_shared st scope entity.
Proof.
  intros <- Hu. unfold read_shared. rewrite (same_policy_of _ _ _ _ Hu). destruct (require_role scope SHARED_READ) as [|u]; [done|]. simpl.
  destruct (text entity) as [|e]; [done|]. simpl. destruct (sy_consume_enabled _); [|done]. simpl.
  f_equal. rewrite (un_entities _ _ _ Hu). pose proof (un_shared _ _ _ Hu e) as Hs. revert Hs.
  generalize (@nil SharedClaim). induction (default [] (c_shared_by_entity st !! (rs_tenant_id scope, e))) as [|sid ids IH]; intros acc Hs; [done|].
  simpl. unfold collect_visible at 1 3. rewrite (Hs sid) by (by left). destruct (c_shared_claims st !! sid); [|done]. simpl.
  apply IH. intros sid' Hin. apply Hs. by right.
Qed.

(** Tenants are isolated: whatever an operation of one tenant does, no reader
    of another tenant can tell: its policy, aliases, candidates, listings, shared
    claims, entity revisions and curation decisions are answered as before. *)
Theorem customer360_tenants_are_isolated l st o r st' scope :
  history l st -> admissible st o -> exec o st = inr (r, st') -> rs_tenant_id (op_scope o) <> rs_tenant_id scope ->
  get_policy st' scope = get_policy st scope /\
  (forall subject, resolve_entity_alias st' scope subject = resolve_entity_alias st scope subject) /\
  (forall id, get_candidate st' scope id = get_candidate st scope id) /\
  (forall status, list_candidates st' scope status = list_candidates st scope status) /\
  (forall entity, read_shared st' scope entity = read_shared st scope entity) /\
  (forall entity, entity_revision st' scope entity = entity_revision st scope entity) /\
  list_decisions st' scope = list_decisions st scope.
Proof.
  intros Hh Ha Hx Hne. pose proof (history_inv _ _ Hh) as Hi. pose proof (history_inv _ _ (history_step _ _ _ _ _ Hh Ha Hx)) as Hi'.
  assert (Hu : untouched (rs_tenant_id scope) st st').
  { destruct (exec_outcome _ _ _ _ Ha Hx) as [[-> _]|(key & fp & st1 & _ & _ & Hc & ->)]; [apply untouched_refl|].
    pose proof (untouched_commit _ _ _ _ _ _ Hi Hc Hne) as [A P C E S R D]. by split. }
  split_and!.
  - by apply same_policy_of.
  - intros subject. unfold resolve_entity_alias. destruct (require_role scope PRIVATE_READ) as [|u]; [done|]. simpl.
    destruct (text subject) as [|sub]; [done|]. simpl. by rewrite (un_aliases _ _ _ Hu).
  - intros id. by apply (same_candidate_of (rs_tenant_id scope)); [apply Hi|apply Hi'|..].
  - intros status. by apply (same_listing (rs_tenant_id scope)).
  - intros entity. by apply (same_reading (rs_tenant_id scope)).
  - intros entity. unfold entity_revision. destruct (require_any scope [CURATOR; SHARED_READ]) as [|u]; [done|]. simpl.
    destruct (text entity) as [|e]; [done|]. simpl. by rewrite (un_revisions _ _ _ Hu).
  - unfold list_decisions. destruct (require_role scope CURATOR) as [|u]; [done|]. simpl. f_equal. exact (un_decisions _ _ _ Hu).
Qed.

(** ** Idempotency *)

(** The idempotency key and the fingerprint of a call, if its arguments are valid *)
Definition op_key (o : op) : merror + (IdemKey * string) :=
  match o with
  | OBind scope source subject entity expected key _ =>
      try! _ := require_any scope [ENTITY_ADMIN; CURATOR] in
      try! source := text source in
      try! subject := text subject in
      try! entity := text entity in
      try! expected := revision expected in
      try! fp := fingerprint (Some (JObj [("source_product_id", JStr source); ("local_subject_id", JStr subject);
                                          ("entity_id", JStr entity); ("expected_revision", JInt expected)])) in
      try! k := idem_key scope "customer360.bind_entity_alias" key in inr (k, fp)
  | OConfigure scope args key _ _ _ =>
      try! _ := require_role scope SHARING_ADMIN in
      try! c := check_policy_args args in
      try! fp := fingerprint (Some (policy_payload c)) in
      try! k := idem_key scope "customer360.configure_policy" key in inr (k, fp)
  | OPropose _ scope claim_id key _ _ _ =>
      try! _ := require_role scope SHARE_PROPOSE in
      try! claim_id := text claim_id in
      try! fp := fingerprint (Some (JObj [("source_claim_id", JStr claim_id)])) in
      try! k := idem_key scope "customer360.propose_share" key in inr (k, fp)
  | OCurate scope cid action reason expected key _ _ _ =>
      try! _ := require_role scope CURATOR in
      try! cid := text cid in
      try! reason := text reason in
      try! expected := revision expected in
      try! action := match action with Some a => inr a | None => denied INVALID_ARGUMENT end in
      try! fp := fingerprint (Some (JObj [("candidate_id", JStr cid); ("action", JStr (action_value action));
                                          ("reason", JStr reason); ("expected_revision", JInt expected)])) in
      try! k := idem_key scope "customer360.curate" key in inr (k, fp)
  | OWithdraw _ scope claim_id reason key _ _ =>
      try! _ := require_role scope SHARE_PROPOSE in
      try! claim_id := text claim_id in
      try! reason := text reason in
      try! fp := fingerprint (Some (JObj [("source_claim_id", JStr claim_id); ("reason", JStr reason)])) in
      try! k := idem_key scope "customer360.withdraw_source" key in inr (k, fp)
  end.

(** The store whose records a call looks at first *)
Definition seen (o : op) (st : Store) : Store :=
  match o with OPropose st0 _ _ _ _ _ _ | OWithdraw st0 _ _ _ _ _ _ => st0 | _ => st end.

(** Every operation first looks for its result in the records. *)
Ltac keyed_step :=
  match goal with
  | |- context [ebind ?m _] => lazymatch m with replay _ _ _ => fail | _ => destruct m; simpl end
  | |- context [match ?a with Some _ => inr _ | None => denied _ end] => destruct a; simpl
  end.

Lemma exec_keyed o : exists f, forall st, exec o st =
  try! kf := op_key o in
  try! r := replay (c_idempotency (seen o st)) kf.1 kf.2 in
  match r with Some x => inr (x, st) | None => f kf st end.
Proof.
  destruct o; simpl; unfold bind_entity_alias, configure_policy, propose_share, curate, withdraw_source;
    repeat (keyed_step; [by exists (fun _ _ => denied INVALID_STATE)|]);
    first [by exists (fun _ _ => denied INVALID_STATE) | eexists (fun _ st => _); intros st; simpl; reflexivity].
Qed.

Lemma commit_idempotency scope st r st' : commit scope st r st' -> c_idempotency st' = c_idempotency st.
Proof.
  intros Hc. destruct Hc as [| ? ? ? ? st' ? ? ? Hst| | | | |]; try done. destruct (cm_withdraw_existing _); [|by subst].
  destruct Hst as [reason Hw]. unfold withdraw_product in Hw. by apply ebind_inr in Hw as (w & _ & [= <-]).
Qed.

(** Records are only added. *)
Lemma exec_records st o r st' : admissible st o -> exec o st = inr (r, st') -> c_idempotency st ⊆ c_idempotency st'.
Proof.
  intros Ha Hx. destruct (exec_outcome _ _ _ _ Ha Hx) as [[-> _]|(key & fp & st1 & Hn & _ & Hc & ->)]; [done|].
  simpl. rewrite (commit_idempotency _ _ _ _ Hc). by apply insert_subseteq.
Qed.

Ltac track :=
  match goal with
  | H : ebind (fingerprint _) _ = inr _ |- _ =>
      let E := fresh in apply ebind_inr in H as (? & E & H); simpl in E; injection E as <-
  | H : ebind ?m _ = inr _ |- exists kf, ebind ?m _ = inr kf /\ _ => let E := fresh in apply ebind_inr in H as (? & E & H); rewrite E; simpl
  end.

Lemma exec_recorded st o r st' : admissible st o -> exec o st = inr (r, st') ->
  exists kf, op_key o = inr kf /\ c_idempotency st' !! kf.1 = Some (kf.2, r).
Proof.
  destruct o; simpl; unfold bind_entity_alias, configure_policy, propose_share, propose_commit, curate, withdraw_source, withdraw_commit;
    intros Ha Hx; repeat track; peel; eexists; (split; [reflexivity|]); simpl;
    try first [done | apply lookup_insert_eq | by eapply lookup_weaken | eapply lookup_weaken; [done|by apply Ha]].
  - destruct (c_aliases st !! _) as [a|]; [|done]. peel. destruct (c_candidate_by_source st !! _) as [id|]; [|by peel; apply lookup_insert_eq].
    destruct (dget id (c_candidates st)); [|done]. peel. apply lookup_insert_eq.
  - destruct (dget _ (c_candidates st)) as [c|]; [|done]. peel. apply lookup_insert_eq.
Qed.

(** The same call again, later: other identifiers, readings and answers *)
Definition retry (st : Store) (o : op) (read' : string -> merror + PrivateClaim) (id1 id2 : string) (n1 n2 n3 : Z) : op :=
  match o with
  | OBind scope source subject entity expected key _ => OBind scope source subject entity expected key n1
  | OConfigure scope args key _ _ _ => OConfigure scope args key n1 n2 n3
  | OPropose _ scope claim_id key _ _ _ => OPropose st scope claim_id key read' id1 n1
  | OCurate scope cid action reason expected key _ _ _ => OCurate scope cid action reason expected key id1 id2 n1
  | OWithdraw _ scope claim_id reason key _ _ => OWithdraw st scope claim_id reason key read' n1
  end.

(** Any operations in between, by anyone *)
Definition step (st st' : Store) : Prop := exists o r, admissible st o /\ exec o st = inr (r, st').

Lemma steps_records st st' : rtc step st st' -> c_idempotency st ⊆ c_idempotency st'.
Proof. induction 1 as [|st1 st2 st3 (o & r & Ha & Hx)]; [done|]. etransitivity; [by eapply exec_records|done]. Qed.

(** Retries are idempotent: once a call has succeeded, the same call again,
    however much later, returns the same result and changes nothing, whatever
    identifiers, clock readings and profile answers it would now get; and a call
    that reuses its key for something else (another fingerprint) is refused. *)
Theorem retries_are_idempotent st o r st1 st2 : admissible st o -> exec o st = inr (r, st1) -> rtc step st1 st2 ->
  (forall read' id1 id2 n1 n2 n3, exec (retry st2 o read' id1 id2 n1 n2 n3) st2 = inr (r, st2)) /\
  (forall o2 k fp fp2, op_key o = inr (k, fp) -> op_key o2 = inr (k, fp2) -> fp <> fp2 -> seen o2 st2 = st2 ->
     exec o2 st2 = inl (MemoryCapabilityError IDEMPOTENCY_CONFLICT)).
Proof.
  intros Ha Hx Hs. destruct (exec_recorded _ _ _ _ Ha Hx) as ([k fp] & Hk & Hr).
  assert (Hr2 : c_idempotency st2 !! k = Some (fp, r)) by (eapply lookup_weaken; [exact Hr|by apply steps_records]). split.
  - intros read' id1 id2 n1 n2 n3. destruct (exec_keyed (retry st2 o read' id1 id2 n1 n2 n3)) as [f ->].
    assert (op_key (retry st2 o read' id1 id2 n1 n2 n3) = inr (k, fp)) as -> by (by destruct o).
    assert (seen (retry st2 o read' id1 id2 n1 n2 n3) st2 = st2) as -> by (by destruct o). simpl.
    unfold replay. rewrite Hr2. by rewrite decide_True by done.
  - intros o2 k' fp' fp2 Hk' Hk2 Hne Hseen. rewrite Hk in Hk'. injection Hk' as <- <-. destruct (exec_keyed o2) as [f ->].
    rewrite Hk2, Hseen. simpl. unfold replay. rewrite Hr2. by rewrite decide_False by done.
Qed.

(** ** Revisions *)

(** Candidates stay what they are about, and revisions only grow. *)
Definition extends (st st' : Store) : Prop :=
  (forall id c, (id, c) ∈ c_candidates st -> exists c', (id, c') ∈ c_candidates st' /\ ca_tenant_id c' = ca_tenant_id c /\ ca_entity_id c' = ca_entity_id c) /\
  forall t e, revision_of st t e <= revision_of st' t e.

Lemma store_extends_trans st1 st2 st3 : extends st1 st2 -> extends st2 st3 -> extends st1 st3.
Proof.
  intros [Hc1 Hr1] [Hc2 Hr2]. split.
  - intros id c Hin. destruct (Hc1 id c Hin) as (c1 & Hin1 & Ht1 & He1). destruct (Hc2 id c1 Hin1) as (c2 & Hin2 & Ht2 & He2).
    exists c2. split_and!; [done|by rewrite Ht2|by rewrite He2].
  - intros t e. specialize (Hr1 t e). specialize (Hr2 t e). lia.
Qed.

Lemma extends_in_place st st' f : (forall c, same_candidate c (f c)) -> c_candidates st' = ((fun i => (i.1, f i.2)) <$> c_candidates st) ->
  (forall t e, revision_of st t e <= revision_of st' t e) -> extends st st'.
Proof.
  intros Hf Hcs Hr. split; [|done]. intros id c Hin. exists (f c). destruct (same_fields f Hf c) as (_ & -> & _ & -> & _).
  split; [|done]. rewrite Hcs. apply in_place_elem. by exists c.
Qed.

Lemma extends_withdraw st matches reason now w t : NoDup (c_candidates st).*1 -> withdraw st matches reason now = inr w ->
  extends st (withdrawn_store st t w).
Proof.
  intros Hnd Hw. apply (extends_in_place _ _ (withdrawn_candidate matches now)); [apply same_withdrawn|by apply withdraw_candidates in Hw|].
  intros t' e. unfold revision_of. simpl. rewrite bump_spec. case_decide; lia.
Qed.

(** The decision a commit adds, with the candidate it is about *)
Definition decides (st : Store) (d : CurationDecision) : Prop :=
  exists c, (de_candidate_id d, c) ∈ c_candidates st /\
    de_previous_revision d = revision_of st (ca_tenant_id c) (ca_entity_id c) /\ de_new_revision d = de_previous_revision d + 1.

Lemma extends_decision l st st1 id c status d : inv l st -> dget id (c_candidates st) = Some c -> de_candidate_id d = id ->
  de_previous_revision d = revision_of st (ca_tenant_id c) (ca_entity_id c) -> de_new_revision d = de_previous_revision d + 1 ->
  c_candidates st1 = c_candidates st -> c_entity_revisions st1 = c_entity_revisions st ->
  extends st (record_decision st1 id (decided c status (de_decided_at d)) d) /\ decides st d /\
  de_new_revision d = revision_of (record_decision st1 id (decided c status (de_decided_at d)) d) (ca_tenant_id c) (ca_entity_id c).
Proof.
  intros Hi Hc Hid Hp Hn Hcs Hrev. destruct (dget_in _ _ _ _ Hi Hc) as [Hin _]. split_and!.
  - apply (extends_in_place _ _ (decide_one id status (de_decided_at d))); [apply same_decide_one|simpl; rewrite Hcs; by eapply dset_decided|].
    intros t e. unfold revision_of in *. simpl. rewrite Hrev.
    destruct (decide ((ca_tenant_id c, ca_entity_id c) = (t, e))) as [[= <- <-]|Hne]; [rewrite lookup_insert_eq; simpl; lia|by rewrite lookup_insert_ne].
  - exists c. by rewrite Hid.
  - unfold revision_of. simpl. by rewrite lookup_insert_eq.
Qed.

Lemma commit_extends l scope st r st' : inv l st -> commit scope st r st' ->
  extends st st' /\ (c_decisions st' = c_decisions st \/
    exists d c, c_decisions st' = c_decisions st ++ [d] /\ decides st d /\ (de_candidate_id d, c) ∈ c_candidates st /\
      de_new_revision d = revision_of st' (ca_tenant_id c) (ca_entity_id c)).
Proof.
  intros Hi Hc. pose proof (iv_nodup _ _ Hi) as Hnd.
  destruct Hc as [a Ha Hr|c now now' now'' st' Hrole Hrev p Hst'|id c Hc|id claim a new_id now Hrole Hread Hst Ha Haud Hfresh c Hnat
    |id c sid space did reason now Hrole Hc Hten Hst Hal Hsp Hfresh n d s|id c did reason now Hrole Hc Hten Hst n d|cid reason now w revs Hrole Hw].
  - split; [|by left]. split; [|done]. intros id c Hin. by exists c.
  - assert (He : extends st (set_policy st p now')).
    { apply (extends_in_place _ _ (staled p now')); [apply same_staled|done..]. }
    destruct (cm_withdraw_existing c); [|subst; split; [done|by left]]. destruct Hst' as [reason Hw]. unfold withdraw_product in Hw.
    apply ebind_inr in Hw as (w & Hw & [= <-]). split; [|by left]. eapply store_extends_trans; [exact He|]. eapply extends_withdraw; [|done].
    exact (iv_nodup _ _ (inv_set_policy l st scope p now' Hi eq_refl eq_refl Hrole)).
  - split; [|by left]. split; [|done]. intros id' c' Hin. by exists c'.
  - split; [|by left]. split; [|done]. intros id' c' Hin. exists c'. split; [|done]. simpl. rewrite (dset_fresh _ _ _ Hfresh). set_solver.
  - destruct (extends_decision l st (accept st id s (ca_tenant_id c, ca_entity_id c)) id c ACCEPTED d) as (He & Hd & Hn); try done.
    split; [done|]. right. exists d, c. destruct (dget_in _ _ _ _ Hi Hc). by split_and!.
  - destruct (extends_decision l st st id c REJECTED d) as (He & Hd & Hn); try done.
    split; [done|]. right. exists d, c. destruct (dget_in _ _ _ _ Hi Hc). by split_and!.
  - split; [|by left]. by eapply extends_withdraw.
Qed.

(** Decisions about one entity, in the order they were taken *)
Definition about (st : Store) (t e : string) (d : CurationDecision) : Prop :=
  exists c, (de_candidate_id d, c) ∈ c_candidates st /\ ca_tenant_id c = t /\ ca_entity_id c = e.

Definition serialized (st : Store) : Prop :=
  (forall i d, c_decisions st !! i = Some d -> exists t e, about st t e d) /\
  forall t e j d, c_decisions st !! j = Some d -> about st t e d ->
    de_new_revision d = de_previous_revision d + 1 /\ de_new_revision d <= revision_of st t e /\
    forall i d', (i < j)%nat -> c_decisions st !! i = Some d' -> about st t e d' -> de_new_revision d' <= de_previous_revision d.

Lemma about_back l l' st st' t e d : inv l st -> inv l' st' -> extends st st' -> (exists t e, about st t e d) -> about st' t e d -> about st t e d.
Proof.
  intros Hi Hi' [He _] (t0 & e0 & c & Hin & Ht & Hen) (c' & Hin' & <- & <-). exists c. split; [done|].
  destruct (He _ _ Hin) as (c2 & Hin2 & Ht2 & He2). rewrite (candidate_unique _ _ _ _ _ Hi' Hin' Hin2). done.
Qed.

Lemma about_forward st st' t e d : extends st st' -> about st t e d -> about st' t e d.
Proof. intros [He _] (c & Hin & <- & <-). destruct (He _ _ Hin) as (c' & Hin' & Ht & Hen). by exists c'. Qed.

Lemma serialized_commit l l' scope st r st' : inv l st -> inv l' st' -> commit scope st r st' -> serialized st -> serialized st'.
Proof.
  intros Hi Hi' Hc [Hall Hser]. destruct (commit_extends _ _ _ _ _ Hi Hc) as [He [Hd|(d & c & Hd & (c0 & Hin0 & Hp & Hn) & Hin & Hnew)]]; split; rewrite Hd.
  - intros i d Hi0. destruct (Hall i d Hi0) as (t & e & Ha). exists t, e. by apply (about_forward st).
  - intros t e j d Hj Ha. apply (about_back _ _ _ _ _ _ _ Hi Hi' He (Hall j d Hj)) in Ha. destruct (Hser t e j d Hj Ha) as (H1 & H2 & H3).
    split_and!; [done|etransitivity; [done|apply He]|]. intros i d' Hlt Hi0 Ha'.
    apply (H3 i d' Hlt Hi0). by apply (about_back _ _ _ _ _ _ _ Hi Hi' He (Hall i d' Hi0)).
  - intros i d' [Hold|[_ Hnew']]%lookup_app_Some.
    + destruct (Hall i d' Hold) as (t & e & Ha). exists t, e. by apply (about_forward st).
    + apply list_lookup_singleton_Some in Hnew' as [_ <-]. exists (ca_tenant_id c), (ca_entity_id c). apply (about_forward st); [done|]. by exists c.
  - assert (Hlast : about st (ca_tenant_id c) (ca_entity_id c) d) by (by exists c).
    assert (c0 = c) as -> by exact (candidate_unique _ _ _ _ _ Hi Hin0 Hin).
    intros t e j d' [Hold|[Hge Hj]]%lookup_app_Some Ha.
    + apply (about_back _ _ _ _ _ _ _ Hi Hi' He (Hall j d' Hold)) in Ha. destruct (Hser t e j d' Hold Ha) as (H1 & H2 & H3).
      split_and!; [done|etransitivity; [done|apply He]|]. intros i d2 Hlt Hi0 Ha'.
      rewrite lookup_app_l in Hi0 by (apply lookup_lt_Some in Hold; lia).
      apply (H3 i d2 Hlt Hi0). by apply (about_back _ _ _ _ _ _ _ Hi Hi' He (Hall i d2 Hi0)).
    + apply list_lookup_singleton_Some in Hj as [Hj <-].
      apply (about_back _ _ _ _ _ _ _ Hi Hi' He ltac:(by eexists _, _)) in Ha. destruct Ha as (c1 & Hin1 & <- & <-).
      assert (c1 = c) as -> by exact (candidate_unique _ _ _ _ _ Hi Hin1 Hin). split_and!; [done|by rewrite Hnew|].
      intros i d2 Hlt Hi0 Ha'. rewrite lookup_app_l in Hi0 by lia. rewrite Hp. apply (Hser _ _ i d2 Hi0).
      by apply (about_back _ _ _ _ _ _ _ Hi Hi' He (Hall i d2 Hi0)).
Qed.

(** Curation is optimistically serialized: in every history, the decisions about
    one entity form a chain: each takes the entity from a revision to the next one,
    later decisions start where earlier ones ended or after, and none is beyond the
    entity's current revision.  No two decisions are taken at the same revision. *)
Theorem curations_are_serialized l st t e i j d d' : history l st ->
  c_decisions st !! i = Some d -> c_decisions st !! j = Some d' -> (i < j)%nat -> about st t e d -> about st t e d' ->
  de_new_revision d = de_previous_revision d + 1 /\ de_new_revision d <= de_previous_revision d' /\ de_new_revision d' <= revision_of st t e.
Proof.
  intros Hh Hd Hd' Hlt Ha Ha'. assert (Hser : serialized st).
  { clear - Hh. induction Hh as [|l st o r st' Hh IH Hadm Hx].
    - split; simpl; intros *; by rewrite lookup_nil.
    - pose proof (history_inv _ _ Hh) as Hi. destruct (exec_outcome _ _ _ _ Hadm Hx) as [[-> _]|(key & fp & st1 & _ & _ & Hc & ->)]; [done|].
      pose proof (serialized_commit _ _ _ _ _ _ Hi (inv_commit _ _ _ _ _ Hi Hc) Hc IH) as [H1 H2]. by split. }
  destruct Hser as [_ Hser]. destruct (Hser t e j d' Hd' Ha') as (_ & Hle & Hprev). destruct (Hser t e i d Hd Ha) as (Hn & _ & _).
  split_and!; [done|by eapply Hprev|done].
Qed.
End Histories.

(** ** Playing a script of calls *)

(** A call without the stores, which the player fills in *)
Section Player.
Context `{Hashing} `{StrRepr} (readable : RequestScope -> string -> PrivateClaim -> Prop).

Definition freshb (st : Store) (o : op) : bool :=
  match o with
  | OPropose _ _ _ _ _ new_id _ => bool_decide (new_id ∉ (c_candidates st).*1)
  | OCurate _ _ _ _ _ _ shared_id _ _ => bool_decide (c_shared_claims st !! shared_id = None)
  | _ => true
  end.

(** Calls that fail leave no trace. *)
Definition play_one (acc : log * Store) (call : Store -> op) : log * Store :=
  let '(l, st) := acc in
  let o := call st in
  if freshb st o then match exec o st with inr (r, st') => ((op_scope o, r) :: l, st') | inl _ => (l, st) end else (l, st).

(** Critical sections see the current store; reads keep the contract. *)
Definition playable (o : op) (st : Store) : Prop :=
  match o with
  | OPropose st0 scope _ _ read _ _ => st0 = st /\ forall id c, read id = inr c -> readable scope id c
  | OWithdraw st0 _ _ _ _ _ _ => st0 = st
  | _ => True
  end.

Lemma playable_admissible o st : playable o st -> freshb st o = true -> admissible readable st o.
Proof. destruct o; simpl; intros Hp Hf; try done; [destruct Hp as [-> ?]|by apply bool_decide_eq_true in Hf|by subst]. split_and!; [done|by apply bool_decide_eq_true in Hf|done]. Qed.

Lemma play_history calls l st : Forall (fun call => forall st, playable (call st) st) calls -> history readable l st ->
  history readable (foldl play_one (l, st) calls).1 (foldl play_one (l, st) calls).2.
Proof.
  intros Hc. revert l st. induction Hc as [|call calls Hcall _ IH]; intros l st Hh; [done|]. simpl.
  destruct (freshb st (call st)) eqn:Hf; [|by apply IH]. destruct (exec (call st) st) as [x|[r st']] eqn:Hx; [by apply IH|].
  apply IH. eapply history_step; [done| |done]. by apply playable_admissible.
Qed.
End Player.

(** ** Two products of one tenant *)
#[local] Instance demo_hashing : Hashing := fun s => s.
#[local] Instance demo_repr : StrRepr := fun s => s.

Definition demo_scope (tenant product : string) (roles : gset string) : RequestScope :=
  MkRequestScope (MkScopePath PRODUCT (Some tenant) (Some product) None None) "ann" "web" roles "service" "" "" None.
Definition demo_shop : RequestScope := demo_scope "acme" "shop" {[ PRIVATE_READ; PRIVATE_WRITE; SHARE_PROPOSE; SHARING_ADMIN ]}.
Definition demo_crm : RequestScope := demo_scope "acme" "crm" {[ SHARED_READ; SHARING_ADMIN ]}.
Definition demo_curator : RequestScope := demo_scope "acme" "ops" {[ CURATOR ]}.

(** The private claims of the shop *)
Definition demo_profile : Profile :=
  let put (pf : Profile) (i : string * json) :=
    match assert_claim pf demo_shop (Some "u1") (Some i.1) (Some "order-7") (Some i.2) (Some i.1) ("claim-" ++ i.1)%string 1 with
    | inr (_, pf) => pf | inl _ => pf end in
  foldl put empty_profile [("tier", JStr "gold"); ("city", JStr "Basel")].

Definition demo_readable (scope : RequestScope) (id : string) (c : PrivateClaim) : Prop := get_claim demo_profile scope (Some id) = inr c.

Definition demo_publish : PolicyArgs :=
  MkPolicyArgs (ABool true) (ABool false) (Strings [Some "tier"; Some "city"]) (Strings []) (Strings [Some "crm"]) (Strings [])
    (AInt 0) (ABool false) None None.
Definition demo_consume : PolicyArgs :=
  MkPolicyArgs (ABool false) (ABool true) (Strings []) (Strings [Some "tier"; Some "city"]) (Strings []) (Strings [Some "shop"])
    (AInt 0) (ABool false) None None.

Definition demo_propose (predicate : string) (st : Store) : op :=
  OPropose st demo_shop (Some ("claim-" ++ predicate)%string) (Some predicate) (fun id => get_claim demo_profile demo_shop (Some id))
    ("candidate-" ++ predicate)%string 2.
Definition demo_accept (predicate : string) (n : Z) (st : Store) : op :=
  OCurate demo_curator (Some ("candidate-" ++ predicate)%string) (Some ACCEPT) (Some "verified") (AInt n) (Some predicate)
    ("shared-" ++ predicate)%string ("decision-" ++ predicate)%string (3 + n).

Definition demo_calls : list (Store -> op) :=
  [(fun _ => OBind (demo_scope "acme" "shop" {[ ENTITY_ADMIN ]}) (Some "shop") (Some "u1") (Some "e1") (AInt 0) (Some "bind") 1);
   (fun _ => OConfigure demo_shop demo_publish (Some "policy") 1 1 1);
   (fun _ => OConfigure demo_crm demo_consume (Some "policy") 1 1 1);
   demo_propose "tier"; demo_propose "city"; demo_accept "tier" 0; demo_accept "city" 1].

Definition demo_log : log := (foldl play_one ([], empty_store) demo_calls).1.
Definition demo_store : Store := (foldl play_one ([], empty_store) demo_calls).2.

Lemma demo_history : history demo_readable demo_log demo_store.
Proof. apply play_history; [|apply history_empty]. repeat constructor; by simpl. Qed.

(** What the consumer reads *)
Definition demo_read (st : Store) : list SharedClaim := match read_shared st demo_crm (Some "e1") with inr cs => cs | inl _ => [] end.

Lemma demo_reads : read_shared demo_store demo_crm (Some "e1") = inr (demo_read demo_store).
Proof. vm_cast_no_check (eq_refl (inr (A := merror) (demo_read demo_store))). Qed.

Lemma demo_reads_both : (fun s => (sd_claim_id s, sd_value s)) <$> demo_read demo_store = [("shared-tier", JStr "gold"); ("shared-city", JStr "Basel")].
Proof. vm_cast_no_check (eq_refl [("shared-tier", JStr "gold"); ("shared-city", JStr "Basel")]). Qed.

Definition demo_first : SharedClaim :=
  match demo_read demo_store with s :: _ => s | [] => MkShared "" (MkSpaceRef "" CUSTOMER360_SHARED None) "" "" JNull ∅ [] RETRACTED 0 None "" end.

Lemma demo_first_read : demo_first ∈ demo_read demo_store.
Proof.
  apply (list_elem_of_lookup_2 _ 0). unfold demo_first. destruct (demo_read demo_store) eqn:Hr; [|done].
  pose proof demo_reads_both as Hb. by rewrite Hr in Hb.
Qed.

Lemma shared_data_is_consented_witness : exists id c, (id, c) ∈ c_candidates demo_store /\ ca_status c = ACCEPTED /\
  derived c (sd_claim_id demo_first) demo_first /\ consented demo_readable demo_log c /\ curated demo_log "acme" id.
Proof.
  destruct (shared_data_is_consented demo_readable _ _ _ _ _ _ demo_history demo_reads demo_first_read)
    as (id & c & Hin & Hst & Hd & _ & _ & Hco & Hcu & _).
  exists id, c. by split_and!.
Defined.

(** A second decision at the first one's revision *)
Definition demo_late : op :=
  OCurate demo_curator (Some "candidate-city") (Some REJECT) (Some "stale") (AInt 0) (Some "late") "shared-x" "decision-x" 9.

Lemma operations_fail_as_documented_witness : exists code, exec demo_late demo_store = inl (MemoryCapabilityError code) /\ code <> POLICY_DENIED.
Proof.
  assert (Hx : exec demo_late demo_store = inl (MemoryCapabilityError INVALID_STATE))
    by (vm_cast_no_check (eq_refl (inl (B := stored * Store) (MemoryCapabilityError INVALID_STATE)))).
  destruct (operations_fail_as_documented demo_readable _ _ demo_late _ demo_history ltac:(split; vm_cast_no_check (eq_refl (Ok tt))) I Hx)
    as (code & Hc & Hp).
  exists code. rewrite <- Hc. by split.
Defined.

(** The shop withdraws its first claim. *)
Definition demo_source (id : string) : merror + PrivateClaim := get_claim demo_profile demo_shop (Some id).
Definition demo_withdraw : merror + (stored * Store) :=
  withdraw_source demo_store demo_store demo_shop (Some "claim-tier") (Some "asked to") (Some "withdraw") demo_source 9.
Definition demo_withdraw_result : stored := match demo_withdraw with inr (r, _) => r | inl _ => StoredReceipt (MkReceipt "" 0 0 []) end.
Definition demo_after : Store := match demo_withdraw with inr (_, st) => st | inl _ => empty_store end.

Lemma demo_withdraws : demo_withdraw = inr (demo_withdraw_result, demo_after).
Proof. vm_cast_no_check (eq_refl (inr (A := merror) (demo_withdraw_result, demo_after))). Qed.

Lemma demo_reads_one : read_shared demo_after demo_crm (Some "e1") = inr (demo_read demo_after) /\ sd_claim_id <$> demo_read demo_after = ["shared-city"].
Proof.
  split; [vm_cast_no_check (eq_refl (inr (A := merror) (demo_read demo_after)))|vm_cast_no_check (eq_refl ["shared-city"])].
Qed.

Lemma demo_same_tenant : rs_tenant_id demo_crm = rs_tenant_id demo_shop.
Proof. vm_cast_no_check (eq_refl "acme"). Qed.

Lemma withdrawal_is_complete_witness :
  (forall s pv, s ∈ demo_read demo_after -> pv ∈ sd_provenance s -> pv_source_product_id pv = "shop" -> pv_source_claim_id pv <> "claim-tier") /\
  exists rec, demo_withdraw_result = StoredReceipt rec /\ wr_candidates_withdrawn rec = 1.
Proof.
  assert (Hk : forall k, idem_key demo_shop "customer360.withdraw_source" (Some "withdraw") = inr k ->
                 c_idempotency demo_store !! k = None /\ c_idempotency demo_store !! k = None).
  { intros k [= <-]. split; vm_cast_no_check (@eq_refl (option (string * stored)) None). }
  destruct (withdrawal_is_complete demo_readable _ _ _ _ _ _ _ _ _ _ _ demo_history Hk demo_withdraws)
    as (cid & Hcid & _ & Hread & _ & rec & Hr & Hn).
  assert (cid = "claim-tier") as -> by (by injection Hcid). split.
  - intros s pv Hs Hpv Hq Hc. exact (Hread demo_crm _ _ s pv demo_same_tenant (proj1 demo_reads_one) Hs Hpv Hq Hc).
  - exists rec. split; [done|]. rewrite Hn. vm_cast_no_check (eq_refl 1).
Defined.

(** A reader of another tenant *)
Definition demo_other : RequestScope := demo_scope "globex" "crm" {[ CURATOR; SHARED_READ ]}.

Lemma customer360_tenants_are_isolated_witness :
  read_shared demo_after demo_other (Some "e1") = read_shared demo_store demo_other (Some "e1") /\
  list_decisions demo_after demo_other = list_decisions demo_store demo_other.
Proof.
  destruct (customer360_tenants_are_isolated demo_readable _ _
              (OWithdraw demo_store demo_shop (Some "claim-tier") (Some "asked to") (Some "withdraw") demo_source 9)
              _ _ demo_other demo_history ltac:(by simpl) demo_withdraws ltac:(by vm_compute)) as (_ & _ & _ & _ & Hr & _ & Hd).
  split; [apply Hr|exact Hd].
Defined.

Lemma retries_are_idempotent_witness :
  exec (OWithdraw demo_after demo_shop (Some "claim-tier") (Some "asked to") (Some "withdraw") (fun _ => denied NOT_FOUND) 77) demo_after
    = inr (demo_withdraw_result, demo_after) /\
  exec (OWithdraw demo_after demo_shop (Some "claim-city") (Some "asked to") (Some "withdraw") demo_source 78) demo_after
    = inl (MemoryCapabilityError IDEMPOTENCY_CONFLICT).
Proof.
  destruct (retries_are_idempotent demo_readable _
              (OWithdraw demo_store demo_shop (Some "claim-tier") (Some "asked to") (Some "withdraw") demo_source 9)
              _ _ _ ltac:(by simpl) demo_withdraws (rtc_refl _ _)) as [Hsame Hother].
  split; [by apply (Hsame (fun _ => denied NOT_FOUND) "" "" 77 0 0)|].
  by eapply (Hother (OWithdraw demo_after demo_shop (Some "claim-city") (Some "asked to") (Some "withdraw") demo_source 78)).
Defined.

Definition demo_decision (n : nat) : CurationDecision :=
  default (MkDecision "" "" REJECT "" "" 0 0 0) (c_decisions demo_store !! n).

Lemma demo_decision_elem n : (n < 2)%nat -> c_decisions demo_store !! n = Some (demo_decision n) /\ about demo_store "acme" "e1" (demo_decision n).
Proof.
  intros Hn. assert (n = 0%nat \/ n = 1%nat) as [-> | ->] by lia; split.
  - vm_cast_no_check (eq_refl (Some (demo_decision 0))).
  - destruct (dget "candidate-tier" (c_candidates demo_store)) as [c|] eqn:Hc; [|by vm_compute in Hc].
    exists c. split; [by apply dget_elem|]. by vm_compute in Hc; simplify_eq.
  - vm_cast_no_check (eq_refl (Some (demo_decision 1))).
  - destruct (dget "candidate-city" (c_candidates demo_store)) as [c|] eqn:Hc; [|by vm_compute in Hc].
    exists c. split; [by apply dget_elem|]. by vm_compute in Hc; simplify_eq.
Qed.

Lemma curations_are_serialized_witness :
  de_new_revision (demo_decision 0) <= de_previous_revision (demo_decision 1) /\ de_new_revision (demo_decision 1) <= revision_of demo_store "acme" "e1".
Proof.
  destruct (demo_decision_elem 0 ltac:(lia)) as [H0 A0]. destruct (demo_decision_elem 1 ltac:(lia)) as [H1 A1].
  destruct (curations_are_serialized demo_readable _ _ _ _ _ _ _ _ demo_history H0 H1 ltac:(lia) A0 A1) as (_ & Hle & Hr).
  by split.
Defined.

(** ** Two peers that only differ in white space

    [_peer_rules] strips the peers it is given, so a policy may hold two rules of
    one peer; [disable_publishing] hands the rules back as a dict, which keeps the
    last one only, and [configure_policy] refuses what no longer matches. *)
Definition demo_doubled : PolicyArgs :=
  MkPolicyArgs (ABool true) (ABool false) (Strings [Some "tier"; Some "city"]) (Strings []) (Strings [Some "crm"]) (Strings [])
    (AInt 0) (ABool false) (Some (Peers [(Some "crm", Strings [Some "tier"]); (Some " crm", Strings [Some "city"])])) None.

Definition demo_doubled_store : option Store :=
  match configure_policy empty_store demo_shop demo_doubled (Some "policy") 1 1 1 with inr (_, st) => Some st | inl _ => None end.

Definition demo_disable (st : Store) : merror + (stored * Store) :=
  disable_publishing st st demo_shop (AInt 1) (Some "stop") (ABool false) 2 2 2.

Lemma doubled_peers_cannot_be_disabled :
  (fun st => (sy_publish_enabled (get_policy st demo_shop), demo_disable st)) <$> demo_doubled_store
    = Some (true, denied INVALID_ARGUMENT).
Proof. vm_cast_no_check (eq_refl (Some (true, denied (A := stored * Store) INVALID_ARGUMENT))). Qed.
End Customer360Props.
