(* ===== verification/AgentTasks.v ===== *)
(** * Delegated tasks ([multiagent/tasks.py], [multiagent/sqlite.py])

    [SQLiteAgentTaskStore] over its two tables: the rows of [agent_tasks] in
    insertion order and the keys of [agent_task_parent_fences].  Every method is
    one transaction, so one atomic step; [uuid4] identifiers and the clock are
    arguments.  Columns hold what [_record] reads back from them. *)
From S2P Require Import Prelude PyText Scopes.
Open Scope Z_scope.
Open Scope list_scope.

Module AgentTasks.

(** ** Data *)
Inductive AgentTaskStatus : Type := QUEUED | RUNNING | SUCCEEDED | FAILED | CANCELLED | TIMED_OUT.
#[global] Instance AgentTaskStatus_eq_dec : EqDecision AgentTaskStatus.
Proof. solve_decision. Defined.

Definition task_status_value (s : AgentTaskStatus) : string :=
  match s with
  | QUEUED => "QUEUED" | RUNNING => "RUNNING" | SUCCEEDED => "SUCCEEDED"
  | FAILED => "FAILED" | CANCELLED => "CANCELLED" | TIMED_OUT => "TIMED_OUT"
  end.

(** [TERMINAL_TASK_STATUSES] *)
Definition terminal (s : AgentTaskStatus) : bool :=
  match s with SUCCEEDED | FAILED | CANCELLED | TIMED_OUT => true | QUEUED | RUNNING => false end.

(** The exceptions of the store *)
Inductive task_exc : Type :=
| AgentTaskIdempotencyConflictError
| AgentTaskCancelledError
| TaskExc (e : exn).

(** [_owner]: the key of everything *)
Abbreviation Owner := (string * string * string)%type.
Definition owner_of (scope : RequestScope) : Owner := (rs_tenant_id scope, rs_product_id scope, rs_principal_id scope).

Record AgentTaskRecord : Type := MkTask {
  tk_task_id : string;
  tk_owner : Owner;
  tk_parent_run_id : string;
  tk_call_id : string;
  tk_role_id : string;
  tk_task_digest : string;
  tk_child_run_id : string;
  tk_child_agent_id : string;
  tk_child_session_id : string;
  tk_status : AgentTaskStatus;
  tk_created_at : Z;
  tk_updated_at : Z;
  tk_started_at : option Z;
  tk_finished_at : option Z;
  tk_result : option string;
  tk_failure : option string;
}.

Record Store : Type := MkStore {
  ts_tasks : list AgentTaskRecord;
  ts_fences : gset (Owner * string);
}.

Definition empty : Store := MkStore [] ∅.

(** ** Validation *)

(** [_DIGEST = ^[A-Za-z0-9][A-Za-z0-9._:-]{0,255}$] *)
Definition TASK_DIGEST (s : string) : bool := head_then (fun c => is_alnum c || one_of "._:-" c) 255 s.

(** [_identifier(value, label, digest=True)] *)
Definition digest_identifier (value : string) : res string := if TASK_DIGEST value then Ok value else Raise ValueError.

(** [_bounded] *)
Definition bounded (value : option string) (limit : Z) : res unit :=
  match value with None => Ok tt | Some v => guard (byte_len v <=? limit) ValueError end.

(** [_TRANSITIONS] *)
Definition allowed (expected target : AgentTaskStatus) : bool :=
  match expected with
  | QUEUED => match target with RUNNING | FAILED | CANCELLED | TIMED_OUT => true | _ => false end
  | RUNNING => terminal target
  | _ => false
  end.

(** ** Statements on the tables *)
Definition update_where (p : AgentTaskRecord -> bool) (f : AgentTaskRecord -> AgentTaskRecord) (rows : list AgentTaskRecord) : list AgentTaskRecord :=
  (fun r => if p r then f r else r) <$> rows.

Definition count_where (p : AgentTaskRecord -> bool) (rows : list AgentTaskRecord) : nat := length (List.filter p rows).

Definition of_call (owner : Owner) (run call : string) (r : AgentTaskRecord) : bool :=
  bool_decide (tk_owner r = owner /\ tk_parent_run_id r = run /\ tk_call_id r = call).
Definition of_task (owner : Owner) (run task_id : string) (r : AgentTaskRecord) : bool :=
  bool_decide (tk_owner r = owner /\ tk_task_id r = task_id /\ tk_parent_run_id r = run).
Definition of_run (owner : Owner) (run : string) (r : AgentTaskRecord) : bool :=
  bool_decide (tk_owner r = owner /\ tk_parent_run_id r = run).

(** [finished_at=CASE WHEN ? IN (...) THEN ? ELSE finished_at END] and its like *)
Definition set_status (target : AgentTaskStatus) (result failure : option string) (now : Z) (r : AgentTaskRecord) : AgentTaskRecord :=
  MkTask (tk_task_id r) (tk_owner r) (tk_parent_run_id r) (tk_call_id r) (tk_role_id r) (tk_task_digest r)
    (tk_child_run_id r) (tk_child_agent_id r) (tk_child_session_id r) target (tk_created_at r) now
    (if decide (target = RUNNING) then Some now else tk_started_at r)
    (if terminal target then Some now else tk_finished_at r) result failure.

(** ** Operations *)
Definition create (scope : RequestScope) (parent_run_id call_id role_id task_digest : string)
    (task_id child_run_id child_agent_id child_session_id : string) (now : Z) (st : Store) : (task_exc + AgentTaskRecord) * Store :=
  let owner := owner_of scope in
  match (let! _ := identifier parent_run_id in let! _ := identifier call_id in let! _ := identifier role_id in digest_identifier task_digest) with
  | Raise e => (inl (TaskExc e), st)
  | Ok _ =>
      match List.find (of_call owner parent_run_id call_id) (ts_tasks st) with
      | Some prior =>
          if decide (tk_role_id prior <> role_id \/ tk_task_digest prior <> task_digest) then (inl AgentTaskIdempotencyConflictError, st)
          else (inr prior, st)
      | None =>
          if decide ((owner, parent_run_id) ∈ ts_fences st) then (inl AgentTaskCancelledError, st)
          else if decide (task_id ∈ tk_task_id <$> ts_tasks st \/ child_run_id ∈ tk_child_run_id <$> ts_tasks st) then
            (inl (TaskExc OtherException), st)  (* IntegrityError *)
          else
            let row := MkTask task_id owner parent_run_id call_id role_id task_digest child_run_id child_agent_id child_session_id
                         QUEUED now now None None None None in
            (inr row, MkStore (ts_tasks st ++ [row]) (ts_fences st))
      end
  end.

Definition get_by_call (scope : RequestScope) (parent_run_id call_id : string) (st : Store) : task_exc + option AgentTaskRecord :=
  match (let! _ := identifier parent_run_id in identifier call_id) with
  | Raise e => inl (TaskExc e)
  | Ok _ => inr (List.find (of_call (owner_of scope) parent_run_id call_id) (ts_tasks st))
  end.

Definition get_owned (scope : RequestScope) (task_id parent_run_id : string) (st : Store) : task_exc + option AgentTaskRecord :=
  match identifier parent_run_id with
  | Raise e => inl (TaskExc e)
  | Ok _ =>
      if negb (IDENTIFIER task_id) then inr None
      else inr (List.find (of_task (owner_of scope) parent_run_id task_id) (ts_tasks st))
  end.

Definition check_outcome (target : AgentTaskStatus) (result failure : option string) : res unit :=
  let! _ := bounded result 8192 in
  let! _ := bounded failure 2048 in
  require bool_decide (result = None) || bool_decide (target = SUCCEEDED) else ValueError ;;
  guard (bool_decide (failure = None) || bool_decide (target = FAILED) || bool_decide (target = TIMED_OUT)) ValueError.

Definition transition (scope : RequestScope) (task_id : string) (expected target : AgentTaskStatus) (parent_run_id : string)
    (result failure : option string) (now : Z) (st : Store) : (task_exc + option AgentTaskRecord) * Store :=
  let owner := owner_of scope in
  match identifier parent_run_id with
  | Raise e => (inl (TaskExc e), st)
  | Ok _ =>
      if negb (IDENTIFIER task_id) || negb (allowed expected target) then (inr None, st)
      else match check_outcome target result failure with
      | Raise e => (inl (TaskExc e), st)
      | Ok _ =>
          let matches r := of_task owner parent_run_id task_id r && bool_decide (tk_status r = expected) in
          let rows := update_where matches (set_status target result failure now) (ts_tasks st) in
          if decide (count_where matches (ts_tasks st) <> 1%nat) then (inr None, MkStore rows (ts_fences st))
          else (inr (List.find (of_task owner parent_run_id task_id) rows), MkStore rows (ts_fences st))
      end
  end.

Definition cancel_children (scope : RequestScope) (parent_run_id : string) (now : Z) (st : Store) : (task_exc + Z) * Store :=
  let owner := owner_of scope in
  match identifier parent_run_id with
  | Raise e => (inl (TaskExc e), st)
  | Ok _ =>
      let matches r := of_run owner parent_run_id r && negb (terminal (tk_status r)) in
      (inr (Z.of_nat (count_where matches (ts_tasks st))),
       MkStore (update_where matches (fun r => set_status CANCELLED (tk_result r) (tk_failure r) now r) (ts_tasks st))
         ({[ (owner, parent_run_id) ]} ∪ ts_fences st))
  end.

Definition recover_interrupted (now : Z) (st : Store) : Z * Store :=
  let matches r := negb (terminal (tk_status r)) in
  (Z.of_nat (count_where matches (ts_tasks st)),
   MkStore (update_where matches (fun r => set_status FAILED (tk_result r) (Some "interrupted by service restart") now r) (ts_tasks st)) (ts_fences st)).

(** ** Histories *)
Inductive op : Type :=
| Create (scope : RequestScope) (run call role digest : string) (task_id child_run child_agent child_session : string) (now : Z)
| GetByCall (scope : RequestScope) (run call : string)
| GetOwned (scope : RequestScope) (task_id run : string)
| Transition (scope : RequestScope) (task_id : string) (expected target : AgentTaskStatus) (run : string) (result failure : option string) (now : Z)
| CancelChildren (scope : RequestScope) (run : string) (now : Z)
| RecoverInterrupted (now : Z).

Definition act (o : op) (st : Store) : Store :=
  match o with
  | Create scope run call role digest t c a s now => (create scope run call role digest t c a s now st).2
  | GetByCall _ _ _ | GetOwned _ _ _ => st
  | Transition scope t e g run result failure now => (transition scope t e g run result failure now st).2
  | CancelChildren scope run now => (cancel_children scope run now st).2
  | RecoverInterrupted now => (recover_interrupted now st).2
  end.

Definition acts (ops : list op) (st : Store) : Store := foldl (fun st o => act o st) st ops.

(** ** What one step does to a task *)

(** The columns that never change *)
Definition static (r : AgentTaskRecord) : Owner * string * string * string * (string * string * string * string * string) * Z :=
  (tk_owner r, tk_parent_run_id r, tk_call_id r, tk_task_id r,
   (tk_role_id r, tk_task_digest r, tk_child_run_id r, tk_child_agent_id r, tk_child_session_id r), tk_created_at r).

(** The columns agree with the status. *)
Definition task_ok (r : AgentTaskRecord) : Prop :=
  match tk_status r with
  | QUEUED => tk_started_at r = None /\ tk_finished_at r = None /\ tk_result r = None /\ tk_failure r = None
  | RUNNING => is_Some (tk_started_at r) /\ tk_finished_at r = None /\ tk_result r = None /\ tk_failure r = None
  | SUCCEEDED => is_Some (tk_started_at r) /\ is_Some (tk_finished_at r) /\ bounded (tk_result r) 8192 = Ok tt /\ tk_failure r = None
  | FAILED | TIMED_OUT => is_Some (tk_finished_at r) /\ tk_result r = None /\ bounded (tk_failure r) 2048 = Ok tt
  | CANCELLED => is_Some (tk_finished_at r) /\ tk_result r = None /\ tk_failure r = None
  end.

Definition moved (r r' : AgentTaskRecord) : Prop :=
  static r' = static r /\ allowed (tk_status r) (tk_status r') = true /\ (task_ok r -> task_ok r').

Definition stepped (r r' : AgentTaskRecord) : Prop := r' = r \/ moved r r'.

Definition queued (r : AgentTaskRecord) : Prop := tk_status r = QUEUED /\ task_ok r.

Lemma set_status_moved target result failure now r : allowed (tk_status r) target = true -> check_outcome target result failure = Ok tt ->
  moved r (set_status target result failure now r).
Proof.
  intros Hal Hc. split; [done|]. split; [done|]. unfold check_outcome in Hc. py_simpl. intros Hok. unfold task_ok in *. simpl.
  repeat match goal with H : _ || _ = true |- _ => rewrite ?orb_true_iff, ?bool_decide_eq_true in H end.
  repeat match goal with x : unit |- _ => destruct x end.
  destruct (tk_status r), target; try discriminate; simpl; naive_solver.
Qed.

Lemma cancelled_moved now r : terminal (tk_status r) = false -> task_ok r -> moved r (set_status CANCELLED (tk_result r) (tk_failure r) now r).
Proof.
  intros Ht Hr. split; [done|]. split; [by destruct (tk_status r)|]. intros _. unfold task_ok in *. simpl.
  destruct (tk_status r); try discriminate; naive_solver.
Qed.

Lemma recovered_moved now r : terminal (tk_status r) = false -> task_ok r ->
  moved r (set_status FAILED (tk_result r) (Some "interrupted by service restart") now r).
Proof.
  intros Ht Hr. split; [done|]. split; [by destruct (tk_status r)|]. intros _. unfold task_ok in *. simpl.
  destruct (tk_status r); try discriminate; naive_solver.
Qed.

(** ** The invariant *)
Definition call_key (r : AgentTaskRecord) : Owner * string * string := (tk_owner r, tk_parent_run_id r, tk_call_id r).

Record wf (st : Store) : Prop := MkWf {
  wf_ids : NoDup (tk_task_id <$> ts_tasks st);
  wf_runs : NoDup (tk_child_run_id <$> ts_tasks st);
  wf_calls : NoDup (call_key <$> ts_tasks st);
  wf_tasks : Forall task_ok (ts_tasks st);
}.

Lemma wf_empty : wf empty.
Proof. split; constructor. Qed.

Lemma update_where_stepped p f rows : (forall r, r ∈ rows -> p r = true -> moved r (f r)) ->
  Forall2 stepped rows (update_where p f rows).
Proof.
  intros Hm. induction rows as [|r rows IH]; [constructor|]. cbn. constructor; [|apply IH; set_solver].
  destruct (p r) eqn:Hp; [right; apply Hm; [set_solver|done]|by left].
Qed.

Lemma stepped_static r r' : stepped r r' -> static r' = static r.
Proof. by intros [->|[? _]]. Qed.

Lemma stepped_map {A : Type} (g : AgentTaskRecord -> A) rows rows' : (forall r r', static r' = static r -> g r' = g r) ->
  Forall2 stepped rows rows' -> g <$> rows' = g <$> rows.
Proof. intros Hg. induction 1 as [|r r' rows rows' Hr _ IH]; [done|]. cbn. f_equal; [by apply Hg, stepped_static|exact IH]. Qed.

Lemma stepped_ok rows rows' : Forall2 stepped rows rows' -> Forall task_ok rows -> Forall task_ok rows'.
Proof. induction 1 as [|r r' rows rows' Hr _ IH]; [done|]. intros [Hok Hall]%Forall_cons. constructor; [|by apply IH]. destruct Hr as [->|(_ & _ & Hm)]; auto. Qed.

Lemma static_ids r r' : static r' = static r ->
  tk_task_id r' = tk_task_id r /\ tk_child_run_id r' = tk_child_run_id r /\ call_key r' = call_key r.
Proof. intros [=]. unfold call_key. split_and!; congruence. Qed.

Lemma wf_stepped st rows' fences : wf st -> Forall2 stepped (ts_tasks st) rows' -> wf (MkStore rows' fences).
Proof.
  intros [Hi Hr Hc Ht] Hs. split; simpl.
  - by rewrite (stepped_map tk_task_id _ _ (fun r r' H => proj1 (static_ids r r' H)) Hs).
  - by rewrite (stepped_map tk_child_run_id _ _ (fun r r' H => proj1 (proj2 (static_ids r r' H))) Hs).
  - by rewrite (stepped_map call_key _ _ (fun r r' H => proj2 (proj2 (static_ids r r' H))) Hs).
  - by eapply stepped_ok.
Qed.

Lemma of_call_is owner run call r : of_call owner run call r = true <-> call_key r = (owner, run, call).
Proof. unfold of_call, call_key. rewrite bool_decide_eq_true. split; [by intros (-> & -> & ->)|by intros [= -> -> ->]]. Qed.

Lemma find_none {A : Type} (p : A -> bool) l x : List.find p l = None -> x ∈ l -> p x = false.
Proof. intros Hf Hx. apply (List.find_none _ _ Hf). by apply list_elem_of_In. Qed.

Lemma find_some {A : Type} (p : A -> bool) l x : List.find p l = Some x -> x ∈ l /\ p x = true.
Proof. intros [Hx Hp]%List.find_some. split; [by apply list_elem_of_In|done]. Qed.

(** What each method does to the table *)
Lemma create_shape scope run call role digest t c a s now st out st' :
  create scope run call role digest t c a s now st = (out, st') ->
  (st' = st /\ match out with inl _ => True | inr r => r ∈ ts_tasks st /\ call_key r = (owner_of scope, run, call) /\ tk_role_id r = role /\ tk_task_digest r = digest end) \/
  (exists r, out = inr r /\ st' = MkStore (ts_tasks st ++ [r]) (ts_fences st) /\ queued r /\ call_key r = (owner_of scope, run, call) /\
     tk_role_id r = role /\ tk_task_digest r = digest /\
     (owner_of scope, run) ∉ ts_fences st /\ call_key r ∉ call_key <$> ts_tasks st /\
     tk_task_id r ∉ tk_task_id <$> ts_tasks st /\ tk_child_run_id r ∉ tk_child_run_id <$> ts_tasks st).
Proof.
  unfold create. destruct (let! _ := identifier run in _) as [x|e]; [|intros [= <- <-]; by left].
  destruct (List.find _ _) as [prior|] eqn:Hf.
  - apply find_some in Hf as [Hin Hk%of_call_is]. destruct (decide (tk_role_id prior <> role \/ tk_task_digest prior <> digest)) as [|Hn]; intros [= <- <-]; left; [done|].
    split_and!; [done|done|done|..]; apply dec_stable; intros Hne; apply Hn; auto.
  - destruct (decide ((owner_of scope, run) ∈ ts_fences st)) as [|Hfe]; [intros [= <- <-]; by left|].
    destruct (decide (_ \/ _)) as [|Hu]; [intros [= <- <-]; by left|]. intros [= <- <-]. right. eexists. split_and!; [done|done|done|done|done|done|done| |tauto|tauto].
    intros (r & Hk & Hin)%list_elem_of_fmap. pose proof (find_none _ _ _ Hf Hin) as Hno. assert (of_call (owner_of scope) run call r = true) by (by apply of_call_is). congruence.
Qed.

Lemma transition_shape scope t e g run result failure now st :
  let st' := (transition scope t e g run result failure now st).2 in
  Forall2 stepped (ts_tasks st) (ts_tasks st') /\ ts_fences st' = ts_fences st.
Proof.
  assert (Hz : Forall2 stepped (ts_tasks st) (ts_tasks st)) by (induction (ts_tasks st); constructor; [by left|done]).
  unfold transition. destruct (identifier run); [|done]. destruct (negb (IDENTIFIER t) || negb (allowed e g)) eqn:Hn; [done|].
  destruct (check_outcome g result failure) as [[]|] eqn:Hc; [|done]. apply orb_false_iff in Hn as [_ Hal%negb_false_iff].
  match goal with |- context [update_where ?p ?f _] => assert (Hu : Forall2 stepped (ts_tasks st) (update_where p f (ts_tasks st))) end.
  { apply update_where_stepped. intros r _ [_ Hs%bool_decide_eq_true]%andb_true_iff. apply set_status_moved; [by rewrite Hs|done]. }
  destruct (decide _); done.
Qed.

Lemma cancel_shape scope run now st : wf st ->
  let st' := (cancel_children scope run now st).2 in
  Forall2 stepped (ts_tasks st) (ts_tasks st') /\ ts_fences st ⊆ ts_fences st'.
Proof.
  intros Hw. assert (Hz : Forall2 stepped (ts_tasks st) (ts_tasks st)) by (induction (ts_tasks st); constructor; [by left|done]).
  unfold cancel_children. destruct (identifier run); [|done]. simpl. split; [|set_solver]. apply update_where_stepped.
  intros r Hr [_ Ht%negb_true_iff]%andb_true_iff. apply cancelled_moved; [done|]. pose proof (wf_tasks _ Hw) as Hall. rewrite Forall_forall in Hall. by apply Hall.
Qed.

Lemma recover_shape now st : wf st -> Forall2 stepped (ts_tasks st) (ts_tasks (recover_interrupted now st).2).
Proof.
  intros Hw. apply update_where_stepped. intros r Hr Ht%negb_true_iff. apply recovered_moved; [done|].
  pose proof (wf_tasks _ Hw) as Hall. rewrite Forall_forall in Hall. by apply Hall.
Qed.

(** Every method: rows step, and at most one queued row is added. *)
Lemma act_shape o st : wf st -> exists rows new, ts_tasks (act o st) = rows ++ new /\ Forall2 stepped (ts_tasks st) rows /\
  ts_fences st ⊆ ts_fences (act o st) /\
  (new = [] \/ exists r, new = [r] /\ queued r /\ (tk_owner r, tk_parent_run_id r) ∉ ts_fences st /\ call_key r ∉ call_key <$> ts_tasks st /\
     tk_task_id r ∉ tk_task_id <$> ts_tasks st /\ tk_child_run_id r ∉ tk_child_run_id <$> ts_tasks st).
Proof.
  intros Hw. assert (Hz : Forall2 stepped (ts_tasks st) (ts_tasks st)) by (induction (ts_tasks st); constructor; [by left|done]).
  destruct o as [scope run call role digest t c a s now| | |scope t e g run result failure now|scope run now|now]; simpl.
  - destruct (create scope run call role digest t c a s now st) as [out st'] eqn:Hc.
    apply create_shape in Hc as [[-> _]|(r & _ & -> & Hq & Hk & _ & _ & Hf & Hck & Ht & Hr)]; simpl.
    + exists (ts_tasks st), []. rewrite app_nil_r. split_and!; [done|done|done|by left].
    + exists (ts_tasks st), [r]. split_and!; [done|done|done|right]. exists r. injection Hk as Ho Hp _. rewrite Ho, Hp. done.
  - exists (ts_tasks st), []. rewrite app_nil_r. split_and!; [done|done|done|by left].
  - exists (ts_tasks st), []. rewrite app_nil_r. split_and!; [done|done|done|by left].
  - destruct (transition_shape scope t e g run result failure now st) as [Hs Hf]. eexists _, []. rewrite app_nil_r. split_and!; [done|done|by rewrite Hf|by left].
  - destruct (cancel_shape scope run now st Hw) as [Hs Hf]. eexists _, []. rewrite app_nil_r. split_and!; [done|done|done|by left].
  - eexists _, []. rewrite app_nil_r. split_and!; [done|by apply recover_shape|done|by left].
Qed.

Lemma wf_act o st : wf st -> wf (act o st).
Proof.
  intros Hw. destruct (act_shape o st Hw) as (rows & new & Heq & Hs & _ & Hnew). pose proof (wf_stepped st rows ∅ Hw Hs) as [Hi Hr Hc Ht]. simpl in *.
  pose proof (stepped_map tk_task_id _ _ (fun r r' H => proj1 (static_ids r r' H)) Hs) as Ei.
  pose proof (stepped_map tk_child_run_id _ _ (fun r r' H => proj1 (proj2 (static_ids r r' H))) Hs) as Er.
  pose proof (stepped_map call_key _ _ (fun r r' H => proj2 (proj2 (static_ids r r' H))) Hs) as Ec.
  destruct Hnew as [->|(x & -> & [_ Hx] & _ & Hxk & Hxt & Hxr)]; [rewrite app_nil_r in Heq; split; by rewrite Heq|].
  assert (Hsnoc : forall (A : Type) (l : list A) y, NoDup l -> y ∉ l -> NoDup (l ++ [y])).
  { intros A l y Hl Hy. apply NoDup_app. split_and!; [done| |apply NoDup_singleton]. intros z Hz ->%list_elem_of_singleton. done. }
  split; rewrite Heq, ?fmap_app; [apply Hsnoc; [done|by rewrite Ei]|apply Hsnoc; [done|by rewrite Er]|apply Hsnoc; [done|by rewrite Ec]|].
  apply Forall_app. split; [done|by constructor].
Qed.

Lemma wf_acts ops st : wf st -> wf (acts ops st).
Proof. unfold acts. revert st. induction ops as [|o ops IH]; intros st Hw; [done|]. simpl. by apply IH, wf_act. Qed.

(** ** Over histories *)
Definition follows (s s' : AgentTaskStatus) : Prop := rtc (fun a b => allowed a b = true) s s'.

Definition later (r r' : AgentTaskRecord) : Prop :=
  static r' = static r /\ follows (tk_status r) (tk_status r') /\ (terminal (tk_status r) = true -> r' = r).

Lemma later_stepped r0 r r' : later r0 r -> stepped r r' -> later r0 r'.
Proof.
  intros (Hs & Hf & Ht) [->|(Hs' & Hal & _)]; [done|]. split_and!; [congruence|by eapply rtc_r|].
  intros Hterm. pose proof (Ht Hterm) as ->. by destruct (tk_status r0).
Qed.

Lemma later_acts ops st r0 r : wf st -> r ∈ ts_tasks st -> later r0 r -> exists r', r' ∈ ts_tasks (acts ops st) /\ later r0 r'.
Proof.
  unfold acts. revert st r. induction ops as [|o ops IH]; intros st r Hw Hr Hl; [by exists r|]. simpl.
  destruct (act_shape o st Hw) as (rows & new & Heq & Hs & _). apply list_elem_of_lookup in Hr as [i Hi].
  destruct (Forall2_lookup_l _ _ _ _ _ Hs Hi) as (r1 & Hi1 & Hst). apply (IH _ r1); [by apply wf_act| |by eapply later_stepped].
  rewrite Heq. apply elem_of_app. left. by eapply list_elem_of_lookup_2.
Qed.

Lemma fences_acts ops st : wf st -> ts_fences st ⊆ ts_fences (acts ops st).
Proof.
  unfold acts. revert st. induction ops as [|o ops IH]; intros st Hw; [done|]. simpl. destruct (act_shape o st Hw) as (_ & _ & _ & _ & Hf & _).
  etransitivity; [exact Hf|]. by apply IH, wf_act.
Qed.

(** A fenced parent run has no task at work. *)
Definition fenced (st : Store) : Prop :=
  forall r, r ∈ ts_tasks st -> (tk_owner r, tk_parent_run_id r) ∈ ts_fences st -> terminal (tk_status r) = true.

Lemma allowed_terminal s s' : terminal s = true -> allowed s s' = false.
Proof. by destruct s. Qed.

Lemma update_where_elem p f rows r' : r' ∈ update_where p f rows -> exists r, r ∈ rows /\ r' = if p r then f r else r.
Proof. unfold update_where. intros (r & -> & Hr)%list_elem_of_fmap. by exists r. Qed.

Lemma fenced_act o st : wf st -> fenced st -> fenced (act o st).
Proof.
  intros Hw Hf r' Hr' Hk. destruct (act_shape o st Hw) as (rows & new & Heq & Hs & Hfe & Hnew). rewrite Heq in Hr'.
  assert (Hsame : ts_fences (act o st) = ts_fences st \/ exists scope run now, o = CancelChildren scope run now /\ is_Ok (identifier run) = true).
  { destruct o as [scope run call role digest t c a s now| | |scope t e g run result failure now|scope run now|now]; try (by left); simpl.
    - left. destruct (create scope run call role digest t c a s now st) as [out st'] eqn:Hc. by apply create_shape in Hc as [[-> _]|(r & _ & -> & _)].
    - left. by destruct (transition_shape scope t e g run result failure now st).
    - destruct (identifier run) eqn:Hi; [right; exists scope, run, now; by rewrite Hi|left]. unfold cancel_children. by rewrite Hi. }
  destruct Hsame as [Hsame|(scope & run & now & -> & Hi)].
  - rewrite Hsame in Hk. apply elem_of_app in Hr' as [Hr'|Hr'].
    + apply list_elem_of_lookup in Hr' as [i Hi]. destruct (Forall2_lookup_r _ _ _ _ _ Hs Hi) as (r & Hr & [->|(Hst & Hal & _)]).
      * apply (Hf r); [by eapply list_elem_of_lookup_2|done].
      * exfalso. assert (terminal (tk_status r) = true) as Ht; [|by rewrite (allowed_terminal _ _ Ht) in Hal]. apply (Hf r); [by eapply list_elem_of_lookup_2|].
        unfold static in Hst. injection Hst as Ho Hp _ _ _ _ _ _ _ _. by rewrite <- Ho, <- Hp.
    + exfalso. destruct Hnew as [->|(x & -> & _ & Hno & _)]; [by apply not_elem_of_nil in Hr'|]. apply list_elem_of_singleton in Hr' as ->. done.
  - rewrite <- Heq in Hr'. unfold act, cancel_children in Hr', Hk. destruct (identifier run); [|done]. simpl in Hr', Hk.
    apply update_where_elem in Hr' as (r & Hr & ->). revert Hk.
    destruct (of_run (owner_of scope) run r && negb (terminal (tk_status r))) eqn:Hm; [done|]. intros [Hk|Hk]%elem_of_union; [|by apply Hf].
    apply elem_of_singleton in Hk. injection Hk as Ho Hp. apply andb_false_iff in Hm as [Hm|Hm%negb_false_iff]; [|done].
    unfold of_run in Hm. apply bool_decide_eq_false in Hm. tauto.
Qed.

Lemma fenced_acts ops st : wf st -> fenced st -> fenced (acts ops st).
Proof. unfold acts. revert st. induction ops as [|o ops IH]; intros st Hw Hf; [done|]. simpl. apply IH; [by apply wf_act|by apply fenced_act]. Qed.

Lemma task_acts_app ops ops' st : acts (ops ++ ops') st = acts ops' (acts ops st).
Proof. apply foldl_app. Qed.

Lemma find_unique {A : Type} (p : A -> bool) l x : x ∈ l -> p x = true -> (forall y, y ∈ l -> p y = true -> y = x) -> List.find p l = Some x.
Proof.
  intros Hx Hp Hu. destruct (List.find p l) as [y|] eqn:Hf; [|by rewrite (find_none _ _ _ Hf Hx) in Hp].
  apply find_some in Hf as [Hy Hpy]. f_equal. by apply Hu.
Qed.

Lemma call_unique st r r' : wf st -> r ∈ ts_tasks st -> r' ∈ ts_tasks st -> call_key r = call_key r' -> r = r'.
Proof.
  intros Hw [i Hi]%list_elem_of_lookup [j Hj]%list_elem_of_lookup Heq. assert (i = j) as ->; [|congruence].
  apply (proj1 (NoDup_alt _) (wf_calls _ Hw) i j (call_key r)); rewrite list_lookup_fmap; [by rewrite Hi|by rewrite Hj, Heq].
Qed.

(** The parent an operation acts for; recovery acts for all. *)
Definition op_owner (o : op) : option Owner :=
  match o with
  | Create scope _ _ _ _ _ _ _ _ _ | GetByCall scope _ _ | GetOwned scope _ _ | Transition scope _ _ _ _ _ _ _ | CancelChildren scope _ _ => Some (owner_of scope)
  | RecoverInterrupted _ => None
  end.

Lemma update_where_others p f rows owner : (forall r, p r = true -> tk_owner r = owner) -> (forall r, tk_owner (f r) = tk_owner r) ->
  filter (fun r => tk_owner r <> owner) (update_where p f rows) = filter (fun r => tk_owner r <> owner) rows.
Proof.
  intros Hp Hf. unfold update_where in *. induction rows as [|r rows IH]; [done|]. rewrite fmap_cons, !filter_cons. destruct (p r) eqn:Hr.
  - rewrite !decide_False by (rewrite ?Hf, (Hp r Hr); intros Hn; by apply Hn). exact IH.
  - destruct (decide _); [f_equal|]; exact IH.
Qed.

(** ** Properties *)

(** Tasks live one life: whatever calls interleave, a task keeps its identity, its
    status only follows the allowed transitions, a finished task is never changed
    again, the times, the result and the failure of every task agree with its
    status, and no parent call has two tasks. *)
Theorem tasks_follow_their_lifecycle before after r :
  r ∈ ts_tasks (acts before empty) ->
  wf (acts (before ++ after) empty) /\ exists r', r' ∈ ts_tasks (acts (before ++ after) empty) /\ later r r' /\ task_ok r'.
Proof.
  intros Hr. pose proof (wf_acts before empty wf_empty) as Hw. rewrite task_acts_app. split; [by apply wf_acts|].
  destruct (later_acts after _ r r Hw Hr) as (r' & Hr' & Hl); [split_and!; [done|constructor|done]|]. exists r'. split_and!; [done|done|].
  pose proof (wf_tasks _ (wf_acts after _ Hw)) as Hall. rewrite Forall_forall in Hall. by apply Hall.
Qed.

(** C13. Cancelling the children of a run is final: afterwards, whatever else happens,
    no task of that run is queued or running, and no call can create one. *)
Theorem cancellation_fences_the_run before scope run now after call role digest t c a s now' :
  IDENTIFIER run = true ->
  let st := acts (before ++ CancelChildren scope run now :: after) empty in
  (forall r, r ∈ ts_tasks st -> tk_owner r = owner_of scope -> tk_parent_run_id r = run -> terminal (tk_status r) = true) /\
  (create scope run call role digest t c a s now' st).2 = st /\
  match (create scope run call role digest t c a s now' st).1 with inr r => terminal (tk_status r) = true | inl _ => True end.
Proof.
  intros Hrun st. assert (Hw0 : wf (acts before empty)) by apply wf_acts, wf_empty.
  assert (Hf : fenced st) by (apply fenced_acts; [apply wf_empty|by intros r ?%not_elem_of_nil]).
  assert (Hin : (owner_of scope, run) ∈ ts_fences st).
  { subst st. rewrite task_acts_app. change (acts (CancelChildren scope run now :: after) (acts before empty)) with (acts after (act (CancelChildren scope run now) (acts before empty))).
    apply fences_acts; [by apply wf_act|]. unfold act, cancel_children, identifier. rewrite Hrun. simpl. set_solver. }
  assert (Hall : forall r, r ∈ ts_tasks st -> tk_owner r = owner_of scope -> tk_parent_run_id r = run -> terminal (tk_status r) = true).
  { intros r Hr Ho Hp. apply Hf; [done|]. by rewrite Ho, Hp. }
  split; [exact Hall|]. destruct (create scope run call role digest t c a s now' st) as [out st'] eqn:Hc.
  apply create_shape in Hc as [[-> Hout]|(r & _ & _ & _ & _ & _ & _ & Hno & _)]; [|done]. split; [done|]. simpl. destruct out as [e|r]; [done|].
  destruct Hout as (Hr & Hk & _). injection Hk as Ho Hp _. by apply Hall.
Qed.

(** Creating a task is idempotent: after a successful creation, whatever happens
    in between, the same call gets the same task again as it is by then, and the
    same call for another role or another task is refused. *)
Theorem creation_is_idempotent before scope run call role digest t c a s now r after role' digest' t' c' a' s' now' :
  (create scope run call role digest t c a s now (acts before empty)).1 = inr r ->
  IDENTIFIER role' = true -> TASK_DIGEST digest' = true ->
  let st := acts (before ++ Create scope run call role digest t c a s now :: after) empty in
  exists r', r' ∈ ts_tasks st /\ static r' = static r /\
    create scope run call role' digest' t' c' a' s' now' st =
      (if decide (role' = role /\ digest' = digest) then inr r' else inl AgentTaskIdempotencyConflictError, st).
Proof.
  intros Hc Hrole Hdig st. assert (Hw0 : wf (acts before empty)) by apply wf_acts, wf_empty.
  assert (Hval : is_Ok (identifier run) = true /\ is_Ok (identifier call) = true).
  { unfold create in Hc. destruct (identifier run) as [x|], (identifier call) as [y|]; done. }
  destruct (create scope run call role digest t c a s now (acts before empty)) as [out st1] eqn:Heq. simpl in Hc. subst out.
  assert (Hr : r ∈ ts_tasks st1 /\ call_key r = (owner_of scope, run, call) /\ tk_role_id r = role /\ tk_task_digest r = digest).
  { apply create_shape in Heq as [[-> H]|(r' & [= <-] & -> & _ & Hk & Hro & Hd & _)]; [done|]. split_and!; [set_solver|done..]. }
  destruct Hr as (Hr & Hk & Hro & Hd).
  assert (Hst : st = acts after st1).
  { subst st. rewrite task_acts_app. change (acts (Create scope run call role digest t c a s now :: after) (acts before empty)) with
      (acts after (act (Create scope run call role digest t c a s now) (acts before empty))). unfold act. by rewrite Heq. }
  assert (Hw1 : wf st1) by (pose proof (wf_act (Create scope run call role digest t c a s now) _ Hw0) as H; unfold act in H; by rewrite Heq in H).
  destruct (later_acts after st1 r r Hw1 Hr) as (r' & Hr' & Hs & _); [split_and!; [done|constructor|done]|]. rewrite <- Hst in Hr'. exists r'. split_and!; [done|done|].
  assert (Hk' : call_key r' = (owner_of scope, run, call)) by (by rewrite (proj2 (proj2 (static_ids _ _ Hs)))).
  assert (Hrd : tk_role_id r' = role /\ tk_task_digest r' = digest) by (unfold static in Hs; injection Hs; intros; split; congruence).
  destruct Hrd as [Hro' Hd']. unfold create. destruct (identifier run); [|by destruct Hval]. destruct (identifier call); [|by destruct Hval].
  unfold identifier at 1. rewrite Hrole. unfold digest_identifier. rewrite Hdig. cbn [res_bind].
  rewrite (find_unique _ _ r'); [|done|by apply of_call_is|].
  - rewrite Hro', Hd'. destruct (decide (role <> role' \/ digest <> digest')) as [Hn|Hn], (decide (role' = role /\ digest' = digest)) as [He|He]; try done.
    + exfalso. destruct He as [-> ->]. naive_solver.
    + exfalso. apply He. split; symmetry; apply dec_stable; intros Hx; apply Hn; auto.
  - intros y Hy Hp%of_call_is. symmetry. apply (call_unique st); [rewrite Hst; by apply wf_acts|done|done|congruence].
Qed.

(** Tasks are owned: an operation for one tenant, product and principal changes
    no task of any other, and what it finds is the caller's. *)
Theorem tasks_are_owned o st owner :
  op_owner o = Some owner ->
  filter (fun r => tk_owner r <> owner) (ts_tasks (act o st)) = filter (fun r => tk_owner r <> owner) (ts_tasks st) /\
  forall scope run x, owner_of scope = owner -> (forall r, get_by_call scope run x st = inr (Some r) -> tk_owner r = owner /\ tk_parent_run_id r = run) /\
    (forall r, get_owned scope x run st = inr (Some r) -> tk_owner r = owner /\ tk_parent_run_id r = run).
Proof.
  intros Ho. split.
  - destruct o as [scope run call role digest t c a s now| | |scope t e g run result failure now|scope run now|now]; simpl in Ho; try done; injection Ho as <-; simpl.
    + destruct (create scope run call role digest t c a s now st) as [out st'] eqn:Hc. apply create_shape in Hc as [[-> _]|(r & _ & -> & _ & Hk & _)]; [done|]. simpl.
      injection Hk as Ho _ _. rewrite filter_app, filter_cons, Ho. rewrite decide_False by (intros Hn; by apply Hn). by rewrite filter_nil, app_nil_r.
    + unfold transition. destruct (identifier run); [|done]. destruct (_ || _); [done|]. destruct (check_outcome g result failure); [|done].
      destruct (decide _); apply update_where_others; try done; intros r [Hr _]%andb_true_iff; unfold of_task in Hr; apply bool_decide_eq_true in Hr; tauto.
    + unfold cancel_children. destruct (identifier run); [|done]. apply update_where_others; [|done]. intros r [Hr _]%andb_true_iff.
      unfold of_run in Hr. apply bool_decide_eq_true in Hr. tauto.
  - intros scope run x <-. split; intros r.
    + unfold get_by_call. destruct (let! _ := identifier run in _); [|done]. intros [= Hf]. apply find_some in Hf as [_ Hk%of_call_is]. by injection Hk.
    + unfold get_owned. destruct (identifier run); [|done]. destruct (negb _); [done|]. intros [= Hf]. apply find_some in Hf as [_ Hk].
      unfold of_task in Hk. apply bool_decide_eq_true in Hk. tauto.
Qed.

(** ** One parent, two children *)
Definition demo_scope : RequestScope :=
  MkRequestScope (MkScopePath PRODUCT (Some "acme") (Some "crm") None None) "ann" "web" ∅ "chat" "" "" None.

Definition demo_create : op := Create demo_scope "run-1" "call-1" "analyst" "d1" "t1" "c1" "a1" "s1" 10.
Definition demo_work : list op :=
  [demo_create; Transition demo_scope "t1" QUEUED RUNNING "run-1" None None 11;
   Create demo_scope "run-1" "call-2" "writer" "d2" "t2" "c2" "a2" "s2" 12].
Definition demo_task : AgentTaskRecord :=
  MkTask "t1" ("acme", "crm", "ann") "run-1" "call-1" "analyst" "d1" "c1" "a1" "s1" RUNNING 10 11 (Some 11) None None None.

Lemma demo_working : demo_task ∈ ts_tasks (acts demo_work empty).
Proof. vm_compute. left. Qed.

Lemma tasks_follow_their_lifecycle_witness :
  exists r', r' ∈ ts_tasks (acts (demo_work ++ [CancelChildren demo_scope "run-1" 13]) empty) /\ later demo_task r' /\ task_ok r'.
Proof. exact (proj2 (tasks_follow_their_lifecycle demo_work [CancelChildren demo_scope "run-1" 13] demo_task demo_working)). Defined.

Lemma cancellation_fences_the_run_witness :
  Forall (fun r => tk_owner r = owner_of demo_scope -> tk_parent_run_id r = "run-1" -> terminal (tk_status r) = true)
    (ts_tasks (acts (demo_work ++ [CancelChildren demo_scope "run-1" 13]) empty)).
Proof. apply Forall_forall. exact (proj1 (cancellation_fences_the_run demo_work demo_scope "run-1" 13 [] "call-3" "writer" "d3" "t3" "c3" "a3" "s3" 14 eq_refl)). Defined.

Definition demo_row : AgentTaskRecord :=
  MkTask "t1" ("acme", "crm", "ann") "run-1" "call-1" "analyst" "d1" "c1" "a1" "s1" QUEUED 10 10 None None None None.

Lemma creation_is_idempotent_witness :
  exists r', static r' = static demo_row /\
    (create demo_scope "run-1" "call-1" "analyst" "d1" "t9" "c9" "a9" "s9" 20 (acts ([] ++ demo_create :: tail demo_work) empty)).1 = inr r'.
Proof.
  destruct (creation_is_idempotent [] demo_scope "run-1" "call-1" "analyst" "d1" "t1" "c1" "a1" "s1" 10 demo_row (tail demo_work)
    "analyst" "d1" "t9" "c9" "a9" "s9" 20 (eq_refl : _ = inr demo_row) eq_refl eq_refl) as (r' & _ & Hs & Hc).
  exact (ex_intro _ r' (conj Hs (f_equal fst Hc))).
Defined.

Lemma tasks_are_owned_witness : filter (fun r => tk_owner r <> ("acme", "crm", "ann")) (ts_tasks (act demo_create empty)) = [].
Proof. exact (proj1 (tasks_are_owned demo_create empty ("acme", "crm", "ann") eq_refl)). Defined.
End AgentTasks.
