(* ===== verification/Delegation.v ===== *)
(** * Delegation to child agents ([multiagent/service.py], [multiagent/roles.py])

    [ControlledDelegationService.delegate] as one task over the answers of the
    registry, the authority, the task store, the shared quota, the journal, the
    product's context and the runner that runs the child.  Exceptions are those the
    code tells apart.  Times are microseconds; the parent scope of every task
    operation is the one of the call. *)
From S2P Require Import Prelude PyText Json Scopes ExecModels Prog Tasks AgentTasks.
Open Scope Z_scope.
Open Scope list_scope.

Module Delegation.
Import Tasks AgentTasks.

(** ** Configuration ([config/models.py]) *)
Record AgentRoleDefinition : Type := MkRole {
  ro_role_id : string;
  ro_instruction : string;
  ro_allowed_tools : list string;
  ro_model_route : string;
}.

Definition config_identifier (value : string) : res unit := guard (COMPONENT_ID value) ValueError.

Definition agent_role (r : AgentRoleDefinition) : res AgentRoleDefinition :=
  let! _ := config_identifier (ro_role_id r) in
  let! _ := config_identifier (ro_model_route r) in
  require between 1 12000 (py_len (ro_instruction r)) else ValueError ;;
  require bool_decide (PyText.strip (ro_instruction r) = ro_instruction r) else ValueError ;;
  require bool_decide (NoDup (ro_allowed_tools r)) else ValueError ;;
  let! _ := for_each config_identifier (ro_allowed_tools r) in
  require negb (bool_decide ("agent.delegate" ∈ ro_allowed_tools r)) else ValueError ;;
  Ok r.

Record MultiAgentProductConfig : Type := MkProductConfig {
  ma_enabled : bool;
  ma_roles : list AgentRoleDefinition;
  ma_max_children : Z;
  ma_max_parallel : Z;
}.

Definition multi_agent_product (p : MultiAgentProductConfig) : res MultiAgentProductConfig :=
  require between 1 2 (ma_max_children p) && between 1 2 (ma_max_parallel p) else ValueError ;;
  require bool_decide (NoDup (ro_role_id <$> ma_roles p)) else ValueError ;;
  require negb (ma_enabled p && bool_decide (ma_roles p = [])) else ValueError ;;
  require ma_max_parallel p <=? ma_max_children p else ValueError ;;
  Ok p.

Abbreviation MultiAgentConfig := (dict string MultiAgentProductConfig).

Definition multi_agent_config (products : MultiAgentConfig) : res MultiAgentConfig :=
  let! _ := for_each config_identifier products.*1 in Ok products.

(** ** Roles ([multiagent/roles.py]) *)
Definition policy (config : MultiAgentConfig) (product_id : string) : option MultiAgentProductConfig :=
  match dget product_id config with
  | Some p => if ma_enabled p then Some p else None
  | None => None
  end.

Definition resolve_role (config : MultiAgentConfig) (product_id role_id : string) : option AgentRoleDefinition :=
  match policy config product_id with
  | None => None
  | Some p => List.find (fun role => bool_decide (ro_role_id role = role_id)) (ma_roles p)
  end.

(** ** Errors *)
Inductive exc : Type :=
| DelegationDenied
| TaskError (e : task_exc)
| Exc (e : exn)
| Interrupt.  (* [KeyboardInterrupt], [SystemExit] *)

Definition is_cancelled (x : exc) : bool := match x with Exc CancelledError | TaskError (TaskExc CancelledError) => true | _ => false end.

(** [except Exception] *)
Definition is_exception (x : exc) : bool := negb (is_cancelled x) && match x with Interrupt => false | _ => true end.

(** ** The call *)

(** [ToolCallContext]; of the shared quota, its ceilings *)
Record ToolCallContext : Type := MkCall {
  dx_scope : RequestScope;
  dx_run_id : string;
  dx_call_id : string;
  dx_tool_identity : ToolIdentity;
  dx_remaining : Z;
  dx_grant_id : option string;
  dx_read_only : bool;
  dx_budget : option (Z * Z);  (* max_iterations, max_tool_calls *)
}.

Inductive workflow_kind : Type := WReAct | WRoleRouted | WCustom.

Inductive question : Type :=
| QCancelSet
| QRemaining
| QResolveTool (alias : string)
| QResolveGrant (grant_id : string)
| QNow
| QProduct (product_id : string)
| QGetByCall (run_id call_id : string)
| QReserveChild (call_id : string) (ceiling : Z)
| QCreateTask (run_id call_id role_id task_digest : string)
| QOpenChild (path : ScopePath)
| QTakeSlot (ceiling : Z)
| QTransition (task_id : string) (expected target : AgentTaskStatus) (run_id : string) (result failure : option string)
| QIssueChild (parent_grant_id : string) (scope : ScopePath) (tools : list ToolIdentity) (capabilities : gset string) (principal_id : string) (lifetime : Z)
| QUuid
| QJournal (event : AuditEvent)
| QStrategies (product_id : string)
| QWithRoleRoute (role_id model_route : string)
| QRunChild (request : RunRequest) (instruction model_route : string)
| QCancelChildren (run_id : string)
| QRevoke (grant_id : string)
| QReleaseSlot
| QCloseChild.

(** The path of the product; whether a role-routed workflow is a workflow *)
Definition ans (q : question) : Type :=
  match q with
  | QCancelSet => bool
  | QRemaining | QNow => Z
  | QResolveTool _ => option (ToolIdentity * ToolSpec)
  | QResolveGrant _ => exc + option CapabilityGrant
  | QProduct _ => exc + ScopePath
  | QGetByCall _ _ => exc + option AgentTaskRecord
  | QReserveChild _ _ | QTakeSlot _ | QTransition _ _ _ _ _ _ | QWithRoleRoute _ _ => exc + bool
  | QCreateTask _ _ _ _ => exc + AgentTaskRecord
  | QIssueChild _ _ _ _ _ _ => exc + CapabilityGrant
  | QUuid => string
  | QStrategies _ => exc + workflow_kind
  | QRunChild _ _ _ => exc + RunResult
  | QOpenChild _ | QJournal _ | QCancelChildren _ | QRevoke _ | QReleaseSlot | QCloseChild => option exc
  end%type.

(** What the [finally] block looks at *)
Record locals : Type := MkLocals { lo_child : bool; lo_grant : option CapabilityGrant; lo_slot : bool }.

Definition M (A : Type) : Type := task ans locals exc A.

Definition cancel_set : M bool := fun l => Call QCancelSet (fun a => Ret (l, inr a)).
Definition remaining_seconds : M Z := fun l => Call QRemaining (fun a => Ret (l, inr a)).
Definition resolve_tool alias : M (option (ToolIdentity * ToolSpec)) := fun l => Call (QResolveTool alias) (fun a => Ret (l, inr a)).
Definition resolve_grant g : M (option CapabilityGrant) := fun l => Call (QResolveGrant g) (fun a => Ret (l, a)).
Definition now : M Z := fun l => Call QNow (fun a => Ret (l, inr a)).
Definition product p : M ScopePath := fun l => Call (QProduct p) (fun a => Ret (l, a)).
Definition get_by_call r c : M (option AgentTaskRecord) := fun l => Call (QGetByCall r c) (fun a => Ret (l, a)).
Definition reserve_child c n : M bool := fun l => Call (QReserveChild c n) (fun a => Ret (l, a)).
Definition create_task r c i d : M AgentTaskRecord := fun l => Call (QCreateTask r c i d) (fun a => Ret (l, a)).
Definition open_child p : M unit := fun l => Call (QOpenChild p) (fun a => Ret (l, raised a)).
Definition take_slot n : M bool := fun l => Call (QTakeSlot n) (fun a => Ret (l, a)).
Definition transition t e g r out failure : M bool := fun l => Call (QTransition t e g r out failure) (fun a => Ret (l, a)).
Definition issue_child g p t c i d : M CapabilityGrant := fun l => Call (QIssueChild g p t c i d) (fun a => Ret (l, a)).
Definition uuid4 : M string := fun l => Call QUuid (fun a => Ret (l, inr a)).
Definition journal e : M unit := fun l => Call (QJournal e) (fun a => Ret (l, raised a)).
Definition strategies p : M workflow_kind := fun l => Call (QStrategies p) (fun a => Ret (l, a)).
Definition with_role_route r m : M bool := fun l => Call (QWithRoleRoute r m) (fun a => Ret (l, a)).
Definition run_child q i m : M RunResult := fun l => Call (QRunChild q i m) (fun a => Ret (l, a)).
Definition cancel_children r : M unit := fun l => Call (QCancelChildren r) (fun a => Ret (l, raised a)).
Definition revoke g : M unit := fun l => Call (QRevoke g) (fun a => Ret (l, raised a)).
Definition release_slot : M unit := fun l => Call QReleaseSlot (fun a => Ret (l, raised a)).
Definition close_child : M unit := fun l => Call QCloseChild (fun a => Ret (l, raised a)).

Definition deny {A : Type} : M A := raise DelegationDenied.
Definition of_res {A : Type} (r : res A) : M A := match r with Ok a => ret a | Raise e => raise (Exc e) end.
(** [if c: raise DelegationDenied(...)] *)
Definition deny_if (c : bool) : M unit := if c then deny else ret tt.

Definition MAX_TASK_BYTES : Z := 4096.
Definition MAX_RESULT_BYTES : Z := 8192.

Section Service.
Context `{Hashing} (config : MultiAgentConfig).

(** ** Before the task exists *)
Definition grant_covers (ctx : ToolCallContext) (now : Z) (g : CapabilityGrant) : bool :=
  bool_decide (cg_tenant_id g = rs_tenant_id (dx_scope ctx)) && bool_decide (cg_product_id g = rs_product_id (dx_scope ctx))
  && bool_decide (cg_principal_id g = Some (rs_principal_id (dx_scope ctx))) && bool_decide (dx_tool_identity ctx ∈ cg_tool_identities g)
  && (cg_issued_at g <=? now) && (now <? cg_expires_at g).

(** One tool of the role; what the parent lacks is left out. *)
Definition narrow (parent : CapabilityGrant) (acc : list ToolIdentity * gset string) (alias : string) : M (list ToolIdentity * gset string) :=
  do r <- resolve_tool alias in
  match r with
  | None => deny
  | Some (identity, spec) =>
      if negb (bool_decide (identity ∈ cg_tool_identities parent)) || negb (bool_decide (ts_required_capabilities spec ⊆ cg_capabilities parent))
      then ret acc
      else ret (acc.1 ++ [identity], acc.2 ∪ ts_required_capabilities spec)
  end.

Definition json_opt (v : option string) : json := match v with None => JNull | Some s => JStr s end.

(** [task_digest] *)
Definition task_digest (ctx : ToolCallContext) (role : AgentRoleDefinition) (grant_id task : string) (identities : list ToolIdentity) : string :=
  let scope := dx_scope ctx in
  sha256_hex (canonical_text (JObj
    [("task", JStr task); ("role_id", JStr (ro_role_id role)); ("role_instruction", JStr (ro_instruction role));
     ("model_route", JStr (ro_model_route role)); ("grant_id", JStr grant_id);
     ("allowed_tools", JList (JStr <$> merge_sort String.le (canonical_id <$> identities)));
     ("read_only", JBool (dx_read_only ctx));
     ("agent_id", json_opt (path_agent_id (rs_path scope))); ("session_id", json_opt (path_session_id (rs_path scope)));
     ("session_owner_id", JStr (effective_session_owner_id scope)); ("principal_id", JStr (rs_principal_id scope));
     ("channel_id", JStr (rs_channel_id scope)); ("roles", JList (JStr <$> merge_sort String.le (elements (rs_roles scope))));
     ("purpose", JStr (rs_purpose scope))])).

Definition task_json (task_id : string) (status : AgentTaskStatus) (output : json) : json :=
  JObj [("task_id", JStr task_id); ("status", JStr (task_status_value status)); ("output", output)].

(** [_recorded_result] *)
Definition recorded_result (r : AgentTaskRecord) : M json :=
  match tk_status r, tk_result r with
  | SUCCEEDED, Some text => match loads text with Some v => ret (task_json (tk_task_id r) SUCCEEDED v) | None => raise (Exc ValueError) end
  | s, _ => ret (task_json (tk_task_id r) s JNull)
  end.

(** ** The child *)

(** [product.agent(...)]: the path, the request and the effect scope *)
Definition child_path (product : ScopePath) (record : AgentTaskRecord) : res ScopePath :=
  agent_path (default "" (path_tenant_id product)) (default "" (path_product_id product)) (tk_child_agent_id record) (tk_child_session_id record).

Definition child_request_scope (ctx : ToolCallContext) (path : ScopePath) (owner : option string) : RequestScope :=
  let scope := dx_scope ctx in
  MkRequestScope path (rs_principal_id scope) (rs_channel_id scope) (rs_roles scope) "delegated-agent" (rs_request_id scope)
    (rs_correlation_id scope) owner.

Definition child_narrower (ctx : ToolCallContext) (parent child : CapabilityGrant) (identities : list ToolIdentity) (capabilities : gset string) : bool :=
  bool_decide (cg_tenant_id child = rs_tenant_id (dx_scope ctx)) && bool_decide (cg_product_id child = rs_product_id (dx_scope ctx))
  && bool_decide (cg_principal_id child = Some (rs_principal_id (dx_scope ctx))) && bool_decide (cg_tool_identities child = list_to_set identities)
  && bool_decide (cg_capabilities child = capabilities) && (cg_expires_at child <=? cg_expires_at parent).

Definition delegated_event (ctx : ToolCallContext) (role : AgentRoleDefinition) (record : AgentTaskRecord) (event_id : string) (at_ : Z) : AuditEvent :=
  let scope := dx_scope ctx in
  MkAuditEvent event_id AGENT_DELEGATED at_ (rs_tenant_id scope) (rs_product_id scope) (rs_principal_id scope) (rs_request_id scope)
    (rs_correlation_id scope) (rs_purpose scope) (dx_run_id ctx) (rs_channel_id scope) (Some (dx_call_id ctx)) (Some "agent.delegate")
    (Some (dx_tool_identity ctx))
    [("task_id", JStr (tk_task_id record)); ("child_run_id", JStr (tk_child_run_id record)); ("role_id", JStr (ro_role_id role))].

Definition child_request (ctx : ToolCallContext) (limits : Z * Z) (max_parallel remaining : Z) (record : AgentTaskRecord) (scope : RequestScope)
    (grant : CapabilityGrant) (task : string) : res RunRequest :=
  let! budget := execution_budget (MkExecutionBudget (Z.min 4 limits.1) (Z.min 8 limits.2) (Z.min max_parallel 2) remaining) in
  run_request (MkRunRequest (tk_child_run_id record) scope (cg_grant_id grant) (JStr task) (MkConversationContext [] false "" "" false)
    (dx_read_only ctx) budget None).

(** The workflow must honour the model route of the role. *)
Definition route_workflow (role : AgentRoleDefinition) (kind : workflow_kind) : M unit :=
  match kind with
  | WReAct => of_res (guard (negb (is_blank (ro_model_route role))) ValueError)
  | WRoleRouted => do ok <- with_role_route (ro_role_id role) (ro_model_route role) in deny_if (negb ok)
  | WCustom => deny
  end.

(** [_finalize] *)
Definition final_status (s : RunStatus) : AgentTaskStatus :=
  match s with RUN_SUCCEEDED => SUCCEEDED | RUN_CANCELLED => CANCELLED | RUN_TIMED_OUT => TIMED_OUT | _ => FAILED end.

(** The status, the output and its text; an output that is too long fails the task. *)
Definition final_outcome (result : RunResult) : AgentTaskStatus * json * option string :=
  let target := final_status (rr_status result) in
  let output := if decide (target = SUCCEEDED) then rr_output result else JNull in
  if decide (output = JNull) then (target, JNull, None)
  else
    let encoded := canonical_text output in
    if MAX_RESULT_BYTES <? byte_len encoded then (FAILED, JNull, None) else (target, output, Some encoded).

Definition final_failure (target : AgentTaskStatus) : option string :=
  if decide (target = SUCCEEDED) then None else Some "delegated child did not complete".

Definition finalize (task_id run_id : string) (result : RunResult) : M json :=
  let '(target, output, encoded) := final_outcome result in
  do updated <- transition task_id RUNNING target run_id encoded (final_failure target) in
  do _ <- deny_if (negb updated) in
  ret (task_json task_id target output).

Definition set_child (l : locals) : locals := MkLocals true (lo_grant l) (lo_slot l).
Definition set_slot (b : bool) (l : locals) : locals := MkLocals (lo_child l) (lo_grant l) b.
Definition set_grant (g : CapabilityGrant) (l : locals) : locals := MkLocals (lo_child l) (Some g) (lo_slot l).

(** After the child ran *)
Definition conclude (ctx : ToolCallContext) (grant_id : string) (parent : CapabilityGrant) (record : AgentTaskRecord) (result : RunResult) : M json :=
  do current <- resolve_grant grant_id in
  do at_ <- now in
  do live <- (if negb (bool_decide (current = Some parent)) || negb ((cg_issued_at parent <=? at_) && (at_ <? cg_expires_at parent)) then ret false
              else do c <- cancel_set in ret (negb c)) in
  if negb live then
    do _ <- cancel_children (dx_run_id ctx) in
    ret (task_json (tk_task_id record) CANCELLED JNull)
  else finalize (tk_task_id record) (dx_run_id ctx) result.

(** The [try] block *)
Definition delegate_child (ctx : ToolCallContext) (grant_id task : string) (limits : Z * Z) (p : MultiAgentProductConfig) (role : AgentRoleDefinition)
    (parent : CapabilityGrant) (product : ScopePath) (identities : list ToolIdentity) (capabilities : gset string) (remaining : Z)
    (record : AgentTaskRecord) : M json :=
  do path <- of_res (child_path product record) in
  do _ <- of_res (request_scope (child_request_scope ctx path None)) in
  do _ <- open_child path in
  do _ <- update set_child in
  do scope <- of_res (request_scope (child_request_scope ctx path (Some (effective_session_owner_id (dx_scope ctx))))) in
  do slot <- take_slot (ma_max_parallel p) in
  do _ <- update (set_slot slot) in
  if negb slot then
    do _ <- transition (tk_task_id record) QUEUED TIMED_OUT (dx_run_id ctx) None (Some "delegated child deadline expired while waiting") in
    ret (task_json (tk_task_id record) TIMED_OUT JNull)
  else
    do child <- issue_child grant_id (rs_path scope) identities capabilities (rs_principal_id (dx_scope ctx)) remaining in
    do _ <- update (set_grant child) in
    do _ <- deny_if (negb (child_narrower ctx parent child identities capabilities)) in
    do running <- transition (tk_task_id record) QUEUED RUNNING (dx_run_id ctx) None None in
    do _ <- deny_if (negb running) in
    do event_id <- uuid4 in
    do at_ <- now in
    do event <- of_res (audit_event (delegated_event ctx role record event_id at_)) in
    do _ <- journal event in
    do request <- of_res (child_request ctx limits (ma_max_parallel p) remaining record scope child task) in
    do kind <- strategies (rs_product_id (dx_scope ctx)) in
    do _ <- route_workflow role kind in
    do result <- run_child request (ro_instruction role) (ro_model_route role) in
    conclude ctx grant_id parent record result.

(** The [except] clauses *)
Definition fail_task (ctx : ToolCallContext) (record : AgentTaskRecord) (x : exc) : M json :=
  if is_cancelled x then do _ <- cancel_children (dx_run_id ctx) in raise x
  else if is_exception x then
    do updated <- transition (tk_task_id record) RUNNING FAILED (dx_run_id ctx) None (Some "delegated child infrastructure failed") in
    do _ <- (if updated then ret true
             else transition (tk_task_id record) QUEUED FAILED (dx_run_id ctx) None (Some "delegated child failed before execution")) in
    raise x
  else raise x.

(** The [finally] block *)
Definition clean_up : M unit :=
  do grant <- gets lo_grant in
  do _ <- match grant with Some g => revoke (cg_grant_id g) | None => ret tt end in
  do slot <- gets lo_slot in
  do _ <- (if slot then release_slot else ret tt) in
  do child <- gets lo_child in
  if child then close_child else ret tt.

(** [except (AgentTaskCancelledError, AgentTaskIdempotencyConflictError)] *)
Definition refused_task (x : exc) : exc :=
  match x with TaskError AgentTaskCancelledError | TaskError AgentTaskIdempotencyConflictError => DelegationDenied | _ => x end.

(** From the digest on *)
Definition delegate_once (ctx : ToolCallContext) (grant_id task : string) (limits : Z * Z) (p : MultiAgentProductConfig) (role : AgentRoleDefinition)
    (parent : CapabilityGrant) (product : ScopePath) (at_ : Z) (identities : list ToolIdentity) (capabilities : gset string) : M json :=
  let digest := task_digest ctx role grant_id task identities in
  do prior <- get_by_call (dx_run_id ctx) (dx_call_id ctx) in
  match prior with
  | Some prior =>
      if negb (bool_decide (tk_role_id prior = ro_role_id role) && bool_decide (tk_task_digest prior = digest)) then deny
      else if terminal (tk_status prior) then recorded_result prior else deny
  | None =>
      do quota_left <- remaining_seconds in
      let remaining := Z.min (Z.min (dx_remaining ctx) quota_left) (Z.min (cg_expires_at parent - at_) (seconds 45)) - 100000 in
      do _ <- deny_if (remaining <=? 100000) in
      do reserved <- reserve_child (dx_call_id ctx) (ma_max_children p) in
      do _ <- deny_if (negb reserved) in
      do record <- rethrow (create_task (dx_run_id ctx) (dx_call_id ctx) (ro_role_id role) digest) refused_task in
      mfinally
        (mcatch (delegate_child ctx grant_id task limits p role parent product identities capabilities remaining record) (fail_task ctx record))
        clean_up
  end.

(** [delegate] *)
Definition delegate (ctx : ToolCallContext) (role_id task : string) : M json :=
  match dx_grant_id ctx with
  | None => deny
  | Some grant_id =>
      do cancelled <- cancel_set in
      do _ <- deny_if cancelled in
      do _ <- deny_if (is_blank task || (MAX_TASK_BYTES <? byte_len task)) in
      let product_id := rs_product_id (dx_scope ctx) in
      match resolve_role config product_id role_id, policy config product_id, dx_budget ctx with
      | Some role, Some p, Some limits =>
          do quota_left <- remaining_seconds in
          do _ <- deny_if (quota_left <=? 0) in
          do protected <- resolve_tool "agent.delegate" in
          do _ <- deny_if (negb (bool_decide (fst <$> protected = Some (dx_tool_identity ctx)))) in
          do parent <- resolve_grant grant_id in
          do at_ <- now in
          match parent with
          | None => deny
          | Some parent =>
              do _ <- deny_if (negb (grant_covers ctx at_ parent)) in
              do product <- product product_id in
              do _ <- deny_if (negb (bool_decide (path_tenant_id product = path_tenant_id (rs_path (dx_scope ctx))))) in
              do narrowed <- foreach (narrow parent) ([], ∅) (ro_allowed_tools role) in
              delegate_once ctx grant_id task limits p role parent product at_ narrowed.1 narrowed.2
          end
      | _, _, _ => deny
      end
  end.
End Service.
End Delegation.
