(* ===== verification/DelegationProps.v ===== *)
(** * What every delegation satisfies

    Child runs are narrower than their parents, what a delegation acquires is given
    back, replays have no effects, and results are those of the child. *)
From S2P Require Import Prelude PyText Json Scopes ExecModels Prog Tasks AgentTasks Delegation.
Open Scope Z_scope.
Open Scope list_scope.

Module DelegationProps.
Import Tasks AgentTasks Delegation.

Abbreviation ev := (event ans).

Section Props.
Context `{Hashing} (config : dict string MultiAgentProductConfig) (ctx : ToolCallContext) (role_id task : string).

(** ** What may be known at a point of the call *)

(** Questions that change nothing *)
Definition query (e : ev) : Prop :=
  match projT1 e with
  | QCancelSet | QRemaining | QResolveTool _ | QResolveGrant _ | QNow | QProduct _ | QGetByCall _ _ => True
  | _ => False
  end.

(** The tools and capabilities that are left for the child *)
Definition narrowed (parent : CapabilityGrant) (role : AgentRoleDefinition) (h : list ev) (ids : list ToolIdentity) (caps : gset string) : Prop :=
  (forall i, i ∈ ids -> i ∈ cg_tool_identities parent /\ exists alias spec, alias ∈ ro_allowed_tools role /\
     (QResolveTool alias ~> Some (i, spec)) ∈ h /\ ts_required_capabilities spec ⊆ caps) /\
  caps ⊆ cg_capabilities parent.

Record admitted (grant_id : string) (role : AgentRoleDefinition) (p : MultiAgentProductConfig) (limits : Z * Z) (parent : CapabilityGrant)
    (at_ : Z) (product : ScopePath) (ids : list ToolIdentity) (caps : gset string) (h : list ev) : Prop := MkAdmitted {
  ad_grant_id : dx_grant_id ctx = Some grant_id;
  ad_task : is_blank task = false /\ byte_len task <= MAX_TASK_BYTES;
  ad_role : resolve_role config (rs_product_id (dx_scope ctx)) role_id = Some role;
  ad_policy : policy config (rs_product_id (dx_scope ctx)) = Some p;
  ad_limits : dx_budget ctx = Some limits;
  ad_tool : exists spec, (QResolveTool "agent.delegate" ~> Some (dx_tool_identity ctx, spec)) ∈ h;
  ad_parent : (QResolveGrant grant_id ~> inr (Some parent)) ∈ h;
  ad_now : (QNow ~> at_) ∈ h;
  ad_covers : grant_covers ctx at_ parent = true;
  ad_product : path_tenant_id product = path_tenant_id (rs_path (dx_scope ctx));
  ad_narrowed : narrowed parent role h ids caps;
}.

Lemma narrowed_mono parent role h h' ids caps : h ⊆ h' -> narrowed parent role h ids caps -> narrowed parent role h' ids caps.
Proof.
  intros Hs [Hi Hc]. split; [|done]. intros i Hin. destruct (Hi i Hin) as (Hp & alias & spec & Ha & He & Hr). split; [done|].
  exists alias, spec. split_and!; [done|by apply Hs|done].
Qed.

Lemma admitted_mono grant_id role p limits parent at_ product ids caps h h' : h ⊆ h' ->
  admitted grant_id role p limits parent at_ product ids caps h -> admitted grant_id role p limits parent at_ product ids caps h'.
Proof.
  intros Hs [A B C D E F G K L O Q]. split; try done; [|by apply Hs|by apply Hs|by eapply narrowed_mono].
  destruct F as [spec F]. exists spec. by apply Hs.
Qed.

(** ** What was acquired *)
Record tracked (l : locals) (h : list ev) : Prop := MkTracked {
  tr_grant : forall g s ids caps i n child, (QIssueChild g s ids caps i n ~> inr child) ∈ h -> lo_grant l = Some child;
  tr_slot : forall n, (QTakeSlot n ~> inr true) ∈ h -> lo_slot l = true;
  tr_child : forall path, (QOpenChild path ~> None) ∈ h -> lo_child l = true;
}.

Definition inert (e : ev) : Prop :=
  match projT1 e with QIssueChild _ _ _ _ _ _ | QTakeSlot _ | QOpenChild _ => False | _ => True end.

Lemma tracked_inert e l h : inert e -> tracked l h -> tracked l (e :: h).
Proof.
  intros He [Hg Hs Hc]. split.
  - intros g s ids caps i n child [Heq|Hin]%elem_of_cons; [subst e; done|by eapply Hg].
  - intros n [Heq|Hin]%elem_of_cons; [subst e; done|by eapply Hs].
  - intros path [Heq|Hin]%elem_of_cons; [subst e; done|by eapply Hc].
Qed.

Lemma query_inert e : query e -> inert e.
Proof. destruct e as [q a]. by destruct q. Qed.

Lemma tracked_start l h : (forall e, e ∈ h -> query e) -> tracked l h.
Proof. intros Hq. split; intros * Hin; by apply Hq in Hin. Qed.

(** What is given back in the end *)
Record given_back (h : list ev) : Prop := MkGivenBack {
  gb_grant : forall g s ids caps i n child, (QIssueChild g s ids caps i n ~> inr child) ∈ h -> exists r, (QRevoke (cg_grant_id child) ~> r) ∈ h;
  gb_slot : forall n, (QTakeSlot n ~> inr true) ∈ h ->
    (exists r, (QReleaseSlot ~> r) ∈ h) \/ exists g x, (QRevoke g ~> Some x) ∈ h;
  gb_child : forall path, (QOpenChild path ~> None) ∈ h ->
    (exists r, (QCloseChild ~> r) ∈ h) \/ (exists g x, (QRevoke g ~> Some x) ∈ h) \/ exists x, (QReleaseSlot ~> Some x) ∈ h;
}.

(** [clean_up] asks no question that acquires. *)
Lemma clean_up_wp I l h (R : unit -> locals -> list ev -> Prop) (E : exc -> locals -> list ev -> Prop) :
  tracked l h -> (forall h' e, match projT1 e with QRevoke _ | QReleaseSlot | QCloseChild => True | _ => False end -> I h' e) ->
  (forall h', h ⊆ h' -> given_back h' -> R tt l h') -> (forall x h', h ⊆ h' -> given_back h' -> E x l h') ->
  mwp I clean_up l h R E.
Proof.
  intros Ht HI HR HE. unfold clean_up. apply mwp_bind, mwp_gets.
  (* the three parts, as conditions on what came before *)
  assert (Hback : forall h', h ⊆ h' -> (forall e, e ∈ h' -> e ∈ h \/ inert e) ->
    (forall child, lo_grant l = Some child -> exists r, (QRevoke (cg_grant_id child) ~> r) ∈ h') ->
    (lo_slot l = true -> (exists r, (QReleaseSlot ~> r) ∈ h') \/ exists g x, (QRevoke g ~> Some x) ∈ h') ->
    (lo_child l = true -> (exists r, (QCloseChild ~> r) ∈ h') \/ (exists g x, (QRevoke g ~> Some x) ∈ h') \/ exists x, (QReleaseSlot ~> Some x) ∈ h') ->
    given_back h').
  { intros h' Hs Hnew H1 H2 H3. split.
    - intros g s ids caps i n child [Hin|Hno]%Hnew; [|done]. apply H1. by eapply (tr_grant _ _ Ht).
    - intros n [Hin|Hno]%Hnew; [|done]. apply H2. by eapply (tr_slot _ _ Ht).
    - intros path [Hin|Hno]%Hnew; [|done]. apply H3. by eapply (tr_child _ _ Ht). }
  set (Rev := fun h1 : list ev => forall child, lo_grant l = Some child -> exists r, (QRevoke (cg_grant_id child) ~> r) ∈ h1).
  set (Rel := fun h1 : list ev => lo_slot l = true -> (exists r, (QReleaseSlot ~> r) ∈ h1) \/ exists g x, (QRevoke g ~> Some x) ∈ h1).
  set (New := fun h1 : list ev => h ⊆ h1 /\ forall e, e ∈ h1 -> e ∈ h \/ inert e).
  assert (Hclose : forall h1, New h1 -> Rev h1 -> Rel h1 -> mwp I (do child <- gets lo_child in if child then close_child else ret tt) l h1 R E).
  { intros h1 [Hs Hn] Hrev Hrel. apply mwp_bind, mwp_gets. destruct (lo_child l) eqn:Hc.
    - apply mwp_ask. intros a. split; [by apply HI|]. assert (Hgb : given_back ((QCloseChild ~> a) :: h1)).
      { apply Hback; [set_solver| | | |].
        - intros e [->|He]%elem_of_cons; [by right|by apply Hn].
        - intros child Hg. destruct (Hrev child Hg) as [r Hr]. exists r. by right.
        - intros Hslot. destruct (Hrel Hslot) as [[r Hr]|(g & x & Hr)]; [left; exists r; by right|right; exists g, x; by right].
        - intros _. left. exists a. by left. }
      destruct a as [x|]; simpl; [apply HE|apply HR]; try done; set_solver.
    - apply mwp_ret, HR; [done|]. apply Hback; done. }
  assert (Hslot : forall h1, New h1 -> Rev h1 -> mwp I (do slot <- gets lo_slot in do _ <- (if slot then release_slot else ret tt) in
      do child <- gets lo_child in if child then close_child else ret tt) l h1 R E).
  { intros h1 [Hs Hn] Hrev. apply mwp_bind, mwp_gets, mwp_bind. destruct (lo_slot l) eqn:Hc.
    - apply mwp_ask. intros a. split; [by apply HI|]. assert (Hn2 : New ((QReleaseSlot ~> a) :: h1)).
      { split; [set_solver|]. intros e [->|He]%elem_of_cons; [by right|by apply Hn]. }
      assert (Hrev2 : Rev ((QReleaseSlot ~> a) :: h1)) by (intros child Hg; destruct (Hrev child Hg) as [r Hr]; exists r; by right).
      assert (Hrel2 : Rel ((QReleaseSlot ~> a) :: h1)) by (intros _; left; exists a; by left).
      destruct a as [x|]; simpl; [|by apply Hclose]. apply HE; [apply Hn2|]. apply Hback; [apply Hn2|apply Hn2|done|done|].
      intros _. right. right. exists x. by left.
    - apply mwp_ret, Hclose; [done|done|]. intros Hx. congruence. }
  apply mwp_bind. destruct (lo_grant l) as [g|] eqn:Hg.
  - apply mwp_ask. intros a. split; [by apply HI|]. assert (Hn2 : New ((QRevoke (cg_grant_id g) ~> a) :: h)).
    { split; [set_solver|]. intros e [->|He]%elem_of_cons; [by right|by left]. }
    assert (Hrev2 : Rev ((QRevoke (cg_grant_id g) ~> a) :: h)) by (intros child Hch; assert (child = g) as -> by congruence; exists a; by left).
    destruct a as [x|]; simpl; [|by apply Hslot]. apply HE; [apply Hn2|]. apply Hback; [apply Hn2|apply Hn2|done| |].
    + intros _. right. exists (cg_grant_id g), x. by left.
    + intros _. right. left. exists (cg_grant_id g), x. by left.
  - apply mwp_ret, Hslot; [split; [done|by left]|]. intros child Hch. congruence.
Qed.

(** ** The child's run *)

(** What precedes a child run *)
Record sanctioned_by (grant_id : string) (role : AgentRoleDefinition) (p : MultiAgentProductConfig) (limits : Z * Z) (parent : CapabilityGrant)
    (at_ : Z) (product : ScopePath) (ids : list ToolIdentity) (caps : gset string) (record : AgentTaskRecord) (child : CapabilityGrant) (path : ScopePath)
    (remaining : Z) (h : list ev) : Prop := MkSanctioned {
  sn_admitted : admitted grant_id role p limits parent at_ product ids caps h;
  sn_reserved : (QReserveChild (dx_call_id ctx) (ma_max_children p) ~> inr true) ∈ h;
  sn_slot : (QTakeSlot (ma_max_parallel p) ~> inr true) ∈ h;
  sn_issued : (QIssueChild grant_id path ids caps (rs_principal_id (dx_scope ctx)) remaining ~> inr child) ∈ h;
  sn_narrower : child_narrower ctx parent child ids caps = true;
  sn_running : (QTransition (tk_task_id record) QUEUED RUNNING (dx_run_id ctx) None None ~> inr true) ∈ h;
  sn_journal : exists event_id t, (QJournal (delegated_event ctx role record event_id t) ~> None) ∈ h;
  sn_path : child_path product record = Ok path;
  sn_remaining : remaining <= seconds 45 /\ remaining < dx_remaining ctx /\ remaining < cg_expires_at parent - at_;
}.

Definition sanctioned (h : list ev) (request : RunRequest) (instruction route : string) : Prop :=
  exists grant_id role p limits parent at_ product ids caps record child path remaining,
    sanctioned_by grant_id role p limits parent at_ product ids caps record child path remaining h /\
    child_request ctx limits (ma_max_parallel p) remaining record
      (child_request_scope ctx path (Some (effective_session_owner_id (dx_scope ctx)))) child task = Ok request /\
    instruction = ro_instruction role /\ route = ro_model_route role.

Definition guard (h : list ev) (e : ev) : Prop :=
  match projT1 e with QRunChild request instruction route => sanctioned h request instruction route | QGetByCall _ _ => False | _ => True end.

(** What a delegation that reached its child returns *)
Inductive returned (h : list ev) : json -> Prop :=
| returned_late task_id ok : ((QTransition task_id QUEUED TIMED_OUT (dx_run_id ctx) None (Some "delegated child deadline expired while waiting") ~> inr ok) : ev) ∈ h ->
    returned h (task_json task_id TIMED_OUT JNull)
| returned_cancelled task_id : ((QCancelChildren (dx_run_id ctx) ~> None) : ev) ∈ h -> returned h (task_json task_id CANCELLED JNull)
| returned_result grant_id parent task_id request instruction route result target output encoded failure :
    ((QRunChild request instruction route ~> inr result) : ev) ∈ h -> final_outcome result = (target, output, encoded) ->
    (exists before after : list ev, h = after ++ ((QResolveGrant grant_id ~> inr (Some parent)) : ev) :: before /\
       ((QRunChild request instruction route ~> inr result) : ev) ∈ before /\ ((QResolveGrant grant_id ~> inr (Some parent)) : ev) ∈ before) ->
    ((QTransition task_id RUNNING target (dx_run_id ctx) encoded failure ~> inr true) : ev) ∈ h ->
    returned h (task_json task_id target output).

Lemma mwp_of_res {A : Type} I (r : res A) l h (R : A -> locals -> list ev -> Prop) (E : exc -> locals -> list ev -> Prop) :
  (forall a, r = Ok a -> R a l h) -> (forall e, r = Raise e -> E (Exc e) l h) -> mwp I (of_res r) l h R E.
Proof. intros HR HE. destruct r; [by apply HR|by apply HE]. Qed.

Lemma mwp_deny_if I c l h (R : unit -> locals -> list ev -> Prop) (E : exc -> locals -> list ev -> Prop) :
  (c = false -> R tt l h) -> (c = true -> E DelegationDenied l h) -> mwp I (deny_if c) l h R E.
Proof. intros HR HE. destruct c; [by apply HE|by apply HR]. Qed.

(** The state of knowledge in the [try] block *)
Definition known (l : locals) (h0 h : list ev) : Prop := h0 ⊆ h /\ tracked l h.

Lemma known_event e l h0 h : inert e -> known l h0 h -> known l h0 (e :: h).
Proof. intros He [Hs Ht]. split; [set_solver|by apply tracked_inert]. Qed.

Lemma known_opened path l h0 h : known l h0 h -> known (set_child l) h0 ((QOpenChild path ~> None) :: h).
Proof.
  intros [Hs [Hg Ht Hc]]. split; [set_solver|]. split; simpl; [|intros n [Heq|Hin]%elem_of_cons; [done|by eapply Ht]|done].
  intros g s ids caps i n child [Heq|Hin]%elem_of_cons; [done|by eapply Hg].
Qed.

Lemma known_open_failed path x l h0 h : known l h0 h -> known l h0 ((QOpenChild path ~> Some x) :: h).
Proof.
  intros [Hs [Hg Ht Hc]]. split; [set_solver|]. split.
  - intros g s ids caps i n child [Heq|Hin]%elem_of_cons; [done|by eapply Hg].
  - intros n [Heq|Hin]%elem_of_cons; [done|by eapply Ht].
  - intros p [Heq|Hin]%elem_of_cons; [|by eapply Hc]. by apply (f_equal (fun e : ev => match e with existT (QOpenChild _) None => true | _ => false end)) in Heq.
Qed.

Lemma known_slot n b l h0 h : lo_slot l = false -> known l h0 h -> known (set_slot b l) h0 ((QTakeSlot n ~> inr b) :: h).
Proof.
  intros Hl [Hs [Hg Ht Hc]]. split; [set_solver|]. split; simpl.
  - intros g s ids caps i m child [Heq|Hin]%elem_of_cons; [done|by eapply Hg].
  - intros m [Heq|Hin]%elem_of_cons; [|apply Ht in Hin; congruence].
    destruct b; [done|]. by apply (f_equal (fun e : ev => match e with existT (QTakeSlot _) (inr true) => true | _ => false end)) in Heq.
  - intros p [Heq|Hin]%elem_of_cons; [done|by eapply Hc].
Qed.

Lemma known_slot_failed n x l h0 h : known l h0 h -> known l h0 ((QTakeSlot n ~> inl x) :: h).
Proof.
  intros [Hs [Hg Ht Hc]]. split; [set_solver|]. split.
  - intros g s ids caps i m child [Heq|Hin]%elem_of_cons; [done|by eapply Hg].
  - intros m [Heq|Hin]%elem_of_cons; [|by eapply Ht]. by apply (f_equal (fun e : ev => match e with existT (QTakeSlot _) (inr true) => true | _ => false end)) in Heq.
  - intros p [Heq|Hin]%elem_of_cons; [done|by eapply Hc].
Qed.

Lemma known_issued g s ids caps i n child l h0 h : lo_grant l = None -> known l h0 h ->
  known (set_grant child l) h0 ((QIssueChild g s ids caps i n ~> inr child) :: h).
Proof.
  intros Hl [Hs [Hg Ht Hc]]. split; [set_solver|]. split; simpl.
  - intros g' s' ids' caps' i' n' child' [Heq|Hin]%elem_of_cons; [|apply Hg in Hin; congruence].
    apply (f_equal (fun e : ev => match e with existT (QIssueChild _ _ _ _ _ _) (inr c) => Some c | _ => None end)) in Heq. by injection Heq as ->.
  - intros m [Heq|Hin]%elem_of_cons; [done|by eapply Ht].
  - intros p [Heq|Hin]%elem_of_cons; [done|by eapply Hc].
Qed.

Lemma known_issue_failed g s ids caps i n x l h0 h : known l h0 h -> known l h0 ((QIssueChild g s ids caps i n ~> inl x) :: h).
Proof.
  intros [Hs [Hg Ht Hc]]. split; [set_solver|]. split.
  - intros g' s' ids' caps' i' n' child' [Heq|Hin]%elem_of_cons; [|by eapply Hg].
    by apply (f_equal (fun e : ev => match e with existT (QIssueChild _ _ _ _ _ _) (inr c) => Some c | _ => None end)) in Heq.
  - intros m [Heq|Hin]%elem_of_cons; [done|by eapply Ht].
  - intros p [Heq|Hin]%elem_of_cons; [done|by eapply Hc].
Qed.

Lemma finalize_wp I task_id result l h0 h (R : json -> locals -> list ev -> Prop) :
  (forall h' e, match projT1 e with QTransition _ _ _ _ _ _ => True | _ => False end -> I h' e) -> known l h0 h ->
  (forall target output encoded failure h', final_outcome result = (target, output, encoded) ->
     h' = (QTransition task_id RUNNING target (dx_run_id ctx) encoded failure ~> inr true) :: h -> known l h0 h' -> R (task_json task_id target output) l h') ->
  mwp I (finalize task_id (dx_run_id ctx) result) l h R (fun _ l' h' => known l' h0 h').
Proof.
  intros HI Hk HR. unfold finalize. destruct (final_outcome result) as [[target output] encoded] eqn:Hf. apply mwp_bind, mwp_ask. intros a.
  split; [by apply HI|]. pose proof (known_event (QTransition task_id RUNNING target (dx_run_id ctx) encoded (final_failure target) ~> a) l h0 h Logic.I Hk) as Hk1.
  destruct a as [x|[]]; [done| |]; apply mwp_bind, mwp_deny_if; try done. intros _. apply mwp_ret. by eapply HR.
Qed.

Ltac asked a := apply mwp_bind, mwp_ask; intros a; (split; [done|]).

Lemma conclude_wp grant_id parent record request instruction route result l h0 h :
  known l h0 h -> (QRunChild request instruction route ~> inr result) ∈ h -> (QResolveGrant grant_id ~> inr (Some parent)) ∈ h ->
  mwp guard (conclude ctx grant_id parent record result) l h
    (fun v l' h' => known l' h0 h' /\ returned h' v) (fun _ l' h' => known l' h0 h').
Proof.
  intros Hk Hrun Hpar. unfold conclude. asked a. pose proof (known_event (QResolveGrant grant_id ~> a) l h0 h Logic.I Hk) as Hk1.
  destruct a as [x|current]; [done|]. asked at_. pose proof (known_event (QNow ~> at_) l h0 _ Logic.I Hk1) as Hk2. clear Hk1. simpl.
  set (h2 := (QNow ~> at_) :: (QResolveGrant grant_id ~> inr current) :: h) in *.
  assert (Hcancel : forall h3, known l h0 h3 ->
    mwp guard (do _ <- cancel_children (dx_run_id ctx) in ret (task_json (tk_task_id record) CANCELLED JNull)) l h3
      (fun v l' h' => known l' h0 h' /\ returned h' v) (fun _ l' h' => known l' h0 h')).
  { intros h3 Hk3. asked b. pose proof (known_event (QCancelChildren (dx_run_id ctx) ~> b) l h0 h3 Logic.I Hk3) as Hk4.
    destruct b as [x|]; [done|]. apply mwp_ret. split; [done|]. apply returned_cancelled. by left. }
  assert (Hfinal : forall h3, known l h0 h3 -> current = Some parent -> (exists new, h3 = new ++ h2) ->
    mwp guard (finalize (tk_task_id record) (dx_run_id ctx) result) l h3
      (fun v l' h' => known l' h0 h' /\ returned h' v) (fun _ l' h' => known l' h0 h')).
  { intros h3 Hk3 -> [new Hnew]. apply finalize_wp; [intros h' [q a]; by destruct q|done|].
    intros target output encoded failure h' Hf Hh' Hk'. split; [done|]. eapply (returned_result _ grant_id parent); [|exact Hf| |].
    - rewrite Hh', Hnew. right. apply elem_of_app. right. do 2 right. exact Hrun.
    - exists h, ((QTransition (tk_task_id record) RUNNING target (dx_run_id ctx) encoded failure ~> inr true) :: new ++ [QNow ~> at_]).
      split_and!; [|done|done]. rewrite Hh', Hnew. unfold h2. simpl. by rewrite <- app_assoc.
    - rewrite Hh'. by left. }
  apply mwp_bind. destruct (negb (bool_decide (current = Some parent)) || negb ((cg_issued_at parent <=? at_) && (at_ <? cg_expires_at parent))) eqn:Hc.
  - apply mwp_ret. simpl. by apply Hcancel.
  - apply orb_false_iff in Hc as [Hcur%negb_false_iff%bool_decide_eq_true _]. asked b. pose proof (known_event (QCancelSet ~> b) l h0 h2 Logic.I Hk2) as Hk3.
    apply mwp_ret. destruct b; simpl; [by apply Hcancel|]. apply Hfinal; [done|done|]. by exists [QCancelSet ~> false].
Qed.

Lemma delegate_child_wp grant_id role p limits parent at_ product ids caps remaining record l h :
  admitted grant_id role p limits parent at_ product ids caps h -> (QReserveChild (dx_call_id ctx) (ma_max_children p) ~> inr true) ∈ h ->
  remaining <= seconds 45 /\ remaining < dx_remaining ctx /\ remaining < cg_expires_at parent - at_ ->
  l = MkLocals false None false -> tracked l h ->
  mwp guard (delegate_child ctx grant_id task limits p role parent product ids caps remaining record) l h
    (fun v l' h' => known l' h h' /\ returned h' v) (fun _ l' h' => known l' h h').
Proof.
  intros Had Hres Hrem -> Ht. unfold delegate_child. assert (Hk : known (MkLocals false None false) h h) by done.
  apply mwp_bind, mwp_of_res; [intros path Hpath|done]. apply mwp_bind, mwp_of_res; [intros _ _|done].
  asked a. destruct a as [x|]; [by apply known_open_failed|]. apply (known_opened path) in Hk. clear Ht. apply mwp_bind, mwp_update.
  set (h1 := (QOpenChild path ~> None) :: h) in *. apply mwp_bind, mwp_of_res; [|done].
  intros scope Hscope. unfold request_scope in Hscope. apply res_bind_Ok in Hscope as (_ & _ & [= <-]).
  asked a. destruct a as [x|slot]; [by apply known_slot_failed|]. apply (known_slot (ma_max_parallel p) slot) in Hk; [|done]. apply mwp_bind, mwp_update.
  set (h2 := (QTakeSlot (ma_max_parallel p) ~> inr slot) :: h1) in *. destruct slot; simpl negb; cbv iota.
  2: { asked a. match goal with |- context [(QTransition ?t ?e ?g ?r ?o ?f ~> a) :: h2] => pose proof (known_event (QTransition t e g r o f ~> a) _ _ _ Logic.I Hk) as Hk1 end.
    destruct a as [x|ok]; [done|]. apply mwp_ret. split; [done|]. eapply returned_late. by left. }
  asked a. destruct a as [x|child]; [by apply known_issue_failed|].
  match goal with |- context [(QIssueChild ?g ?s ?i ?c ?n ?d ~> inr child) :: h2] => apply (known_issued g s i c n d child) in Hk; [|done] end. apply mwp_bind, mwp_update.
  match goal with |- context [(QIssueChild ?g ?s ?i ?c ?n ?d ~> inr child) :: h2] => set (h3 := (QIssueChild g s i c n d ~> inr child) :: h2) in * end.
  set (l3 := set_grant child _) in *. clearbody l3.
  apply mwp_bind, mwp_deny_if; [intros Hnarrow%negb_false_iff|done].
  asked a. pose proof (known_event (QTransition (tk_task_id record) QUEUED RUNNING (dx_run_id ctx) None None ~> a) _ _ _ Logic.I Hk) as Hk4. clear Hk.
  destruct a as [x|running]; [done|]. apply mwp_bind, mwp_deny_if; [intros ->%negb_false_iff|done].
  asked event_id. apply (known_event (QUuid ~> event_id) _ _ _ Logic.I) in Hk4. asked t. apply (known_event (QNow ~> t) _ _ _ Logic.I) in Hk4.
  apply mwp_bind, mwp_of_res; [|done]. intros event Hev. asked a.
  apply (known_event (QJournal event ~> a) _ _ _ Logic.I) in Hk4. destruct a as [x|]; [done|].
  apply mwp_bind, mwp_of_res; [|done]. intros request Hreq. asked a.
  apply (known_event (QStrategies (rs_product_id (dx_scope ctx)) ~> a) _ _ _ Logic.I) in Hk4. destruct a as [x|kind]; [done|].
  match type of Hk4 with known _ _ ?h' => set (h4 := h') in * end.
  assert (Hsanc : forall h5, h4 ⊆ h5 -> sanctioned h5 request (ro_instruction role) (ro_model_route role)).
  { intros h5 Hsub. exists grant_id, role, p, limits, parent, at_, product, ids, caps, record, child, path, remaining. split_and!; [|exact Hreq|done|done].
    assert (Hin : forall e, e ∈ h3 -> e ∈ h5) by (intros e He; apply Hsub; unfold h4; set_solver).
    assert (Hin0 : forall e, e ∈ h -> e ∈ h5) by (intros e He; apply Hin; unfold h3, h2, h1; set_solver). split.
    - by eapply admitted_mono.
    - by apply Hin0.
    - apply Hin. unfold h3, h2. right. by left.
    - apply Hin. by left.
    - done.
    - apply Hsub. unfold h4. do 4 right. by left.
    - exists event_id, t. unfold audit_event in Hev. assert (event = delegated_event ctx role record event_id t) as <- by (py_simpl; congruence).
      apply Hsub. unfold h4. right. by left.
    - done.
    - done. }
  assert (Hrunning : forall h5, h4 ⊆ h5 -> known l3 h h5 ->
    mwp guard (do result <- run_child request (ro_instruction role) (ro_model_route role) in conclude ctx grant_id parent record result) l3 h5
      (fun v l' h' => known l' h h' /\ returned h' v) (fun _ l' h' => known l' h h')).
  { intros h5 Hsub Hk5. apply mwp_bind, mwp_ask. intros a. split; [by apply Hsanc|].
    apply (known_event (QRunChild request (ro_instruction role) (ro_model_route role) ~> a) _ _ _ Logic.I) in Hk5.
    destruct a as [x|result]; [done|]. eapply conclude_wp; [done|by left|]. right. apply Hsub. unfold h4, h3, h2, h1.
    do 8 right. apply (ad_parent _ _ _ _ _ _ _ _ _ _ Had). }
  apply mwp_bind. unfold route_workflow. destruct kind.
  - apply mwp_of_res; [|done]. intros _ _. by apply Hrunning.
  - asked a. apply (known_event (QWithRoleRoute (ro_role_id role) (ro_model_route role) ~> a) _ _ _ Logic.I) in Hk4.
    destruct a as [x|ok]; [done|]. apply mwp_deny_if; [|done]. intros _. apply Hrunning; [|done]. set_solver.
  - done.
Qed.

(** The [except] clauses re-raise and acquire nothing. *)
Lemma fail_task_wp record x l h0 h : known l h0 h ->
  mwp guard (fail_task ctx record x) l h (fun _ _ _ => False) (fun _ l' h' => known l' h0 h').
Proof.
  intros Hk. unfold fail_task. destruct (is_cancelled x).
  - asked a. apply (known_event (QCancelChildren (dx_run_id ctx) ~> a) _ _ _ Logic.I) in Hk. destruct a; done.
  - destruct (is_exception x); [|done]. asked a.
    match goal with |- context [(QTransition ?t ?e ?g ?r ?o ?f ~> a) :: h] => apply (known_event (QTransition t e g r o f ~> a) _ _ _ Logic.I) in Hk end.
    destruct a as [y|[]]; [done|done|]. simpl. apply mwp_bind, mwp_ask. intros a. split; [done|].
    match goal with |- context [(QTransition ?t ?e ?g ?r ?o ?f ~> a) :: _] => apply (known_event (QTransition t e g r o f ~> a) _ _ _ Logic.I) in Hk end.
    destruct a; done.
Qed.

(** ** Before the task exists *)

(** Every way through the checks: they ask queries, none of them about an earlier task. *)
Definition fresh (h : list ev) : Prop := forall e, e ∈ h -> query e /\ match projT1 e with QGetByCall _ _ => False | _ => True end.

Lemma fresh_ask e h : query e -> match projT1 e with QGetByCall _ _ => False | _ => True end -> fresh h -> fresh (e :: h).
Proof. intros Hq Hg Hf e' [->|He]%elem_of_cons; [done|by apply Hf]. Qed.

Lemma narrow_wp (I : list ev -> ev -> Prop) parent role l h (R : list ToolIdentity * gset string -> locals -> list ev -> Prop) (E : exc -> locals -> list ev -> Prop) :
  (forall h e, query e -> I h e) -> fresh h -> (forall x h', fresh h' -> E x l h') ->
  (forall ids caps h', fresh h' -> h ⊆ h' -> narrowed parent role h' ids caps -> R (ids, caps) l h') ->
  mwp I (foreach (narrow parent) ([], ∅) (ro_allowed_tools role)) l h R E.
Proof.
  intros HI Hf HE HR.
  apply (mwp_foreach I (fun seen acc l' h' => l' = l /\ fresh h' /\ h ⊆ h' /\ narrowed parent role h' acc.1 acc.2)).
  - split_and!; [done|done|done|]. split; simpl; [by intros i Hi%not_elem_of_nil|set_solver].
  - intros seen alias rest [ids caps] l' h' Heq (-> & Hf' & Hs & [Hi Hc]). simpl in Hi, Hc. unfold narrow. apply mwp_bind, mwp_ask. intros a.
    split; [by apply HI|]. assert (Hf2 : fresh ((QResolveTool alias ~> a) :: h')) by (by apply fresh_ask).
    assert (Halias : alias ∈ ro_allowed_tools role) by (rewrite Heq; set_solver).
    assert (Hkeep : narrowed parent role ((QResolveTool alias ~> a) :: h') ids caps) by (eapply narrowed_mono; [|by split]; set_solver).
    destruct a as [[i spec]|]; [|by apply HE]. destruct (_ || _) eqn:Hbad; apply mwp_ret; (split_and!; [done|done|set_solver|]); [done|].
    apply orb_false_iff in Hbad as [Hp%negb_false_iff%bool_decide_eq_true Hcap%negb_false_iff%bool_decide_eq_true]. simpl.
    destruct Hkeep as [Hi2 Hc2]. split; [|set_solver]. intros j [Hj|Hj%list_elem_of_singleton]%elem_of_app.
    + destruct (Hi2 j Hj) as (Hp' & alias' & spec' & Ha & He & Hr). split; [done|]. exists alias', spec'. split_and!; [done|done|set_solver].
    + subst j. split; [done|]. exists alias, spec. split_and!; [done|by left|set_solver].
  - intros [ids caps] l' h' (-> & Hf' & Hs & Hn). by apply HR.
Qed.

Lemma delegate_wp (I : list ev -> ev -> Prop) l (R : json -> locals -> list ev -> Prop) (E : exc -> locals -> list ev -> Prop) :
  (forall h e, query e -> I h e) -> (forall x h, fresh h -> E x l h) ->
  (forall grant_id role p limits parent at_ product ids caps h, fresh h ->
     admitted grant_id role p limits parent at_ product ids caps h ->
     mwp I (delegate_once ctx grant_id task limits p role parent product at_ ids caps) l h R E) ->
  mwp I (delegate config ctx role_id task) l [] R E.
Proof.
  intros HI HE Hbody. assert (Hf : fresh []) by (by intros e He%not_elem_of_nil).
  unfold delegate. destruct (dx_grant_id ctx) as [grant_id|] eqn:Hgrant; [|by apply HE].
  apply mwp_bind, mwp_ask. intros a. split; [by apply HI|]. apply (fresh_ask (QCancelSet ~> a)) in Hf; [|done..].
  apply mwp_bind, mwp_deny_if; [intros ->|by intros _; apply HE].
  apply mwp_bind, mwp_deny_if; [intros [Htask Hlen%Z.ltb_ge]%orb_false_iff|by intros _; apply HE].
  destruct (resolve_role config (rs_product_id (dx_scope ctx)) role_id) as [role|] eqn:Hrole; [|by apply HE].
  destruct (policy config (rs_product_id (dx_scope ctx))) as [p|] eqn:Hpolicy; [|by apply HE].
  destruct (dx_budget ctx) as [limits|] eqn:Hlimits; [|by apply HE].
  apply mwp_bind, mwp_ask. intros a. split; [by apply HI|]. apply (fresh_ask (QRemaining ~> a)) in Hf; [|done..].
  apply mwp_bind, mwp_deny_if; [intros _|by intros _; apply HE].
  apply mwp_bind, mwp_ask. intros b. split; [by apply HI|]. apply (fresh_ask (QResolveTool "agent.delegate" ~> b)) in Hf; [|done..].
  apply mwp_bind, mwp_deny_if; [intros Hprot%negb_false_iff%bool_decide_eq_true|by intros _; apply HE].
  assert (Htool : exists spec, b = Some (dx_tool_identity ctx, spec)).
  { destruct b as [[i spec]|]; [|done]. exists spec. simpl in Hprot. by injection Hprot as ->. }
  destruct Htool as [spec ->]. clear Hprot.
  apply mwp_bind, mwp_ask. intros c. split; [by apply HI|]. apply (fresh_ask (QResolveGrant grant_id ~> c)) in Hf; [|done..].
  destruct c as [x|parent]; [by apply HE|].
  apply mwp_bind, mwp_ask. intros at_. split; [by apply HI|]. apply (fresh_ask (QNow ~> at_)) in Hf; [|done..].
  destruct parent as [parent|]; [|by apply HE].
  apply mwp_bind, mwp_deny_if; [intros Hcov%negb_false_iff|by intros _; apply HE].
  apply mwp_bind, mwp_ask. intros d. split; [by apply HI|]. apply (fresh_ask (QProduct (rs_product_id (dx_scope ctx)) ~> d)) in Hf; [|done..].
  destruct d as [x|product]; [by apply HE|].
  apply mwp_bind, mwp_deny_if; [intros Hprod%negb_false_iff%bool_decide_eq_true|by intros _; apply HE].
  apply mwp_bind, narrow_wp; [done|done|done|]. intros ids caps h Hf2 Hs Hn. apply Hbody; [done|]. split; try done.
  - exists spec. apply Hs. do 3 right. by left.
  - apply Hs. do 2 right. by left.
  - apply Hs. right. by left.
Qed.

(** ** The whole call *)
Lemma fresh_gives_back h : fresh h -> given_back h.
Proof. intros Hf. split; intros * Hin; by destruct (Hf _ Hin) as [Hq _]. Qed.

Lemma fresh_tracked l h : fresh h -> tracked l h.
Proof. intros Hf. apply tracked_start. intros e He. by apply Hf. Qed.

Lemma returned_mono h h' v : h ⊆ h' -> (exists new, h' = new ++ h) -> returned h v -> returned h' v.
Proof.
  intros Hs [new Hnew] [task_id ok He|task_id He|grant_id parent task_id request instruction route result target output encoded failure He Hf (before & after & Heq & Hr & Hp) Ht].
  - eapply returned_late. by apply Hs.
  - apply returned_cancelled. by apply Hs.
  - eapply (returned_result _ grant_id parent); [by apply Hs|exact Hf| |by apply Hs]. exists before, (new ++ after). rewrite Hnew, Heq, app_assoc. done.
Qed.

Definition earlier (prior : AgentTaskRecord) (h : list ev) : Prop := ((QGetByCall (dx_run_id ctx) (dx_call_id ctx) ~> inr (Some prior)) : ev) ∈ h.

Definition recorded_output (r : AgentTaskRecord) : option json :=
  match tk_status r, tk_result r with SUCCEEDED, Some text => loads text | _, _ => Some JNull end.

(** What the repetition of a recorded delegation returns *)
Definition replay_of (prior : AgentTaskRecord) (v : json) : Prop :=
  exists grant_id role parent ids caps h, dx_grant_id ctx = Some grant_id /\ resolve_role config (rs_product_id (dx_scope ctx)) role_id = Some role /\
    narrowed parent role h ids caps /\ tk_role_id prior = ro_role_id role /\ tk_task_digest prior = task_digest ctx role grant_id task ids /\
    terminal (tk_status prior) = true /\ exists out, recorded_output prior = Some out /\ v = task_json (tk_task_id prior) (tk_status prior) out.

Definition queries (h : list ev) : Prop := forall e, e ∈ h -> query e.

(** What holds when the call returned, and when it raised *)
Definition delegated (v : json) (h : list ev) : Prop :=
  given_back h /\ (forall prior, earlier prior h -> queries h /\ replay_of prior v) /\ ((exists prior, earlier prior h) \/ returned h v).

Definition refused (h : list ev) : Prop := given_back h /\ forall prior, earlier prior h -> queries h.

Lemma fresh_refused h : fresh h -> refused h.
Proof. intros Hf. split; [by apply fresh_gives_back|]. intros prior Hp e He. by apply Hf. Qed.

Definition allowed_event (h : list ev) (e : ev) : Prop := query e \/ guard h e.

Lemma earlier_unique prior a h : fresh h -> earlier prior ((QGetByCall (dx_run_id ctx) (dx_call_id ctx) ~> a) :: h) -> a = inr (Some prior).
Proof.
  intros Hf [Heq|Hin]%elem_of_cons; [|by destruct (Hf _ Hin)].
  apply (f_equal (fun e : ev => match e with existT (QGetByCall _ _) b => Some b | _ => None end)) in Heq. by injection Heq as <-.
Qed.

(** Once the task is reserved, no earlier task is asked for. *)
Lemma reserved_no_earlier prior h h' : fresh h ->
  (forall e, e ∈ h' -> e ∈ ((QGetByCall (dx_run_id ctx) (dx_call_id ctx) ~> inr None) : ev) :: h \/ exists h1, guard h1 e) -> ~ earlier prior h'.
Proof. intros Hf Hn He. destruct (Hn _ He) as [Hin|[h1 Hg]]; [|done]. by apply earlier_unique in Hin. Qed.

(** The [try] statement: what it acquires it gives back. *)
Lemma guarded_child_wp grant_id role p limits parent at_ product ids caps remaining record h :
  admitted grant_id role p limits parent at_ product ids caps h -> (QReserveChild (dx_call_id ctx) (ma_max_children p) ~> inr true) ∈ h ->
  remaining <= seconds 45 /\ remaining < dx_remaining ctx /\ remaining < cg_expires_at parent - at_ ->
  (forall e, e ∈ h -> inert e) ->
  mwp guard (mfinally (mcatch (delegate_child ctx grant_id task limits p role parent product ids caps remaining record) (fail_task ctx record)) clean_up)
    (MkLocals false None false) h (fun v _ h' => given_back h' /\ returned h' v) (fun _ _ h' => given_back h').
Proof.
  intros Had Hres Hrem Hin.
  assert (Ht : tracked (MkLocals false None false) h) by (split; intros * He; by apply Hin in He).
  assert (Hq : forall l h1 (R : locals -> list ev -> Prop) (E : exc -> locals -> list ev -> Prop), known l h h1 ->
    (forall h2, (exists new, h2 = new ++ h1) -> given_back h2 -> R l h2) -> (forall x h2, given_back h2 -> E x l h2) ->
    mwp guard clean_up l h1 (fun _ => R) E).
  { intros l h1 R E [_ Hk] HR HE. eapply mwp_mono; [| |apply mwp_extends, (clean_up_wp _ _ _ (fun _ l' h' => l' = l /\ given_back h') (fun _ l' h' => l' = l /\ given_back h'))].
    - intros [] l' h' [[-> Hg] Hnew]. by apply HR.
    - intros x l' h' [[-> Hg] _]. by apply HE.
    - done.
    - intros h' [q a]. by destruct q.
    - done.
    - done. }
  apply mwp_finally, mwp_catch. eapply mwp_mono; [| |exact (delegate_child_wp _ _ _ _ _ _ _ _ _ _ _ _ _ Had Hres Hrem eq_refl Ht)].
  - intros v l' h' [Hk Hret]. apply Hq; [done| |done]. intros h2 [new ->] Hg. split; [done|]. eapply returned_mono; [|by exists new|done]. set_solver.
  - intros x l' h' Hk. eapply mwp_mono; [| |exact (fail_task_wp _ _ _ _ _ Hk)]; [done|]. intros y l2 h2 Hk2. by apply Hq.
Qed.

Lemma delegate_once_wp grant_id role p limits parent at_ product ids caps h : fresh h ->
  admitted grant_id role p limits parent at_ product ids caps h ->
  mwp allowed_event (delegate_once ctx grant_id task limits p role parent product at_ ids caps) (MkLocals false None false) h
    (fun v _ h' => delegated v h') (fun _ _ h' => refused h').
Proof.
  intros Hf Had. unfold delegate_once. apply mwp_bind, mwp_ask. intros a. split; [by left|].
  assert (Hgb : given_back ((QGetByCall (dx_run_id ctx) (dx_call_id ctx) ~> a) :: h)).
  { split; intros * [Heq|Hin]%elem_of_cons; try done; by destruct (Hf _ Hin). }
  assert (Hqs : queries ((QGetByCall (dx_run_id ctx) (dx_call_id ctx) ~> a) :: h)) by (intros e [->|He]%elem_of_cons; [done|by apply Hf]).
  destruct a as [x|[prior|]]; [done| |].
  - (* recorded before *)
    case_match eqn:Hsame; [done|]. apply negb_false_iff, andb_true_iff in Hsame as [Hr%bool_decide_eq_true Hd%bool_decide_eq_true].
    destruct (terminal (tk_status prior)) eqn:Hterm; [|done].
    assert (Hrec : forall out, recorded_output prior = Some out ->
      delegated (task_json (tk_task_id prior) (tk_status prior) out) ((QGetByCall (dx_run_id ctx) (dx_call_id ctx) ~> inr (Some prior)) :: h)).
    { intros out Hout. split; [done|]. split; [|left; exists prior; by left]. intros prior' Hp. apply earlier_unique in Hp as [= <-]; [|done]. split; [done|].
      exists grant_id, role, parent, ids, caps, h. split_and!; try done; [apply (ad_grant_id _ _ _ _ _ _ _ _ _ _ Had)|apply (ad_role _ _ _ _ _ _ _ _ _ _ Had)|
        apply (ad_narrowed _ _ _ _ _ _ _ _ _ _ Had)|]. by exists out. }
    unfold recorded_result, recorded_output in *. destruct (tk_status prior); try by apply Hrec.
    destruct (tk_result prior) as [text|]; [|by apply Hrec]. destruct (loads text) as [v|]; [by apply Hrec|done].
  - (* new *)
    set (h1 := (QGetByCall (dx_run_id ctx) (dx_call_id ctx) ~> inr None) :: h) in *.
    eapply mwp_mono; [| |apply (mwp_weaken guard); [by right|]; apply (mwp_events _ _ _ _ (fun v _ h' => given_back h' /\ returned h' v) (fun _ _ h' => given_back h'))].
    + intros v l' h' [[Hg Hret] Hnew]. split; [exact Hg|]. split; [|by right]. intros prior Hp. by apply (reserved_no_earlier _ h) in Hp.
    + intros x l' h' [Hg Hnew]. split; [exact Hg|]. intros prior Hp. by apply (reserved_no_earlier _ h) in Hp.
    + apply mwp_bind, mwp_ask. intros left_. split; [done|]. apply mwp_bind, mwp_deny_if; [intros _|].
      2: { intros _. split; intros * [Heq|[Heq|Hin]%elem_of_cons]%elem_of_cons; try done; by destruct (Hf _ Hin). }
      apply mwp_bind, mwp_ask. intros b. split; [done|].
      assert (Hin : forall e, e ∈ (QReserveChild (dx_call_id ctx) (ma_max_children p) ~> b) :: (QRemaining ~> left_) :: h1 -> inert e).
      { intros e [->|[->|[->|He]%elem_of_cons]%elem_of_cons]%elem_of_cons; [done..|]. apply query_inert. by apply Hf. }
      assert (Hback : forall h', (forall e, e ∈ h' -> inert e) -> given_back h') by (intros h' Hi; split; intros * He; by apply Hi in He).
      destruct b as [x|ok]; [by apply Hback|]. apply mwp_bind, mwp_deny_if; [intros ->%negb_false_iff|by intros _; apply Hback].
      apply mwp_bind, mwp_rethrow, mwp_ask. intros c. split; [done|].
      match goal with |- context [(QCreateTask ?r ?q ?o ?d ~> c) :: ?t] => assert (Hin2 : forall e, e ∈ (QCreateTask r q o d ~> c) :: t -> inert e) by
        (intros e [->|He]%elem_of_cons; [done|by apply Hin]) end.
      destruct c as [x|record]; [by apply Hback|]. eapply guarded_child_wp.
      * eapply admitted_mono; [|exact Had]. unfold h1. set_solver.
      * right. by left.
      * unfold seconds. lia.
      * exact Hin2.
Qed.

Definition start : locals := MkLocals false None false.

Lemma delegation_wp : mwp allowed_event (delegate config ctx role_id task) start [] (fun v _ h => delegated v h) (fun _ _ h => refused h).
Proof. apply delegate_wp; [by left|by intros x h Hf; apply fresh_refused|apply delegate_once_wp]. Qed.

Lemma child_path_tenant product record path : child_path product record = Ok path ->
  default "" (path_tenant_id path) = default "" (path_tenant_id product).
Proof. unfold child_path, agent_path, scope_path. intros (? & _ & [= <-])%res_bind_Ok. done. Qed.

Lemma child_request_fields limits parallel remaining record scope grant request :
  child_request ctx limits parallel remaining record scope grant task = Ok request ->
  request = MkRunRequest (tk_child_run_id record) scope (cg_grant_id grant) (JStr task) (MkConversationContext [] false "" "" false) (dx_read_only ctx)
    (MkExecutionBudget (Z.min 4 limits.1) (Z.min 8 limits.2) (Z.min parallel 2) remaining) None.
Proof.
  unfold child_request. intros (budget & Hb & Hr)%res_bind_Ok. unfold execution_budget in Hb. unfold run_request in Hr.
  apply res_bind_Ok in Hb as (_ & _ & Hb). do 3 apply res_bind_Ok in Hb as (_ & _ & Hb). injection Hb as <-.
  do 4 apply res_bind_Ok in Hr as (_ & _ & Hr). by injection Hr as <-.
Qed.

Lemma take_history (t : list ev) i e : t !! i = Some e -> exists t2, t = take i t ++ e :: t2.
Proof. intros Hi. exists (drop (S i) t). by rewrite take_drop_middle. Qed.

Lemma in_history (e : ev) t : e ∈ reverse t <-> e ∈ t.
Proof. apply elem_of_reverse. Qed.

(** ** The theorems *)

(** C12. A child never gets more than its parent.  Whenever a run of [delegate] - finished, failed or cut short at any point - starts a child, the parent's grant
    was resolved and covered the call at that time; the grant of the child names tools that the parent holds and the role allows, capabilities of the parent, the
    same tenant, product and principal, and ends no later; the child runs in the same tenant for the same principal and owner, is read-only when the parent is, and
    has at most four iterations, eight tool calls, two parallel calls and 45 seconds, and less time than the parent has left.  By then a child and a slot of the
    shared quota are taken, the task is RUNNING, and the delegation is in the journal. *)
Theorem child_runs_are_narrower t o i request instruction route a :
  run_to (delegate config ctx role_id task start) t o -> t !! i = Some (QRunChild request instruction route ~> a) ->
  exists grant_id role p limits parent at_ child record ids caps path lifetime, let before := take i t in
    (dx_grant_id ctx = Some grant_id /\ ((QResolveGrant grant_id ~> inr (Some parent)) : ev) ∈ before /\ ((QNow ~> at_) : ev) ∈ before /\
     grant_covers ctx at_ parent = true) /\
    (resolve_role config (rs_product_id (dx_scope ctx)) role_id = Some role /\ policy config (rs_product_id (dx_scope ctx)) = Some p /\
     instruction = ro_instruction role /\ route = ro_model_route role) /\
    (((QIssueChild grant_id path ids caps (rs_principal_id (dx_scope ctx)) lifetime ~> inr child) : ev) ∈ before /\ rq_grant_id request = cg_grant_id child /\
     cg_capabilities child ⊆ cg_capabilities parent /\ cg_expires_at child <= cg_expires_at parent /\
     cg_tenant_id child = cg_tenant_id parent /\ cg_product_id child = cg_product_id parent /\ cg_principal_id child = cg_principal_id parent /\
     forall tool, tool ∈ cg_tool_identities child -> tool ∈ cg_tool_identities parent /\ exists alias spec, alias ∈ ro_allowed_tools role /\
       ((QResolveTool alias ~> Some (tool, spec)) : ev) ∈ before /\ ts_required_capabilities spec ⊆ cg_capabilities child) /\
    (rs_path (rq_scope request) = path /\ rs_tenant_id (rq_scope request) = rs_tenant_id (dx_scope ctx) /\
     rs_principal_id (rq_scope request) = rs_principal_id (dx_scope ctx) /\ rs_session_owner_id (rq_scope request) = Some (effective_session_owner_id (dx_scope ctx)) /\
     rq_read_only request = dx_read_only ctx /\ rq_input request = JStr task /\ rq_run_id request = tk_child_run_id record) /\
    (dx_budget ctx = Some limits /\ eb_max_iterations (rq_budget request) = Z.min 4 limits.1 /\ eb_max_tool_calls (rq_budget request) = Z.min 8 limits.2 /\
     eb_max_parallel_calls (rq_budget request) <= 2 /\ eb_timeout (rq_budget request) = lifetime /\
     lifetime <= seconds 45 /\ lifetime < dx_remaining ctx /\ lifetime < cg_expires_at parent - at_) /\
    ((QReserveChild (dx_call_id ctx) (ma_max_children p) ~> inr true) : ev) ∈ before /\ ((QTakeSlot (ma_max_parallel p) ~> inr true) : ev) ∈ before /\
    ((QTransition (tk_task_id record) QUEUED RUNNING (dx_run_id ctx) None None ~> inr true) : ev) ∈ before /\
    exists event_id when, ((QJournal (delegated_event ctx role record event_id when) ~> None) : ev) ∈ before.
Proof.
  intros Hrun Hi. destruct (take_history _ _ _ Hi) as [t2 Ht].
  destruct (mwp_guards _ _ _ _ _ _ _ delegation_wp Hrun _ _ _ Ht) as [Hq|Hs]; [done|]. simpl in Hs.
  destruct Hs as (grant_id & role & p & limits & parent & at_ & product & ids & caps & record & child & path & lifetime & Hsn & Hreq & -> & ->).
  apply child_request_fields in Hreq as ->. destruct Hsn as [Had Hres Hslot Hiss Hnar Hrunning Hjour Hpath Hrem].
  destruct Had as [A B C D E F G K L O [Qi Qc]]. pose proof L as Lc. unfold child_narrower in Hnar. unfold grant_covers in L. py_simpl.
  exists grant_id, role, p, limits, parent, at_, child, record, ids, (cg_capabilities child), path, lifetime. simpl.
  rewrite !in_history in *. split_and!; try done; try congruence; try lia.
  - intros tool Htool. assert (Hid : tool ∈ ids) by set_solver. destruct (Qi tool Hid) as (Hp & alias & spec & Ha & He & Hr).
    rewrite in_history in He. split; [done|]. by exists alias, spec.
  - apply child_path_tenant in Hpath. unfold rs_tenant_id. simpl. by rewrite Hpath, O.
  - by eexists _, _.
Qed.

(** C14. What a delegation acquires it gives back, on every way out.  When [delegate] has returned or raised, the grant issued to the child has been revoked;
    the slot has been released and the child's scope closed, unless the revocation (or, for the scope, the release) before it raised. *)
Theorem delegations_give_back t l r : run_to (delegate config ctx role_id task start) t (Done (l, r)) ->
  (forall g s ids caps i n child, ((QIssueChild g s ids caps i n ~> inr child) : ev) ∈ t -> exists x, ((QRevoke (cg_grant_id child) ~> x) : ev) ∈ t) /\
  (forall n, ((QTakeSlot n ~> inr true) : ev) ∈ t -> (exists x, ((QReleaseSlot ~> x) : ev) ∈ t) \/ exists g x, ((QRevoke g ~> Some x) : ev) ∈ t) /\
  (forall path, ((QOpenChild path ~> None) : ev) ∈ t ->
     (exists x, ((QCloseChild ~> x) : ev) ∈ t) \/ (exists g x, ((QRevoke g ~> Some x) : ev) ∈ t) \/ exists x, ((QReleaseSlot ~> Some x) : ev) ∈ t).
Proof.
  intros Hrun. destruct (mwp_sound _ _ _ _ _ _ _ _ delegation_wp Hrun) as [_ Hr].
  assert (Hg : given_back (reverse t)) by (destruct r; apply Hr). destruct Hg as [Hg Hs Hc].
  split_and!; [intros * Hin; rewrite <- in_history in Hin; apply Hg in Hin|intros * Hin; rewrite <- in_history in Hin; apply Hs in Hin|
    intros * Hin; rewrite <- in_history in Hin; apply Hc in Hin]; by setoid_rewrite in_history in Hin.
Qed.

(** A repeated delegation has no effect.  When the store knows a task for the call, [delegate] asks nothing but queries - no child is reserved, opened,
    authorised or run, and no task changes - and it returns only when the recorded task has ended and was created for the same role, and for the same digest of
    task, tools and scope; then the status and the output are the recorded ones. *)
Theorem replays_have_no_effects t l r prior : run_to (delegate config ctx role_id task start) t (Done (l, r)) ->
  ((QGetByCall (dx_run_id ctx) (dx_call_id ctx) ~> inr (Some prior)) : ev) ∈ t ->
  (forall e, e ∈ t -> query e) /\ (forall v, r = inr v ->
     exists grant_id role ids, dx_grant_id ctx = Some grant_id /\ resolve_role config (rs_product_id (dx_scope ctx)) role_id = Some role /\
       tk_role_id prior = ro_role_id role /\ tk_task_digest prior = task_digest ctx role grant_id task ids /\ terminal (tk_status prior) = true /\
       exists out, recorded_output prior = Some out /\ v = task_json (tk_task_id prior) (tk_status prior) out).
Proof.
  intros Hrun Hp. destruct (mwp_sound _ _ _ _ _ _ _ _ delegation_wp Hrun) as [_ Hr]. apply in_history in Hp.
  assert (Hq : queries (reverse t)) by (destruct r; [by apply (proj2 Hr prior)|by apply (proj1 (proj2 Hr) prior)]).
  split; [intros e He; by apply Hq, in_history|]. intros v ->.
  destruct (proj1 (proj2 Hr) prior Hp) as [_ (grant_id & role & parent & ids & caps & h & A & B & _ & C)]. by exists grant_id, role, ids.
Qed.

Lemma task_json_inj id s out id' s' out' : task_json id s out = task_json id' s' out' -> id = id' /\ s = s' /\ out = out'.
Proof. unfold task_json. intros [= -> Hs ->]. split_and!; [done| |done]. by destruct s, s'. Qed.

(** A success is the child's.  A new delegation that reports SUCCEEDED has run its child, the child succeeded, the output is the child's and fits the limit of the
    store, the parent's grant was resolved again after the run and was still the one from before it, and the task moved from RUNNING to SUCCEEDED. *)
Theorem successes_are_the_childs t l id out : run_to (delegate config ctx role_id task start) t (Done (l, inr (task_json id SUCCEEDED out))) ->
  (forall prior, ~ ((QGetByCall (dx_run_id ctx) (dx_call_id ctx) ~> inr (Some prior)) : ev) ∈ t) ->
  exists before after grant_id parent request instruction route result encoded failure, t = before ++ ((QResolveGrant grant_id ~> inr (Some parent)) : ev) :: after /\
    ((QResolveGrant grant_id ~> inr (Some parent)) : ev) ∈ before /\ ((QRunChild request instruction route ~> inr result) : ev) ∈ before /\
    rr_status result = RUN_SUCCEEDED /\ rr_output result = out /\
    encoded = (if decide (out = JNull) then None else Some (canonical_text out)) /\ (forall text, encoded = Some text -> byte_len text <= MAX_RESULT_BYTES) /\
    ((QTransition id RUNNING SUCCEEDED (dx_run_id ctx) encoded failure ~> inr true) : ev) ∈ t.
Proof.
  intros Hrun Hno. destruct (mwp_sound _ _ _ _ _ _ _ _ delegation_wp Hrun) as [_ (_ & _ & [[prior Hp]|Hret])]; [by destruct (Hno prior); apply in_history|].
  remember (task_json id SUCCEEDED out) as v eqn:Hv.
  destruct Hret as [id' ok He|id' He|grant_id parent id' request instruction route result target output encoded failure He Hf (before & after & Ht & Hrc & Hpar) Htr];
    apply task_json_inj in Hv as (-> & Hst & ->); [done..|]. subst target.
  exists (reverse before), (reverse after), grant_id, parent, request, instruction, route, result, encoded, failure.
  unfold final_outcome in Hf.
  assert (Hfin : rr_status result = RUN_SUCCEEDED /\ rr_output result = out /\
    encoded = (if decide (out = JNull) then None else Some (canonical_text out)) /\ (forall text, encoded = Some text -> byte_len text <= MAX_RESULT_BYTES)).
  { destruct (rr_status result); simpl in Hf; (destruct (decide (rr_output result = JNull)) as [Hnull|Hnull] || idtac); simplify_eq/=; try done.
    - destruct (_ <? _) eqn:Hlen; simplify_eq. apply Z.ltb_ge in Hlen. split_and!; [done|done|by rewrite decide_False|by intros text [= <-]]. }
  destruct Hfin as (A & B & C & D). split_and!; try done.
  - apply (f_equal reverse) in Ht. rewrite reverse_involutive, reverse_app, reverse_cons, <- app_assoc in Ht. done.
  - by apply in_history.
  - by apply in_history.
  - by apply in_history.
Qed.

(** What a replay reports is what the first call reported: the text that [_finalize] stores for a successful child parses back to its output, up to
    the order of the keys. *)
Theorem recorded_outputs_round_trip result out encoded prior :
  final_outcome result = (SUCCEEDED, out, encoded) -> wf_json (rr_output result) = true -> all_finite (rr_output result) = true ->
  tk_status prior = SUCCEEDED -> tk_result prior = encoded -> recorded_output prior = Some (sort_keys out).
Proof.
  unfold final_outcome, recorded_output. intros Hf Hwf Hfin -> ->.
  destruct (rr_status result); simpl in Hf; (destruct (decide (rr_output result = JNull)) as [Hnull|Hnull] || idtac); simplify_eq/=; [done|].
  destruct (_ <? _); simplify_eq. by apply loads_canonical_text.
Qed.

(** C15. Every outcome of a child but a cancellation can be recorded: the status, the result and the failure that [_finalize] hands to the task store pass its
    checks unless the child was cancelled; then the store refuses them and leaves the task as it was. *)
Theorem cancelled_children_cannot_be_recorded result :
  let '(target, out, encoded) := final_outcome result in
  (rr_status result <> RUN_CANCELLED -> check_outcome target encoded (final_failure target) = Ok tt) /\
  (rr_status result = RUN_CANCELLED -> forall scope id run now st, IDENTIFIER run = true -> IDENTIFIER id = true ->
     AgentTasks.transition scope id RUNNING target run encoded (final_failure target) now st = (inl (TaskExc ValueError), st)).
Proof.
  unfold final_outcome.
  destruct (rr_status result); simpl; try (split; [done|done]).
  - destruct (decide (rr_output result = JNull)); [done|]. destruct (MAX_RESULT_BYTES <? _) eqn:Hlen; [done|]. split; [|done]. intros _.
    unfold check_outcome. simpl. apply Z.ltb_ge in Hlen. unfold MAX_RESULT_BYTES in Hlen. by rewrite (proj2 (Z.leb_le _ _) Hlen).
  - split; [done|]. intros _ scope id run now st Hr Hid. unfold AgentTasks.transition, identifier. by rewrite Hr, Hid.
Qed.
End Props.

(** ** Examples *)
#[local] Instance demo_hashing : Hashing := fun s => s.

Definition demo_tool : ToolIdentity := MkToolIdentity "core" "agent.delegate" "builtin" "1".
Definition demo_search : ToolIdentity := MkToolIdentity "core" "search" "builtin" "1".
Definition demo_spec (capabilities : gset string) : ToolSpec := MkToolSpec "search" "Search" {[READ]} capabilities [].
Definition demo_role : AgentRoleDefinition := MkRole "analyst" "Analyse." ["search"; "mail"] "small".
Definition demo_config : MultiAgentConfig := [("crm", MkProductConfig true [demo_role] 2 1)].

Definition demo_scope : RequestScope :=
  MkRequestScope (MkScopePath PRODUCT (Some "acme") (Some "crm") None None) "ann" "web" {["staff"]} "support" "" "" None.
Definition demo_ctx : ToolCallContext := MkCall demo_scope "run-1" "call-1" demo_tool (seconds 60) (Some "g1") true (Some (10, 5)).

Definition demo_parent : CapabilityGrant := MkCapabilityGrant "g1" "acme" "crm" {[demo_tool; demo_search]} {["read"; "write"]} (Some "ann") 0 (seconds 600).
Definition demo_child : CapabilityGrant := MkCapabilityGrant "g2" "acme" "crm" {[demo_search]} {["read"]} (Some "ann") (seconds 1) (seconds 31).
Definition demo_record : AgentTaskRecord :=
  MkTask "t1" ("acme", "crm", "ann") "run-1" "call-1" "analyst" "d1" "c1" "a1" "s1" QUEUED 10 10 None None None None.
Definition demo_result : RunResult := MkRunResult "c1" RUN_SUCCEEDED (JObj [("n", JInt 3)]) None [] 1 1 0 1.

(** The mail tool needs a capability that the parent lacks. *)
Definition demo_answer (prior : option AgentTaskRecord) (revoked : option exc) (q : question) : ans q :=
  match q with
  | QCancelSet => false
  | QRemaining => seconds 50
  | QNow => seconds 1
  | QResolveTool alias =>
      if decide (alias = "agent.delegate") then Some (demo_tool, demo_spec ∅)
      else if decide (alias = "search") then Some (demo_search, demo_spec {["read"]}) else Some (demo_search, demo_spec {["send"]})
  | QResolveGrant _ => inr (Some demo_parent)
  | QProduct _ => inr (rs_path demo_scope)
  | QGetByCall _ _ => inr prior
  | QReserveChild _ _ => inr true
  | QTakeSlot _ => inr true
  | QTransition _ _ _ _ _ _ => inr true
  | QWithRoleRoute _ _ => inr true
  | QCreateTask _ _ _ _ => inr demo_record
  | QIssueChild _ _ _ _ _ _ => inr demo_child
  | QUuid => "e1"
  | QStrategies _ => inr WReAct
  | QRunChild _ _ _ => inr demo_result
  | QRevoke _ => revoked
  | QOpenChild _ | QJournal _ | QCancelChildren _ | QReleaseSlot | QCloseChild => None
  end.

Definition demo_run (prior : option AgentTaskRecord) (revoked : option exc) : list ev * outcome (locals * (exc + json)) * unit :=
  interp (fun q (s : unit) => (demo_answer prior revoked q, s)) (delegate demo_config demo_ctx "analyst" "Count." start) tt.

Lemma demo_ran prior revoked : run_to (delegate demo_config demo_ctx "analyst" "Count." start) (demo_run prior revoked).1.1 (demo_run prior revoked).1.2.
Proof. apply interp_run_to. Qed.

Definition demo_end : locals := MkLocals true (Some demo_child) true.
Definition demo_output : json := JObj [("n", JInt 3)].

Lemma demo_delegation : run_to (delegate demo_config demo_ctx "analyst" "Count." start) (demo_run None None).1.1 (Done (demo_end, inr (task_json "t1" SUCCEEDED demo_output))).
Proof. apply (eq_rect _ (run_to (delegate demo_config demo_ctx "analyst" "Count." start) (demo_run None None).1.1) (demo_ran None None)). vm_compute. done. Qed.

Definition demo_request : RunRequest :=
  MkRunRequest "c1"
    (MkRequestScope (MkScopePath AGENT (Some "acme") (Some "crm") (Some "a1") (Some "s1")) "ann" "web" {["staff"]} "delegated-agent" "" "" (Some "ann"))
    "g2" (JStr "Count.") (MkConversationContext [] false "" "" false) true (MkExecutionBudget 4 5 1 44900000) None.

Lemma demo_child_run : (demo_run None None).1.1 !! 20%nat = Some (QRunChild demo_request "Analyse." "small" ~> inr demo_result).
Proof. vm_compute. reflexivity. Qed.

Lemma child_runs_are_narrower_witness : exists parent child : CapabilityGrant,
  cg_grant_id child = "g2" /\ cg_capabilities child ⊆ cg_capabilities parent /\ cg_expires_at child <= cg_expires_at parent.
Proof.
  destruct (child_runs_are_narrower demo_config demo_ctx "analyst" "Count." _ _ 20 demo_request "Analyse." "small" (inr demo_result) (demo_ran None None) demo_child_run)
    as (g & role & p & limits & parent & at_ & child & record & ids & caps & path & n & _ & _ & (_ & Hg & Hc & He & _) & _).
  exact (ex_intro _ parent (ex_intro _ child (conj (eq_sym Hg) (conj Hc He)))).
Defined.

Lemma demo_issued : ((QIssueChild "g1" (rs_path (rq_scope demo_request)) [demo_search] {["read"]} "ann" 44900000 ~> inr demo_child) : ev) ∈ (demo_run None None).1.1.
Proof. apply list_elem_of_lookup_2 with 14%nat. vm_compute. reflexivity. Qed.

Lemma delegations_give_back_witness : exists x, ((QRevoke "g2" ~> x) : ev) ∈ (demo_run None None).1.1.
Proof.
  exact (proj1 (delegations_give_back demo_config demo_ctx "analyst" "Count." _ _ _ demo_delegation) _ _ _ _ _ _ demo_child demo_issued).
Defined.

(** The recorded task of the same call *)
Definition demo_prior : AgentTaskRecord :=
  MkTask "t1" ("acme", "crm", "ann") "run-1" "call-1" "analyst" (task_digest demo_ctx demo_role "g1" "Count." [demo_search]) "c1" "a1" "s1" SUCCEEDED 10 20
    (Some 11) (Some 20) (Some (canonical_text demo_output)) None.

Lemma demo_replay : run_to (delegate demo_config demo_ctx "analyst" "Count." start) (demo_run (Some demo_prior) None).1.1 (Done (start, inr (task_json "t1" SUCCEEDED demo_output))).
Proof. apply (eq_rect _ (run_to (delegate demo_config demo_ctx "analyst" "Count." start) (demo_run (Some demo_prior) None).1.1) (demo_ran (Some demo_prior) None)). vm_compute. done. Qed.

Lemma demo_recorded : ((QGetByCall "run-1" "call-1" ~> inr (Some demo_prior)) : ev) ∈ (demo_run (Some demo_prior) None).1.1.
Proof. apply list_elem_of_lookup_2 with 8%nat. vm_compute. reflexivity. Qed.

Lemma replays_have_no_effects_witness : exists t, run_to (delegate demo_config demo_ctx "analyst" "Count." start) t (Done (start, inr (task_json "t1" SUCCEEDED demo_output))) /\
  forall e, e ∈ t -> query e.
Proof.
  exact (ex_intro _ _ (conj demo_replay (proj1 (replays_have_no_effects demo_config demo_ctx "analyst" "Count." _ _ _ demo_prior demo_replay demo_recorded)))).
Defined.

Lemma demo_unknown prior : ~ ((QGetByCall "run-1" "call-1" ~> inr (Some prior)) : ev) ∈ (demo_run None None).1.1.
Proof.
  intros Hin. assert (Hall : forallb (fun e : ev => match e with existT (QGetByCall _ _) (inr (Some _)) => false | _ => true end) (demo_run None None).1.1 = true)
    by (vm_compute; reflexivity).
  by apply forallb_forall with (2 := proj1 (list_elem_of_In _ _) Hin) in Hall.
Qed.

Lemma successes_are_the_childs_witness : exists request instruction route result,
  ((QRunChild request instruction route ~> inr result) : ev) ∈ (demo_run None None).1.1 /\ rr_status result = RUN_SUCCEEDED /\ rr_output result = demo_output.
Proof.
  destruct (successes_are_the_childs demo_config demo_ctx "analyst" "Count." _ _ "t1" demo_output demo_delegation demo_unknown)
    as (before & after & g & parent & request & i & m & result & encoded & failure & Ht & _ & Hr & Hs & Ho & _).
  exists request, i, m, result. rewrite Ht. split; [apply elem_of_app; left; exact Hr|]. exact (conj Hs Ho).
Defined.

Lemma recorded_outputs_round_trip_witness : recorded_output demo_prior = Some demo_output.
Proof. exact (recorded_outputs_round_trip demo_result demo_output (Some (canonical_text demo_output)) demo_prior eq_refl eq_refl eq_refl eq_refl eq_refl). Defined.

Lemma cancelled_children_cannot_be_recorded_witness :
  AgentTasks.transition demo_scope "t1" RUNNING CANCELLED "run-1" None (Some "delegated child did not complete") 12 AgentTasks.empty =
  (inl (TaskExc ValueError), AgentTasks.empty).
Proof.
  exact (proj2 (cancelled_children_cannot_be_recorded (MkRunResult "c1" RUN_CANCELLED JNull None [] 1 1 0 1)) eq_refl demo_scope "t1" "run-1" 12 _ eq_refl eq_refl).
Defined.

(** A revocation that raises leaves the slot and the child's scope behind. *)
Lemma failed_revocation_leaks :
  (forall r, ((QReleaseSlot ~> r) : ev) ∉ (demo_run None (Some (Exc RuntimeError))).1.1) /\
  (forall r, ((QCloseChild ~> r) : ev) ∉ (demo_run None (Some (Exc RuntimeError))).1.1).
Proof.
  assert (Hall : forallb (fun e : ev => match projT1 e with QReleaseSlot | QCloseChild => false | _ => true end) (demo_run None (Some (Exc RuntimeError))).1.1 = true)
    by (vm_compute; reflexivity).
  split; intros r Hin; by apply forallb_forall with (2 := proj1 (list_elem_of_In _ _) Hin) in Hall.
Qed.
End DelegationProps.
