(* ===== verification/ModelTypes.v ===== *)
(** * The vocabulary of language models ([models/types.py], [models/errors.py])

    Messages, requests, responses, stream events, profiles and routes with their
    validators, and the capabilities a profile leaves to its provider.  Sampling
    parameters and URLs are data here; their ranges are checked by pydantic. *)
From S2P Require Import Prelude PyText Json.
From Stdlib Require Import Ascii.
Open Scope Z_scope.
Open Scope list_scope.

Module Models.

(** [_ID = ^[A-Za-z0-9][A-Za-z0-9._:/-]{0,191}$] *)
Definition MODEL_ID (s : string) : bool := head_then (fun c => is_alnum c || one_of "._:/-" c) 191 s.

(** [_TOOL_NAME = ^[A-Za-z][A-Za-z0-9_.:-]{0,127}$] *)
Definition TOOL_NAME (s : string) : bool :=
  match chars s with c :: _ => is_lower c || is_upper c | [] => false end && head_then (fun c => is_alnum c || one_of "_.:-" c) 127 s.

(** ** Enumerations *)
Inductive ModelRole : Type := SYSTEM | USER | ASSISTANT | TOOL.
#[global] Instance ModelRole_eq_dec : EqDecision ModelRole.
Proof. solve_decision. Defined.

Inductive FinishReason : Type := STOP | TOOL_CALLS | LENGTH | CONTENT_FILTER | FINISH_CANCELLED | FINISH_ERROR | UNKNOWN.
#[global] Instance FinishReason_eq_dec : EqDecision FinishReason.
Proof. solve_decision. Defined.

Inductive ModelStreamEventType : Type :=
| MESSAGE_START | TEXT_DELTA | REASONING_DELTA | TOOL_CALL_DELTA | USAGE | MESSAGE_END | CONTEXT_COMPACTED.
#[global] Instance ModelStreamEventType_eq_dec : EqDecision ModelStreamEventType.
Proof. solve_decision. Defined.

Inductive ProviderAuthKind : Type := API_KEY | AWS_IAM | GOOGLE_SERVICE_ACCOUNT | MANAGED_IDENTITY | INTERNAL_NONE.
#[global] Instance ProviderAuthKind_eq_dec : EqDecision ProviderAuthKind.
Proof. solve_decision. Defined.

(** ** Errors ([models/errors.py]) *)
Inductive ModelErrorCode : Type :=
| PROFILE_NOT_FOUND | PROVIDER_NOT_FOUND | CREDENTIAL_MISSING | AUTHENTICATION | PERMISSION_DENIED | RATE_LIMIT | INVALID_REQUEST | TIMEOUT
| UNAVAILABLE | RESPONSE_INVALID | UNSUPPORTED_FEATURE | CONFIGURATION.
#[global] Instance ModelErrorCode_eq_dec : EqDecision ModelErrorCode.
Proof. solve_decision. Defined.

Record ModelProviderError : Type := MkProviderError {
  me_code : ModelErrorCode;
  me_provider_id : option string;
  me_retryable : bool;
}.
#[global] Instance ModelProviderError_eq_dec : EqDecision ModelProviderError.
Proof. solve_decision. Defined.

(** ** Messages *)
Inductive ContentPart : Type :=
| TextContent (text : string)
| ImageContent (mime_type : string) (url data_base64 : option string)
| DocumentContent (mime_type name data_base64 : string).
#[global] Instance ContentPart_eq_dec : EqDecision ContentPart.
Proof. solve_decision. Defined.

Record ModelToolCall : Type := MkToolCall { tc_call_id : string; tc_name : string; tc_arguments : list (string * json) }.
#[global] Instance ModelToolCall_eq_dec : EqDecision ModelToolCall.
Proof. solve_decision. Defined.

Definition model_tool_call (c : ModelToolCall) : res ModelToolCall :=
  require MODEL_ID (tc_call_id c) else ValueError ;;
  require TOOL_NAME (tc_name c) else ValueError ;;
  Ok c.

Record ModelMessage : Type := MkMessage {
  mm_role : ModelRole;
  mm_content : list ContentPart;
  mm_tool_calls : list ModelToolCall;
  mm_tool_call_id : option string;
  mm_name : option string;
}.
#[global] Instance ModelMessage_eq_dec : EqDecision ModelMessage.
Proof. solve_decision. Defined.

(** [bool(value)] of an optional string *)
Definition truthy (v : option string) : bool := match v with Some s => negb (bool_decide (s = ""%string)) | None => false end.

(** [ModelMessage.role_shape] *)
Definition model_message (m : ModelMessage) : res ModelMessage :=
  require negb (bool_decide (mm_role m = TOOL) && negb (truthy (mm_tool_call_id m))) else ValueError ;;
  require bool_decide (mm_role m = TOOL) || bool_decide (mm_tool_call_id m = None) else ValueError ;;
  require bool_decide (mm_tool_calls m = []) || bool_decide (mm_role m = ASSISTANT) else ValueError ;;
  require negb (bool_decide (mm_content m = []) && bool_decide (mm_tool_calls m = [])) else ValueError ;;
  Ok m.

(** [ModelMessage.text] *)
Definition text_message (role : ModelRole) (value : string) (tool_call_id name : option string) : res ModelMessage :=
  model_message (MkMessage role [TextContent value] [] tool_call_id name).

Record ModelTool : Type := MkTool { mt_name : string; mt_description : string; mt_input_schema : list (string * json) }.
#[global] Instance ModelTool_eq_dec : EqDecision ModelTool.
Proof. solve_decision. Defined.

Definition model_tool (t : ModelTool) : res ModelTool := require TOOL_NAME (mt_name t) else ValueError ;; Ok t.

Inductive ToolChoice : Type := CHOICE_AUTO | CHOICE_NONE | CHOICE_REQUIRED.
#[global] Instance ToolChoice_eq_dec : EqDecision ToolChoice.
Proof. solve_decision. Defined.

Record ModelRequest : Type := MkModelRequest {
  mr_messages : list ModelMessage;
  mr_model : option string;
  mr_tools : list ModelTool;
  mr_tool_choice : ToolChoice;
  mr_temperature : option pyfloat;
  mr_top_p : option pyfloat;
  mr_max_output_tokens : Z;
  mr_stop : list string;
  mr_response_schema : option (list (string * json));
  mr_metadata : list (string * json);
}.
#[global] Instance ModelRequest_eq_dec : EqDecision ModelRequest.
Proof. solve_decision. Defined.

(** [valid_model], [request_shape] and the bounds of [max_output_tokens] *)
Definition model_request (r : ModelRequest) : res ModelRequest :=
  require negb (match mr_model r with Some m => is_blank m | None => false end) else ValueError ;;
  require (1 <=? mr_max_output_tokens r) && (mr_max_output_tokens r <=? 1000000) else ValueError ;;
  require negb (bool_decide (mr_messages r = [])) else ValueError ;;
  require bool_decide (NoDup (mt_name <$> mr_tools r)) else ValueError ;;
  require negb (bool_decide (mr_tool_choice r = CHOICE_REQUIRED) && bool_decide (mr_tools r = [])) else ValueError ;;
  Ok r.

(** [request.model_copy(update={'messages': ...})] *)
Definition with_messages (ms : list ModelMessage) (r : ModelRequest) : ModelRequest :=
  MkModelRequest ms (mr_model r) (mr_tools r) (mr_tool_choice r) (mr_temperature r) (mr_top_p r) (mr_max_output_tokens r) (mr_stop r)
    (mr_response_schema r) (mr_metadata r).

(** ** Answers *)
Record ModelUsage : Type := MkUsage { us_input : Z; us_output : Z; us_cached_input : Z; us_reasoning : Z }.
#[global] Instance ModelUsage_eq_dec : EqDecision ModelUsage.
Proof. solve_decision. Defined.

(** Every field is [ge=0]. *)
Definition model_usage (u : ModelUsage) : res ModelUsage :=
  require (0 <=? us_input u) && (0 <=? us_output u) && (0 <=? us_cached_input u) && (0 <=? us_reasoning u) else ValueError ;; Ok u.

(** [mo_usage] is [None] when the field was not set. *)
Record ModelResponse : Type := MkModelResponse {
  mo_response_id : string;
  mo_provider_id : string;
  mo_model : string;
  mo_content : list ContentPart;
  mo_tool_calls : list ModelToolCall;
  mo_finish_reason : FinishReason;
  mo_usage : option ModelUsage;
}.
#[global] Instance ModelResponse_eq_dec : EqDecision ModelResponse.
Proof. solve_decision. Defined.

Record ModelStreamEvent : Type := MkStreamEvent {
  se_type : ModelStreamEventType;
  se_text_delta : option string;
  se_reasoning_delta : option string;
  se_tool_call : option ModelToolCall;
  se_usage : option ModelUsage;
  se_finish_reason : option FinishReason;
  se_context_info : option (list (string * json));
  se_prepared_messages : option (list ModelMessage);
}.
#[global] Instance ModelStreamEvent_eq_dec : EqDecision ModelStreamEvent.
Proof. solve_decision. Defined.

Definition is_none {A : Type} (o : option A) : bool := match o with None => true | Some _ => false end.

(** [ModelStreamEvent.event_payload] *)
Definition stream_event (e : ModelStreamEvent) : res ModelStreamEvent :=
  require negb (match se_type e with
    | TEXT_DELTA => is_none (se_text_delta e)
    | REASONING_DELTA => is_none (se_reasoning_delta e)
    | TOOL_CALL_DELTA => is_none (se_tool_call e)
    | USAGE => is_none (se_usage e)
    | MESSAGE_END => is_none (se_finish_reason e)
    | CONTEXT_COMPACTED => is_none (se_context_info e)
    | MESSAGE_START => false
    end) else ValueError ;;
  Ok e.

(** ** Capabilities *)
Record ProviderCapabilities : Type := MkCapabilities {
  pc_streaming : bool;
  pc_tools : bool;
  pc_parallel_tool_calls : bool;
  pc_json_schema : bool;
  pc_reasoning : bool;
  pc_vision : bool;
  pc_documents : bool;
  pc_max_context_tokens : option Z;
}.
#[global] Instance ProviderCapabilities_eq_dec : EqDecision ProviderCapabilities.
Proof. solve_decision. Defined.

Record ModelCapabilities : Type := MkOverrides {
  mc_streaming : option bool;
  mc_tools : option bool;
  mc_parallel_tool_calls : option bool;
  mc_json_schema : option bool;
  mc_reasoning : option bool;
  mc_vision : option bool;
  mc_documents : option bool;
  mc_max_context_tokens : option Z;
}.
#[global] Instance ModelCapabilities_eq_dec : EqDecision ModelCapabilities.
Proof. solve_decision. Defined.

Record ProviderDescriptor : Type := MkProviderDescriptor {
  pd_provider_id : string;
  pd_auth : ProviderAuthKind;
  pd_default_base_url : option string;
  pd_aliases : gset string;
  pd_capabilities : ProviderCapabilities;
}.
#[global] Instance ProviderDescriptor_eq_dec : EqDecision ProviderDescriptor.
Proof. solve_decision. Defined.

Record ModelProfile : Type := MkProfile {
  mp_profile_id : string;
  mp_provider_id : string;
  mp_model : string;
  mp_credential_ref : option string;
  mp_base_url : option string;
  mp_max_retries : Z;
  mp_allowed_models : gset string;
  mp_capabilities : ModelCapabilities;
  mp_allow_capability_overrides : bool;
}.
#[global] Instance ModelProfile_eq_dec : EqDecision ModelProfile.
Proof. solve_decision. Defined.

(** One value of [self.capabilities.model_dump(exclude_none=True)] *)
Definition override_bool (allow : bool) (inherited : bool) (value : option bool) : res bool :=
  match value with
  | None => Ok inherited
  | Some v => require negb (v && negb inherited && negb allow) else ValueError ;; Ok v
  end.

Definition override_max (allow : bool) (inherited value : option Z) : res (option Z) :=
  match value with
  | None => Ok inherited
  | Some v => require negb (match inherited with Some i => i <? v | None => false end && negb allow) else ValueError ;; Ok (Some v)
  end.

Definition effective_capabilities (self : ModelProfile) (provider : ProviderCapabilities) : res ProviderCapabilities :=
  let allow := mp_allow_capability_overrides self in
  let own := mp_capabilities self in
  let! streaming := override_bool allow (pc_streaming provider) (mc_streaming own) in
  let! tools := override_bool allow (pc_tools provider) (mc_tools own) in
  let! parallel := override_bool allow (pc_parallel_tool_calls provider) (mc_parallel_tool_calls own) in
  let! schema := override_bool allow (pc_json_schema provider) (mc_json_schema own) in
  let! reasoning := override_bool allow (pc_reasoning provider) (mc_reasoning own) in
  let! vision := override_bool allow (pc_vision provider) (mc_vision own) in
  let! documents := override_bool allow (pc_documents provider) (mc_documents own) in
  let! max_context := override_max allow (pc_max_context_tokens provider) (mc_max_context_tokens own) in
  Ok (MkCapabilities streaming tools parallel schema reasoning vision documents max_context).

(** The validators of [ModelProfile]; the URL is checked by the standard library. *)
Definition model_profile (p : ModelProfile) : res ModelProfile :=
  require MODEL_ID (mp_profile_id p) && MODEL_ID (mp_provider_id p) else ValueError ;;
  require negb (is_blank (mp_model p)) else ValueError ;;
  require (0 <=? mp_max_retries p) && (mp_max_retries p <=? 10) else ValueError ;;
  require bool_decide (set_Forall (fun m => is_blank m = false) (mp_allowed_models p)) else ValueError ;;
  require negb (mp_allow_capability_overrides p && negb (bool_decide (mp_allowed_models p ⊆ {[ mp_model p ]}))) else ValueError ;;
  Ok p.

Definition permits_model (p : ModelProfile) (model : string) : bool := bool_decide (model = mp_model p) || bool_decide (model ∈ mp_allowed_models p).

Record ModelRoute : Type := MkRoute { mo_route_id : string; mo_primary : string; mo_fallbacks : list string }.
#[global] Instance ModelRoute_eq_dec : EqDecision ModelRoute.
Proof. solve_decision. Defined.

(** [(self.primary_profile, *self.fallback_profiles)] *)
Definition route_profiles (r : ModelRoute) : list string := mo_primary r :: mo_fallbacks r.

Definition model_route (r : ModelRoute) : res ModelRoute := require bool_decide (NoDup (route_profiles r)) else ValueError ;; Ok r.

(** ** Lemmas *)
Definition bool_le (a b : bool) : Prop := a = true -> b = true.

(** [max_context_tokens] of [None] is no limit. *)
Definition max_le (a b : option Z) : Prop := match b with None => True | Some n => exists m, a = Some m /\ m <= n end.

Record capabilities_le (c d : ProviderCapabilities) : Prop := MkCapabilitiesLe {
  cl_streaming : bool_le (pc_streaming c) (pc_streaming d);
  cl_tools : bool_le (pc_tools c) (pc_tools d);
  cl_parallel : bool_le (pc_parallel_tool_calls c) (pc_parallel_tool_calls d);
  cl_schema : bool_le (pc_json_schema c) (pc_json_schema d);
  cl_reasoning : bool_le (pc_reasoning c) (pc_reasoning d);
  cl_vision : bool_le (pc_vision c) (pc_vision d);
  cl_documents : bool_le (pc_documents c) (pc_documents d);
  cl_max : max_le (pc_max_context_tokens c) (pc_max_context_tokens d);
}.

Lemma override_bool_le inherited value v : override_bool false inherited value = Ok v -> bool_le v inherited.
Proof. destruct value as [[]|]; destruct inherited; simpl; unfold bool_le; naive_solver. Qed.

Lemma override_max_le inherited value v : override_max false inherited value = Ok v -> max_le v inherited.
Proof.
  destruct value as [n|], inherited as [i|]; simpl; intros Hv; simplify_eq/=; try done; [|by exists i].
  unfold guard in Hv. destruct (i <? n) eqn:Hi; simplify_eq/=. exists n. split; [done|]. apply Z.ltb_ge in Hi. lia.
Qed.

(** Without [allow_capability_overrides], a profile never has more than its provider. *)
Lemma capabilities_are_inherited p c d : mp_allow_capability_overrides p = false -> effective_capabilities p d = Ok c -> capabilities_le c d.
Proof.
  unfold effective_capabilities. intros ->. intros Hc. py_simpl.
  split; simpl; first [by eapply override_bool_le|by eapply override_max_le].
Qed.
End Models.
