(* ===== verification/ModelContext.v ===== *)
(** * Context preparation ([models/context.py])

    [ContextManager]: the estimate of a request, the pairing of tool calls with
    their results, and [prepare], which truncates tool results and drops old
    rounds until the request fits.  The estimator is the caller's; [json.loads]
    is a parameter, [json.dumps] is written out. *)
From S2P Require Import Prelude PyText Json ModelTypes.
From Stdlib Require Import Ascii.
Open Scope Z_scope.
Open Scope list_scope.

(** [json.loads]; [None] is its [ValueError]. *)
Class JsonLoads : Type := json_loads : string -> option json.

Module Context.
Import Models.

(** ** Texts *)

(** [json.dumps] with the default separators and a printer of strings *)
Definition join_with {A : Type} (sep : list A) (l : list (list A)) : list A :=
  match l with
  | [] => []
  | x :: l => x ++ List.concat (List.map (app sep) l)
  end.

Fixpoint print_spaced (str : string -> list ascii) (v : json) : list ascii :=
  match v with
  | JStr s => str s
  | JList l => "["%char :: join_with (chars ", ") (List.map (print_spaced str) l) ++ ["]"%char]
  | JObj kvs => "{"%char :: join_with (chars ", ") (List.map (fun kv => str kv.1 ++ chars ": " ++ print_spaced str kv.2) kvs) ++ ["}"%char]
  | v => print v
  end.

(** [json.dumps(value, ensure_ascii=False)] *)
Definition dumps_text (v : json) : string := String.string_of_list_ascii (print_spaced print_str v).

(** The number of characters [json.dumps] writes for the code point that starts
    with the byte [c] under [ensure_ascii=True]: a short escape, an escape of six, a
    surrogate pair, the character itself; continuation bytes count with their head. *)
Definition ascii_width (c : ascii) : nat :=
  let n := N_of_ascii c in
  if (n <? 32)%N || (n =? 34)%N || (n =? 92)%N then length (escape c)
  else if (n <? 127)%N then 1
  else if (n =? 127)%N then 6
  else if (n <? 192)%N then 0
  else if (n <? 240)%N then 6 else 12.

Definition ascii_str (s : string) : list ascii := replicate (2 + list_sum (ascii_width <$> chars s)) "x"%char.

(** [len(json.dumps(value))] *)
Definition dumps_len (v : json) : Z := Z.of_nat (length (print_spaced ascii_str v)).

(** [text.encode('utf-8')[:n].decode('utf-8', errors='ignore')]: the cut drops the
    character it goes through. *)
Definition char_width (c : ascii) : nat :=
  let n := N_of_ascii c in if (n <? 192)%N then 1 else if (n <? 224)%N then 2 else if (n <? 240)%N then 3 else 4.

Fixpoint utf8_prefix (fuel n : nat) (l : list ascii) : list ascii :=
  match fuel, l with
  | S fuel, c :: _ => let w := char_width c in if decide (w <= n)%nat then take w l ++ utf8_prefix fuel (n - w) (drop w l) else []
  | _, _ => []
  end.

Definition utf8_cut (n : nat) (text : string) : string := String.string_of_list_ascii (utf8_prefix (String.length text) n (chars text)).

(** ** Errors *)
Inductive context_error : Type := ContextBudgetError | ContextCapacityError | WindowError.
#[global] Instance context_error_eq_dec : EqDecision context_error.
Proof. solve_decision. Defined.

Record PreparedContext : Type := MkPrepared {
  px_request : ModelRequest;
  px_estimated : Z;
  px_removed_rounds : Z;
  px_truncated_tools : Z;
}.

(** ** Pairs of calls and results *)

(** One message; the state is [pending] and [used]. *)
Definition use_call (st : gset string * gset string) (c : ModelToolCall) : context_error + gset string * gset string :=
  if decide (tc_call_id c ∈ st.2) then inl ContextBudgetError else inr ({[ tc_call_id c ]} ∪ st.1, {[ tc_call_id c ]} ∪ st.2).

Definition pair_step (st : gset string * gset string) (m : ModelMessage) : context_error + gset string * gset string :=
  let '(pending, used) := st in
  match mm_role m with
  | SYSTEM => inr st
  | TOOL =>
      match mm_tool_call_id m with
      | Some id => if decide (id ∈ pending) then inr (pending ∖ {[ id ]}, used) else inl ContextBudgetError
      | None => inl ContextBudgetError
      end
  | _ => if decide (pending = ∅) then efold use_call st (mm_tool_calls m) else inl ContextBudgetError
  end.

Definition validate_pairs (ms : list ModelMessage) : context_error + unit :=
  try! st := efold pair_step (∅, ∅) ms in
  if decide (st.1 = ∅) then inr tt else inl ContextBudgetError.

Section Manager.
Context (text_tokens : string -> Z) (image_tokens : Z) `{JsonLoads}.

(** ** Costs *)
Definition json_cost (v : json) : Z := text_tokens (String.string_of_list_ascii (print v)).

Definition tool_dump (t : ModelTool) : json :=
  JObj [("name", JStr (mt_name t)); ("description", JStr (mt_description t)); ("input_schema", JObj (mt_input_schema t))].

Definition call_dump (c : ModelToolCall) : json :=
  JObj [("call_id", JStr (tc_call_id c)); ("name", JStr (tc_name c)); ("arguments", JObj (tc_arguments c))].

Definition content_cost (p : ContentPart) : Z :=
  match p with
  | TextContent text => text_tokens text
  | ImageContent _ _ _ => image_tokens
  | DocumentContent _ _ data => image_tokens + py_len data
  end.

Definition message_cost (m : ModelMessage) : Z :=
  16 + text_tokens (default "" (mm_name m)) + text_tokens (default "" (mm_tool_call_id m)) + foldr Z.add 0 (content_cost <$> mm_content m)
  + (if decide (mm_tool_calls m = []) then 0 else json_cost (JList (call_dump <$> mm_tool_calls m))).

Definition estimate (r : ModelRequest) : Z :=
  32 + json_cost (JList (tool_dump <$> mr_tools r)) + match mr_response_schema r with Some s => json_cost (JObj s) | None => 0 end
  + foldr Z.add 0 (message_cost <$> mr_messages r).

(** ** Truncation of tool results *)
Definition raw_text (m : ModelMessage) : string :=
  String.concat (String "010" EmptyString) (omap (fun p => match p with TextContent t => Some t | _ => None end) (mm_content m)).

(** The bounded reference to the stored result *)
Definition result_reference (raw : string) : option json :=
  match json_loads raw with
  | Some (JObj payload) =>
      match obj_get "result" payload with
      | Some (JObj result) =>
          match obj_get "result_reference" result with
          | Some (JObj reference) => if dumps_len (JObj reference) <=? 512 then Some (JObj reference) else None
          | _ => None
          end
      | _ => None
      end
  | _ => None
  end.

Definition compact_text (raw : string) (per_tool : Z) : string :=
  dumps_text (JObj ([("truncated", JBool true); ("excerpt", JStr (utf8_cut (Z.to_nat (Z.max 0 (per_tool - 64))) raw))]
    ++ match result_reference raw with Some r => [("result_reference", r)] | None => [] end)).

Definition too_long (per_tool : Z) (m : ModelMessage) : bool :=
  bool_decide (mm_role m = TOOL) && (per_tool <? text_tokens (raw_text m)).

Definition truncate (per_tool : Z) (m : ModelMessage) : ModelMessage :=
  if too_long per_tool m then MkMessage (mm_role m) [TextContent (compact_text (raw_text m) per_tool)] (mm_tool_calls m) (mm_tool_call_id m) (mm_name m) else m.

(** ** Rounds *)
Fixpoint push_last (i : nat) (rounds : list (list nat)) : list (list nat) :=
  match rounds with
  | [] => []
  | [r] => [r ++ [i]]
  | r :: rounds => r :: push_last i rounds
  end.

Definition round_step (st : list (list nat) * bool) (im : nat * ModelMessage) : list (list nat) * bool :=
  let '(rounds, answered) := st in
  let '(i, m) := im in
  if decide (mm_role m = SYSTEM) then st
  else
    let opens := bool_decide (rounds = []) || (bool_decide (mm_role m = USER) && answered) in
    (push_last i (if opens then rounds ++ [[]] else rounds),
     if bool_decide (mm_role m = ASSISTANT) && bool_decide (mm_tool_calls m = []) then true else if opens then false else answered).

Definition rounds_of (ms : list ModelMessage) : list (list nat) := (foldl round_step ([], false) (imap pair ms)).1.

(** [tuple(m for index, m in enumerate(messages) if index not in removed)] *)
Definition without (removed : gset nat) (ms : list ModelMessage) : list ModelMessage :=
  snd <$> filter (fun im => im.1 ∉ removed) (imap pair ms).

(** The loop over the old rounds *)
Fixpoint drop_rounds (budget : Z) (request : ModelRequest) (ms : list ModelMessage) (olds : list (list nat)) (removed : gset nat) (n : Z)
    (current : ModelRequest) : ModelRequest * Z :=
  match olds with
  | [] => (current, n)
  | old :: olds =>
      if estimate current <=? budget then (current, n)
      else
        let removed := removed ∪ list_to_set old in
        drop_rounds budget request ms olds removed (n + 1) (with_messages (without removed ms) request)
  end.

(** ** [prepare] *)
Definition output_reserve (r : ModelRequest) : Z := if mr_max_output_tokens r =? 0 then 4096 else mr_max_output_tokens r.

Definition tool_limit (r : ModelRequest) (budget : Z) : Z :=
  let tool_count := Z.of_nat (length (List.filter (fun m => bool_decide (mm_role m = TOOL)) (mr_messages r))) in
  Z.max 64 (Z.min 2048 (budget `div` Z.max 4 (tool_count * 2))).

Definition prepare (request : ModelRequest) (window : pyarg) : context_error + PreparedContext :=
  match window with
  | AInt window_tokens =>
      if window_tokens <? 1 then inl WindowError
      else
        try! _ := validate_pairs (mr_messages request) in
        let budget := window_tokens - output_reserve request in
        if budget <=? 0 then inl ContextCapacityError
        else if estimate request <=? budget then inr (MkPrepared request (estimate request) 0 0)
        else
          let per_tool := tool_limit request budget in
          let ms := truncate per_tool <$> mr_messages request in
          let truncated := Z.of_nat (length (List.filter (too_long per_tool) (mr_messages request))) in
          let '(current, removed_rounds) := drop_rounds budget request ms (removelast (rounds_of ms)) ∅ 0 (with_messages ms request) in
          let estimated := estimate current in
          if budget <? estimated then inl ContextCapacityError
          else try! _ := validate_pairs (mr_messages current) in inr (MkPrepared current estimated removed_rounds truncated)
  | _ => inl WindowError
  end.
End Manager.

(** ** Pairs survive what compaction does *)
Definition shape (m : ModelMessage) : ModelRole * list ModelToolCall * option string := (mm_role m, mm_tool_calls m, mm_tool_call_id m).

Lemma pair_step_shape st m m' : shape m = shape m' -> pair_step st m = pair_step st m'.
Proof. unfold shape, pair_step. intros [= -> -> ->]. done. Qed.

Lemma efold_shape ms ms' st : Forall2 (fun m m' => shape m = shape m') ms ms' -> efold pair_step st ms = efold pair_step st ms'.
Proof.
  intros Hs. revert st. induction Hs as [|m m' ms ms' Hm Hs IH]; intros st; simpl; [done|]. rewrite (pair_step_shape st m m' Hm).
  destruct (pair_step st m'); simpl; [done|apply IH].
Qed.

Lemma efold_snoc {E A B : Type} (f : A -> B -> E + A) a l b : efold f a (l ++ [b]) = ebind (efold f a l) (fun a => f a b).
Proof. revert a. induction l as [|x l IH]; intros a; simpl; [by destruct (f a b)|]. destruct (f a x); simpl; [done|apply IH]. Qed.

(** Fewer used identifiers cannot make a message invalid. *)
Lemma use_calls_weaken calls pending used used' p2 u2 : used' ⊆ used -> efold use_call (pending, used) calls = inr (p2, u2) ->
  exists u2', u2' ⊆ u2 /\ efold use_call (pending, used') calls = inr (p2, u2').
Proof.
  revert pending used used'. induction calls as [|c calls IH]; intros pending used used' Hs; simpl.
  - intros [= <- <-]. by exists used'.
  - unfold use_call at 1 3. simpl. case_decide as Hin; [done|]. simpl. intros Hf. rewrite decide_False by set_solver. simpl.
    eapply IH; [|done]. set_solver.
Qed.

Lemma pair_step_weaken m pending used used' p2 u2 : used' ⊆ used -> pair_step (pending, used) m = inr (p2, u2) ->
  exists u2', u2' ⊆ u2 /\ pair_step (pending, used') m = inr (p2, u2').
Proof.
  intros Hs. unfold pair_step. destruct (mm_role m).
  - intros [= <- <-]. by exists used'.
  - case_decide; [|done]. by apply use_calls_weaken.
  - case_decide; [|done]. by apply use_calls_weaken.
  - destruct (mm_tool_call_id m); [|done]. case_decide; [|done]. intros [= <- <-]. by exists used'.
Qed.

(** ** Rounds *)
Definition first_rounds (k : nat) (rounds : list (list nat)) : gset nat := list_to_set (concat (take k rounds)).

Lemma push_last_length i rounds : length (push_last i rounds) = length rounds.
Proof. induction rounds as [|r [|r' rounds] IH]; simpl in *; lia. Qed.

Lemma push_last_take i rounds k : (k < length rounds)%nat -> take k (push_last i rounds) = take k rounds.
Proof.
  revert k. induction rounds as [|r [|r' rounds] IH]; intros k Hk; simpl in *; [lia| |].
  - by replace k with 0%nat by lia.
  - destruct k as [|k]; [done|]. simpl. f_equal. apply IH. simpl. lia.
Qed.

Lemma push_last_elem i j rounds : rounds <> [] -> j ∈ concat (push_last i rounds) <-> j = i \/ j ∈ concat rounds.
Proof.
  intros Hr. induction rounds as [|r [|r' rounds] IH]; [done| |].
  - simpl. rewrite !app_nil_r, elem_of_app, list_elem_of_singleton. tauto.
  - change (push_last i (r :: r' :: rounds)) with (r :: push_last i (r' :: rounds)). simpl concat at 1. simpl concat at 2.
    rewrite !elem_of_app, IH by done. simpl. rewrite elem_of_app. tauto.
Qed.

Lemma push_last_snoc i rounds r : push_last i (rounds ++ [r]) = rounds ++ [r ++ [i]].
Proof. induction rounds as [|r' [|r'' rounds] IH]; simpl in *; [done|done|]. by rewrite IH. Qed.

Definition kept (removed : gset nat) (l : list (nat * ModelMessage)) : list ModelMessage := snd <$> filter (fun im => im.1 ∉ removed) l.

Lemma kept_snoc removed l i m : kept removed (l ++ [(i, m)]) = kept removed l ++ (if decide (i ∈ removed) then [] else [m]).
Proof.
  unfold kept. rewrite filter_app, fmap_app. f_equal. destruct (decide (i ∈ removed)) as [Hi|Hi].
  - by rewrite filter_cons_False by (simpl; tauto).
  - by rewrite filter_cons_True by done.
Qed.

Lemma kept_system removed l : (forall i m, (i, m) ∈ l -> i ∈ removed \/ mm_role m = SYSTEM) -> efold pair_step (∅, ∅) (kept removed l) = inr (∅, ∅).
Proof.
  induction l as [|[i m] l IH] using rev_ind; intros Hl; [done|]. rewrite kept_snoc.
  assert (IH' : efold pair_step (∅, ∅) (kept removed l) = inr (∅, ∅)) by (apply IH; intros j m' Hj; apply Hl; set_solver).
  destruct (decide (i ∈ removed)) as [Hi|Hi]; [by rewrite app_nil_r|]. rewrite efold_snoc, IH'. simpl.
  destruct (Hl i m) as [?|Hs]; [set_solver|done|]. unfold pair_step. by rewrite Hs.
Qed.

Record rounds_inv (l : list (nat * ModelMessage)) (rounds : list (list nat)) (pending used : gset string) : Prop := MkRoundsInv {
  ri_bound : forall j, j ∈ concat rounds -> (j < length l)%nat;
  ri_system : forall i m, (i, m) ∈ l -> mm_role m = SYSTEM -> i ∉ concat rounds;
  ri_covers : forall i m, (i, m) ∈ l -> mm_role m <> SYSTEM -> i ∈ concat rounds;
  ri_runs : forall k, (k < length rounds)%nat -> exists used', used' ⊆ used /\ efold pair_step (∅, ∅) (kept (first_rounds k rounds) l) = inr (pending, used');
  ri_none : rounds = [] -> pending = ∅ /\ used = ∅;
  ri_index : forall i m, (i, m) ∈ l -> (i < length l)%nat;
}.

Lemma first_rounds_elem k rounds j : j ∈ first_rounds k rounds -> j ∈ concat rounds.
Proof.
  unfold first_rounds. rewrite elem_of_list_to_set. intros Hj. rewrite <- (take_drop k rounds), concat_app, elem_of_app. by left.
Qed.

Lemma rounds_inv_system l rounds pending used m : rounds_inv l rounds pending used -> mm_role m = SYSTEM ->
  rounds_inv (l ++ [(length l, m)]) rounds pending used.
Proof.
  intros [Hb Hs Hc Hr Hn Hi] Hm. split.
  - intros j Hj. rewrite length_app. apply Hb in Hj. lia.
  - intros i m' [Hin|[= -> ->]%list_elem_of_singleton]%elem_of_app; [by apply Hs|]. intros _ Hj%Hb. lia.
  - intros i m' [Hin|[= -> ->]%list_elem_of_singleton]%elem_of_app; [by apply Hc|done].
  - intros k Hk. destruct (Hr k Hk) as (used' & Hsub & Hrun). exists used'. split; [done|].
    rewrite kept_snoc, decide_False by (intros Hj%first_rounds_elem%Hb; lia). rewrite efold_snoc, Hrun. simpl. unfold pair_step. by rewrite Hm.
  - done.
  - intros i m' [Hin|[= -> ->]%list_elem_of_singleton]%elem_of_app; rewrite length_app; simpl; [apply Hi in Hin|]; lia.
Qed.

(** A message that opens a round finds no pending call. *)
Lemma rounds_inv_opens l rounds pending used m p2 u2 : rounds_inv l rounds pending used -> mm_role m <> SYSTEM ->
  rounds = [] \/ mm_role m = USER -> pair_step (pending, used) m = inr (p2, u2) ->
  rounds_inv (l ++ [(length l, m)]) (rounds ++ [[length l]]) p2 u2.
Proof.
  intros [Hb Hs Hc Hr Hn Hi] Hm Ho Hstep.
  assert (Hpend : pending = ∅).
  { destruct Ho as [Ho|Ho]; [by apply Hn|]. unfold pair_step in Hstep. rewrite Ho in Hstep. by case_decide. }
  assert (Hel : forall j, j ∈ concat (rounds ++ [[length l]]) <-> j ∈ concat rounds \/ j = length l).
  { intros j. rewrite concat_app, elem_of_app. simpl. rewrite list_elem_of_singleton. done. }
  split.
  - intros j [Hj%Hb| ->]%Hel; rewrite length_app; simpl; lia.
  - intros i m' [Hin|[= -> ->]%list_elem_of_singleton]%elem_of_app Hsys; [|done]. rewrite Hel. intros [Hj| ->]; [by eapply Hs|]. apply Hi in Hin. lia.
  - intros i m' [Hin|[= -> ->]%list_elem_of_singleton]%elem_of_app Hns; rewrite Hel; [left; by eapply Hc|by right].
  - intros k Hk. rewrite length_app in Hk. simpl in Hk.
    assert (Hfirst : first_rounds k (rounds ++ [[length l]]) = first_rounds k rounds) by (unfold first_rounds; by rewrite take_app_le by lia).
    rewrite Hfirst, kept_snoc, decide_False by (intros Hj%first_rounds_elem%Hb; lia). rewrite efold_snoc.
    assert (Hrun : exists used', used' ⊆ used /\ efold pair_step (∅, ∅) (kept (first_rounds k rounds) l) = inr (pending, used')).
    { destruct (decide (k < length rounds)%nat) as [Hlt|Hge]; [by apply Hr|]. exists ∅. split; [set_solver|]. rewrite Hpend. apply kept_system.
      intros i m' Hin. destruct (decide (mm_role m' = SYSTEM)); [by right|]. left. unfold first_rounds. rewrite take_ge by lia.
      rewrite elem_of_list_to_set. by eapply Hc. }
    destruct Hrun as (used' & Hsub & Hrun). rewrite Hrun. simpl. destruct (pair_step_weaken _ _ _ _ _ _ Hsub Hstep) as (u2' & Hu & Hst). by exists u2'.
  - by destruct rounds.
  - intros i m' [Hin|[= -> ->]%list_elem_of_singleton]%elem_of_app; rewrite length_app; simpl; [apply Hi in Hin|]; lia.
Qed.

Lemma rounds_inv_continues l rounds pending used m p2 u2 : rounds_inv l rounds pending used -> mm_role m <> SYSTEM ->
  rounds <> [] -> pair_step (pending, used) m = inr (p2, u2) ->
  rounds_inv (l ++ [(length l, m)]) (push_last (length l) rounds) p2 u2.
Proof.
  intros [Hb Hs Hc Hr Hn Hi] Hm Ho Hstep. pose proof (push_last_elem (length l)) as Hel. split.
  - intros j Hj. apply Hel in Hj; [|done]. rewrite length_app. simpl. destruct Hj as [->|Hj%Hb]; lia.
  - intros i m' [Hin|[= -> ->]%list_elem_of_singleton]%elem_of_app Hsys; [|done]. rewrite Hel by done. intros [->|Hj]; [apply Hi in Hin; lia|by eapply Hs].
  - intros i m' [Hin|[= -> ->]%list_elem_of_singleton]%elem_of_app Hns; rewrite Hel by done; [right; by eapply Hc|by left].
  - intros k Hk. rewrite push_last_length in Hk.
    assert (Hfirst : first_rounds k (push_last (length l) rounds) = first_rounds k rounds) by (unfold first_rounds; by rewrite push_last_take).
    rewrite Hfirst, kept_snoc, decide_False by (intros Hj%first_rounds_elem%Hb; lia). rewrite efold_snoc.
    destruct (Hr k Hk) as (used' & Hsub & Hrun). rewrite Hrun. simpl. destruct (pair_step_weaken _ _ _ _ _ _ Hsub Hstep) as (u2' & Hu & Hst). by exists u2'.
  - destruct rounds as [|r [|r' rounds]]; done.
  - intros i m' [Hin|[= -> ->]%list_elem_of_singleton]%elem_of_app; rewrite length_app; simpl; [apply Hi in Hin|]; lia.
Qed.

Lemma rounds_inv_step l rounds answered pending used m p2 u2 : rounds_inv l rounds pending used -> pair_step (pending, used) m = inr (p2, u2) ->
  rounds_inv (l ++ [(length l, m)]) (round_step (rounds, answered) (length l, m)).1 p2 u2.
Proof.
  intros Hinv Hstep. simpl. case_decide as Hm.
  - unfold pair_step in Hstep. rewrite Hm in Hstep. simplify_eq. by apply rounds_inv_system.
  - destruct (bool_decide (rounds = []) || bool_decide (mm_role m = USER) && answered) eqn:Ho; simpl.
    + rewrite push_last_snoc. simpl. apply (rounds_inv_opens _ _ pending used); try done.
      apply orb_true_iff in Ho as [Ho%bool_decide_eq_true|[Ho%bool_decide_eq_true _]%andb_true_iff]; auto.
    + apply orb_false_iff in Ho as [Ho%bool_decide_eq_false _]. by apply (rounds_inv_continues _ _ pending used).
Qed.

Lemma rounds_inv_holds ms pending used : efold pair_step (∅, ∅) ms = inr (pending, used) -> rounds_inv (imap pair ms) (rounds_of ms) pending used.
Proof.
  unfold rounds_of. revert pending used. induction ms as [|m ms IH] using rev_ind; intros p2 u2.
  - intros [= <- <-]. split; simpl; try done; try (intros; set_solver). lia.
  - rewrite efold_snoc, ebind_inr. intros ([pending used] & Hrun & Hstep). specialize (IH _ _ Hrun).
    rewrite imap_app. simpl. rewrite Nat.add_0_r, foldl_app. simpl.
    destruct (foldl round_step ([], false) (imap pair ms)) as [rounds answered] eqn:Hf. simpl in IH.
    rewrite <- (length_imap pair ms) at 1 2. by apply (rounds_inv_step _ _ answered pending used).
Qed.

(** Dropping whole rounds, but not the last one, keeps the pairs. *)
Lemma pairs_without_rounds ms k : validate_pairs ms = inr tt -> (k < length (rounds_of ms))%nat \/ k = 0%nat ->
  validate_pairs (without (first_rounds k (rounds_of ms)) ms) = inr tt.
Proof.
  unfold validate_pairs at 1. rewrite ebind_inr. intros ([pending used] & Hrun & Hp) Hk. simpl in Hp. case_decide as Hpend; [|done].
  pose proof (rounds_inv_holds _ _ _ Hrun) as [Hb Hs Hc Hr Hn Hi].
  assert (Hkept : exists used', efold pair_step (∅, ∅) (kept (first_rounds k (rounds_of ms)) (imap pair ms)) = inr (pending, used')).
  { destruct (decide (k < length (rounds_of ms))%nat) as [Hlt|Hge]; [destruct (Hr k Hlt) as (u & _ & Hu); by exists u|].
    assert (Hnone : rounds_of ms = []) by (destruct (rounds_of ms); [done|]; simpl in *; lia). exists ∅. rewrite (proj1 (Hn Hnone)). apply kept_system.
    intros i m Hin. right. destruct (decide (mm_role m = SYSTEM)) as [|Hns]; [done|]. specialize (Hc i m Hin Hns). rewrite Hnone in Hc. by apply not_elem_of_nil in Hc. }
  destruct Hkept as [used' Hu]. unfold validate_pairs, without. unfold kept in Hu. rewrite Hu. simpl. by rewrite decide_True.
Qed.

Lemma without_nothing ms : without ∅ ms = ms.
Proof.
  change (kept ∅ (imap pair ms) = ms). assert (Hall : forall l, kept ∅ l = snd <$> l).
  { induction l as [|[i m] l IH] using rev_ind; [done|]. by rewrite kept_snoc, decide_False, fmap_app, IH by set_solver. }
  rewrite Hall. apply list_eq. intros i. rewrite list_lookup_fmap, list_lookup_imap. by destruct (ms !! i).
Qed.

Lemma first_rounds_S k old olds : first_rounds (S k) (old :: olds) = list_to_set old ∪ first_rounds k olds.
Proof. unfold first_rounds. simpl. by rewrite list_to_set_app_L. Qed.

Lemma first_rounds_removelast k rounds : (k <= length (removelast rounds))%nat -> first_rounds k (removelast rounds) = first_rounds k rounds.
Proof.
  unfold first_rounds. rewrite removelast_firstn_len. change (firstn ?n ?l) with (take n l). rewrite length_take. intros Hk. by rewrite take_take, Nat.min_l by lia.
Qed.

Section Facts.
Context (text_tokens : string -> Z) (image_tokens : Z) `{JsonLoads}.

Lemma truncate_shape per_tool m : shape (truncate text_tokens per_tool m) = shape m.
Proof. unfold truncate. by destruct (too_long _ _ _). Qed.

Lemma truncated_pairs per_tool ms : validate_pairs (truncate text_tokens per_tool <$> ms) = validate_pairs ms.
Proof.
  unfold validate_pairs. rewrite (efold_shape (truncate text_tokens per_tool <$> ms) ms); [done|].
  induction ms as [|m ms IH]; simpl; constructor; [apply truncate_shape|done].
Qed.

(** A truncated message differs from the original in the content of a tool result at most. *)
Definition alike (m m' : ModelMessage) : Prop := shape m = shape m' /\ mm_name m = mm_name m' /\ (mm_role m <> TOOL -> m = m').

Lemma truncated_alike per_tool ms : Forall2 alike ms (truncate text_tokens per_tool <$> ms).
Proof.
  induction ms as [|m ms IH]; [by constructor|]. apply Forall2_cons. split; [|exact IH]. unfold alike. rewrite truncate_shape. unfold truncate, too_long.
  split; [done|]. split; [by case_match|]. intros Hr. by rewrite bool_decide_false.
Qed.

(** The request that is left when the first [k] rounds are dropped *)
Definition left_over (request : ModelRequest) (ms : list ModelMessage) (k : nat) : ModelRequest :=
  with_messages (without (first_rounds k (rounds_of ms)) ms) request.

Lemma drop_rounds_spec budget request ms olds removed n : exists k, (k <= length olds)%nat /\
  drop_rounds text_tokens image_tokens budget request ms olds removed n (with_messages (without removed ms) request) =
    (with_messages (without (removed ∪ first_rounds k olds) ms) request, n + Z.of_nat k) /\
  (forall j, (j < k)%nat -> budget < estimate text_tokens image_tokens (with_messages (without (removed ∪ first_rounds j olds) ms) request)) /\
  (k = length olds \/ estimate text_tokens image_tokens (with_messages (without (removed ∪ first_rounds k olds) ms) request) <= budget).
Proof.
  assert (Hnil : forall olds : list (list nat), first_rounds 0 olds = ∅) by (by intros []).
  revert removed n. induction olds as [|old olds IH]; intros removed n; simpl.
  - exists 0%nat. rewrite Hnil, union_empty_r_L, Z.add_0_r. split_and!; [lia|done|lia|by left].
  - destruct (estimate _ _ _ <=? budget) eqn:Hfit.
    + exists 0%nat. rewrite Hnil, union_empty_r_L, Z.add_0_r. split_and!; [lia|done|lia|right; lia].
    + destruct (IH (removed ∪ list_to_set old) (n + 1)) as (k & Hk & -> & Hlow & Hup). exists (S k). rewrite first_rounds_S, union_assoc_L.
      split_and!; [lia|f_equal; lia| |destruct Hup as [->|Hup]; [by left|by right]].
      intros [|j] Hj; [rewrite Hnil, union_empty_r_L; lia|]. rewrite first_rounds_S, union_assoc_L. apply Hlow. lia.
Qed.

(** What [prepare] does with a request that does not fit *)
Lemma drop_old_rounds budget request ms : exists k, (k = 0 \/ k < length (rounds_of ms))%nat /\
  drop_rounds text_tokens image_tokens budget request ms (removelast (rounds_of ms)) ∅ 0 (with_messages ms request) = (left_over request ms k, Z.of_nat k) /\
  (forall j, (j < k)%nat -> budget < estimate text_tokens image_tokens (left_over request ms j)) /\
  (k = pred (length (rounds_of ms)) \/ estimate text_tokens image_tokens (left_over request ms k) <= budget).
Proof.
  destruct (drop_rounds_spec budget request ms (removelast (rounds_of ms)) ∅ 0) as (k & Hk & Hdrop & Hlow & Hup).
  rewrite without_nothing in Hdrop. rewrite union_empty_l_L in Hdrop, Hup. setoid_rewrite union_empty_l_L in Hlow.
  assert (Hlen : length (removelast (rounds_of ms)) = pred (length (rounds_of ms))).
  { rewrite removelast_firstn_len. change (firstn ?n ?l) with (take n l). rewrite length_take. lia. }
  exists k. unfold left_over. rewrite <- (first_rounds_removelast k) by done. split_and!; [lia|done| |by rewrite <- Hlen].
  intros j Hj. rewrite <- (first_rounds_removelast j) by lia. by apply Hlow.
Qed.

(** ** The theorems *)

(** C18. Compaction keeps the pairing of tool calls with their results.  A prepared request is paired when the given one is; so the second check of [prepare]
    never fails: it raises [ContextBudgetError] exactly for requests that are not paired themselves. *)
Theorem compaction_keeps_pairs request window : 1 <= window ->
  (forall p, prepare text_tokens image_tokens request (AInt window) = inr p -> validate_pairs (mr_messages (px_request p)) = inr tt) /\
  (prepare text_tokens image_tokens request (AInt window) = inl ContextBudgetError <-> validate_pairs (mr_messages request) = inl ContextBudgetError).
Proof.
  intros Hw. unfold prepare. rewrite (proj2 (Z.ltb_ge _ _) Hw).
  destruct (validate_pairs (mr_messages request)) as [e|[]] eqn:Hpairs; simpl.
  - split; [done|]. split; [by intros [= ->]|]. by intros [= ->].
  - destruct (_ <=? 0); [done|]. destruct (estimate _ _ request <=? _); [split; [by intros p [= <-]|done]|].
    set (budget := window - output_reserve request). set (ms := truncate text_tokens (tool_limit request budget) <$> mr_messages request).
    destruct (drop_old_rounds budget request ms) as (k & Hk & -> & _ & _).
    destruct (budget <? _); [done|]. unfold left_over at 1 3. simpl. rewrite pairs_without_rounds; [|by unfold ms; rewrite truncated_pairs|lia]. simpl.
    split; [|done]. intros p [= <-]. simpl. apply pairs_without_rounds; [by unfold ms; rewrite truncated_pairs|lia].
Qed.

(** C19. A prepared context fits, and nothing but tool texts and whole old rounds was given up for it.  The estimate of the prepared request is the reported one and
    leaves the output reserve free.  A request that fits is passed on unchanged; otherwise long tool results are replaced by excerpts, which alters nothing but
    their content, and the oldest rounds are dropped, as few as possible: never a system message, never the last round, never part of a round. *)
Theorem prepared_contexts_fit request window p : prepare text_tokens image_tokens request (AInt window) = inr p ->
  let budget := window - output_reserve request in
  estimate text_tokens image_tokens (px_request p) = px_estimated p /\ px_estimated p + output_reserve request <= window /\
  ((px_request p = request /\ px_removed_rounds p = 0 /\ px_truncated_tools p = 0) \/
   (budget < estimate text_tokens image_tokens request /\
    exists ms k, Forall2 alike (mr_messages request) ms /\
      px_request p = left_over request ms k /\ px_removed_rounds p = Z.of_nat k /\ (k = 0 \/ k < length (rounds_of ms))%nat /\
      (forall j, (j < k)%nat -> budget < estimate text_tokens image_tokens (left_over request ms j)) /\
      (forall i m, ms !! i = Some m -> mm_role m = SYSTEM -> i ∉ first_rounds k (rounds_of ms)))).
Proof.
  unfold prepare. destruct (window <? 1); [done|]. destruct (validate_pairs (mr_messages request)) as [e|[]] eqn:Hpairs; simpl; [done|].
  destruct (_ <=? 0); [done|]. destruct (estimate _ _ request <=? _) eqn:Hfit.
  - intros [= <-]. simpl. split_and!; [done|lia|by left].
  - set (budget := window - output_reserve request). set (ms := truncate text_tokens (tool_limit request budget) <$> mr_messages request).
    destruct (drop_old_rounds budget request ms) as (k & Hk & -> & Hlow & _).
    destruct (budget <? _) eqn:Hbig; [done|]. destruct (validate_pairs (mr_messages (left_over request ms k))); [done|]. simpl. intros [= <-]. simpl.
    split_and!; [done|unfold budget in Hbig; lia|]. right. split; [lia|]. exists ms, k. split_and!; try done.
    + apply truncated_alike.
    + intros i m Hi Hs Hin%first_rounds_elem. rewrite <- (truncated_pairs (tool_limit request budget)) in Hpairs. fold ms in Hpairs.
      unfold validate_pairs in Hpairs. apply ebind_inr in Hpairs as ([pending used] & Hrun & _).
      apply (ri_system _ _ _ _ (rounds_inv_holds _ _ _ Hrun) i m); [|done|done]. apply list_elem_of_lookup. exists i. by rewrite list_lookup_imap, Hi.
Qed.

(** A capacity error is real: a paired request is refused for its size only if the output reserve fills the window, or the request is too long even without
    its old rounds. *)
Theorem capacity_errors_are_real request window : prepare text_tokens image_tokens request (AInt window) = inl ContextCapacityError ->
  window <= output_reserve request \/
  exists ms, Forall2 alike (mr_messages request) ms /\
    window - output_reserve request < estimate text_tokens image_tokens (left_over request ms (pred (length (rounds_of ms)))).
Proof.
  unfold prepare. destruct (window <? 1); [done|]. destruct (validate_pairs (mr_messages request)) as [e|[]] eqn:Hpairs; simpl.
  - intros [= ->]. exfalso. revert Hpairs. unfold validate_pairs. intros [Hp|(st & _ & Hp)]%ebind_inl; [|by case_decide].
    apply efold_inl in Hp as (before & m & rest & [pending used] & _ & _ & Hp). unfold pair_step in Hp.
    destruct (mm_role m); [done| | |]; try (case_decide; [|done]; apply efold_inl in Hp as (b & c & r & st & _ & _ & Hp); unfold use_call in Hp; by case_decide).
    destruct (mm_tool_call_id m); [|done]. by case_decide.
  - destruct (_ <=? 0) eqn:Hres; [intros _; left; lia|]. destruct (estimate _ _ request <=? _) eqn:Hfit; [done|].
    set (budget := window - output_reserve request). set (ms := truncate text_tokens (tool_limit request budget) <$> mr_messages request).
    destruct (drop_old_rounds budget request ms) as (k & Hk & -> & Hlow & Hup).
    destruct (budget <? estimate _ _ _) eqn:Hbig; [|unfold left_over; simpl; by rewrite pairs_without_rounds; [|unfold ms; rewrite truncated_pairs|lia]]. intros _. right. exists ms. split.
    + apply truncated_alike.
    + destruct Hup as [->|Hup]; lia.
Qed.
End Facts.

(** ** Examples *)
#[local] Instance demo_loads : JsonLoads := loads.

(** A finished round with a tool call, and a new question *)
Definition demo_history : list ModelMessage :=
  [MkMessage SYSTEM [TextContent "Be brief."] [] None None;
   MkMessage USER [TextContent "Read it."] [] None None;
   MkMessage ASSISTANT [] [MkToolCall "c1" "read" []] None None;
   MkMessage TOOL [TextContent "0123456789012345678901234567890123456789012345678901234567890123456789"] [] (Some "c1") (Some "read");
   MkMessage ASSISTANT [TextContent "Done."] [] None None;
   MkMessage USER [TextContent "And now?"] [] None None].
Definition demo_request : ModelRequest := MkModelRequest demo_history None [] CHOICE_AUTO None None 100 [] None [].

Example demo_rounds : rounds_of demo_history = [[1; 2; 3; 4]; [5]]%nat.
Proof. reflexivity. Qed.

Lemma demo_compacted : exists p, prepare byte_len 8192 demo_request (AInt 200) = inr p /\ px_removed_rounds p = 1.
Proof. eexists. split; vm_compute; reflexivity. Qed.

Lemma compaction_keeps_pairs_witness : exists p, prepare byte_len 8192 demo_request (AInt 200) = inr p /\ validate_pairs (mr_messages (px_request p)) = inr tt.
Proof.
  destruct demo_compacted as (p & Hp & _). exists p. split; [exact Hp|].
  exact (proj1 (compaction_keeps_pairs byte_len 8192 demo_request 200 ltac:(lia)) p Hp).
Defined.

Lemma prepared_contexts_fit_witness : exists p, prepare byte_len 8192 demo_request (AInt 200) = inr p /\ px_estimated p + 100 <= 200.
Proof.
  destruct demo_compacted as (p & Hp & _). exists p. split; [exact Hp|].
  exact (proj1 (proj2 (prepared_contexts_fit byte_len 8192 demo_request 200 p Hp))).
Defined.

Lemma demo_too_large : prepare byte_len 8192 demo_request (AInt 120) = inl ContextCapacityError.
Proof. vm_compute. reflexivity. Qed.

Lemma capacity_errors_are_real_witness : 120 <= output_reserve demo_request \/ exists ms, Forall2 alike (mr_messages demo_request) ms /\
  120 - output_reserve demo_request < estimate byte_len 8192 (left_over demo_request ms (pred (length (rounds_of ms)))).
Proof. exact (capacity_errors_are_real byte_len 8192 demo_request 120 demo_too_large). Defined.
End Context.
