(* ===== verification/ModelGateway.v ===== *)
(** * The model gateway ([models/gateway.py], [models/registry.py], [models/usage.py])

    The provider registry and the usage ledger as values; [complete] and [stream]
    as tasks over the answers of providers, secrets, the clock and, for streams,
    the consumer.  The stream of a provider is the list of its events with its
    ending; a stream that never ends is cut somewhere.  Providers are cached for all
    calls of the gateway, so the cache is asked, too.  Times are microseconds. *)
From S2P Require Import Prelude PyText Json Prog Tasks ModelTypes ModelContext.
Open Scope Z_scope.
Open Scope list_scope.

Module Gateway.
Import Models Context Tasks.

(** ** Errors *)
Inductive exc : Type :=
| ProviderError (e : ModelProviderError)
| ContextError (e : context_error)
| Exc (e : exn)
| GeneratorExit.

Definition fail {A : Type} (code : ModelErrorCode) (provider_id : option string) : exc + A := inl (ProviderError (MkProviderError code provider_id false)).

(** ** [ProviderRegistry] *)

(** A factory is code of the deployment; the registry knows whether there is one. *)
Record ProviderRegistry : Type := MkRegistry {
  rg_entries : gmap string (ProviderDescriptor * bool);
  rg_aliases : gmap string string;
}.

Definition empty_registry : ProviderRegistry := MkRegistry ∅ ∅.

Definition register (d : ProviderDescriptor) (factory : bool) (self : ProviderRegistry) : res ProviderRegistry :=
  let names := {[ pd_provider_id d ]} ∪ pd_aliases d in
  require negb (negb (bool_decide (rg_entries self !! pd_provider_id d = None)) || negb (bool_decide (names ## dom (rg_aliases self)))) else ValueError ;;
  Ok (MkRegistry (<[ pd_provider_id d := (d, factory) ]> (rg_entries self))
        (set_fold (fun name aliases => <[ name := pd_provider_id d ]> aliases) (rg_aliases self) names)).

Definition canonical (provider_id : string) (self : ProviderRegistry) : string := default provider_id (rg_aliases self !! provider_id).

Definition descriptor (provider_id : string) (self : ProviderRegistry) : option ProviderDescriptor :=
  fst <$> rg_entries self !! canonical provider_id self.

Definition bind_factory (provider_id : string) (self : ProviderRegistry) : res ProviderRegistry :=
  let name := canonical provider_id self in
  match rg_entries self !! name with
  | None => Raise KeyError
  | Some (d, factory) => require negb factory else ValueError ;; Ok (MkRegistry (<[ name := (d, true) ]> (rg_entries self)) (rg_aliases self))
  end.

(** ** [UsageLedger] *)
Inductive call_status : Type := SUCCEEDED | FAILED | CANCELLED.
#[global] Instance call_status_eq_dec : EqDecision call_status.
Proof. solve_decision. Defined.

Record LedgerRow : Type := MkRow {
  lr_calls : Z;
  lr_succeeded : Z;
  lr_failed : Z;
  lr_cancelled : Z;
  lr_usage_unknown : Z;
  lr_tokens : ModelUsage;
  lr_elapsed : Z;
}.

Definition empty_row : LedgerRow := MkRow 0 0 0 0 0 (MkUsage 0 0 0 0) 0.
Definition new_ledger (routes : gset string) : gmap string LedgerRow := set_to_map (fun r => (r, empty_row)) routes.

Definition add_usage (u v : ModelUsage) : ModelUsage :=
  MkUsage (us_input u + us_input v) (us_output u + us_output v) (us_cached_input u + us_cached_input v) (us_reasoning u + us_reasoning v).

Definition record_row (status : call_status) (elapsed : Z) (usage : option ModelUsage) (row : LedgerRow) : LedgerRow :=
  MkRow (lr_calls row + 1)
    (lr_succeeded row + if decide (status = SUCCEEDED) then 1 else 0)
    (lr_failed row + if decide (status = FAILED) then 1 else 0)
    (lr_cancelled row + if decide (status = CANCELLED) then 1 else 0)
    (lr_usage_unknown row + match usage with None => 1 | Some _ => 0 end)
    match usage with None => lr_tokens row | Some u => add_usage (lr_tokens row) u end
    (lr_elapsed row + Z.max 0 elapsed).

Definition record (route_id : string) (status : call_status) (elapsed : Z) (usage : option ModelUsage) (ledger : gmap string LedgerRow) : gmap string LedgerRow :=
  match ledger !! route_id with None => ledger | Some row => <[ route_id := record_row status elapsed usage row ]> ledger end.

(** ** [ModelGateway] *)
Record ModelGateway : Type := MkGateway {
  gw_registry : ProviderRegistry;
  gw_profiles : gmap string ModelProfile;
  gw_routes : gmap string ModelRoute;
  gw_default_context : Z;
}.

Definition check_profile (registry : ProviderRegistry) (kp : string * ModelProfile) : res unit :=
  require bool_decide (kp.1 = mp_profile_id kp.2) else ValueError ;;
  match descriptor (mp_provider_id kp.2) registry with
  | None => Raise ValueError
  | Some d => let! _ := effective_capabilities kp.2 (pd_capabilities d) in Ok tt
  end.

Definition check_route (profiles : gmap string ModelProfile) (kr : string * ModelRoute) : res unit :=
  require bool_decide (kr.1 = mo_route_id kr.2) else ValueError ;;
  for_each (fun id => guard (negb (is_none (profiles !! id))) ValueError) (route_profiles kr.2).

(** [__init__] with [_validate_configuration] *)
Definition new_gateway (registry : ProviderRegistry) (profiles : gmap string ModelProfile) (routes : gmap string ModelRoute) (default_context_tokens : pyarg) :
    res ModelGateway :=
  match default_context_tokens with
  | AInt n =>
      require negb (n <? 1) else ValueError ;;
      let! _ := for_each (check_profile registry) (map_to_list profiles) in
      let! _ := for_each (check_route profiles) (map_to_list routes) in
      Ok (MkGateway registry profiles routes n)
  | _ => Raise ValueError
  end.

Definition profile (profile_id : string) (self : ModelGateway) : exc + ModelProfile :=
  match gw_profiles self !! profile_id with Some p => inr p | None => fail PROFILE_NOT_FOUND None end.

Definition route (route_id : string) (self : ModelGateway) : exc + ModelRoute :=
  match gw_routes self !! route_id with Some r => inr r | None => fail PROFILE_NOT_FOUND None end.

Definition of_res {A : Type} (r : res A) : exc + A := match r with Ok a => inr a | Raise e => inl (Exc e) end.

Definition capabilities_of (p : ModelProfile) (self : ModelGateway) : exc + (ProviderDescriptor * ProviderCapabilities) :=
  match descriptor (mp_provider_id p) (gw_registry self) with
  | None => fail PROVIDER_NOT_FOUND None
  | Some d => try! c := of_res (effective_capabilities p (pd_capabilities d)) in inr (d, c)
  end.

Definition has_image (r : ModelRequest) : bool :=
  existsb (existsb (fun part => match part with ImageContent _ _ _ => true | _ => false end)) (mm_content <$> mr_messages r).
Definition has_document (r : ModelRequest) : bool :=
  existsb (existsb (fun part => match part with DocumentContent _ _ _ => true | _ => false end)) (mm_content <$> mr_messages r).

(** [if c: raise ModelProviderError(UNSUPPORTED_FEATURE, ...)] *)
Definition unsupported_if (c : bool) (d : ProviderDescriptor) : exc + unit := if c then fail UNSUPPORTED_FEATURE (Some (pd_provider_id d)) else inr tt.

(** [request.model or profile.model] *)
Definition model_of (p : ModelProfile) (r : ModelRequest) : string :=
  match mr_model r with Some m => if decide (m = "") then mp_model p else m | None => mp_model p end.

Definition validate_request (p : ModelProfile) (r : ModelRequest) (streaming : bool) (self : ModelGateway) : exc + unit :=
  if negb (permits_model p (model_of p r)) then fail PERMISSION_DENIED (Some (mp_provider_id p))
  else
    try! dc := capabilities_of p self in
    let '(d, c) := dc in
    try! _ := unsupported_if (streaming && negb (pc_streaming c)) d in
    try! _ := unsupported_if (negb (bool_decide (mr_tools r = [])) && negb (pc_tools c)) d in
    try! _ := unsupported_if (negb (is_none (mr_response_schema r)) && negb (pc_json_schema c)) d in
    try! _ := unsupported_if (has_image r && negb (pc_vision c)) d in
    unsupported_if (has_document r && negb (pc_documents c)) d.

(** ** Questions *)
Inductive question : Type :=
| QMonotonic
| QCached (profile_id : string)
| QSecret (reference : string)
| QFactory (d : ProviderDescriptor) (p : ModelProfile) (credential : option string)
| QCache (profile_id : string)
| QComplete (profile_id : string) (request : ModelRequest)
| QSleep (duration : Z)
| QOpenStream (profile_id : string) (request : ModelRequest)
| QYield (event : ModelStreamEvent)
| QCloseStream
| QRecord (route_id : string) (status : call_status) (elapsed : Z) (usage : option ModelUsage).

Definition ans (q : question) : Type :=
  match q with
  | QMonotonic => Z
  | QCached _ => bool
  | QSecret _ => exc + string
  | QFactory _ _ _ => option exc
  | QCache _ | QRecord _ _ _ _ => unit
  | QComplete _ _ => exc + ModelResponse
  | QSleep _ | QYield _ | QCloseStream => option exc
  | QOpenStream _ _ => exc + (list ModelStreamEvent * option exc)
  end%type.

(** [emitted] and [usage] of the generators, and what the consumer threw into them *)
Record locals : Type := MkLocals { lo_emitted : bool; lo_usage : option ModelUsage; lo_thrown : option exc }.
Definition start : locals := MkLocals false None None.

Definition M (A : Type) : Type := task ans locals exc A.

Definition monotonic : M Z := fun l => Call QMonotonic (fun a => Ret (l, inr a)).
Definition cached id : M bool := fun l => Call (QCached id) (fun a => Ret (l, inr a)).
Definition secret ref : M string := fun l => Call (QSecret ref) (fun a => Ret (l, a)).
Definition factory d p c : M unit := fun l => Call (QFactory d p c) (fun a => Ret (l, raised a)).
Definition cache id : M unit := fun l => Call (QCache id) (fun _ => Ret (l, inr tt)).
Definition ask_complete id r : M ModelResponse := fun l => Call (QComplete id r) (fun a => Ret (l, a)).
Definition sleep d : M unit := fun l => Call (QSleep d) (fun a => Ret (l, raised a)).
Definition open_stream id r : M (list ModelStreamEvent * option exc) := fun l => Call (QOpenStream id r) (fun a => Ret (l, a)).
Definition close_stream : M unit := fun l => Call QCloseStream (fun a => Ret (l, raised a)).
Definition write_record r s e u : M unit := fun l => Call (QRecord r s e u) (fun _ => Ret (l, inr tt)).

(** [yield event] of the wrapping generator: whatever the consumer throws closes the inner one. *)
Definition set_thrown (x : option exc) (l : locals) : locals := MkLocals (lo_emitted l) (lo_usage l) x.
Definition deliver (e : ModelStreamEvent) : M unit := fun l =>
  Call (QYield e) (fun a => match a with
    | None => Ret (MkLocals (lo_emitted l) (match se_usage e with Some u => Some u | None => lo_usage l end) (lo_thrown l), inr tt)
    | Some x => Ret (MkLocals (lo_emitted l) (match se_usage e with Some u => Some u | None => lo_usage l end) (Some x), inl GeneratorExit)
    end).

Definition set_emitted (b : bool) (l : locals) : locals := MkLocals b (lo_usage l) (lo_thrown l).

(** [except ModelProviderError as exc] *)
Definition try_provider {A : Type} (m : M A) : M (ModelProviderError + A) :=
  mcatch (do a <- m in ret (inr a)) (fun x => match x with ProviderError e => ret (inl e) | _ => raise x end).

Section Calls.
Context (text_tokens : string -> Z) (image_tokens : Z) `{JsonLoads} (self : ModelGateway).

(** ** Providers ([ProviderRegistry.create], [_provider]) *)
Definition resolve_credential (d : ProviderDescriptor) (p : ModelProfile) : M (option string) :=
  let missing := of_sum (fail CREDENTIAL_MISSING (Some (pd_provider_id d))) in
  match pd_auth d, mp_credential_ref p with
  | API_KEY, Some ref =>
      if decide (ref = "") then missing
      else mcatch (do s <- secret ref in ret (Some s)) (fun x => match x with Exc CancelledError | GeneratorExit => raise x | _ => missing end)
  | API_KEY, None => missing
  | INTERNAL_NONE, Some ref => if decide (ref = "") then ret None else do s <- secret ref in ret (Some s)
  | _, _ => ret None
  end.

Definition with_capabilities (c : ProviderCapabilities) (d : ProviderDescriptor) : ProviderDescriptor :=
  MkProviderDescriptor (pd_provider_id d) (pd_auth d) (pd_default_base_url d) (pd_aliases d) c.

Definition create (p : ModelProfile) : M unit :=
  match rg_entries (gw_registry self) !! canonical (mp_provider_id p) (gw_registry self) with
  | None => of_sum (fail PROVIDER_NOT_FOUND None)
  | Some (d, false) => of_sum (fail CONFIGURATION (Some (pd_provider_id d)))
  | Some (d, true) =>
      do credential <- resolve_credential d p in
      do c <- of_sum (of_res (effective_capabilities p (pd_capabilities d))) in
      factory (with_capabilities c d) p credential
  end.

Definition provider (p : ModelProfile) : M unit :=
  do hit <- cached (mp_profile_id p) in
  if hit then ret tt else do _ <- create p in cache (mp_profile_id p).

(** ** Contexts ([_prepare_context]) *)
Definition prepare_context (p : ModelProfile) (r : ModelRequest) : exc + PreparedContext :=
  try! dc := capabilities_of p self in
  let window := match pc_max_context_tokens dc.2 with Some n => if n =? 0 then gw_default_context self else n | None => gw_default_context self end in
  match prepare text_tokens image_tokens r (AInt window) with inl e => inl (ContextError e) | inr prepared => inr prepared end.

(** [min(0.25 * (2**attempt), 2.0)] *)
Definition backoff (attempt : nat) : Z := Z.min (250000 * 2 ^ Z.of_nat attempt) 2000000.

Definition max_attempts (p : ModelProfile) : nat := Z.to_nat (mp_max_retries p + 1).

(** ** [_complete] *)
Definition parallel_error (p : ModelProfile) : ModelProviderError := MkProviderError UNSUPPORTED_FEATURE (Some (mp_provider_id p)) false.

Definition completion (p : ModelProfile) (request : ModelRequest) : M ModelResponse :=
  do response <- ask_complete (mp_profile_id p) request in
  do dc <- of_sum (capabilities_of p self) in
  if (1 <? Z.of_nat (length (mo_tool_calls response))) && negb (pc_parallel_tool_calls dc.2) then raise (ProviderError (parallel_error p))
  else ret response.

(** [for attempt in range(profile.max_retries + 1)]; the error is [last_error] afterwards. *)
Fixpoint completions (p : ModelProfile) (request : ModelRequest) (n : nat) (last : option exc) : M (option exc + ModelResponse) :=
  match n with
  | O => ret (inl last)
  | S n =>
      do r <- try_provider (completion p request) in
      match r with
      | inr response => ret (inr response)
      | inl e =>
          if negb (me_retryable e) || bool_decide (n = O) then ret (inl (Some (ProviderError e)))
          else do _ <- sleep (backoff (max_attempts p - S n)) in completions p request n (Some (ProviderError e))
      end
  end.

(** [isinstance(last_error, ModelProviderError) and not last_error.retryable] *)
Definition fatal (last : option exc) : bool := match last with Some (ProviderError e) => negb (me_retryable e) | _ => false end.

Definition no_answer {A : Type} (last : option exc) : M A :=
  match last with Some x => raise x | None => of_sum (fail UNAVAILABLE None) end.

Fixpoint complete_profiles (request : ModelRequest) (ids : list string) (last : option exc) : M ModelResponse :=
  match ids with
  | [] => no_answer last
  | id :: ids =>
      do p <- of_sum (profile id self) in
      do _ <- of_sum (validate_request p request false self) in
      match prepare_context p request with
      | inl (ContextError ContextCapacityError) => complete_profiles request ids (Some (ContextError ContextCapacityError))
      | inl x => raise x
      | inr prepared =>
          do _ <- provider p in
          do r <- completions p (px_request prepared) (max_attempts p) last in
          match r with
          | inr response => ret response
          | inl last => if fatal last then no_answer last else complete_profiles request ids last
          end
      end
  end.

Definition complete_ (route_id : string) (request : ModelRequest) : M ModelResponse :=
  do r <- of_sum (route route_id self) in complete_profiles request (route_profiles r) None.

(** [_record_call] *)
Definition record_call (route_id : string) (status : call_status) (started : Z) (usage : option ModelUsage) : M unit :=
  do finished <- monotonic in write_record route_id status (finished - started) usage.

Definition complete (route_id : string) (request : ModelRequest) : M ModelResponse :=
  do started <- monotonic in
  mcatch
    (do response <- complete_ route_id request in
     do _ <- record_call route_id SUCCEEDED started (mo_usage response) in
     ret response)
    (fun x => do _ <- record_call route_id (match x with Exc CancelledError => CANCELLED | _ => FAILED end) started None in raise x).

(** ** [_stream_unobserved] *)
Definition compacted (prepared : PreparedContext) : bool := negb (px_removed_rounds prepared =? 0) || negb (px_truncated_tools prepared =? 0).

Definition compaction_event (prepared : PreparedContext) : ModelStreamEvent :=
  MkStreamEvent CONTEXT_COMPACTED None None None None None
    (Some [("estimated_input_tokens", JInt (px_estimated prepared)); ("removed_rounds", JInt (px_removed_rounds prepared));
           ("truncated_tools", JInt (px_truncated_tools prepared))])
    (Some (mr_messages (px_request prepared))).

Definition gateway_owned (e : ModelStreamEvent) : bool := bool_decide (se_type e = CONTEXT_COMPACTED) || negb (is_none (se_prepared_messages e)).

Definition add_call (e : ModelStreamEvent) (ids : gset string) : gset string :=
  match se_tool_call e with Some c => {[ tc_call_id c ]} ∪ ids | None => ids end.

(** [async for event in provider_stream] *)
Fixpoint relay (p : ModelProfile) (c : ProviderCapabilities) (prepared : PreparedContext) (items : list ModelStreamEvent) (ending : option exc)
    (call_ids : gset string) : M unit :=
  match items with
  | [] => of_sum (raised ending)
  | e :: items =>
      if gateway_owned e then raise (ProviderError (MkProviderError RESPONSE_INVALID (Some (mp_provider_id p)) false))
      else
        let call_ids := add_call e call_ids in
        if negb (is_none (se_tool_call e)) && (1 <? Z.of_nat (size call_ids)) && negb (pc_parallel_tool_calls c) then raise (ProviderError (parallel_error p))
        else
          do emitted <- gets lo_emitted in
          do _ <- (if negb emitted && compacted prepared then deliver (compaction_event prepared) else ret tt) in
          do _ <- update (set_emitted true) in
          do _ <- deliver e in
          relay p c prepared items ending call_ids
  end.

(** One attempt, [n] more to go: [None] is the [return] of the generator, an error the [continue] or [break]. *)
Definition attempt (p : ModelProfile) (c : ProviderCapabilities) (prepared : PreparedContext) (n : nat) : M (option ModelProviderError) :=
  do _ <- update (set_emitted false) in
  do source <- open_stream (mp_profile_id p) (px_request prepared) in
  mfinally
    (do r <- try_provider (relay p c prepared source.1 source.2 ∅) in
     match r with
     | inr _ => ret None
     | inl e =>
         do emitted <- gets lo_emitted in
         if emitted || negb (me_retryable e) then raise (ProviderError e)
         else if bool_decide (n = O) then ret (Some e)
         else do _ <- sleep (backoff (max_attempts p - S n)) in ret (Some e)
     end)
    close_stream.

Fixpoint attempts (p : ModelProfile) (c : ProviderCapabilities) (prepared : PreparedContext) (n : nat) (last : option exc) : M (option exc + unit) :=
  match n with
  | O => ret (inl last)
  | S n =>
      do r <- attempt p c prepared n in
      match r with
      | None => ret (inr tt)
      | Some e => if bool_decide (n = O) then ret (inl (Some (ProviderError e))) else attempts p c prepared n (Some (ProviderError e))
      end
  end.

Fixpoint stream_profiles (request : ModelRequest) (ids : list string) (last : option exc) : M unit :=
  match ids with
  | [] => no_answer last
  | id :: ids =>
      do p <- of_sum (profile id self) in
      do _ <- of_sum (validate_request p request true self) in
      match prepare_context p request with
      | inl (ContextError ContextCapacityError) => stream_profiles request ids (Some (ContextError ContextCapacityError))
      | inl x => raise x
      | inr prepared =>
          do _ <- provider p in
          do dc <- of_sum (capabilities_of p self) in
          do r <- attempts p dc.2 prepared (max_attempts p) last in
          match r with
          | inr _ => ret tt
          | inl last => if fatal last then no_answer last else stream_profiles request ids last
          end
      end
  end.

Definition stream_unobserved (route_id : string) (request : ModelRequest) : M unit :=
  do r <- of_sum (route route_id self) in stream_profiles request (route_profiles r) None.

(** ** [_stream] *)

(** What was thrown into the generator is raised again, unless closing the inner generator raised. *)
Definition stream_failure (thrown : option exc) (x : exc) : exc * call_status :=
  let cause := default x thrown in
  (match thrown, x with Some y, GeneratorExit => y | _, _ => x end,
   match cause with Exc CancelledError | GeneratorExit => CANCELLED | _ => FAILED end).

Definition stream (route_id : string) (request : ModelRequest) : M unit :=
  do started <- monotonic in
  mcatch
    (do _ <- stream_unobserved route_id request in
     do usage <- gets lo_usage in
     record_call route_id SUCCEEDED started usage)
    (fun x =>
       do usage <- gets lo_usage in
       do thrown <- gets lo_thrown in
       do _ <- record_call route_id (stream_failure thrown x).2 started usage in
       raise (stream_failure thrown x).1).
End Calls.
End Gateway.
