(* ===== verification/ModelGatewayProps.v ===== *)
(** * What every call of the model gateway satisfies

    Failover follows the route and exhausts a profile before it moves on, streams are
    never spliced from two providers, and every call is accounted once. *)
From S2P Require Import Prelude PyText Json Prog Tasks ModelTypes ModelContext ModelGateway.
Open Scope Z_scope.
Open Scope list_scope.

Module GatewayProps.
Import Models Context Tasks Gateway.

Abbreviation ev := (event ans).

(** ** Configured gateways *)
Definition configured (self : ModelGateway) : Prop :=
  exists registry profiles routes n, new_gateway registry profiles routes n = Ok self.

Lemma configured_profile self k p : configured self -> gw_profiles self !! k = Some p ->
  mp_profile_id p = k /\ exists d c, capabilities_of p self = inr (d, c) /\ descriptor (mp_provider_id p) (gw_registry self) = Some d.
Proof.
  intros (registry & profiles & routes & n & Hn) Hp. unfold new_gateway in Hn. destruct n as [n| | | |]; try done.
  apply res_bind_Ok in Hn as (_ & _ & Hn). apply res_bind_Ok in Hn as ([] & Hps & Hn). apply res_bind_Ok in Hn as ([] & _ & Hn).
  injection Hn as <-. simpl in *.
  pose proof (proj1 (Forall_forall _ _) (proj1 (for_each_Ok _ _) Hps) (k, p) ltac:(by apply elem_of_map_to_list)) as Hc. unfold check_profile in Hc. simpl in Hc.
  apply res_bind_Ok in Hc as (_ & Hk%guard_Ok%bool_decide_eq_true & Hc). split; [done|].
  unfold capabilities_of. simpl. destruct (descriptor _ _) as [d|]; [|done]. apply res_bind_Ok in Hc as (c & Hc & _).
  exists d, c. by rewrite Hc.
Qed.

Lemma configured_route self k r : configured self -> gw_routes self !! k = Some r ->
  mo_route_id r = k /\ forall id, id ∈ route_profiles r -> is_Some (gw_profiles self !! id).
Proof.
  intros (registry & profiles & routes & n & Hn) Hr. unfold new_gateway in Hn. destruct n as [n| | | |]; try done.
  apply res_bind_Ok in Hn as (_ & _ & Hn). apply res_bind_Ok in Hn as ([] & _ & Hn). apply res_bind_Ok in Hn as ([] & Hrs & Hn).
  injection Hn as <-. simpl in *.
  pose proof (proj1 (Forall_forall _ _) (proj1 (for_each_Ok _ _) Hrs) (k, r) ltac:(by apply elem_of_map_to_list)) as Hc. unfold check_route in Hc. cbn [fst snd] in Hc.
  apply res_bind_Ok in Hc as (_ & Hk%guard_Ok%bool_decide_eq_true & Hc). split; [done|].
  intros id Hid. pose proof (proj1 (Forall_forall _ _) (proj1 (for_each_Ok _ _) Hc) id Hid) as Hg. apply guard_Ok in Hg. destruct (profiles !! id); [by eexists|done].
Qed.

(** ** Histories *)
Definition retryable (x : exc) : bool := match x with ProviderError e => me_retryable e | _ => false end.

(** The profile that was tried, and whether the failure may be retried *)
Definition tried (e : ev) : option (string * bool) :=
  match e with
  | existT (QComplete id _) a => Some (id, match a with inl x => retryable x | inr _ => false end)
  | existT (QOpenStream id _) a => Some (id, match a with inr ([], Some x) => retryable x | _ => false end)
  | _ => None
  end.

Definition tries (id : string) (h : list ev) : list bool :=
  omap (fun e => match tried e with Some (i, b) => if decide (i = id) then Some b else None | None => None end) h.

Definition yielded (e : ev) : option ModelStreamEvent := match e with existT (QYield x) _ => Some x | _ => None end.
(** The events that reached the consumer, in order *)
Definition yields (h : list ev) : list ModelStreamEvent := reverse (omap yielded h).

Definition records (h : list ev) : list (string * call_status) :=
  omap (fun e : ev => match e with existT (QRecord r s _ _) _ => Some (r, s) | _ => None end) h.

(** Events that neither try a provider, nor reach the consumer, nor account *)
Definition harmless (e : ev) : Prop :=
  match projT1 e with QComplete _ _ | QOpenStream _ _ | QYield _ | QRecord _ _ _ _ => False | _ => True end.

Lemma harmless_cons e h : harmless e -> (forall id, tries id (e :: h) = tries id h) /\ yields (e :: h) = yields h /\ records (e :: h) = records h.
Proof. destruct e as [q a]. by destruct q. Qed.

Lemma harmless_app new h : Forall harmless new -> (forall id, tries id (new ++ h) = tries id h) /\ yields (new ++ h) = yields h /\ records (new ++ h) = records h.
Proof.
  induction 1 as [|e new He Hn IH]; [done|]. destruct IH as (A & B & C). change ((e :: new) ++ h) with (e :: (new ++ h)). destruct (harmless_cons e (new ++ h) He) as (A' & B' & C').
  split_and!; [intros id; by rewrite A', A|by rewrite B', B|by rewrite C', C].
Qed.

Lemma tries_cons id e h b : tried e = Some (id, b) -> tries id (e :: h) = b :: tries id h.
Proof. intros He. unfold tries. simpl. by rewrite He, decide_True. Qed.

Lemma tries_other id id' e h b : tried e = Some (id, b) -> id' <> id -> tries id' (e :: h) = tries id' h.
Proof. intros He Hne. unfold tries. simpl. by rewrite He, decide_False. Qed.

(** [k] retryable failures of one profile since [h0] *)
Definition phase (id : string) (h0 : list ev) (k : nat) (h : list ev) : Prop :=
  tries id h = replicate k true /\ forall id', id' <> id -> tries id' h = tries id' h0.

Lemma phase_harmless id h0 k new h : Forall harmless new -> phase id h0 k h -> phase id h0 k (new ++ h).
Proof. intros Hn [Hp Ho]. destruct (harmless_app new h Hn) as [A _]. split; [by rewrite A|]. intros id' Hi. rewrite A. by apply Ho. Qed.

Lemma phase_failed id h0 k e h : tried e = Some (id, true) -> phase id h0 k h -> phase id h0 (S k) (e :: h).
Proof. intros He [Hp Ho]. split; [by rewrite (tries_cons id e h true), Hp|]. intros id' Hi. rewrite (tries_other id id' e h true He Hi). by apply Ho. Qed.

Section Props.
Context (text_tokens : string -> Z) (image_tokens : Z) `{JsonLoads} (self : ModelGateway) (route_id : string) (request : ModelRequest).

Abbreviation prepare_for p := (prepare_context text_tokens image_tokens self p request).

(** A profile that need not be tried again *)
Definition settled (id : string) (h : list ev) : Prop :=
  exists p, gw_profiles self !! id = Some p /\
    (prepare_for p = inl (ContextError ContextCapacityError) \/ tries id h = replicate (max_attempts p) true).

(** It is the turn of a profile *)
Definition turn (streaming : bool) (id : string) (req : ModelRequest) (h : list ev) : Prop :=
  exists r p prepared before after, gw_routes self !! route_id = Some r /\ route_profiles r = before ++ id :: after /\ gw_profiles self !! id = Some p /\
    validate_request p request streaming self = inr tt /\ prepare_for p = inr prepared /\ req = px_request prepared /\
    (exists k, (k < max_attempts p)%nat /\ tries id h = replicate k true) /\
    (forall id', id' ∈ before -> settled id' h) /\ (forall id', id' ∈ after -> tries id' h = []).

(** The answer that [complete] may return *)
Definition accepted (response : ModelResponse) (h : list ev) : Prop :=
  exists id req p d c, ((QComplete id req ~> inr response) : ev) ∈ h /\ gw_profiles self !! id = Some p /\ capabilities_of p self = inr (d, c) /\
    (1 < length (mo_tool_calls response) -> pc_parallel_tool_calls c = true)%nat.

Lemma try_provider_wp {A : Type} I (m : M A) l h (R : ModelProviderError + A -> locals -> list ev -> Prop) (E : exc -> locals -> list ev -> Prop) :
  mwp I m l h (fun a => R (inr a)) (fun x l' h' => match x with ProviderError e => R (inl e) l' h' | _ => E x l' h' end) ->
  mwp I (try_provider m) l h R E.
Proof.
  intros Hm. unfold try_provider. apply mwp_catch, mwp_bind. eapply mwp_mono; [| |exact Hm]; [done|]. intros [e|e|e|] l' h' Hx; exact Hx.
Qed.

Lemma provider_quiet p : quietly harmless (provider self p).
Proof.
  unfold provider, create, resolve_credential. apply quietly_bind; [by apply quietly_ask|]. intros [].
  { apply quietly_ret. }
  apply quietly_bind; [|intros _; by apply quietly_ask].
  destruct (rg_entries (gw_registry self) !! _) as [[d []]|]; [|apply quietly_of_sum..].
  apply quietly_bind.
  - assert (Hs : forall ref, quietly harmless (do s <- secret ref in ret (Some s))) by (intros ref; apply quietly_bind; [by apply quietly_ask|intros s; apply quietly_ret]).
    destruct (pd_auth d), (mp_credential_ref p) as [ref|]; try apply quietly_ret; try apply quietly_of_sum; case_decide; try apply quietly_ret; try apply quietly_of_sum; try done.
    apply quietly_catch; [done|]. intros [e|e|[]|]; first [apply quietly_raise|apply quietly_of_sum].
  - intros credential. apply quietly_bind; [apply quietly_of_sum|]. intros c. by apply quietly_ask.
Qed.

(** ** Completions *)
Lemma completions_wp (I : list ev -> ev -> Prop) p req n last l h0 h : gw_profiles self !! mp_profile_id p = Some p ->
  (forall h' k a, (k < max_attempts p)%nat -> phase (mp_profile_id p) h0 k h' -> I h' (QComplete (mp_profile_id p) req ~> a)) ->
  (forall h' d a, I h' (QSleep d ~> a)) -> (n <= max_attempts p)%nat -> phase (mp_profile_id p) h0 (max_attempts p - n) h ->
  mwp I (completions self p req n last) l h
    (fun r _ h' => match r with
       | inl last' => fatal last' = false -> phase (mp_profile_id p) h0 (max_attempts p) h'
       | inr response => accepted response h' end) (fun _ _ _ => True).
Proof.
  intros Hp HI HS. revert last l h. induction n as [|n IH]; intros last l h Hn Hph; simpl.
  - apply mwp_ret. intros _. by rewrite Nat.sub_0_r in Hph.
  - apply mwp_bind, try_provider_wp. unfold completion. apply mwp_bind, mwp_ask. intros a. split; [apply (HI h (max_attempts p - S n)%nat); [lia|done]|].
    assert (Hfail : forall e, a = inl (ProviderError e) -> me_retryable e = true -> phase (mp_profile_id p) h0 (max_attempts p - n) ((QComplete (mp_profile_id p) req ~> a) :: h)).
    { intros e -> He. replace (max_attempts p - n)%nat with (S (max_attempts p - S n)) by lia. apply phase_failed; [|done]. simpl. by rewrite He. }
    destruct a as [[e|e|e|]|response]; try done.
    + destruct (negb (me_retryable e) || bool_decide (n = 0%nat)) eqn:Hstop.
      * apply mwp_ret. simpl. intros Hf%negb_false_iff. rewrite Hf in Hstop. simpl in Hstop. apply bool_decide_eq_true in Hstop as ->.
        specialize (Hfail e eq_refl Hf). by rewrite Nat.sub_0_r in Hfail.
      * apply orb_false_iff in Hstop as [He%negb_false_iff _]. apply mwp_bind, mwp_ask. intros b. split; [done|]. destruct b as [x|]; [done|]. simpl.
        apply IH; [lia|]. apply (phase_harmless _ _ _ [_]); [by repeat constructor|by apply (Hfail e)].
    + apply mwp_bind, mwp_of_sum; [intros [d c] Hc|].
      * simpl. destruct ((1 <? Z.of_nat (length (mo_tool_calls response))) && negb (pc_parallel_tool_calls c)) eqn:Hpar; [by apply mwp_ret|].
        apply mwp_ret, mwp_ret. exists (mp_profile_id p), req, p, d, c. split_and!; [by left|done|done|]. intros Hlen.
        apply andb_false_iff in Hpar as [Hpar|Hpar]; [lia|by apply negb_false_iff].
      * intros [e|e|e|] Hx; try done. unfold capabilities_of in Hx. destruct (descriptor _ _); [destruct (effective_capabilities _ _); simplify_eq/=|].
        injection Hx as <-. simpl. by apply mwp_ret.
Qed.

Lemma settled_frame id h h' : tries id h' = tries id h -> settled id h -> settled id h'.
Proof. intros Ht (p & Hp & [Hs|Hs]); exists p; (split; [done|]); [by left|right; by rewrite Ht]. Qed.

Lemma no_answer_wp {A : Type} I last l h (R : A -> locals -> list ev -> Prop) : mwp I (no_answer last) l h R (fun _ _ _ => True).
Proof. by destruct last. Qed.

(** The profiles of a route from some point on: those before are settled, the others untouched. *)
Record at_profile (r : ModelRoute) (before ids : list string) (h : list ev) : Prop := MkAt {
  at_route : route_profiles r = before ++ ids;
  at_before : forall id, id ∈ before -> settled id h;
  at_rest : forall id, id ∈ ids -> tries id h = [];
}.

Lemma at_harmless r before ids new h : Forall harmless new -> at_profile r before ids h -> at_profile r before ids (new ++ h).
Proof.
  intros Hn [A B C]. destruct (harmless_app new h Hn) as [Ht _]. split; [done| |].
  - intros id Hid. apply (settled_frame id h); [apply Ht|by apply B].
  - intros id Hid. rewrite Ht. by apply C.
Qed.

Lemma at_next r before id ids h h0 : NoDup (route_profiles r) -> at_profile r before (id :: ids) h0 ->
  (forall id', id' <> id -> tries id' h = tries id' h0) -> settled id h -> at_profile r (before ++ [id]) ids h.
Proof.
  intros Hnd [A B C] Hf Hs. rewrite A in Hnd. apply NoDup_app in Hnd as (_ & Hdis & Hnd%NoDup_cons). destruct Hnd as [Hid Hnd]. split.
  - by rewrite A, <- app_assoc.
  - intros id' [Hin|Hin%list_elem_of_singleton]%elem_of_app; [|by subst].
    apply (settled_frame id' h0); [|by apply B]. apply Hf. intros ->. apply (Hdis id Hin). by left.
  - intros id' Hin. rewrite Hf; [apply C; by right|]. by intros ->.
Qed.

Lemma at_turn streaming r before id ids p prepared k h h0 : NoDup (route_profiles r) -> gw_routes self !! route_id = Some r ->
  at_profile r before (id :: ids) h0 -> gw_profiles self !! id = Some p -> validate_request p request streaming self = inr tt -> prepare_for p = inr prepared ->
  (k < max_attempts p)%nat -> phase id h0 k h -> turn streaming id (px_request prepared) h.
Proof.
  intros Hnd Hr [A B C] Hp Hv Hprep Hk [Ht Hf]. exists r, p, prepared, before, ids. rewrite A in Hnd. apply NoDup_app in Hnd as (_ & Hdis & Hnd%NoDup_cons).
  destruct Hnd as [Hid Hnd]. split_and!; try done; [by exists k| |].
  - intros id' Hin. apply (settled_frame id' h0); [|by apply B]. apply Hf. intros ->. apply (Hdis id Hin). by left.
  - intros id' Hin. rewrite Hf; [apply C; by right|]. by intros ->.
Qed.

Lemma at_start r : at_profile r [] (route_profiles r) [].
Proof. split; [done|by intros id Hid%not_elem_of_nil|done]. Qed.

(** Trying a provider is all that [complete] does to providers, and it is the turn of that profile. *)
Definition complete_guard (h : list ev) (e : ev) : Prop :=
  match projT1 e with QComplete id req => turn false id req h | QOpenStream _ _ | QYield _ | QRecord _ _ _ _ => False | _ => True end.

Lemma complete_profiles_wp r ids before last l h : configured self -> NoDup (route_profiles r) -> gw_routes self !! route_id = Some r ->
  at_profile r before ids h ->
  mwp complete_guard (complete_profiles text_tokens image_tokens self request ids last) l h (fun response _ h' => accepted response h') (fun _ _ _ => True).
Proof.
  intros Hconf Hnd Hr. revert before last l h. induction ids as [|id ids IH]; intros before last l h Hat; simpl; [apply no_answer_wp|].
  apply mwp_bind, mwp_of_sum; [|done]. intros p Hp. unfold profile in Hp. destruct (gw_profiles self !! id) as [p'|] eqn:Hlook; [|done]. injection Hp as ->.
  destruct (configured_profile self id p Hconf Hlook) as [Hid _].
  apply mwp_bind, mwp_of_sum; [|done]. intros [] Hv.
  destruct (prepare_for p) as [x|prepared] eqn:Hprep.
  - destruct x as [e|[]|e|]; try done. apply (IH (before ++ [id])). apply (at_next _ _ _ _ _ h); [done|done|done|]. exists p. split; [done|by left].
  - apply mwp_bind, (mwp_quietly _ harmless); [apply provider_quiet|intros h' [q a]; by destruct q| |done]. intros [] new Hnew.
    apply (at_harmless _ _ _ new) in Hat; [|done]. set (h0 := new ++ h) in *.
    apply mwp_bind. eapply mwp_mono; [| |apply (completions_wp complete_guard p (px_request prepared) (max_attempts p) last l h0 h0)].
    + intros [last'|response] l' h'; simpl; [|intros Hacc; by apply mwp_ret]. intros Hph. destruct (fatal last') eqn:Hfat; [apply no_answer_wp|].
      destruct (Hph eq_refl) as [Ht Hf]. rewrite Hid in Ht, Hf. apply (IH (before ++ [id])). apply (at_next _ _ _ _ _ h0); [done|done|done|].
      exists p. split; [done|by right].
    + done.
    + by rewrite Hid.
    + rewrite Hid. intros h' k a Hk Hph. by apply (at_turn _ r before id ids p prepared k _ h0).
    + done.
    + done.
    + rewrite Nat.sub_diag, Hid. split; [|done]. apply (at_rest _ _ _ _ Hat). by left.
Qed.

(** ** Accounting *)
Definition unrecorded (e : ev) : Prop := match projT1 e with QRecord _ _ _ _ => False | _ => True end.

Lemma records_none h : (forall e, e ∈ h -> unrecorded e) -> records h = [].
Proof.
  intros Hh. induction h as [|e h IH]; [done|]. assert (IH' : records h = []) by (apply IH; intros e' He; apply Hh; by right).
  specialize (Hh e ltac:(by left)). destruct e as [q a]. by destruct q.
Qed.

Definition call_guard (I : list ev -> ev -> Prop) (h : list ev) (e : ev) : Prop := I h e \/ match projT1 e with QMonotonic | QRecord _ _ _ _ => True | _ => False end.

Lemma record_call_wp (I : list ev -> ev -> Prop) status started usage l h (R : unit -> locals -> list ev -> Prop) E :
  (forall finished, R tt l ((QRecord route_id status (finished - started) usage ~> tt) :: (QMonotonic ~> finished) :: h)) ->
  mwp (call_guard I) (record_call route_id status started usage) l h R E.
Proof.
  intros HR. unfold record_call. apply mwp_bind, mwp_ask. intros finished. split; [by right|]. apply mwp_ask. intros []. split; [by right|]. apply HR.
Qed.

Lemma guard_unrecorded started (h' : list ev) : (forall e, e ∈ h' -> e ∈ [((QMonotonic ~> started) : ev)] \/ exists h1, complete_guard h1 e) -> forall e, e ∈ h' -> unrecorded e.
Proof. intros Hh e He. destruct (Hh e He) as [->%list_elem_of_singleton|[h1 Hg]]; [done|]. destruct e as [q a]. by destruct q. Qed.

(** [complete] returns an accepted response, and accounts for the call once, as it ended. *)
Definition status_of {A : Type} (r : exc + A) : call_status := match r with inr _ => SUCCEEDED | inl (Exc CancelledError) => CANCELLED | inl _ => FAILED end.

Lemma complete_wp r l : configured self -> NoDup (route_profiles r) -> gw_routes self !! route_id = Some r ->
  mwp (call_guard complete_guard) (complete text_tokens image_tokens self route_id request) l []
    (fun response _ h => accepted response h /\ records h = [(route_id, SUCCEEDED)])
    (fun x _ h => records h = [(route_id, status_of (A := unit) (inl x))]).
Proof.
  intros Hconf Hnd Hr. unfold complete. apply mwp_bind, mwp_ask. intros started. split; [by right|].
  apply mwp_catch, mwp_bind.
  eapply mwp_mono; [| |apply (mwp_weaken complete_guard); [by left|];
    apply (mwp_events complete_guard _ l [QMonotonic ~> started] (fun response _ h' => accepted response h') (fun _ _ _ => True))].
  - intros response l' h' [Hacc Hnew]. apply mwp_bind, record_call_wp. intros finished. apply mwp_ret. split.
    + destruct Hacc as (id & req & p & d & c & Hin & Hrest). exists id, req, p, d, c. split; [by do 2 right|done].
    + simpl. f_equal. apply records_none. by apply (guard_unrecorded started).
  - intros x l' h' [_ Hnew]. apply mwp_bind, record_call_wp. intros finished. apply mwp_raise. simpl. f_equal. apply records_none. by apply (guard_unrecorded started).
  - unfold complete_. apply mwp_bind, mwp_of_sum; [|done]. intros r' Hr'. unfold route in Hr'. rewrite Hr in Hr'. injection Hr' as <-.
    apply (complete_profiles_wp r _ []); [done..|]. apply (at_harmless _ _ _ [_]); [by repeat constructor|apply at_start].
Qed.

(** ** Streams *)
Definition prelude (prepared : PreparedContext) : list ModelStreamEvent := if compacted prepared then [compaction_event prepared] else [].

(** What the consumer sees of a provider's stream *)
Definition delivered (prepared : PreparedContext) (items : list ModelStreamEvent) : list ModelStreamEvent :=
  match items with [] => [] | _ => prelude prepared ++ items end.

(** A stream of a profile whose turn it was *)
Definition opened (items : list ModelStreamEvent) (ending : option exc) (prepared : PreparedContext) (h : list ev) : Prop :=
  exists id p, gw_profiles self !! id = Some p /\ prepare_for p = inr prepared /\ ((QOpenStream id (px_request prepared) ~> inr (items, ending)) : ev) ∈ h.

Definition stream_guard (h : list ev) (e : ev) : Prop :=
  match projT1 e with
  | QOpenStream id req => turn true id req h /\ yields h = []
  | QYield x => exists items ending prepared, opened items ending prepared h /\ (yields h ++ [x]) `prefix_of` delivered prepared items
  | QComplete _ _ | QRecord _ _ _ _ => False
  | _ => True
  end.

Lemma opened_later items ending prepared h h' : h ⊆ h' -> opened items ending prepared h -> opened items ending prepared h'.
Proof. intros Hs (id & p & A & B & C). exists id, p. split_and!; [done|done|by apply Hs]. Qed.

Lemma yields_cons x a h : yields ((QYield x ~> a) :: h) = yields h ++ [x].
Proof. unfold yields. simpl. by rewrite reverse_cons. Qed.

Lemma deliver_wp I e l h (R : unit -> locals -> list ev -> Prop) (E : exc -> locals -> list ev -> Prop) :
  (forall a, I h (QYield e ~> a)) -> (forall l', lo_emitted l' = lo_emitted l -> R tt l' ((QYield e ~> None) :: h)) ->
  (forall l' x, E GeneratorExit l' ((QYield e ~> Some x) :: h)) -> mwp I (deliver e) l h R E.
Proof. intros HI HR HE [x|]; (split; [apply HI|]); unfold wp; simpl; [by apply HE|by apply HR]. Qed.

(** Where the relay of a stream stands *)
Definition relayed (prepared : PreparedContext) (seen : list ModelStreamEvent) (l : locals) (h : list ev) : Prop :=
  if lo_emitted l then seen <> [] /\ yields h = prelude prepared ++ seen else seen = [] /\ yields h = [].

(** A failure that may be retried: nothing was sent and nothing reached the consumer. *)
Definition silent (items : list ModelStreamEvent) (ending : option exc) (h : list ev) (x : exc) (l' : locals) (h' : list ev) : Prop :=
  forall e, x = ProviderError e -> lo_emitted l' = false -> me_retryable e = true -> items = [] /\ ending = Some x /\ h' = h.

Lemma relay_wp p c prepared items ending : forall seen ids l h,
  opened (seen ++ items) ending prepared h -> relayed prepared seen l h ->
  mwp stream_guard (relay p c prepared items ending ids) l h
    (fun _ _ h' => ending = None /\ yields h' = delivered prepared (seen ++ items)) (silent (seen ++ items) ending h).
Proof.
  induction items as [|x items IH]; intros seen ids l h Hop Hrel; simpl.
  - rewrite app_nil_r. apply mwp_of_sum.
    + intros [] Hend. destruct ending; [done|]. split; [done|]. unfold relayed in Hrel. destruct (lo_emitted l), Hrel as [Hs ->]; [by destruct seen|by subst].
    + intros y Hend. destruct ending as [z|]; [|done]. injection Hend as ->. intros e -> Hl _. unfold relayed in Hrel. rewrite Hl in Hrel. by destruct Hrel.
  - destruct (gateway_owned x); [by intros e [= <-] _ [=]|].
    destruct (_ && _ && _); [by intros e [= <-] _ [=]|].
    assert (Hsend : forall l1 h1, opened (seen ++ x :: items) ending prepared h1 -> yields h1 = prelude prepared ++ seen -> lo_emitted l1 = true ->
      mwp stream_guard (do _ <- deliver x in relay p c prepared items ending (add_call x ids)) l1 h1
        (fun _ _ h' => ending = None /\ yields h' = delivered prepared (seen ++ x :: items)) (silent (seen ++ x :: items) ending h)).
    { intros l1 h1 Hop1 Hy Hl1. apply mwp_bind, deliver_wp.
      - intros a. exists (seen ++ x :: items), ending, prepared. split; [done|]. rewrite Hy. exists items.
        unfold delivered. destruct seen; simpl; by rewrite <- !app_assoc.
      - intros l2 Hl2. eapply mwp_mono; [| |apply (IH (seen ++ [x]))].
        + intros [] l3 h3. by rewrite <- app_assoc.
        + intros y l3 h3 Hsil e He Hl3 Hr. destruct (Hsil e He Hl3 Hr) as [Hno _]. by destruct seen.
        + rewrite <- app_assoc. by eapply opened_later; [|done]; set_solver.
        + unfold relayed. rewrite Hl2, Hl1, yields_cons, Hy. split; [by destruct seen|by rewrite <- app_assoc].
      - intros l2 y e He. done. }
    apply mwp_bind, mwp_gets, mwp_bind. unfold relayed in Hrel. destruct (lo_emitted l) eqn:Hl; simpl.
    + apply mwp_ret, mwp_bind, mwp_update, Hsend; [done|by destruct Hrel|done].
    + destruct Hrel as [-> Hy]. destruct (compacted prepared) eqn:Hcomp.
      * apply deliver_wp.
        -- intros a. exists (x :: items), ending, prepared. split; [done|]. rewrite Hy. unfold delivered, prelude. rewrite Hcomp. by exists (x :: items).
        -- intros l2 _. apply mwp_bind, mwp_update, Hsend; [eapply opened_later; [|done]; set_solver| |done].
           unfold prelude. by rewrite yields_cons, Hy, Hcomp.
        -- intros l2 y e He. done.
      * apply mwp_ret, mwp_bind, mwp_update, Hsend; [done| |done]. unfold prelude. by rewrite Hy, Hcomp.
Qed.

(** The consumer saw all of one provider's stream. *)
Definition complete_stream (h : list ev) : Prop := exists items prepared, opened items None prepared h /\ yields h = delivered prepared items.

Lemma close_stream_wp l h (R : unit -> locals -> list ev -> Prop) :
  R tt l ((QCloseStream ~> None) :: h) -> mwp stream_guard close_stream l h R (fun _ _ _ => True).
Proof. intros HR. apply mwp_ask. intros [x|]; by split. Qed.

Lemma close_raise_wp l h : mwp stream_guard close_stream l h (fun _ _ _ => True) (fun _ _ _ => True).
Proof. apply mwp_ask. intros [x|]; by split. Qed.

Lemma attempt_wp p c prepared n k l h0 h : gw_profiles self !! mp_profile_id p = Some p -> prepare_for p = inr prepared ->
  turn true (mp_profile_id p) (px_request prepared) h -> yields h = [] -> phase (mp_profile_id p) h0 k h ->
  mwp stream_guard (attempt p c prepared n) l h
    (fun r _ h' => match r with
       | None => complete_stream h'
       | Some e => me_retryable e = true /\ yields h' = [] /\ phase (mp_profile_id p) h0 (S k) h' end) (fun _ _ _ => True).
Proof.
  intros Hp Hprep Hturn Hy Hph. unfold attempt. apply mwp_bind, mwp_update, mwp_bind, mwp_ask. intros a. split; [done|].
  destruct a as [x|[items ending]]; [done|]. simpl. set (h1 := (QOpenStream _ _ ~> inr (items, ending)) :: h).
  assert (Hop : opened items ending prepared h1) by (exists (mp_profile_id p), p; split_and!; [done|done|by left]).
  apply mwp_finally, mwp_bind, try_provider_wp.
  eapply mwp_mono; [| |apply mwp_grows, (relay_wp p c prepared items ending [] ∅ _ h1 Hop); by split].
  - intros [] l2 h2 [[-> Hdel] Hsub]. apply mwp_ret, close_stream_wp. exists items, prepared. split; [eapply opened_later; [|done]; set_solver|done].
  - intros x l2 h2 [Hsil _]. destruct x as [e|e|e|]; [|by apply close_raise_wp..].
    apply mwp_bind, mwp_gets. destruct (lo_emitted l2) eqn:Hem; simpl; [by apply mwp_raise, close_raise_wp|].
    destruct (me_retryable e) eqn:Hr; simpl; [|by apply mwp_raise, close_raise_wp].
    destruct (Hsil e eq_refl Hem Hr) as (Hitems & Hend & ->). simpl in Hitems. subst items ending.
    assert (Hfin : forall new, Forall harmless new -> yields (new ++ h1) = [] /\ phase (mp_profile_id p) h0 (S k) (new ++ h1)).
    { intros new Hnew. destruct (harmless_app new h1 Hnew) as (_ & -> & _). split; [done|]. apply phase_harmless; [done|]. apply phase_failed; [simpl; by rewrite Hr|done]. }
    case_bool_decide.
    + apply mwp_ret, close_stream_wp. split; [done|]. apply (Hfin [_]). by repeat constructor.
    + apply mwp_bind, mwp_ask. intros b. split; [done|]. destruct b as [x|]; [by apply close_raise_wp|]. apply mwp_ret, close_stream_wp. split; [done|].
      apply (Hfin [_; _]). by repeat constructor.
Qed.

Lemma attempts_wp p c prepared n last l h0 h r before ids : gw_profiles self !! mp_profile_id p = Some p -> prepare_for p = inr prepared ->
  NoDup (route_profiles r) -> gw_routes self !! route_id = Some r -> validate_request p request true self = inr tt ->
  at_profile r before (mp_profile_id p :: ids) h0 -> (n <= max_attempts p)%nat -> yields h = [] -> phase (mp_profile_id p) h0 (max_attempts p - n) h ->
  mwp stream_guard (attempts p c prepared n last) l h
    (fun r _ h' => match r with
       | inl last' => fatal last' = false -> yields h' = [] /\ phase (mp_profile_id p) h0 (max_attempts p) h'
       | inr _ => complete_stream h' end) (fun _ _ _ => True).
Proof.
  intros Hp Hprep Hnd Hr Hv Hat. revert last l h. induction n as [|n IH]; intros last l h Hn Hy Hph; simpl.
  - apply mwp_ret. intros _. by rewrite Nat.sub_0_r in Hph.
  - apply mwp_bind. eapply mwp_mono; [| |apply (attempt_wp p c prepared n (max_attempts p - S n) l h0 h); try done].
    + intros [e|] l' h'; simpl; [|intros Hc; by apply mwp_ret]. intros (He & Hy' & Hph').
      replace (S (max_attempts p - S n)) with (max_attempts p - n)%nat in Hph' by lia. case_bool_decide as Hz.
      * apply mwp_ret. intros _. split; [done|]. by rewrite Hz, Nat.sub_0_r in Hph'.
      * apply IH; [lia|done|done].
    + done.
    + apply (at_turn true r before _ ids p prepared (max_attempts p - S n) _ h0); try done. lia.
Qed.

Lemma stream_profiles_wp r ids before last l h : configured self -> NoDup (route_profiles r) -> gw_routes self !! route_id = Some r ->
  at_profile r before ids h -> yields h = [] ->
  mwp stream_guard (stream_profiles text_tokens image_tokens self request ids last) l h (fun _ _ h' => complete_stream h') (fun _ _ _ => True).
Proof.
  intros Hconf Hnd Hr. revert before last l h. induction ids as [|id ids IH]; intros before last l h Hat Hy; simpl; [apply no_answer_wp|].
  apply mwp_bind, mwp_of_sum; [|done]. intros p Hp. unfold profile in Hp. destruct (gw_profiles self !! id) as [p'|] eqn:Hlook; [|done]. injection Hp as ->.
  destruct (configured_profile self id p Hconf Hlook) as [Hid _].
  apply mwp_bind, mwp_of_sum; [|done]. intros [] Hv.
  destruct (prepare_for p) as [x|prepared] eqn:Hprep.
  - destruct x as [e|[]|e|]; try done. apply (IH (before ++ [id])); [|done]. apply (at_next _ _ _ _ _ h); [done|done|done|]. exists p. split; [done|by left].
  - apply mwp_bind, (mwp_quietly _ harmless); [apply provider_quiet|intros h' [q a]; by destruct q| |done]. intros [] new Hnew.
    apply (at_harmless _ _ _ new) in Hat; [|done]. destruct (harmless_app new h Hnew) as (_ & Hy0 & _). rewrite Hy in Hy0. set (h0 := new ++ h) in *.
    apply mwp_bind, mwp_of_sum; [|done]. intros dc Hdc. rewrite <- Hid in Hat, Hlook.
    apply mwp_bind. eapply mwp_mono; [| |apply (attempts_wp p dc.2 prepared (max_attempts p) last l h0 h0 r before ids); try done].
    + intros [last'|[]] l' h'; simpl; [|intros Hc; by apply mwp_ret]. intros Hph. destruct (fatal last') eqn:Hfat; [apply no_answer_wp|].
      destruct (Hph eq_refl) as [Hy' [Ht Hf]]. apply (IH (before ++ [id])); [|done]. rewrite Hid in *. apply (at_next _ _ _ _ _ h0); [done|done|done|].
      exists p. split; [done|by right].
    + done.
    + rewrite Nat.sub_diag. split; [|done]. apply (at_rest _ _ _ _ Hat). by left.
Qed.

Lemma stream_unrecorded started (h' : list ev) : (forall e, e ∈ h' -> e ∈ [((QMonotonic ~> started) : ev)] \/ exists h1, stream_guard h1 e) -> forall e, e ∈ h' -> unrecorded e.
Proof. intros Hh e He. destruct (Hh e He) as [->%list_elem_of_singleton|[h1 Hg]]; [done|]. destruct e as [q a]. by destruct q. Qed.

Lemma stream_wp r l : configured self -> NoDup (route_profiles r) -> gw_routes self !! route_id = Some r ->
  mwp (call_guard stream_guard) (stream text_tokens image_tokens self route_id request) l []
    (fun _ _ h => complete_stream h /\ records h = [(route_id, SUCCEEDED)])
    (fun _ _ h => exists status, status <> SUCCEEDED /\ records h = [(route_id, status)]).
Proof.
  intros Hconf Hnd Hr. unfold stream. apply mwp_bind, mwp_ask. intros started. split; [by right|].
  apply mwp_catch, mwp_bind.
  eapply mwp_mono; [| |apply (mwp_weaken stream_guard); [by left|];
    apply (mwp_events stream_guard _ l [QMonotonic ~> started] (fun _ _ h' => complete_stream h') (fun _ _ _ => True))].
  - intros [] l' h' [(items & prepared & Hop & Hy) Hnew]. apply mwp_bind, mwp_gets, record_call_wp. intros finished. split.
    + exists items, prepared. split; [eapply opened_later; [|done]; set_solver|done].
    + simpl. f_equal. apply records_none. by apply (stream_unrecorded started).
  - intros x l' h' [_ Hnew]. apply mwp_bind, mwp_gets, mwp_bind, mwp_gets, mwp_bind, record_call_wp. intros finished. apply mwp_raise.
    exists (stream_failure (lo_thrown l') x).2. split; [unfold stream_failure; simpl; by destruct (default x (lo_thrown l')) as [| |[]|]|].
    simpl. f_equal. apply records_none. by apply (stream_unrecorded started).
  - unfold stream_unobserved. apply mwp_bind, mwp_of_sum; [|done]. intros r' Hr'. unfold route in Hr'. rewrite Hr in Hr'. injection Hr' as <-.
    apply (stream_profiles_wp r _ []); try done. apply (at_harmless _ _ _ [_]); [by repeat constructor|apply at_start].
Qed.

(** ** The theorems *)

(** C20. A gateway that was constructed never misses what its routes name: every profile of a route exists under its own id, its provider is known, and its effective
    capabilities are defined; they exceed those of the provider only where the profile explicitly allows it. *)
Theorem configured_gateways_resolve registry profiles routes n k r id :
  new_gateway registry profiles routes n = Ok self -> gw_routes self !! k = Some r -> id ∈ route_profiles r ->
  exists p d c, gw_profiles self !! id = Some p /\ mp_profile_id p = id /\ descriptor (mp_provider_id p) (gw_registry self) = Some d /\
    effective_capabilities p (pd_capabilities d) = Ok c /\ (mp_allow_capability_overrides p = false -> capabilities_le c (pd_capabilities d)).
Proof.
  intros Hn Hr Hid. assert (Hconf : configured self) by (by exists registry, profiles, routes, n).
  destruct (configured_route self k r Hconf Hr) as [_ Hall]. destruct (Hall id Hid) as [p Hp].
  destruct (configured_profile self id p Hconf Hp) as (Hk & d & c & Hc & Hd). exists p, d, c. unfold capabilities_of in Hc. rewrite Hd in Hc.
  destruct (effective_capabilities p (pd_capabilities d)) as [c'|] eqn:He; simplify_eq/=. split_and!; try done. intros Ha. by apply (capabilities_are_inherited p).
Qed.

(** C17. Failover follows the route.  Whenever [complete] or [stream] asks a provider, its profile is on the route, may answer the request, and is sent the context that was
    prepared for it; it was asked fewer times than its retries allow and failed each time in a way that may be retried; every profile before it was too small for
    the request or failed as often as it may; and none after it was asked. *)
Theorem failover_follows_the_route r t l i : configured self -> gw_routes self !! route_id = Some r -> NoDup (route_profiles r) ->
  (forall o id req a, run_to (complete text_tokens image_tokens self route_id request l) t o -> t !! i = Some (QComplete id req ~> a) -> turn false id req (reverse (take i t))) /\
  (forall o id req a, run_to (stream text_tokens image_tokens self route_id request l) t o -> t !! i = Some (QOpenStream id req ~> a) -> turn true id req (reverse (take i t))).
Proof.
  intros Hconf Hr Hnd. split; intros o id req a Hrun Hi.
  - destruct (mwp_guards _ _ _ _ _ _ _ (complete_wp r l Hconf Hnd Hr) Hrun (take i t) _ (drop (S i) t) ltac:(by rewrite take_drop_middle)) as [Hg|Hg]; [exact Hg|done].
  - destruct (mwp_guards _ _ _ _ _ _ _ (stream_wp r l Hconf Hnd Hr) Hrun (take i t) _ (drop (S i) t) ltac:(by rewrite take_drop_middle)) as [Hg|Hg]; [apply Hg|done].
Qed.

(** C16. An answer is never spliced from two attempts.  Everything that reaches the consumer of [stream], at any time, is the beginning of one provider's stream, preceded by
    the gateway's own notice when the context was compacted; once something has reached the consumer no provider is asked again; and a stream that ends normally
    has delivered all of that provider's stream. *)
Theorem streams_are_never_spliced r (t : list ev) l o : configured self -> gw_routes self !! route_id = Some r -> NoDup (route_profiles r) ->
  run_to (stream text_tokens image_tokens self route_id request l) t o ->
  (forall i x a, t !! i = Some (QYield x ~> a) -> exists items ending prepared, opened items ending prepared (take i t) /\
     yields (reverse (take (S i) t)) `prefix_of` delivered prepared items) /\
  (forall i j x a id req b, (i < j)%nat -> t !! i = Some (QYield x ~> a) -> t !! j = Some (QOpenStream id req ~> b) -> False) /\
  (forall l', o = Done (l', inr tt) -> exists items prepared, opened items None prepared t /\ yields (reverse t) = delivered prepared items).
Proof.
  intros Hconf Hr Hnd Hrun. pose proof (stream_wp r l Hconf Hnd Hr) as Hwp.
  assert (Hguard : forall i e, t !! i = Some e -> call_guard stream_guard (reverse (take i t)) e).
  { intros i e Hi. apply (mwp_guards _ _ _ _ _ _ _ Hwp Hrun (take i t) _ (drop (S i) t)). by rewrite take_drop_middle. }
  assert (Hrev : forall items ending prepared h, opened items ending prepared (reverse h) -> opened items ending prepared h)
    by (intros items ending prepared h; apply opened_later; intros e; by rewrite elem_of_reverse).
  split_and!.
  - intros i x a Hi. destruct (Hguard i _ Hi) as [(items & ending & prepared & Hop & Hpre)|]; [|done]. exists items, ending, prepared. split; [by apply Hrev|].
    assert (Ht : take (S i) t = take i t ++ [(QYield x ~> a : ev)]) by (by apply take_S_r). by rewrite Ht, reverse_snoc, yields_cons.
  - intros i j x a id req b Hij Hi Hj. destruct (Hguard j _ Hj) as [[_ Hy]|]; [|done].
    assert (Hin : (QYield x ~> a) ∈ take j t) by (apply list_elem_of_lookup; exists i; by rewrite lookup_take_lt).
    unfold yields in Hy. apply (f_equal reverse) in Hy. rewrite reverse_involutive in Hy. apply elem_of_reverse in Hin.
    assert (Hx : x ∈ omap yielded (reverse (take j t))) by (apply list_elem_of_omap; by exists (QYield x ~> a)). rewrite Hy in Hx. by apply not_elem_of_nil in Hx.
  - intros l' ->. destruct (mwp_sound _ _ _ _ _ _ _ _ Hwp Hrun) as [_ [(items & prepared & Hop & Hy) _]]. exists items, prepared. split; [by apply Hrev|done].
Qed.

(** Every call is accounted exactly once and as it ended: a finished [complete] or [stream] has written one record, for its route, SUCCEEDED when it returned and
    not otherwise, CANCELLED when [complete] was cancelled.  What [complete] returns is the answer of a provider that respects its limit on parallel tool calls. *)
Theorem calls_are_accounted_once r (t : list ev) l l' : configured self -> gw_routes self !! route_id = Some r -> NoDup (route_profiles r) ->
  (forall result, run_to (complete text_tokens image_tokens self route_id request l) t (Done (l', result)) ->
     records t = [(route_id, status_of result)] /\ (forall response, result = inr response -> accepted response t)) /\
  (forall result, run_to (stream text_tokens image_tokens self route_id request l) t (Done (l', result)) ->
     exists status, records t = [(route_id, status)] /\ (status = SUCCEEDED <-> result = inr tt)).
Proof.
  intros Hconf Hr Hnd. assert (Hrev : forall h, records (reverse h) = reverse (records h)).
  { intros h. induction h as [|e h IH]; [done|]. unfold records in *. rewrite reverse_cons, omap_app, IH. simpl. destruct e as [[] a]; simpl; by rewrite ?app_nil_r, ?reverse_cons. }
  assert (Hone : forall h x, records (reverse h) = [x] -> records h = [x]) by (intros h x Hx; rewrite Hrev in Hx; by rewrite <- (reverse_involutive (records h)), Hx).
  split; intros result Hrun.
  - destruct (mwp_sound _ _ _ _ _ _ _ _ (complete_wp r l Hconf Hnd Hr) Hrun) as [_ Hres]. destruct result as [x|response].
    + split; [by apply Hone|done].
    + destruct Hres as [(id & req & p & d & c & Hin & Hrest) Hrec]. split; [by apply Hone|]. intros response' [= <-]. exists id, req, p, d, c. split; [by apply elem_of_reverse|done].
  - destruct (mwp_sound _ _ _ _ _ _ _ _ (stream_wp r l Hconf Hnd Hr) Hrun) as [_ Hres]. destruct result as [x|[]].
    + destruct Hres as (status & Hne & Hrec). exists status. split; [by apply Hone|]. split; [by intros ->|done].
    + exists SUCCEEDED. split; [apply Hone, Hres|by split].
Qed.
End Props.

(** ** The ledger *)
Definition balanced (row : LedgerRow) : Prop :=
  lr_calls row = lr_succeeded row + lr_failed row + lr_cancelled row /\ 0 <= lr_usage_unknown row <= lr_calls row /\ 0 <= lr_elapsed row.

Lemma record_balanced route_id status elapsed usage ledger : map_Forall (fun _ => balanced) ledger ->
  map_Forall (fun _ => balanced) (record route_id status elapsed usage ledger) /\ dom (record route_id status elapsed usage ledger) = dom ledger.
Proof.
  intros Hl. unfold record. destruct (ledger !! route_id) as [row|] eqn:Hr; [|done]. split.
  - apply map_Forall_insert_2; [|done]. specialize (Hl route_id row Hr). unfold balanced in *. destruct status, usage; simpl; lia.
  - apply dom_insert_lookup_L. by exists row.
Qed.

(** ** Examples *)
#[local] Instance demo_loads : JsonLoads := loads.

Definition demo_capabilities : ProviderCapabilities := MkCapabilities true true false false false false false None.
Definition demo_overrides : ModelCapabilities := MkOverrides None None None None None None None None.
Definition demo_registry : ProviderRegistry :=
  match register (MkProviderDescriptor "openai" INTERNAL_NONE None {["gpt"]} demo_capabilities) true empty_registry with Ok g => g | Raise _ => empty_registry end.
Definition demo_profiles : gmap string ModelProfile :=
  {[ "small" := MkProfile "small" "gpt" "mini" None None 1 ∅ demo_overrides false; "large" := MkProfile "large" "openai" "maxi" None None 0 ∅ demo_overrides false ]}.
Definition demo_route : ModelRoute := MkRoute "main" "small" ["large"].
Definition demo_gateway : ModelGateway := MkGateway demo_registry demo_profiles {[ "main" := demo_route ]} 8192.

Lemma demo_built : new_gateway demo_registry demo_profiles {[ "main" := demo_route ]} (AInt 8192) = Ok demo_gateway.
Proof. vm_compute. reflexivity. Qed.

Lemma demo_configured : configured demo_gateway.
Proof. exists demo_registry, demo_profiles, {[ "main" := demo_route ]}, (AInt 8192). apply demo_built. Qed.

Definition demo_request : ModelRequest :=
  MkModelRequest [MkMessage USER [TextContent "Hi"] [] None None] None [] CHOICE_AUTO None None 4096 [] None [].

(** The small model is overloaded; the large one answers, and the consumer leaves after the first event. *)
Definition demo_overload : exc := ProviderError (MkProviderError RATE_LIMIT (Some "openai") true).
Definition demo_text : ModelStreamEvent := MkStreamEvent TEXT_DELTA (Some "Hello") None None None None None None.
Definition demo_end : ModelStreamEvent := MkStreamEvent MESSAGE_END None None None None (Some STOP) None None.
Definition demo_answer (leave : bool) (q : question) : ans q :=
  match q with
  | QMonotonic => 0
  | QCached _ => true
  | QSecret _ => inr "s"
  | QFactory _ _ _ => None
  | QCache _ | QRecord _ _ _ _ => tt
  | QComplete id _ => if decide (id = "small") then inl demo_overload else inr (MkModelResponse "r1" "openai" "maxi" [TextContent "Hello"] [] STOP None)
  | QSleep _ | QCloseStream => None
  | QYield _ => if leave then Some GeneratorExit else None
  | QOpenStream id _ => if decide (id = "small") then inr ([], Some demo_overload) else inr ([demo_text; demo_end], None)
  end.

Definition demo_complete : list ev * outcome (locals * (exc + ModelResponse)) * unit :=
  interp (fun q (s : unit) => (demo_answer false q, s)) (complete byte_len 8192 demo_gateway "main" demo_request start) tt.
Definition demo_stream (leave : bool) : list ev * outcome (locals * (exc + unit)) * unit :=
  interp (fun q (s : unit) => (demo_answer leave q, s)) (stream byte_len 8192 demo_gateway "main" demo_request start) tt.

Lemma demo_complete_run : run_to (complete byte_len 8192 demo_gateway "main" demo_request start) demo_complete.1.1 demo_complete.1.2.
Proof. apply interp_run_to. Qed.
Lemma demo_stream_run leave : run_to (stream byte_len 8192 demo_gateway "main" demo_request start) (demo_stream leave).1.1 (demo_stream leave).1.2.
Proof. apply interp_run_to. Qed.

Lemma demo_unique : NoDup (route_profiles demo_route).
Proof. apply (bool_decide_unpack _). vm_compute. exact I. Qed.
Lemma demo_routed : gw_routes demo_gateway !! "main" = Some demo_route.
Proof. vm_compute. reflexivity. Qed.

Lemma configured_gateways_resolve_witness : exists p d c, gw_profiles demo_gateway !! "large" = Some p /\ mp_profile_id p = "large" /\
  effective_capabilities p (pd_capabilities d) = Ok c.
Proof.
  destruct (configured_gateways_resolve demo_gateway _ _ _ _ "main" demo_route "large" demo_built demo_routed ltac:(right; left)) as (p & d & c & A & B & _ & C & _).
  exact (ex_intro _ p (ex_intro _ d (ex_intro _ c (conj A (conj B C))))).
Defined.

Lemma demo_second : (demo_stream false).1.1 !! 8%nat = Some (QOpenStream "large" demo_request ~> inr ([demo_text; demo_end], None)).
Proof. vm_compute. reflexivity. Qed.

Lemma failover_follows_the_route_witness : turn byte_len 8192 demo_gateway "main" demo_request true "large" demo_request (reverse (take 8 (demo_stream false).1.1)).
Proof.
  exact (proj2 (failover_follows_the_route byte_len 8192 demo_gateway "main" demo_request demo_route _ start 8 demo_configured demo_routed demo_unique)
    _ _ _ _ (demo_stream_run false) demo_second).
Defined.

Lemma demo_stream_done : exists l, (demo_stream false).1.2 = Done (l, inr tt).
Proof. vm_compute. eexists. reflexivity. Qed.

Lemma streams_are_never_spliced_witness : exists items prepared,
  opened byte_len 8192 demo_gateway demo_request items None prepared (demo_stream false).1.1 /\ yields (reverse (demo_stream false).1.1) = delivered prepared items.
Proof.
  destruct demo_stream_done as [l Hl].
  exact (proj2 (proj2 (streams_are_never_spliced byte_len 8192 demo_gateway "main" demo_request demo_route _ start _ demo_configured demo_routed demo_unique (demo_stream_run false)))
    l Hl).
Defined.

Lemma demo_left : exists l, run_to (stream byte_len 8192 demo_gateway "main" demo_request start) (demo_stream true).1.1 (Done (l, inl GeneratorExit)).
Proof. eexists. apply (eq_rect _ (run_to _ _) (demo_stream_run true)). vm_compute. reflexivity. Qed.

Lemma calls_are_accounted_once_witness : exists status, records (demo_stream true).1.1 = [("main", status)] /\ (status = SUCCEEDED <-> (inl GeneratorExit : exc + unit) = inr tt).
Proof.
  destruct demo_left as [l Hl].
  exact (proj2 (calls_are_accounted_once byte_len 8192 demo_gateway "main" demo_request demo_route _ start l demo_configured demo_routed demo_unique) _ Hl).
Defined.
End GatewayProps.
