(* ===== verification/ReAct.v ===== *)
(** * The ReAct workflow ([agents/react.py])

    [ReActWorkflow.stream] as one task: it restores its state, asks the gateway for
    a model stream, passes on what the runner may see and ends with one decision.
    The stream of the gateway is the list of its events with its ending.  Messages
    are dumped and validated by pydantic, timestamps printed by the standard
    library; both are parameters. *)
From S2P Require Import Prelude PyText Json Scopes ExecModels Prog Tasks ModelTypes.
Open Scope Z_scope.
Open Scope list_scope.

Class MessageCodec : Type := {
  message_dump : Models.ModelMessage -> json;
  message_load : json -> option Models.ModelMessage;
  isoformat : Z -> string;
}.

Module ReAct.
Import Models Tasks.

Definition STATE_SCHEMA : string := "suiteharness.react.v2".

Record ReActWorkflow : Type := MkReAct {
  ra_route_id : string;
  ra_model : option string;
  ra_temperature : option pyfloat;
  ra_max_output_tokens : Z;
  ra_tool_choice : ToolChoice;
}.

(** [__post_init__]; the choice is one of the three by its type. *)
Definition react_workflow (w : ReActWorkflow) : res ReActWorkflow := require negb (is_blank (ra_route_id w)) else ValueError ;; Ok w.

(** ** Errors, events and questions *)
Inductive exc : Type :=
| ReActStateError
| Exc (e : exn)
| GatewayError  (* whatever the gateway raises *)
| GeneratorExit.

Inductive event_kind : Type := DELTA | STATUS | USAGE_EVENT | COMPACT_STARTED | COMPACT_COMPLETED.
Record WorkflowEvent : Type := MkWorkflowEvent { we_kind : event_kind; we_text : string; we_data : list (string * json) }.

Inductive question : Type :=
| QStream (route_id : string) (request : ModelRequest)
| QEmit (event : WorkflowEvent)
| QDecide (decision : WorkflowDecision)
| QCloseSource.

Definition ans (q : question) : Type :=
  match q with
  | QStream _ _ => exc + (list ModelStreamEvent * option exc)
  | QEmit _ | QDecide _ | QCloseSource => option exc
  end%type.

Definition M (A : Type) : Type := task ans unit exc A.

Definition open_source route r : M (list ModelStreamEvent * option exc) := fun l => Call (QStream route r) (fun a => Ret (l, a)).
Definition emit e : M unit := fun l => Call (QEmit e) (fun a => Ret (l, raised a)).
Definition decide_ d : M unit := fun l => Call (QDecide d) (fun a => Ret (l, raised a)).
Definition close_source : M unit := fun l => Call QCloseSource (fun a => Ret (l, raised a)).
Definition state_error {A : Type} : M A := raise ReActStateError.
Definition of_res {A : Type} (r : res A) : M A := match r with Ok a => ret a | Raise e => raise (Exc e) end.
(** [if c: raise ReActStateError(...)] *)
Definition reject_if (c : bool) : M unit := if c then state_error else ret tt.

Section Workflow.
Context `{MessageCodec} (self : ReActWorkflow).

(** ** The saved state *)
Definition json_opt (v : option string) : json := match v with None => JNull | Some s => JStr s end.

(** [_request_identity], for a run id *)
Definition identity_with (run_id : string) (request : RunRequest) : json :=
  let scope := rq_scope request in
  JObj [("run_id", JStr run_id); ("tenant_id", JStr (rs_tenant_id scope)); ("product_id", JStr (rs_product_id scope));
        ("agent_id", json_opt (path_agent_id (rs_path scope))); ("session_id", json_opt (path_session_id (rs_path scope)));
        ("principal_id", JStr (rs_principal_id scope)); ("session_owner_id", JStr (effective_session_owner_id scope));
        ("channel_id", JStr (rs_channel_id scope))].
Definition request_identity (request : RunRequest) : json := identity_with (rq_run_id request) request.

(** [_dump_state] *)
Definition dump_state (request : RunRequest) (messages : list ModelMessage) (consumed : Z) (seen : gset string) : json :=
  JObj [("schema", JStr STATE_SCHEMA); ("route_id", JStr (ra_route_id self)); ("request_identity", request_identity request);
        ("messages", JList (message_dump <$> messages)); ("consumed_observations", JInt consumed);
        ("seen_call_ids", JList (JStr <$> merge_sort String.le (elements seen)))].

(** Dicts are equal whatever the order of their keys. *)
Definition same_dict (v w : json) : bool := bool_decide (sort_keys v = sort_keys w).

(** [_initial_messages] *)
Definition model_role (r : PromptRole) : ModelRole :=
  match r with ROLE_SYSTEM => SYSTEM | ROLE_USER => USER | ROLE_ASSISTANT => ASSISTANT | ROLE_TOOL => USER end.

Definition initial_message (m : PromptMessage) : res ModelMessage :=
  text_message (model_role (pm_role m)) (match pm_role m with ROLE_TOOL => "[tool] " +:+ pm_content m | _ => pm_content m end) None None.

Definition initial_messages (request : RunRequest) (prompt : option PromptEnvelope) : res (list ModelMessage) :=
  match prompt with
  | Some p =>
      if decide (pe_messages p = []) then
        let! content := match rq_input request with JStr s => Ok s | v => canonical_json v end in
        let! m := text_message USER content None None in Ok [m]
      else map_res initial_message (pe_messages p)
  | None =>
      let! content := match rq_input request with JStr s => Ok s | v => canonical_json v end in
      let! m := text_message USER content None None in Ok [m]
  end.

Definition json_string (v : json) : option string := match v with JStr s => Some s | _ => None end.

(** The identity to compare with: a resumed run may carry on the state of its source. *)
Definition expected_identity (request : RunRequest) (saved : json) : json :=
  match rq_resume request, saved with
  | Some resume, JObj kvs =>
      if decide (obj_get "run_id" kvs = Some (JStr (re_source_run_id resume))) then identity_with (re_source_run_id resume) request
      else request_identity request
  | _, _ => request_identity request
  end.

(** [_restore_state] *)
Definition restore_state (request : RunRequest) (frame : WorkflowFrame) (prompt : option PromptEnvelope) :
    exc + (list ModelMessage * nat * gset string) :=
  match wf_workflow_state frame with
  | JNull =>
      match initial_messages request prompt with
      | Raise e => inl (Exc e)
      | Ok ms => inr (ms, 0%nat, list_to_set (ob_call_id <$> wf_observations frame))
      end
  | JObj state =>
      if negb (bool_decide (obj_get "schema" state = Some (JStr STATE_SCHEMA))) then inl ReActStateError
      else if negb (bool_decide (obj_get "route_id" state = Some (JStr (ra_route_id self)))) then inl ReActStateError
      else
        let saved := default JNull (obj_get "request_identity" state) in
        if negb (same_dict saved (expected_identity request saved)) then inl ReActStateError
        else
          match obj_get "messages" state, obj_get "consumed_observations" state, obj_get "seen_call_ids" state with
          | Some (JList raw_messages), Some (JInt consumed), Some (JList raw_seen) =>
              if (consumed <? 0) || (Z.of_nat (length (wf_observations frame)) <? consumed) then inl ReActStateError
              else
                match mapM json_string raw_seen, mapM message_load raw_messages with
                | Some seen, Some messages => inr (messages, Z.to_nat consumed, list_to_set seen)
                | _, _ => inl ReActStateError
                end
          | _, _, _ => inl ReActStateError
          end
  | _ => inl ReActStateError
  end.

(** ** Observations *)
Definition failure_dump (f : RunFailure) : json :=
  JObj [("code", JStr (failure_code_value (rf_code f))); ("message", JStr (rf_message f)); ("retryable", JBool (rf_retryable f));
        ("iteration", match rf_iteration f with None => JNull | Some n => JInt n end);
        ("call_id", json_opt (rf_call_id f)); ("tool_name", json_opt (rf_tool_name f))].

(** [_observation_message] *)
Definition observation_message (o : ToolObservation) : res ModelMessage :=
  let! payload := canonical_json (JObj ([("status", JStr (call_status_value (ob_status o))); ("observed_at", JStr (isoformat (ob_finished_at o)))]
    ++ (if decide (ob_result o = JNull) then [] else [("result", ob_result o)])
    ++ match ob_failure o with None => [] | Some f => [("failure", failure_dump f)] end)) in
  text_message TOOL payload (Some (ob_call_id o)) (Some (ob_tool_name o)).

(** ** The model's answer *)
Record Answer : Type := MkAnswer {
  an_text : list string;
  an_calls : list ModelToolCall;
  an_finish : option FinishReason;
  an_size : Z;
  an_messages : list ModelMessage;
}.

Definition text_limit : Z := 1024 * 1024.

Definition usage_dump (u : ModelUsage) : list (string * json) :=
  [("input_tokens", JInt (us_input u)); ("output_tokens", JInt (us_output u)); ("cached_input_tokens", JInt (us_cached_input u));
   ("reasoning_tokens", JInt (us_reasoning u))].

(** The integers of [context_info] that may be shown *)
Definition public_info (info : list (string * json)) : list (string * json) :=
  List.filter (fun kv => bool_decide (kv.1 ∈ ["estimated_input_tokens"; "removed_rounds"; "truncated_tools"]) && match kv.2 with JInt _ => true | _ => false end) info.

(** One event *)
Definition take_event (a : Answer) (e : ModelStreamEvent) : M Answer :=
  do _ <- reject_if (negb (is_none (an_finish a))) in
  do a <- match se_type e with
    | TEXT_DELTA =>
        let text := default "" (se_text_delta e) in
        let size := an_size a + byte_len text in
        do _ <- reject_if (text_limit <? size) in
        do _ <- emit (MkWorkflowEvent DELTA text []) in
        ret (MkAnswer (an_text a ++ [text]) (an_calls a) (an_finish a) size (an_messages a))
    | TOOL_CALL_DELTA =>
        match se_tool_call e with
        | None => raise (Exc OtherException)  (* AssertionError *)
        | Some call =>
            do _ <- reject_if (existsb (fun c => bool_decide (tc_call_id c = tc_call_id call)) (an_calls a)) in
            do _ <- reject_if (32 <=? Z.of_nat (length (an_calls a))) in
            do payload <- of_res (canonical_json (JObj (tc_arguments call))) in
            do _ <- reject_if (256 * 1024 <? py_len payload) in
            ret (MkAnswer (an_text a) (an_calls a ++ [call]) (an_finish a) (an_size a) (an_messages a))
        end
    | MESSAGE_END => ret (MkAnswer (an_text a) (an_calls a) (se_finish_reason e) (an_size a) (an_messages a))
    | CONTEXT_COMPACTED =>
        match se_prepared_messages e with
        | None => state_error
        | Some messages =>
            do _ <- emit (MkWorkflowEvent COMPACT_COMPLETED "" (public_info (default [] (se_context_info e)))) in
            ret (MkAnswer (an_text a) (an_calls a) (an_finish a) (an_size a) messages)
        end
    | _ => ret a
    end in
  match se_usage e with
  | None => ret a
  | Some u => do _ <- emit (MkWorkflowEvent USAGE_EVENT "" (usage_dump u)) in ret a
  end.

(** [async with aclosing(source)] *)
Definition read_answer (messages : list ModelMessage) (source : list ModelStreamEvent * option exc) : M Answer :=
  mfinally
    (do a <- foreach take_event (MkAnswer [] [] None 0 messages) source.1 in
     do _ <- of_sum (raised source.2) in
     ret a)
    close_source.

Definition finished (a : Answer) : bool :=
  match an_finish a with
  | Some STOP => bool_decide (an_calls a = [])
  | Some TOOL_CALLS => negb (bool_decide (an_calls a = []))
  | _ => false
  end.

(** ** Decisions *)

(** [_tool_intents] *)
Definition intent_step (available : list string) (seen : gset string) (st : gset string * list ToolIntent) (call : ModelToolCall) :
    exc + gset string * list ToolIntent :=
  let '(response_ids, intents) := st in
  if negb (bool_decide (tc_name call ∈ available)) then inl ReActStateError
  else if bool_decide (tc_call_id call ∈ response_ids ∪ seen) then inl ReActStateError
  else
    match tool_intent (MkToolIntent (tc_call_id call) (tc_name call) (tc_arguments call) None) with
    | Raise e => inl (Exc e)
    | Ok i => inr ({[ tc_call_id call ]} ∪ response_ids, intents ++ [i])
    end.

Definition tool_intents (calls : list ModelToolCall) (available : list string) (seen : gset string) : exc + list ToolIntent :=
  try! st := efold (intent_step available seen) (∅, []) calls in inr st.2.

Definition joined (a : Answer) : string := String.concat "" (an_text a).

Definition assistant_message (a : Answer) : res ModelMessage :=
  model_message (MkMessage ASSISTANT (if decide (an_text a = []) then [] else [TextContent (joined a)]) (an_calls a) None None).

(** After the stream *)
Definition decision_of (request : RunRequest) (frame : WorkflowFrame) (seen : gset string) (a : Answer) : M WorkflowDecision :=
  do _ <- reject_if (negb (finished a)) in
  do assistant <- of_res (assistant_message a) in
  let messages := an_messages a ++ [assistant] in
  let consumed := Z.of_nat (length (wf_observations frame)) in
  if decide (an_calls a = []) then
    do _ <- reject_if (is_blank (joined a)) in
    of_res (decision_final (JStr (joined a)) (dump_state request messages consumed seen))
  else
    do intents <- of_sum (tool_intents (an_calls a) (ts_name <$> wf_available_tools frame) seen) in
    of_res (decision_tools intents (dump_state request messages consumed (seen ∪ list_to_set (in_call_id <$> intents)))).

(** ** [stream] *)
Definition model_tools (frame : WorkflowFrame) : res (list ModelTool) :=
  map_res (fun t => model_tool (MkTool (ts_name t) (ts_description t) (ts_input_schema t))) (wf_available_tools frame).

(** [metadata.update({...})] *)
Definition metadata_of (request : RunRequest) (frame : WorkflowFrame) (prompt : option PromptEnvelope) : list (string * json) :=
  foldl (fun d kv => dset kv.1 kv.2 d) (match prompt with Some p => pe_metadata p | None => [] end)
    [("run_id", JStr (rq_run_id request)); ("iteration", JInt (wf_iteration frame)); ("tenant_id", JStr (rs_tenant_id (rq_scope request)));
     ("product_id", JStr (rs_product_id (rq_scope request)))].

(** Everything but the last [yield] *)
Definition turn (request : RunRequest) (frame : WorkflowFrame) (prompt : option PromptEnvelope) : M WorkflowDecision :=
  do st <- of_sum (restore_state request frame prompt) in
  let '(messages, consumed, seen) := st in
  let fresh := drop consumed (wf_observations frame) in
  do results <- of_res (map_res observation_message fresh) in
  let messages := messages ++ results in
  let seen := seen ∪ list_to_set (ob_call_id <$> fresh) in
  do tools <- of_res (model_tools frame) in
  do model_request <- of_res (model_request (MkModelRequest messages (ra_model self) tools (if decide (tools = []) then CHOICE_NONE else ra_tool_choice self)
    (ra_temperature self) None (ra_max_output_tokens self) [] None (metadata_of request frame prompt))) in
  do source <- open_source (ra_route_id self) model_request in
  do a <- read_answer messages source in
  decision_of request frame seen a.

Definition stream (request : RunRequest) (frame : WorkflowFrame) (prompt : option PromptEnvelope) : M unit :=
  do decision <- turn request frame prompt in decide_ decision.
End Workflow.

(** [collect_decision] ([execution/events.py]): [next] collects what [stream] yields. *)
Fixpoint collect_from (decision : option WorkflowDecision) (items : list (WorkflowEvent + WorkflowDecision)) (ending : option exc) :
    exc + WorkflowDecision :=
  match items with
  | [] => match ending, decision with
          | Some x, _ => inl x
          | None, Some d => inr d
          | None, None => inl (Exc ValueError)
          end
  | item :: items =>
      match decision, item with
      | Some _, _ => inl (Exc ValueError)
      | None, inr d => collect_from (Some d) items ending
      | None, inl _ => collect_from None items ending
      end
  end.
Definition collect_decision := collect_from None.

(** ** [ProductRoutedReActWorkflow]: the route is looked up per product. *)
Record ProductRoutedReActWorkflow : Type := MkRouted {
  pr_route_for : string -> exc + string;
  pr_model : option string;
  pr_temperature : option pyfloat;
  pr_max_output_tokens : Z;
  pr_tool_choice : ToolChoice;
}.

Definition routed_workflow (self : ProductRoutedReActWorkflow) (route_id : string) : ReActWorkflow :=
  MkReAct route_id (pr_model self) (pr_temperature self) (pr_max_output_tokens self) (pr_tool_choice self).

Definition routed_stream `{MessageCodec} (self : ProductRoutedReActWorkflow) (request : RunRequest) (frame : WorkflowFrame)
    (prompt : option PromptEnvelope) : M unit :=
  do route_id <- of_sum (pr_route_for self (rs_product_id (rq_scope request))) in
  do _ <- reject_if (is_blank route_id) in
  do workflow <- of_res (react_workflow (routed_workflow self route_id)) in
  stream workflow request frame prompt.

(** * Theorems *)
Section Props.
Context `{MessageCodec}.
Abbreviation ev := (event ans).
Implicit Types (h : list ev) (a : Answer) (d : WorkflowDecision).

(** ** The saved state *)
Lemma saved_ids (seen : gset string) : list_to_set (merge_sort String.le (elements seen)) = seen.
Proof. apply set_eq. intros x. by rewrite elem_of_list_to_set, merge_sort_Permutation, elem_of_elements. Qed.

Lemma json_strings (l : list string) : mapM json_string (JStr <$> l) = Some l.
Proof. apply mapM_Some_2. induction l; by constructor. Qed.

Lemma json_opt_inj v w : json_opt v = json_opt w -> v = w.
Proof. destruct v, w; simpl; congruence. Qed.

Lemma sort_json_opt v : sort_keys (json_opt v) = json_opt v.
Proof. by destruct v. Qed.

Lemma sorted_identity run_id request : sort_keys (identity_with run_id request) =
  JObj [("agent_id", json_opt (path_agent_id (rs_path (rq_scope request)))); ("channel_id", JStr (rs_channel_id (rq_scope request)));
    ("principal_id", JStr (rs_principal_id (rq_scope request))); ("product_id", JStr (rs_product_id (rq_scope request)));
    ("run_id", JStr run_id); ("session_id", json_opt (path_session_id (rs_path (rq_scope request))));
    ("session_owner_id", JStr (effective_session_owner_id (rq_scope request))); ("tenant_id", JStr (rs_tenant_id (rq_scope request)))].
Proof. unfold identity_with. simpl. rewrite !sort_json_opt. reflexivity. Qed.

(** Two requests of one holder: the same tenant, product, agent, session, principal, owner and channel *)
Record same_holder (r1 r2 : RunRequest) : Prop := {
  sh_tenant : rs_tenant_id (rq_scope r1) = rs_tenant_id (rq_scope r2);
  sh_product : rs_product_id (rq_scope r1) = rs_product_id (rq_scope r2);
  sh_agent : path_agent_id (rs_path (rq_scope r1)) = path_agent_id (rs_path (rq_scope r2));
  sh_session : path_session_id (rs_path (rq_scope r1)) = path_session_id (rs_path (rq_scope r2));
  sh_principal : rs_principal_id (rq_scope r1) = rs_principal_id (rq_scope r2);
  sh_owner : effective_session_owner_id (rq_scope r1) = effective_session_owner_id (rq_scope r2);
  sh_channel : rs_channel_id (rq_scope r1) = rs_channel_id (rq_scope r2);
}.

(** [later] may continue the state of [earlier]: the same run, or the run it resumes *)
Definition may_continue (earlier later : RunRequest) : Prop :=
  same_holder earlier later /\ (rq_run_id later = rq_run_id earlier \/ exists r, rq_resume later = Some r /\ re_source_run_id r = rq_run_id earlier).

Lemma same_identity run1 run2 r1 r2 : same_dict (identity_with run1 r1) (identity_with run2 r2) = true <-> run1 = run2 /\ same_holder r1 r2.
Proof.
  unfold same_dict. rewrite bool_decide_eq_true, !sorted_identity. split.
  - intros Heq. injection Heq. intros. split; [done|]. constructor; (assumption || (apply json_opt_inj; assumption)).
  - intros [-> []]. congruence.
Qed.

Lemma continued_identity earlier later :
  same_dict (request_identity earlier) (expected_identity later (request_identity earlier)) = true <-> may_continue earlier later.
Proof.
  unfold expected_identity, may_continue, request_identity. destruct (rq_resume later) as [r|]; simpl.
  - case_decide as Hr; rewrite same_identity.
    + injection Hr as Hr. split; [intros [_ Hs]; split; [done|right; eauto]|intros [Hs _]; auto].
    + split; [intros [-> Hs]; split; [done|by left]|]. intros [Hs [->|(r' & [= <-] & Hr')]]; [done|]. by rewrite Hr' in Hr.
  - rewrite same_identity. split; [intros [-> Hs]; split; [done|by left]|]. intros [Hs [->|(r' & Hr' & _)]]; done.
Qed.

Lemma restore_dump (self self' : ReActWorkflow) earlier later ms consumed seen frame prompt :
  wf_workflow_state frame = dump_state self' earlier ms consumed seen ->
  ra_route_id self' = ra_route_id self -> may_continue earlier later -> 0 <= consumed <= Z.of_nat (length (wf_observations frame)) ->
  restore_state self later frame prompt =
    match mapM message_load (message_dump <$> ms) with Some l => inr (l, Z.to_nat consumed, seen) | None => inl ReActStateError end.
Proof.
  intros Hst Hroute Hmay Hc. unfold restore_state. rewrite Hst. simpl.
  rewrite Hroute, bool_decide_true by done. simpl. apply continued_identity in Hmay. rewrite Hmay. simpl.
  rewrite (proj2 (Z.ltb_ge _ _)), (proj2 (Z.ltb_ge _ _)) by lia. simpl. rewrite json_strings, saved_ids. by destruct (mapM _ _).
Qed.

Lemma restore_dump_inv (self self' : ReActWorkflow) earlier later ms consumed seen frame prompt :
  wf_workflow_state frame = dump_state self' earlier ms consumed seen ->
  restore_state self later frame prompt = inl ReActStateError \/
  (ra_route_id self' = ra_route_id self /\ may_continue earlier later /\ 0 <= consumed <= Z.of_nat (length (wf_observations frame))).
Proof.
  intros Hst. unfold restore_state. rewrite Hst. simpl.
  case_bool_decide as Hroute; simpl; [|by left]. injection Hroute as Hroute.
  destruct (same_dict _ _) eqn:Hid; simpl; [|by left]. apply continued_identity in Hid.
  destruct ((consumed <? 0) || _) eqn:Hc; [by left|]. right. apply orb_false_iff in Hc as [?%Z.ltb_ge ?%Z.ltb_ge]. auto.
Qed.

(** ** One turn *)
Lemma text_app_assoc s t u : (s +:+ t) +:+ u = s +:+ (t +:+ u).
Proof. induction s as [|c s IH]; [done|]. change (String c ((s +:+ t) +:+ u) = String c (s +:+ t +:+ u)). by rewrite IH. Qed.

Lemma concat_snoc l t : String.concat "" (l ++ [t]) = String.concat "" l +:+ t.
Proof.
  induction l as [|x l IH]; [done|]. destruct l as [|y l]; [done|].
  change (x +:+ String.concat "" ((y :: l) ++ [t]) = (x +:+ String.concat "" (y :: l)) +:+ t). by rewrite IH, text_app_assoc.
Qed.

Lemma byte_len_app s t : byte_len (s +:+ t) = byte_len s + byte_len t.
Proof. unfold byte_len. induction s as [|c s IH]; [done|]. change (String c s +:+ t) with (String c (s +:+ t)). simpl in *. lia. Qed.

(** The texts the runner was given, oldest first *)
Fixpoint said (h : list ev) : list string :=
  match h with
  | [] => []
  | existT q _ :: h =>
      match q with
      | QEmit e => match we_kind e with DELTA => said h ++ [we_text e] | _ => said h end
      | _ => said h
      end
  end.

Definition undecided (h : list ev) : Prop := forall d o, (QDecide d ~> o : ev) ∉ h.

Definition known_calls (self : ReActWorkflow) (request : RunRequest) (frame : WorkflowFrame) (prompt : option PromptEnvelope) : gset string :=
  match restore_state self request frame prompt with
  | inr (_, consumed, seen) => seen ∪ list_to_set (ob_call_id <$> drop consumed (wf_observations frame))
  | inl _ => ∅
  end.

Definition saves (self : ReActWorkflow) request frame (seen : gset string) (state : json) : Prop :=
  exists ms, state = dump_state self request ms (Z.of_nat (length (wf_observations frame))) seen.

(** What a decision may be after the history [h] *)
Record final_ok (self : ReActWorkflow) request frame prompt (h : list ev) d : Prop := {
  fo_intents : wd_intents d = [];
  fo_text : wd_output d = JStr (String.concat "" (said h)) /\ is_blank (String.concat "" (said h)) = false;
  fo_size : byte_len (String.concat "" (said h)) <= text_limit;
  fo_state : saves self request frame (known_calls self request frame prompt) (wd_workflow_state d);
}.

Record tools_ok (self : ReActWorkflow) request frame prompt d : Prop := {
  to_count : wd_intents d <> [] /\ Z.of_nat (length (wd_intents d)) <= 32;
  to_available : Forall (fun i => in_tool_name i ∈ ts_name <$> wf_available_tools frame) (wd_intents d);
  to_unapproved : Forall (fun i => in_approval_token i = None) (wd_intents d);
  to_distinct : NoDup (in_call_id <$> wd_intents d);
  to_fresh : Forall (fun i => in_call_id i ∉ known_calls self request frame prompt) (wd_intents d);
  to_state : saves self request frame (known_calls self request frame prompt ∪ list_to_set (in_call_id <$> wd_intents d)) (wd_workflow_state d);
}.

Definition decision_ok self request frame prompt h d : Prop :=
  (exists st, restore_state self request frame prompt = inr st) /\
  match wd_kind d with FINAL => final_ok self request frame prompt h d | TOOLS => tools_ok self request frame prompt d end.

Definition request_ok (self : ReActWorkflow) (frame : WorkflowFrame) (route : string) (r : ModelRequest) : Prop :=
  route = ra_route_id self /\ (mt_name <$> mr_tools r) = (ts_name <$> wf_available_tools frame) /\ (mr_tools r = [] -> mr_tool_choice r = CHOICE_NONE).

Definition turn_guard self request frame prompt (h : list ev) (e : ev) : Prop :=
  undecided h /\
  match projT1 e with
  | QStream route r => h = [] /\ request_ok self frame route r
  | QDecide d => decision_ok self request frame prompt h d
  | _ => True
  end.

(** *** The calls *)
Definition intent_of (c : ModelToolCall) : ToolIntent := MkToolIntent (tc_call_id c) (tc_name c) (tc_arguments c) None.

Lemma tool_intents_spec calls available seen intents : tool_intents calls available seen = inr intents ->
  intents = intent_of <$> calls /\ Forall (fun c => tc_name c ∈ available /\ tc_call_id c ∉ seen) calls /\ NoDup (tc_call_id <$> calls).
Proof.
  unfold tool_intents. intros ([ids its] & Hf & [= <-])%ebind_inr.
  apply (efold_ind (fun dn st => st.1 = list_to_set (tc_call_id <$> dn) /\ st.2 = intent_of <$> dn /\
    Forall (fun c => tc_name c ∈ available /\ tc_call_id c ∉ seen) dn /\ NoDup (tc_call_id <$> dn))) in Hf as (_ & ? & ? & ?); [done| |].
  - repeat constructor.
  - intros dn c rest [ids1 its1] [ids2 its2] _ (H1 & H2 & Hall & Hnd). simpl in H1, H2. subst ids1 its1. unfold intent_step.
    case_bool_decide as Hname; simpl; [|done]. case_bool_decide as Hid; simpl; [done|]. destruct (tool_intent _) as [i|x] eqn:Hi; [|done]. intros [= <- <-].
    assert (i = intent_of c) as ->.
    { unfold tool_intent in Hi. simpl in Hi. py_simpl. done. }
    rewrite !fmap_app. simpl. apply not_elem_of_union in Hid as [Hnew Hseen]. rewrite elem_of_list_to_set in Hnew. split_and!; [set_solver|done|..].
    + apply Forall_app. by repeat constructor.
    + apply NoDup_app. split_and!; [done| |apply NoDup_singleton]. intros x Hx ->%list_elem_of_singleton. done.
Qed.

(** *** The answer *)
Record reading (a : Answer) (h : list ev) : Prop := {
  rd_said : said h = an_text a;
  rd_size : an_size a = byte_len (joined a) /\ an_size a <= text_limit;
  rd_calls : NoDup (tc_call_id <$> an_calls a) /\ Z.of_nat (length (an_calls a)) <= 32;
  rd_undecided : undecided h;
}.

Lemma undecided_cons h e : undecided h -> (forall d o, e <> (QDecide d ~> o)) -> undecided (e :: h).
Proof. intros Hu He d o [Heq|Hin]%elem_of_cons; [by apply (He d o)|by apply (Hu d o)]. Qed.

Section Turn.
Variables (self : ReActWorkflow) (request : RunRequest) (frame : WorkflowFrame) (prompt : option PromptEnvelope).

(** Tasks that decide nothing, whether they return or raise *)
Definition deciding_nothing {A : Type} (m : M A) h (R : A -> list ev -> Prop) : Prop :=
  forall l, mwp (turn_guard self request frame prompt) m l h (fun v _ h' => R v h') (fun _ _ h' => undecided h').

Lemma turn_bind {A B : Type} (m : M A) (k : A -> M B) h R :
  deciding_nothing m h (fun v h' => deciding_nothing (k v) h' R) -> deciding_nothing (mbind m k) h R.
Proof. intros Hm l. apply mwp_bind. eapply mwp_mono; [| |apply Hm]; [|done]. intros v l' h' Hk. apply Hk. Qed.

Lemma turn_ret {A : Type} (x : A) h (R : A -> list ev -> Prop) : R x h -> deciding_nothing (ret x) h R.
Proof. by intros HR l. Qed.

Lemma turn_reject c h (R : unit -> list ev -> Prop) : undecided h -> (c = false -> R tt h) -> deciding_nothing (reject_if c) h R.
Proof. intros Hu HR l. unfold reject_if. destruct c; [done|by apply HR]. Qed.

Lemma turn_of_res {A : Type} (r : res A) h (R : A -> list ev -> Prop) : undecided h -> (forall x, r = Ok x -> R x h) -> deciding_nothing (of_res r) h R.
Proof. intros Hu HR l. unfold of_res. destruct r as [x|e]; [by apply mwp_ret, HR|done]. Qed.

Lemma turn_of_sum {A : Type} (r : exc + A) h (R : A -> list ev -> Prop) : undecided h -> (forall x, r = inr x -> R x h) -> deciding_nothing (of_sum r) h R.
Proof. intros Hu HR l. by apply mwp_of_sum; intros x Hx; [apply HR|]. Qed.

Lemma turn_emit e h (R : unit -> list ev -> Prop) :
  undecided h -> (undecided ((QEmit e ~> None) :: h) -> R tt ((QEmit e ~> None) :: h)) -> deciding_nothing (emit e) h R.
Proof.
  intros Hu HR l. assert (forall o, undecided ((QEmit e ~> o) :: h)) as Hun by (intros o; by apply undecided_cons).
  apply mwp_ask. intros [x|]; (split; [done|]); [apply Hun|apply HR, Hun].
Qed.

Lemma turn_close h (R : unit -> list ev -> Prop) :
  undecided h -> (undecided ((QCloseSource ~> None) :: h) -> R tt ((QCloseSource ~> None) :: h)) -> deciding_nothing close_source h R.
Proof.
  intros Hu HR l. assert (forall o, undecided ((QCloseSource ~> o) :: h)) as Hun by (intros o; by apply undecided_cons).
  apply mwp_ask. intros [x|]; (split; [done|]); [apply Hun|apply HR, Hun].
Qed.

Lemma turn_event a e h : reading a h -> deciding_nothing (take_event a e) h reading.
Proof.
  intros [Hsaid [Hsz Hlim] [Hnd Hlen] Hu]. unfold take_event. apply turn_bind, turn_reject; [done|]. intros _. apply turn_bind.
  assert (forall a' h', reading a' h' -> deciding_nothing (match se_usage e with None => ret a' | Some u =>
    do _ <- emit (MkWorkflowEvent USAGE_EVENT "" (usage_dump u)) in ret a' end) h' reading) as Hus.
  { intros a' h' Hr. destruct (se_usage e) as [u|]; [|by apply turn_ret]. apply turn_bind, turn_emit; [apply Hr|]. intros Hu'. apply turn_ret. by destruct Hr. }
  destruct (se_type e); try by apply turn_ret, Hus.
  - apply turn_bind, turn_reject; [done|]. intros Hle%Z.ltb_ge. apply turn_bind, turn_emit; [done|]. intros Hu'. apply turn_ret, Hus.
    split; simpl; [by rewrite Hsaid| |done|done]. unfold joined. simpl. rewrite concat_snoc, byte_len_app. unfold joined in Hsz. lia.
  - destruct (se_tool_call e) as [c|]; [|by intros l]. apply turn_bind, turn_reject; [done|]. intros Hnew. apply turn_bind, turn_reject; [done|].
    intros Hmax%Z.leb_gt. apply turn_bind, turn_of_res; [done|]. intros payload _. apply turn_bind, turn_reject; [done|]. intros _. apply turn_ret, Hus.
    split; simpl; [done|done| |done]. rewrite fmap_app, length_app. simpl. split; [|lia]. apply NoDup_app. split_and!; [done| |apply NoDup_singleton].
    intros x (c' & -> & Hc')%list_elem_of_fmap Heq%list_elem_of_singleton.
    enough (existsb (fun c0 => bool_decide (tc_call_id c0 = tc_call_id c)) (an_calls a) = true) by congruence.
    apply existsb_exists. exists c'. split; [by apply list_elem_of_In|]. by apply bool_decide_eq_true.
  - destruct (se_prepared_messages e) as [ms|]; [|by intros l]. apply turn_bind, turn_emit; [done|]. intros Hu'. by apply turn_ret, Hus.
Qed.

Lemma turn_answer messages source h : said h = [] -> undecided h -> deciding_nothing (read_answer messages source) h reading.
Proof.
  intros Hsaid Hu l. unfold read_answer. apply mwp_finally, mwp_bind.
  apply (mwp_foreach _ (fun _ a _ h' => reading a h')).
  - split; [done| |by repeat constructor|done]. done.
  - intros dn x rest a l1 h1 _ Hr. eapply mwp_mono; [| |by apply turn_event]; [done|]. intros e l' h' Hu'. by apply (turn_close h' (fun _ => undecided)).
  - intros a l1 h1 Hr. apply mwp_bind, mwp_of_sum.
    + intros [] _. apply mwp_ret, (turn_close h1 (fun _ => reading a)); [apply Hr|]. intros Hu'. by destruct Hr.
    + intros x _. apply (turn_close h1 (fun _ => undecided)); [apply Hr|done].
Qed.

Lemma workflow_decision_ok d d' : workflow_decision d = Ok d' -> d' = d /\ (wd_kind d = TOOLS -> wd_intents d <> []).
Proof.
  unfold workflow_decision. intros Hd. py_simpl. split; [done|]. intros Hk Hnil. by rewrite Hk, Hnil in *.
Qed.

Lemma turn_decision a h st : restore_state self request frame prompt = inr st -> reading a h ->
  deciding_nothing (decision_of self request frame (known_calls self request frame prompt) a) h (fun d h' => h' = h /\ decision_ok self request frame prompt h d).
Proof.
  intros Hst [Hsaid [Hsz Hlim] [Hnd Hlen] Hu]. unfold decision_of. apply turn_bind, turn_reject; [done|]. intros _.
  apply turn_bind, turn_of_res; [done|]. intros m _. case_decide as Hcalls.
  - apply turn_bind, turn_reject; [done|]. intros Hblank. apply turn_of_res; [done|]. intros d Hd. split; [done|].
    apply workflow_decision_ok in Hd as [-> _]. unfold joined in *. rewrite <- Hsaid in *. split; [by eexists|]. split; simpl; [done|done|lia|by eexists].
  - apply turn_bind, turn_of_sum; [done|]. intros intents Hi. apply turn_of_res; [done|]. intros d Hd. split; [done|].
    apply workflow_decision_ok in Hd as [-> Hne]. apply tool_intents_spec in Hi as (-> & Hall & _).
    assert (in_call_id <$> (intent_of <$> an_calls a) = tc_call_id <$> an_calls a) as Hids by by rewrite <- list_fmap_compose.
    split; [by eexists|]. split; simpl; [split; [by apply Hne|by rewrite length_fmap]|..|by rewrite Hids|  |by eexists]; apply Forall_fmap.
    + eapply Forall_impl; [exact Hall|]. by intros c [Hc _].
    + by apply Forall_true.
    + eapply Forall_impl; [exact Hall|]. by intros c [_ Hc].
Qed.

Lemma model_tools_names tools : model_tools frame = Ok tools -> mt_name <$> tools = ts_name <$> wf_available_tools frame.
Proof.
  unfold model_tools. intros Ht%map_res_Ok. induction Ht as [|t m ts ms Hm _ IH]; [done|]. simpl. unfold model_tool in Hm. py_simpl. by f_equal.
Qed.

Lemma model_request_same r r' : model_request r = Ok r' -> r' = r.
Proof. unfold model_request. intros Hr. py_simpl. done. Qed.

Lemma turn_open route r h (R : list ModelStreamEvent * option exc -> list ev -> Prop) : h = [] -> request_ok self frame route r ->
  (forall s, R s [QStream route r ~> inr s]) -> deciding_nothing (open_source route r) h R.
Proof.
  intros -> Hr HR l. assert (forall o, undecided [(QStream route r ~> o : ev)]) as Hun by (intros o d o' Hin%list_elem_of_singleton; done).
  apply mwp_ask. intros [x|s]; (split; [split; [|done]|]); [intros d o; apply not_elem_of_nil|apply Hun|intros d o; apply not_elem_of_nil|apply HR].
Qed.

Lemma turn_sound : deciding_nothing (turn self request frame prompt) [] (fun d h => undecided h /\ decision_ok self request frame prompt h d).
Proof.
  assert (undecided []) as Hu by (intros d o; apply not_elem_of_nil).
  unfold turn. apply turn_bind, turn_of_sum; [done|]. intros [[messages consumed] seen] Hst.
  apply turn_bind, turn_of_res; [done|]. intros results _. apply turn_bind, turn_of_res; [done|]. intros tools Ht%model_tools_names.
  apply turn_bind, turn_of_res; [done|]. intros r ->%model_request_same. apply turn_bind, turn_open; [done|split; [done|split; [done|]]|].
  { simpl. intros ->. done. }
  intros s. apply turn_bind. intros l. eapply mwp_mono; [| |apply turn_answer]; [|done|done|].
  - intros a l' h' Hr l2. pose proof (turn_decision a h' _ Hst Hr l2) as Hd. unfold known_calls in Hd at 1. rewrite Hst in Hd.
    eapply mwp_mono; [| |exact Hd]; [|done]. intros d l3 h3 [-> Hok]. split; [apply Hr|done].
  - intros d o Hin%list_elem_of_singleton. done.
Qed.

Lemma react_stream_wp : mwp (turn_guard self request frame prompt) (stream self request frame prompt) tt []
  (fun _ _ h => exists d h', h = (QDecide d ~> None) :: h') (fun _ _ _ => True).
Proof.
  unfold stream. apply mwp_bind. eapply mwp_mono; [| |apply turn_sound]; [|done].
  intros d l h [Hu Hd]. apply mwp_ask. intros [x|]; (split; [done|]); [done|by eexists _, _].
Qed.
End Turn.

(** C21. A turn of the workflow asks one model stream on its own route, offering exactly the tools of
    its frame, and ends with at most one decision, which is the last thing it does.
    A final decision is the text that was streamed to the runner, not blank and at most 1 MiB;
    a tool decision names available tools under call ids that are distinct, new to the
    run and unapproved, at most 32 of them.  A turn that ends normally has decided. *)
Theorem decisions_are_sound self request frame prompt t o : run_to (stream self request frame prompt tt) t o ->
  (forall t1 d u t2, t = t1 ++ (QDecide d ~> u) :: t2 -> t2 = [] /\ decision_ok self request frame prompt (reverse t1) d) /\
  (forall t1 route r u t2, t = t1 ++ (QStream route r ~> u) :: t2 -> t1 = [] /\ request_ok self frame route r) /\
  (forall l, o = Done (l, inr tt) -> exists t1 d, t = t1 ++ [QDecide d ~> None]).
Proof.
  intros Ht. pose proof (mwp_guards _ _ _ _ _ _ _ (react_stream_wp self request frame prompt) Ht) as Hg. split_and!.
  - intros t1 d u t2 ->. destruct (Hg _ _ _ eq_refl) as [Hu Hd]. split; [|exact Hd]. destruct t2 as [|e t2]; [done|]. exfalso.
    destruct (Hg (t1 ++ [QDecide d ~> u]) e t2) as [Hu' _]; [by rewrite <- app_assoc|]. apply (Hu' d u). rewrite reverse_snoc. by left.
  - intros t1 route r u t2 ->. destruct (Hg _ _ _ eq_refl) as [_ [Hz Hr]]. split; [|exact Hr]. apply (f_equal reverse) in Hz. by rewrite reverse_involutive in Hz.
  - intros l ->. destruct (mwp_sound _ _ _ _ _ _ _ _ (react_stream_wp self request frame prompt) Ht) as (_ & d & h & Hh).
    exists (reverse h), d. apply (f_equal reverse) in Hh. by rewrite reverse_involutive, reverse_cons in Hh.
Qed.

(** [turns state ids]: the turns of a run, each starting from the state the previous decision saved
    and whatever requests, prompts and observations, called the tools with [ids] and left [state]. *)
Inductive turns : json -> list string -> Prop :=
| no_turns : turns JNull []
| another_turn self request frame prompt t o d u state ids :
    turns state ids -> wf_workflow_state frame = state -> run_to (stream self request frame prompt tt) t o -> (QDecide d ~> u : ev) ∈ t ->
    turns (wd_workflow_state d) (ids ++ (in_call_id <$> wd_intents d)).

Lemma turn_extends self request frame prompt t o d u : run_to (stream self request frame prompt tt) t o -> (QDecide d ~> u : ev) ∈ t ->
  (exists st, restore_state self request frame prompt = inr st) /\
  NoDup (in_call_id <$> wd_intents d) /\ Forall (fun i => in_call_id i ∉ known_calls self request frame prompt) (wd_intents d) /\
  saves self request frame (known_calls self request frame prompt ∪ list_to_set (in_call_id <$> wd_intents d)) (wd_workflow_state d).
Proof.
  intros Ht (t1 & t2 & ->)%list_elem_of_split.
  destruct (mwp_guards _ _ _ _ _ _ _ (react_stream_wp self request frame prompt) Ht _ _ _ eq_refl) as [_ [Hst Hd]]. split; [done|].
  simpl in Hd. destruct (wd_kind d); [|by destruct Hd]. destruct Hd as [Hi _ _ [ms Hms]].
  rewrite Hi. split; [apply NoDup_nil_2|]. split; [done|]. exists ms. simpl. by rewrite (right_id_L ∅ (∪)).
Qed.

Lemma restored_calls self self' earlier request ms consumed seen frame prompt st :
  wf_workflow_state frame = dump_state self' earlier ms consumed seen -> restore_state self request frame prompt = inr st ->
  seen ⊆ known_calls self request frame prompt.
Proof.
  intros Hst Hr. destruct (restore_dump_inv self _ _ request _ _ _ frame prompt Hst) as [?|(Hroute & Hmay & Hc)]; [congruence|].
  unfold known_calls. rewrite (restore_dump _ _ _ _ _ _ _ _ _ Hst Hroute Hmay Hc) in Hr |- *. destruct (mapM _ _); [set_solver|done].
Qed.

Lemma turns_remember state ids : turns state ids ->
  NoDup ids /\ ((state = JNull /\ ids = []) \/ exists self request ms consumed seen, state = dump_state self request ms consumed seen /\ list_to_set ids ⊆ seen).
Proof.
  induction 1 as [|self request frame prompt t o d u state ids _ [Hnd IH] Hst Ht Hd]; [split; [apply NoDup_nil_2|by left]|].
  pose proof (turn_extends _ _ _ _ _ _ _ _ Ht Hd) as ([st Hr] & Hnew & Hfresh & ms & Hms).
  assert (list_to_set ids ⊆ known_calls self request frame prompt) as Hknown.
  { destruct IH as [[-> ->]|(self' & request' & ms' & c' & seen' & -> & Hsub)]; [set_solver|].
    etrans; [exact Hsub|]. by eapply restored_calls. }
  split.
  - apply NoDup_app. split_and!; [done| |done]. intros x Hx (i & -> & Hi)%list_elem_of_fmap. rewrite Forall_forall in Hfresh. apply (Hfresh i Hi). set_solver.
  - right. exists self, request, ms, (Z.of_nat (length (wf_observations frame))). eexists. split; [exact Hms|]. rewrite list_to_set_app_L. set_solver.
Qed.

(** C22. Within a run no call id is used twice: however the workflow's turns follow one another -
    the state of one decision handed to the next turn, with any requests, observations,
    prompts and answers of the model, also across a resume - the calls they ask for have pairwise distinct ids. *)
Theorem call_ids_are_never_reused state ids : turns state ids -> NoDup ids.
Proof. intros Ht. by apply turns_remember in Ht as [? _]. Qed.

(** C23. A state that a turn saved is restored exactly - messages, position and call ids - by a
    workflow of the same route for the same holder and run, or a run that resumes it,
    while the position lies within the observations; everybody else is refused. *)
Theorem saved_states_are_fenced (self self' : ReActWorkflow) earlier later ms consumed seen frame prompt :
  wf_workflow_state frame = dump_state self' earlier ms consumed seen ->
  Forall (fun m => message_load (message_dump m) = Some m) ms ->
  (ra_route_id self' = ra_route_id self /\ may_continue earlier later /\ 0 <= consumed <= Z.of_nat (length (wf_observations frame)) /\
   restore_state self later frame prompt = inr (ms, Z.to_nat consumed, seen)) \/
  (~ (ra_route_id self' = ra_route_id self /\ may_continue earlier later /\ 0 <= consumed <= Z.of_nat (length (wf_observations frame))) /\
   restore_state self later frame prompt = inl ReActStateError).
Proof.
  intros Hst Hms. assert (mapM message_load (message_dump <$> ms) = Some ms) as Hload.
  { apply mapM_Some_2. clear Hst. induction Hms; simpl; by constructor. }
  destruct (restore_dump_inv self _ _ later _ _ _ frame prompt Hst) as [He|(Hroute & Hmay & Hc)].
  - right. split; [|done]. intros (Hroute & Hmay & Hc). rewrite (restore_dump _ _ _ _ _ _ _ _ _ Hst Hroute Hmay Hc), Hload in He. done.
  - left. do 3 (split; [done|]). by rewrite (restore_dump _ _ _ _ _ _ _ _ _ Hst Hroute Hmay Hc), Hload.
Qed.
End Props.

(** ** Two turns: the model calls a tool and then answers. *)
#[local] Instance demo_codec : MessageCodec :=
  Build_MessageCodec (fun m => match mm_content m with [TextContent t] => JStr t | _ => JStr "" end)
    (fun v => match v with JStr t => Some (MkMessage USER [TextContent t] [] None None) | _ => None end) (fun _ => "then").
Definition demo_react : ReActWorkflow := MkReAct "main" None None 4096 CHOICE_AUTO.
Definition demo_request : RunRequest :=
  MkRunRequest "r1" (MkRequestScope (MkScopePath AGENT (Some "acme") (Some "crm") (Some "a1") (Some "s1")) "ann" "web" ∅ "run" "" "" None)
    "g1" (JStr "Count.") (MkConversationContext [] false "" "" false) true (MkExecutionBudget 4 5 1 44900000) None.
Definition demo_tool : ToolSpec := MkToolSpec "search" "Search" {[READ]} ∅ [].
Definition demo_seen : ToolObservation := MkToolObservation "c1" "search" None None CALL_SUCCEEDED (JInt 3) None 0 1.
Definition demo_first : WorkflowFrame := MkWorkflowFrame 1 [] [demo_tool] JNull 0 10.
Definition demo_event type text call finish : ModelStreamEvent := MkStreamEvent type text None call None finish None None.
Definition demo_answer (items : list ModelStreamEvent) (q : question) : ans q :=
  match q with QStream _ _ => inr (items, None) | QEmit _ | QDecide _ | QCloseSource => None end.
Definition demo_turn (frame : WorkflowFrame) (items : list ModelStreamEvent) :=
  interp (fun q (s : unit) => (demo_answer items q, s)) (stream demo_react demo_request frame None tt) tt.
Definition demo_calls := demo_turn demo_first
  [demo_event TOOL_CALL_DELTA None (Some (MkToolCall "c1" "search" [])) None; demo_event MESSAGE_END None None (Some TOOL_CALLS)].
Definition demo_state : json :=
  dump_state demo_react demo_request [MkMessage USER [TextContent "Count."] [] None None; MkMessage ASSISTANT [] [MkToolCall "c1" "search" []] None None] 0 {["c1"]}.
Definition demo_next : WorkflowFrame := MkWorkflowFrame 2 [demo_seen] [demo_tool] demo_state 1 20.
Definition demo_final := demo_turn demo_next [demo_event TEXT_DELTA (Some "Th") None None; demo_event TEXT_DELTA (Some "ree") None None; demo_event MESSAGE_END None None (Some STOP)].

Definition demo_intent : ToolIntent := MkToolIntent "c1" "search" [] None.
Definition demo_called : WorkflowDecision := MkWorkflowDecision TOOLS [demo_intent] JNull demo_state.
Definition demo_three : WorkflowDecision := MkWorkflowDecision FINAL [] (JStr "Three")
  (dump_state demo_react demo_request [MkMessage USER [TextContent "Count."] [] None None; MkMessage ASSISTANT [] [] None None;
     MkMessage TOOL [TextContent (canonical_text (JObj [("status", JStr "succeeded"); ("observed_at", JStr "then"); ("result", JInt 3)]))] [] (Some "c1") (Some "search");
     MkMessage ASSISTANT [TextContent "Three"] [] None None] 1 {["c1"]}).

Lemma demo_calls_run : run_to (stream demo_react demo_request demo_first None tt) demo_calls.1.1 demo_calls.1.2.
Proof. apply interp_run_to. Qed.
Lemma demo_final_run : run_to (stream demo_react demo_request demo_next None tt) demo_final.1.1 demo_final.1.2.
Proof. apply interp_run_to. Qed.
Lemma demo_calls_decided : demo_calls.1.1 = take 2 demo_calls.1.1 ++ [QDecide demo_called ~> None].
Proof. vm_compute. reflexivity. Qed.
Lemma demo_final_decided : demo_final.1.1 = take 4 demo_final.1.1 ++ [QDecide demo_three ~> None].
Proof. vm_compute. reflexivity. Qed.

Lemma decisions_are_sound_witness : decision_ok demo_react demo_request demo_next None (reverse (take 4 demo_final.1.1)) demo_three.
Proof.
  exact (proj2 (proj1 (decisions_are_sound demo_react demo_request demo_next None demo_final.1.1 demo_final.1.2 demo_final_run)
    (take 4 demo_final.1.1) demo_three None [] demo_final_decided)).
Defined.

Lemma demo_turns : turns (wd_workflow_state demo_three) (([] ++ ["c1"]) ++ []).
Proof.
  apply (another_turn demo_react demo_request demo_next None demo_final.1.1 demo_final.1.2 demo_three None demo_state); [|done|apply demo_final_run|].
  - apply (another_turn demo_react demo_request demo_first None demo_calls.1.1 demo_calls.1.2 demo_called None JNull); [constructor|done|apply demo_calls_run|].
    rewrite demo_calls_decided. apply elem_of_app. right. by left.
  - rewrite demo_final_decided. apply elem_of_app. right. by left.
Qed.

Lemma call_ids_are_never_reused_witness : NoDup (([] ++ ["c1"]) ++ []).
Proof. exact (call_ids_are_never_reused (wd_workflow_state demo_three) _ demo_turns). Defined.

Definition demo_saved : WorkflowFrame := MkWorkflowFrame 2 [demo_seen] [demo_tool]
  (dump_state demo_react demo_request [MkMessage USER [TextContent "Count."] [] None None] 1 {["c1"]}) 1 20.

Lemma demo_messages_load : Forall (fun m => message_load (message_dump m) = Some m) [MkMessage USER [TextContent "Count."] [] None None].
Proof. by repeat constructor. Qed.

Lemma demo_restored : restore_state demo_react demo_request demo_saved None = inr ([MkMessage USER [TextContent "Count."] [] None None], 1%nat, {["c1"]}).
Proof. vm_compute. reflexivity. Qed.

Lemma saved_states_are_fenced_witness : may_continue demo_request demo_request.
Proof.
  destruct (saved_states_are_fenced demo_react demo_react demo_request demo_request _ 1 {["c1"]} demo_saved None eq_refl demo_messages_load)
    as [(_ & Hmay & _)|[_ He]]; [exact Hmay|].
  exfalso. pose proof (eq_trans (eq_sym demo_restored) He) as Hx. discriminate Hx.
Defined.
End ReAct.
