(* ===== verification/AgentStrategies.v ===== *)
(** * The default prompt and reflection strategies ([execution/protocols.py], [agents/prompts.py], [agents/reflection.py])

    [Module Prompts] renders the conversation of a request for a model,
    [Module Reflection] has one model review a final answer.  The gateway is asked;
    [json.loads] is the parameter of ModelContext. *)
From S2P Require Import Prelude PyText Json Scopes ExecModels Prog Tasks ModelTypes ModelContext.
Open Scope Z_scope.
Open Scope list_scope.

Module Prompts.

(** [PromptStrategy._text] *)
Definition text_of (value : json) : string := match value with JStr s => s | v => canonical_text v end.

(** [f"participant-{n}"] *)
Definition participant (n : nat) : string := "participant-" +:+ String.string_of_list_ascii (print_int (Z.of_nat n)).

(** [participant_aliases.setdefault(principal, ...)] *)
Definition set_alias (principal : string) (aliases : list (string * string)) : string * list (string * string) :=
  match dget principal aliases with
  | Some alias => (alias, aliases)
  | None => let alias := participant (S (length aliases)) in (alias, dset principal alias aliases)
  end.

(** [_history_message] *)
Definition newline : string := String (Ascii.ascii_of_nat 10) EmptyString.
Definition history_message (m : ConversationMessage) (participant_alias : option string) : PromptMessage :=
  let content := text_of (cm_content m) in
  MkPromptMessage (if cm_from_user m then ROLE_USER else ROLE_ASSISTANT)
    (match participant_alias with None => content | Some alias => "[authenticated " +:+ alias +:+ "]" +:+ newline +:+ content end).

(** One round of the loop; a user message without a principal fails its assertion. *)
Definition history_step (requester : string) (st : list (string * string) * list PromptMessage) (m : ConversationMessage) :
    exn + list (string * string) * list PromptMessage :=
  let '(aliases, history) := st in
  if cm_from_user m && negb (bool_decide (cm_principal_id m = Some requester)) then
    match cm_principal_id m with
    | None => inl OtherException
    | Some principal => let '(alias, aliases) := set_alias principal aliases in inr (aliases, history ++ [history_message m (Some alias)])
    end
  else inr (aliases, history ++ [history_message m None]).

Definition memory_messages (c : ConversationContext) : list PromptMessage :=
  if decide (cc_working_summary c = "" /\ cc_long_term_context c = "") then []
  else [MkPromptMessage ROLE_USER (Context.dumps_text (JObj [("context_type", JStr "untrusted_conversation_memory");
    ("working_summary", JStr (cc_working_summary c)); ("long_term_context", JStr (cc_long_term_context c)); ("degraded", JBool (cc_memory_degraded c))]))].

(** [DefaultPromptStrategy.__post_init__] *)
Definition prompt_strategy (system_prompt : string) : res string := require negb (is_blank system_prompt) else ValueError ;; Ok system_prompt.

(** [PromptStrategy.render] *)
Definition render (system_prompt : string) (request : RunRequest) : exn + PromptEnvelope :=
  let c := rq_conversation request in
  let scope := rq_scope request in
  try! st := efold (history_step (rs_principal_id scope)) ([], []) (cc_messages c) in
  match prompt_envelope (MkPromptEnvelope
    ([MkPromptMessage ROLE_SYSTEM system_prompt] ++ st.2 ++ memory_messages c ++ [MkPromptMessage ROLE_USER (text_of (rq_input request))])
    [("run_id", JStr (rq_run_id request)); ("tenant_id", JStr (rs_tenant_id scope)); ("product_id", JStr (rs_product_id scope));
     ("conversation_truncated", JBool (cc_truncated c)); ("memory_degraded", JBool (cc_memory_degraded c))]) with
  | Ok e => inr e
  | Raise e => inl e
  end.

(** ** Participants under other names *)
Definition renamed_message (f : string -> string) (m : ConversationMessage) : ConversationMessage :=
  MkConversationMessage (cm_from_user m) (cm_content m) (f <$> cm_principal_id m) (cm_occurred_at m).
Definition renamed (f : string -> string) (r : RunRequest) : RunRequest :=
  let c := rq_conversation r in
  MkRunRequest (rq_run_id r) (rq_scope r) (rq_grant_id r) (rq_input r)
    (MkConversationContext (renamed_message f <$> cc_messages c) (cc_truncated c) (cc_working_summary c) (cc_long_term_context c) (cc_memory_degraded c))
    (rq_read_only r) (rq_budget r) (rq_resume r).

Section Renaming.
Context (f : string -> string) `{!Inj eq eq f}.

Abbreviation rename_aliases := (fmap (prod_map f id) : list (string * string) -> list (string * string)).

Lemma renamed_get principal (aliases : list (string * string)) : dget (f principal) (rename_aliases aliases) = dget principal aliases.
Proof. induction aliases as [|[k v] l IH]; csimpl; [done|]. rewrite IH. do 2 case_decide; naive_solver. Qed.

Lemma renamed_set principal alias (aliases : list (string * string)) :
  dset (f principal) alias (rename_aliases aliases) = rename_aliases (dset principal alias aliases).
Proof. induction aliases as [|[k v] l IH]; csimpl; [done|]. do 2 case_decide; csimpl; [naive_solver..|]. by rewrite IH. Qed.

Lemma renamed_step requester aliases history m : f requester = requester ->
  history_step requester (rename_aliases aliases, history) (renamed_message f m) =
    match history_step requester (aliases, history) m with inl e => inl e | inr (a, h) => inr (rename_aliases a, h) end.
Proof.
  intros Hreq. unfold history_step. simpl.
  assert (bool_decide (f <$> cm_principal_id m = Some requester) = bool_decide (cm_principal_id m = Some requester)) as ->.
  { apply bool_decide_ext. destruct (cm_principal_id m) as [p|]; simpl; [|done]. split; [|congruence]. intros [= Hp]. f_equal. apply (inj f). congruence. }
  destruct (cm_from_user m && _); [|done]. destruct (cm_principal_id m) as [p|]; [|done]. simpl. unfold set_alias. rewrite renamed_get.
  destruct (dget p aliases); [done|]. by rewrite length_fmap, renamed_set.
Qed.

Lemma renamed_history requester ms aliases history : f requester = requester ->
  efold (history_step requester) (rename_aliases aliases, history) (renamed_message f <$> ms) =
    match efold (history_step requester) (aliases, history) ms with inl e => inl e | inr (a, h) => inr (rename_aliases a, h) end.
Proof.
  intros Hreq. revert aliases history. induction ms as [|m ms IH]; intros aliases history; [done|].
  cbn [fmap list_fmap efold]. rewrite renamed_step by done. destruct (history_step _ _ m) as [e|[a h]]; simpl; [done|]. apply IH.
Qed.

(** Prompts do not say who the other participants are: rendering a request and rendering it with
    every principal of its conversation renamed - one-to-one, the requester kept - give the same prompt. *)
Theorem prompts_hide_participants system_prompt request : f (rs_principal_id (rq_scope request)) = rs_principal_id (rq_scope request) ->
  render system_prompt (renamed f request) = render system_prompt request.
Proof.
  intros Hreq. unfold render. simpl. pose proof (renamed_history _ (cc_messages (rq_conversation request)) [] [] Hreq) as Hh. simpl in Hh. rewrite Hh.
  change (memory_messages (MkConversationContext _ _ _ _ _)) with (memory_messages (rq_conversation request)).
  destruct (efold _ _ (cc_messages (rq_conversation request))) as [e|[a h]]; (*H2*)reflexivity.
Qed.
End Renaming.

(** ** What a prompt says *)
Lemma participant_inj : Inj eq eq participant.
Proof.
  intros n m Heq. unfold participant in Heq. apply (f_equal chars) in Heq. rewrite !chars_app in Heq. apply app_inv_head in Heq.
  rewrite !String.list_ascii_of_string_of_list_ascii in Heq.
  pose proof (parse_number_int (Z.of_nat n) [] I) as Hn. pose proof (parse_number_int (Z.of_nat m) [] I) as Hm. rewrite Heq, Hm in Hn. injection Hn. lia.
Qed.

(** The heading a conversation message is rendered under, once all aliases are known *)
Definition heading (requester : string) (aliases : list (string * string)) (m : ConversationMessage) : option string :=
  if cm_from_user m then
    if decide (cm_principal_id m = Some requester) then None else p ← cm_principal_id m; dget p aliases
  else None.

(** The loop so far: the messages under the aliases given so far *)
Record rendered (requester : string) (ms : list ConversationMessage) (aliases : list (string * string)) (history : list PromptMessage) : Prop := {
  rn_history : history = (fun m => history_message m (heading requester aliases m)) <$> ms;
  rn_aliases : aliases.*2 = participant <$> seq 1 (length aliases);
  rn_principals : NoDup aliases.*1;
  rn_known : forall m p, m ∈ ms -> cm_from_user m = true -> cm_principal_id m = Some p -> p <> requester -> is_Some (dget p aliases);
}.

Lemma set_alias_spec principal aliases alias aliases' : set_alias principal aliases = (alias, aliases') ->
  aliases.*2 = participant <$> seq 1 (length aliases) -> NoDup aliases.*1 ->
  dget principal aliases' = Some alias /\ (forall p a, dget p aliases = Some a -> dget p aliases' = Some a) /\
  aliases'.*2 = participant <$> seq 1 (length aliases') /\ NoDup aliases'.*1.
Proof.
  unfold set_alias. destruct (dget principal aliases) as [a|] eqn:Hg; intros [= <- <-] Hal Hnd; [done|].
  pose proof (proj1 (dget_None _ _) Hg) as Hfresh.
  split; [by rewrite dget_dset, decide_True|]. split; [|split; [|by apply dset_NoDup]].
  - intros p a Hp. rewrite dget_dset, decide_False; [done|]. intros ->. congruence.
  - rewrite dset_fresh by done. rewrite fmap_app, length_app, Hal. simpl. rewrite seq_app, fmap_app. done.
Qed.

Lemma history_step_rendered requester ms m st st' : rendered requester ms st.1 st.2 -> history_step requester st m = inr st' ->
  rendered requester (ms ++ [m]) st'.1 st'.2.
Proof.
  destruct st as [aliases history], st' as [aliases' history']. intros [Hh Hal Hnd Hk]. simpl in Hh, Hal, Hnd, Hk. unfold history_step.
  destruct (cm_from_user m) eqn:Hu; simpl; [case_bool_decide as Hp; simpl|].
  - intros [= <- <-]. split; simpl; [|done..|].
    + assert (heading requester aliases m = None) as Hm by (unfold heading; by rewrite Hu, decide_True).
      rewrite fmap_app, Hh. simpl. by rewrite Hm.
    + intros m' p [Hin| ->%list_elem_of_singleton]%elem_of_app; [by apply Hk|]. congruence.
  - destruct (cm_principal_id m) as [p|] eqn:Hpr; [|done]. destruct (set_alias p aliases) as [alias al2] eqn:Hset. intros [= <- <-].
    apply set_alias_spec in Hset as (Hget & Hkeep & Hal2 & Hnd2); [|done..]. split; simpl; [|done..|].
    + rewrite fmap_app, Hh. f_equal.
      * apply list_fmap_ext. intros i m' Hm'%list_elem_of_lookup_2. f_equal. unfold heading. destruct (cm_from_user m') eqn:Hu'; [|done]. case_decide as Hreq; [done|].
        destruct (cm_principal_id m') as [p'|] eqn:Hp'; [|done]. simpl. destruct (Hk m' p') as [a Ha]; [done..|congruence|]. by rewrite Ha, (Hkeep _ _ Ha).
      * simpl. unfold heading. rewrite Hu, Hpr, decide_False by done. simpl. by rewrite Hget.
    + intros m' p' [Hin| ->%list_elem_of_singleton]%elem_of_app Hu' Hp' Hne; [|].
      * destruct (Hk m' p') as [a Ha]; [done..|]. rewrite (Hkeep _ _ Ha). by eexists.
      * assert (p' = p) as -> by congruence. by eexists.
  - intros [= <- <-]. split; simpl; [|done..|].
    + assert (heading requester aliases m = None) as Hm by (unfold heading; by rewrite Hu).
      rewrite fmap_app, Hh. simpl. by rewrite Hm.
    + intros m' p [Hin| ->%list_elem_of_singleton]%elem_of_app; [by apply Hk|]. congruence.
Qed.

(** A rendered prompt is one system message - the configured one -, the conversation in its
    order and with its roles, the memory if there is any, and the input last.  A user message of
    the requester stands as it is; one of anybody else is headed by an alias, and two are
    headed by the same alias exactly when they are of the same principal. *)
Theorem prompts_tell_speakers_apart system_prompt request prompt : render system_prompt request = inr prompt ->
  exists aliases : string -> option string,
    pe_messages prompt = [MkPromptMessage ROLE_SYSTEM system_prompt] ++
      ((fun m => history_message m (if cm_from_user m then p ← cm_principal_id m; aliases p else None)) <$> cc_messages (rq_conversation request)) ++
      memory_messages (rq_conversation request) ++ [MkPromptMessage ROLE_USER (text_of (rq_input request))] /\
    aliases (rs_principal_id (rq_scope request)) = None /\
    (forall m p, m ∈ cc_messages (rq_conversation request) -> cm_from_user m = true -> cm_principal_id m = Some p -> p <> rs_principal_id (rq_scope request) ->
       is_Some (aliases p)) /\
    (forall p1 p2 a, aliases p1 = Some a -> aliases p2 = Some a -> p1 = p2).
Proof.
  unfold render. intros ([aliases history] & Hf & Hp)%ebind_inr.
  assert (rendered (rs_principal_id (rq_scope request)) (cc_messages (rq_conversation request)) aliases history) as [Hh Hal Hnd Hk].
  { apply (efold_ind (fun dn st => rendered (rs_principal_id (rq_scope request)) dn st.1 st.2)) in Hf; [done| |].
    - split; [done..|constructor|]. intros m p Hm. by apply not_elem_of_nil in Hm.
    - intros dn m rest st st' _ Hr Hs. by eapply history_step_rendered. }
  simpl in Hp. injection Hp as <-.
  exists (fun p => if decide (p = rs_principal_id (rq_scope request)) then None else dget p aliases). split_and!.
  - simpl. f_equal. f_equal. rewrite Hh. apply list_fmap_ext. intros i m _. f_equal. unfold heading.
    destruct (cm_from_user m); [|done]. destruct (cm_principal_id m) as [p|]; simpl; repeat case_decide; simplify_eq/=; done.
  - by rewrite decide_True.
  - intros m p Hm Hu Hp Hne. rewrite decide_False by done. by eapply Hk.
  - intros p1 p2 a. do 2 (case_decide; [done|]). intros H1 H2.
    apply dget_elem, list_elem_of_lookup in H1 as [i Hi]. apply dget_elem, list_elem_of_lookup in H2 as [j Hj].
    assert (aliases.*2 !! i = Some a) as Hi2 by (by rewrite list_lookup_fmap, Hi). assert (aliases.*2 !! j = Some a) as Hj2 by (by rewrite list_lookup_fmap, Hj).
    rewrite Hal, list_lookup_fmap in Hi2, Hj2. 
    apply fmap_Some in Hi2 as (n1 & Hn1 & ->), Hj2 as (n2 & Hn2 & Heq). apply participant_inj in Heq as <-.
    assert (i = j) as -> by (by eapply NoDup_lookup; [apply NoDup_seq|..]). congruence.
Qed.

(** ** A conversation of three *)
Definition demo_said (who : string) (what : string) : ConversationMessage := MkConversationMessage true (JStr what) (Some who) 0.
Definition demo_request : RunRequest :=
  MkRunRequest "r1" (MkRequestScope (MkScopePath AGENT (Some "acme") (Some "crm") (Some "a1") None) "ann" "web" ∅ "run" "" "" None) "g1" (JStr "Count.")
    (MkConversationContext [demo_said "bob" "Hi."; demo_said "ann" "Hello."; demo_said "eve" "Me too."; demo_said "bob" "Bye."] false "" "" false)
    true (MkExecutionBudget 4 5 1 44900000) None.
Definition demo_prompt : PromptEnvelope :=
  MkPromptEnvelope [MkPromptMessage ROLE_SYSTEM "Help."; history_message (demo_said "bob" "Hi.") (Some "participant-1"); MkPromptMessage ROLE_USER "Hello.";
      history_message (demo_said "eve" "Me too.") (Some "participant-2"); history_message (demo_said "bob" "Bye.") (Some "participant-1");
      MkPromptMessage ROLE_USER "Count."]
    [("run_id", JStr "r1"); ("tenant_id", JStr "acme"); ("product_id", JStr "crm"); ("conversation_truncated", JBool false); ("memory_degraded", JBool false)].
Lemma demo_rendered : render "Help." demo_request = inr demo_prompt.
Proof. vm_compute. reflexivity. Qed.

Definition demo_swap (s : string) : string := if decide (s = "bob") then "eve" else if decide (s = "eve") then "bob" else s.
Lemma demo_swap_inj : Inj eq eq demo_swap.
Proof. intros s t. unfold demo_swap. repeat case_decide; congruence. Qed.

Lemma prompts_hide_participants_witness : render "Help." (renamed demo_swap demo_request) = inr demo_prompt.
Proof. exact (eq_trans (@prompts_hide_participants demo_swap demo_swap_inj "Help." demo_request eq_refl) demo_rendered). Defined.

Lemma prompts_tell_speakers_apart_witness : exists aliases : string -> option string, aliases "ann" = None /\ is_Some (aliases "bob") /\ aliases "bob" <> aliases "eve".
Proof.
  destruct (prompts_tell_speakers_apart "Help." demo_request demo_prompt demo_rendered) as (aliases & _ & Hann & Hall & Hinj).
  exists aliases. destruct (Hall (demo_said "bob" "Hi.") "bob") as [a Ha]; [by left|done..|]. split; [exact Hann|]. split; [by exists a|].
  intros Heq. rewrite Ha in Heq. by pose proof (Hinj "bob" "eve" a Ha (eq_sym Heq)).
Defined.
End Prompts.

Module Reflection.
Import Models Tasks.

Record SinglePassModelReflectionStrategy : Type := MkReflection {
  rf_route_id : string;
  rf_system_prompt : string;
  rf_model : option string;
  rf_temperature : option pyfloat;
  rf_max_output_tokens : Z;
}.

(** [__post_init__] *)
Definition reflection_strategy (s : SinglePassModelReflectionStrategy) : res SinglePassModelReflectionStrategy :=
  require negb (is_blank (rf_route_id s)) else ValueError ;;
  require negb (is_blank (rf_system_prompt s)) else ValueError ;;
  Ok s.

Inductive exc : Type :=
| Exc (e : exn)
| GatewayError.  (* whatever the gateway raises *)

Inductive question : Type := QComplete (route_id : string) (request : ModelRequest).
Definition ans (q : question) : Type := match q with QComplete _ _ => exc + ModelResponse end%type.

Definition M (A : Type) : Type := task ans unit exc A.
Definition complete route request : M ModelResponse := fun l => Call (QComplete route request) (fun a => Ret (l, a)).
Definition of_res {A : Type} (r : res A) : M A := match r with Ok a => ret a | Raise e => raise (Exc e) end.
Definition value_error {A : Type} : M A := raise (Exc ValueError).

Section Review.
Context `{JsonLoads} (self : SinglePassModelReflectionStrategy).

(** [candidate] *)
Definition candidate (request : RunRequest) (frame : WorkflowFrame) (decision : WorkflowDecision) : string :=
  canonical_text (JObj [("input", rq_input request); ("candidate_output", wd_output decision); ("iteration", JInt (wf_iteration frame))]).

Definition review_request (request : RunRequest) (frame : WorkflowFrame) (decision : WorkflowDecision) : res ModelRequest :=
  let! system := text_message SYSTEM (rf_system_prompt self) None None in
  let! user := text_message USER (candidate request frame decision) None None in
  model_request (MkModelRequest [system; user] (rf_model self) [] CHOICE_NONE (rf_temperature self) None (rf_max_output_tokens self) [] None
    [("run_id", JStr (rq_run_id request)); ("purpose", JStr "single_pass_reflection")]).

(** The texts of the response, joined and stripped *)
Definition review_text (response : ModelResponse) : string :=
  PyText.strip (String.concat "" (omap (fun p => match p with TextContent t => Some t | _ => None end) (mo_content response))).

(** What the answer says of the decision *)
Definition reviewed (decision : WorkflowDecision) (text : string) : res WorkflowDecision :=
  require negb (bool_decide (text = "")) else ValueError ;;
  match json_loads text with
  | Some (JObj review) =>
      match obj_get "accept" review with
      | Some (JBool true) => Ok decision
      | Some (JBool false) =>
          match obj_get "revised_output" review with
          | None => Raise ValueError
          | Some output => decision_final output (wd_workflow_state decision)
          end
      | _ => Raise ValueError
      end
  | _ => Raise ValueError
  end.

(** [review] *)
Definition review (request : RunRequest) (frame : WorkflowFrame) (decision : WorkflowDecision) : M WorkflowDecision :=
  if bool_decide (wd_kind decision = FINAL) then
    do r <- of_res (review_request request frame decision) in
    do response <- complete (rf_route_id self) r in
    of_res (reviewed decision (review_text response))
  else ret decision.

(** ** What a review can do *)
Abbreviation ev := (event ans).

Definition review_asks (request : RunRequest) (frame : WorkflowFrame) (d : WorkflowDecision) (h : list ev) (e : ev) : Prop :=
  h = [] /\ match projT1 e with QComplete route r => route = rf_route_id self /\ mr_tools r = [] /\ mr_tool_choice r = CHOICE_NONE /\
    Ok r = review_request request frame d end.

(** Accepted, or revised in its output only *)
Definition revises (d d' : WorkflowDecision) : Prop :=
  d' = d \/ (wd_kind d' = FINAL /\ wd_intents d' = [] /\ wd_workflow_state d' = wd_workflow_state d /\ all_finite (wd_output d') = true).

Lemma reviewed_ok d text d' : reviewed d text = Ok d' -> revises d d'.
Proof.
  unfold reviewed. intros Hr. py_simpl. destruct (json_loads text) as [[]|]; try done. destruct (obj_get "accept" _) as [[]|]; try done.
  destruct b; [left; by injection H1|]. destruct (obj_get "revised_output" _) as [out|]; [|done]. right.
  unfold decision_final, workflow_decision, canonical_json in *. by py_simpl.
Qed.

Lemma review_wp request frame d l : mwp (review_asks request frame d) (review request frame d) l []
  (fun d' _ h => revises d d' /\ (length h <= 1)%nat) (fun _ _ h => (length h <= 1)%nat).
Proof.
  unfold review. case_bool_decide as Hk; [|apply mwp_ret; by split; [left|simpl; lia]].
  apply mwp_bind. destruct (review_request request frame d) as [r|e] eqn:Hr; [|by apply mwp_raise; simpl; lia]. apply mwp_ret.
  apply mwp_bind, mwp_ask. intros a. split.
  - split; [done|]. simpl. rewrite Hr. unfold review_request in Hr. py_simpl. unfold model_request in *. by py_simpl.
  - destruct a as [x|response]; [by simpl; lia|]. destruct (reviewed d _) as [d'|e] eqn:Hd; [|by apply mwp_raise; simpl; lia].
    apply mwp_ret. split; [by eapply reviewed_ok|]. simpl. lia.
Qed.

(** A review asks its route at most once, without tools, about this very answer; it returns the
    decision unchanged or a final decision whose output alone was replaced, so reflection
    can neither call a tool nor change the saved state.  A decision to call tools is not reviewed. *)
Theorem reviews_revise_outputs_only request frame d t o : run_to (review request frame d tt) t o ->
  (wd_kind d = TOOLS -> t = [] /\ (o = Done (tt, inr d) \/ o = Cut)) /\ (length t <= 1)%nat /\
  (forall route r a, (QComplete route r ~> a : ev) ∈ t ->
     route = rf_route_id self /\ mr_tools r = [] /\ mr_tool_choice r = CHOICE_NONE /\ Ok r = review_request request frame d) /\
  (forall l d', o = Done (l, inr d') -> revises d d').
Proof.
  intros Ht. pose proof (mwp_guards _ _ _ _ _ _ _ (review_wp request frame d tt) Ht) as Hg. split_and!.
  - intros Hk. unfold review in Ht. rewrite bool_decide_false in Ht by (by rewrite Hk). by destruct Ht.
  - destruct t as [|e1 [|e2 t]]; simpl; [lia..|]. by destruct (Hg [e1] e2 t eq_refl) as [? _].
  - intros route r a (t1 & t2 & ->)%list_elem_of_split. by destruct (Hg _ _ _ eq_refl) as [_ ?].
  - intros l d' ->. by destruct (mwp_sound _ _ _ _ _ _ _ _ (review_wp request frame d tt) Ht) as (_ & ? & _).
Qed.
End Review.

(** ** A revised answer *)
#[local] Instance demo_json : JsonLoads := loads.
Definition demo_reflection : SinglePassModelReflectionStrategy := MkReflection "main" "Review." None None 2048.
Definition demo_run : RunRequest :=
  MkRunRequest "r1" (MkRequestScope (MkScopePath AGENT (Some "acme") (Some "crm") (Some "a1") None) "ann" "web" ∅ "run" "" "" None)
    "g1" (JStr "Count.") (MkConversationContext [] false "" "" false) true (MkExecutionBudget 4 5 1 44900000) None.
Definition demo_frame : WorkflowFrame := MkWorkflowFrame 1 [] [] JNull 0 10.
Definition demo_draft : WorkflowDecision := MkWorkflowDecision FINAL [] (JStr "Three") (JInt 1).
Definition demo_verdict : string := canonical_text (JObj [("accept", JBool false); ("revised_output", JStr "Four")]).
Definition demo_review :=
  interp (fun q (s : unit) => (match q return ans q with QComplete _ _ => inr (MkModelResponse "r" "openai" "m" [TextContent demo_verdict] [] STOP None) end, s))
    (review demo_reflection demo_run demo_frame demo_draft tt) tt.

Lemma demo_review_run : run_to (review demo_reflection demo_run demo_frame demo_draft tt) demo_review.1.1 demo_review.1.2.
Proof. apply interp_run_to. Qed.
Lemma demo_review_done : demo_review.1.2 = Done (tt, inr (MkWorkflowDecision FINAL [] (JStr "Four") (JInt 1))).
Proof. vm_compute. reflexivity. Qed.

Lemma reviews_revise_outputs_only_witness : revises demo_draft (MkWorkflowDecision FINAL [] (JStr "Four") (JInt 1)).
Proof.
  exact (proj2 (proj2 (proj2 (reviews_revise_outputs_only demo_reflection demo_run demo_frame demo_draft demo_review.1.1 demo_review.1.2 demo_review_run)))
    tt _ demo_review_done).
Defined.
End Reflection.
