(* ===== verification/WorkspacePaths.v ===== *)
(** * Workspace paths ([workspace/layout.py], [workspace/access.py], [channels/policy.py])

    Who may touch which path: the recognisers of portable relative paths - one in
    the layout, one in the secure backend, one in the access policy, one in the
    configuration, one in the file tools and one in the channel policy -, the
    directories of a product, the access policies and the policy of the channels.

    An absolute path is the list of its components, as [pathlib] keeps them ([..] included);
    the file system is a parameter: what exists, and what [Path.resolve] answers. *)
From S2P Require Import Prelude PyText Json Scopes ExecModels.
From Stdlib Require Import Ascii.
Open Scope Z_scope.
Open Scope list_scope.

Module Paths.

(** ** Portable texts *)
Definition slash : ascii := "/"%char.
Definition backslash : ascii := ascii_of_nat 92.

(** [value.replace("\\", "/")] *)
Definition portable (value : string) : string :=
  String.string_of_list_ascii (List.map (fun c => if Ascii.eqb c backslash then slash else c) (chars value)).

(** [portable.split("/")] *)
Fixpoint split_chars (l : list ascii) : list (list ascii) :=
  match l with
  | [] => [[]]
  | c :: l =>
      if Ascii.eqb c slash then [] :: split_chars l
      else match split_chars l with [] => [[c]] | p :: ps => (c :: p) :: ps end
  end.
Definition split_slash (value : string) : list string := List.map String.string_of_list_ascii (split_chars (chars value)).

(** [PurePosixPath(value).parts]: the anchor, and the components but the empty and the [.] ones *)
Definition anchor (value : string) : list string :=
  match chars value with
  | a :: rest =>
      if Ascii.eqb a slash then
        match rest with
        | b :: rest => if Ascii.eqb b slash && negb (match rest with c :: _ => Ascii.eqb c slash | [] => false end) then ["//"] else ["/"]
        | [] => ["/"]
        end
      else []
  | [] => []
  end.
Definition posix_parts (value : string) : list string :=
  anchor value ++ List.filter (fun p => negb (bool_decide (p = "" \/ p = "."))) (split_slash value).

Definition has_nul (value : string) : bool := existsb (Ascii.eqb zero) (chars value).
Definition starts_with_slash (value : string) : bool := match chars value with a :: _ => Ascii.eqb a slash | [] => false end.
Definition starts_with_slashes (value : string) : bool := match chars value with a :: b :: _ => Ascii.eqb a slash && Ascii.eqb b slash | _ => false end.
(** [re.match(r"^[A-Za-z]:", value)] *)
Definition has_drive (value : string) : bool :=
  match chars value with a :: b :: _ => (is_lower a || is_upper a) && Ascii.eqb b ":"%char | _ => false end.
Definition odd_part (p : string) : bool := bool_decide (p = "" \/ p = "." \/ p = "..").

(** ** The recognisers *)
Inductive path_error : Type :=
| WorkspacePathError
| WorkspaceAccessDenied
| PathValueError  (* a plain [ValueError] *)
| PathOSError.
#[global] Instance path_error_eq_dec : EqDecision path_error.
Proof. solve_decision. Defined.

Definition reject {A : Type} (c : bool) (e : path_error) (k : path_error + A) : path_error + A := if c then inl e else k.

(** [layout._segments] *)
Definition layout_segments (raw : string) : path_error + list string :=
  reject (bool_decide (raw = "") || has_nul raw) WorkspacePathError (
  let value := portable raw in
  if bool_decide (value = ".") then inr [] else
  reject (starts_with_slash value || starts_with_slashes value) WorkspacePathError (
  reject (has_drive value) WorkspacePathError (
  let raw_parts := split_slash value in
  reject (existsb odd_part raw_parts) WorkspacePathError (
  let parts := posix_parts value in
  reject (negb (bool_decide (raw_parts = parts))) WorkspacePathError (
  inr parts))))).

(** [secure_fs._segments] *)
Definition secure_segments (allow_root : bool) (raw : string) : path_error + list string :=
  reject (bool_decide (raw = "") || has_nul raw) WorkspacePathError (
  let value := portable raw in
  if bool_decide (value = ".") && allow_root then inr [] else
  reject (starts_with_slash value || starts_with_slashes value) WorkspacePathError (
  let raw_parts := split_slash value in
  reject (existsb odd_part raw_parts) WorkspacePathError (
  let parts := posix_parts value in
  reject (negb (bool_decide (raw_parts = parts))) WorkspacePathError (
  inr parts)))).

(** [config.models._relative_workspace_path] *)
Definition config_path (raw : string) : path_error + string :=
  reject (bool_decide (raw = "") || has_nul raw) PathValueError (
  let value := portable raw in
  if bool_decide (value = ".") then inr raw else
  reject (starts_with_slash value || starts_with_slashes value) PathValueError (
  reject (has_drive value) PathValueError (
  let raw_parts := split_slash value in
  reject (existsb odd_part raw_parts) PathValueError (
  reject (negb (bool_decide (raw_parts = posix_parts value))) PathValueError (
  inr raw))))).

(** [tools.workspace._relative] *)
Definition tool_relative (allow_root : bool) (value : json) : path_error + string :=
  match value with
  | JStr raw =>
      reject (has_nul raw || (4096 <? py_len raw)) PathValueError (
      let value := portable raw in
      if bool_decide (value = ".") && allow_root then inr value else
      reject (bool_decide (value = "") || starts_with_slash value || starts_with_slashes value) PathValueError (
      reject (has_drive value) PathValueError (
      reject (existsb odd_part (split_slash value)) PathValueError (
      inr value))))
  | _ => inl PathValueError
  end.

(** The parts of [access._logical_candidate] *)
Definition logical_parts (raw : string) : path_error + list string :=
  let value := portable raw in
  if bool_decide (value = ".") then inr [] else
  let raw_parts := split_slash value in
  reject (bool_decide (value = "") || starts_with_slash value || existsb odd_part raw_parts || negb (bool_decide (raw_parts = posix_parts value)))
    WorkspaceAccessDenied (inr raw_parts).

(** [channels.policy._parts] *)
Definition policy_parts (allow_root : bool) (value : json) : option (list string) :=
  match value with
  | JStr raw =>
      if bool_decide (raw = "") || has_nul raw then None else
      let value := portable raw in
      if bool_decide (value = ".") then (if allow_root then Some [] else None) else
      if starts_with_slash value || starts_with_slashes value || has_drive value then None else
      let raw_parts := split_slash value in
      if existsb odd_part raw_parts then None else
      let parsed := posix_parts value in
      if bool_decide (raw_parts = parsed) then Some parsed else None
  | _ => None
  end.

(** ** The layout *)
Abbreviation path := (list string).

Record WorkspacePaths : Type := MkPaths {
  wp_deployment_root : path;
  wp_tenant_root : path;
  wp_shared_root : path;
  wp_products_root : path;
  wp_product_root : path;
}.

Definition validate_identifier (value : string) : path_error + string := reject (negb (COMPONENT_ID value)) WorkspacePathError (inr value).

(** [WorkspaceLayout.paths_for] *)
Definition paths_for (deployment_root : path) (tenant_id product_id : string) : path_error + WorkspacePaths :=
  try! tenant := validate_identifier tenant_id in
  try! product := validate_identifier product_id in
  let tenant_root := deployment_root ++ ["tenants"; tenant] in
  let products_root := tenant_root ++ ["products"] in
  inr (MkPaths deployment_root tenant_root (tenant_root ++ ["shared"]) products_root (products_root ++ [product])).

Definition is_within (p root : path) : bool := bool_decide (root `prefix_of` p).
Definition under_any (p : path) (roots : list path) : bool := existsb (is_within p) roots.

Class FileSystem : Type := {
  path_exists : path -> bool;
  path_is_dir : path -> bool;
  path_is_symlink : path -> bool;
  path_resolve : bool -> path -> option path;  (* [Path.resolve(strict=...)], [None] when it raises *)
}.

Section Access.
Context `{FileSystem}.

(** [WorkspaceLayout.__init__] *)
Definition workspace_layout (absolute : bool) (root : path) : path_error + path :=
  reject (negb absolute) WorkspacePathError (
  reject (path_exists root && path_is_symlink root) WorkspacePathError (inr root)).

(** [resolve_beneath] *)
Definition resolve_beneath (root : path) (relative_path : string) (require_exists : bool) : path_error + path :=
  reject (negb (path_exists root) || negb (path_is_dir root)) WorkspacePathError (
  match path_resolve true root with
  | None => inl PathOSError
  | Some root_real =>
      try! segments := layout_segments relative_path in
      match path_resolve require_exists (root ++ segments) with
      | None => inl WorkspacePathError
      | Some resolved => reject (negb (is_within resolved root_real)) WorkspacePathError (inr resolved)
      end
  end).

Definition resolve_product (deployment_root : path) (tenant_id product_id relative_path : string) (require_exists : bool) : path_error + path :=
  try! paths := paths_for deployment_root tenant_id product_id in resolve_beneath (wp_product_root paths) relative_path require_exists.

Definition resolve_shared (deployment_root : path) (tenant_id relative_path : string) (require_exists : bool) : path_error + path :=
  try! tenant := validate_identifier tenant_id in
  resolve_beneath (deployment_root ++ ["tenants"; tenant; "shared"]) relative_path require_exists.

(** ** Access policies *)
Inductive WorkspaceOperation : Type := OP_READ | OP_WRITE | OP_DELETE.
Inductive WorkspaceSpace : Type := PRODUCT_SPACE | SHARED_SPACE.
Record WritableWorkspaceRoot : Type := MkWritableRoot { wr_space : WorkspaceSpace; wr_relative_path : string }.

Record WorkspaceAccessPolicy : Type := MkPolicy {
  ap_readable_roots : list path;
  ap_writable_roots : list path;
  ap_logical_readable_roots : list path;
  ap_logical_writable_roots : list path;
  ap_allow_delete : bool;
}.

(** [_canonical] *)
Definition canonical (p : path) : path_error + path :=
  match path_resolve (path_exists p) p with None => inl WorkspaceAccessDenied | Some q => inr q end.

(** [_lexical]: [os.path.abspath(os.path.normpath(path))] of an absolute path *)
Definition lexical (p : path) : path :=
  foldl (fun acc part => if bool_decide (part = "..") then removelast acc else if bool_decide (part = "" \/ part = ".") then acc else acc ++ [part]) [] p.

(** [tuple(dict.fromkeys(items))] *)
Definition unique (l : list path) : list path := foldl (fun acc p => if decide (p ∈ acc) then acc else acc ++ [p]) [] l.

Definition canonical_all (l : list path) : path_error + list path := efold (fun acc p => try! q := canonical p in inr (acc ++ [q])) [] l.

(** [WorkspaceAccessPolicy.__init__] *)
Definition access_policy (readable_roots writable_roots : list path) (allow_delete : bool) : path_error + WorkspaceAccessPolicy :=
  try! rs := canonical_all readable_roots in
  try! ws := canonical_all writable_roots in
  let readable := unique rs in
  let writable := unique ws in
  reject (bool_decide (readable = [])) PathValueError (
  reject (existsb (fun r => negb (path_is_dir r)) (readable ++ writable)) WorkspacePathError (
  reject (existsb (fun r => negb (under_any r readable)) writable) PathValueError (
  inr (MkPolicy readable writable (unique (List.map lexical readable_roots)) (unique (List.map lexical writable_roots)) allow_delete)))).

Definition allowed (readable writable : list path) (allow_delete : bool) (p : path) (op : WorkspaceOperation) : bool :=
  match op with
  | OP_READ => under_any p readable
  | OP_WRITE => under_any p writable
  | OP_DELETE => allow_delete && under_any p writable
  end.

(** [authorize], for an absolute target *)
Definition authorize (self : WorkspaceAccessPolicy) (target : path) (op : WorkspaceOperation) : path_error + path :=
  try! p := canonical target in
  reject (negb (allowed (ap_readable_roots self) (ap_writable_roots self) (ap_allow_delete self) p op)) WorkspaceAccessDenied (inr p).

(** [_logical_candidate] *)
Definition logical_candidate (root : path) (relative_path : string) : path_error + path :=
  try! parts := logical_parts relative_path in inr (lexical root ++ parts).

(** [authorize_relative] *)
Definition authorize_relative (self : WorkspaceAccessPolicy) (selected_root : path) (relative_path : string) (op : WorkspaceOperation) :
    path_error + path :=
  try! p := logical_candidate selected_root relative_path in
  reject (negb (allowed (ap_logical_readable_roots self) (ap_logical_writable_roots self) (ap_allow_delete self) p op)) WorkspaceAccessDenied (inr p).

Definition read_only (paths : WorkspacePaths) (include_shared : bool) : path_error + WorkspaceAccessPolicy :=
  access_policy ([wp_product_root paths] ++ (if include_shared then [wp_shared_root paths] else [])) [] false.

Definition space_root (paths : WorkspacePaths) (space : WorkspaceSpace) : path :=
  match space with PRODUCT_SPACE => wp_product_root paths | SHARED_SPACE => wp_shared_root paths end.

(** [for_feishu] *)
Definition for_feishu (paths : WorkspacePaths) (writable_roots : list WritableWorkspaceRoot) (include_shared_read : bool) : path_error + WorkspaceAccessPolicy :=
  try! writable := efold (fun acc item => try! p := resolve_beneath (space_root paths (wr_space item)) (wr_relative_path item) true in inr (acc ++ [p]))
    [] writable_roots in
  access_policy ([wp_product_root paths] ++ (if include_shared_read then [wp_shared_root paths] else [])) writable false.
End Access.

(** [tools.workspace._space]: only these two texts print as the name of a space. *)
Definition tool_space (value : json) : path_error + WorkspaceSpace :=
  if bool_decide (value = JStr "product") then inr PRODUCT_SPACE
  else if bool_decide (value = JStr "shared") then inr SHARED_SPACE
  else inl PathValueError.

(** ** The policy of the channels ([channels/policy.py]) *)
Record WorkspaceWriteRule : Type := MkRule { ru_space : string; ru_path : string }.

Definition write_rule (r : WorkspaceWriteRule) : res WorkspaceWriteRule :=
  require bool_decide (ru_space r ∈ ["product"; "shared"]) else ValueError ;;
  require negb (is_none (policy_parts true (JStr (ru_path r)))) else ValueError ;;
  Ok r.

(** [permits] *)
Definition permits (rule : WorkspaceWriteRule) (space path : json) : bool :=
  let space := match space with JNull => JStr "product" | v => v end in
  if negb (bool_decide (space = JStr (ru_space rule))) then false
  else
    match policy_parts true (JStr (ru_path rule)), policy_parts false path with
    | Some configured, Some requested => bool_decide (configured = []) || bool_decide (take (length configured) requested = configured)
    | _, _ => false
    end.

Definition FEISHU_WRITABLE_TOOLS : list string := ["suiteharness.fs.write"; "suiteharness.fs.edit"].

Definition is_builtin_file_write (identity : ToolIdentity) (spec : ToolSpec) : bool :=
  bool_decide (ti_namespace identity = "suiteharness") && bool_decide (ti_origin identity = "suiteharness.builtin.fs")
  && bool_decide (ti_name identity ∈ FEISHU_WRITABLE_TOOLS) && bool_decide (ts_name spec = ti_name identity).

(** [CompanyChannelAuthorizationPolicy.evaluate] *)
Definition evaluate (feishu_writable_roots : list WorkspaceWriteRule) (request : RunRequest) (identity : ToolIdentity) (spec : ToolSpec)
    (arguments : list (string * json)) : ToolAuthorization :=
  let channel := rs_channel_id (rq_scope request) in
  if bool_decide (channel = "web") then
    (if bool_decide (WRITE ∈ ts_effects spec) || bool_decide (DESTRUCTIVE ∈ ts_effects spec) then AUTH_REQUIRE_APPROVAL else AUTH_ALLOW)
  else if negb (bool_decide (channel = "feishu")) then AUTH_DEFAULT
  else if bool_decide (DESTRUCTIVE ∈ ts_effects spec) then AUTH_DENY
  else if is_read spec then AUTH_ALLOW
  else if negb (is_builtin_file_write identity spec) then AUTH_DENY
  else if existsb (fun rule => permits rule (default (JStr "product") (obj_get "space" arguments)) (default JNull (obj_get "path" arguments))) feishu_writable_roots
  then AUTH_ALLOW
  else AUTH_DENY.

(** * Theorems *)

(** ** One language of paths *)

(** The reference: no NUL, no drive, and either the root or components that are neither empty nor dots *)
Definition clean_segments (raw : string) : option (list string) :=
  if bool_decide (raw = "") || has_nul raw then None
  else if bool_decide (portable raw = ".") then Some []
  else if has_drive (portable raw) || existsb odd_part (split_slash (portable raw)) then None
  else Some (split_slash (portable raw)).

Lemma split_not_nil l : split_chars l <> [].
Proof. destruct l as [|c l]; simpl; [done|]. destruct (Ascii.eqb c slash); [done|]. by destruct (split_chars l). Qed.

Lemma slash_head_odd value : starts_with_slash value = true -> existsb odd_part (split_slash value) = true.
Proof. unfold starts_with_slash, split_slash. destruct (chars value) as [|a l]; [done|]. simpl. intros ->. done. Qed.

Lemma double_slash value : starts_with_slashes value = true -> starts_with_slash value = true.
Proof. unfold starts_with_slashes, starts_with_slash. destruct (chars value) as [|a [|b l]]; try done. by intros [-> _]%andb_true_iff. Qed.

Lemma ordinary_parts value : existsb odd_part (split_slash value) = false ->
  starts_with_slash value = false /\ starts_with_slashes value = false /\ posix_parts value = split_slash value.
Proof.
  intros Hodd. assert (starts_with_slash value = false) as Hs.
  { destruct (starts_with_slash value) eqn:E; [|done]. by rewrite (slash_head_odd _ E) in Hodd. }
  split; [done|]. split; [destruct (starts_with_slashes value) eqn:E; [|done]; by rewrite (double_slash _ E) in Hs|].
  unfold posix_parts. replace (anchor value) with (@nil string).
  - simpl. induction (split_slash value) as [|p l IH]; [done|]. simpl in Hodd |- *. apply orb_false_iff in Hodd as [Hp Hl].
    unfold odd_part in Hp. apply bool_decide_eq_false in Hp. rewrite bool_decide_false by naive_solver. simpl. by rewrite IH.
  - unfold anchor. unfold starts_with_slash in Hs. destruct (chars value) as [|a l]; [done|]. by rewrite Hs.
Qed.

Lemma portable_empty raw : portable raw = "" -> raw = "".
Proof. unfold portable. destruct raw as [|c raw]; [done|]. simpl. by destruct (Ascii.eqb c backslash). Qed.

Lemma empty_odd : existsb odd_part (split_slash "") = true.
Proof. done. Qed.

Lemma layout_agrees raw : layout_segments raw = match clean_segments raw with Some segs => inr segs | None => inl WorkspacePathError end.
Proof.
  unfold layout_segments, clean_segments, reject. destruct (_ || has_nul raw); [done|]. case_bool_decide; [done|].
  destruct (existsb odd_part _) eqn:Hodd; [rewrite orb_true_r; by repeat case_match|].
  destruct (ordinary_parts _ Hodd) as (-> & -> & ->). rewrite orb_false_r. simpl. destruct (has_drive _); [done|]. by rewrite bool_decide_true.
Qed.

Lemma policy_agrees raw : policy_parts true (JStr raw) = clean_segments raw.
Proof.
  unfold policy_parts, clean_segments. destruct (_ || has_nul raw); [done|]. case_bool_decide; [done|].
  destruct (existsb odd_part _) eqn:Hodd; [rewrite orb_true_r; by repeat case_match|].
  destruct (ordinary_parts _ Hodd) as (-> & -> & ->). rewrite orb_false_r. simpl. destruct (has_drive _); [done|]. by rewrite bool_decide_true.
Qed.

Lemma config_agrees raw : config_path raw = match clean_segments raw with Some _ => inr raw | None => inl PathValueError end.
Proof.
  unfold config_path, clean_segments, reject. destruct (_ || has_nul raw); [done|]. case_bool_decide; [done|].
  destruct (existsb odd_part _) eqn:Hodd; [rewrite orb_true_r; by repeat case_match|].
  destruct (ordinary_parts _ Hodd) as (-> & -> & ->). rewrite orb_false_r. simpl. destruct (has_drive _); [done|]. by rewrite bool_decide_true.
Qed.

Lemma tool_agrees raw allow_root p : tool_relative allow_root (JStr raw) = inr p <->
  py_len raw <= 4096 /\ p = portable raw /\ exists segs, clean_segments raw = Some segs /\ (segs = [] -> allow_root = true).
Proof.
  unfold tool_relative, clean_segments, reject.
  destruct (has_nul raw); simpl; [rewrite orb_true_r; split; [done|by intros (_ & _ & segs & ? & _)]|].
  destruct (4096 <? py_len raw) eqn:Hlen; [apply Z.ltb_lt in Hlen; split; [done|lia]|]. apply Z.ltb_ge in Hlen.
  rewrite orb_false_r. destruct (decide (raw = "")) as [->|Hraw]; [split; [by destruct allow_root|by intros (_ & _ & segs & ? & _)]|].
  rewrite (bool_decide_false (raw = "")) by done. case_bool_decide as Hdot; simpl.
  { destruct allow_root; simpl; [split; [intros [= <-]; eauto|by intros (_ & -> & _)]|].
    rewrite Hdot. simpl. split; [done|]. intros (_ & _ & segs & [= <-] & Hs). by discriminate Hs. }
  destruct (existsb odd_part _) eqn:Hodd; [rewrite orb_true_r; split; [by repeat case_match|by intros (_ & _ & segs & ? & _)]|].
  destruct (ordinary_parts _ Hodd) as (-> & -> & _). rewrite (bool_decide_false (portable raw = "")) by (by intros ?%portable_empty).
  simpl. rewrite orb_false_r. destruct (has_drive (portable raw)); simpl; [split; [done|by intros (_ & _ & segs & ? & _)]|].
  split; [intros [= <-]; split_and!; [done..|]; eexists; split; [done|]; intros Hz|by intros (_ & -> & _)].
  unfold split_slash in Hz. apply map_eq_nil in Hz. by apply split_not_nil in Hz.
Qed.

Lemma clean_root raw : clean_segments raw = Some [] -> portable raw = ".".
Proof.
  unfold clean_segments. destruct (_ || has_nul raw); [done|]. case_bool_decide; [done|]. destruct (has_drive _ || _); [done|].
  intros [= Hz]. unfold split_slash in Hz. apply map_eq_nil in Hz. by apply split_not_nil in Hz.
Qed.

Lemma clean_reads raw segs : clean_segments raw = Some segs ->
  (forall allow_root, (segs = [] -> allow_root = true) -> secure_segments allow_root raw = inr segs) /\ logical_parts raw = inr segs /\
  Forall (fun p => odd_part p = false) segs.
Proof.
  intros Hc. pose proof (clean_root raw) as Hroot. rewrite Hc in Hroot. unfold clean_segments in Hc. unfold secure_segments, logical_parts, reject.
  destruct (_ || has_nul raw) eqn:Hz; [done|]. apply orb_false_iff in Hz as [Hz _]. apply bool_decide_eq_false in Hz.
  case_bool_decide as Hdot; simpl.
  { injection Hc as <-. split_and!; [|done|constructor]. intros allow_root ->; done. }
  destruct (has_drive _); [done|]. simpl in Hc. destruct (existsb odd_part _) eqn:Hodd; [done|]. injection Hc as <-.
  destruct (ordinary_parts _ Hodd) as (-> & -> & ->). rewrite (bool_decide_false (portable raw = "")) by (by intros ?%portable_empty).
  rewrite !bool_decide_true by done. simpl. split_and!; [done..|]. rewrite Forall_forall. intros q Hq.
  destruct (odd_part q) eqn:E; [|done]. enough (existsb odd_part (split_slash (portable raw)) = true) by congruence.
  apply existsb_exists. exists q. split; [by apply list_elem_of_In|done].
Qed.

(** The reference of a recogniser that may or may not look for drives and for NUL characters: the root,
    or components none of which is empty, [.] or [..] *)
Definition reference_segments (no_drives no_nuls : bool) (raw : string) : option (list string) :=
  if bool_decide (raw = "") || (no_nuls && has_nul raw) then None
  else if bool_decide (portable raw = ".") then Some []
  else if (no_drives && has_drive (portable raw)) || existsb odd_part (split_slash (portable raw)) then None
  else Some (split_slash (portable raw)).

(** What a recogniser answers that accepts the root only where it is allowed *)
Definition rooted (allow_root : bool) (r : option (list string)) : option (list string) :=
  match r with Some [] => if allow_root then Some [] else None | _ => r end.
Definition accepted_or {A : Type} (e : path_error) (r : option A) : path_error + A := match r with Some a => inr a | None => inl e end.

Lemma split_slash_not_nil value : split_slash value <> [].
Proof. unfold split_slash. intros Hz%map_eq_nil. by apply split_not_nil in Hz. Qed.

Lemma rooted_parts allow_root value : rooted allow_root (Some (split_slash value)) = Some (split_slash value).
Proof. pose proof (split_slash_not_nil value). by destruct (split_slash value). Qed.

Lemma secure_reference allow_root raw : secure_segments allow_root raw = accepted_or WorkspacePathError (rooted allow_root (reference_segments false true raw)).
Proof.
  unfold secure_segments, reference_segments, reject. change (true && has_nul raw) with (has_nul raw). destruct (_ || has_nul raw); [done|]. case_bool_decide as Hdot; simpl.
  { destruct allow_root; [done|]. simpl. by rewrite Hdot. }
  destruct (existsb odd_part _) eqn:Hodd; [by repeat case_match|].
  destruct (ordinary_parts _ Hodd) as (-> & -> & ->). rewrite rooted_parts, bool_decide_true by done. done.
Qed.

Lemma logical_reference raw : logical_parts raw = accepted_or WorkspaceAccessDenied (reference_segments false false raw).
Proof.
  unfold logical_parts, reference_segments, reject. destruct (decide (raw = "")) as [->|Hraw]; [done|]. rewrite (bool_decide_false (raw = "")) by done. simpl.
  case_bool_decide; [done|]. rewrite (bool_decide_false (portable raw = "")) by (by intros ?%portable_empty). simpl.
  destruct (existsb odd_part _) eqn:Hodd; [by rewrite orb_true_r|]. destruct (ordinary_parts _ Hodd) as (-> & _ & ->). simpl. by rewrite bool_decide_true.
Qed.

Lemma policy_reference allow_root raw : policy_parts allow_root (JStr raw) = rooted allow_root (reference_segments true true raw).
Proof.
  unfold policy_parts, reference_segments. change (true && has_nul raw) with (has_nul raw). destruct (_ || has_nul raw); [done|]. case_bool_decide; [by destruct allow_root|].
  destruct (existsb odd_part _) eqn:Hodd; [rewrite orb_true_r; by repeat case_match|].
  destruct (ordinary_parts _ Hodd) as (-> & -> & ->). rewrite !orb_false_r. cbn [orb andb]. destruct (has_drive _); [done|]. by rewrite rooted_parts, bool_decide_true.
Qed.

(** Without drives and NUL characters the references are one. *)
Lemma references_agree no_drives no_nuls raw : has_drive (portable raw) = false -> has_nul raw = false ->
  reference_segments no_drives no_nuls raw = clean_segments raw.
Proof. intros Hd Hn. unfold reference_segments, clean_segments. by rewrite Hd, Hn, !andb_false_r. Qed.

Lemma reference_ordinary no_drives no_nuls raw segs : reference_segments no_drives no_nuls raw = Some segs -> Forall (fun p => odd_part p = false) segs.
Proof.
  unfold reference_segments. destruct (_ || _); [done|]. case_bool_decide; [intros [= <-]; constructor|].
  destruct (existsb odd_part _) eqn:Hodd; [by rewrite orb_true_r|]. rewrite orb_false_r. destruct (_ && _); [done|]. intros [= <-].
  rewrite Forall_forall. intros q Hq. destruct (odd_part q) eqn:E; [|done]. enough (existsb odd_part (split_slash (portable raw)) = true) by congruence.
  apply existsb_exists. exists q. split; [by apply list_elem_of_In|done].
Qed.

(** C32. Each of the six recognisers of workspace paths is the reference with its own choices.  Layout, channel
    policy, configuration and file tools refuse drives and NUL characters, the tools moreover
    texts over 4096 characters; the secure backend refuses NUL characters but takes a drive for an
    ordinary component, and so does the access policy, which does not look for NUL
    characters either.  On texts with neither, all six accept the same paths and read the
    same components; and what any of the references reads has no component that is empty, [.] or [..]. *)
Theorem path_recognisers_match_reference raw :
  layout_segments raw = accepted_or WorkspacePathError (reference_segments true true raw) /\
  (forall allow_root, policy_parts allow_root (JStr raw) = rooted allow_root (reference_segments true true raw)) /\
  config_path raw = accepted_or PathValueError ((fun _ => raw) <$> reference_segments true true raw) /\
  (forall allow_root p, tool_relative allow_root (JStr raw) = inr p <->
     py_len raw <= 4096 /\ p = portable raw /\ is_Some (rooted allow_root (reference_segments true true raw))) /\
  (forall allow_root, secure_segments allow_root raw = accepted_or WorkspacePathError (rooted allow_root (reference_segments false true raw))) /\
  logical_parts raw = accepted_or WorkspaceAccessDenied (reference_segments false false raw) /\
  (has_drive (portable raw) = false -> has_nul raw = false -> forall no_drives no_nuls, reference_segments no_drives no_nuls raw = reference_segments true true raw) /\
  (forall no_drives no_nuls segs, reference_segments no_drives no_nuls raw = Some segs -> Forall (fun p => odd_part p = false) segs).
Proof.
  split; [apply layout_agrees|]. split; [intros; apply policy_reference|]. split; [rewrite config_agrees; change (reference_segments true true raw) with (clean_segments raw); by destruct (clean_segments raw)|].
  split; [|split; [intros; apply secure_reference|split; [apply logical_reference|split; [intros Hd Hn ? ?; by rewrite !references_agree|intros ? ? ?; apply reference_ordinary]]]].
  intros allow_root p. rewrite tool_agrees. change (reference_segments true true raw) with (clean_segments raw). split.
  - intros (Hl & -> & segs & -> & Hroot). split_and!; [done..|]. destruct segs; simpl; [rewrite Hroot by done|]; by eexists.
  - intros (Hl & -> & [segs Hs]). split_and!; [done..|]. destruct (clean_segments raw) as [[|x l]|]; simpl in Hs; [| |done].
    + exists []. split; [done|]. by destruct allow_root.
    + exists (x :: l). by split.
Qed.

(** A drive and a NUL character tell the references apart. *)
Example drives_are_told_apart :
  layout_segments "C:/x" = inl WorkspacePathError /\ secure_segments false "C:/x" = inr ["C:"; "x"] /\ logical_parts "C:/x" = inr ["C:"; "x"] /\
  secure_segments false (String zero "") = inl WorkspacePathError /\ logical_parts (String zero "") = inr [String zero ""].
Proof. vm_compute. split_and!; reflexivity. Qed.

Lemma policy_parts_root value segs : policy_parts false value = Some segs -> policy_parts true value = Some segs.
Proof. destruct value; simpl; try done. by repeat case_match. Qed.

Lemma portable_portable raw : portable (portable raw) = portable raw.
Proof.
  unfold portable, chars. rewrite String.list_ascii_of_string_of_list_ascii, List.map_map. f_equal. apply map_ext. intros c.
  destruct (Ascii.eqb c backslash) eqn:E; [done|]. by rewrite E.
Qed.

Lemma logical_portable raw : logical_parts (portable raw) = logical_parts raw.
Proof. unfold logical_parts. by rewrite portable_portable. Qed.

(** ** Isolation *)
Lemma lexical_app p q : Forall (fun x => odd_part x = false) q -> lexical (p ++ q) = lexical p ++ q.
Proof.
  intros Hq. unfold lexical. rewrite foldl_app. generalize (foldl (fun acc part => if bool_decide (part = "..") then removelast acc
    else if bool_decide (part = "" \/ part = ".") then acc else acc ++ [part]) [] p) as acc.
  induction Hq as [|x q Hx _ IH]; intros acc; simpl; [by rewrite app_nil_r|]. unfold odd_part in Hx. apply bool_decide_eq_false in Hx.
  rewrite !bool_decide_false by naive_solver. rewrite IH, <- app_assoc. done.
Qed.

Lemma component_ordinary x : COMPONENT_ID x = true -> odd_part x = false.
Proof. intros Hx. apply bool_decide_eq_false. intros [->|[->| ->]]; by vm_compute in Hx. Qed.

Lemma paths_for_ok root t p ps : paths_for root t p = inr ps ->
  odd_part t = false /\ odd_part p = false /\ forall s, space_root ps s = root ++ match s with PRODUCT_SPACE => ["tenants"; t; "products"; p] | SHARED_SPACE => ["tenants"; t; "shared"] end.
Proof.
  unfold paths_for, validate_identifier, reject. destruct (COMPONENT_ID t) eqn:Ht; [|done]. destruct (COMPONENT_ID p) eqn:Hp; [|done].
  intros [= <-]. split_and!; [by apply component_ordinary..|]. intros []; simpl; rewrite <- !app_assoc; done.
Qed.

Lemma logical_parts_ordinary rel segs : logical_parts rel = inr segs -> Forall (fun x => odd_part x = false) segs.
Proof.
  unfold logical_parts, reject. case_bool_decide; [intros [= <-]; constructor|]. destruct (existsb odd_part _) eqn:Hodd; [by rewrite orb_true_r|].
  destruct (_ || negb _); [done|]. intros [= <-]. rewrite Forall_forall. intros q Hq. destruct (odd_part q) eqn:E; [|done].
  enough (existsb odd_part (split_slash (portable rel)) = true) by congruence. apply existsb_exists. exists q. split; [by apply list_elem_of_In|done].
Qed.

Lemma lexical_ordinary p : Forall (fun x => odd_part x = false) (lexical p).
Proof.
  unfold lexical. match goal with |- context [foldl ?f _ _] => set (step := f) end.
  enough (forall acc, Forall (fun x => odd_part x = false) acc -> Forall (fun x => odd_part x = false) (foldl step acc p)) as H by (by apply H).
  induction p as [|x p IH]; intros acc Hacc; simpl; [done|]. apply IH. unfold step. case_bool_decide as Hdd.
  - apply Forall_forall. intros y Hy. rewrite Forall_forall in Hacc. apply Hacc. rewrite removelast_firstn_len in Hy.
    rewrite <- (take_drop (pred (length acc)) acc). apply elem_of_app. by left.
  - case_bool_decide as Hd; [done|]. apply Forall_app. split; [done|]. constructor; [|done]. apply bool_decide_eq_false. naive_solver.
Qed.

Lemma lexical_fixed p : Forall (fun x => odd_part x = false) p -> lexical p = p.
Proof. intros Hp. by apply (lexical_app []). Qed.

(** What a text names, seen from a directory: components in turn, [..] one level up, a leading slash
    from the root of the file system *)
Definition denotes (root : path) (value : string) : path := lexical ((if starts_with_slash value then [] else root) ++ split_slash value).

Lemma logical_denotes root rel segs : logical_parts rel = inr segs -> denotes root (portable rel) = lexical root ++ segs.
Proof.
  intros Hl. pose proof (logical_parts_ordinary _ _ Hl) as Hord. unfold logical_parts, reject, denotes in *. case_bool_decide as Hdot.
  { injection Hl as <-. rewrite Hdot, app_nil_r. unfold lexical. simpl. by rewrite foldl_app. }
  destruct (bool_decide (portable rel = "")); [done|]. destruct (starts_with_slash (portable rel)); [done|]. simpl in Hl.
  destruct (_ || negb _); [done|]. injection Hl as <-. by apply lexical_app.
Qed.

(** C31. Product workspaces are isolated, whatever a path says.  What the access policy takes a path of a space for
    is the very file the text denotes from the root of that space, in normal form: no [..]
    is left in it that the operating system would still resolve; it lies in that space; and it lies in
    the space of another tenant or product, or in the other space, under no circumstances,
    whatever the deployment root. *)
Theorem workspaces_are_isolated root t p t' p' ps ps' s s' rel target :
  paths_for root t p = inr ps -> paths_for root t' p' = inr ps' ->
  logical_candidate (space_root ps s) rel = inr target ->
  target = denotes (space_root ps s) (portable rel) /\ lexical target = target /\
  is_within (lexical target) (lexical (space_root ps s)) = true /\
  (is_within (lexical target) (lexical (space_root ps' s')) = true -> t = t' /\ s = s' /\ (s = PRODUCT_SPACE -> p = p')).
Proof.
  intros (Ht & Hp & Hs)%paths_for_ok (Ht' & Hp' & Hs')%paths_for_ok. unfold logical_candidate. intros (parts & Hparts & [= <-])%ebind_inr.
  assert (lexical (lexical (space_root ps s) ++ parts) = lexical (space_root ps s) ++ parts) as Hfix.
  { apply lexical_fixed, Forall_app. split; [apply lexical_ordinary|by eapply logical_parts_ordinary]. }
  split; [by rewrite (logical_denotes _ _ _ Hparts)|]. split; [done|]. rewrite Hfix.
  split; [by apply bool_decide_eq_true, prefix_app_r|]. rewrite Hs, Hs', !lexical_app by (destruct s, s'; repeat constructor; done).
  intros [k Hk]%bool_decide_eq_true. rewrite <- !app_assoc in Hk. apply app_inv_head in Hk. destruct s, s'; simpl in Hk; by simplify_eq.
Qed.

(** ** What the channels may write *)

(** C30. A call that the company policy allows on the Feishu channel reads, or it is one of the two
    built-in file tools, not destructive, and every target the file tools and the access
    policy make of its arguments lies beneath a configured writable path of the very space. *)
Theorem feishu_writes_are_confined rules request identity spec arguments :
  rs_channel_id (rq_scope request) = "feishu" -> evaluate rules request identity spec arguments = AUTH_ALLOW -> is_read spec = false ->
  DESTRUCTIVE ∉ ts_effects spec /\ is_builtin_file_write identity spec = true /\
  exists rule configured, rule ∈ rules /\ clean_segments (ru_path rule) = Some configured /\
    forall space rel root, tool_space (default (JStr "product") (obj_get "space" arguments)) = inr space ->
      tool_relative false (default JNull (obj_get "path" arguments)) = inr rel ->
      ru_space rule = match space with PRODUCT_SPACE => "product" | SHARED_SPACE => "shared" end /\
      exists target, logical_candidate root rel = inr target /\ is_within target (lexical root ++ configured) = true.
Proof.
  intros Hch He Hr. unfold evaluate in He. rewrite Hch, Hr in He. rewrite (bool_decide_false ("feishu" = "web")), (bool_decide_true ("feishu" = "feishu")) in He by done.
  simpl in He. case_bool_decide as Hd; [done|]. destruct (is_builtin_file_write identity spec); [|done]. simpl in He.
  destruct (existsb _ rules) eqn:Hex; [|done]. apply existsb_exists in Hex as (rule & Hrule%list_elem_of_In & Hpermits). split_and!; [done..|].
  unfold permits in Hpermits. destruct (negb _) eqn:Hspace; [done|]. apply negb_false_iff, bool_decide_eq_true in Hspace.
  destruct (policy_parts true (JStr (ru_path rule))) as [configured|] eqn:Hconf; [|done].
  destruct (policy_parts false _) as [requested|] eqn:Hreq; [|done]. rewrite policy_agrees in Hconf. apply policy_parts_root in Hreq.
  exists rule, configured. split_and!; [done..|]. intros space rel root Hs Hrel.
  assert (default (JStr "product") (obj_get "space" arguments) = JStr (ru_space rule)) as Heq.
  { unfold tool_space in Hs. by destruct (default (JStr "product") _). }
  split; [rewrite Heq in Hs; unfold tool_space in Hs; repeat case_bool_decide; simplify_eq/=; done|].
  destruct (default JNull (obj_get "path" arguments)) as [| | | |raw| |]; try done. apply tool_agrees in Hrel as (_ & -> & segs & Hsegs & _).
  rewrite policy_agrees, Hsegs in Hreq. injection Hreq as ->. destruct (clean_reads _ _ Hsegs) as (_ & Hl & _).
  exists (lexical root ++ requested). unfold logical_candidate. rewrite logical_portable, Hl. split; [done|].
  apply bool_decide_eq_true, prefix_app. apply orb_true_iff in Hpermits as [->%bool_decide_eq_true|Ht%bool_decide_eq_true]; [apply prefix_nil|].
  rewrite <- Ht. exists (drop (length configured) requested). by rewrite take_drop.
Qed.

(** ** Concrete workspaces *)
Definition demo_paths : WorkspacePaths :=
  MkPaths ["srv"] ["srv"; "tenants"; "acme"] ["srv"; "tenants"; "acme"; "shared"] ["srv"; "tenants"; "acme"; "products"] ["srv"; "tenants"; "acme"; "products"; "crm"].
Lemma demo_paths_for : paths_for ["srv"] "acme" "crm" = inr demo_paths.
Proof. vm_compute. reflexivity. Qed.

Lemma workspaces_are_isolated_witness :
  denotes (space_root demo_paths PRODUCT_SPACE) "a/b.txt" = ["srv"; "tenants"; "acme"; "products"; "crm"; "a"; "b.txt"] /\
  is_within (lexical ["srv"; "tenants"; "acme"; "products"; "crm"; "a"; "b.txt"]) (lexical (space_root demo_paths PRODUCT_SPACE)) = true.
Proof.
  destruct (workspaces_are_isolated ["srv"] "acme" "crm" "acme" "crm" demo_paths demo_paths PRODUCT_SPACE SHARED_SPACE "a/b.txt"
    ["srv"; "tenants"; "acme"; "products"; "crm"; "a"; "b.txt"] demo_paths_for demo_paths_for eq_refl) as (Hd & _ & Hin & _).
  split; [exact (eq_sym Hd)|exact Hin].
Defined.

(** The text [../other/x] denotes a file of another product, and is refused. *)
Example denotes_elsewhere : denotes (space_root demo_paths PRODUCT_SPACE) "../other/x" = ["srv"; "tenants"; "acme"; "products"; "other"; "x"] /\
  logical_candidate (space_root demo_paths PRODUCT_SPACE) "../other/x" = inl WorkspaceAccessDenied.
Proof. vm_compute. split; reflexivity. Qed.

Definition demo_identity : ToolIdentity := MkToolIdentity "suiteharness" "suiteharness.fs.write" "suiteharness.builtin.fs" "1".
Definition demo_spec : ToolSpec := MkToolSpec "suiteharness.fs.write" "Write" {[WRITE]} ∅ [].
Definition demo_request : RunRequest :=
  MkRunRequest "r1" (MkRequestScope (MkScopePath AGENT (Some "acme") (Some "crm") (Some "a1") None) "ann" "feishu" ∅ "run" "" "" None) "g1" (JStr "Write.")
    (MkConversationContext [] false "" "" false) true (MkExecutionBudget 4 5 1 44900000) None.
Definition demo_arguments : list (string * json) := [("path", JStr "notes/a.txt"); ("content", JStr "Hi.")].
Definition demo_rules : list WorkspaceWriteRule := [MkRule "shared" "."; MkRule "product" "notes"].

Lemma demo_allowed : evaluate demo_rules demo_request demo_identity demo_spec demo_arguments = AUTH_ALLOW.
Proof. vm_compute. reflexivity. Qed.
Lemma demo_not_read : is_read demo_spec = false.
Proof. vm_compute. reflexivity. Qed.

Lemma feishu_writes_are_confined_witness : DESTRUCTIVE ∉ ts_effects demo_spec /\ is_builtin_file_write demo_identity demo_spec = true.
Proof.
  destruct (feishu_writes_are_confined demo_rules demo_request demo_identity demo_spec demo_arguments eq_refl demo_allowed demo_not_read) as (Hd & Hb & _).
  split; [exact Hd|exact Hb].
Defined.

(** A file of Linux may be called [..\x]; the policy, which reads the backslash as a separator,
    refuses the directory entry of that name. *)
Lemma backslash_names_are_refused : logical_parts (String "." (String "." (String backslash "x"))) = inl WorkspaceAccessDenied.
Proof. vm_compute. reflexivity. Qed.
End Paths.
