(* ===== verification/SecureFs.v ===== *)
(** * The secure file system backend and the writing file tools ([workspace/secure_fs.py], [tools/workspace.py])

    [SecurePosixWorkspaceFileSystem]: every component of a path is opened relative to
    the directory opened before it; files are replaced through a temporary file.
    The operating system is asked: every system call is a question, its answer an
    error or a value.  [read] and [write] transfer at most what they are asked to.
    [_write] and [_edit] of the file tools run on it. *)
From S2P Require Import Prelude PyText Json Scopes ExecModels Prog WorkspacePaths.
From Stdlib Require Import Ascii.
Open Scope Z_scope.
Open Scope list_scope.

Module SecureFs.
Import Paths.

(** ** System calls *)
Inductive errno : Type := ENOENT | EEXIST | ELOOP | ENOTDIR | EOTHER.
#[global] Instance errno_eq_dec : EqDecision errno.
Proof. solve_decision. Defined.

Inductive file_kind : Type := FILE | DIRECTORY | SYMLINK | OTHER_KIND.
#[global] Instance file_kind_eq_dec : EqDecision file_kind.
Proof. solve_decision. Defined.

(** [st_mode], and [(st_dev, st_ino)] *)
Record file_stat : Type := MkStat { fs_kind : file_kind; fs_identity : Z * Z; fs_size : Z }.

(** What an [except] clause distinguishes; an [OSError] that is a [FileExistsError] or a
    [FileNotFoundError] has that errno. *)
Inductive exc : Type :=
| PathError (e : path_error)
| OSErr (e : errno)
| ToolFileExists  (* the [FileExistsError] with the message of the tool *)
| Exc (e : exn).

Inductive question : Type :=
| QOpenRoot
| QOpenDir (dir_fd : Z) (name : string)
| QOpenFile (dir_fd : Z) (name : string)
| QDup (fd : Z)
| QClose (fd : Z)
| QStatAt (dir_fd : Z) (name : string)
| QFstat (fd : Z)
| QLseek (fd offset : Z)
| QRead (fd size : Z)
| QToken
| QCreate (dir_fd : Z) (name : string)
| QWrite (fd : Z) (data : list ascii)
| QFsync (fd : Z)
| QRename (dir_fd : Z) (src dst : string)
| QLink (dir_fd : Z) (src dst : string)
| QUnlink (dir_fd : Z) (name : string).

Definition ans (q : question) : Type :=
  match q with
  | QOpenRoot | QOpenDir _ _ | QOpenFile _ _ | QDup _ | QCreate _ _ | QWrite _ _ => errno + Z
  | QClose _ | QLseek _ _ | QFsync _ | QRename _ _ _ | QLink _ _ _ | QUnlink _ _ => errno + unit
  | QStatAt _ _ | QFstat _ => errno + file_stat
  | QRead _ _ => errno + list ascii
  | QToken => string
  end%type.

(** ** Raising programs *)
Definition P (A : Type) : Type := prog ans (exc + A).
Definition ret {A : Type} (a : A) : P A := Ret (inr a).
Definition fail {A : Type} (e : exc) : P A := Ret (inl e).
Definition pbind {A B : Type} (m : P A) (k : A -> P B) : P B := bind m (fun r => match r with inl e => Ret (inl e) | inr a => k a end).
Definition of_path {A : Type} (r : path_error + A) : P A := match r with inl e => fail (PathError e) | inr a => ret a end.
(** A call whose [OSError] passes, one whose error is turned into a [WorkspacePathError] *)
Definition os {A : Type} (p : prog ans (errno + A)) : P A := bind p (fun a => Ret (match a with inl e => inl (OSErr e) | inr v => inr v end)).
Definition path_os {A : Type} (p : prog ans (errno + A)) : P A :=
  bind p (fun a => Ret (match a with inl _ => inl (PathError WorkspacePathError) | inr v => inr v end)).
(** [try: m finally: f] *)
Definition finally {A : Type} (m : P A) (f : P unit) : P A := bind m (fun r => bind f (fun r' => Ret (match r' with inl e => inl e | inr _ => r end))).

Notation "'go' x <- m 'in' k" := (pbind m (fun x => k)) (at level 10, x pattern, m at level 100, k at level 200).

(** ** Directories *)

(** The loop of [_open_root] and its siblings: what [descriptor] is when it ends, and how *)
Fixpoint descend (fd : Z) (parts : list string) : prog ans (Z * (exc + unit)) :=
  match parts with
  | [] => Ret (fd, inr tt)
  | part :: parts =>
      bind (ask (QOpenDir fd part)) (fun a =>
        match a with
        | inl _ => Ret (fd, inl (PathError WorkspacePathError))
        | inr child => bind (ask (QClose fd)) (fun c => match c with inl e => Ret (fd, inl (OSErr e)) | inr _ => descend child parts end)
        end)
  end.

(** [try: for part in parts: ...; yield descriptor finally: os.close(descriptor)] *)
Definition walk {A : Type} (fd : Z) (parts : list string) (body : Z -> P A) : P A :=
  bind (descend fd parts) (fun r =>
    finally (match r.2 with inl e => fail e | inr _ => body r.1 end) (os (ask (QClose r.1)))).

(** [_open_root] *)
Definition open_root {A : Type} (root : path) (body : Z -> P A) : P A :=
  if existsb odd_part root then fail (PathError WorkspacePathError)
  else go fd <- os (ask QOpenRoot) in walk fd root body.

(** [_open_directory] and [_open_parent] *)
Definition open_directory {A : Type} (root : path) (relative_path : string) (body : Z -> P A) : P A :=
  go parts <- of_path (secure_segments true relative_path) in
  open_root root (fun root_fd => go fd <- os (ask (QDup root_fd)) in walk fd parts body).

Definition open_parent {A : Type} (root : path) (relative_path : string) (body : Z -> string -> P A) : P A :=
  go parts <- of_path (secure_segments false relative_path) in
  open_root root (fun root_fd => go fd <- os (ask (QDup root_fd)) in walk fd (removelast parts) (fun fd => body fd (List.last parts ""))).

(** [stat] *)
Definition stat (root : path) (relative_path : string) : P (file_kind * option Z) :=
  go parts <- of_path (secure_segments true relative_path) in
  go snapshot <- (if bool_decide (parts = []) then open_root root (fun fd => os (ask (QFstat fd)))
    else bind (open_parent root relative_path (fun fd leaf => os (ask (QStatAt fd leaf))))
      (fun r => Ret (match r with inl (OSErr _) => inl (PathError WorkspacePathError) | r => r end))) in
  ret (fs_kind snapshot, if bool_decide (fs_kind snapshot = FILE) then Some (fs_size snapshot) else None).

(** ** Reading *)
Definition chunk_size : Z := 64 * 1024.

(** [while remaining: ...] *)
Fixpoint read_loop (fuel : nat) (fd remaining : Z) (content : list ascii) : P (list ascii) :=
  match fuel with
  | O => if remaining =? 0 then ret content else fail (Exc OutOfFuel)
  | S fuel =>
      if remaining =? 0 then ret content
      else
        let size := Z.min remaining chunk_size in
        go answer <- os (ask (QRead fd size)) in
        let chunk := take (Z.to_nat size) answer in
        if bool_decide (chunk = []) then ret content
        else read_loop fuel fd (remaining - Z.of_nat (length chunk)) (content ++ chunk)
  end.

(** [_read_at] *)
Definition read_at (parent_fd : Z) (leaf : string) (max_bytes offset : Z) : P (list ascii * (Z * Z)) :=
  go fd <- path_os (ask (QOpenFile parent_fd leaf)) in
  finally
    (go snapshot <- os (ask (QFstat fd)) in
     if negb (bool_decide (fs_kind snapshot = FILE)) then fail (Exc ValueError)
     else if offset <? 0 then fail (Exc ValueError)
     else
       go _ <- os (ask (QLseek fd offset)) in
       go content <- read_loop (Z.to_nat (max_bytes + 1)) fd (max_bytes + 1) [] in
       ret (content, fs_identity snapshot))
    (os (ask (QClose fd))).

Definition read_file (root : path) (relative_path : string) (max_bytes offset : Z) : P (list ascii) :=
  open_parent root relative_path (fun fd leaf => go r <- read_at fd leaf max_bytes offset in ret r.1).

(** ** Writing *)

(** [_write_all]: a write of nothing is an [OSError] without errno. *)
Fixpoint write_all (fuel : nat) (fd : Z) (rest : list ascii) : P unit :=
  match rest, fuel with
  | [], _ => ret tt
  | _, O => fail (Exc OutOfFuel)
  | _, S fuel =>
      go written <- os (ask (QWrite fd rest)) in
      if written <=? 0 then fail (OSErr EOTHER) else write_all fuel fd (drop (Z.to_nat written) rest)
  end.

(** [_create_temporary] *)
Fixpoint create_temporary (attempts : nat) (parent_fd : Z) : P (Z * string) :=
  match attempts with
  | O => fail (PathError WorkspacePathError)
  | S attempts =>
      bind (ask QToken) (fun token =>
        let name := ".suiteharness-write-" +:+ token in
        bind (ask (QCreate parent_fd name)) (fun a =>
          match a with
          | inl EEXIST => create_temporary attempts parent_fd
          | inl e => fail (OSErr e)
          | inr fd => ret (fd, name)
          end))
  end.

(** The checks of an overwriting write *)
Definition check_existing (parent_fd : Z) (leaf : string) (overwrite : bool) (expected_identity : option (Z * Z)) : P unit :=
  if overwrite then
    bind (ask (QStatAt parent_fd leaf)) (fun a =>
      match a with
      | inl ENOENT => ret tt
      | inl e => fail (OSErr e)
      | inr existing =>
          if negb (bool_decide (fs_kind existing = FILE)) then fail (Exc ValueError)
          else
            match expected_identity with
            | Some i => if bool_decide (fs_identity existing = i) then ret tt else fail (PathError WorkspacePathError)
            | None => ret tt
            end
      end)
  else ret tt.

(** The [try] block of [_atomic_write_at]: [temporary_exists] when it ends, and how *)
Definition publish (parent_fd fd : Z) (temporary leaf : string) (content : list ascii) (overwrite : bool) : prog ans (bool * (exc + unit)) :=
  bind (finally (go _ <- write_all (length content) fd content in os (ask (QFsync fd))) (os (ask (QClose fd)))) (fun r =>
    match r with
    | inl e => Ret (true, inl e)
    | inr _ =>
        if overwrite then
          bind (ask (QRename parent_fd temporary leaf)) (fun a =>
            match a with
            | inl e => Ret (true, inl (OSErr e))
            | inr _ => bind (os (ask (QFsync parent_fd))) (fun r => Ret (false, r))
            end)
        else
          bind (ask (QLink parent_fd temporary leaf)) (fun a =>
            match a with
            | inl e => Ret (true, inl (OSErr e))
            | inr _ =>
                bind (ask (QUnlink parent_fd temporary)) (fun a =>
                  match a with
                  | inl e => Ret (true, inl (OSErr e))
                  | inr _ => bind (os (ask (QFsync parent_fd))) (fun r => Ret (false, r))
                  end)
            end)
    end).

(** The [except] clauses *)
Definition write_error (e : exc) : exc :=
  match e with OSErr EEXIST => ToolFileExists | OSErr _ => PathError WorkspacePathError | e => e end.

(** [finally: if temporary_exists: ...] *)
Definition remove_temporary (parent_fd : Z) (temporary : string) : P unit :=
  bind (ask (QUnlink parent_fd temporary)) (fun a =>
    match a with inl ENOENT => ret tt | inl e => fail (OSErr e) | inr _ => ret tt end).

(** [_atomic_write_at] *)
Definition atomic_write_at (parent_fd : Z) (leaf : string) (content : list ascii) (overwrite : bool) (expected_identity : option (Z * Z)) : P unit :=
  go _ <- check_existing parent_fd leaf overwrite expected_identity in
  go ft <- create_temporary 32 parent_fd in
  bind (publish parent_fd ft.1 ft.2 leaf content overwrite) (fun r =>
    finally (Ret (match r.2 with inl e => inl (write_error e) | inr v => inr v end))
      (if r.1 then remove_temporary parent_fd ft.2 else ret tt)).

Definition write_file (root : path) (relative_path : string) (content : list ascii) (overwrite : bool) : P unit :=
  open_parent root relative_path (fun fd leaf => atomic_write_at fd leaf content overwrite None).

(** [transform_file] *)
Definition transform_file {A : Type} (root : path) (relative_path : string) (max_read_bytes max_write_bytes : Z)
    (transform : list ascii -> exc + (list ascii * A)) : P A :=
  open_parent root relative_path (fun fd leaf =>
    go r <- read_at fd leaf max_read_bytes 0 in
    let '(content, identity) := r in
    if max_read_bytes <? Z.of_nat (length content) then fail (Exc ValueError)
    else
      match transform content with
      | inl e => fail e
      | inr (updated, result) =>
          if max_write_bytes <? Z.of_nat (length updated) then fail (Exc ValueError)
          else go _ <- atomic_write_at fd leaf updated true (Some identity) in ret result
      end).
End SecureFs.
