(* ===== verification/SecureFsProps.v ===== *)
(** * What every file operation of the secure backend satisfies

    Against arbitrary answers of the operating system: where each system call acts,
    when a file is replaced and with what, and that descriptors are closed.
    The contract of the system - a new descriptor is not one that is open, and closing
    succeeds - is the predicate [os_ok] of the history. *)
From S2P Require Import Prelude PyText Json Scopes ExecModels Prog WorkspacePaths SecureFs.
From Stdlib Require Import Ascii.
Open Scope Z_scope.
Open Scope list_scope.

Module SecureFsProps.
Import Paths SecureFs.

Abbreviation ev := (event ans).
Abbreviation hist := (list ev).

(** ** The state of the system, as far as the history tells *)

(** What a descriptor stands for *)
Inductive place : Type :=
| Dir (p : path)
| Reading (p : path)
| Temp (p : path) (name : string).

Definition dir_path (o : option place) : path := match o with Some (Dir p) => p | _ => [] end.

Fixpoint fds (h : hist) : gmap Z place :=
  match h with
  | [] => ∅
  | existT q a :: h =>
      let m := fds h in
      match q, a with
      | QOpenRoot, inr x => <[x := Dir []]> m
      | QOpenDir d n, inr x => <[x := Dir (dir_path (m !! d) ++ [n])]> m
      | QDup d, inr x => <[x := Dir (dir_path (m !! d))]> m
      | QOpenFile d n, inr x => <[x := Reading (dir_path (m !! d) ++ [n])]> m
      | QCreate d n, inr x => <[x := Temp (dir_path (m !! d)) n]> m
      | QClose x, inr _ => delete x m
      | _, _ => m
      end
  end.

Definition opens (e : ev) : option Z :=
  let 'existT q a := e in
  match q, a with
  | QOpenRoot, inr x | QOpenDir _ _, inr x | QDup _, inr x | QOpenFile _ _, inr x | QCreate _ _, inr x => Some x
  | _, _ => None
  end.

Definition failed_close (e : ev) : Prop := let 'existT q a := e in match q, a with QClose _, inl _ => True | _, _ => False end.

Fixpoint os_ok (h : hist) : Prop :=
  match h with
  | [] => True
  | e :: h => os_ok h /\ ~ failed_close e /\ match opens e with Some x => fds h !! x = None | None => True end
  end.

(** What was written to the temporary files, and whether it was synced since *)
Fixpoint files (h : hist) : gmap string (list ascii * bool) :=
  match h with
  | [] => ∅
  | existT q a :: h =>
      let m := files h in
      match q, a with
      | QCreate _ n, inr _ => <[n := ([], false)]> m
      | QWrite x data, inr k =>
          match fds h !! x with
          | Some (Temp _ n) => alter (fun c => (c.1 ++ take (Z.to_nat k) data, false)) n m
          | _ => m
          end
      | QFsync x, inr _ => match fds h !! x with Some (Temp _ n) => alter (fun c => (c.1, true)) n m | _ => m end
      | _, _ => m
      end
  end.

Section Operation.
Variables (root parent : path) (leaf : string) (overwrite : bool) (intended : list ascii -> Prop).

Definition at_parent (m : gmap Z place) (d : Z) : Prop := m !! d = Some (Dir (root ++ parent)).

Definition temporary_name (n : string) : Prop := exists token, n = ".suiteharness-write-" +:+ token.

(** A file may take the place of the target: it has the whole intended content, synced, and is not open. *)
Definition complete (h : hist) (n : string) : Prop :=
  exists c, files h !! n = Some (c, true) /\ intended c /\ forall x p, fds h !! x <> Some (Temp p n).

(** What a system call may be asked after the history [h] *)
Definition call_ok (h : hist) (q : question) : Prop :=
  let m := fds h in
  match q with
  | QOpenRoot | QToken => True
  | QOpenDir d n => exists p, m !! d = Some (Dir p) /\ (p ++ [n]) `prefix_of` (root ++ parent)
  | QDup d => m !! d = Some (Dir root)
  | QOpenFile d n | QStatAt d n => at_parent m d /\ n = leaf
  | QFstat x | QLseek x _ | QRead x _ => m !! x = Some (Reading (root ++ parent ++ [leaf]))
  | QCreate d n => at_parent m d /\ temporary_name n
  | QWrite x _ => exists n, m !! x = Some (Temp (root ++ parent) n) /\ temporary_name n
  | QFsync x => at_parent m x \/ exists n, m !! x = Some (Temp (root ++ parent) n)
  | QRename d s n => at_parent m d /\ n = leaf /\ overwrite = true /\ temporary_name s /\ complete h s
  | QLink d s n => at_parent m d /\ n = leaf /\ overwrite = false /\ temporary_name s /\ complete h s
  | QUnlink d n => at_parent m d /\ temporary_name n /\ is_Some (files h !! n)
  | QClose x => is_Some (m !! x)
  end.

Definition fs_guard (h : hist) (e : ev) : Prop := os_ok h -> call_ok h (projT1 e).

Definition pwp {A : Type} (m : P A) (h : hist) (R : exc + A -> hist -> Prop) : Prop := wp fs_guard m h R (fun _ _ => False).

Lemma pwp_bind {A B : Type} (m : P A) (k : A -> P B) h (R : exc + B -> hist -> Prop) :
  pwp m h (fun r h' => match r with inl e => R (inl e) h' | inr a => pwp (k a) h' R end) -> pwp (pbind m k) h R.
Proof. intros Hm. apply wp_bind. refine (wp_mono _ _ _ _ _ _ _ _ _ _ _ Hm); [auto| |auto]. intros [e|a] h' Hr; exact Hr. Qed.

Lemma pwp_finally {A : Type} (m : P A) (f : P unit) h (R : exc + A -> hist -> Prop) :
  pwp m h (fun r h' => pwp f h' (fun r' h2 => R (match r' with inl e => inl e | inr _ => r end) h2)) -> pwp (finally m f) h R.
Proof. intros Hm. apply wp_bind. refine (wp_mono _ _ _ _ _ _ _ _ _ _ _ Hm); [auto| |auto]. intros r h' Hf. apply wp_bind. refine (wp_mono _ _ _ _ _ _ _ _ _ _ _ Hf); [auto| |auto]. auto. Qed.

Lemma pwp_mono {A : Type} (m : P A) h (R R' : exc + A -> hist -> Prop) : (forall r h', R r h' -> R' r h') -> pwp m h R -> pwp m h R'.
Proof. intros HR. apply wp_mono; auto. Qed.

Lemma pwp_ask_os {A : Type} q (f : ans q -> exc + A) h (R : exc + A -> hist -> Prop) :
  (os_ok h -> call_ok h q) -> (forall a, R (f a) ((q ~> a) :: h)) -> pwp (bind (ask q) (fun a => Ret (f a))) h R.
Proof. intros Hq HR a. split; [exact Hq|]. apply HR. Qed.

(** Going on with an answer *)
Ltac answered := repeat match goal with
  | |- wp ?I (bind (Ret ?v) ?f) ?h ?R ?E => change (wp I (f v) h R E); cbv beta iota
  | |- wp ?I (Ret ?v) ?h ?R ?E => change (R v h); cbv beta iota
  end.

(** ** Walking *)

(** What an operation leaves behind: the descriptors that were open, and [Q] if it returns *)
Definition leaves {A : Type} (h : hist) (m : gmap Z place -> gmap Z place) (Q : A -> hist -> Prop) (r : exc + A) (h' : hist) : Prop :=
  (os_ok h' -> os_ok h /\ fds h' = m (fds h)) /\ (forall a, r = inr a -> Q a h') /\ r <> inl (Exc OutOfFuel).

Definition later {A : Type} (Q : A -> hist -> Prop) : Prop := forall a e h, Q a h -> Q a (e :: h).

Lemma descend_wp fd p parts h : (os_ok h -> fds h !! fd = Some (Dir p)) -> (p ++ parts) `prefix_of` (root ++ parent) ->
  wp fs_guard (descend fd parts) h (fun r h' => (os_ok h' -> os_ok h /\ delete fd (fds h) !! r.1 = None /\
    exists p', fds h' = <[r.1 := Dir p']> (delete fd (fds h)) /\ (r.2 = inr tt -> p' = p ++ parts)) /\ r.2 <> inl (Exc OutOfFuel)) (fun _ _ => False).
Proof.
  revert fd p h. induction parts as [|n parts IH]; intros fd p h Hfd Hpre.
  - split; [|done]. intros Hok. simpl in *. split; [done|]. split; [by rewrite lookup_delete_eq|]. exists p. split; [by rewrite insert_delete_eq, insert_id by auto|by rewrite app_nil_r].
  - simpl. intros a. split.
    { intros Hok. exists p. split; [by apply Hfd|]. etrans; [|exact Hpre]. apply prefix_app, prefix_cons, prefix_nil. }
    destruct a as [e|child]; simpl.
    + split; [|done]. intros [Hok _]. split; [done|]. split; [by rewrite lookup_delete_eq|]. exists p. split; [by rewrite insert_delete_eq, insert_id by auto|done].
    + intros c. split.
      { intros (Hok & _ & Hfresh). simpl in Hfresh |- *. destruct (decide (fd = child)) as [->|Hne]; [by rewrite lookup_insert_eq|].
        rewrite lookup_insert_ne by done. rewrite Hfd by done. by eexists. }
      destruct c as [e|[]]; simpl; [split; [by intros (_ & [] & _)|done]|].
      (* the chain goes on from [child] *)
      assert (os_ok ((QClose fd ~> inr tt) :: (QOpenDir fd n ~> inr child) :: h) -> os_ok h /\ fds h !! fd = Some (Dir p) /\ fd <> child /\ fds h !! child = None) as Hkeep.
      { intros ((Hok & _ & Hfresh) & _). simpl in Hfresh. pose proof (Hfd Hok) as Hp. split_and!; [done..| |done]. intros ->. congruence. }
      refine (wp_mono _ _ _ _ _ _ _ _ _ _ _ (IH child (p ++ [n]) _ _ _)); [auto| |auto| |by rewrite <- app_assoc].
      * intros r h' [Hr Hf]. split; [|done]. intros Hok'. destruct (Hr Hok') as (Hok & Hnone & p' & Hfds & Hp'). destruct (Hkeep Hok) as (Hok0 & Hp & Hne & Hfresh).
        simpl in Hnone, Hfds. rewrite Hp in Hnone, Hfds. simpl in Hnone, Hfds.
        assert (delete child (delete fd (<[child:=Dir (p ++ [n])]> (fds h))) = delete fd (fds h)) as Heq.
        { rewrite delete_insert_ne by done. by rewrite delete_insert_id by (by rewrite lookup_delete_ne). }
        rewrite Heq in Hnone, Hfds. split; [done|]. split; [done|]. exists p'. split; [done|]. intros Hr2. rewrite (Hp' Hr2), <- app_assoc. done.
      * intros Hok. destruct (Hkeep Hok) as (_ & Hp & Hne & _). simpl. rewrite Hp. simpl. rewrite lookup_delete_ne, lookup_insert_eq by done. done.
Qed.

Lemma descriptor_close_wp {A : Type} fd (r : exc + A) (Q : A -> hist -> Prop) h : later Q -> (os_ok h -> is_Some (fds h !! fd)) ->
  (forall a, r = inr a -> Q a h) -> r <> inl (Exc OutOfFuel) ->
  pwp (finally (Ret r) (os (ask (QClose fd)))) h (leaves h (delete fd) Q).
Proof.
  intros HQ Hfd Hr Hf c. split; [exact Hfd|]. destruct c as [e|[]]; simpl.
  - split; [by intros (_ & [] & _)|done].
  - split; [intros (Hok & _); done|]. split; [|done]. intros a Ha. apply HQ, Hr, Ha.
Qed.

Lemma walk_wp {A : Type} fd p parts (body : Z -> P A) (Q : A -> hist -> Prop) h : later Q ->
  (os_ok h -> fds h !! fd = Some (Dir p)) -> (p ++ parts) `prefix_of` (root ++ parent) ->
  (forall fd' h', (os_ok h' -> os_ok h /\ delete fd (fds h) !! fd' = None /\ fds h' = <[fd' := Dir (p ++ parts)]> (delete fd (fds h))) ->
     pwp (body fd') h' (leaves h' id Q)) ->
  pwp (walk fd parts body) h (leaves h (delete fd) Q).
Proof.
  intros HQ Hfd Hpre Hbody. unfold walk. apply wp_bind.
  refine (wp_mono _ _ _ _ _ _ _ _ _ _ _ (descend_wp fd p parts h Hfd Hpre)); [auto| |auto]. intros [fd' r] h' [Hr Hrf]. simpl in Hr, Hrf |- *.
  assert (forall h2 (m : P A), (os_ok h2 -> os_ok h' /\ fds h2 = fds h') -> forall r : exc + A, (forall a, r = inr a -> Q a h2) -> r <> inl (Exc OutOfFuel) ->
    pwp (finally (Ret r) (os (ask (QClose fd')))) h2 (leaves h (delete fd) Q)) as Hclose.
  { intros h2 _ H2 r2 Hr2 Hf2. refine (pwp_mono _ _ _ _ _ (descriptor_close_wp fd' r2 Q h2 HQ _ Hr2 Hf2)).
    - intros r3 h3 (H3 & HQ3 & Hf3). split; [|done]. intros Hok3. destruct (H3 Hok3) as [Hok2 ->]. destruct (H2 Hok2) as [Hok' ->].
      destruct (Hr Hok') as (Hok & Hnone & p' & -> & _). split; [done|]. by rewrite delete_insert_id.
    - intros Hok2. destruct (H2 Hok2) as [Hok' ->]. destruct (Hr Hok') as (_ & _ & p' & -> & _). rewrite lookup_insert_eq. by eexists. }
  destruct r as [e|[]]; [apply (Hclose h' (fail e)); [done|done|congruence]|]. apply pwp_finally.
  refine (pwp_mono _ _ _ _ _ (Hbody fd' h' _)).
  - intros r2 h2 (H2 & HQ2 & Hf2). specialize (Hclose h2 (body fd') H2 r2 HQ2 Hf2). unfold finally, pwp in Hclose. simpl in Hclose.
    unfold pwp, os. simpl. exact Hclose.
  - intros Hok'. destruct (Hr Hok') as (Hok & Hnone & p' & Hf & Hp'). split_and!; [done..|]. by rewrite Hf, (Hp' eq_refl).
Qed.

Lemma open_root_wp {A : Type} (body : Z -> P A) (Q : A -> hist -> Prop) h : later Q ->
  (forall fd' h', (os_ok h' -> os_ok h /\ fds h !! fd' = None /\ fds h' = <[fd' := Dir root]> (fds h)) -> pwp (body fd') h' (leaves h' id Q)) ->
  pwp (open_root root body) h (leaves h id Q).
Proof.
  intros HQ Hbody. unfold open_root. destruct (existsb odd_part root); [by split|].
  apply pwp_bind. intros a. split; [done|]. destruct a as [e|fd]; simpl; [by split; [intros (? & _)|]|].
  refine (pwp_mono _ _ _ _ _ (walk_wp fd [] root body Q _ HQ _ _ _)).
  - intros r h' (Hr & HQ'). split; [|done]. intros Hok. destruct (Hr Hok) as [(Hok0 & _ & Hfresh) ->]. simpl in Hfresh |- *. split; [done|].
    by rewrite delete_insert_id.
  - intros _. simpl. by rewrite lookup_insert_eq.
  - simpl. apply prefix_app_r. done.
  - intros fd' h' Hh'. apply Hbody. intros Hok. destruct (Hh' Hok) as ((Hok0 & _ & Hfresh) & Hn & ->). simpl in Hfresh, Hn |- *.
    rewrite delete_insert_id in Hn |- * by done. done.
Qed.

Definition dirs_only (m : gmap Z place) : Prop := forall x v, m !! x = Some v -> exists p, v = Dir p.

Lemma open_parent_wp {A : Type} relative_path (body : Z -> string -> P A) (Q : A -> hist -> Prop) :
  later Q -> secure_segments false relative_path = inr (parent ++ [leaf]) ->
  (forall fd h', (os_ok h' -> at_parent (fds h') fd /\ dirs_only (fds h')) -> pwp (body fd leaf) h' (leaves h' id Q)) ->
  pwp (open_parent root relative_path body) [] (leaves [] id Q).
Proof.
  intros HQ Hseg Hbody. unfold open_parent. rewrite Hseg. simpl. apply pwp_bind. simpl. apply open_root_wp; [done|].
  intros root_fd h' Hh'. apply pwp_bind. rewrite removelast_last, last_last. intros a. split.
  { intros Hok. destruct (Hh' Hok) as (_ & _ & Hf). simpl. by rewrite Hf, lookup_insert_eq. }
  destruct a as [e|fd]; [by split; [intros (? & _)|]|].
  assert (os_ok ((QDup root_fd ~> inr fd : ev) :: h') -> os_ok h' /\ fds h' !! fd = None /\ fds ((QDup root_fd ~> inr fd : ev) :: h') = <[fd := Dir root]> (fds h') /\
    fds h' = <[root_fd := Dir root]> ∅) as Hdup.
  { intros (Hok & _ & Hfresh). simpl in Hfresh. destruct (Hh' Hok) as (_ & _ & Hf). split_and!; [done..| |done]. simpl. by rewrite Hf, lookup_insert_eq. }
  refine (pwp_mono _ _ _ _ _ (walk_wp fd root parent (fun fd => body fd leaf) Q _ HQ _ _ _)); [..|done|].
  - intros r h2 [Hr HQ']. split; [|done]. intros Hok. destruct (Hr Hok) as [Hok1 ->]. destruct (Hdup Hok1) as (Hok' & Hn & Heq & _). split; [done|].
    etrans; [exact (f_equal (delete fd) Heq)|]. by apply delete_insert_id.
  - intros Hok. destruct (Hdup Hok) as (_ & _ & Heq & _). etrans; [exact (f_equal (lookup fd) Heq)|]. apply lookup_insert_eq.
  - intros fd' h2 Hh2. apply Hbody. intros Hok. destruct (Hh2 Hok) as (Hok1 & _ & Hf2). destruct (Hdup Hok1) as (_ & Hn & Heq & Hf).
    rewrite (f_equal (fun m => <[fd' := Dir (root ++ parent)]> (delete fd m)) Heq), Hf in Hf2. rewrite Hf in Hn.
    unfold at_parent. rewrite Hf2. rewrite lookup_insert_eq. split; [done|]. intros x v. rewrite lookup_insert. case_decide; [intros [= <-]; by eexists|].
    rewrite delete_insert_id by done. rewrite lookup_insert. case_decide; [intros [= <-]; by eexists|done].
Qed.

(** ** Reading *)
#[local] Arguments Z.min : simpl never.
#[local] Arguments chunk_size : simpl never.
#[local] Arguments Z.to_nat : simpl never.

Lemma read_loop_wp fuel fd remaining content h : 0 <= remaining <= Z.of_nat fuel ->
  (os_ok h -> fds h !! fd = Some (Reading (root ++ parent ++ [leaf]))) ->
  pwp (read_loop fuel fd remaining content) h (leaves h id (fun _ _ => True)).
Proof.
  revert remaining content h. induction fuel as [|fuel IH]; intros remaining content h Hfuel Hfd; simpl.
  - rewrite (proj2 (Z.eqb_eq _ _)) by lia. done.
  - destruct (remaining =? 0) eqn:Hz; [done|]. apply Z.eqb_neq in Hz.
    apply pwp_bind. intros a. split; [exact Hfd|]. destruct a as [e|answer]; [by split; [intros (? & _)|split]|].
    answered. set (chunk := take (Z.to_nat (Z.min remaining chunk_size)) answer). case_bool_decide as Hnil; [by split; [intros (? & _)|split]|].
    assert (length chunk <= Z.to_nat (Z.min remaining chunk_size))%nat as Hle by (unfold chunk; rewrite length_take; lia).
    assert (length chunk <> 0)%nat as Hpos by (by destruct chunk).
    refine (pwp_mono _ _ _ _ _ (IH _ _ _ _ _)).
    + intros r h' (Hr & _ & Hf). split; [|by split]. intros Hok. by destruct (Hr Hok) as [(Hok0 & _) ->].
    + lia.
    + intros (Hok & _). by apply Hfd.
Qed.

Lemma read_at_wp fd max_bytes offset h : 0 <= max_bytes -> (os_ok h -> at_parent (fds h) fd) ->
  pwp (read_at fd leaf max_bytes offset) h (leaves h id (fun _ _ => True)).
Proof.
  intros Hmax Hfd. unfold read_at. apply pwp_bind. intros a. split; [intros Hok; split; [by apply Hfd|done]|].
  destruct a as [e|x]; [by split; [intros (? & _)|]|].
  assert (os_ok ((QOpenFile fd leaf ~> inr x : ev) :: h) -> os_ok h /\ fds h !! x = None /\
    fds ((QOpenFile fd leaf ~> inr x : ev) :: h) = <[x := Reading (root ++ parent ++ [leaf])]> (fds h)) as Hopen.
  { intros (Hok & _ & Hfresh). split_and!; [done..|]. simpl. rewrite (Hfd Hok). simpl. by rewrite <- app_assoc. }
  assert (os_ok ((QOpenFile fd leaf ~> inr x : ev) :: h) -> fds ((QOpenFile fd leaf ~> inr x : ev) :: h) !! x = Some (Reading (root ++ parent ++ [leaf]))) as Hx.
  { intros Hok. destruct (Hopen Hok) as (_ & _ & ->). apply lookup_insert_eq. }
  apply pwp_finally. refine (pwp_mono _ _ (leaves _ id (fun _ _ => True)) _ _ _).
  - intros r h2 (H2 & _ & Hf2). refine (pwp_mono _ _ _ _ _ (descriptor_close_wp x r (fun _ _ => True) h2 _ _ _ Hf2)); [|done| |done].
    + intros r3 h3 (H3 & _ & Hf3). split; [|done]. intros Hok3. destruct (H3 Hok3) as [Hok2 ->]. destruct (H2 Hok2) as [Hok1 ->].
      destruct (Hopen Hok1) as (Hok & Hn & Heq). split; [done|]. etrans; [exact (f_equal (delete x) Heq)|]. by apply delete_insert_id.
    + intros Hok2. destruct (H2 Hok2) as [Hok1 ->]. eexists. by apply Hx.
  - apply pwp_bind. intros snapshot. split; [exact Hx|]. destruct snapshot as [e|snapshot]; [by split; [intros (? & _)|]|].
    answered. destruct (negb (bool_decide (fs_kind snapshot = FILE))); [by split; [intros (? & _)|]|]. destruct (offset <? 0); [by split; [intros (? & _)|]|].
    apply pwp_bind. intros c. split; [by intros (Hok & _); apply Hx|]. destruct c as [e|[]]; [by split; [intros ((? & _) & _)|]|].
    apply pwp_bind. refine (pwp_mono _ _ _ _ _ (read_loop_wp _ _ _ _ _ _ _)); [|lia|by intros ((Hok & _) & _); apply Hx].
    intros [e|content] h2 (H2 & _ & Hf2); answered; (split; [|split; [done|congruence]]); intros Hok2; destruct (H2 Hok2) as [((Hok & _) & _) ->]; done.
Qed.

(** ** Writing *)

(** The file [name] is being written through [fd], next to the descriptors [m]. *)
Definition writing (m : gmap Z place) (fd : Z) (name : string) (c : list ascii) (h : hist) : Prop :=
  fds h = <[fd := Temp (root ++ parent) name]> m /\ exists b, files h !! name = Some (c, b).

Lemma write_all_wp m fd name fuel rest c h : temporary_name name -> (length rest <= fuel)%nat ->
  (os_ok h -> writing m fd name c h) ->
  pwp (write_all fuel fd rest) h (fun r h' => (os_ok h' -> os_ok h /\ exists c', writing m fd name c' h' /\ (r = inr tt -> c' = c ++ rest)) /\
    r <> inl (Exc OutOfFuel)).
Proof.
  intros Hname. revert rest c h. induction fuel as [|fuel IH]; intros rest c h Hlen Hw.
  - destruct rest; [|simpl in Hlen; lia]. split; [|done]. intros Hok. split; [done|]. exists c. split; [by apply Hw|]. by rewrite app_nil_r.
  - destruct rest as [|x rest].
    { split; [|done]. intros Hok. split; [done|]. exists c. split; [by apply Hw|]. by rewrite app_nil_r. }
    simpl. apply pwp_bind. intros a. split.
    { intros Hok. destruct (Hw Hok) as [Hf _]. exists name. split; [|done]. by rewrite Hf, lookup_insert_eq. }
    assert (forall k : Z, os_ok ((QWrite fd (x :: rest) ~> inr k : ev) :: h) ->
      os_ok h /\ writing m fd name (c ++ take (Z.to_nat k) (x :: rest)) ((QWrite fd (x :: rest) ~> inr k : ev) :: h)) as Hnext.
    { intros k (Hok & _). split; [done|]. destruct (Hw Hok) as [Hf [b Hb]]. split; [exact Hf|]. exists false. simpl. rewrite Hf, lookup_insert_eq.
      by rewrite lookup_alter_eq, Hb. }
    destruct a as [e|k]; answered.
    { split; [|done]. intros (Hok & _). split; [done|]. exists c. by split; [apply Hw|]. }
    destruct (k <=? 0) eqn:Hk; answered.
    { split; [|done]. intros Hok. destruct (Hnext _ Hok) as [Hok0 Hw1]. split; [done|]. by eexists. }
    apply Z.leb_gt in Hk. refine (pwp_mono _ _ _ _ _ (IH (drop (Z.to_nat k) (x :: rest)) (c ++ take (Z.to_nat k) (x :: rest)) _ _ _)).
    + intros r h' [Hr Hf]. split; [|done]. intros Hok. destruct (Hr Hok) as (Hok1 & c' & Hw' & Hc'). destruct (Hnext _ Hok1) as [Hok0 _].
      split; [done|]. exists c'. split; [done|]. intros Hr1. rewrite (Hc' Hr1), <- app_assoc, take_drop. done.
    + rewrite length_drop. simpl in *. lia.
    + intros Hok. by destruct (Hnext _ Hok).
Qed.

Definition replaced (h : hist) : Prop :=
  exists d s, (QRename d s leaf ~> inr tt : ev) ∈ h \/ (QLink d s leaf ~> inr tt : ev) ∈ h.

Lemma replaced_later : later (fun _ : unit => replaced).
Proof. intros _ e h (d & s & Hin). exists d, s. set_solver. Qed.

(** Written, synced and closed *)
Lemma filled_wp m fd name content h : temporary_name name -> (os_ok h -> dirs_only m /\ m !! fd = None) -> intended content ->
  (os_ok h -> writing m fd name [] h) ->
  pwp (finally (go _ <- write_all (length content) fd content in os (ask (QFsync fd))) (os (ask (QClose fd)))) h
    (fun r h' => (os_ok h' -> os_ok h /\ fds h' = m /\ is_Some (files h' !! name) /\ (r = inr tt -> complete h' name)) /\ r <> inl (Exc OutOfFuel)).
Proof.
  intros Hname Hpre Hint Hw. apply pwp_finally.
  assert (forall h2 (r : exc + unit), r <> inl (Exc OutOfFuel) -> (os_ok h2 -> os_ok h /\ exists c, writing m fd name c h2 /\ (r = inr tt -> c = content /\ files h2 !! name = Some (c, true))) ->
    pwp (os (ask (QClose fd))) h2 (fun r' h' => (os_ok h' -> os_ok h /\ fds h' = m /\ is_Some (files h' !! name) /\
      ((match r' with inl e => inl e | inr _ => r end) = inr tt -> complete h' name)) /\ (match r' with inl e => inl e | inr _ => r end) <> inl (Exc OutOfFuel))) as Hclose.
  { intros h2 r Hr H2. intros a. split.
    { intros Hok. destruct (H2 Hok) as (_ & c & [Hf _] & _). simpl. rewrite Hf, lookup_insert_eq. by eexists. }
    destruct a as [e|[]]; answered; (split; [|done]); [by intros (_ & [] & _)|]. intros (Hok2 & _). destruct (H2 Hok2) as (Hok & c & [Hf [b Hb]] & Hc).
    destruct (Hpre Hok) as [Hdirs Hfd]. split; [done|]. assert (fds ((QClose fd ~> inr tt : ev) :: h2) = m) as Hm by (simpl; by rewrite Hf, delete_insert_id).
    split; [exact Hm|]. split; [by eexists|]. intros Hr1. destruct (Hc Hr1) as [-> Hb']. exists content. split; [exact Hb'|]. split; [done|].
    intros x p Hx. pose proof (eq_trans (eq_sym (f_equal (lookup x) Hm)) Hx) as Hx'. by destruct (Hdirs _ _ Hx'). }
  apply pwp_bind. refine (pwp_mono _ _ _ _ _ (write_all_wp m fd name _ content [] h Hname _ Hw)); [|done].
  intros [e|[]] h1 [H1 Hf1]; answered.
  - apply Hclose; [done|]. intros Hok1. destruct (H1 Hok1) as (Hok & c & Hc & _). split; [done|]. by exists c.
  - intros a. split.
    { intros Hok1. destruct (H1 Hok1) as (_ & c & [Hf _] & _). right. exists name. by rewrite Hf, lookup_insert_eq. }
    destruct a as [e|[]]; answered; (apply Hclose; [done|]); intros (Hok1 & _); destruct (H1 Hok1) as (Hok & c & [Hf [b Hb]] & Hc); (split; [done|]); exists c.
    + split; [|done]. split; [exact Hf|]. by exists b.
    + assert (files ((QFsync fd ~> inr tt : ev) :: h1) !! name = Some (c, true)) as Hs.
      { simpl. by rewrite Hf, lookup_insert_eq, lookup_alter_eq, Hb. }
      split; [split; [exact Hf|by eexists]|]. intros _. split; [by apply Hc|done].
Qed.

(** A step that touches neither descriptors nor temporary files *)
Lemma publish_wp m pfd fd name content h : temporary_name name -> (os_ok h -> at_parent m pfd /\ dirs_only m /\ m !! fd = None) -> intended content ->
  (os_ok h -> writing m fd name [] h) ->
  wp fs_guard (publish pfd fd name leaf content overwrite) h
    (fun r h' => (os_ok h' -> os_ok h /\ fds h' = m /\ is_Some (files h' !! name)) /\ (r.2 = inr tt -> replaced h') /\ r.2 <> inl (Exc OutOfFuel)) (fun _ _ => False).
Proof.
  intros Hname Hpre Hint Hw. unfold publish. apply wp_bind.
  refine (wp_mono _ _ _ _ _ _ _ _ _ _ _ (filled_wp m fd name content h Hname (fun Hok => proj2 (Hpre Hok)) Hint Hw)); [auto| |auto].
  intros [e|[]] h1 [H1 Hf1]; [split; [by intros Hok; destruct (H1 Hok) as (? & ? & ? & _)|]; split; [done|simpl; congruence]|].
  assert (forall h2, (os_ok h2 -> os_ok h1 /\ fds h2 = m /\ files h2 = files h1) -> replaced h2 ->
    wp fs_guard (bind (os (ask (QFsync pfd))) (fun r => Ret (false, r))) h2
      (fun r h' => (os_ok h' -> os_ok h /\ fds h' = m /\ is_Some (files h' !! name)) /\ (r.2 = inr tt -> replaced h') /\ r.2 <> inl (Exc OutOfFuel)) (fun _ _ => False)) as Hsync.
  { intros h2 H2 Hrep a. split.
    { intros Hok. left. destruct (H2 Hok) as (Hok1 & -> & _). destruct (H1 Hok1) as (Hok0 & _). by apply Hpre. }
    destruct a as [e|[]]; answered; (split; [|split; [intros _; by apply (replaced_later tt)|done]]); intros (Hok2 & _);
      destruct (H2 Hok2) as (Hok1 & Hm & Hfi); destruct (H1 Hok1) as (Hok & _ & Hs & _); (split; [done|]); (split; [exact Hm|]); simpl; rewrite ?Hm, ?Hfi.
    - done.
    - destruct (m !! pfd) as [[]|] eqn:E; rewrite ?Hfi; try done. destruct (Hpre Hok) as (_ & Hdirs & _). by destruct (Hdirs _ _ E). }
  destruct overwrite eqn:Hover.
  - intros a. split.
    { intros Hok. destruct (H1 Hok) as (Hok0 & Hm & _ & Hc). unfold call_ok. rewrite Hm. split_and!; [by apply Hpre|done..|by apply Hc]. }
    destruct a as [e|[]]; answered.
    + split; [|done]. intros (Hok1 & _). by destruct (H1 Hok1) as (? & ? & ? & _).
    + apply Hsync; [|exists pfd, name; left; by left]. intros (Hok1 & _). by destruct (H1 Hok1) as (? & ? & _).
  - intros a. split.
    { intros Hok. destruct (H1 Hok) as (Hok0 & Hm & _ & Hc). unfold call_ok. rewrite Hm. split_and!; [by apply Hpre|done..|by apply Hc]. }
    destruct a as [e|[]]; answered; [split; [intros (Hok1 & _); by destruct (H1 Hok1) as (? & ? & ? & _)|done]|].
    intros a. split.
    { intros (Hok1 & _). destruct (H1 Hok1) as (Hok0 & Hm & Hs & _). unfold call_ok. split_and!; [|done|exact Hs]. unfold at_parent. simpl. rewrite Hm. by apply Hpre. }
    destruct a as [e|[]]; answered; [split; [intros ((Hok1 & _) & _); by destruct (H1 Hok1) as (? & ? & ? & _)|done]|].
    apply Hsync; [|exists pfd, name; right; set_solver]. intros ((Hok1 & _) & _). by destruct (H1 Hok1) as (? & ? & _).
Qed.

Lemma atomic_write_wp pfd content expected h : intended content -> (os_ok h -> at_parent (fds h) pfd /\ dirs_only (fds h)) ->
  pwp (atomic_write_at pfd leaf content overwrite expected) h (leaves h id (fun _ => replaced)).
Proof.
  intros Hint Hpre. unfold atomic_write_at. apply pwp_bind.
  cut (forall h1, (os_ok h1 -> os_ok h /\ fds h1 = fds h) ->
    pwp (go ft <- create_temporary 32 pfd in
         bind (publish pfd ft.1 ft.2 leaf content overwrite) (fun r =>
           finally (Ret (match r.2 with inl e => inl (write_error e) | inr v => inr v end)) (if r.1 then remove_temporary pfd ft.2 else ret tt)))
      h1 (leaves h id (fun _ => replaced))).
  { intros Hrest. unfold check_existing. destruct overwrite; [|by apply Hrest]. intros a. split; [intros Hok; split; [by apply Hpre|done]|].
    assert (os_ok ((QStatAt pfd leaf ~> a : ev) :: h) -> os_ok h /\ fds ((QStatAt pfd leaf ~> a : ev) :: h) = fds h) as Hst by (by intros (Hok & _); split; [|destruct a]).
    assert (forall e : exc, e <> Exc OutOfFuel -> leaves (A := unit) h id (fun _ => replaced) (inl e) ((QStatAt pfd leaf ~> a) :: h)) as Hleave.
    { intros e He. split; [exact Hst|]. split; [done|congruence]. }
    destruct a as [[]|existing]; answered; try (by apply Hleave); [by apply Hrest|].
    destruct (negb (bool_decide (fs_kind existing = FILE))); answered; [by apply Hleave|].
    destruct expected as [i|]; [case_bool_decide|]; answered; try (by apply Hleave); by apply Hrest. }
  intros h1 H1. apply pwp_bind.
  assert (forall n h2, (os_ok h2 -> os_ok h /\ fds h2 = fds h) -> pwp (create_temporary n pfd) h2 (fun r h' =>
    match r with
    | inl e => leaves (A := unit) h id (fun _ => replaced) (inl e) h'
    | inr (fd, name) => temporary_name name /\ (os_ok h' -> os_ok h /\ fds h !! fd = None /\ writing (fds h) fd name [] h')
    end)) as Hcreate.
  { induction n as [|n IH]; intros h2 H2; [by split|]. simpl. intros token. split; [done|]. answered. intros a. split.
    { intros (Hok & _). destruct (H2 Hok) as [Hok0 Hf]. split; [|by exists token]. unfold at_parent. simpl. rewrite Hf. by apply Hpre. }
    destruct a as [[]|fd]; answered; try (split; [|done]; intros ((Hok & _) & _); by apply H2).
    - apply IH. intros ((Hok & _) & _). by apply H2.
    - split; [by exists token|]. intros ((Hok & _) & _ & Hfresh). simpl in Hfresh. destruct (H2 Hok) as [Hok0 Hf]. rewrite Hf in Hfresh. split_and!; [done..|].
      destruct (Hpre Hok0) as [Hp _]. split; simpl; [by rewrite Hf, Hp|]. exists false. by rewrite lookup_insert_eq. }
  refine (pwp_mono _ _ _ _ _ (Hcreate 32%nat h1 H1)). intros [e|[fd name]] h2; [done|]. intros [Hname H2]. simpl.
  apply wp_bind. refine (wp_mono _ _ _ _ _ _ _ _ _ _ _ (publish_wp (fds h) pfd fd name content h2 Hname _ Hint _)); [auto| |auto|..].
  - intros [te r] h3 (H3 & Hrep & Hf3). simpl in Hrep, Hf3 |- *.
    assert (os_ok h3 -> os_ok h /\ fds h3 = fds h) as Hh3.
    { intros Hok3. destruct (H3 Hok3) as (Hok2 & Hm & _). by destruct (H2 Hok2). }
    assert (forall a, match r with inl e => inl (write_error e) | inr v => inr v end = inr a -> replaced h3) as Hr.
    { destruct r as [e|[]]; [done|]. intros [] _. by apply Hrep. }
    assert (match r with inl e => inl (write_error e) | inr v => inr v end <> inl (Exc OutOfFuel) :> exc + unit) as Hf.
    { destruct r as [[| [] | |]|]; simpl in *; congruence. }
    unfold finally. answered. destruct te; answered; [|by destruct (match r with inl e => _ | inr v => _ end)].
    intros a. split.
    { intros Hok3. destruct (H3 Hok3) as (Hok2 & Hm & Hs). destruct (H2 Hok2) as (Hok & _). unfold call_ok. rewrite Hm. split_and!; [by apply Hpre|done..]. }
    assert (os_ok ((QUnlink pfd name ~> a : ev) :: h3) -> os_ok h /\ fds ((QUnlink pfd name ~> a : ev) :: h3) = fds h) as Hh4.
    { intros (Hok3 & _). by destruct (Hh3 Hok3). }
    destruct a as [[]|[]]; answered; (split; [exact Hh4|]); (split; [|done]); try done; intros b Hb; by eapply (replaced_later tt), Hr.
  - intros Hok2. destruct (H2 Hok2) as (Hok & Hfresh & _). by destruct (Hpre Hok).
  - intros Hok2. by apply H2.
Qed.

Lemma write_file_wp relative_path content : secure_segments false relative_path = inr (parent ++ [leaf]) -> intended content ->
  pwp (write_file root relative_path content overwrite) [] (leaves [] id (fun _ => replaced)).
Proof.
  intros Hseg Hint. apply (open_parent_wp _ (fun fd leaf => atomic_write_at fd leaf content overwrite None)); [apply replaced_later|done|].
  intros fd h Hfd. by apply atomic_write_wp.
Qed.

Lemma transform_file_wp {A : Type} relative_path max_read max_write (transform : list ascii -> exc + (list ascii * A)) :
  overwrite = true -> secure_segments false relative_path = inr (parent ++ [leaf]) -> 0 <= max_read ->
  (forall c updated r, transform c = inr (updated, r) -> intended updated) -> (forall c, transform c <> inl (Exc OutOfFuel)) ->
  pwp (transform_file root relative_path max_read max_write transform) [] (leaves [] id (fun r h => replaced h /\ exists c updated, transform c = inr (updated, r))).
Proof.
  intros Hover Hseg Hmax Hint Hfuel. unfold transform_file.
  set (Q := fun (r : A) (h : hist) => replaced h /\ exists c updated, transform c = inr (updated, r)).
  assert (later Q) as HQ by (intros a e h [Hr Hc]; split; [by apply (replaced_later tt)|done]).
  apply (open_parent_wp _ _ Q HQ Hseg). intros fd h Hfd. apply pwp_bind.
  refine (pwp_mono _ _ _ _ _ (read_at_wp fd max_read 0 h Hmax _)); [|by intros Hok; apply Hfd].
  intros [e|[content identity]] h1 (H1 & _ & Hf1); [split; [done|]; split; [done|congruence]|].
  destruct (max_read <? _); answered; [by split|]. destruct (transform content) as [e|[updated r]] eqn:Ht; answered.
  { split; [done|]. split; [done|]. intros [= ->]. by apply (Hfuel content). }
  destruct (max_write <? _); answered; [by split|].
  apply pwp_bind. rewrite <- Hover. refine (pwp_mono _ _ _ _ _ (atomic_write_wp fd updated (Some identity) h1 _ _)).
  - intros [e|[]] h2 (H2 & Hr & Hf2); answered; (split; [intros Hok; destruct (H2 Hok) as [Hok1 ->]; by apply H1|]).
    + split; [done|congruence].
    + split; [|done]. intros a [= <-]. split; [by apply (Hr tt)|by exists content, updated].
  - by eapply Hint.
  - intros Hok. destruct (H1 Hok) as [Hok0 ->]. by apply Hfd.
Qed.
End Operation.
End SecureFsProps.
