(* ===== verification/FileTools.v ===== *)
(** * The writing file tools ([tools/workspace.py])

    [_write] and [_edit] of [WorkspaceFileTools] on the secure backend: which binding a
    call gets, what is checked of its arguments, and the file operation. *)
From S2P Require Import Prelude PyText Json Scopes ExecModels Prog WorkspacePaths SecureFs SecureFsProps.
From Stdlib Require Import Ascii.
Open Scope Z_scope.
Open Scope list_scope.

Module FileTools.
Import Paths SecureFs SecureFsProps.

(** ** Bindings *)
Record WorkspaceToolBinding : Type := MkBinding { tb_paths : WorkspacePaths; tb_access_policy : WorkspaceAccessPolicy }.

(** [MappingWorkspaceBindingResolver]: the channel is [None] in the two-part keys. *)
Definition Bindings : Type := gmap (string * string * option string) WorkspaceToolBinding.

Definition register (items : Bindings) (tenant_id product_id : string) (binding : WorkspaceToolBinding) (channel_id : option string) : res Bindings :=
  match items !! (tenant_id, product_id, channel_id) with
  | Some _ => Raise ValueError
  | None => Ok (<[(tenant_id, product_id, channel_id) := binding]> items)
  end.

Definition resolve (items : Bindings) (scope : RequestScope) : path_error + WorkspaceToolBinding :=
  match items !! (rs_tenant_id scope, rs_product_id scope, Some (rs_channel_id scope)) with
  | Some b => inr b
  | None =>
      match items !! (rs_tenant_id scope, rs_product_id scope, None) with
      | Some b => inr b
      | None => inl WorkspacePathError
      end
  end.

(** The limits the two tools read *)
Record FileToolLimits : Type := MkLimits { max_read_bytes : Z; max_write_bytes : Z }.

(** ** Texts as UTF-8 *)
Definition continuation (c : ascii) : bool := in_range 128 191 c.

(** [content.decode("utf-8")] succeeds. *)
Fixpoint utf8_ok (l : list ascii) : bool :=
  match l with
  | [] => true
  | a :: l =>
      if code a <? 128 then utf8_ok l
      else
        match l with
        | [] => false
        | b :: l =>
            if in_range 194 223 a then continuation b && utf8_ok l
            else
              match l with
              | [] => false
              | c :: l =>
                  if in_range 224 239 a then
                    (if code a =? 224 then in_range 160 191 b else if code a =? 237 then in_range 128 159 b else continuation b) && continuation c && utf8_ok l
                  else
                    match l with
                    | [] => false
                    | d :: l =>
                        in_range 240 244 a && (if code a =? 240 then in_range 144 191 b else if code a =? 244 then in_range 128 143 b else continuation b)
                        && continuation c && continuation d && utf8_ok l
                    end
              end
        end
  end.

Fixpoint starts_with (p l : list ascii) : bool :=
  match p, l with
  | [], _ => true
  | a :: p, b :: l => Ascii.eqb a b && starts_with p l
  | _ :: _, [] => false
  end.

(** [text.count(old)] and [text.replace(old, new)], from the left and without overlap; [skip] bytes of
    the occurrence found last are still to be passed over. *)
Fixpoint count_from (old : list ascii) (skip : nat) (l : list ascii) : Z :=
  match l with
  | [] => 0
  | c :: rest =>
      match skip with
      | S skip => count_from old skip rest
      | O => if starts_with old l then 1 + count_from old (pred (length old)) rest else count_from old 0 rest
      end
  end.

Fixpoint replace_from (old new : list ascii) (skip : nat) (l : list ascii) : list ascii :=
  match l with
  | [] => []
  | c :: rest =>
      match skip with
      | S skip => replace_from old new skip rest
      | O => if starts_with old l then new ++ replace_from old new (pred (length old)) rest else c :: replace_from old new 0 rest
      end
  end.

(** The [transform] of [_edit] *)
Definition edit_transform (old new : string) (expected : Z) (content : list ascii) : exc + (list ascii * Z) :=
  if negb (utf8_ok content) then inl (Exc ValueError)
  else
    let actual := count_from (chars old) 0 content in
    if negb (actual =? expected) then inl (Exc ValueError)
    else inr (replace_from (chars old) (chars new) 0 content, actual).

(** ** The tools *)
Definition space_name (space : WorkspaceSpace) : string := match space with PRODUCT_SPACE => "product" | SHARED_SPACE => "shared" end.

(** ["/".join(parent_parts) if parent_parts else "."] *)
Definition parent_of (relative : string) : string :=
  match removelast (posix_parts relative) with [] => "." | parts => String.concat "/" parts end.

Section Tools.
Context (limits : FileToolLimits) (items : Bindings) (scope : RequestScope) (arguments : list (string * json)).

(** The common beginning *)
Definition opening : path_error + (WorkspaceToolBinding * WorkspaceSpace * string) :=
  try! binding := resolve items scope in
  try! space := tool_space (default (JStr "product") (obj_get "space" arguments)) in
  try! relative := tool_relative false (default JNull (obj_get "path" arguments)) in
  inr (binding, space, relative).

(** [_write] *)
Definition write_tool : P json :=
  go o <- of_path opening in
  let '(binding, space, relative) := o in
  match obj_get "content" arguments with
  | Some (JStr text) =>
      let content := chars text in
      if max_write_bytes limits <? Z.of_nat (length content) then fail (Exc ValueError)
      else
        let root := space_root (tb_paths binding) space in
        go _ <- of_path (authorize_relative (tb_access_policy binding) root relative OP_WRITE) in
        go _ <- of_path (authorize_relative (tb_access_policy binding) root (parent_of relative) OP_WRITE) in
        go _ <- write_file root relative content (bool_decide (obj_get "overwrite" arguments = Some (JBool true))) in
        ret (JObj [("space", JStr (space_name space)); ("path", JStr relative); ("bytes", JInt (Z.of_nat (length content)))])
  | _ => fail (Exc ValueError)
  end.

(** [_edit] *)
Definition edit_tool : P json :=
  go o <- of_path opening in
  let '(binding, space, relative) := o in
  match obj_get "old_text" arguments, obj_get "new_text" arguments, default (JInt 1) (obj_get "expected_replacements" arguments) with
  | Some (JStr old), Some (JStr new), JInt expected =>
      if bool_decide (old = "") || (expected <? 1) then fail (Exc ValueError)
      else
        let root := space_root (tb_paths binding) space in
        go _ <- of_path (authorize_relative (tb_access_policy binding) root relative OP_READ) in
        go _ <- of_path (authorize_relative (tb_access_policy binding) root relative OP_WRITE) in
        go actual <- transform_file root relative (max_read_bytes limits) (max_write_bytes limits) (edit_transform old new expected) in
        ret (JObj [("space", JStr (space_name space)); ("path", JStr relative); ("replacements", JInt actual)])
  | _, _, _ => fail (Exc ValueError)
  end.
End Tools.

(** * Theorems *)

(** ** What an edit does to the text *)
Fixpoint join (sep : list ascii) (pieces : list (list ascii)) : list ascii :=
  match pieces with
  | [] => []
  | [p] => p
  | p :: pieces => p ++ sep ++ join sep pieces
  end.

Lemma starts_with_spec p l : starts_with p l = true <-> exists r, l = p ++ r.
Proof.
  revert l. induction p as [|a p IH]; intros l; simpl; [split; [by exists l|done]|]. destruct l as [|b l]; [split; [done|by intros []]|].
  rewrite andb_true_iff, Ascii.eqb_eq, IH. split; [intros [-> [r ->]]; by exists r|intros [r [= <- ->]]; eauto].
Qed.

Lemma skip_count old n l : (n <= length l)%nat -> count_from old n l = count_from old 0 (drop n l).
Proof. revert l. induction n as [|n IH]; intros l Hn; [by rewrite drop_0|]. destruct l as [|c l]; simpl in *; [lia|]. apply IH. lia. Qed.

Lemma skip_replace old new n l : (n <= length l)%nat -> replace_from old new n l = replace_from old new 0 (drop n l).
Proof. revert l. induction n as [|n IH]; intros l Hn; [by rewrite drop_0|]. destruct l as [|c l]; simpl in *; [lia|]. apply IH. lia. Qed.

(** [text.split(old)]: the text between the occurrences that are found *)
Lemma occurrences old new l : old <> [] -> exists pieces, pieces <> [] /\ l = join old pieces /\ replace_from old new 0 l = join new pieces /\
  Z.of_nat (length pieces) = 1 + count_from old 0 l /\ Forall (fun p => forall u v, p <> u ++ old ++ v) pieces.
Proof.
  intros Hold. induction l as [l IH] using (induction_ltof1 _ (@length ascii)). unfold ltof in IH. destruct l as [|c l].
  - exists [[]]. split_and!; [done..|]. constructor; [|constructor]. intros u v Heq. symmetry in Heq. apply app_eq_nil in Heq as [_ [Hz _]%app_eq_nil]. done.
  - destruct (starts_with old (c :: l)) eqn:Hs.
    + pose proof Hs as Hs'. apply starts_with_spec in Hs as [r Hr]. destruct old as [|a old]; [done|]. simpl in Hr. injection Hr as -> ->.
      destruct (IH r) as (pieces & Hne & Hl & Hrep & Hlen & Hfree); [simpl; rewrite length_app; lia|].
      exists ([] :: pieces). destruct pieces as [|p pieces]; [done|].
      cbn [replace_from count_from]. rewrite Hs'. cbn [pred length]. rewrite skip_replace, skip_count by (rewrite length_app; lia).
      rewrite drop_app_length. split_and!; [done| | | |].
      * rewrite Hl at 1. done.
      * rewrite Hrep. done.
      * simpl length in Hlen |- *. lia.
      * constructor; [|done]. intros u v Heq. symmetry in Heq. by apply app_eq_nil in Heq as [_ [Hz _]%app_eq_nil].
    + destruct (IH l) as (pieces & Hne & Hl & Hrep & Hlen & Hfree); [simpl; lia|]. destruct pieces as [|p pieces]; [done|].
      exists ((c :: p) :: pieces). cbn [replace_from count_from]. rewrite Hs. split_and!; [done| | |done|].
      * rewrite Hl at 1. by destruct pieces.
      * rewrite Hrep. by destruct pieces.
      * apply Forall_cons in Hfree as [Hp Hfree]. constructor; [|done]. intros u v Heq. destruct u as [|x u].
        -- assert (exists rest, join old (p :: pieces) = p ++ rest) as [rest Hrest].
           { destruct pieces; [exists []; by rewrite app_nil_r|by eexists]. }
           enough (starts_with old (c :: l) = true) by congruence. apply starts_with_spec. exists (v ++ rest).
           rewrite Hl, Hrest. change (c :: p ++ rest) with ((c :: p) ++ rest). rewrite Heq. simpl. by rewrite <- app_assoc.
        -- simpl in Heq. injection Heq as -> Heq. by apply (Hp u v).
Qed.

(** An accepted edit replaces exactly the expected occurrences: the text was valid UTF-8 and
    falls into pieces free of the old text with the old text between them, one more than was
    expected to be replaced; the result is the same pieces with the new text between them. *)
Theorem edits_replace_what_was_expected old new expected content updated n : old <> "" ->
  edit_transform old new expected content = inr (updated, n) ->
  utf8_ok content = true /\ n = expected /\
  exists pieces, content = join (chars old) pieces /\ updated = join (chars new) pieces /\ Z.of_nat (length pieces) = expected + 1 /\
    Forall (fun p => forall u v, p <> u ++ chars old ++ v) pieces.
Proof.
  intros Hold. unfold edit_transform. destruct (utf8_ok content); [|done]. simpl. destruct (_ =? expected) eqn:He; [|done]. simpl.
  apply Z.eqb_eq in He. intros [= <- <-]. split; [done|]. split; [done|].
  destruct (occurrences (chars old) (chars new) content) as (pieces & _ & Hc & Hr & Hlen & Hfree); [intros Hz; by destruct old|].
  exists pieces. split_and!; [done..|lia|done].
Qed.

(** ** Where the tools act *)

(** What the arguments of a call name: a space of the binding of the call, and a target in it that
    the access policy lets be written *)
Record names_target (items : Bindings) (scope : RequestScope) (arguments : list (string * json)) (root : path) (segments : list string) : Prop := {
  nt_binding : exists binding space raw, resolve items scope = inr binding /\ tool_space (default (JStr "product") (obj_get "space" arguments)) = inr space /\
    obj_get "path" arguments = Some (JStr raw) /\ clean_segments raw = Some segments /\ root = space_root (tb_paths binding) space /\
    allowed (ap_logical_readable_roots (tb_access_policy binding)) (ap_logical_writable_roots (tb_access_policy binding))
      (ap_allow_delete (tb_access_policy binding)) (lexical root ++ segments) OP_WRITE = true;
  nt_segments : segments <> [];
}.

Lemma opening_ok items scope arguments binding space relative : opening items scope arguments = inr (binding, space, relative) ->
  exists raw segs, resolve items scope = inr binding /\ tool_space (default (JStr "product") (obj_get "space" arguments)) = inr space /\
    obj_get "path" arguments = Some (JStr raw) /\ clean_segments raw = Some segs /\ segs <> [] /\ relative = portable raw.
Proof.
  unfold opening. intros (b & Hb & (s & Hs & (r & Hr & [= <- <- <-])%ebind_inr)%ebind_inr)%ebind_inr.
  destruct (obj_get "path" arguments) as [[| | | |raw| |]|] eqn:Hp; try done. apply tool_agrees in Hr as (_ & -> & segs & Hsegs & Hne).
  exists raw, segs. split_and!; [done..| |done]. intros ->. by discriminate (Hne eq_refl).
Qed.

Lemma authorized_target policy root raw segs op target : clean_segments raw = Some segs ->
  authorize_relative policy root (portable raw) op = inr target ->
  target = lexical root ++ segs /\ allowed (ap_logical_readable_roots policy) (ap_logical_writable_roots policy) (ap_allow_delete policy) target op = true.
Proof.
  intros Hc. destruct (clean_reads _ _ Hc) as (_ & Hl & _). unfold authorize_relative, logical_candidate. rewrite logical_portable, Hl. simpl. unfold reject.
  destruct (allowed _ _ _ _ _) eqn:Ha; [|done]. simpl. by intros [= <-].
Qed.

Lemma has_nul_portable raw : has_nul (portable raw) = has_nul raw.
Proof.
  unfold has_nul, portable, chars. rewrite String.list_ascii_of_string_of_list_ascii. induction (String.list_ascii_of_string raw) as [|c l IH]; [done|].
  cbn [List.map existsb]. rewrite IH. f_equal. destruct (Ascii.eqb c backslash) eqn:E; [|done]. by apply Ascii.eqb_eq in E as ->.
Qed.

(** The components of a clean path, split into its directory and its name *)
Lemma clean_target raw segs : clean_segments raw = Some segs -> segs <> [] ->
  secure_segments false (portable raw) = inr (removelast segs ++ [List.last segs ""]) /\ segs = removelast segs ++ [List.last segs ""].
Proof.
  intros Hc Hne. rewrite <- (app_removelast_last "" Hne). split; [|done].
  assert (clean_segments (portable raw) = Some segs) as Hp.
  { unfold clean_segments in *. rewrite portable_portable, has_nul_portable. destruct (_ || has_nul raw) eqn:Hz; [done|].
    apply orb_false_iff in Hz as [Hz ->]. apply bool_decide_eq_false in Hz. rewrite bool_decide_false by (by intros ?%portable_empty). done. }
  by apply (proj1 (clean_reads _ _ Hp)).
Qed.

Abbreviation target_call root segs overwrite intended := (call_ok root (removelast segs) (List.last segs "") overwrite intended).

Lemma of_path_wp {A : Type} root parent leaf overwrite intended (r : path_error + A) h (R : exc + A -> hist -> Prop) :
  (forall e, r = inl e -> R (inl (PathError e)) h) -> (forall a, r = inr a -> R (inr a) h) -> pwp root parent leaf overwrite intended (of_path r) h R.
Proof. intros He Ha. destruct r; [by apply He|by apply Ha]. Qed.

Lemma pbind_inr {A B : Type} (a : A) (k : A -> P B) : pbind (of_path (inr a)) k = k a.
Proof. done. Qed.

(** The file operation a call of [write_tool] comes down to, or none *)
Lemma write_tool_cases limits items scope arguments : 
  (exists e, write_tool limits items scope arguments = fail e /\ e <> Exc OutOfFuel) \/
  exists root segs text relative result, names_target items scope arguments root segs /\ obj_get "content" arguments = Some (JStr text) /\
    byte_len text <= max_write_bytes limits /\
    secure_segments false relative = inr (removelast segs ++ [List.last segs ""]) /\
    write_tool limits items scope arguments =
      (go _ <- write_file root relative (chars text) (bool_decide (obj_get "overwrite" arguments = Some (JBool true))) in ret result).
Proof.
  unfold write_tool. destruct (opening items scope arguments) as [e|[[binding space] relative]] eqn:Ho; [left; by eexists|].
  apply opening_ok in Ho as (raw & segs & Hb & Hs & Hp & Hc & Hne & ->).
  rewrite pbind_inr.
  destruct (obj_get "content" arguments) as [[| | | |text| |]|] eqn:Ht; try (left; by eexists).
  destruct (_ <? _) eqn:Hlen; [left; by eexists|]. apply Z.ltb_ge in Hlen.
  cbv zeta.
  destruct (authorize_relative (tb_access_policy binding) (space_root (tb_paths binding) space) (portable raw) OP_WRITE) as [e|target] eqn:Ha.
  { left. by eexists. }
  destruct (authorize_relative (tb_access_policy binding) (space_root (tb_paths binding) space) (parent_of (portable raw)) OP_WRITE) as [e|target2] eqn:Ha2; [left; by eexists|].
  right. destruct (clean_target _ _ Hc Hne) as [Hsec Hsplit]. apply (authorized_target _ _ _ _ _ _ Hc) in Ha as [-> Ha].
  do 5 eexists. split_and!; [split; [by exists binding, space, raw|done]|done| |exact Hsec|reflexivity].
  unfold byte_len. rewrite string_length_chars. lia.
Qed.

Lemma edit_tool_cases limits items scope arguments :
  (exists e, edit_tool limits items scope arguments = fail e /\ e <> Exc OutOfFuel) \/
  exists root segs old new expected relative (result : Z -> json), names_target items scope arguments root segs /\
    obj_get "old_text" arguments = Some (JStr old) /\ obj_get "new_text" arguments = Some (JStr new) /\ old <> "" /\ 1 <= expected /\
    default (JInt 1) (obj_get "expected_replacements" arguments) = JInt expected /\
    secure_segments false relative = inr (removelast segs ++ [List.last segs ""]) /\
    edit_tool limits items scope arguments =
      (go actual <- transform_file root relative (max_read_bytes limits) (max_write_bytes limits) (edit_transform old new expected) in ret (result actual)).
Proof.
  unfold edit_tool. destruct (opening items scope arguments) as [e|[[binding space] relative]] eqn:Ho; [left; by eexists|].
  apply opening_ok in Ho as (raw & segs & Hb & Hs & Hp & Hc & Hne & ->).
  rewrite pbind_inr.
  destruct (obj_get "old_text" arguments) as [[| | | |old| |]|] eqn:Hold; try (left; by eexists).
  destruct (obj_get "new_text" arguments) as [[| | | |new| |]|] eqn:Hnew; try (left; by eexists).
  destruct (default (JInt 1) _) as [| |expected| | | |] eqn:Hexp; try (left; by eexists).
  destruct (_ || _) eqn:Hv; [left; by eexists|]. apply orb_false_iff in Hv as [Ho%bool_decide_eq_false He%Z.ltb_ge].
  cbv zeta.
  destruct (authorize_relative (tb_access_policy binding) (space_root (tb_paths binding) space) (portable raw) OP_READ) as [e|target] eqn:Ha; [left; by eexists|].
  destruct (authorize_relative (tb_access_policy binding) (space_root (tb_paths binding) space) (portable raw) OP_WRITE) as [e|target2] eqn:Ha2; [left; by eexists|].
  right. destruct (clean_target _ _ Hc Hne) as [Hsec Hsplit]. apply (authorized_target _ _ _ _ _ _ Hc) in Ha2 as [-> Ha2].
  exists (space_root (tb_paths binding) space), segs, old, new, expected, (portable raw),
    (fun actual => JObj [("space", JStr (space_name space)); ("path", JStr (portable raw)); ("replacements", JInt actual)]).
  split_and!; [split; [by exists binding, space, raw|done]|done..|exact Hsec|reflexivity].
Qed.

(** What a tool may ask of the system: calls at the target that its arguments name and its policy permits *)
Definition at_its_target (items : Bindings) (scope : RequestScope) (arguments : list (string * json)) (overwrite : bool) (intended : list ascii -> Prop)
    (h : hist) (q : question) : Prop :=
  exists root segs, names_target items scope arguments root segs /\ call_ok root (removelast segs) (List.last segs "") overwrite intended h q.

(** How a tool ends: with nothing open, and if it returns, with the target replaced *)
Definition ends_well (r : exc + json) (h : hist) : Prop :=
  (os_ok h -> fds h = ∅) /\ (forall v, r = inr v -> exists leaf, replaced leaf h) /\ r <> inl (Exc OutOfFuel).

Lemma write_tool_wp limits items scope arguments :
  wp (fun h e => os_ok h -> exists text, obj_get "content" arguments = Some (JStr text) /\
      at_its_target items scope arguments (bool_decide (obj_get "overwrite" arguments = Some (JBool true))) (eq (chars text)) h (projT1 e))
    (write_tool limits items scope arguments) [] ends_well (fun _ _ => False).
Proof.
  destruct (write_tool_cases limits items scope arguments) as [(e & -> & He)|(root & segs & text & relative & result & Hn & Ht & _ & Hsec & ->)].
  { split; [done|]. split; [done|congruence]. }
  pose proof (write_file_wp root (removelast segs) (List.last segs "") (bool_decide (obj_get "overwrite" arguments = Some (JBool true))) (eq (chars text)) relative
    (chars text) Hsec eq_refl) as Hw.
  apply wp_bind. refine (wp_mono _ _ _ _ _ _ _ _ _ _ _ Hw); [|..|auto].
  - intros h e Hg Hok. exists text. split; [done|]. exists root, segs. split; [done|by apply Hg].
  - intros [e|[]] h (Hf & Hr & He); (split; [intros Hok; by destruct (Hf Hok)|]); (split; [|congruence]); [done|]. intros v _. exists (List.last segs ""). by apply (Hr tt).
Qed.

Lemma edit_tool_wp limits items scope arguments : 0 <= max_read_bytes limits ->
  wp (fun h e => os_ok h -> exists old new expected, obj_get "old_text" arguments = Some (JStr old) /\ obj_get "new_text" arguments = Some (JStr new) /\
      at_its_target items scope arguments true (fun updated => exists content n, edit_transform old new expected content = inr (updated, n)) h (projT1 e))
    (edit_tool limits items scope arguments) [] ends_well (fun _ _ => False).
Proof.
  intros Hmax. destruct (edit_tool_cases limits items scope arguments) as [(e & -> & He)|(root & segs & old & new & expected & relative & result & Hn & Ho & Hnew & _ & _ & _ & Hsec & ->)].
  { split; [done|]. split; [done|congruence]. }
  pose proof (transform_file_wp root (removelast segs) (List.last segs "") true (fun updated => exists content n, edit_transform old new expected content = inr (updated, n))
    relative (max_read_bytes limits) (max_write_bytes limits) (edit_transform old new expected) eq_refl Hsec Hmax) as Hw.
  apply wp_bind. refine (wp_mono _ _ _ _ _ _ _ _ _ _ _ (Hw _ _)); [|..|auto| |].
  - intros h e Hg Hok. exists old, new, expected. split_and!; [done..|]. exists root, segs. split; [done|by apply Hg].
  - intros [e|n] h (Hf & Hr & He); (split; [intros Hok; by destruct (Hf Hok)|]); (split; [|congruence]); [done|]. intros v _. exists (List.last segs ""). by apply (Hr n).
  - intros c updated n Hc. by exists c, n.
  - intros c. unfold edit_transform. by repeat case_match.
Qed.

(** C28. A writing file tool touches exactly the file its arguments name.  While the system keeps its
    contract, every system call of [_write] and [_edit] is made at a directory reached
    component by component, without a link, from the root of the space of the product (or
    channel) binding of the call: directories on the way to the parent are opened, the target
    is inspected and read, temporary files are created, written and removed beside it, and the
    target itself is only ever replaced - renamed over when overwriting is asked for, linked
    otherwise - by a temporary file that holds the whole new content, is synced
    and closed.  And the access policy of the binding lets the target be written. *)
Theorem file_tools_stay_at_their_target limits items scope arguments t o : 0 <= max_read_bytes limits ->
  (run_to (write_tool limits items scope arguments) t o -> forall t1 q a t2, t = t1 ++ (q ~> a) :: t2 -> os_ok (reverse t1) ->
     exists text, obj_get "content" arguments = Some (JStr text) /\
       at_its_target items scope arguments (bool_decide (obj_get "overwrite" arguments = Some (JBool true))) (eq (chars text)) (reverse t1) q) /\
  (run_to (edit_tool limits items scope arguments) t o -> forall t1 q a t2, t = t1 ++ (q ~> a) :: t2 -> os_ok (reverse t1) ->
     exists old new expected, obj_get "old_text" arguments = Some (JStr old) /\ obj_get "new_text" arguments = Some (JStr new) /\
       at_its_target items scope arguments true (fun updated => exists content n, edit_transform old new expected content = inr (updated, n)) (reverse t1) q).
Proof.
  intros Hmax. split; intros Ht t1 q a t2 -> Hok.
  - destruct (wp_sound _ _ _ _ _ _ _ (write_tool_wp limits items scope arguments) Ht) as [Hg _]. specialize (Hg t1 (q ~> a) t2 eq_refl).
    rewrite app_nil_r in Hg. exact (Hg Hok).
  - destruct (wp_sound _ _ _ _ _ _ _ (edit_tool_wp limits items scope arguments Hmax) Ht) as [Hg _]. specialize (Hg t1 (q ~> a) t2 eq_refl).
    rewrite app_nil_r in Hg. exact (Hg Hok).
Qed.

(** C29. However a writing file tool ends, it has closed every descriptor it opened, provided the system
    keeps its contract; it never runs out of the bounds of its loops, and it returns
    only after the target was replaced. *)
Theorem file_tools_close_what_they_open limits items scope arguments t r : 0 <= max_read_bytes limits ->
  run_to (write_tool limits items scope arguments) t (Done r) \/ run_to (edit_tool limits items scope arguments) t (Done r) -> ends_well r (reverse t).
Proof.
  intros Hmax [Ht|Ht].
  - destruct (wp_sound _ _ _ _ _ _ _ (write_tool_wp limits items scope arguments) Ht) as [_ Hr]. by rewrite app_nil_r in Hr.
  - destruct (wp_sound _ _ _ _ _ _ _ (edit_tool_wp limits items scope arguments Hmax) Ht) as [_ Hr]. by rewrite app_nil_r in Hr.
Qed.

(** ** A small file system: every descriptor is new, nothing is there yet but one file *)
Definition demo_binding : WorkspaceToolBinding :=
  MkBinding demo_paths (MkPolicy [] [] [wp_product_root demo_paths] [wp_product_root demo_paths ++ ["notes"]] false).
Definition demo_items : Bindings := {[ ("acme", "crm", None) := demo_binding ]}.
Definition demo_scope : RequestScope := rq_scope Paths.demo_request.
Definition demo_limits : FileToolLimits := MkLimits 4096 4096.
Definition demo_text : string := "Hi Bob, hi Ann.".
Definition demo_os (q : question) (n : Z) : ans q * Z :=
  match q with
  | QOpenRoot | QOpenDir _ _ | QOpenFile _ _ | QDup _ | QCreate _ _ => (inr n, n + 1)
  | QWrite _ data => (inr (Z.min 2 (Z.of_nat (length data))), n)
  | QRead fd _ => (inr (if n =? 100 then [] else chars demo_text), 100)
  | QStatAt _ _ | QFstat _ => (inr (MkStat FILE (1, 1) 15), n)
  | QToken => ("t", n)
  | QClose _ | QLseek _ _ | QFsync _ | QRename _ _ _ | QLink _ _ _ | QUnlink _ _ => (inr tt, n)
  end.
Definition demo_edit_arguments : list (string * json) :=
  [("path", JStr "notes/a.txt"); ("old_text", JStr "i"); ("new_text", JStr "ello"); ("expected_replacements", JInt 2)].
Definition demo_write := interp demo_os (write_tool demo_limits demo_items demo_scope demo_arguments) 3.
Definition demo_edit := interp demo_os (edit_tool demo_limits demo_items demo_scope demo_edit_arguments) 3.

Lemma demo_write_run : run_to (write_tool demo_limits demo_items demo_scope demo_arguments) demo_write.1.1 demo_write.1.2.
Proof. apply interp_run_to. Qed.
Lemma demo_edit_run : run_to (edit_tool demo_limits demo_items demo_scope demo_edit_arguments) demo_edit.1.1 demo_edit.1.2.
Proof. apply interp_run_to. Qed.
Lemma demo_write_links : demo_write.1.1 =
  take 20 demo_write.1.1 ++ (QLink 10 ".suiteharness-write-t" "a.txt" ~> inr tt) :: drop 21 demo_write.1.1.
Proof. vm_compute. reflexivity. Qed.
Lemma demo_write_ok : os_ok (reverse (take 20 demo_write.1.1)).
Proof. vm_compute. repeat split; by intros []. Qed.
Definition demo_edited : json := JObj [("space", JStr "product"); ("path", JStr "notes/a.txt"); ("replacements", JInt 2)].
Lemma demo_edit_done : demo_edit.1.2 = Done (inr demo_edited).
Proof. vm_compute. reflexivity. Qed.
Lemma demo_edit_end : run_to (edit_tool demo_limits demo_items demo_scope demo_edit_arguments) demo_edit.1.1 (Done (inr demo_edited)).
Proof. rewrite <- demo_edit_done. apply demo_edit_run. Qed.

Lemma file_tools_stay_at_their_target_witness : exists text, obj_get "content" demo_arguments = Some (JStr text) /\
  at_its_target demo_items demo_scope demo_arguments (bool_decide (obj_get "overwrite" demo_arguments = Some (JBool true))) (eq (chars text))
    (reverse (take 20 demo_write.1.1)) (QLink 10 ".suiteharness-write-t" "a.txt").
Proof.
  exact (proj1 (file_tools_stay_at_their_target demo_limits demo_items demo_scope demo_arguments demo_write.1.1 demo_write.1.2 ltac:(discriminate)) demo_write_run
    (take 20 demo_write.1.1) (QLink 10 ".suiteharness-write-t" "a.txt") (inr tt) (drop 21 demo_write.1.1) demo_write_links demo_write_ok).
Defined.

Lemma file_tools_close_what_they_open_witness : ends_well (inr demo_edited) (reverse demo_edit.1.1).
Proof.
  exact (file_tools_close_what_they_open demo_limits demo_items demo_scope demo_edit_arguments demo_edit.1.1 (inr demo_edited) ltac:(discriminate)
    (or_intror demo_edit_end)).
Defined.

Lemma edits_replace_what_was_expected_witness : exists pieces, chars demo_text = join (chars "i") pieces /\ chars "Hello Bob, hello Ann." = join (chars "ello") pieces.
Proof.
  destruct (edits_replace_what_was_expected "i" "ello" 2 (chars demo_text) (chars "Hello Bob, hello Ann.") 2 ltac:(discriminate) eq_refl)
    as (_ & _ & pieces & Hc & Hu & _).
  exists pieces. split; [exact Hc|exact Hu].
Defined.
End FileTools.
