(* ===== verification/ScopeContexts.v ===== *)
(** * The scope contexts ([runtime/scopes.py])

    [RootContext], [TenantScope], [ProductContext] and [AgentContext] pair a path with
    service bindings and an effect scope, each derived from those of its parent.
    Bindings are compared by identity, so they carry one; effect scopes are entries of
    the process-wide list of scopes ([Effects.Scope]). *)
From S2P Require Import Prelude PyText Scopes PluginModels Effects.
Open Scope string_scope.
Open Scope list_scope.

Module Contexts.
Import Scope.

Section Contexts.
Context {C V : Type} `{EqDecision C} (isinstance : V -> C -> res bool).

(** A bindings object: its identity, its parent's, and what it binds *)
Record Bound : Type := MkBound { bd_id : nat; bd_parent : option nat; bd_value : @ServiceBindings C V }.

(** All effect scopes there are, and the next identity *)
Record Process : Type := MkProcess { pc_effects : list EffectScope; pc_next : nat }.

Definition step (A : Type) : Type := Process -> (exc + A) * Process.
Definition ret {A : Type} (a : A) : step A := fun p => (inr a, p).
Definition sbind {A B : Type} (m : step A) (k : A -> step B) : step B := fun p =>
  match m p with (inl x, p) => (inl x, p) | (inr a, p) => k a p end.
Definition of_res {A : Type} (r : res A) : step A := fun p => (match r with Ok a => inr a | Raise e => inl (Exc e) end, p).
Notation "'let*' x := m 'in' k" := (sbind m (fun x => k)) (at level 10, x pattern, m at level 100, k at level 200).

(** [self.effects.child(name)] *)
Definition child (self : nat) (name : string) : step nat := fun p =>
  match pc_effects p !! self with
  | None => (inl (Exc OtherException), p)
  | Some s =>
      match new_child self name with
      | inl x => (inl x, p)
      | inr (c, label) =>
          match callback s label (CloseOf (length (pc_effects p))) with
          | inl x => (inl x, p)
          | inr (s, _) => (inr (length (pc_effects p)), MkProcess (<[self := s]> (pc_effects p) ++ [c]) (pc_next p))
          end
      end
  end.

(** [self.bindings.derive(kind, values)] *)
Definition derive_bound (self : Bound) (kind : ScopeKind) (values : list (@ServiceKey C * V)) : step Bound := fun p =>
  match derive isinstance (bd_value self) kind values with
  | Raise e => (inl (Exc e), p)
  | Ok b => (inr (MkBound (pc_next p) (Some (bd_id self)) b), MkProcess (pc_effects p) (S (pc_next p)))
  end.

Definition effects_parent (p : Process) (i : nat) : option nat := match pc_effects p !! i with Some s => es_parent s | None => None end.

(** ** The contexts *)
Record RootContext : Type := MkRoot { rc_bindings : Bound; rc_effects : nat }.
Record TenantScope : Type := MkTenant { tn_root : RootContext; tn_path : ScopePath; tn_bindings : Bound; tn_effects : nat }.
Record ProductContext : Type := MkProduct { px_tenant : TenantScope; px_path : ScopePath; px_bindings : Bound; px_effects : nat }.
Record AgentContext : Type := MkAgent { ag_product : ProductContext; ag_path : ScopePath; ag_request : RequestScope; ag_bindings : Bound; ag_effects : nat }.

Definition rc_path : ScopePath := MkScopePath ROOT None None None None.

Definition is_kind (k : ScopeKind) (path : ScopePath) (b : Bound) : bool := bool_decide (path_kind path = k) && bool_decide (sb_kind (bd_value b) = k).

(** [__post_init__]: kind, path, bindings and effects descend from the parent. *)
Definition descends (k : ScopeKind) (path parent_path : ScopePath) (b parent_b : Bound) (e parent_e : nat) : step unit := fun p =>
  of_res (
    require is_kind k path b else ValueError ;;
    let! parent := path_parent path in
    require bool_decide (parent = Some parent_path) else ValueError ;;
    require bool_decide (bd_parent b = Some (bd_id parent_b)) else ValueError ;;
    guard (bool_decide (effects_parent p e = Some parent_e)) ValueError) p.

Definition root_context (b : Bound) (e : nat) : step RootContext := fun p =>
  (let* _ := of_res (
    require bool_decide (sb_kind (bd_value b) = ROOT) else ValueError ;;
    guard (bool_decide (effects_parent p e = None)) ValueError) in
   ret (MkRoot b e)) p.

Definition tenant_scope (t : TenantScope) : step TenantScope :=
  let* _ := descends TENANT (tn_path t) rc_path (tn_bindings t) (rc_bindings (tn_root t)) (tn_effects t) (rc_effects (tn_root t)) in ret t.
Definition product_context (c : ProductContext) : step ProductContext :=
  let* _ := descends PRODUCT (px_path c) (tn_path (px_tenant c)) (px_bindings c) (tn_bindings (px_tenant c)) (px_effects c) (tn_effects (px_tenant c)) in ret c.
Definition agent_context (c : AgentContext) : step AgentContext :=
  let* _ := descends AGENT (ag_path c) (px_path (ag_product c)) (ag_bindings c) (px_bindings (ag_product c)) (ag_effects c) (px_effects (ag_product c)) in
  let* _ := of_res (guard (bool_decide (rs_path (ag_request c) = ag_path c)) ValueError) in ret c.

(** [RootContext.tenant] *)
Definition tenant (self : RootContext) (tenant_id : string) (bindings : list (@ServiceKey C * V)) : step TenantScope :=
  let* path := of_res (tenant_path tenant_id) in
  let* b := derive_bound (rc_bindings self) TENANT bindings in
  let* e := child (rc_effects self) ("tenant:" +:+ tenant_id) in
  tenant_scope (MkTenant self path b e).

(** [cast(str, value)] *)
Definition cast_str (o : option string) : string := default "" o.

(** [TenantScope.product] *)
Definition product (self : TenantScope) (product_id : string) (bindings : list (@ServiceKey C * V)) : step ProductContext :=
  let* path := of_res (product_path (cast_str (path_tenant_id (tn_path self))) product_id) in
  let* b := derive_bound (tn_bindings self) PRODUCT bindings in
  let* e := child (tn_effects self) ("product:" +:+ product_id) in
  product_context (MkProduct self path b e).

(** [ProductContext.agent] *)
Definition agent (self : ProductContext) (agent_id session_id principal_id channel_id : string) (roles : gset string) (purpose request_id correlation_id : string)
    (bindings : list (@ServiceKey C * V)) : step AgentContext :=
  let* path := of_res (agent_path (cast_str (path_tenant_id (px_path self))) (cast_str (path_product_id (px_path self))) agent_id session_id) in
  let* request := of_res (request_scope (MkRequestScope path principal_id channel_id roles purpose request_id correlation_id None)) in
  let* b := derive_bound (px_bindings self) AGENT bindings in
  let* e := child (px_effects self) ("agent:" +:+ agent_id +:+ ":" +:+ session_id) in
  agent_context (MkAgent self path request b e).

(** [resolve] of every context *)
Definition context_resolve (b : Bound) (key : @ServiceKey C) : res V := sb_resolve (bd_value b) key.

(** [close()] of every context starts the closing of its effect scope ([Scope.close_begin]). *)
Definition close (effects : nat) : step close_start := fun p =>
  match pc_effects p !! effects with
  | None => (inl (Exc OtherException), p)
  | Some s => let (s, start) := Scope.close_begin s in (inr start, MkProcess (<[effects := s]> (pc_effects p)) (pc_next p))
  end.

(** ** What a context is *)
Definition bound_ok (b : Bound) : Prop := chain_ok isinstance (bd_value b).

Definition root_ok (c : RootContext) : Prop := bound_ok (rc_bindings c) /\ sb_kind (bd_value (rc_bindings c)) = ROOT.

Definition linked (k : ScopeKind) (path parent_path : ScopePath) (b parent_b : Bound) (e parent_e : nat) (p : Process) : Prop :=
  valid_path path /\ path_kind path = k /\ path_parent path = Ok (Some parent_path) /\
  bound_ok b /\ sb_kind (bd_value b) = k /\ sb_parent (bd_value b) = Some (bd_value parent_b) /\ bd_parent b = Some (bd_id parent_b) /\
  effects_parent p e = Some parent_e.

Definition tenant_ok (c : TenantScope) (p : Process) : Prop :=
  root_ok (tn_root c) /\ linked TENANT (tn_path c) rc_path (tn_bindings c) (rc_bindings (tn_root c)) (tn_effects c) (rc_effects (tn_root c)) p.
Definition product_ok (c : ProductContext) (p : Process) : Prop :=
  tenant_ok (px_tenant c) p /\
  linked PRODUCT (px_path c) (tn_path (px_tenant c)) (px_bindings c) (tn_bindings (px_tenant c)) (px_effects c) (tn_effects (px_tenant c)) p.
Definition agent_ok (c : AgentContext) (p : Process) : Prop :=
  product_ok (ag_product c) p /\
  linked AGENT (ag_path c) (px_path (ag_product c)) (ag_bindings c) (px_bindings (ag_product c)) (ag_effects c) (px_effects (ag_product c)) p /\
  valid_request (ag_request c) /\ rs_path (ag_request c) = ag_path c.

(** One child more: the scope [i] of [p] has registered the closing of the new scope [e], all else is as it was. *)
Definition one_child (i e : nat) (p p' : Process) : Prop :=
  exists s c label, pc_effects p !! i = Some s /\ es_state s = OPEN /\ e = length (pc_effects p) /\
    pc_effects p' = <[i := MkEffectScope (es_name s) (es_parent s) (es_state s) (es_effects s ++ [MkOwnedEffect label (CloseOf e)]) (es_closed s) (es_cleanup_error s)]>
      (pc_effects p) ++ [c] /\ es_parent c = Some i /\ es_state c = OPEN /\ es_effects c = [].

Lemma child_cases i name p : match child i name p with
  | (inl _, p') => p' = p
  | (inr e, p') => one_child i e p p' /\ effects_parent p' e = Some i /\ forall j, effects_parent p j <> None -> effects_parent p' j = effects_parent p j
  end.
Proof.
  unfold child. destruct (pc_effects p !! i) as [s|] eqn:Hs; [|done]. unfold new_child, effect_scope. case_decide; [done|]. simpl.
  unfold callback. case_decide; [done|]. case_decide as Hopen; [done|]. split; [|split].
  - do 3 eexists. split_and!; [done|by destruct (decide (es_state s = OPEN))|done|reflexivity|done..].
  - unfold effects_parent. simpl. rewrite lookup_app_r by (by rewrite length_insert). by rewrite length_insert, Nat.sub_diag.
  - intros j Hj. unfold effects_parent in *. simpl. destruct (pc_effects p !! j) as [sj|] eqn:Hjs; [|done].
    rewrite lookup_app_l by (rewrite length_insert; by eapply lookup_lt_Some). destruct (decide (i = j)) as [->|Hne].
    + rewrite list_lookup_insert_eq by (by eapply lookup_lt_Some). simpl. by simplify_eq.
    + rewrite list_lookup_insert_ne by done. by rewrite Hjs.
Qed.

Lemma derive_cases self kind values p : bound_ok self -> match derive_bound self kind values p with
  | (inl _, p') => p' = p
  | (inr b, p') => pc_effects p' = pc_effects p /\ bound_ok b /\ sb_kind (bd_value b) = kind /\ sb_parent (bd_value b) = Some (bd_value self) /\
      bd_parent b = Some (bd_id self)
  end.
Proof.
  intros Hs. unfold derive_bound. destruct (derive isinstance (bd_value self) kind values) as [b|e] eqn:Hd; [|done].
  apply (service_bindings_ok isinstance kind values (Some (bd_value self))) in Hd as (? & ? & ?); [|done]. done.
Qed.

Lemma descends_linked k path parent_path b parent_b e parent_e p : linked k path parent_path b parent_b e parent_e p ->
  descends k path parent_path b parent_b e parent_e p = (inr tt, p).
Proof.
  intros (_ & Hk & Hp & _ & Hbk & _ & Hb & He). unfold descends, of_res, is_kind. rewrite Hp, Hk, Hbk, Hb, He.
  unfold guard. simpl. by repeat (rewrite bool_decide_true by done; simpl).
Qed.

Lemma descends_then {X : Type} k path parent_path b parent_b e parent_e (next : step X) p : linked k path parent_path b parent_b e parent_e p ->
  (let* _ := descends k path parent_path b parent_b e parent_e in next) p = next p.
Proof. intros Hl. unfold sbind. by rewrite (descends_linked _ _ _ _ _ _ _ _ Hl). Qed.

Lemma linked_later k path parent_path b parent_b e parent_e p p' :
  (forall j, effects_parent p j <> None -> effects_parent p' j = effects_parent p j) ->
  linked k path parent_path b parent_b e parent_e p -> linked k path parent_path b parent_b e parent_e p'.
Proof. intros Hj (? & ? & ? & ? & ? & ? & ? & He). do 7 (split; [done|]). by rewrite Hj; [|rewrite He]. Qed.

(** One derivation: a valid path below the parent's, derived bindings, a child scope; the checks of
    [__post_init__], whatever they add, hold of what was derived. *)
Lemma derivation {X : Type} k path parent_path parent_b values parent_e name (build : Bound -> nat -> X) (post_init : Bound -> nat -> step X)
    (Q : X -> Process -> Prop) p :
  bound_ok parent_b -> valid_path path -> path_kind path = k -> path_parent path = Ok (Some parent_path) ->
  (forall b e q, linked k path parent_path b parent_b e parent_e q -> post_init b e q = (inr (build b e), q)) ->
  (forall b e p', linked k path parent_path b parent_b e parent_e p' -> one_child parent_e e p p' ->
     (forall j, effects_parent p j <> None -> effects_parent p' j = effects_parent p j) -> Q (build b e) p') ->
  match (let* b := derive_bound parent_b k values in let* e := child parent_e name in post_init b e) p with
  | (inl _, p') => pc_effects p' = pc_effects p
  | (inr x, p') => Q x p'
  end.
Proof.
  intros Hb Hv Hk Hp Hpost HQ. unfold sbind at 1. pose proof (derive_cases parent_b k values p Hb) as Hd.
  destruct (derive_bound parent_b k values p) as [[x|b] p1]; [by rewrite Hd|]. destruct Hd as (He1 & Hbo & Hbk & Hbp & Hbi).
  unfold sbind. pose proof (child_cases parent_e name p1) as Hc. destruct (child parent_e name p1) as [[x|e] p2]; [by rewrite Hc|].
  destruct Hc as (Hone & Hpar & Hkeep).
  assert (linked k path parent_path b parent_b e parent_e p2) as Hl by (do 7 (split; [assumption|]); assumption).
  rewrite (Hpost _ _ _ Hl). apply HQ; [done|..]; unfold one_child, effects_parent in *; by rewrite He1 in *.
Qed.

Lemma rc_path_root : root_path = Ok rc_path.
Proof. reflexivity. Qed.

Lemma sbind_assoc {A B D : Type} (m : step A) (k : A -> step B) (k' : B -> step D) p : sbind (sbind m k) k' p = sbind m (fun a => sbind (k a) k') p.
Proof. unfold sbind. by destruct (m p) as [[x|a] p1]. Qed.

Lemma of_res_Ok {A B : Type} (r : res A) (k : A -> step B) p : sbind (of_res r) k p = match r with Ok a => k a p | Raise e => (inl (Exc e), p) end.
Proof. unfold sbind, of_res. by destruct r. Qed.

Lemma tenant_linked c p : tenant_ok c p -> exists t, tn_path c = MkScopePath TENANT (Some t) None None None /\ IDENTIFIER t = true /\ bound_ok (tn_bindings c).
Proof. intros (_ & Hv & Hk & _ & Hb & _). apply valid_path_inv in Hv. rewrite Hk in Hv. destruct Hv as (t & ? & ?). eauto. Qed.

Lemma product_linked c p : product_ok c p ->
  exists t q, px_path c = MkScopePath PRODUCT (Some t) (Some q) None None /\ IDENTIFIER t = true /\ IDENTIFIER q = true /\ bound_ok (px_bindings c).
Proof. intros (_ & Hv & Hk & _ & Hb & _). apply valid_path_inv in Hv. rewrite Hk in Hv. destruct Hv as (t & q & ? & ? & ?). eauto 6. Qed.

Lemma tenant_later c p p' : (forall j, effects_parent p j <> None -> effects_parent p' j = effects_parent p j) -> tenant_ok c p -> tenant_ok c p'.
Proof. intros Hj [Hr Hl]. split; [done|]. by eapply linked_later. Qed.

Lemma product_later c p p' : (forall j, effects_parent p j <> None -> effects_parent p' j = effects_parent p j) -> product_ok c p -> product_ok c p'.
Proof. intros Hj [Ht Hl]. split; [by eapply tenant_later|by eapply linked_later]. Qed.

Lemma tenant_parent t q : IDENTIFIER t = true -> path_parent (MkScopePath PRODUCT (Some t) (Some q) None None) = Ok (Some (MkScopePath TENANT (Some t) None None None)).
Proof. intros Ht. unfold path_parent. simpl. change (scope_path TENANT (Some t) None None None) with (tenant_path t). by rewrite (proj2 (tenant_path_valid t _) (conj eq_refl Ht)). Qed.

Lemma product_parent t q a s : IDENTIFIER t = true -> IDENTIFIER q = true ->
  path_parent (MkScopePath AGENT (Some t) (Some q) (Some a) (Some s)) = Ok (Some (MkScopePath PRODUCT (Some t) (Some q) None None)).
Proof. intros Ht Hq. unfold path_parent. simpl. change (scope_path PRODUCT (Some t) (Some q) None None) with (product_path t q). by rewrite (proj2 (product_path_valid t q _) (conj eq_refl (conj Ht Hq))). Qed.

Lemma request_scope_Ok r r' : request_scope r = Ok r' -> r' = r /\ request_post_init r = Ok tt.
Proof. unfold request_scope. intros ([] & ? & [= <-])%res_bind_Ok. done. Qed.

(** Deriving a context is all or nothing, and what it yields descends from its parent in every respect.
    [tenant], [product] and [agent] of a well-formed context either raise and leave every effect scope as
    it was - the checks of [__post_init__], which run after the child scope is registered, never
    fail -, or return a well-formed context of that parent: a valid path one level below, bindings
    derived from the parent's, a fresh open effect scope that the parent's will close, and for an
    agent a valid request of the same tenant, product, agent and session. *)
Theorem contexts_descend_from_their_parents :
  (forall self tenant_id values p, root_ok self ->
     match tenant self tenant_id values p with
     | (inl _, p') => pc_effects p' = pc_effects p
     | (inr c, p') => tn_root c = self /\ path_tenant_id (tn_path c) = Some tenant_id /\ tenant_ok c p' /\ one_child (rc_effects self) (tn_effects c) p p'
     end) /\
  (forall self product_id values p, tenant_ok self p ->
     match product self product_id values p with
     | (inl _, p') => pc_effects p' = pc_effects p
     | (inr c, p') => px_tenant c = self /\ path_product_id (px_path c) = Some product_id /\ product_ok c p' /\ one_child (tn_effects self) (px_effects c) p p'
     end) /\
  (forall self agent_id session_id principal_id channel_id roles purpose request_id correlation_id values p, product_ok self p ->
     match agent self agent_id session_id principal_id channel_id roles purpose request_id correlation_id values p with
     | (inl _, p') => pc_effects p' = pc_effects p
     | (inr c, p') => ag_product c = self /\ agent_ok c p' /\ one_child (px_effects self) (ag_effects c) p p' /\
         path_tenant_id (px_path self) = Some (rs_tenant_id (ag_request c)) /\ path_product_id (px_path self) = Some (rs_product_id (ag_request c)) /\
         path_agent_id (ag_path c) = Some agent_id /\ path_session_id (ag_path c) = Some session_id /\ rs_principal_id (ag_request c) = principal_id
     end).
Proof.
  split; [|split].
  - intros self tenant_id values p Hr. unfold tenant. rewrite of_res_Ok. destruct (tenant_path tenant_id) as [path|e] eqn:Hp; [|done].
    apply tenant_path_valid in Hp as [-> Hid].
    apply (derivation TENANT (MkScopePath TENANT (Some tenant_id) None None None) rc_path (rc_bindings self) values (rc_effects self) ("tenant:" +:+ tenant_id)
      (MkTenant self (MkScopePath TENANT (Some tenant_id) None None None)) (fun b e => tenant_scope (MkTenant self (MkScopePath TENANT (Some tenant_id) None None None) b e))); [by apply Hr|by apply valid_path_inv; simpl; eauto|done|done|..].
    + intros b e q Hl. by apply (descends_then _ _ _ _ _ _ _ _ _ Hl).
    + intros b e p' Hl Hone _. split; [done|]. split; [done|]. done.
  - intros self product_id values p Hs. destruct (tenant_linked _ _ Hs) as (t & Ht & Hid & Hb). unfold product. rewrite Ht. simpl. rewrite of_res_Ok.
    destruct (product_path t product_id) as [path|e] eqn:Hp; [|done]. apply product_path_valid in Hp as (-> & _ & Hid').
    apply (derivation PRODUCT (MkScopePath PRODUCT (Some t) (Some product_id) None None) (tn_path self) (tn_bindings self) values (tn_effects self) ("product:" +:+ product_id)
      (MkProduct self (MkScopePath PRODUCT (Some t) (Some product_id) None None)) (fun b e => product_context (MkProduct self (MkScopePath PRODUCT (Some t) (Some product_id) None None) b e)));
      [done|apply valid_path_inv; simpl; by eauto 6|done| |..].
    + rewrite Ht. apply tenant_parent. done.
    + intros b e q Hl. by apply (descends_then _ _ _ _ _ _ _ _ _ Hl).
    + intros b e p' Hl Hone Hk. split; [done|]. split; [done|]. split; [|done]. split; [by eapply tenant_later|done].
  - intros self agent_id session_id principal_id channel_id roles purpose request_id correlation_id values p Hs.
    destruct (product_linked _ _ Hs) as (t & q & Hq & Ht & Hid & Hb). unfold agent. rewrite Hq. simpl. rewrite of_res_Ok.
    destruct (agent_path t q agent_id session_id) as [path|e] eqn:Hp; [|done]. apply scope_path_Ok in Hp as [-> Hp].
    rewrite of_res_Ok. destruct (request_scope _) as [r|e] eqn:Hr; [|done]. apply request_scope_Ok in Hr as [-> Hr].
    set (path := MkScopePath AGENT _ _ _ _) in *. set (r := MkRequestScope _ _ _ _ _ _ _ _) in *.
    apply (derivation AGENT path (px_path self) (px_bindings self) values (px_effects self) ("agent:" +:+ agent_id +:+ ":" +:+ session_id)
      (MkAgent self path r) (fun b e => agent_context (MkAgent self path r b e))); [done|done|done| |..].
    + rewrite Hq. by apply product_parent.
    + intros b e q' Hl. etrans; [by apply (descends_then _ _ _ _ _ _ _ _ _ Hl)|]. rewrite of_res_Ok. unfold guard. by rewrite bool_decide_true.
    + intros b e p' Hl Hone Hk. simpl. split; [done|]. split; [|by repeat split].
      split; [by eapply product_later|]. split; [done|]. by split.
Qed.
End Contexts.
End Contexts.
