(* ===== verification/ChannelGateway.v ===== *)
(** * The channel gateway ([channels/gateway.py], [channels/models.py], [channels/auth.py])

    [EnterpriseChannelGateway] authenticates a message, routes it to a product, asks
    the authorizers and builds the only [RequestScope] the application sees.  Every
    public method is one task; authenticator, authorizers, directory and application
    are questions.  A timeout of the gateway around a question is one more way for it to
    raise.  Lower-casing a media type is the standard library's ([CaseMapping]). *)
From S2P Require Import Prelude PyText Json Scopes ExecModels SessionModels Prog Tasks WorkspacePaths.
From Stdlib Require Import Ascii.
Open Scope Z_scope.
Open Scope list_scope.

Class CaseMapping : Type := py_lower : string -> string.

Module Channels.
Import Tasks.

(** ** Messages and principals *)
Inductive ChannelKind : Type := WEB | FEISHU.
#[global] Instance ChannelKind_eq_dec : EqDecision ChannelKind.
Proof. solve_decision. Defined.
Definition channel_value (k : ChannelKind) : string := match k with WEB => "web" | FEISHU => "feishu" end.

Inductive OutboundEventKind : Type := STARTED | DELTA | STATUS | APPROVAL_REQUIRED | COMPLETED | FAILED.

Record ChannelAttachment : Type := MkAttachment { ca_attachment_id : string; ca_media_type : string; ca_name : option string; ca_size_bytes : option Z }.

(** [any(char.isspace() for char in value)] *)
Fixpoint has_space (l : list ascii) : bool :=
  match l with
  | [] => false
  | _ :: r => negb (is_none (ws_prefix l)) || has_space r
  end.

Definition channel_attachment `{CaseMapping} (a : ChannelAttachment) : res ChannelAttachment :=
  require IDENTIFIER (ca_attachment_id a) else ValueError ;;
  require existsb (Ascii.eqb "/") (chars (ca_media_type a)) && (py_len (ca_media_type a) <=? 255) && negb (has_space (chars (ca_media_type a))) else ValueError ;;
  require match ca_size_bytes a with Some n => 0 <=? n | None => true end else ValueError ;;
  Ok (MkAttachment (ca_attachment_id a) (py_lower (ca_media_type a)) (ca_name a) (ca_size_bytes a)).

Record InboundMessage : Type := MkInbound {
  im_channel : ChannelKind;
  im_event_id : string;
  im_message_id : string;
  im_conversation_id : string;
  im_sender_external_id : string;
  im_text : string;
  im_product_id : option string;
  im_attachments : list ChannelAttachment;
  im_received_at : Z;
  im_metadata : list (string * json);
}.

Definition external_id (value : string) : bool :=
  negb (bool_decide (value = "")) && (py_len value <=? 1024) && negb (Paths.has_nul value).

Definition inbound_message (m : InboundMessage) (received_at : datetime) : res InboundMessage :=
  require external_id (im_event_id m) else ValueError ;;
  require external_id (im_message_id m) else ValueError ;;
  require external_id (im_conversation_id m) else ValueError ;;
  require external_id (im_sender_external_id m) else ValueError ;;
  require py_len (im_text m) <=? 1000000 else ValueError ;;
  require match im_product_id m with Some p => COMPONENT_ID p | None => true end else ValueError ;;
  let! received := utc received_at in
  Ok (MkInbound (im_channel m) (im_event_id m) (im_message_id m) (im_conversation_id m) (im_sender_external_id m) (im_text m)
        (im_product_id m) (im_attachments m) received (im_metadata m)).

Record AuthenticatedPrincipal : Type := MkPrincipal { ap_tenant_id : string; ap_principal_id : string; ap_roles : gset string }.

Definition authenticated_principal (p : AuthenticatedPrincipal) : res AuthenticatedPrincipal :=
  require IDENTIFIER (ap_tenant_id p) else ValueError ;;
  require IDENTIFIER (ap_principal_id p) else ValueError ;;
  require forallb IDENTIFIER (elements (ap_roles p)) else ValueError ;;
  Ok p.

Record OutboundEvent : Type := MkOutbound { oe_kind : OutboundEventKind; oe_request_id : string; oe_correlation_id : string; oe_payload : list (string * json) }.

Definition outbound_event (e : OutboundEvent) : res OutboundEvent :=
  require IDENTIFIER (oe_request_id e) else ValueError ;;
  require IDENTIFIER (oe_correlation_id e) else ValueError ;;
  Ok e.

(** ** Errors, questions and tasks *)
Inductive exc : Type :=
| ChannelAdmissionError
| Exc (e : exn).  (* [CancelledError] is no [Exception] *)

Definition of_res {X : Type} (r : res X) : exc + X := match r with Ok x => inr x | Raise e => inl (Exc e) end.

(** Who decides about membership: the authorizers of products and of shared conversations *)
Inductive authorizer : Type := ProductAccess | Conversation.

Section Gateway.
Context {HistoryPage : Type} `{Hashing}.

(** The answer of [QAuthenticate] is [None] for everything that is no [AuthenticatedPrincipal], that of
    [QAuthorize] false for everything but [True]; a stream of the application is its events and how it ended. *)
Inductive question : Type :=
| QAuthenticate (message : InboundMessage)
| QAuthorize (who : authorizer) (principal : AuthenticatedPrincipal) (channel : ChannelKind) (conversation_id product_id : string)
| QHandle (message : InboundMessage) (scope : RequestScope)
| QStop (scope : RequestScope) (target_message_id : option string)
| QHistory (scope : RequestScope) (limit : Z) (include_cancelled : bool)
| QHistoryPage (scope : RequestScope) (limit : Z) (before_sequence : option Z)
| QContinue (message : InboundMessage) (scope : RequestScope) (target_message_id : string).

Definition ans (q : question) : Type :=
  match q with
  | QAuthenticate _ => exc + option AuthenticatedPrincipal
  | QAuthorize _ _ _ _ _ => exc + bool
  | QHandle _ _ | QContinue _ _ _ => list OutboundEvent * option exc
  | QStop _ _ => exc + RunStopOutcome
  | QHistory _ _ _ => exc + list TranscriptEvent
  | QHistoryPage _ _ _ => exc + HistoryPage
  end%type.

(** The locals of a task: the events it has yielded. *)
Definition M (A : Type) : Type := task ans (list OutboundEvent) exc A.

Definition authenticator_says message : M (option AuthenticatedPrincipal) := fun l => Call (QAuthenticate message) (fun a => Ret (l, a)).
Definition authorizer_says who principal channel conversation product : M bool :=
  fun l => Call (QAuthorize who principal channel conversation product) (fun a => Ret (l, a)).
(** [async with aclosing(...) as source: async for event in source: yield event] *)
Definition yields_handled message scope : M unit := fun l => Call (QHandle message scope) (fun a => Ret (l ++ a.1, raised a.2)).
Definition yields_continued message scope target : M unit := fun l => Call (QContinue message scope target) (fun a => Ret (l ++ a.1, raised a.2)).
Definition app_stop scope target : M RunStopOutcome := fun l => Call (QStop scope target) (fun a => Ret (l, a)).
Definition app_history scope limit cancelled : M (list TranscriptEvent) := fun l => Call (QHistory scope limit cancelled) (fun a => Ret (l, a)).
Definition app_history_page scope limit before : M HistoryPage := fun l => Call (QHistoryPage scope limit before) (fun a => Ret (l, a)).

(** ** Routing *)
Record ChannelRoute : Type := MkRoute { cr_channel : ChannelKind; cr_conversation_id : string; cr_product_id : string }.
Record ProductRouter : Type := MkRouter { rt_products : gset string; rt_routes : list ((ChannelKind * string) * string) }.

(** [ProductRouter.__init__] *)
Definition add_route (products : gset string) (indexed : list ((ChannelKind * string) * string)) (route : ChannelRoute) : exc + list ((ChannelKind * string) * string) :=
  if bool_decide (cr_product_id route ∉ products) then inl (Exc ValueError) else
  let key := (cr_channel route, cr_conversation_id route) in
  if negb (is_none (dget key indexed)) then inl (Exc ValueError) else inr (dset key (cr_product_id route) indexed).

Definition product_router (product_ids : list string) (routes : list ChannelRoute) : exc + ProductRouter :=
  if bool_decide (product_ids = []) || negb (bool_decide (NoDup product_ids)) then inl (Exc ValueError) else
  let products := list_to_set product_ids in
  try! indexed := efold (add_route products) [] routes in
  inr (MkRouter products indexed).

(** [resolve] *)
Definition resolve (self : ProductRouter) (message : InboundMessage) : exc + string :=
  match dget (im_channel message, im_conversation_id message) (rt_routes self) with
  | Some configured =>
      match im_product_id message with
      | Some selected => if bool_decide (selected = configured) then inr configured else inl ChannelAdmissionError
      | None => inr configured
      end
  | None =>
      match im_product_id message with
      | Some selected => if bool_decide (selected ∈ rt_products self) then inr selected else inl ChannelAdmissionError
      | None => match elements (rt_products self) with [only] => inr only | _ => inl ChannelAdmissionError end
      end
  end.

(** ** The gateway: whether the optional authorizers are configured; its other collaborators are questions. *)
Record EnterpriseChannelGateway : Type := MkGateway {
  gw_tenant_id : string;
  gw_router : ProductRouter;
  gw_agent_ids : list (string * string);
  gw_share_conversation_sessions : bool;
  gw_conversation_authorizer : bool;
  gw_product_access_authorizer : bool;
}.

(** A finite number in (0, 60], and no [bool] *)
Definition timeout_seconds (v : pyarg) : bool :=
  match v with AInt n => (0 <? n) && (n <=? 60) | AFloat us => (0 <? us) && (us <=? seconds 60) | _ => false end.

(** [EnterpriseChannelGateway.__init__] *)
Definition enterprise_channel_gateway (self : EnterpriseChannelGateway) (authentication_timeout authorization_timeout : pyarg) : exc + EnterpriseChannelGateway :=
  if timeout_seconds authentication_timeout && timeout_seconds authorization_timeout then inr self else inl (Exc ValueError).

Definition unit_separator : string := String (ascii_of_nat 31) "".

Definition digest40 (text : string) : string := String.substring 0 40 (sha256_hex text).

(** [_safe_id] *)
Definition safe_id (prefix : string) (values : list string) : string := prefix +:+ "-" +:+ digest40 (String.concat unit_separator values).

(** [except TimeoutError / except Exception as exc: raise ChannelAdmissionError] *)
Definition fails_closed (x : exc) : exc := match x with Exc CancelledError => x | _ => ChannelAdmissionError end.

Section Methods.
Context (self : EnterpriseChannelGateway).

(** [_authenticate] *)
Definition authenticate (message : InboundMessage) : M AuthenticatedPrincipal :=
  do principal <- rethrow (authenticator_says message) fails_closed in
  match principal with
  | Some principal => if bool_decide (ap_tenant_id principal = gw_tenant_id self) then ret principal else raise ChannelAdmissionError
  | None => raise ChannelAdmissionError
  end.

(** [_require_web] *)
Definition require_web (message : InboundMessage) : M unit := if bool_decide (im_channel message = WEB) then ret tt else raise ChannelAdmissionError.

(** [_authorize], and what is done with its answer *)
Definition authorize (who : authorizer) (principal : AuthenticatedPrincipal) (message : InboundMessage) (product_id : string) : M bool :=
  rethrow (authorizer_says who principal (im_channel message) (im_conversation_id message) product_id) fails_closed.

Definition demand (who : authorizer) (principal : AuthenticatedPrincipal) (message : InboundMessage) (product_id : string) : M unit :=
  do allowed <- authorize who principal message product_id in if (allowed : bool) then ret tt else raise ChannelAdmissionError.

(** The session scope: the conversation, or what a trusted Feishu adapter put into the metadata *)
Definition session_scope_id (message : InboundMessage) : exc + string :=
  match im_channel message with
  | WEB => inr (im_conversation_id message)
  | FEISHU =>
      match dget "session_scope_id" (im_metadata message) with
      | None | Some JNull => inr (im_conversation_id message)
      | Some (JStr trusted) =>
          if bool_decide (trusted = "") || (1024 <? py_len trusted) || Paths.has_nul trusted then inl ChannelAdmissionError else inr trusted
      | Some _ => inl ChannelAdmissionError
      end
  end.

(** [session_values] *)
Definition session_values (message : InboundMessage) (principal : AuthenticatedPrincipal) (product_id session_scope : string) : list string :=
  [channel_value (im_channel message); session_scope; product_id] ++ (if gw_share_conversation_sessions self then [] else [ap_principal_id principal]).

(** The request scope [_scope_for] returns *)
Definition request_for (message : InboundMessage) (principal : AuthenticatedPrincipal) (product_id session_scope : string) : res RequestScope :=
  let channel := channel_value (im_channel message) in
  let session_id := safe_id "session" (session_values message principal product_id session_scope) in
  let request_id := safe_id "request" [channel; im_event_id message] in
  let correlation_id := safe_id "correlation" [channel; im_conversation_id message; im_message_id message] in
  let agent_id := default "default" (dget product_id (gw_agent_ids self)) in
  let session_owner_id :=
    if gw_share_conversation_sessions self then safe_id "shared" [gw_tenant_id self; channel; im_conversation_id message; product_id]
    else ap_principal_id principal in
  let! path := agent_path (gw_tenant_id self) product_id agent_id session_id in
  request_scope (MkRequestScope path (ap_principal_id principal) channel (ap_roles principal) "company-channel-message" request_id correlation_id (Some session_owner_id)).

Definition is_web (message : InboundMessage) : bool := bool_decide (im_channel message = WEB).

(** [_scope_for] *)
Definition scope_for (message : InboundMessage) (principal : AuthenticatedPrincipal) : M RequestScope :=
  if negb (bool_decide (ap_tenant_id principal = gw_tenant_id self)) || (is_web message && negb (bool_decide (im_sender_external_id message = ap_principal_id principal)))
  then raise ChannelAdmissionError else
  do product_id <- of_sum (resolve (gw_router self) message) in
  do _ <- (if gw_product_access_authorizer self then demand ProductAccess principal message product_id else ret tt) in
  do _ <- (if gw_share_conversation_sessions self && is_web message then
             if gw_conversation_authorizer self then demand Conversation principal message product_id else raise ChannelAdmissionError
           else ret tt) in
  do session_scope <- of_sum (session_scope_id message) in
  of_sum (of_res (request_for message principal product_id session_scope)).

(** The public methods *)
Definition dispatch_principal (message : InboundMessage) (principal : AuthenticatedPrincipal) : M unit :=
  do scope <- scope_for message principal in yields_handled message scope.
Definition dispatch (message : InboundMessage) : M unit :=
  do principal <- authenticate message in dispatch_principal message principal.
Definition dispatch_authenticated (message : InboundMessage) (principal : AuthenticatedPrincipal) : M unit :=
  do _ <- require_web message in dispatch_principal message principal.
Definition stop (message : InboundMessage) (target : option string) : M RunStopOutcome :=
  do principal <- authenticate message in do scope <- scope_for message principal in app_stop scope target.
Definition stop_authenticated (message : InboundMessage) (principal : AuthenticatedPrincipal) (target : string) : M RunStopOutcome :=
  do _ <- require_web message in do scope <- scope_for message principal in app_stop scope (Some target).
Definition history_authenticated (message : InboundMessage) (principal : AuthenticatedPrincipal) (limit : Z) : M (list TranscriptEvent) :=
  do _ <- require_web message in do scope <- scope_for message principal in app_history scope limit true.
Definition history_page_authenticated (message : InboundMessage) (principal : AuthenticatedPrincipal) (limit : Z) (before : option Z) : M HistoryPage :=
  do _ <- require_web message in do scope <- scope_for message principal in app_history_page scope limit before.
Definition continue_authenticated (message : InboundMessage) (principal : AuthenticatedPrincipal) (target : string) : M unit :=
  do _ <- require_web message in do scope <- scope_for message principal in yields_continued message scope target.
End Methods.

(** ** What reaches the application *)
Abbreviation ev := (event ans).

Definition entered (e : ev) : option RequestScope :=
  match projT1 e with
  | QHandle _ scope | QStop scope _ | QHistory scope _ _ | QHistoryPage scope _ _ | QContinue _ scope _ => Some scope
  | QAuthenticate _ | QAuthorize _ _ _ _ _ => None
  end.

(** The public methods, their results dropped *)
Inductive call : Type :=
| CDispatch (message : InboundMessage)
| CDispatchAuthenticated (message : InboundMessage) (principal : AuthenticatedPrincipal)
| CStop (message : InboundMessage) (target : option string)
| CStopAuthenticated (message : InboundMessage) (principal : AuthenticatedPrincipal) (target : string)
| CHistory (message : InboundMessage) (principal : AuthenticatedPrincipal) (limit : Z)
| CHistoryPage (message : InboundMessage) (principal : AuthenticatedPrincipal) (limit : Z) (before : option Z)
| CContinue (message : InboundMessage) (principal : AuthenticatedPrincipal) (target : string).

Definition perform (self : EnterpriseChannelGateway) (c : call) : M unit :=
  match c with
  | CDispatch m => dispatch self m
  | CDispatchAuthenticated m p => dispatch_authenticated self m p
  | CStop m t => do _ <- stop self m t in ret tt
  | CStopAuthenticated m p t => do _ <- stop_authenticated self m p t in ret tt
  | CHistory m p n => do _ <- history_authenticated self m p n in ret tt
  | CHistoryPage m p n b => do _ <- history_page_authenticated self m p n b in ret tt
  | CContinue m p t => continue_authenticated self m p t
  end.

Definition message_of (c : call) : InboundMessage :=
  match c with
  | CDispatch m | CDispatchAuthenticated m _ | CStop m _ | CStopAuthenticated m _ _ | CHistory m _ _ | CHistoryPage m _ _ _ | CContinue m _ _ => m
  end.

(** Whose call it is: what the authenticator answered, or the identity of a Web handshake *)
Definition identity (c : call) (h : list ev) (principal : AuthenticatedPrincipal) : Prop :=
  match c with
  | CDispatch m | CStop m _ => (QAuthenticate m ~> inr (Some principal) : ev) ∈ h
  | CDispatchAuthenticated m p | CStopAuthenticated m p _ | CHistory m p _ | CHistoryPage m p _ _ | CContinue m p _ => p = principal /\ im_channel m = WEB
  end.

Definition allowed (who : authorizer) (message : InboundMessage) (principal : AuthenticatedPrincipal) (product_id : string) (h : list ev) : Prop :=
  (QAuthorize who principal (im_channel message) (im_conversation_id message) product_id ~> inr true : ev) ∈ h.

(** The scope was built for this message and principal, after everybody to be asked had agreed. *)
Definition admitted (self : EnterpriseChannelGateway) (message : InboundMessage) (principal : AuthenticatedPrincipal) (product_id session_scope : string) (scope : RequestScope) (h : list ev) : Prop :=
  ap_tenant_id principal = gw_tenant_id self /\
  (im_channel message = WEB -> im_sender_external_id message = ap_principal_id principal) /\
  resolve (gw_router self) message = inr product_id /\
  (gw_product_access_authorizer self = true -> allowed ProductAccess message principal product_id h) /\
  (gw_share_conversation_sessions self = true -> im_channel message = WEB ->
     gw_conversation_authorizer self = true /\ allowed Conversation message principal product_id h) /\
  session_scope_id message = inr session_scope /\
  request_for self message principal product_id session_scope = Ok scope.

Section Admission.
Context (self : EnterpriseChannelGateway) (I : list ev -> ev -> Prop) (HI : forall h e, entered e = None -> I h e).

Lemma authenticate_wp message l h : mwp I (authenticate self message) l h
  (fun principal l' h' => (QAuthenticate message ~> inr (Some principal) : ev) ∈ h' /\ ap_tenant_id principal = gw_tenant_id self) (fun _ _ _ => True).
Proof.
  unfold authenticate. apply mwp_bind, mwp_rethrow, mwp_ask. intros a. split; [by apply HI|]. destruct a as [x|[p|]]; [done| |done].
  case_bool_decide; [|done]. apply mwp_ret. split; [by left|done].
Qed.

Lemma demand_wp who principal message product l h : mwp I (demand who principal message product) l h
  (fun _ _ h' => allowed who message principal product h' /\ h ⊆ h') (fun _ _ _ => True).
Proof.
  unfold demand, authorize. apply mwp_bind, mwp_rethrow, mwp_ask. intros a. split; [by apply HI|].
  destruct a as [x|[|]]; [done| |done]. apply mwp_ret. split; [by left|set_solver].
Qed.

Lemma require_web_wp message l h : mwp I (require_web message) l h (fun _ _ h' => im_channel message = WEB /\ h' = h) (fun _ _ _ => True).
Proof. unfold require_web. by case_bool_decide. Qed.

Lemma scope_for_wp message principal l h : mwp I (scope_for self message principal) l h
  (fun scope _ h' => (exists product session, admitted self message principal product session scope h') /\ h ⊆ h') (fun _ _ _ => True).
Proof.
  unfold scope_for. destruct (bool_decide (ap_tenant_id principal = gw_tenant_id self)) eqn:Ht; [|done]. apply bool_decide_eq_true in Ht. simpl.
  destruct (is_web message && _) eqn:Hw; [done|].
  assert (im_channel message = WEB -> im_sender_external_id message = ap_principal_id principal) as Hs.
  { intros Hc. unfold is_web in Hw. rewrite bool_decide_true in Hw by done. simpl in Hw. by apply negb_false_iff, bool_decide_eq_true in Hw. }
  clear Hw.
  apply mwp_bind, mwp_of_sum; [|done]. intros product Hp. apply mwp_bind.
  apply mwp_mono with (R := fun _ _ h' => (gw_product_access_authorizer self = true -> allowed ProductAccess message principal product h') /\ h ⊆ h')
    (E := fun _ _ _ => True); [|done|].
  2:{ destruct (gw_product_access_authorizer self); [|by apply mwp_ret].
      eapply mwp_mono; [| |apply demand_wp]; [|done]. simpl. intros _ _ h' [? ?]. by split. }
  intros _ l1 h1 [H1 Hh1]. apply mwp_bind.
  apply mwp_mono with (R := fun _ _ h' => (gw_share_conversation_sessions self = true -> im_channel message = WEB ->
      gw_conversation_authorizer self = true /\ allowed Conversation message principal product h') /\ h1 ⊆ h') (E := fun _ _ _ => True); [|done|].
  2:{ destruct (gw_share_conversation_sessions self); simpl; [|by apply mwp_ret]. unfold is_web. case_bool_decide; [|by apply mwp_ret].
      destruct (gw_conversation_authorizer self); [|done].
      eapply mwp_mono; [| |apply demand_wp]; [|done]. simpl. intros _ _ h' [? ?]. by split. }
  intros _ l2 h2 [H2 Hh2]. apply mwp_bind, mwp_of_sum; [|done]. intros session Hsess. apply mwp_of_sum; [|done].
  intros scope Hreq. split; [|set_solver]. exists product, session. unfold of_res in Hreq. destruct (request_for _ _ _ _ _) as [r|] eqn:Hr; [|done]. injection Hreq as ->.
  unfold admitted, allowed in *. split_and!; [done|done|done| |done|done|done]. intros Ha. apply Hh2. by apply H1.
Qed.
End Admission.

Definition guarded (self : EnterpriseChannelGateway) (c : call) (h : list ev) (e : ev) : Prop :=
  forall scope, entered e = Some scope -> exists principal product session,
    identity c h principal /\ admitted self (message_of c) principal product session scope h.

Lemma guarded_other self c h e : entered e = None -> guarded self c h e.
Proof. intros He scope Hs. by rewrite He in Hs. Qed.

Lemma perform_wp self c : mwp (guarded self c) (perform self c) [] [] (fun _ _ _ => True) (fun _ _ _ => True).
Proof.
  pose proof (guarded_other self c) as Hother.
  assert (forall A (m : RequestScope -> M A) principal l h,
    identity c h principal -> (forall scope l' h', h ⊆ h' -> (forall e, entered e = Some scope -> guarded self c h' e) -> mwp (guarded self c) (m scope) l' h' (fun _ _ _ => True) (fun _ _ _ => True)) ->
    mwp (guarded self c) (do scope <- scope_for self (message_of c) principal in m scope) l h (fun _ _ _ => True) (fun _ _ _ => True)) as Hscope.
  { intros A m principal l h Hid Hm. apply mwp_bind. eapply mwp_mono; [| |by apply scope_for_wp]; [|done]. simpl.
    intros scope l' h' [(product & session & Had) Hh]. apply Hm; [done|]. intros e He s Hs. rewrite He in Hs. injection Hs as <-.
    exists principal, product, session. split; [|done]. destruct c; simpl in *; try done; by apply Hh. }
  assert (forall A (m : M A) l h, mwp (guarded self c) m l h (fun _ _ _ => True) (fun _ _ _ => True) ->
    mwp (guarded self c) (do _ <- m in ret tt) l h (fun _ _ _ => True) (fun _ _ _ => True)) as Hdrop.
  { intros A m l h Hm. apply mwp_bind. eapply mwp_mono; [| |exact Hm]; [|done]. intros. by apply mwp_ret. }
  destruct c; simpl perform; try apply Hdrop; unfold dispatch, dispatch_authenticated, dispatch_principal, stop, stop_authenticated, history_authenticated, history_page_authenticated, continue_authenticated;
    apply mwp_bind; (eapply mwp_mono; [|intros ? ? ? Hx; exact Hx|first [by apply authenticate_wp|by apply require_web_wp]]); simpl;
    intros p l h [Hid Hh]; (apply Hscope; [by try subst p|]);
    intros scope l' h' _ Hg a; (split; [by apply Hg|]); unfold wp; simpl; by repeat case_match.
Qed.

(** ** Routes lead to active products *)
Lemma add_route_ok products indexed route indexed' : add_route products indexed route = inr indexed' ->
  indexed' = dset (cr_channel route, cr_conversation_id route) (cr_product_id route) indexed /\ cr_product_id route ∈ products /\
  dget (cr_channel route, cr_conversation_id route) indexed = None.
Proof.
  unfold add_route. case_bool_decide as Hp; [done|]. destruct (dget _ indexed); simpl; [done|]. intros [= <-].
  split; [done|]. by split.
Qed.

Lemma product_router_ok ids routes router : product_router ids routes = inr router ->
  rt_products router = list_to_set ids /\ NoDup ids /\ ids <> [] /\
  (forall channel conversation product, dget (channel, conversation) (rt_routes router) = Some product -> product ∈ ids /\ MkRoute channel conversation product ∈ routes).
Proof.
  unfold product_router. destruct (bool_decide (ids = [])) eqn:He; [done|]. destruct (bool_decide (NoDup ids)) eqn:Hn; [|done]. simpl.
  apply bool_decide_eq_false in He. apply bool_decide_eq_true in Hn. intros (indexed & Hf & [= <-])%ebind_inr. simpl.
  split; [done|]. split; [done|]. split; [done|].
  cut (forall channel conversation product, dget (channel, conversation) indexed = Some product -> product ∈ (list_to_set ids : gset string) /\ MkRoute channel conversation product ∈ routes).
  { intros Hc ch cv p Hg. destruct (Hc ch cv p Hg) as [Hp ?]. split; [|done]. by apply elem_of_list_to_set in Hp. }
  refine (efold_ind (fun seen indexed => forall channel conversation product, dget (channel, conversation) indexed = Some product ->
    product ∈ (list_to_set ids : gset string) /\ MkRoute channel conversation product ∈ seen) _ _ _ _ _ _ Hf); [done|].
  intros seen route rest st st' _ Hi Hs ch cv p Hg. apply add_route_ok in Hs as (-> & Hp & _). rewrite dget_dset in Hg. case_decide as Hk.
  - injection Hk as -> ->. injection Hg as <-. split; [done|]. apply elem_of_app. right. destruct route. by apply list_elem_of_singleton.
  - destruct (Hi _ _ _ Hg). split; [done|]. apply elem_of_app. by left.
Qed.

Lemma resolve_active ids routes router message product : product_router ids routes = inr router -> resolve router message = inr product -> product ∈ ids.
Proof.
  intros (Hp & _ & _ & Hr)%product_router_ok. unfold resolve. destruct (dget _ _) as [configured|] eqn:Hg.
  - destruct (im_product_id message) as [selected|]; [case_bool_decide; [|done]|]; intros [= <-]; by eapply Hr.
  - destruct (im_product_id message) as [selected|].
    + case_bool_decide as Hin; [|done]. intros [= <-]. rewrite Hp in Hin. by apply elem_of_list_to_set in Hin.
    + destruct (elements (rt_products router)) as [|only [|]] eqn:He; try done. intros [= <-].
      assert (only ∈ elements (rt_products router)) as Hin by (rewrite He; by left). rewrite Hp in Hin. by apply elem_of_elements, elem_of_list_to_set in Hin.
Qed.

Lemma request_for_ok self message principal product session scope : request_for self message principal product session = Ok scope ->
  valid_request scope /\ IDENTIFIER product = true /\ IDENTIFIER (ap_principal_id principal) = true /\
  path_kind (rs_path scope) = AGENT /\ path_tenant_id (rs_path scope) = Some (gw_tenant_id self) /\ path_product_id (rs_path scope) = Some product /\
  path_session_id (rs_path scope) = Some (safe_id "session" (session_values self message principal product session)) /\
  rs_principal_id scope = ap_principal_id principal /\ rs_roles scope = ap_roles principal /\ rs_channel_id scope = channel_value (im_channel message) /\
  (gw_share_conversation_sessions self = false -> rs_session_owner_id scope = Some (ap_principal_id principal)).
Proof.
  unfold request_for. intros (path & Hp & Hr)%res_bind_Ok. apply scope_path_Ok in Hp as [-> Hv].
  unfold request_scope in Hr. apply res_bind_Ok in Hr as ([] & Hr & [= <-]). simpl.
  pose proof (proj1 (valid_path_inv _) Hv) as Hi. simpl in Hi. destruct Hi as (t & q & a & s & [= <- <- <- <-] & _ & Hq & _ & _).
  assert (IDENTIFIER (ap_principal_id principal) = true) as Hid.
  { unfold request_post_init in Hr. simpl in Hr. py_simpl. match goal with Hi : identifier (ap_principal_id principal) = Ok _ |- _ => by apply identifier_Ok in Hi as [? _] end. }
  split; [by split|]. split_and!; try done. by intros ->.
Qed.


(** C24. Nothing enters the application but scopes the gateway admitted.  In every trace of every
    public method, when the application is called with a scope, then that scope is valid and belongs to
    the tenant of the deployment and to a principal of that tenant - the one the authenticator
    answered, or, for a Web handshake, the one whose name the message bears -, its product is
    the one the routes and the message agree on and is active, and every authorizer
    that is configured had answered [True] for this principal, conversation and product. *)
Theorem channels_serve_admitted_scopes self ids routes c t o t1 e t2 scope :
  product_router ids routes = inr (gw_router self) -> run_to (perform self c []) t o -> t = t1 ++ e :: t2 -> entered e = Some scope ->
  exists principal product,
    (identity c (reverse t1) principal /\ ap_tenant_id principal = gw_tenant_id self /\
     (im_channel (message_of c) = WEB -> im_sender_external_id (message_of c) = ap_principal_id principal)) /\
    (resolve (gw_router self) (message_of c) = inr product /\ product ∈ ids) /\
    (gw_product_access_authorizer self = true -> allowed ProductAccess (message_of c) principal product (reverse t1)) /\
    (gw_share_conversation_sessions self = true -> im_channel (message_of c) = WEB ->
       gw_conversation_authorizer self = true /\ allowed Conversation (message_of c) principal product (reverse t1)) /\
    valid_request scope /\ path_tenant_id (rs_path scope) = Some (gw_tenant_id self) /\ path_product_id (rs_path scope) = Some product /\
    rs_principal_id scope = ap_principal_id principal /\ rs_roles scope = ap_roles principal /\
    (gw_share_conversation_sessions self = false -> rs_session_owner_id scope = Some (ap_principal_id principal)).
Proof.
  intros Hrouter Ht Heq He. pose proof (mwp_guards _ _ _ _ _ _ _ (perform_wp self c) Ht t1 e t2 Heq scope He) as (p & product & session & Hid & Had).
  destruct Had as (Htenant & Hsender & Hres & Hprod & Hconv & _ & Hreq). apply request_for_ok in Hreq as (Hv & _ & _ & _ & Hpt & Hpp & _ & Hpr & Hro & _ & Hown).
  exists p, product. split_and!; try done. by eapply resolve_active.
Qed.

(** ** Session ids *)
Lemma split_last {X : Type} (sep : X) x x' y y' : sep ∉ y -> sep ∉ y' -> x ++ sep :: y = x' ++ sep :: y' -> x = x' /\ y = y'.
Proof.
  intros Hy Hy'. revert x'. induction x as [|c x IH]; intros [|c' x'] Heq; simplify_eq/=.
  - done.
  - destruct Hy. set_solver.
  - destruct Hy'. set_solver.
  - destruct (IH x'); by subst.
Qed.

Lemma split_first {X : Type} (sep : X) x x' y y' : sep ∉ x -> sep ∉ x' -> x ++ sep :: y = x' ++ sep :: y' -> x = x' /\ y = y'.
Proof.
  intros Hx Hx' Heq. apply (f_equal reverse) in Heq. rewrite !reverse_app, !reverse_cons, <- !app_assoc in Heq. simpl in Heq.
  apply split_last in Heq as [Hy Hr]; [|by rewrite elem_of_reverse..]. apply (inj reverse) in Hy, Hr. done.
Qed.

Abbreviation us := (ascii_of_nat 31).

Lemma identifier_no_us s : IDENTIFIER s = true -> us ∉ chars s.
Proof.
  unfold IDENTIFIER, head_then. destruct (chars s) as [|c l]; [done|]. intros [[Hc Hl]%andb_true_iff _]%andb_true_iff [Heq|Hin]%elem_of_cons.
  - subst c. done.
  - rewrite forallb_forall in Hl. apply list_elem_of_In in Hin. by apply Hl in Hin.
Qed.

Lemma channel_no_us k : us ∉ chars (channel_value k).
Proof. apply identifier_no_us. by destruct k. Qed.

Lemma concat_cons sep x y l : chars (String.concat sep (x :: y :: l)) = chars x ++ chars sep ++ chars (String.concat sep (y :: l)).
Proof. change (String.concat sep (x :: y :: l)) with (String.append x (String.append sep (String.concat sep (y :: l)))). unfold chars. by rewrite !list_ascii_of_string_app. Qed.

Lemma chars_us : chars unit_separator = [us].
Proof. reflexivity. Qed.

Lemma safe_id_inj prefix values values' : safe_id prefix values = safe_id prefix values' ->
  digest40 (String.concat unit_separator values) = digest40 (String.concat unit_separator values').
Proof.
  unfold safe_id. intros Heq. apply (f_equal chars) in Heq. unfold chars in Heq. rewrite !list_ascii_of_string_app in Heq.
  do 2 apply app_inv_head in Heq. by apply list_ascii_of_string_inj.
Qed.

Definition session_text (self : EnterpriseChannelGateway) message principal product session_scope : string :=
  String.concat unit_separator (session_values self message principal product session_scope).

Lemma channel_value_inj : Inj eq eq channel_value.
Proof. by intros [] []. Qed.

Lemma session_text_inj self m1 p1 q1 s1 m2 p2 q2 s2 :
  IDENTIFIER q1 = true -> IDENTIFIER q2 = true -> IDENTIFIER (ap_principal_id p1) = true -> IDENTIFIER (ap_principal_id p2) = true ->
  session_text self m1 p1 q1 s1 = session_text self m2 p2 q2 s2 ->
  im_channel m1 = im_channel m2 /\ s1 = s2 /\ q1 = q2 /\ (gw_share_conversation_sessions self = false -> ap_principal_id p1 = ap_principal_id p2).
Proof.
  intros Hq1 Hq2 Hp1 Hp2 Heq. apply (f_equal chars) in Heq. unfold session_text, session_values in Heq.
  destruct (gw_share_conversation_sessions self); simpl app in Heq; rewrite !concat_cons, chars_us in Heq; simpl in Heq.
  - apply split_first in Heq as [Hc Heq]; [|apply channel_no_us..]. apply split_last in Heq as [Hs Hq]; [|by apply identifier_no_us..].
    apply list_ascii_of_string_inj in Hc, Hs, Hq. apply channel_value_inj in Hc. done.
  - apply split_first in Heq as [Hc Heq]; [|apply channel_no_us..]. rewrite !app_comm_cons, !app_assoc in Heq.
    apply split_last in Heq as [Hs Hp]; [|by apply identifier_no_us..]. apply split_last in Hs as [Hs Hq]; [|by apply identifier_no_us..].
    apply list_ascii_of_string_inj in Hc, Hs, Hq, Hp. apply channel_value_inj in Hc. done.
Qed.

(** C25. Sessions of a gateway are isolated.  Two admitted scopes have the same path - tenant, product, agent and
    session - exactly when they come from the same channel, the same conversation (or trusted session
    scope), the same product and, unless conversations are shared, the same principal: whatever characters a
    client puts into its conversation id, the joined text it is hashed with determines
    every part.  That SHA-256 does not collide on these two texts is assumed. *)
Theorem channel_sessions_are_isolated self m1 p1 q1 s1 scope1 h1 m2 p2 q2 s2 scope2 h2 :
  admitted self m1 p1 q1 s1 scope1 h1 -> admitted self m2 p2 q2 s2 scope2 h2 ->
  (digest40 (session_text self m1 p1 q1 s1) = digest40 (session_text self m2 p2 q2 s2) -> session_text self m1 p1 q1 s1 = session_text self m2 p2 q2 s2) ->
  rs_path scope1 = rs_path scope2 <->
    im_channel m1 = im_channel m2 /\ s1 = s2 /\ q1 = q2 /\ (gw_share_conversation_sessions self = false -> ap_principal_id p1 = ap_principal_id p2).
Proof.
  intros (_ & _ & _ & _ & _ & _ & Hr1) (_ & _ & _ & _ & _ & _ & Hr2) Hnc. split.
  - intros Hpath. apply request_for_ok in Hr1 as (_ & Hq1 & Hp1 & _ & _ & _ & Hs1 & _), Hr2 as (_ & Hq2 & Hp2 & _ & _ & _ & Hs2 & _).
    apply (session_text_inj self); try done. apply Hnc. rewrite Hpath, Hs2 in Hs1. apply (inj Some) in Hs1. symmetry. by apply (safe_id_inj "session").
  - intros (Hc & -> & -> & Hp).
    assert (session_values self m1 p1 q2 s2 = session_values self m2 p2 q2 s2) as Hv.
    { unfold session_values. rewrite Hc. destruct (gw_share_conversation_sessions self); [done|]. by rewrite Hp. }
    unfold request_for in Hr1, Hr2. rewrite Hv in Hr1. apply res_bind_Ok in Hr1 as (path1 & Ha1 & Hr1), Hr2 as (path2 & Ha2 & Hr2).
    rewrite Ha1 in Ha2. injection Ha2 as <-. unfold request_scope in Hr1, Hr2.
    apply res_bind_Ok in Hr1 as (? & _ & [= <-]), Hr2 as (? & _ & [= <-]). done.
Qed.
End Gateway.

(** ** A message from Feishu and two conversations of the Web *)
Definition demo_digit (n : Z) : ascii := ascii_of_nat (Z.to_nat (if n <? 10 then 48 + n else 87 + n)).
#[local] Instance demo_hashing : Hashing :=
  fun s => String.string_of_list_ascii (List.concat (List.map (fun c => [demo_digit (code c / 16); demo_digit (code c mod 16)]) (chars s))).

Definition demo_routes : list ChannelRoute := [MkRoute FEISHU "sales" "crm"].
Definition demo_router : ProductRouter := MkRouter {["crm"; "docs"]} [((FEISHU, "sales"), "crm")].
Definition demo_gateway : EnterpriseChannelGateway := MkGateway "acme" demo_router [] false false true.
Definition demo_message (kind : ChannelKind) (conversation : string) (product : option string) : InboundMessage :=
  MkInbound kind "e1" "m1" conversation (match kind with WEB => "ann" | FEISHU => "ou_1" end) "Hi." product [] 0 [].
Definition demo_ann : AuthenticatedPrincipal := MkPrincipal "acme" "ann" ∅.

Definition demo_env (q : @question) (s : unit) : @ans unit q * unit :=
  match q return @ans unit q * unit with
  | QAuthenticate _ => (inr (Some demo_ann), s)
  | QAuthorize _ _ _ _ _ => (inr true, s)
  | QHandle _ _ | QContinue _ _ _ => (([], None), s)
  | QStop _ _ => (inr NOT_FOUND, s)
  | QHistory _ _ _ => (inr [], s)
  | QHistoryPage _ _ _ => (inr tt, s)
  end.

Definition demo_scope (m : InboundMessage) (product session : string) : RequestScope :=
  match request_for demo_gateway m demo_ann product session with
  | Ok scope => scope
  | Raise _ => MkRequestScope (MkScopePath ROOT None None None None) "" "" ∅ "" "" "" None
  end.
Definition demo_call : call := CDispatch (demo_message FEISHU "sales" None).
Definition demo_trace := (interp demo_env (perform demo_gateway demo_call []) tt).1.1.

Lemma channels_serve_admitted_scopes_witness : exists principal product,
  product ∈ ["crm"; "docs"] /\ rs_principal_id (demo_scope (demo_message FEISHU "sales" None) "crm" "sales") = ap_principal_id principal.
Proof.
  destruct (channels_serve_admitted_scopes (HistoryPage := unit) demo_gateway ["crm"; "docs"] demo_routes demo_call demo_trace
    (interp demo_env (perform demo_gateway demo_call []) tt).1.2
    [QAuthenticate (demo_message FEISHU "sales" None) ~> inr (Some demo_ann); QAuthorize ProductAccess demo_ann FEISHU "sales" "crm" ~> inr true]
    (QHandle (demo_message FEISHU "sales" None) (demo_scope (demo_message FEISHU "sales" None) "crm" "sales") ~> ([], None)) []
    (demo_scope (demo_message FEISHU "sales" None) "crm" "sales"))
    as (principal & product & _ & [_ Hin] & _ & _ & _ & _ & _ & Hp & _).
  - vm_compute. reflexivity.
  - apply interp_run_to.
  - vm_compute. reflexivity.
  - reflexivity.
  - exists principal, product. by split.
Defined.

(** The separator in a conversation id does not make two conversations one. *)
Definition demo_tricky : string := "c" +:+ unit_separator +:+ "docs".

Lemma demo_admitted m product session :
  im_channel m = WEB -> im_sender_external_id m = "ann" -> resolve demo_router m = inr product ->
  session_scope_id m = inr session -> is_Ok (request_for demo_gateway m demo_ann product session) = true ->
  admitted (HistoryPage := unit) demo_gateway m demo_ann product session (demo_scope m product session)
    [QAuthorize ProductAccess demo_ann WEB (im_conversation_id m) product ~> inr true].
Proof.
  intros Hc Hs Hr Hss Ho. unfold admitted, demo_scope. destruct (request_for _ _ _ _ _); [|done].
  split_and!; try done. intros _. unfold allowed. rewrite Hc. by left.
Qed.

Lemma channel_sessions_are_isolated_witness :
  rs_path (demo_scope (demo_message WEB "c" (Some "docs")) "docs" "c") <> rs_path (demo_scope (demo_message WEB demo_tricky (Some "docs")) "docs" demo_tricky).
Proof.
  intros Heq. apply (channel_sessions_are_isolated (HistoryPage := unit) demo_gateway (demo_message WEB "c" (Some "docs")) demo_ann "docs" "c" _
    _ (demo_message WEB demo_tricky (Some "docs")) demo_ann "docs" demo_tricky _ _ (demo_admitted (demo_message WEB "c" (Some "docs")) "docs" "c" eq_refl eq_refl eq_refl eq_refl eq_refl)
    (demo_admitted (demo_message WEB demo_tricky (Some "docs")) "docs" demo_tricky eq_refl eq_refl eq_refl eq_refl eq_refl)) in Heq as (_ & Hc & _).
  - by vm_compute in Hc.
  - vm_compute. intros Hd. discriminate Hd.
Defined.
End Channels.

(** ** The company directory ([channels/auth.py]) *)
Module Directory.
Import Tasks Channels.

Record CompanyIdentity : Type := MkIdentity { ci_principal_id : string; ci_roles : gset string }.

(** [CompanyIdentity.__post_init__] *)
Definition company_identity (i : CompanyIdentity) : res CompanyIdentity :=
  match authenticated_principal (MkPrincipal "validation-tenant" (ci_principal_id i) (ci_roles i)) with
  | Ok checked => Ok (MkIdentity (ap_principal_id checked) (ap_roles checked))
  | Raise _ => Raise ValueError
  end.

(** The directory's answer; [None] stands for everything that is no [CompanyIdentity]. *)
Inductive lookup : Type := QResolveFeishu (tenant_id sender_external_id : string).
Definition answer (q : lookup) : Type := match q with QResolveFeishu _ _ => exc + option CompanyIdentity end%type.
Definition resolve_feishu_identity tenant sender : task answer unit exc (option CompanyIdentity) := fun l => Call (QResolveFeishu tenant sender) (fun a => Ret (l, a)).

(** [FeishuCompanyAuthenticator.__init__] *)
Definition feishu_company_authenticator (tenant_id : string) : res string :=
  match authenticated_principal (MkPrincipal tenant_id "validation-principal" ∅) with Ok checked => Ok (ap_tenant_id checked) | Raise _ => Raise ValueError end.

(** [FeishuCompanyAuthenticator.authenticate] *)
Definition authenticate_feishu (tenant_id : string) (message : InboundMessage) : task answer unit exc (option AuthenticatedPrincipal) :=
  if negb (bool_decide (im_channel message = FEISHU)) then ret None else
  do identity <- resolve_feishu_identity tenant_id (im_sender_external_id message) in
  match identity with
  | None => ret None
  | Some identity =>
      do principal <- of_sum (Channels.of_res (authenticated_principal (MkPrincipal tenant_id (ci_principal_id identity) (ci_roles identity)))) in ret (Some principal)
  end.

(** The directory names the principal and its roles, never the tenant; it is asked about the verified
    sender of a Feishu message only, and message metadata is no part of the question. *)
Theorem directories_never_choose_tenants tenant_id message l t l' principal : run_to (authenticate_feishu tenant_id message l) t (Done (l', inr (Some principal))) ->
  im_channel message = FEISHU /\ ap_tenant_id principal = tenant_id /\ IDENTIFIER (ap_principal_id principal) = true /\
  exists identity, t = [QResolveFeishu tenant_id (im_sender_external_id message) ~> inr (Some identity)] /\
    ci_principal_id identity = ap_principal_id principal /\ ci_roles identity = ap_roles principal.
Proof.
  intros Hr. rewrite <- (reverse_involutive t). refine (proj2 (mwp_sound (fun _ _ => True) _ _ (fun r _ h => forall principal, r = Some principal -> im_channel message = FEISHU /\
    ap_tenant_id principal = tenant_id /\ IDENTIFIER (ap_principal_id principal) = true /\
    exists identity, reverse h = [QResolveFeishu tenant_id (im_sender_external_id message) ~> inr (Some identity)] /\
      ci_principal_id identity = ap_principal_id principal /\ ci_roles identity = ap_roles principal) (fun _ _ _ => True) _ _ _ _ Hr) principal eq_refl).
  unfold authenticate_feishu. case_bool_decide as Hc; simpl; [|by apply mwp_ret].
  apply mwp_bind, mwp_ask. intros a. split; [done|]. destruct a as [x|[identity|]]; [done| |by apply mwp_ret].
  apply mwp_bind, mwp_of_sum; [|done]. intros p Hp. apply mwp_ret. intros p' [= <-]. unfold Channels.of_res, authenticated_principal in Hp. simpl in Hp.
  destruct (IDENTIFIER tenant_id), (IDENTIFIER (ci_principal_id identity)) eqn:Hid, (forallb IDENTIFIER (elements (ci_roles identity))); try done.
  injection Hp as <-. split_and!; [done..|]. by exists identity.
Qed.
End Directory.
