(* ===== verification/ChannelApprovals.v ===== *)
(** * Interactive approvals ([channels/approvals.py])

    [InteractiveApprovalCoordinator]: requests wait on futures that a Web client's
    decision, a timeout, a cancellation or the closing of the coordinator settles.  No critical
    section awaits anything, so every method is atomic but for the two awaits of
    [request_approval], the publication and the wait; steps of arbitrary callers
    interleave at these.  Times are microseconds. *)
From S2P Require Import Prelude PyText Json Scopes ExecModels.
Open Scope string_scope.
Open Scope Z_scope.
Open Scope list_scope.

Module Interactive.
Section Coordinator.
Context `{Hashing}.

Record ApprovalChallenge : Type := MkChallenge {
  ch_challenge_id : string;
  ch_principal_id : string;
  ch_run_id : string;
  ch_call_id : string;
  ch_tool_name : string;
  ch_tool_identity : string;
  ch_arguments : list (string * json);
  ch_expires_at : Z;
}.

(** An [asyncio.Future[str | None]] *)
Inductive future : Type := Unset | Result (approver : option string) | Cancelled.
Definition is_done (f : future) : bool := match f with Unset => false | _ => true end.

(** [_Pending]; futures are numbered by the request that created them. *)
Record Pending : Type := MkPending { pn_challenge : ApprovalChallenge; pn_target : ApprovalTarget; pn_future : nat }.

(** How [request_approval] ended *)
Inductive settled : Type := Returned (binding : option ApprovalBinding) | Raised (e : exn).
Inductive interruption : Type := TimedOut | TaskCancelled.

(** A call of [request_approval]: awaiting the publication, awaiting the future, interrupted while it
    did and about to resume, or over *)
Inductive task : Type :=
| Publishing
| Awaiting
| Interrupted (by_ : interruption)
| Over (r : settled).

Record waiter : Type := MkWaiter { wt_challenge : ApprovalChallenge; wt_target : ApprovalTarget; wt_task : task }.

Record InteractiveApprovalCoordinator : Type := MkCoordinator {
  co_pending : gmap string Pending;
  co_futures : list future;
  co_waiters : list waiter;
}.

(** [__init__]: the number of seconds, in microseconds *)
Definition coordinator (timeout : Z) : res InteractiveApprovalCoordinator :=
  require negb ((timeout <=? 0) || (seconds 600 <? timeout)) else ValueError ;; Ok (MkCoordinator ∅ [] []).

(** The arguments of a call, with the token that was drawn and the reading of the clock *)
Record Asked : Type := MkAsked {
  ak_request : RunRequest;
  ak_target : ApprovalTarget;
  ak_spec : ToolSpec;
  ak_arguments : list (string * json);
  ak_token : string;
  ak_now : Z;
}.

Section Steps.
Context (timeout : Z).

Definition challenge_of (a : Asked) : ApprovalChallenge :=
  MkChallenge (ak_token a) (rs_principal_id (rq_scope (ak_request a))) (rq_run_id (ak_request a)) (at_call_id (ak_target a)) (ts_name (ak_spec a))
    (canonical_id (at_tool_identity (ak_target a))) (ak_arguments a) (ak_now a + timeout).

(** [request_approval] up to the publication: a new future, registered under the challenge *)
Definition begin_request (s : InteractiveApprovalCoordinator) (a : Asked) : InteractiveApprovalCoordinator :=
  let challenge := challenge_of a in
  MkCoordinator (<[ak_token a := MkPending challenge (ak_target a) (length (co_futures s))]> (co_pending s))
    (co_futures s ++ [Unset]) (co_waiters s ++ [MkWaiter challenge (ak_target a) Publishing]).

(** [if not future.done(): future.cancel()] and [if not future.done(): future.set_result(None)] *)
Definition settle_with (v : future) (i : nat) (futures : list future) : list future :=
  match futures !! i with Some Unset => <[i := v]> futures | _ => futures end.

Definition move (s : InteractiveApprovalCoordinator) (i : nat) (w : waiter) (t : task) : InteractiveApprovalCoordinator :=
  MkCoordinator (co_pending s) (co_futures s) (<[i := MkWaiter (wt_challenge w) (wt_target w) t]> (co_waiters s)).

(** The [finally] block, and the end of the call *)
Definition leave (s : InteractiveApprovalCoordinator) (i : nat) (w : waiter) (cancel : bool) (r : settled) : InteractiveApprovalCoordinator :=
  MkCoordinator (delete (ch_challenge_id (wt_challenge w)) (co_pending s))
    (if cancel then settle_with Cancelled i (co_futures s) else co_futures s)
    (<[i := MkWaiter (wt_challenge w) (wt_target w) (Over r)]> (co_waiters s)).

(** How [self._publish] came back *)
Inductive publication : Type := Published | PublishTimeout | PublishCancelled | PublishRaised (e : exn).

Definition end_publish (s : InteractiveApprovalCoordinator) (i : nat) (w : waiter) (p : publication) : InteractiveApprovalCoordinator :=
  match p with
  | Published => move s i w Awaiting
  | PublishTimeout => leave s i w true (Returned None)
  | PublishCancelled => leave s i w true (Raised CancelledError)
  | PublishRaised e => leave s i w false (Raised e)
  end.

(** [wait_for] is interrupted: the future is cancelled unless it was done *)
Definition interrupt (s : InteractiveApprovalCoordinator) (i : nat) (w : waiter) (k : interruption) : InteractiveApprovalCoordinator :=
  let s := move s i w (Interrupted k) in MkCoordinator (co_pending s) (settle_with Cancelled i (co_futures s)) (co_waiters s).

(** [request_approval] after an approver answered *)
Definition decided (w : waiter) (approver : option string) (decided_at : Z) : settled :=
  match approver with
  | None => Returned None
  | Some approver =>
      match approval_binding (wt_target w) approver (Aware decided_at) (Aware (decided_at + seconds 30)) with
      | Ok binding => Returned (Some binding)
      | Raise e => Raised e
      end
  end.

(** [decide] *)
Definition decide_challenge (s : InteractiveApprovalCoordinator) (challenge_id principal_id : string) (approved : bool) (approved_by : string) : bool * InteractiveApprovalCoordinator :=
  match co_pending s !! challenge_id with
  | None => (false, s)
  | Some pending =>
      match co_futures s !! pn_future pending with
      | Some Unset =>
          if negb (bool_decide (ch_principal_id (pn_challenge pending) = principal_id)) then (false, s)
          else (true, MkCoordinator (co_pending s) (<[pn_future pending := Result (if approved then Some approved_by else None)]> (co_futures s)) (co_waiters s))
      | _ => (false, s)
      end
  end.

(** [close] *)
Definition close (s : InteractiveApprovalCoordinator) : InteractiveApprovalCoordinator :=
  MkCoordinator ∅ (foldr (settle_with (Result None)) (co_futures s) ((fun p : string * Pending => pn_future p.2) <$> map_to_list (co_pending s))) (co_waiters s).

(** ** Steps of arbitrary callers and of the event loop *)
Inductive label : Type :=
| LRequest (a : Asked)
| LPublish (i : nat) (p : publication)
| LInterrupt (i : nat) (k : interruption)
| LResume (i : nat) (now : Z)
| LDecide (challenge_id principal_id : string) (approved : bool) (approved_by : string)
| LClose.

Inductive answer : Type := Nothing | Decided (accepted : bool).

Definition act (l : label) (s : InteractiveApprovalCoordinator) : option (answer * InteractiveApprovalCoordinator) :=
  match l with
  | LRequest a => Some (Nothing, begin_request s a)
  | LPublish i p =>
      w ← co_waiters s !! i;
      match wt_task w with Publishing => Some (Nothing, end_publish s i w p) | _ => None end
  | LInterrupt i k =>
      w ← co_waiters s !! i;
      match wt_task w with Awaiting => Some (Nothing, interrupt s i w k) | _ => None end
  | LResume i now =>
      w ← co_waiters s !! i;
      match wt_task w, co_futures s !! i with
      | Awaiting, Some (Result approver) => Some (Nothing, leave s i w false (decided w approver now))
      | Interrupted TimedOut, _ => Some (Nothing, leave s i w true (Returned None))
      | Interrupted TaskCancelled, _ => Some (Nothing, leave s i w true (Raised CancelledError))
      | _, _ => None
      end
  | LDecide c p approved approved_by => let (b, s) := decide_challenge s c p approved approved_by in Some (Decided b, s)
  | LClose => Some (Nothing, close s)
  end.

Definition history : Type := list (label * answer).

Inductive reach : history -> InteractiveApprovalCoordinator -> Prop :=
| reach_start : reach [] (MkCoordinator ∅ [] [])
| reach_step h s l a s' : reach h s -> act l s = Some (a, s') -> reach (h ++ [(l, a)]) s'.

(** ** What every history satisfies *)
Definition requests (h : history) : list Asked := omap (fun x : label * answer => match x.1 with LRequest a => Some a | _ => None end) h.

Definition principal_of (a : Asked) : string := rs_principal_id (rq_scope (ak_request a)).

(** Request [i] was there, and then [approver] approved it in the name of its principal. *)
Definition accepted (h : history) (i : nat) (approver : string) : Prop :=
  exists a h1 h2, requests h !! i = Some a /\ (i < length (requests h1))%nat /\
    h = h1 ++ (LDecide (ak_token a) (principal_of a) true approver, Decided true) :: h2.

Record inv (h : history) (s : InteractiveApprovalCoordinator) : Prop := {
  iv_futures : length (co_futures s) = length (requests h);
  iv_length : length (co_waiters s) = length (requests h);
  iv_waiters : forall i w, co_waiters s !! i = Some w ->
    exists a, requests h !! i = Some a /\ wt_challenge w = challenge_of a /\ wt_target w = ak_target a;
  iv_pending : forall id pn, co_pending s !! id = Some pn ->
    exists a w, requests h !! pn_future pn = Some a /\ pn_challenge pn = challenge_of a /\ pn_target pn = ak_target a /\ ak_token a = id /\
      co_waiters s !! pn_future pn = Some w /\ forall r, wt_task w <> Over r;
  iv_results : forall i approver, co_futures s !! i = Some (Result (Some approver)) -> accepted h i approver;
  iv_bindings : forall i w b, co_waiters s !! i = Some w -> wt_task w = Over (Returned (Some b)) ->
    exists approver now, accepted h i approver /\ approval_binding (wt_target w) approver (Aware now) (Aware (now + seconds 30)) = Ok b;
}.

Lemma requests_app h1 h2 : requests (h1 ++ h2) = requests h1 ++ requests h2.
Proof. apply omap_app. Qed.

Lemma accepted_later h l i approver : accepted h i approver -> accepted (h ++ l) i approver.
Proof.
  intros (a & h1 & h2 & Hr & Hi & ->). exists a, h1, (h2 ++ l). split_and!; [|done|by rewrite <- app_assoc].
  rewrite requests_app. by apply lookup_app_l_Some.
Qed.

Lemma settle_with_length v i futures : length (settle_with v i futures) = length futures.
Proof. unfold settle_with. destruct (futures !! i) as [[]|]; [apply length_insert|done..]. Qed.

Lemma settle_with_result v i futures j approver : v <> Result (Some approver) ->
  settle_with v i futures !! j = Some (Result (Some approver)) -> futures !! j = Some (Result (Some approver)).
Proof.
  intros Hv. unfold settle_with. destruct (futures !! i) as [[]|] eqn:Hi; [|done..]. destruct (decide (i = j)) as [->|Hne].
  - rewrite list_lookup_insert_eq by (by eapply lookup_lt_Some). intros [= ->]. done.
  - by rewrite list_lookup_insert_ne.
Qed.

Lemma settle_all_length v is_ futures : length (foldr (settle_with v) futures is_) = length futures.
Proof. induction is_ as [|i is_ IH]; simpl; [done|]. by rewrite settle_with_length. Qed.

Lemma settle_all_result v is_ futures j approver : v <> Result (Some approver) ->
  foldr (settle_with v) futures is_ !! j = Some (Result (Some approver)) -> futures !! j = Some (Result (Some approver)).
Proof. intros Hv. induction is_ as [|i is_ IH]; simpl; [done|]. intros Hj. apply IH. revert Hj. by apply settle_with_result. Qed.

(** Steps that request nothing keep what was said of the requests. *)
Lemma requests_quiet h l a : (forall x, l <> LRequest x) -> requests (h ++ [(l, a)]) = requests h.
Proof. intros Hl. rewrite requests_app. destruct l as [x| | | | |]; [by destruct (Hl x)|..]; simpl; by rewrite app_nil_r. Qed.

Lemma move_inv h s i w t futures : inv h s -> co_waiters s !! i = Some w -> (forall r, t <> Over r) -> length futures = length (co_futures s) ->
  (forall j approver, futures !! j = Some (Result (Some approver)) -> co_futures s !! j = Some (Result (Some approver))) ->
  inv h (MkCoordinator (co_pending s) futures (<[i := MkWaiter (wt_challenge w) (wt_target w) t]> (co_waiters s))).
Proof.
  intros [Hf Hl Hw Hp Hr Hb] Hi Ht Hlen Hres. pose proof (lookup_lt_Some _ _ _ Hi) as Hlt. split; simpl; [congruence|by rewrite length_insert| | |by eauto|].
  - intros j w' [(<- & <- & _)|[_ Hj]]%list_lookup_insert_Some; [|by apply Hw]. exact (Hw _ _ Hi).
  - intros id pn Hid. destruct (Hp id pn Hid) as (a & w' & Ha & Hc & Htg & Htok & Hw' & Hov). destruct (decide (i = pn_future pn)) as [->|Hne].
    + exists a, (MkWaiter (wt_challenge w) (wt_target w) t). by rewrite list_lookup_insert_eq.
    + exists a, w'. by rewrite list_lookup_insert_ne.
  - intros j w' b [(<- & <- & _)|[_ Hj]]%list_lookup_insert_Some; simpl; [|by apply Hb]. intros ->. by destruct (Ht (Returned (Some b))).
Qed.

Lemma waiter_leave_inv h s i w cancel r : inv h s -> co_waiters s !! i = Some w ->
  (forall b, r = Returned (Some b) -> exists approver now, accepted h i approver /\ approval_binding (wt_target w) approver (Aware now) (Aware (now + seconds 30)) = Ok b) ->
  inv h (leave s i w cancel r).
Proof.
  intros [Hf Hl Hw Hp Hr Hb] Hi Ho. pose proof (lookup_lt_Some _ _ _ Hi) as Hlt. split; simpl.
  - destruct cancel; [by rewrite settle_with_length|done].
  - by rewrite length_insert.
  - intros j w' [(<- & <- & _)|[_ Hj]]%list_lookup_insert_Some; [|by apply Hw]. exact (Hw _ _ Hi).
  - intros id pn [Hne Hid]%lookup_delete_Some. destruct (Hp id pn Hid) as (a & w' & Ha & Hc & Htg & Htok & Hw' & Hov).
    exists a, w'. rewrite list_lookup_insert_ne; [done|]. intros ->. destruct (Hw _ _ Hi) as (a' & Ha' & Hc' & _).
    assert (a' = a) as -> by congruence. apply Hne. by rewrite Hc', <- Htok.
  - intros j approver Hj. apply Hr. destruct cancel; [by apply (settle_with_result Cancelled i)|done].
  - intros j w' b [(<- & <- & _)|[_ Hj]]%list_lookup_insert_Some; simpl; [|by apply Hb]. intros [= Heq]. by apply Ho.
Qed.

(** What was known stays known *)
Lemma coordinator_inv_later h s l a : (forall x, l <> LRequest x) -> inv h s -> inv (h ++ [(l, a)]) s.
Proof.
  intros Hl [Hf Hlen Hw Hp Hr Hb]. pose proof (requests_quiet h l a Hl) as Hq. split; rewrite ?Hq; try done.
  - intros i approver Hi. by apply accepted_later, Hr.
  - intros i w b Hi Hov. destruct (Hb i w b Hi Hov) as (approver & now & ? & ?). exists approver, now. split; [by apply accepted_later|done].
Qed.

Lemma begin_inv h s a : inv h s -> inv (h ++ [(LRequest a, Nothing)]) (begin_request s a).
Proof.
  intros [Hf Hlen Hw Hp Hr Hb]. assert (requests (h ++ [(LRequest a, Nothing)]) = requests h ++ [a]) as Hq by (by rewrite requests_app).
  split; rewrite ?Hq; simpl.
  - rewrite !length_app. simpl. lia.
  - rewrite !length_app. simpl. lia.
  - intros i w [Hi|[Hge Hi]]%lookup_app_Some.
    + destruct (Hw i w Hi) as (b & Hb' & ? & ?). exists b. split; [by apply lookup_app_l_Some|done].
    + apply list_lookup_singleton_Some in Hi as [Hi <-]. exists a. split; [|done]. apply lookup_app_Some. right. rewrite <- Hlen. by rewrite Hi.
  - intros id pn [[<- <-]|[Hne Hid]]%lookup_insert_Some; simpl.
    + exists a, (MkWaiter (challenge_of a) (ak_target a) Publishing). split_and!; try done.
      * by rewrite Hf, list_lookup_middle.
      * by rewrite Hf, <- Hlen, list_lookup_middle.
    + destruct (Hp id pn Hid) as (b & w & Hb' & ? & ? & ? & Hw' & ?). exists b, w. split_and!; try done; by apply lookup_app_l_Some.
  - intros i approver [Hi|[_ Hi]]%lookup_app_Some; [by apply accepted_later, Hr|]. apply list_lookup_singleton_Some in Hi as [_ [=]].
  - intros i w b [Hi|[_ Hi]]%lookup_app_Some Hov.
    + destruct (Hb i w b Hi Hov) as (approver & now & ? & ?). exists approver, now. split; [by apply accepted_later|done].
    + apply list_lookup_singleton_Some in Hi as [_ <-]. done.
Qed.

Lemma decide_inv h s id p approved by_ : inv h s ->
  inv (h ++ [(LDecide id p approved by_, Decided (decide_challenge s id p approved by_).1)]) (decide_challenge s id p approved by_).2.
Proof.
  intros Hi. assert (forall x, LDecide id p approved by_ <> LRequest x) as Hl by done. unfold decide_challenge.
  destruct (co_pending s !! id) as [pn|] eqn:Hpn; [|by apply coordinator_inv_later].
  destruct (co_futures s !! pn_future pn) as [[]|] eqn:Hfut; try by apply coordinator_inv_later.
  case_bool_decide as Hpr; [|by apply coordinator_inv_later]. simpl. pose proof (coordinator_inv_later h s _ (Decided true) Hl Hi) as [Hf Hlen Hw Hp Hr Hb].
  split; simpl; [by rewrite length_insert|done..| |done].
  intros i approver [(<- & Heq & _)|[_ Hj]]%list_lookup_insert_Some; [|by apply Hr]. destruct approved; [|done]. injection Heq as ->.
  destruct (iv_pending _ _ Hi _ _ Hpn) as (a & w & Ha & Hc & _ & <- & _). exists a, h, []. split_and!.
  - rewrite requests_quiet; done.
  - by eapply lookup_lt_Some.
  - unfold principal_of. rewrite Hc in Hpr. simpl in Hpr. by rewrite Hpr.
Qed.

Lemma coordinator_act_inv h s l a s' : inv h s -> act l s = Some (a, s') -> inv (h ++ [(l, a)]) s'.
Proof.
  intros Hi. destruct l as [x|i p|i k|i now|id p approved by_|]; simpl.
  - intros [= <- <-]. by apply begin_inv.
  - destruct (co_waiters s !! i) as [w|] eqn:Hw; simpl; [|done]. destruct (wt_task w); try done. intros [= <- <-].
    pose proof (coordinator_inv_later h s (LPublish i p) Nothing ltac:(done) Hi) as Hi'. destruct p; simpl; [by apply move_inv|by apply waiter_leave_inv..].
  - destruct (co_waiters s !! i) as [w|] eqn:Hw; simpl; [|done]. destruct (wt_task w); try done. intros [= <- <-].
    pose proof (coordinator_inv_later h s (LInterrupt i k) Nothing ltac:(done) Hi) as Hi'. apply (move_inv _ s i w (Interrupted k)); [done..|apply settle_with_length|].
    intros j approver. by apply (settle_with_result Cancelled i).
  - destruct (co_waiters s !! i) as [w|] eqn:Hw; simpl; [|done]. pose proof (coordinator_inv_later h s (LResume i now) Nothing ltac:(done) Hi) as Hi'.
    destruct (wt_task w) as [| |[]|]; try done; [|intros [= <- <-]; by apply waiter_leave_inv..].
    destruct (co_futures s !! i) as [[|approver|]|] eqn:Hf; try done. intros [= <- <-]. apply waiter_leave_inv; [done..|].
    intros b. unfold decided. destruct approver as [approver|]; [|done].
    destruct (approval_binding _ _ _ _) as [binding|] eqn:Hb; [|done]. intros [= ->]. exists approver, now. split; [|done]. by apply (iv_results _ _ Hi').
  - destruct (decide_challenge s id p approved by_) as [b s1] eqn:Hd. intros [= <- <-]. pose proof (decide_inv h s id p approved by_ Hi) as Hd'. by rewrite Hd in Hd'.
  - intros [= <- <-]. destruct (coordinator_inv_later h s LClose Nothing ltac:(done) Hi) as [Hf Hlen Hw Hp Hr Hb].
    split; simpl; [by rewrite settle_all_length|done..| |done]. intros i approver Hj. apply Hr. revert Hj. by apply settle_all_result.
Qed.

Lemma coordinator_inv h s : reach h s -> inv h s.
Proof.
  induction 1 as [|h s l a s' _ IH Ha]; [|by eapply coordinator_act_inv]. split; simpl; done.
Qed.

(** ** A challenge is decided once *)
Definition accepts (id : string) (x : label * answer) : Prop := exists p approved by_, x = (LDecide id p approved by_, Decided true).

(** Nobody waits under this id for a decision any more. *)
Definition decided_already (id : string) (s : InteractiveApprovalCoordinator) : Prop :=
  forall pn, co_pending s !! id = Some pn -> exists f, co_futures s !! pn_future pn = Some f /\ is_done f = true.

Definition only_settles (futures futures' : list future) : Prop :=
  forall j f, futures !! j = Some f -> is_done f = true -> exists f', futures' !! j = Some f' /\ is_done f' = true.

Lemma settle_with_settles v i futures : is_done v = true -> only_settles futures (settle_with v i futures).
Proof.
  intros Hv j f Hj Hf. unfold settle_with. destruct (futures !! i) as [[]|] eqn:Hi; eauto. destruct (decide (i = j)) as [->|Hne].
  - exists v. split; [|done]. apply list_lookup_insert_eq. by eapply lookup_lt_Some.
  - exists f. by rewrite list_lookup_insert_ne.
Qed.

Lemma decided_later id s pending futures waiters : decided_already id s -> (forall pn, pending !! id = Some pn -> co_pending s !! id = Some pn) ->
  only_settles (co_futures s) futures -> decided_already id (MkCoordinator pending futures waiters).
Proof. intros Hd Hp Hf pn Hpn. destruct (Hd pn (Hp _ Hpn)) as (f & Hj & Hdone). by eapply Hf. Qed.

Lemma delete_keeps id id' (pending : gmap string Pending) pn : delete id' pending !! id = Some pn -> pending !! id = Some pn.
Proof. by intros [_ ?]%lookup_delete_Some. Qed.

Lemma only_settles_refl futures : only_settles futures futures.
Proof. intros j f. eauto. Qed.

Lemma leave_decided id s i w cancel r : decided_already id s -> decided_already id (leave s i w cancel r).
Proof.
  intros Hd. eapply decided_later; [exact Hd|intros pn; apply delete_keeps|]. destruct cancel; [by apply settle_with_settles|apply only_settles_refl].
Qed.

Lemma act_decided id l s a s' : decided_already id s -> (forall x, l = LRequest x -> ak_token x <> id) -> act l s = Some (a, s') ->
  decided_already id s' /\ ~ accepts id (l, a).
Proof.
  intros Hd Hl. destruct l as [x|i p|i k|i now|c p approved by_|]; simpl.
  - intros [= <- <-]. split; [|by intros (? & ? & ? & ?)]. intros pn Hpn. simpl in Hpn. rewrite lookup_insert_ne in Hpn by (by apply (Hl x)).
    destruct (Hd pn Hpn) as (f & Hj & Hf). exists f. split; [by apply lookup_app_l_Some|done].
  - destruct (co_waiters s !! i) as [w|]; simpl; [|done]. destruct (wt_task w); try done. intros [= <- <-]. split; [|by intros (? & ? & ? & ?)].
    destruct p; simpl; [done|by apply leave_decided..].
  - destruct (co_waiters s !! i) as [w|]; simpl; [|done]. destruct (wt_task w); try done. intros [= <- <-]. split; [|by intros (? & ? & ? & ?)].
    eapply decided_later; [exact Hd|done|by apply settle_with_settles].
  - destruct (co_waiters s !! i) as [w|]; simpl; [|done]. intros Ha. split.
    + destruct (wt_task w) as [| |[]|]; try done; [destruct (co_futures s !! i) as [[]|]; try done|..]; injection Ha as <- <-; by apply leave_decided.
    + intros (? & ? & ? & [=]).
  - unfold decide_challenge. destruct (co_pending s !! c) as [pn|] eqn:Hpn; [|intros [= <- <-]; split; [done|by intros (? & ? & ? & [=])]].
    destruct (co_futures s !! pn_future pn) as [f|] eqn:Hf; [|intros [= <- <-]; split; [done|by intros (? & ? & ? & [=])]].
    destruct f; [|intros [= <- <-]; split; [done|by intros (? & ? & ? & [=])]..].
    destruct (negb _); intros [= <- <-]; [split; [done|by intros (? & ? & ? & [=])]|]. split.
    + eapply decided_later; [exact Hd|done|]. intros j f' Hj Hdone. destruct (decide (pn_future pn = j)) as [<-|Hne]; [rewrite Hf in Hj; by injection Hj as <-|].
      exists f'. by rewrite list_lookup_insert_ne.
    + intros (? & ? & ? & [= -> -> -> ->]). destruct (Hd pn Hpn) as (f & Hj & Hdone). rewrite Hf in Hj. by injection Hj as <-.
  - intros [= <- <-]. split; [|by intros (? & ? & ? & ?)]. intros pn Hpn. simpl in Hpn. by rewrite lookup_empty in Hpn.
Qed.

Lemma accept_decided id s l a s' : accepts id (l, a) -> act l s = Some (a, s') -> decided_already id s' /\ exists pn, co_pending s !! id = Some pn.
Proof.
  intros (p & approved & by_ & [= -> ->]). simpl. unfold decide_challenge. destruct (co_pending s !! id) as [pn|] eqn:Hpn; [|done].
  destruct (co_futures s !! pn_future pn) as [[]|] eqn:Hf; try done. destruct (negb _); [done|]. intros [= <-]. split; [|by exists pn].
  intros pn' Hpn'. simpl in *. rewrite Hpn in Hpn'. injection Hpn' as <-. exists (Result (if approved then Some by_ else None)). split; [|done].
  apply list_lookup_insert_eq. by eapply lookup_lt_Some.
Qed.

Lemma decided_once h s : reach h s -> NoDup (ak_token <$> requests h) -> forall id h1 x h2, h = h1 ++ x :: h2 -> accepts id x ->
  decided_already id s /\ id ∈ ak_token <$> requests h /\ forall y, y ∈ h2 -> ~ accepts id y.
Proof.
  induction 1 as [|h s l a s' Hreach IH Ha]; intros Hnd id h1 x h2 Heq Hx; [by destruct h1|].
  rewrite requests_app, fmap_app in Hnd. destruct h2 as [|y h2 _] using rev_ind.
  - apply app_inj_tail in Heq as [-> <-]. apply accept_decided with (id := id) in Ha as [Hd [pn Hpn]]; [|done]. split; [done|]. split; [|by intros y Hy%not_elem_of_nil].
    destruct (iv_pending _ _ (coordinator_inv _ _ Hreach) _ _ Hpn) as (b & w & Hb & _ & _ & <- & _).
    rewrite requests_app, fmap_app. apply elem_of_app. left. apply list_elem_of_fmap. exists b. split; [done|]. by eapply list_elem_of_lookup_2.
  - rewrite app_comm_cons, app_assoc in Heq. apply app_inj_tail in Heq as [-> <-]. apply NoDup_app in Hnd as (Hnd & Hdis & _).
    destruct (IH Hnd id h1 x h2 eq_refl Hx) as (Hd & Hin & Hno). apply act_decided with (id := id) in Ha as [Hd' Hna]; [|done|].
    + split; [done|]. split; [rewrite requests_app, fmap_app; apply elem_of_app; by left|]. intros y [Hy| ->%list_elem_of_singleton]%elem_of_app; [by apply Hno|done].
    + intros z -> Htok. apply (Hdis id Hin). simpl. rewrite Htok. by left.
Qed.

(** C26. An interactive approval is the decision of its own principal, made once.  When [request_approval] returns a
    binding, after any interleaving of requests, decisions, timeouts, cancellations and [close], it approves exactly the
    target of that request, for thirty seconds from then, in the name of the approver whose
    positive decision - under this request's challenge, in the name of the principal of this
    request, after the request was registered - was accepted; and, tokens being drawn once, no
    other decision on this challenge was ever accepted. *)
Theorem interactive_approvals_are_personal h s i w binding :
  reach h s -> co_waiters s !! i = Some w -> wt_task w = Over (Returned (Some binding)) ->
  exists a approver, requests h !! i = Some a /\ accepted h i approver /\
    ab_target binding = ak_target a /\ ab_approved_by binding = approver /\ IDENTIFIER approver = true /\
    ab_expires_at binding = ab_issued_at binding + seconds 30 /\
    (NoDup (ak_token <$> requests h) -> forall principal approved by_, (LDecide (ak_token a) principal approved by_, Decided true) ∈ h ->
       principal = principal_of a /\ approved = true /\ by_ = approver).
Proof.
  intros Hreach Hi Hov. destruct (coordinator_inv _ _ Hreach) as [_ _ Hw _ _ Hb]. destruct (Hw i w Hi) as (a & Ha & _ & Htarget).
  destruct (Hb i w binding Hi Hov) as (approver & now & Hacc & Hbind). exists a, approver. unfold approval_binding in Hbind. simpl in Hbind.
  py_simpl. match goal with Hid : identifier approver = Ok _ |- _ => apply identifier_Ok in Hid as [Hid ->] end. simpl.
  split_and!; try done. intros Hnd p approved by_ Hin. destruct Hacc as (a' & h1 & h2 & Ha' & _ & Heq). assert (a' = a) as -> by congruence.
  assert (accepts (ak_token a) (LDecide (ak_token a) (principal_of a) true approver, Decided true)) as Hx by (by do 3 eexists).
  assert (accepts (ak_token a) (LDecide (ak_token a) p approved by_, Decided true)) as Hy by (by do 3 eexists).
  pose proof Hin as Hin'. rewrite Heq in Hin'. apply elem_of_app in Hin' as [(h3 & h4 & Hh)%list_elem_of_split|[Hsame|Hlate]%elem_of_cons].
  - destruct (decided_once _ _ Hreach Hnd (ak_token a) h3 (LDecide (ak_token a) p approved by_, Decided true) (h4 ++ (LDecide (ak_token a) (principal_of a) true approver, Decided true) :: h2)) as (_ & _ & Hno);
      [by rewrite Heq, Hh, <- app_assoc|done|]. destruct (Hno _ (proj2 (elem_of_app _ _ _) (or_intror (list_elem_of_here _ _))) Hx).
  - by injection Hsame as -> -> ->.
  - destruct (decided_once _ _ Hreach Hnd _ _ _ _ Heq Hx) as (_ & _ & Hno). by destruct (Hno _ Hlate Hy).
Qed.

(** A challenge that nobody waits for is not in the table, and every request can be brought to its end: a wait is
    over once its future is done or the timeout has passed, whatever the others do; an accepted
    approval is then granted unless the wait was interrupted first. *)
Theorem waiting_requests_settle h s i w : reach h s -> co_waiters s !! i = Some w ->
  (forall r, wt_task w = Over r -> forall id pn, co_pending s !! id = Some pn -> pn_future pn <> i) /\
  (wt_task w = Awaiting -> forall now, exists s1 s2, act (LInterrupt i TimedOut) s = Some (Nothing, s1) /\ act (LResume i now) s1 = Some (Nothing, s2) /\
     exists w', co_waiters s2 !! i = Some w' /\ wt_task w' = Over (Returned None)) /\
  (wt_task w = Awaiting -> forall approver now, co_futures s !! i = Some (Result (Some approver)) -> IDENTIFIER approver = true ->
     exists s1, act (LResume i now) s = Some (Nothing, s1) /\ exists w', co_waiters s1 !! i = Some w' /\
       wt_task w' = Over (Returned (Some (MkApprovalBinding (wt_target w) approver now (now + seconds 30))))).
Proof.
  intros Hreach Hi. pose proof (coordinator_inv _ _ Hreach) as [_ _ _ Hp _ _]. pose proof (lookup_lt_Some _ _ _ Hi) as Hlt. split_and!.
  - intros r Hov id pn Hpn <-. destruct (Hp id pn Hpn) as (_ & w' & _ & _ & _ & _ & Hw' & Hno). rewrite Hi in Hw'. injection Hw' as <-. by apply (Hno r).
  - intros Ht now. simpl. rewrite Hi. simpl. rewrite Ht. do 2 eexists. split; [done|]. simpl. rewrite list_lookup_insert_eq by done. simpl. split; [done|].
    eexists. simpl. split; [apply list_lookup_insert_eq; by rewrite length_insert|done].
  - intros Ht approver now Hf Hid. simpl. rewrite Hi. simpl. rewrite Ht, Hf. eexists. split; [done|]. eexists. split; [by apply list_lookup_insert_eq|]. simpl.
    unfold decided, approval_binding. unfold identifier. rewrite Hid. simpl. assert (now <? now + seconds 30 = true) as -> by (unfold seconds; lia). done.
Qed.
End Steps.
End Coordinator.

(** ** One approval, and an imposter *)
#[local] Instance demo_hash : Hashing := fun _ => "0000000000000000000000000000000000000000000000000000000000000000".
Definition demo_request : RunRequest :=
  MkRunRequest "r1" (MkRequestScope (MkScopePath AGENT (Some "acme") (Some "crm") (Some "a1") (Some "s1")) "ann" "web" ∅ "run" "" "" None) "g1" (JStr "Go.")
    (MkConversationContext [] false "" "" false) false (MkExecutionBudget 4 5 1 44900000) None.
Definition demo_tool : ToolIdentity := MkToolIdentity "files" "wipe" "host" "1".
Definition demo_target : ApprovalTarget :=
  MkApprovalTarget (rs_path (rq_scope demo_request)) "ann" "r1" "c1" demo_tool "0000000000000000000000000000000000000000000000000000000000000000".
Definition demo_asked : Asked := MkAsked demo_request demo_target (MkToolSpec "wipe" "Wipes." {[DESTRUCTIVE]} ∅ []) [] "t1" 0.

Definition demo_labels : list label :=
  [LRequest demo_asked; LPublish 0 Published; LDecide "t1" "bob" true "bob"; LDecide "t1" "ann" true "chief"; LDecide "t1" "ann" false "ann"; LResume 0 7].

Fixpoint replay (timeout : Z) (ls : list label) (h : history) (s : InteractiveApprovalCoordinator) : option (history * InteractiveApprovalCoordinator) :=
  match ls with
  | [] => Some (h, s)
  | l :: ls => match act timeout l s with Some (a, s) => replay timeout ls (h ++ [(l, a)]) s | None => None end
  end.

Lemma coordinator_replay timeout ls h s h' s' : reach timeout h s -> replay timeout ls h s = Some (h', s') -> reach timeout h' s'.
Proof.
  revert h s. induction ls as [|l ls IH]; intros h s Hr; simpl; [by intros [= <- <-]|].
  destruct (act timeout l s) as [[a s1]|] eqn:Ha; [|done]. apply IH. by econstructor.
Qed.

Definition demo_end : history * InteractiveApprovalCoordinator := default ([], MkCoordinator ∅ [] []) (replay 60 demo_labels [] (MkCoordinator ∅ [] [])).
Definition demo_binding : ApprovalBinding := MkApprovalBinding demo_target "chief" 7 (7 + seconds 30).

Example demo_answers : demo_end.1.*2 = [Nothing; Nothing; Decided false; Decided true; Decided false; Nothing].
Proof. vm_compute. reflexivity. Qed.

Lemma interactive_approvals_are_personal_witness : accepted demo_end.1 0 (ab_approved_by demo_binding) /\ IDENTIFIER "chief" = true.
Proof.
  destruct (interactive_approvals_are_personal 60 demo_end.1 demo_end.2 0 (MkWaiter (challenge_of 60 demo_asked) demo_target (Over (Returned (Some demo_binding)))) demo_binding)
    as (a & approver & _ & Hacc & _ & Hby & Hid & _).
  - apply (coordinator_replay 60 demo_labels [] (MkCoordinator ∅ [] [])); [constructor|vm_compute; reflexivity].
  - vm_compute. reflexivity.
  - reflexivity.
  - rewrite Hby. simpl in Hby. split; [exact Hacc|]. by rewrite Hby.
Defined.
End Interactive.
