(* ===== verification/ChannelTasks.v ===== *)
(** * Background work of a connection ([channels/websocket/tasks.py])

    [ConnectionTaskGroup] with the tasks it started, interleaved with their ends, with the callbacks
    the event loop owes them, and with closers.  A set is iterated in an
    arbitrary order, which a step carries. *)
From S2P Require Import Prelude PyText.
Open Scope list_scope.

Module Connection.
Section Group.
(** What operations fail with: any [BaseException] *)
Context {E : Type}.

(** How a task ended: cancelled, returned, or failed *)
Inductive ended : Type := Cancelled | Returned | Failed (e : E).
Inductive status : Type := Running | Done (r : ended).

(** The group, every task it ever started, and what each [aclose] under way waits for *)
Record ConnectionTaskGroup : Type := MkGroup {
  tg_tasks : gset nat;
  tg_failures : list E;
  tg_closed : bool;
  tg_all : list status;
  tg_closers : list (option (gset nat));
}.

Definition failure_of (s : status) : option E := match s with Done (Failed e) => Some e | _ => None end.
Definition is_running (s : status) : bool := match s with Running => true | _ => false end.
Definition is_done (s : ConnectionTaskGroup) (i : nat) : bool := match tg_all s !! i with Some (Done _) => true | _ => false end.
Definition failed (s : ConnectionTaskGroup) (i : nat) : option E := tg_all s !! i ≫= failure_of.

(** [_finished] *)
Definition finished (s : ConnectionTaskGroup) (i : nat) : ConnectionTaskGroup :=
  if bool_decide (i ∉ tg_tasks s) then s else
  MkGroup (tg_tasks s ∖ {[i]}) (tg_failures s ++ option_list (failed s i)) (tg_closed s) (tg_all s) (tg_closers s).

(** [_reap_finished]; [order] is that of [tuple(self._tasks)] *)
Definition reap_finished (order : list nat) (s : ConnectionTaskGroup) : ConnectionTaskGroup :=
  foldl (fun s i => if is_done s i then finished s i else s) s order.

(** [_raise_failures]: one failure is raised itself, several as a group *)
Definition raise_failures (s : ConnectionTaskGroup) : list E * ConnectionTaskGroup :=
  (tg_failures s, MkGroup (tg_tasks s) [] (tg_closed s) (tg_all s) (tg_closers s)).

Inductive answer : Type :=
| Nothing
| Started (b : bool)
| Count (n : nat)
| Raises (failures : list E)
| RuntimeError.

(** [__init__]: an integer of at least one, and no [bool] *)
Definition connection_task_group (max_concurrent : pyarg) : res (nat * ConnectionTaskGroup) :=
  match max_concurrent with
  | AInt n => if (n <? 1)%Z then Raise ValueError else Ok (Z.to_nat n, MkGroup ∅ [] false [] [])
  | _ => Raise ValueError
  end.

Context (limit : nat).

(** [try_start]: the operation is called when there is capacity *)
Definition try_start (order : list nat) (s : ConnectionTaskGroup) : answer * ConnectionTaskGroup :=
  let (failures, s) := raise_failures (reap_finished order s) in
  match failures with
  | [] =>
      if tg_closed s then (RuntimeError, s)
      else if bool_decide (limit <= size (tg_tasks s))%nat then (Started false, s)
      else (Started true, MkGroup ({[length (tg_all s)]} ∪ tg_tasks s) (tg_failures s) (tg_closed s) (tg_all s ++ [Running]) (tg_closers s))
  | _ => (Raises failures, s)
  end.

(** [active_count] *)
Definition active_count (order : list nat) (s : ConnectionTaskGroup) : answer * ConnectionTaskGroup :=
  let s := reap_finished order s in (Count (size (tg_tasks s)), s).

(** [aclose] up to the [gather]: cancelling a task is a request to it *)
Definition close_begin (s : ConnectionTaskGroup) : ConnectionTaskGroup :=
  MkGroup (tg_tasks s) (tg_failures s) true (tg_all s) (tg_closers s ++ [Some (tg_tasks s)]).

Definition end_closer (k : nat) (s : ConnectionTaskGroup) : ConnectionTaskGroup :=
  MkGroup (tg_tasks s) (tg_failures s) (tg_closed s) (tg_all s) (<[k := None]> (tg_closers s)).

(** ... and after it *)
Definition close_finish (order : list nat) (k : nat) (s : ConnectionTaskGroup) : answer * ConnectionTaskGroup :=
  let (failures, s) := raise_failures (reap_finished order s) in
  (match failures with [] => Nothing | _ => Raises failures end, end_closer k s).

(** ** Steps: callers, tasks, the event loop's callbacks, closers that end or are cancelled *)
Inductive label : Type :=
| LStart (order : list nat)
| LCount (order : list nat)
| LEnd (i : nat) (r : ended)
| LCallback (i : nat)
| LClose
| LClosed (order : list nat) (k : nat)
| LCloseCancelled (k : nat).

Definition iterates (order : list nat) (s : ConnectionTaskGroup) : bool := bool_decide (order ≡ₚ elements (tg_tasks s)).

Definition act (l : label) (s : ConnectionTaskGroup) : option (answer * ConnectionTaskGroup) :=
  match l with
  | LStart order => if iterates order s then Some (try_start order s) else None
  | LCount order => if iterates order s then Some (active_count order s) else None
  | LEnd i r =>
      match tg_all s !! i with
      | Some Running => Some (Nothing, MkGroup (tg_tasks s) (tg_failures s) (tg_closed s) (<[i := Done r]> (tg_all s)) (tg_closers s))
      | _ => None
      end
  | LCallback i => if is_done s i then Some (Nothing, finished s i) else None
  | LClose => Some (Nothing, close_begin s)
  | LClosed order k =>
      match tg_closers s !! k with
      | Some (Some pending) => if iterates order s && forallb (is_done s) (elements pending) then Some (close_finish order k s) else None
      | _ => None
      end
  | LCloseCancelled k =>
      match tg_closers s !! k with Some (Some _) => Some (Nothing, end_closer k s) | _ => None end
  end.

Definition history : Type := list (label * answer).

Inductive reach : history -> ConnectionTaskGroup -> Prop :=
| reach_start : reach [] (MkGroup ∅ [] false [] [])
| reach_step h s l a s' : reach h s -> act l s = Some (a, s') -> reach (h ++ [(l, a)]) s'.

(** ** What every history satisfies *)
Definition reported (h : history) : list E := List.concat ((fun x : label * answer => match x.2 with Raises failures => failures | _ => [] end) <$> h).

(** The failures of the tasks the group still holds *)
Definition unreaped (s : ConnectionTaskGroup) : list E := omap (failed s) (elements (tg_tasks s)).
Definition all_failures (s : ConnectionTaskGroup) : list E := omap failure_of (tg_all s).

Record inv (told : list E) (s : ConnectionTaskGroup) : Prop := {
  iv_known : forall i, i ∈ tg_tasks s -> (i < length (tg_all s))%nat;
  iv_running : forall i, tg_all s !! i = Some Running -> i ∈ tg_tasks s;
  iv_bounded : (size (tg_tasks s) <= limit)%nat;
  iv_told : told ++ tg_failures s ++ unreaped s ≡ₚ all_failures s;
  iv_closing : forall k pending, tg_closers s !! k = Some (Some pending) -> tg_closed s = true /\ forall i, tg_all s !! i = Some Running -> i ∈ pending;
}.

Lemma elements_remove i (X : gset nat) : i ∈ X -> elements X ≡ₚ i :: elements (X ∖ {[i]}).
Proof. intros Hi. rewrite <- elements_union_singleton by set_solver. by rewrite <- union_difference_singleton_L. Qed.

Lemma omap_ext_in {A B : Type} (f g : A -> option B) (l : list A) : (forall x, x ∈ l -> f x = g x) -> omap f l = omap g l.
Proof. intros Hfg. apply list_omap_ext, Forall_Forall2_diag, Forall_forall. exact Hfg. Qed.

Lemma ended_failures l i r : l !! i = Some Running -> omap failure_of (<[i := Done r]> l) ≡ₚ option_list (failure_of (Done r)) ++ omap failure_of l.
Proof.
  intros Hi. rewrite insert_take_drop by (by eapply lookup_lt_Some). rewrite <- (take_drop_middle l i Running Hi) at 3.
  rewrite !omap_app. cbn [omap list_omap failure_of]. destruct r; simpl; try done. by rewrite Permutation_middle.
Qed.

Lemma finished_inv told s i : is_done s i = true -> inv told s -> inv told (finished s i).
Proof.
  intros Hd [Hk Hr Hb Ht Hc]. unfold finished. case_bool_decide as Hi; [by split|]. split; simpl.
  - intros j Hj. apply Hk. set_solver.
  - intros j Hj. unfold is_done in Hd. assert (i <> j) by (intros ->; by rewrite Hj in Hd). set_solver.
  - etrans; [apply subseteq_size|exact Hb]. set_solver.
  - rewrite <- Ht. f_equiv. rewrite <- app_assoc. f_equiv. unfold unreaped. simpl. rewrite (elements_remove i (tg_tasks s)) by done. simpl.
    change (failed (MkGroup _ _ _ _ _)) with (failed s). by destruct (failed s i).
  - done.
Qed.

Lemma finished_same s i : tg_all (finished s i) = tg_all s /\ tg_closed (finished s i) = tg_closed s /\ tg_closers (finished s i) = tg_closers s /\
  tg_tasks (finished s i) = tg_tasks s ∖ {[i]}.
Proof. unfold finished. case_bool_decide; split_and!; try done. set_solver. Qed.

(** Reaping leaves the running tasks, and changes nothing but the tasks and the failures. *)
Lemma reap_spec told order s : inv told s -> order ≡ₚ elements (tg_tasks s) ->
  inv told (reap_finished order s) /\ tg_all (reap_finished order s) = tg_all s /\ tg_closed (reap_finished order s) = tg_closed s /\
  tg_closers (reap_finished order s) = tg_closers s /\ forall i, i ∈ tg_tasks (reap_finished order s) -> tg_all s !! i = Some Running.
Proof.
  intros Hi Hord. unfold reap_finished.
  assert (forall i, i ∈ tg_tasks s -> i ∈ order \/ tg_all s !! i = Some Running) as Hcover by (intros i Hin; left; rewrite Hord; by apply elem_of_elements).
  clear Hord. revert s Hi Hcover. induction order as [|i order IH]; intros s Hi Hcover; simpl.
  - split_and!; try done. intros i Hin. by destruct (Hcover i Hin) as [Hn%not_elem_of_nil|].
  - destruct (is_done s i) eqn:Hd.
    + destruct (finished_same s i) as (Ha & Hc & Hk & Ht). destruct (IH (finished s i)) as (? & ? & ? & ? & ?).
      * by apply finished_inv.
      * intros j. rewrite Ht, Ha. intros [Hj Hne]%elem_of_difference. destruct (Hcover j Hj) as [[->|?]%elem_of_cons|?]; [set_solver|by left|by right].
      * rewrite <- Ha, <- Hc, <- Hk. done.
    + apply IH; [done|]. intros j Hj. destruct (Hcover j Hj) as [[->|?]%elem_of_cons|?]; [|by left|by right]. right.
      unfold is_done in Hd. destruct (lookup_lt_is_Some_2 _ _ (iv_known _ _ Hi _ Hj)) as [[|] Hst]; [done|by rewrite Hst in Hd].
Qed.

Lemma raise_inv told s : inv told s -> inv (told ++ tg_failures s) (raise_failures s).2.
Proof. intros [Hk Hr Hb Ht Hc]. split; simpl; try done. rewrite <- app_assoc. exact Ht. Qed.

Lemma end_closer_inv told k s : inv told s -> inv told (end_closer k s).
Proof.
  intros [Hk Hr Hb Ht Hc]. split; simpl; try done. intros j pending [(_ & [=] & _)|[_ Hj]]%list_lookup_insert_Some. by apply (Hc j).
Qed.

Lemma reported_app h x : reported (h ++ [x]) = reported h ++ match x.2 with Raises failures => failures | _ => [] end.
Proof. unfold reported. rewrite fmap_app, concat_app. simpl. by rewrite app_nil_r. Qed.

Lemma start_inv told order s : inv told s -> order ≡ₚ elements (tg_tasks s) ->
  inv (told ++ match (try_start order s).1 with Raises failures => failures | _ => [] end) (try_start order s).2 /\
  ((try_start order s).1 = Started true -> tg_closed s = false).
Proof.
  intros Hi Hord. destruct (reap_spec told order s Hi Hord) as (Hi1 & Ha & Hc & Hk & Hrun). unfold try_start, raise_failures.
  set (s1 := reap_finished order s) in *. pose proof (raise_inv told s1 Hi1) as Hi2. unfold raise_failures in Hi2. simpl in Hi2 |- *.
  destruct (tg_failures s1) as [|e l]; [|done]. rewrite app_nil_r in Hi2. destruct (tg_closed s1) eqn:Hcl; simpl; rewrite ?app_nil_r; [done|].
  case_bool_decide as Hlim; simpl; rewrite ?app_nil_r; [done|]. split; [|by intros _; rewrite <- Hc]. destruct Hi2 as [Hk2 Hr2 Hb2 Ht2 Hc2]. simpl in *.
  assert (length (tg_all s1) ∉ tg_tasks s1) as Hfresh by (intros Hin; specialize (Hk2 _ Hin); lia). split; simpl.
  - intros i Hin. rewrite length_app. simpl. apply elem_of_union in Hin as [->%elem_of_singleton|Hin]; [lia|]. specialize (Hk2 i Hin). lia.
  - intros i [Hi'|[Hge Hi']]%lookup_app_Some; [apply Hr2 in Hi'; set_solver|]. apply list_lookup_singleton_Some in Hi' as [Hz _].
    assert (i = length (tg_all s1)) as -> by lia. set_solver.
  - rewrite size_union, size_singleton by set_solver. lia.
  - unfold all_failures, unreaped in *. simpl in *. rewrite omap_app. simpl. rewrite app_nil_r, <- Ht2. f_equiv. rewrite elements_union_singleton by done. simpl.
    match goal with |- context [failed ?g] => set (s2 := g) end.
    assert (failed s2 (length (tg_all s1)) = None) as -> by (unfold failed; simpl; by rewrite list_lookup_middle).
    fold (omap (failed s2) (elements (tg_tasks s1))). rewrite (omap_ext_in (failed s2) (failed s1)); [done|].
    intros i Hin%elem_of_elements. unfold failed. simpl. by rewrite lookup_app_l by (by apply Hk2).
  - intros k pending Hp. by destruct (Hc2 k pending Hp) as [[=] _].
Qed.

Lemma group_act_inv told l s a s' : inv told s -> act l s = Some (a, s') -> inv (told ++ match a with Raises failures => failures | _ => [] end) s'.
Proof.
  intros Hi. destruct l as [order|order|i r|i| |order k|k]; simpl.
  - unfold iterates. case_bool_decide as Ho; [|done]. intros [= Heq]. pose proof (proj1 (start_inv told order s Hi Ho)) as Hs. by rewrite Heq in Hs.
  - unfold iterates. case_bool_decide as Ho; [|done]. intros [= <- <-]. rewrite app_nil_r. by apply reap_spec.
  - destruct (tg_all s !! i) as [[|]|] eqn:Hst; try done. intros [= <- <-]. rewrite app_nil_r. destruct Hi as [Hk Hr Hb Ht Hc].
    assert (forall j, <[i:=Done r]> (tg_all s) !! j = Some Running -> tg_all s !! j = Some Running) as Hback.
    { intros j [(_ & [=] & _)|[_ ?]]%list_lookup_insert_Some. done. }
    split; simpl; [by intros j; rewrite length_insert; apply Hk|by intros j Hj; apply Hr, Hback|done| |].
    + unfold all_failures, unreaped in *. simpl. rewrite (ended_failures _ i r Hst), <- Ht.
      rewrite !(elements_remove i (tg_tasks s)) by (by apply Hr). simpl.
      assert (failed s i = None) as -> by (unfold failed; by rewrite Hst). 
      match goal with |- context [failed ?g i] => set (s2 := g) end.
      assert (failed s2 i = failure_of (Done r)) as -> by (unfold failed; simpl; by rewrite list_lookup_insert_eq by (by eapply lookup_lt_Some)).
      rewrite (omap_ext_in (failed s2) (failed s)).
      2:{ intros j Hj%elem_of_elements. unfold failed. simpl. rewrite list_lookup_insert_ne by set_solver. done. }
      destruct r as [| |e]; simpl; [done..|]. rewrite !app_assoc. symmetry. apply Permutation_middle.
    + intros k pending Hp. destruct (Hc k pending Hp) as [? Hin]. split; [done|]. intros j Hj. by apply Hin, Hback.
  - destruct (is_done s i) eqn:Hd; [|done]. intros [= <- <-]. rewrite app_nil_r. by apply finished_inv.
  - intros [= <- <-]. rewrite app_nil_r. destruct Hi as [Hk Hr Hb Ht Hc]. split; simpl; try done.
    intros k pending [Hp|[_ Hp]]%lookup_app_Some; [split; [done|]; by apply (Hc k)|]. apply list_lookup_singleton_Some in Hp as [_ [= <-]]. by split.
  - destruct (tg_closers s !! k) as [[pending|]|] eqn:Hk; try done. unfold iterates. case_bool_decide as Ho; [|done]. simpl.
    destruct (forallb _ _); [|done]. intros [= <- <-].
    destruct (reap_spec told order s Hi Ho) as (Hi1 & _). apply raise_inv in Hi1. unfold raise_failures in Hi1. simpl in Hi1.
    apply (end_closer_inv _ k) in Hi1. by destruct (tg_failures (reap_finished order s)).
  - destruct (tg_closers s !! k) as [[pending|]|] eqn:Hk; try done. intros [= <- <-]. rewrite app_nil_r. by apply end_closer_inv.
Qed.


Lemma group_inv h s : reach h s -> inv (reported h) s.
Proof.
  induction 1 as [|h s l a s' _ IH Ha].
  { split; [set_solver|done|apply Nat.le_0_l|reflexivity|done]. }
  rewrite reported_app. by eapply group_act_inv.
Qed.

(** C27. A connection's background work is bounded, and its failures are all raised, once.  In every state that is
    reached - by starts, ends of tasks, callbacks, closers in any interleaving and sets in
    any order - at most [max_concurrent] tasks run; the failures raised so far, those kept and those of
    ended tasks not yet reaped are together the failures of all tasks; once closing
    has begun nothing is started; and when an [aclose] comes to its end no task
    runs and every failure there was has been raised to somebody exactly once. *)
Theorem connection_work_is_bounded_and_accounted h s : reach h s ->
  (forall X : gset nat, (forall i, i ∈ X -> tg_all s !! i = Some Running) -> (size X <= limit)%nat) /\
  reported h ++ tg_failures s ++ unreaped s ≡ₚ all_failures s /\
  (tg_closed s = true -> forall order s', act (LStart order) s <> Some (Started true, s')) /\
  (forall order k a s', act (LClosed order k) s = Some (a, s') ->
     (forall i, tg_all s' !! i <> Some Running) /\ reported (h ++ [(LClosed order k, a)]) ≡ₚ all_failures s').
Proof.
  intros Hreach. pose proof (group_inv h s Hreach) as Hi. split_and!.
  - intros X HX. etrans; [apply subseteq_size|exact (iv_bounded _ _ Hi)]. intros i Hin. by apply (iv_running _ _ Hi), HX.
  - apply Hi.
  - intros Hcl order s'. simpl. unfold iterates. case_bool_decide as Ho; [|done]. intros [= Heq].
    destruct (start_inv _ order s Hi Ho) as [_ Hs]. rewrite Heq in Hs. specialize (Hs eq_refl). congruence.
  - intros order k a s' Ha. pose proof (group_act_inv _ _ _ _ _ Hi Ha) as Hi'. simpl in Ha. destruct (tg_closers s !! k) as [[pending|]|] eqn:Hk; try done.
    unfold iterates in Ha. case_bool_decide as Ho; [|done]. simpl in Ha. destruct (forallb (is_done s) (elements pending)) eqn:Hall; [|done].
    destruct (iv_closing _ _ Hi _ _ Hk) as [_ Hin]. rewrite forallb_forall in Hall.
    destruct (reap_spec _ order s Hi Ho) as (_ & Hsame & _ & _ & Hrun).
    assert (forall i, tg_all s !! i <> Some Running) as Hnone.
    { intros i Hri. specialize (Hin i Hri). apply elem_of_elements, list_elem_of_In, Hall in Hin. unfold is_done in Hin. by rewrite Hri in Hin. }
    assert (tg_all s' = tg_all s /\ tg_failures s' = [] /\ forall i, i ∉ tg_tasks s') as (Hs1 & Hs2 & Hs3).
    { injection Ha as <- <-. simpl. split_and!; [done|done|]. intros i Hi2. by destruct (Hnone i (Hrun i Hi2)). }
    split; [by rewrite Hs1|]. rewrite reported_app. simpl. rewrite <- (iv_told _ _ Hi'), Hs2. simpl. unfold unreaped.
    assert (tg_tasks s' = ∅) as -> by set_solver. rewrite elements_empty. simpl. by rewrite app_nil_r.
Qed.
End Group.

(** Two operations of at most two, of which one fails *)
Definition demo_labels : list (@label nat) := [LStart []; LStart [0%nat]; LStart [0; 1]%nat; LEnd 0 (Failed 7%nat); LClose; LEnd 1 Cancelled; LClosed [0; 1]%nat 0].

Fixpoint replay (limit : nat) (ls : list (@label nat)) (h : history) (s : ConnectionTaskGroup) : option (history * ConnectionTaskGroup) :=
  match ls with
  | [] => Some (h, s)
  | l :: ls => match act limit l s with Some (a, s) => replay limit ls (h ++ [(l, a)]) s | None => None end
  end.

Lemma group_replay limit ls h s h' s' : reach limit h s -> replay limit ls h s = Some (h', s') -> reach limit h' s'.
Proof.
  revert h s. induction ls as [|l ls IH]; intros h s Hr; simpl; [by intros [= <- <-]|].
  destruct (act limit l s) as [[a s1]|] eqn:Ha; [|done]. apply IH. by econstructor.
Qed.

Definition demo_end : @history nat * @ConnectionTaskGroup nat := default ([], MkGroup ∅ [] false [] []) (replay 2 demo_labels [] (MkGroup ∅ [] false [] [])).

Lemma connection_work_is_bounded_and_accounted_witness : demo_end.1.*2 = [Started true; Started true; Started false; Nothing; Nothing; Nothing; Raises [7%nat]] /\
  reported demo_end.1 ++ tg_failures demo_end.2 ++ unreaped demo_end.2 ≡ₚ all_failures demo_end.2.
Proof.
  split; [vm_compute; reflexivity|].
  refine (proj1 (proj2 (connection_work_is_bounded_and_accounted 2 demo_end.1 demo_end.2 _))).
  apply (group_replay 2 demo_labels [] (MkGroup ∅ [] false [] [])); [constructor|vm_compute; reflexivity].
Defined.
End Connection.
